(* ===== verification/_CoqProject ===== *)
-Q . S2P
Prelude.v
OpenAddressing.v
FixedHashTable.v
OrderIndex.v
HashProperties.v
BookTypes.v
DenseBook.v
Bitmap.v
LinkedQueue.v
BookFacts.v
DenseQueues.v
DenseFeed.v
DenseQueries.v
DenseMatch.v
DenseExchange.v
DenseProperties.v
PriceTimeBook.v
PriceTimeFacts.v
PriceTimeMatch.v
PriceTimeExchange.v
PriceTimeProperties.v
Itch50.v
Samples.v
UftTypes.v
UftAdapter.v
Engine.v
Pipeline.v
UftAdapterFacts.v
Recorder.v
PipelineFacts.v
PipelineProperties.v
EngineProperties.v
OrderLifecycle.v
LifecycleProperties.v
HistoricalFile.v
FileProperties.v
SpscRing.v
ShmRing.v
ShmFacts.v
ShmReader.v
ShmProperties.v
Binary64.v
WtsTypes.v
Level2.v
Level2Book.v
Level2Facts.v
Level2Threads.v
Level2Properties.v
WtsAdapter.v
WtsProperties.v
Fingerprint.v
Replay.v
ReplayFacts.v
ReplaySteps.v
Within.v
ReplayProperties.v
MoldUdp64.v
MoldFacts.v
MoldProperties.v
Recovery.v
RecoveryFacts.v
RecoveryProperties.v
MoldFeed.v
MoldFeedProperties.v
Loopback.v
LoopbackSender.v
LoopbackReceiver.v
LoopbackRuns.v
LoopbackProperties.v
QUftOpaque.v
Parser.v
Numerals.v
Inspect.v
WtsReplay.v
BookReplay.v
FormalBench.v
FormalBenchFacts.v
FormalBenchProperties.v
Smoke.v
Benches.v
