(* ===== verification/Prelude.v ===== *)
(** * A verification development for the QTrader HFT simulator

    The program under src/ is a set of C++ components of a low-latency trading
    simulator.  Market data arrives as NASDAQ ITCH 5.0 messages, either in
    MoldUDP64 datagrams or in a historical file; an adapter turns them into
    the events a strategy sees; a feed session keeps an order book beside it;
    rings hand data from one thread or process to another; tools replay,
    inspect and compare.  The development translates these components into
    executable definitions, one file (or a few) per component, and proves what
    makes each correct, alone and composed.

    ** How the parts interact

<<
   datagrams -> MoldUdp64 -> Recovery -+                     (MoldFeed)
                                       v
   file ------> HistoricalFile ----> Pipeline = UftAdapter + DenseBook
                     |                 |            + strategy
                     |                 +-> Engine (strategies, events)
                     +--> UftAdapter / WtsAdapter          (Replay)
                     +--> OrderLifecycle                   (Inspect)
                     +--> WtsAdapter + audit               (WtsReplay)
                     +--> MoldUdp64 -> socket -> MoldUdp64 (Loopback)

   events --> ShmRing --> reader --> SpscRing --> consumer (Level2)
                                                  + either order book
>>

    ** Files and sources

    (paths are relative to src/)

    - [Prelude]: machine integers, C++ arrays, record update, tactics, hints.
    - [OpenAddressing], [FixedHashTable], [OrderIndex], [HashProperties]:
      include/qtrader/FixedHashTable.hpp and the order-id index of the dense
      book, two open-addressing tables with backward-shift deletion over the
      same probe loops.  Specification: a finite map with a bound on its size.
    - [BookTypes], [BookFacts]: the vocabulary of both books and their common
      specification [BookSpec], price-time matching on the list of resting
      orders, oldest first.
    - [DenseBook]: components/include/qtrader/DensePriceOrderBook.hpp.
      [LinkedQueue], [Bitmap], [DenseQueues], [DenseFeed], [DenseQueries],
      [DenseMatch], [DenseExchange] prove that pool, free list, index, queues
      and bitmap represent a list of resting orders and that every operation
      acts on it as the specification; [DenseProperties] states it for whole
      histories.
    - [PriceTimeBook]: components/include/qtrader/PriceTimeOrderBook.hpp, with
      [PriceTimeFacts], [PriceTimeMatch], [PriceTimeExchange]
      and [PriceTimeProperties] to the same specification, so that the two
      books are interchangeable.
    - [Itch50]: include/qtrader/NasdaqItch50.hpp; [Samples]: encoded messages.
    - [UftTypes], [UftAdapter], [Engine], [Pipeline]: UftTypes.hpp,
      NasdaqItchUftAdapter.hpp, UftMarketDataEngine.hpp,
      UftBookMarketDataEngine.hpp, UftOrderBookPipeline.hpp of
      include/qtrader.  The adapter is proved against the typeclass
      [MarketDataEngine], which both engines and the pipeline's inner engine
      instantiate.  [UftAdapterFacts], [PipelineFacts], [PipelineProperties]
      and [EngineProperties] hold the theorems.
    - [OrderLifecycle], [LifecycleProperties]:
      include/qtrader/NasdaqItchOrderLifecycle.hpp.
    - [HistoricalFile], [FileProperties]: include/qtrader/NasdaqItchFile.hpp
      over the class [PosixFile] of file systems.
    - [SpscRing]: components/include/qtrader/SpscRing.hpp.
    - [ShmRing], [ShmFacts], [ShmReader], [ShmProperties]:
      components/include/qtrader/ShmRingProtocol.hpp.
    - [Level2], [Level2Book], [Level2Facts], [Level2Threads],
      [Level2Properties]: src/Level2Pipeline.cpp over both rings and the class
      [OrderBook] of books.
    - [Binary64], [WtsTypes]: doubles, and the WonderTrader structures.
    - [WtsAdapter], [WtsProperties]: include/qtrader/NasdaqItchWtsAdapter.hpp.
    - [Fingerprint]: WtsEventFingerprint.hpp.
    - [Replay], [ReplayFacts], [ReplaySteps], [ReplayProperties]:
      tools/NasdaqItchUftDifferentialReplay.cpp.
    - [MoldUdp64], [MoldFacts], [MoldProperties]: include/qtrader/MoldUdp64.hpp.
    - [Recovery], [RecoveryFacts], [RecoveryProperties]: MoldUdp64Recovery.hpp.
    - [MoldFeed], [MoldFeedProperties]: UftBookMoldFeed.hpp.
    - [Loopback], [LoopbackSender], [LoopbackReceiver],
      [LoopbackRuns], [LoopbackProperties]:
      tools/NasdaqMoldUdpLoopback.cpp over the class [Network] of sockets.
    - [Recorder]: the engine that records what is published, on which
      adapter and host theorems are stated.
    - [QUftOpaque]: QUftOpaque.cpp and QUftOpaque.hpp, over
      adapter and engine.
    - [Parser]: ParserITCH.cpp, over scan and adapter; the
      host framework is the sequence of calls made on it.
    - [Within]: adapters, tracker and tools read nothing behind a message.
    - [Numerals]: the decimal conversions of the C++ library.
    - [Inspect]: tools/NasdaqItchInspect.cpp, over scan and
      tracker; [WtsReplay]: tools/NasdaqItchWtsReplay.cpp;
      [BookReplay]: tools/UftOrderBookReplay.cpp, over
      scan and pipeline.
    - [FormalBench], [FormalBenchFacts], [FormalBenchProperties]:
      ParserITCHUftFormalBench.cpp, over both adapters, the opaque
      seam and the scan; what the framework between parser and strategy does is
      a parameter, cycle counters and clocks are readings handed in.
    - [Smoke]: ParserITCHSmoke.cpp, whose main thread is the host of [Parser],
      and ParserITCHUftSmoke.cpp, over the callbacks of the framework.
    - [Benches]: ParserITCHUftBench.cpp, bench/UdpLoopbackBench.cpp over the
      class [UdpSockets], and the main program around [Level2].

    ** What the theorems show

    - Order books: any history of operations returns what price-time matching
      on a list returns and makes the same calls on the sink; the two books
      agree; a matched book is never crossed.
    - Feed: whatever the network does to the datagrams of a session, the
      messages come out once, in order and unaltered; an unfaulted book is the
      replay of the session up to the next expected message; the strategy sees
      it between messages and with every known gap filled; a fault is final.
    - Engine: publications call registered subscribers only, at most once each;
      start freezes the configuration.
    - Adapters: the UFT and the WonderTrader adapter and the order tracker
      agree on files they take without complaint, error counts included; busts
      take back published trades; the fingerprint separates event streams.
    - Files: the scan ends and its callbacks are the records of the file, for
      every chunking of the reads.
    - Rings and the Level-2 pipeline: for every schedule, and every value the
      memory model lets an acquire load return, values come out in order, none
      is lost where the protocol waits, losses are counted where it does not.
    - Loopback tool: success is sound over any network, exact over a lossless
      one, and every run can be brought to its end.
    - Opaque seam: a runner is transparent. Parser plugin: the listener sees whole
      sessions, and a disconnect returns.
    - Tools over files: the inspection report describes the records and its exit
      code says what it should; the audit run receives every event; the session
      replay explains its outcome, its self-checks never fail.
    - Formal benchmark: its cross-checks never fail on regular messages, so that
      its exit code speaks of the processor and the clock alone.
    - Smoke tests and benchmarks: the plugin smoke test returns 0 exactly on a
      replay that completed with orders and trades, under every interleaving;
      the others count what they are handed, and read inside their samples.

    ** Conventions of the models

    Integers are [Z], wrapped where the code's type wraps.  An array is a list
    with [load] and [store] at [Z] indices; a pointer into a pool is an index.
    A callback, sink or strategy is the sequence of calls made on it, or a
    function of what it is shown where its answer matters.  Exceptions and
    refusals are values.  Printed text, clocks, allocation and the layout of
    structures are left out, unless a later decision depends on them.

    Concurrent code is a step relation made executable: a schedule is the list
    of the steps taken, with the choices the memory model leaves open.
    Acquire/release atomics are modification orders; a load returns any value
    not older than what its thread already knows.

    ** Fuel, and why it is enough

    - Probe loops: the capacity of the table; a table is never full.
    - [match_level], [match_loop], [match_levels], [visit_loop]: one more than
      the number of pool nodes, since every round removes an order or ends.
    - Bit scans: 64; [rounded_capacity]: 64 doublings leave the word.
    - [drain_loop] of the recovery window: one more than the number of slots.
    - The file scan: twice the bytes of the file, plus interruptions, plus two
      ([enough]); [FileProperties] proves that it ends within it.
    - [LinkedQueue.walk], [thread_free]: the size of the pool.
    - [code_length_loop]: 33, one more than the length of a security code.
    - Schedules are structural; where a run is to end, the theorem says how
      many steps are left ([remaining] of [LoopbackRuns]).

    ** Not modelled

    - Sockets, threads, clocks, memory mapping and files themselves: they enter
      as classes with the laws their documentation states, or as the steps of a
      schedule.
    - The layout of structures, alignment and allocation; printed reports.
    - The WonderTrader framework between a parser and a strategy, which the
      programs under integration/wondertrader link: a function or a list of
      callbacks where they use it.
    - Of the benchmarks the means, the frequency estimates, the memory reports
      and the printing.
    - third_party/wondertrader: vendored; the two structures the adapters fill
      are modelled in [WtsTypes].
*)

From Stdlib Require Export ZArith Lia Bool.
From stdpp Require Export base tactics numbers list gmap sets sorting.


(** ** Hints

    [qtrader] holds the resolution lemmas of the shared library, [arr] the
    rewriting rules of the C++ arrays below. *)
Create HintDb qtrader.
Create Rewrite HintDb arr.

#[global] Open Scope Z_scope.

(** ** Machine integers

    An unsigned [w]-bit C++ integer is a [Z] in [[0, 2^w)]; every operation
    that may leave the range is wrapped explicitly. *)
Definition wrap (w x : Z) : Z := x mod 2 ^ w.

Abbreviation u8 := (wrap 8).
Abbreviation u16 := (wrap 16).
Abbreviation u32 := (wrap 32).
Abbreviation u64 := (wrap 64).
Abbreviation u16_max := 65535.
Abbreviation u32_max := 4294967295.
Abbreviation u64_max := 18446744073709551615.
Abbreviation i64_max := 9223372036854775807.

(** A signed 64-bit result of a conversion from an unsigned one. *)
Definition i64_of_u64 (x : Z) : Z := if x <=? i64_max then x else x - 2 ^ 64.

Lemma wrap_small w x : 0 <= x < 2 ^ w -> wrap w x = x.
Proof. intros. unfold wrap. by apply Z.mod_small. Qed.

Lemma wrap_bounds w x : 0 <= w -> 0 <= wrap w x < 2 ^ w.
Proof. intros. unfold wrap. apply Z.mod_pos_bound. by apply Z.pow_pos_nonneg. Qed.

Lemma wrap_add_l w x y : wrap w (wrap w x + y) = wrap w (x + y).
Proof. unfold wrap. by rewrite Zplus_mod_idemp_l. Qed.

Lemma wrap_sub_l w x y : wrap w (wrap w x - y) = wrap w (x - y).
Proof. unfold wrap. by rewrite Zminus_mod_idemp_l. Qed.

(** A mask by [2^k - 1] is a remainder, as the code uses it for slots. *)
Lemma land_mask x k : 0 <= k -> Z.land x (2 ^ k - 1) = x mod 2 ^ k.
Proof. intros. by rewrite <- Z.land_ones, Z.ones_equiv, Z.sub_1_r. Qed.

Lemma land_mask_wrap x k :
  0 <= k <= 64 -> Z.land (u64 x) (2 ^ k - 1) = x mod 2 ^ k.
Proof.
  intros. rewrite land_mask by lia. unfold wrap.
  apply Z.mod_mod_divide. exists (2 ^ (64 - k)). rewrite <- Z.pow_add_r by lia. f_equal. lia.
Qed.

(** ** Record update

    [Eta] spells a record as its constructor applied to its projections, from
    which the update of one field is computed. *)
Class Eta (R : Type) := eta : R -> R.
Class Setter {R T : Type} (proj : R -> T) := set_field : (T -> T) -> R -> R.

Ltac build_setter R T proj :=
  let e := eval cbv beta delta [eta] in (@eta R _) in
  let e := eval hnf in e in
  let p := eval pattern proj in e in
  lazymatch p with
  | ?body proj =>
      let r := eval cbv beta in (fun (f : T -> T) => body (fun x : R => f (proj x))) in
      exact r
  end.

#[export] Hint Extern 1 (@Setter ?R ?T ?proj) =>
  (build_setter R T proj) : typeclass_instances.

Declare Scope record_scope.
#[global] Open Scope record_scope.
Notation "r <| proj := v |>" := (@set_field _ _ proj _ (fun _ => v) r)
  (at level 1, left associativity, v at level 200, proj at level 8) : record_scope.
Notation "r <| proj ::= f |>" := (@set_field _ _ proj _ f r)
  (at level 1, left associativity, f at level 200, proj at level 8) : record_scope.

(** Turns updates into explicit records. *)
Ltac updates := unfold set_field; cbn beta.

(** [++x] on a 64-bit counter. *)
Definition incr (x : Z) : Z := u64 (x + 1).

(** ** C++ arrays

    An array is a list; [a.[i]] reads and [a.[i <- x]] writes an element.  Out
    of range a read gives the type's default value and a write does nothing:
    the invariants of the components keep every index in range. *)
Declare Scope array_scope.
#[global] Open Scope array_scope.

Definition aget {A} `{Inhabited A} (a : list A) (i : Z) : A := a !!! Z.to_nat i.
Definition aset {A} (a : list A) (i : Z) (x : A) : list A := <[Z.to_nat i := x]> a.
Definition alen {A} (a : list A) : Z := Z.of_nat (length a).

Notation "a .[ i ]" := (aget a i)
  (at level 1, left associativity, format "a .[ i ]") : array_scope.
Notation "a .[ i <- x ]" := (aset a i x)
  (at level 1, left associativity, format "a .[ i <- x ]") : array_scope.

Section arrays.
Context {A : Type} `{Inhabited A}.
Implicit Types (a : list A) (i j : Z) (x : A).

Lemma alen_aset a i x : alen (a.[i <- x]) = alen a.
Proof. unfold alen, aset. by rewrite length_insert. Qed.

Lemma aget_aset_eq a i x : 0 <= i < alen a -> (a.[i <- x]).[i] = x.
Proof.
  unfold alen, aset, aget. intros. rewrite list_lookup_total_insert_eq; [done|lia].
Qed.

Lemma aget_aset_ne a i j x :
  0 <= i -> 0 <= j -> i <> j -> (a.[i <- x]).[j] = a.[j].
Proof.
  unfold aset, aget. intros. rewrite list_lookup_total_insert_ne; [done|lia].
Qed.

Lemma aget_aset a i j x :
  0 <= i < alen a -> 0 <= j -> (a.[i <- x]).[j] = if decide (i = j) then x else a.[j].
Proof.
  intros. case_decide; [subst; by apply aget_aset_eq|apply aget_aset_ne; lia].
Qed.

Lemma aget_replicate n i x : 0 <= i < Z.of_nat n -> (replicate n x).[i] = x.
Proof. intros. unfold aget. rewrite lookup_total_replicate_2; [done|lia]. Qed.

Lemma alen_replicate n x : alen (replicate n x) = Z.of_nat n.
Proof. unfold alen. by rewrite length_replicate. Qed.

Lemma aget_elem a i : 0 <= i < alen a -> a.[i] ∈ a.
Proof.
  unfold alen, aget. intros. apply list_elem_of_lookup_total. exists (Z.to_nat i).
  split; [lia|done].
Qed.

Lemma elem_aget a x : x ∈ a -> exists i, 0 <= i < alen a /\ a.[i] = x.
Proof.
  intros (i & Hi & Hx)%list_elem_of_lookup_total. exists (Z.of_nat i).
  unfold alen, aget. rewrite Nat2Z.id. split; [lia|done].
Qed.

Lemma aget_ext (a b : list A) :
  alen a = alen b -> (forall i, 0 <= i < alen a -> a.[i] = b.[i]) -> a = b.
Proof.
  unfold alen, aget. intros Hl Hi. apply list_eq_same_length with (length b); [lia..|].
  intros i x y Hlt Hx Hy. specialize (Hi (Z.of_nat i) ltac:(lia)).
  rewrite Nat2Z.id in Hi.
  erewrite !list_lookup_total_correct in Hi by eassumption. done.
Qed.

End arrays.

#[export] Hint Rewrite @alen_aset @alen_replicate : arr.

(** ** Lists *)

Lemma filter_true {A} (P : A -> Prop) `{!forall x, Decision (P x)} (l : list A) :
  Forall P l -> filter P l = l.
Proof. induction 1 as [|x l Hx _ IH]; [done|]. by rewrite filter_cons_True, IH. Qed.

Lemma filter_false {A} (P : A -> Prop) `{!forall x, Decision (P x)} (l : list A) :
  Forall (fun x => ~ P x) l -> filter P l = [].
Proof. induction 1 as [|x l Hx _ IH]; [done|]. by rewrite filter_cons_False. Qed.

Lemma omap_cons_match {A B} (f : A -> option B) x (l : list A) :
  omap f (x :: l) = match f x with Some y => y :: omap f l | None => omap f l end.
Proof. done. Qed.

(** ** Tactics *)

(** Splits every boolean test of the goal into the proposition it decides. *)
Ltac zify_test b :=
  lazymatch b with
  | (?x =? ?y) => destruct (Z.eqb_spec x y)
  | (?x <? ?y) => destruct (Z.ltb_spec x y)
  | (?x <=? ?y) => destruct (Z.leb_spec x y)
  | negb ?c => zify_test c
  | ?c && _ => zify_test c
  | ?c || _ => zify_test c
  | _ => destruct b eqn:?
  end.

Ltac split_if :=
  match goal with
  | |- context [if ?b then _ else _] =>
      lazymatch type of b with bool => zify_test b end
  end.

Ltac split_if_in H :=
  match type of H with
  | context [if ?b then _ else _] =>
      lazymatch type of b with bool => zify_test b end
  end.

(** Linear arithmetic with division and remainder by constants. *)
Ltac dlia := Z.to_euclidean_division_equations; lia.

Lemma incr_changes x : (incr x =? x) = false.
Proof. apply Z.eqb_neq. unfold incr, wrap. dlia. Qed.

Ltac split_ifs := repeat (split_if; simpl; try lia).

(** ** Updating an element through a function *)

Section array_update.
Context {A : Type} `{Inhabited A}.
Implicit Types (a : list A) (i j : Z).

Lemma aget_update a i j (f : A -> A) :
  0 <= i < alen a -> 0 <= j -> (a.[i <- f a.[i]]).[j] = if decide (j = i) then f a.[j] else a.[j].
Proof.
  intros. rewrite aget_aset by done. repeat case_decide; congruence.
Qed.

(** A field the update leaves alone reads the same everywhere. *)
Lemma aget_update_field {B} (p : A -> B) a i j (f : A -> A) :
  (forall x, p (f x) = p x) -> p (a.[i <- f a.[i]]).[j] = p a.[j].
Proof.
  intros Hf. unfold aget, aset. destruct (decide (Z.to_nat i = Z.to_nat j)) as [E|].
  - rewrite E. destruct (decide (Z.to_nat j < length a)%nat).
    + by rewrite list_lookup_total_insert_eq, Hf.
    + by rewrite list_insert_ge by lia.
  - by rewrite list_lookup_total_insert_ne.
Qed.

Lemma aset_aset a i x y : a.[i <- x].[i <- y] = a.[i <- y].
Proof. unfold aset. by rewrite list_insert_insert_eq. Qed.

Lemma aset_aget a i : a.[i <- a.[i]] = a.
Proof.
  unfold aset, aget. destruct (decide (Z.to_nat i < length a)%nat).
  - apply list_insert_id. by apply list_lookup_lookup_total_lt.
  - apply list_insert_ge. lia.
Qed.

Lemma update_update a i (f g : A -> A) :
  0 <= i < alen a ->
  a.[i <- f a.[i]].[i <- g (a.[i <- f a.[i]]).[i]] = a.[i <- g (f a.[i])].
Proof. intros. rewrite aset_aset. by rewrite aget_aset_eq. Qed.
End array_update.
