(* ===== verification/OpenAddressing.v ===== *)
(** * Linear probing with backward-shift deletion

    The probe loops that [FixedHashTable] (include/qtrader/FixedHashTable.hpp)
    and [FixedOrderIndex] (components/include/qtrader/DensePriceOrderBook.hpp)
    share, over an arbitrary hash function and a power-of-two capacity, and the
    proof that they implement a finite map.  Key zero marks an empty entry. *)

From S2P Require Import Prelude.

Record Entry (V : Type) := mkEntry { key : Z; value : V }.
Arguments mkEntry {V} _ _.
Arguments key {V} _.
Arguments value {V} _.

#[global] Instance entry_inhabited {V} `{Inhabited V} : Inhabited (Entry V) :=
  populate (mkEntry 0 inhabitant).

(** What an insertion probe runs into. *)
Inductive ProbeResult := ProbeDuplicate | ProbeEmpty (slot : Z) | ProbeExhausted.

Section probing.
Context {V : Type} `{Inhabited V}.
Variable hash : Z -> Z.
Variable capacity : Z.
Implicit Types es : list (Entry V).

Definition bucket (k : Z) : Z := Z.land (hash k) (capacity - 1).

Definition next_slot (slot : Z) : Z := Z.land (slot + 1) (capacity - 1).

(** The distance of a slot from another, [(b - a) & mask] on [size_t]. *)
Definition slot_distance (a b : Z) : Z := Z.land (u64 (b - a)) (capacity - 1).

(** [for (probe = 0; probe < capacity; ++probe)]: the slot of [k], or the
    capacity itself when the probe meets an empty entry or gives up. *)
Fixpoint find_probe (probes : nat) es (k slot : Z) : Z :=
  match probes with
  | O => capacity
  | S probes' =>
      if key es.[slot] =? 0 then capacity
      else if key es.[slot] =? k then slot
      else find_probe probes' es k (next_slot slot)
  end.

Fixpoint insert_probe (probes : nat) es (k slot : Z) : ProbeResult :=
  match probes with
  | O => ProbeExhausted
  | S probes' =>
      if key es.[slot] =? k then ProbeDuplicate
      else if key es.[slot] =? 0 then ProbeEmpty slot
      else insert_probe probes' es k (next_slot slot)
  end.

(** [while (entries[scan].key != 0)] of backshift_from; [None] when the fuel
    runs out before an empty entry is met. *)
Fixpoint backshift_loop (fuel : nat) es (hole scan : Z) : option (list (Entry V)) :=
  match fuel with
  | O => None
  | S fuel' =>
      if key es.[scan] =? 0 then Some (es.[hole <- mkEntry 0 inhabitant])
      else
        let home := bucket (key es.[scan]) in
        let scan_distance := slot_distance home scan in
        let hole_distance := slot_distance home hole in
        if hole_distance <? scan_distance
        then backshift_loop fuel' (es.[hole <- es.[scan]]) scan (next_slot scan)
        else backshift_loop fuel' es hole (next_slot scan)
  end.

Definition backshift_from es (hole : Z) : list (Entry V) :=
  default es (backshift_loop (Z.to_nat capacity) es hole (next_slot hole)).

(** The finite map an array of entries stands for. *)
Definition to_map es : gmap Z V :=
  list_to_map (omap (fun e => if key e =? 0 then None else Some (key e, value e)) es).

End probing.

(** ** Slots as a cycle *)

Section cycle.
Variable cap : Z.

Definition slot_in (i : Z) : Prop := 0 <= i < cap.

Definition step (a d : Z) : Z := if a + d <? cap then a + d else a + d - cap.

Definition dist (a b : Z) : Z := if a <=? b then b - a else b - a + cap.

End cycle.

(** Linear arithmetic on the cycle. *)
Ltac cyc :=
  unfold slot_in, step, dist in *;
  repeat match goal with
    | |- context [?x <=? ?y] => destruct (Z.leb_spec x y)
    | |- context [?x <? ?y] => destruct (Z.ltb_spec x y)
    | H : context [?x <=? ?y] |- _ => destruct (Z.leb_spec x y)
    | H : context [?x <? ?y] |- _ => destruct (Z.ltb_spec x y)
    end; lia.

Section cycle_lemmas.
Variable cap : Z.
Implicit Types a b d e : Z.

Lemma step_in a d : slot_in cap a -> 0 <= d <= cap -> slot_in cap (step cap a d).
Proof. intros. cyc. Qed.

Lemma step_0 a : slot_in cap a -> step cap a 0 = a.
Proof. intros. cyc. Qed.

Lemma step_step a d : slot_in cap a -> 0 <= d < cap ->
  step cap (step cap a d) 1 = step cap a (d + 1).
Proof. intros. cyc. Qed.

Lemma step_dist a b : slot_in cap a -> slot_in cap b -> step cap a (dist cap a b) = b.
Proof. intros. cyc. Qed.

Lemma dist_step a d : slot_in cap a -> 0 <= d < cap -> dist cap a (step cap a d) = d.
Proof. intros. cyc. Qed.

Lemma dist_in a b : slot_in cap a -> slot_in cap b -> 0 <= dist cap a b < cap.
Proof. intros. cyc. Qed.
End cycle_lemmas.

#[export] Hint Resolve step_in : qtrader.

Section mask_arith.
Context (k : Z) (Hk : 0 <= k <= 63).

Lemma next_slot_step a : slot_in (2 ^ k) a -> next_slot (2 ^ k) a = step (2 ^ k) a 1.
Proof.
  intros [??]. unfold next_slot. rewrite land_mask by lia. unfold step.
  destruct (Z.ltb_spec (a + 1) (2 ^ k)); [by apply Z.mod_small; lia|].
  replace (a + 1) with (2 ^ k) by lia. rewrite Z.mod_same by lia. lia.
Qed.

Lemma slot_distance_dist a b :
  slot_in (2 ^ k) a -> slot_in (2 ^ k) b -> slot_distance (2 ^ k) a b = dist (2 ^ k) a b.
Proof.
  intros [??] [??]. unfold slot_distance, dist. rewrite land_mask_wrap by lia.
  destruct (Z.leb_spec a b); [apply Z.mod_small; lia|].
  rewrite <- (Z.mod_add (b - a) 1) by lia. rewrite Z.mod_small by lia. lia.
Qed.

Lemma bucket_in hash x : slot_in (2 ^ k) (bucket hash (2 ^ k) x).
Proof.
  unfold bucket, slot_in. rewrite land_mask by lia.
  apply Z.mod_pos_bound. apply Z.pow_pos_nonneg; lia.
Qed.
End mask_arith.

(** ** The finite map of an array *)

Section abstraction.
Context {V : Type} `{Inhabited V}.
Implicit Types es : list (Entry V).

Definition keys_unique es : Prop :=
  forall i j, slot_in (alen es) i -> slot_in (alen es) j ->
    key es.[i] <> 0 -> key es.[i] = key es.[j] -> i = j.

Definition absent es (k : Z) : Prop := forall i, slot_in (alen es) i -> key es.[i] <> k.

Definition has_free es : Prop := exists i, slot_in (alen es) i /\ key es.[i] = 0.

Lemma keys_unique_nodup es :
  keys_unique es ->
  NoDup (omap (fun e : Entry V => if key e =? 0 then None else Some (key e, value e)) es).*1.
Proof.
  unfold keys_unique, slot_in, alen, aget.
  induction es as [|e es IH]; intros Hu; simpl; [constructor|].
  assert (NoDup (omap (fun e : Entry V => if key e =? 0 then None else Some (key e, value e)) es).*1) as Hnd.
  { apply IH. intros i j Hi Hj Hki Hkij.
    specialize (Hu (i + 1) (j + 1)).
    rewrite !Z2Nat.inj_add, !Nat.add_1_r in Hu by lia. simpl in Hu.
    specialize (Hu ltac:(lia) ltac:(lia) Hki Hkij). lia. }
  destruct (Z.eqb_spec (key e) 0) as [|Hne]; [done|]. simpl. constructor; [|done].
  intros ([k v] & ? & Hin)%list_elem_of_fmap. simpl in *. subst k.
  apply list_elem_of_omap in Hin as (e' & Hin & He').
  destruct (Z.eqb_spec (key e') 0); [done|]. simplify_eq.
  apply list_elem_of_lookup in Hin as [m Hn].
  pose proof (lookup_lt_Some _ _ _ Hn).
  specialize (Hu 0 (Z.of_nat (S m))). rewrite Nat2Z.id in Hu. simpl in Hu.
  rewrite (list_lookup_total_correct _ _ _ Hn) in Hu.
  specialize (Hu ltac:(lia) ltac:(lia) ltac:(done) ltac:(done)). lia.
Qed.

Lemma lookup_to_map es k v :
  keys_unique es ->
  to_map es !! k = Some v <->
  k <> 0 /\ exists i, slot_in (alen es) i /\ es.[i] = mkEntry k v.
Proof.
  intros Hu. unfold to_map.
  rewrite <- elem_of_list_to_map by by apply keys_unique_nodup.
  rewrite list_elem_of_omap. split.
  - intros ([k' v'] & Hin & Hf). simpl in Hf.
    destruct (Z.eqb_spec k' 0); simplify_eq. split; [done|].
    apply elem_aget in Hin as (i & ? & ?). by exists i.
  - intros (Hk & i & Hi & He). exists (mkEntry k v). split.
    + rewrite <- He. by apply aget_elem.
    + simpl. by destruct (Z.eqb_spec k 0).
Qed.

Lemma lookup_to_map_None es k :
  keys_unique es -> k <> 0 -> to_map es !! k = None <-> absent es k.
Proof.
  intros Hu Hk. split.
  - intros Hn i Hi Hki.
    assert (to_map es !! k = Some (value es.[i])) as Hs; [|by rewrite Hs in Hn].
    apply lookup_to_map; [done|]. split; [done|]. exists i. split; [done|].
    rewrite <- Hki. by destruct es.[i].
  - intros Ha. destruct (to_map es !! k) as [v|] eqn:E; [|done].
    apply lookup_to_map in E as (_ & i & Hi & He); [|done].
    destruct (Ha i Hi). by rewrite He.
Qed.

Lemma lookup_to_map_0 es : keys_unique es -> to_map es !! 0 = None.
Proof.
  intros Hu. destruct (to_map es !! 0) eqn:E; [|done].
  apply lookup_to_map in E as [? _]; done.
Qed.

Lemma present_or_absent es k :
  (exists i, slot_in (alen es) i /\ key es.[i] = k) \/ absent es k.
Proof.
  destruct (decide (Exists (fun e => key e = k) es)) as [He|He].
  - left. apply Exists_exists in He as (e & Hin & Hk).
    apply elem_aget in Hin as (i & ? & <-). eauto.
  - right. intros i Hi Hk. apply He, Exists_exists.
    exists es.[i]. split; [by apply aget_elem|done].
Qed.

Lemma full_size es : keys_unique es -> absent es 0 -> Z.of_nat (size (to_map es)) = alen es.
Proof.
  intros Hu Ha. unfold to_map, alen.
  rewrite map_size_list_to_map by by apply keys_unique_nodup.
  f_equal. assert (Forall (fun e => key e <> 0) es) as Hall.
  { apply Forall_forall. intros e (i & Hi & <-)%elem_aget. by apply Ha. }
  clear Hu Ha. induction Hall as [|e es He Hes IH]; [done|].
  csimpl. destruct (Z.eqb_spec (key e) 0); [done|]. csimpl. by rewrite IH.
Qed.

Lemma free_of_size es :
  keys_unique es -> Z.of_nat (size (to_map es)) < alen es -> has_free es.
Proof.
  intros Hu Hs. destruct (present_or_absent es 0) as [|Ha]; [done|].
  pose proof (full_size es Hu Ha). lia.
Qed.

End abstraction.

(** ** The probe-path invariant *)

Section invariant.
Context {V : Type} `{Inhabited V}.
Context (hash : Z -> Z) (k : Z) (Hk : 0 <= k <= 63).
Abbreviation cap := (2 ^ k).
Abbreviation home x := (bucket hash cap x).
Implicit Types es : list (Entry V).

(** Every entry is reachable from its home bucket over occupied slots. *)
Definition paths_ok es : Prop :=
  forall i d, slot_in cap i -> key es.[i] <> 0 ->
    0 <= d < dist cap (home (key es.[i])) i ->
    key es.[step cap (home (key es.[i])) d] <> 0.

Record probing_ok es : Prop := {
  ok_len : alen es = cap;
  ok_unique : keys_unique es;
  ok_paths : paths_ok es
}.

Lemma cap_pos : 0 < cap.
Proof. apply Z.pow_pos_nonneg; lia. Qed.

Lemma home_in x : slot_in cap (home x).
Proof. by apply bucket_in. Qed.

Lemma home_step_in x d : 0 <= d <= cap -> slot_in cap (step cap (home x) d).
Proof. intros. apply step_in; [apply home_in|done]. Qed.

Lemma home_dist_in x i : slot_in cap i -> 0 <= dist cap (home x) i < cap.
Proof. intros. apply dist_in; [apply home_in|done]. Qed.

Lemma next_home_step x d :
  0 <= d < cap -> next_slot cap (step cap (home x) d) = step cap (home x) (d + 1).
Proof.
  intros. rewrite next_slot_step by (auto; apply home_step_in; lia).
  apply step_step; [apply home_in|lia].
Qed.

(** *** find *)

Lemma find_probe_path es x i n d :
  probing_ok es -> slot_in cap i -> key es.[i] = x -> x <> 0 ->
  0 <= d <= dist cap (home x) i -> dist cap (home x) i - d < Z.of_nat n ->
  find_probe cap n es x (step cap (home x) d) = i.
Proof.
  intros Hok Hi <- Hx. revert d.
  pose proof (home_dist_in (key es.[i]) i Hi) as Hd.
  induction n as [|n IH]; intros d Hdd Hn; [lia|]. simpl.
  destruct (decide (d = dist cap (home (key es.[i])) i)) as [->|Hne].
  - rewrite step_dist by (auto using home_in).
    destruct (Z.eqb_spec (key es.[i]) 0); [done|]. by rewrite Z.eqb_refl.
  - destruct (Z.eqb_spec (key es.[step cap (home (key es.[i])) d]) 0) as [E|_].
    { destruct (ok_paths _ Hok i d); auto; lia. }
    destruct (Z.eqb_spec (key es.[step cap (home (key es.[i])) d]) (key es.[i])) as [E|_].
    { assert (step cap (home (key es.[i])) d = i) as Hs.
      { symmetry. apply (ok_unique _ Hok); rewrite ?(ok_len _ Hok); auto.
        apply home_step_in; lia. }
      rewrite <- Hs in Hne at 2. by rewrite dist_step in Hne by (try apply home_in; lia). }
    rewrite next_home_step by lia. apply IH; lia.
Qed.

Lemma find_probe_present es i x :
  probing_ok es -> slot_in cap i -> key es.[i] = x -> x <> 0 ->
  find_probe cap (Z.to_nat cap) es x (home x) = i.
Proof.
  intros Hok Hi Hx Hx0. pose proof cap_pos. pose proof (home_dist_in x i Hi).
  rewrite <- (step_0 cap (home x)) by apply home_in.
  apply find_probe_path; auto; lia.
Qed.

Lemma find_probe_absent es n x s :
  alen es = cap -> absent es x -> slot_in cap s -> find_probe cap n es x s = cap.
Proof.
  intros Hl Ha. revert s. induction n as [|n IH]; intros s Hs; [done|]. simpl.
  destruct (Z.eqb_spec (key es.[s]) 0); [done|].
  destruct (Z.eqb_spec (key es.[s]) x) as [E|_].
  - by destruct (Ha s); rewrite ?Hl.
  - apply IH. rewrite next_slot_step by done. pose proof cap_pos. by apply step_in; [|lia].
Qed.

(** The find of both tables, stated on the finite map. *)
Lemma find_probe_spec es x :
  probing_ok es -> x <> 0 ->
  match to_map es !! x with
  | Some v => exists i, slot_in cap i /\ es.[i] = mkEntry x v /\
      find_probe cap (Z.to_nat cap) es x (home x) = i
  | None => find_probe cap (Z.to_nat cap) es x (home x) = cap
  end.
Proof.
  intros Hok Hx. destruct (to_map es !! x) as [v|] eqn:E.
  - apply lookup_to_map in E as (_ & i & Hi & He); [|apply Hok].
    rewrite (ok_len _ Hok) in Hi. exists i. split_and!; auto.
    apply find_probe_present; auto. by rewrite He.
  - apply lookup_to_map_None in E; [|apply Hok|done].
    apply find_probe_absent; auto using home_in. apply Hok.
Qed.

(** *** insert *)

Lemma insert_probe_path es x i n d :
  probing_ok es -> slot_in cap i -> key es.[i] = x -> x <> 0 ->
  0 <= d <= dist cap (home x) i -> dist cap (home x) i - d < Z.of_nat n ->
  insert_probe cap n es x (step cap (home x) d) = ProbeDuplicate.
Proof.
  intros Hok Hi <- Hx. revert d.
  pose proof (home_dist_in (key es.[i]) i Hi) as Hd.
  induction n as [|n IH]; intros d Hdd Hn; [lia|]. simpl.
  destruct (Z.eqb_spec (key es.[step cap (home (key es.[i])) d]) (key es.[i])); [done|].
  assert (d <> dist cap (home (key es.[i])) i) as Hne.
  { intros ->. by rewrite step_dist in * by auto using home_in. }
  destruct (Z.eqb_spec (key es.[step cap (home (key es.[i])) d]) 0) as [E|_].
  { destruct (ok_paths _ Hok i d); auto; lia. }
  rewrite next_home_step by lia. apply IH; lia.
Qed.

Lemma insert_probe_present es i x :
  probing_ok es -> slot_in cap i -> key es.[i] = x -> x <> 0 ->
  insert_probe cap (Z.to_nat cap) es x (home x) = ProbeDuplicate.
Proof.
  intros Hok Hi Hx Hx0. pose proof cap_pos. pose proof (home_dist_in x i Hi).
  rewrite <- (step_0 cap (home x)) by apply home_in.
  by apply (insert_probe_path es x i); auto; lia.
Qed.

Lemma insert_probe_free es x n d e :
  absent es x -> alen es = cap -> slot_in cap e -> key es.[e] = 0 ->
  0 <= d -> d + Z.of_nat n = cap ->
  (forall d', 0 <= d' < d -> key es.[step cap (home x) d'] <> 0) ->
  exists s, insert_probe cap n es x (step cap (home x) d) = ProbeEmpty s /\
    slot_in cap s /\ key es.[s] = 0 /\
    forall d', 0 <= d' < dist cap (home x) s -> key es.[step cap (home x) d'] <> 0.
Proof.
  intros Ha Hl He Hke. pose proof (home_dist_in x e He) as Hde. revert d.
  induction n as [|n IH]; intros d Hd Hn Hocc.
  { destruct (Hocc (dist cap (home x) e)); [lia|].
    by rewrite step_dist by auto using home_in. }
  simpl. assert (slot_in cap (step cap (home x) d)) as Hs by (apply home_step_in; lia).
  destruct (Z.eqb_spec (key es.[step cap (home x) d]) x) as [E|_].
  { by destruct (Ha (step cap (home x) d)); rewrite ?Hl. }
  destruct (Z.eqb_spec (key es.[step cap (home x) d]) 0) as [E|Hne].
  - exists (step cap (home x) d). split_and!; auto.
    by rewrite dist_step by (auto using home_in; lia).
  - rewrite next_home_step by lia. apply IH; [lia..|]. intros d' Hd'.
    destruct (decide (d' = d)) as [->|]; [done|]. apply Hocc. lia.
Qed.

Lemma insert_probe_absent es x :
  probing_ok es -> has_free es -> absent es x ->
  exists s, insert_probe cap (Z.to_nat cap) es x (home x) = ProbeEmpty s /\
    slot_in cap s /\ key es.[s] = 0 /\
    forall d', 0 <= d' < dist cap (home x) s -> key es.[step cap (home x) d'] <> 0.
Proof.
  intros Hok (e & He & Hke) Ha. rewrite (ok_len _ Hok) in He. pose proof cap_pos.
  destruct (insert_probe_free es x (Z.to_nat cap) 0 e) as (s & Hs); auto; [apply Hok|lia..|].
  rewrite step_0 in Hs by apply home_in. by exists s.
Qed.

(** Writing a fresh key into the slot its probe found. *)
Lemma probing_ok_put es x v s :
  probing_ok es -> absent es x -> x <> 0 -> slot_in cap s -> key es.[s] = 0 ->
  (forall d', 0 <= d' < dist cap (home x) s -> key es.[step cap (home x) d'] <> 0) ->
  probing_ok (es.[s <- mkEntry x v]) /\
  to_map (es.[s <- mkEntry x v]) = <[x := v]> (to_map es).
Proof.
  intros [Hl Hu Hp] Ha Hx Hs Hks Hpath.
  assert (forall i, slot_in cap i ->
    (es.[s <- mkEntry x v]).[i] = if decide (s = i) then mkEntry x v else es.[i]) as Hget.
  { intros i [??]. rewrite aget_aset; [done|by rewrite Hl|done]. }
  assert (alen (es.[s <- mkEntry x v]) = cap) as Hl' by by rewrite alen_aset.
  assert (keys_unique (es.[s <- mkEntry x v])) as Hu'.
  { intros i j. rewrite Hl'. intros Hi Hj. rewrite !Hget by done.
    repeat case_decide; simplify_eq/=; intros Hki Hkij.
    - done.
    - destruct (Ha j); [by rewrite Hl|done].
    - destruct (Ha i); [by rewrite Hl|done].
    - apply Hu; rewrite ?Hl; done. }
  assert (forall j, slot_in cap j -> key es.[j] <> 0 ->
    key (es.[s <- mkEntry x v]).[j] <> 0) as Hmono.
  { intros j Hj Hkj. rewrite Hget by done. by case_decide. }
  split; [split; [done..|]|].
  - intros i d Hi. rewrite (Hget i) by done. case_decide as E; simpl.
    + subst i. intros _ Hd. pose proof (home_dist_in x s Hs).
      apply Hmono; [apply home_step_in; lia|by apply Hpath].
    + intros Hki Hd. pose proof (home_dist_in (key es.[i]) i Hi).
      apply Hmono; [apply home_step_in; lia|by apply Hp].
  - apply map_eq. intros y. apply option_eq. intros w.
    rewrite lookup_to_map, Hl' by done. destruct (decide (x = y)) as [<-|Hne].
    + rewrite lookup_insert_eq. split.
      * intros (_ & i & Hi & He). rewrite Hget in He by done. case_decide; [by simplify_eq|].
        destruct (Ha i); [by rewrite Hl|by rewrite He].
      * intros [= <-]. split; [done|]. exists s. split; [done|].
        rewrite Hget by done. by rewrite decide_True.
    + rewrite lookup_insert_ne by done. rewrite lookup_to_map, Hl by done.
      split; intros (? & i & Hi & He); (split; [done|]); exists i; (split; [done|]).
      * rewrite Hget in He by done. case_decide; by simplify_eq.
      * rewrite Hget by done. case_decide; [|done]. subst. by rewrite He in Hks.
Qed.

(** Overwriting the value of a stored key. *)
Lemma probing_ok_overwrite es x w v s :
  probing_ok es -> slot_in cap s -> es.[s] = mkEntry x w -> x <> 0 ->
  probing_ok (es.[s <- mkEntry x v]) /\
  to_map (es.[s <- mkEntry x v]) = <[x := v]> (to_map es).
Proof.
  intros [Hl Hu Hp] Hs Hw Hx.
  assert (forall i, slot_in cap i ->
    (es.[s <- mkEntry x v]).[i] = if decide (s = i) then mkEntry x v else es.[i]) as Hget.
  { intros i [??]. rewrite aget_aset; [done|by rewrite Hl|done]. }
  assert (forall i, slot_in cap i -> key (es.[s <- mkEntry x v]).[i] = key es.[i]) as Hkeys.
  { intros i Hi. rewrite Hget by done. case_decide; [|done]. subst i. by rewrite Hw. }
  assert (keys_unique (es.[s <- mkEntry x v])) as Hu'.
  { intros i j. rewrite alen_aset, Hl. intros Hi Hj. rewrite !Hkeys by done.
    apply Hu; by rewrite Hl. }
  split; [split; [by rewrite alen_aset|done|]|].
  - intros i d Hi. rewrite Hkeys by done. intros Hki Hd.
    pose proof (home_dist_in (key es.[i]) i Hi).
    rewrite Hkeys by (apply home_step_in; lia). by apply Hp.
  - apply map_eq. intros y. apply option_eq. intros u.
    rewrite lookup_to_map, alen_aset, Hl by done. rewrite lookup_insert_Some, lookup_to_map, Hl by done.
    split.
    + intros (Hy & i & Hi & He). rewrite Hget in He by done.
      case_decide; simplify_eq; [by left|right]. split; [|by eauto].
      intros <-. assert (s = i); [|done]. apply Hu; rewrite ?Hl, ?Hw, ?He; done.
    + intros [[<- <-]|(Hne & Hy & i & Hi & He)]; (split; [done|]).
      * exists s. split; [done|]. rewrite Hget by done. by rewrite decide_True.
      * exists i. split; [done|]. rewrite Hget by done. rewrite decide_False; [done|].
        intros <-. congruence.
Qed.

End invariant.

(** ** Backward-shift deletion

    While the loop runs, [hole] holds a stale entry that no longer counts, and
    the slots strictly between [hole] and [scan] hold entries whose probe path
    does not cross the hole. *)

Section deletion.
Context {V : Type} `{Inhabited V}.
Context (hash : Z -> Z) (k : Z) (Hk : 0 <= k <= 63).
Abbreviation cap := (2 ^ k).
Abbreviation home x := (bucket hash cap x).
Implicit Types es : list (Entry V).

Record hole_ok es (m : gmap Z V) (hole scan : Z) : Prop := {
  hole_len : alen es = cap;
  hole_in : slot_in cap hole;
  scan_in : slot_in cap scan;
  hole_ne : hole <> scan;
  hole_stale : key es.[hole] <> 0;
  hole_between : forall e, 0 < e < dist cap hole scan -> key es.[step cap hole e] <> 0;
  hole_unique : forall i j, slot_in cap i -> slot_in cap j -> i <> hole -> j <> hole ->
    key es.[i] <> 0 -> key es.[i] = key es.[j] -> i = j;
  hole_paths : forall i d, slot_in cap i -> i <> hole -> key es.[i] <> 0 ->
    0 <= d < dist cap (home (key es.[i])) i ->
    key es.[step cap (home (key es.[i])) d] <> 0;
  hole_after : forall i, slot_in cap i -> i <> hole -> key es.[i] <> 0 ->
    dist cap (home (key es.[i])) hole < dist cap (home (key es.[i])) i ->
    dist cap hole scan <= dist cap hole i;
  hole_map : forall x v, m !! x = Some v <->
    x <> 0 /\ exists i, slot_in cap i /\ i <> hole /\ es.[i] = mkEntry x v
}.

(** A free slot lies beyond [scan]. *)
Lemma free_beyond es m hole scan e :
  hole_ok es m hole scan -> slot_in cap e -> key es.[e] = 0 -> key es.[scan] <> 0 ->
  dist cap hole scan < dist cap hole e.
Proof.
  intros Hok He Hke Hks.
  destruct Hok as [_ Hh Hs Hne Hst Hbt _ _ _ _].
  assert (e <> hole) by congruence. assert (e <> scan) by congruence.
  destruct (Z.lt_ge_cases (dist cap hole scan) (dist cap hole e)) as [|Hlt]; [done|].
  destruct (Hbt (dist cap hole e)).
  - split; [cyc|]. cyc.
  - by rewrite step_dist.
Qed.

Lemma hole_advance es m hole scan e :
  hole_ok es m hole scan -> slot_in cap e -> key es.[e] = 0 -> key es.[scan] <> 0 ->
  dist cap (home (key es.[scan])) scan <= dist cap (home (key es.[scan])) hole ->
  hole_ok es m hole (step cap scan 1).
Proof.
  intros Hok He Hke Hks Hcond. pose proof (free_beyond _ _ _ _ _ Hok He Hke Hks) as Hfree.
  destruct Hok as [Hl Hh Hs Hne Hst Hbt Hu Hp Ha Hm].
  assert (dist cap hole (step cap scan 1) = dist cap hole scan + 1) as Hd by cyc.
  split; auto; rewrite ?Hd.
  - cyc.
  - cyc.
  - intros d Hdd. destruct (decide (d = dist cap hole scan)) as [->|].
    + by rewrite step_dist.
    + apply Hbt. lia.
  - intros i Hi Hih Hki Hlt. specialize (Ha i Hi Hih Hki Hlt).
    assert (i <> scan) by (intros ->; lia).
    assert (dist cap hole i <> dist cap hole scan) by cyc. lia.
Qed.

Lemma hole_move es m hole scan e :
  hole_ok es m hole scan -> slot_in cap e -> key es.[e] = 0 -> key es.[scan] <> 0 ->
  dist cap (home (key es.[scan])) hole < dist cap (home (key es.[scan])) scan ->
  hole_ok (es.[hole <- es.[scan]]) m scan (step cap scan 1).
Proof.
  intros Hok He Hke Hks Hcond. pose proof (free_beyond _ _ _ _ _ Hok He Hke Hks) as Hfree.
  destruct Hok as [Hl Hh Hs Hne Hst Hbt Hu Hp Ha Hm].
  assert (forall i, slot_in cap i ->
    (es.[hole <- es.[scan]]).[i] = if decide (hole = i) then es.[scan] else es.[i]) as Hget.
  { intros i [??]. rewrite aget_aset; [done|by rewrite Hl|done]. }
  assert (forall j, slot_in cap j -> key es.[j] <> 0 ->
    key (es.[hole <- es.[scan]]).[j] <> 0) as Hmono.
  { intros j Hj Hkj. rewrite Hget by done. by case_decide. }
  assert (dist cap scan (step cap scan 1) = 1) as Hd by cyc.
  split; rewrite ?alen_aset, ?Hd; auto.
  - cyc.
  - cyc.
  - intros. lia.
  - intros i j Hi Hj His Hjs. rewrite !Hget by done. repeat case_decide; subst; auto.
    + intros _ E. destruct Hjs. symmetry. by apply Hu.
    + intros E1 E2. destruct His. by apply Hu.
  - intros i d Hi His. rewrite (Hget i) by done. case_decide as E; intros Hki Hdd.
    + subst i. pose proof (home_dist_in hash k Hk (key es.[scan]) scan Hs).
      apply Hmono; [apply home_step_in; lia|]. apply Hp; auto. lia.
    + pose proof (home_dist_in hash k Hk (key es.[i]) i Hi).
      apply Hmono; [apply home_step_in; lia|]. by apply Hp.
  - intros i Hi His _ _. cyc.
  - intros x v. rewrite Hm. split; intros (? & i & Hi & Hih & Hv); (split; [done|]).
    + destruct (decide (i = scan)) as [->|].
      * exists hole. rewrite Hget by done. rewrite decide_True by done. by split_and!.
      * exists i. rewrite Hget by done. rewrite decide_False by done. by split_and!.
    + rewrite Hget in Hv by done. case_decide; [exists scan|exists i]; split_and!; auto.
Qed.

(** When [scan] meets an empty entry the hole can be cleared. *)
Lemma hole_finish es m hole scan :
  hole_ok es m hole scan -> key es.[scan] = 0 ->
  probing_ok hash k (es.[hole <- mkEntry 0 inhabitant]) /\
  to_map (es.[hole <- mkEntry 0 inhabitant]) = m.
Proof.
  intros [Hl Hh Hs Hne Hst Hbt Hu Hp Ha Hm] Hks.
  assert (forall i, slot_in cap i -> (es.[hole <- mkEntry 0 inhabitant]).[i] =
    if decide (hole = i) then mkEntry 0 inhabitant else es.[i]) as Hget.
  { intros i [??]. rewrite aget_aset; [done|by rewrite Hl|done]. }
  assert (keys_unique (es.[hole <- mkEntry 0 inhabitant])) as Hu'.
  { intros i j. rewrite alen_aset, Hl. intros Hi Hj. rewrite !Hget by done.
    repeat case_decide; subst; simpl; intros; auto; congruence. }
  split; [split; [by rewrite alen_aset|done|]|].
  - intros i d Hi. rewrite (Hget i) by done. case_decide as E; [done|].
    intros Hki Hd. pose proof (home_dist_in hash k Hk (key es.[i]) i Hi) as Hdi.
    set (h := home (key es.[i])) in *.
    assert (slot_in cap (step cap h d)) as Hsd by (apply home_step_in; lia).
    assert (slot_in cap h) as Hhin by by apply home_in.
    rewrite Hget by done. case_decide as E'; [|by apply Hp]. exfalso.
    assert (dist cap h hole < dist cap h i) as Hlt.
    { rewrite E', dist_step; [lia|done|lia]. }
    specialize (Ha i Hi ltac:(done) Hki Hlt).
    apply (Hp i (dist cap h scan)); auto; fold h; [|by rewrite step_dist].
    assert (i <> scan) by congruence. cyc.
  - apply map_eq. intros x. apply option_eq. intros v.
    rewrite lookup_to_map, alen_aset, Hl, Hm by done.
    split; intros (? & i & Hi & Hv); (split; [done|]); exists i.
    + rewrite Hget in Hv by done. case_decide; simplify_eq; by split_and!.
    + destruct Hv as [? Hv]. rewrite Hget by done. by rewrite decide_False.
Qed.

(** The loop terminates at the first free slot and leaves a well-formed table. *)
Lemma backshift_loop_ok fuel es m hole scan e :
  hole_ok es m hole scan -> slot_in cap e -> key es.[e] = 0 ->
  dist cap scan e < Z.of_nat fuel ->
  exists es', backshift_loop hash cap fuel es hole scan = Some es' /\
    probing_ok hash k es' /\ to_map es' = m.
Proof.
  revert es hole scan. induction fuel as [|fuel IH]; intros es hole scan Hok He Hke Hf.
  { pose proof (scan_in _ _ _ _ Hok). cyc. }
  cbn [backshift_loop]. destruct (Z.eqb_spec (key es.[scan]) 0) as [Hks|Hks].
  { exists (es.[hole <- mkEntry 0 inhabitant]). split; [done|]. by eapply hole_finish. }
  pose proof (free_beyond _ _ _ _ _ Hok He Hke Hks) as Hfree.
  pose proof (scan_in _ _ _ _ Hok) as Hs. pose proof (hole_in _ _ _ _ Hok) as Hh.
  assert (e <> hole) by (intros ->; by apply (hole_stale _ _ _ _ Hok)).
  assert (e <> scan) by congruence.
  assert (dist cap (step cap scan 1) e < Z.of_nat fuel) as Hf' by cyc.
  cbn zeta. rewrite next_slot_step, !slot_distance_dist by (done || by apply bucket_in).
  destruct (Z.ltb_spec (dist cap (home (key es.[scan])) hole)
    (dist cap (home (key es.[scan])) scan)) as [Hc|Hc].
  - apply IH; [by apply (hole_move es m hole scan e)|done| |done].
    destruct He, Hh. by rewrite aget_aset_ne.
  - apply IH; [by apply (hole_advance es m hole scan e)|done..].
Qed.

Lemma hole_init es x v hole e :
  probing_ok hash k es -> slot_in cap hole -> es.[hole] = mkEntry x v -> x <> 0 ->
  slot_in cap e -> key es.[e] = 0 ->
  hole_ok es (delete x (to_map es)) hole (step cap hole 1).
Proof.
  intros [Hl Hu Hp] Hh Hx Hx0 He Hke. pose proof (cap_pos k Hk).
  assert (key es.[hole] = x) as Hkx by by rewrite Hx.
  assert (e <> hole) by congruence.
  assert (dist cap hole (step cap hole 1) = 1) as Hd by cyc.
  split; rewrite ?Hd; auto.
  - cyc.
  - cyc.
  - congruence.
  - intros; lia.
  - intros. apply Hu; rewrite ?Hl; auto.
  - intros. cyc.
  - intros y w. rewrite lookup_delete_Some, lookup_to_map, Hl by done. split.
    + intros (Hne & Hy & i & Hi & Hv). split; [done|]. exists i. split_and!; auto. congruence.
    + intros (Hy & i & Hi & Hih & Hv). split; [|by eauto]. intros <-.
      apply Hih. apply Hu; rewrite ?Hl, ?Hv; simpl; auto.
Qed.

(** Deleting the key stored at [hole] removes exactly that key. *)
Lemma backshift_loop_delete es x v hole :
  probing_ok hash k es -> has_free es -> slot_in cap hole -> es.[hole] = mkEntry x v ->
  x <> 0 ->
  exists es', backshift_loop hash cap (Z.to_nat cap) es hole (next_slot cap hole) = Some es' /\
    probing_ok hash k es' /\ to_map es' = delete x (to_map es).
Proof.
  intros Hok (e & He & Hke) Hh Hx Hx0. rewrite (ok_len _ _ _ Hok) in He.
  rewrite next_slot_step by done. pose proof (cap_pos k Hk).
  apply (backshift_loop_ok _ _ _ _ _ e); auto; [by apply (hole_init es x v hole e)|].
  assert (e <> hole) by (intros ->; by rewrite Hx in Hke). cyc.
Qed.

Lemma backshift_from_delete es x v hole :
  probing_ok hash k es -> has_free es -> slot_in cap hole -> es.[hole] = mkEntry x v ->
  x <> 0 ->
  probing_ok hash k (backshift_from hash cap es hole) /\
  to_map (backshift_from hash cap es hole) = delete x (to_map es).
Proof.
  intros Hok Hf Hh Hx Hx0. unfold backshift_from.
  destruct (backshift_loop_delete es x v hole) as (es' & -> & ? & ?); done.
Qed.

End deletion.

(** ** An array of empty entries *)

Section empty_table.
Context {V : Type} `{Inhabited V}.
Context (hash : Z -> Z) (k : Z) (Hk : 0 <= k <= 63).

Definition empty_entries (capacity : Z) : list (Entry V) :=
  replicate (Z.to_nat capacity) (mkEntry 0 inhabitant).

Lemma empty_entries_key i : slot_in (2 ^ k) i -> key (empty_entries (2 ^ k)).[i] = 0.
Proof.
  intros []. unfold empty_entries. rewrite aget_replicate by lia. done.
Qed.

Lemma empty_entries_ok :
  probing_ok hash k (empty_entries (2 ^ k)) /\ to_map (empty_entries (2 ^ k)) = ∅.
Proof.
  pose proof (cap_pos k Hk) as Hc.
  assert (alen (empty_entries (2 ^ k)) = 2 ^ k) as Hl.
  { unfold empty_entries. rewrite alen_replicate. lia. }
  assert (keys_unique (empty_entries (2 ^ k))) as Hu.
  { intros i j. rewrite Hl. intros ??. by rewrite empty_entries_key. }
  split; [split; auto|].
  - intros i d Hi. by rewrite empty_entries_key.
  - apply map_empty. intros x. destruct (decide (x = 0)) as [->|].
    + by apply lookup_to_map_0.
    + apply lookup_to_map_None; auto. intros i. rewrite Hl. intros Hi.
      rewrite empty_entries_key; auto.
Qed.
End empty_table.
