(* ===== verification/FixedHashTable.v ===== *)
(** * include/qtrader/FixedHashTable.hpp

    The bounded, startup-allocated table of the packet path: [insert], [find],
    the write through the pointer [find] returns, and [erase], each proved
    against the finite map [view] the table stands for. *)

From S2P Require Import Prelude OpenAddressing.

Module FixedHashTable.

Inductive FixedHashInsertResult := Inserted | Duplicate | Full | InvalidKey.

#[global] Instance insert_result_eq_dec : EqDecision FixedHashInsertResult.
Proof. solve_decision. Defined.

Record t (V : Type) := mk {
  maximum_entries_ : Z;
  capacity_ : Z;
  entries_ : list (Entry V);
  size_ : Z
}.
Arguments mk {V} _ _ _ _.
Arguments maximum_entries_ {V} _.
Arguments capacity_ {V} _.
Arguments entries_ {V} _.
Arguments size_ {V} _.

#[global] Instance eta_t {V} : Eta (t V) :=
  fun r => mk (maximum_entries_ r) (capacity_ r) (entries_ r) (size_ r).

(** [while (capacity < maximum_entries * 2)]; [None] is the thrown
    [bad_array_new_length] (or exhausted fuel, which [table_rounded_capacity_ok]
    excludes). *)
Fixpoint round_loop (fuel : nat) (capacity target : Z) : option Z :=
  match fuel with
  | O => None
  | S fuel' =>
      if capacity <? target then
        if u64_max / 2 <? capacity then None
        else round_loop fuel' (u64 (Z.shiftl capacity 1)) target
      else Some capacity
  end.

Definition rounded_capacity (maximum_entries : Z) : option Z :=
  if (maximum_entries =? 0) || (u64_max / 2 <? maximum_entries) then None
  else round_loop 64 8 (u64 (maximum_entries * 2)).

Definition hash (value : Z) : Z :=
  let value := Z.lxor value (Z.shiftr value 33) in
  let value := u64 (value * 0xff51afd7ed558ccd) in
  Z.lxor value (Z.shiftr value 33).

Section operations.
Context {V : Type} `{Inhabited V}.
Implicit Types (tab : t V) (k : Z) (v : V).

Definition make (maximum_entries : Z) : option (t V) :=
  capacity ← rounded_capacity maximum_entries;
  Some (mk maximum_entries capacity (empty_entries capacity) 0).

Definition find_slot tab k : Z :=
  if k =? 0 then capacity_ tab
  else find_probe (capacity_ tab) (Z.to_nat (capacity_ tab)) (entries_ tab) k
         (bucket hash (capacity_ tab) k).

(** [find] returns a pointer: [None] is the null pointer, and [assign] is a
    write through a pointer [find] has just returned. *)
Definition find tab k : option V :=
  let slot := find_slot tab k in
  if slot =? capacity_ tab then None else Some (value (entries_ tab).[slot]).

Definition assign tab k v : t V :=
  let slot := find_slot tab k in
  if slot =? capacity_ tab then tab
  else tab <| entries_ ::= fun es => es.[slot <- mkEntry (key es.[slot]) v] |>.

Definition insert tab k v : t V * FixedHashInsertResult :=
  if k =? 0 then (tab, InvalidKey)
  else if size_ tab =? maximum_entries_ tab then
    (tab, match find tab k with None => Full | Some _ => Duplicate end)
  else
    match insert_probe (capacity_ tab) (Z.to_nat (capacity_ tab)) (entries_ tab) k
            (bucket hash (capacity_ tab) k) with
    | ProbeDuplicate => (tab, Duplicate)
    | ProbeEmpty slot =>
        (tab <| entries_ ::= fun es => es.[slot <- mkEntry k v] |> <| size_ ::= incr |>,
         Inserted)
    | ProbeExhausted => (tab, Full)
    end.

Definition erase tab k : t V * bool :=
  let slot := find_slot tab k in
  if slot =? capacity_ tab then (tab, false)
  else
    (tab <| entries_ ::= fun es => backshift_from hash (capacity_ tab) es slot |>
         <| size_ ::= fun n => u64 (n - 1) |>, true).

Definition size tab : Z := size_ tab.

(** ** What the table promises *)

Definition view tab : gmap Z V := to_map (entries_ tab).

Record wf tab : Prop := {
  wf_capacity : exists e, 3 <= e <= 63 /\ capacity_ tab = 2 ^ e /\
    probing_ok hash e (entries_ tab);
  wf_maximum : 1 <= maximum_entries_ tab /\ 2 * maximum_entries_ tab <= capacity_ tab;
  wf_size : size_ tab = Z.of_nat (base.size (view tab));
  wf_bound : size_ tab <= maximum_entries_ tab
}.

(** The result an insertion must report on a map with at most [bound] keys. *)
Definition insert_result (m : gmap Z V) (bound k : Z) : FixedHashInsertResult :=
  if decide (k = 0) then InvalidKey
  else if decide (is_Some (m !! k)) then Duplicate
  else if decide (Z.of_nat (base.size m) = bound) then Full
  else Inserted.

End operations.

(** ** The capacity *)

Lemma table_round_loop_ok fuel e target :
  3 <= e <= 63 -> 63 - e < Z.of_nat fuel -> target <= 2 ^ 63 ->
  exists e', e <= e' <= 63 /\ round_loop fuel (2 ^ e) target = Some (2 ^ e') /\
    target <= 2 ^ e' /\ (e' = e \/ 2 ^ (e' - 1) < target).
Proof.
  revert e. induction fuel as [|fuel IH]; intros e He Hf Ht; [lia|]. simpl.
  destruct (Z.ltb_spec (2 ^ e) target) as [Hlt|]; [|by exists e; eauto with lia].
  assert (e < 63).
  { destruct (decide (e = 63)) as [->|]; [|lia]. lia. }
  assert (2 ^ e <= 2 ^ 62) by (apply Z.pow_le_mono_r; lia).
  destruct (Z.ltb_spec (u64_max / 2) (2 ^ e)) as [Hc|_];
    [change (u64_max / 2) with 9223372036854775807 in Hc; lia|].
  assert (u64 (Z.shiftl (2 ^ e) 1) = 2 ^ (e + 1)) as ->.
  { rewrite Z.shiftl_mul_pow2, <- Z.pow_add_r by lia. apply wrap_small.
    split; [by apply Z.pow_nonneg|]. by apply Z.pow_lt_mono_r; lia. }
  destruct (IH (e + 1)) as (e' & ? & ? & ? & Hor); [lia..|].
  exists e'. split_and!; [lia|lia|done|done|right].
  destruct Hor as [->|]; [by replace (e + 1 - 1) with e by lia|done].
Qed.

Lemma table_round_loop_overflow fuel e target :
  3 <= e <= 63 -> 2 ^ 63 < target -> round_loop fuel (2 ^ e) target = None.
Proof.
  revert e. induction fuel as [|fuel IH]; intros e He Ht; [done|]. simpl.
  assert (2 ^ e <= 2 ^ 63) by (apply Z.pow_le_mono_r; lia).
  destruct (Z.ltb_spec (2 ^ e) target) as [_|]; [|lia].
  destruct (Z.ltb_spec (u64_max / 2) (2 ^ e)) as [_|Hc]; [done|].
  assert (e < 63).
  { change (u64_max / 2) with 9223372036854775807 in Hc.
    destruct (decide (e = 63)) as [->|]; lia. }
  assert (u64 (Z.shiftl (2 ^ e) 1) = 2 ^ (e + 1)) as ->.
  { rewrite Z.shiftl_mul_pow2, <- Z.pow_add_r by lia. apply wrap_small.
    split; [by apply Z.pow_nonneg|]. by apply Z.pow_lt_mono_r; lia. }
  apply IH; lia.
Qed.

Lemma table_rounded_capacity_ok n :
  1 <= n <= 2 ^ 62 ->
  exists e, 3 <= e <= 63 /\ rounded_capacity n = Some (2 ^ e) /\
    2 * n <= 2 ^ e /\ (e = 3 \/ 2 ^ e < 4 * n).
Proof.
  intros Hn. unfold rounded_capacity.
  destruct (Z.eqb_spec n 0) as [|_]; [lia|]. cbn [orb].
  destruct (Z.ltb_spec (u64_max / 2) n) as [Hc|_].
  { change (u64_max / 2) with 9223372036854775807 in Hc. lia. }
  rewrite wrap_small by lia. change 8 with (2 ^ 3).
  destruct (table_round_loop_ok 64 3 (n * 2)) as (e & He & -> & Hle & Hor); [lia..|].
  exists e. split_and!; [lia|lia|done|lia|]. destruct Hor as [|Hor]; [by left|right].
  replace (2 ^ e) with (2 * 2 ^ (e - 1)); [lia|].
  rewrite <- Z.pow_succ_r by lia. f_equal. lia.
Qed.

Lemma table_rounded_capacity_overflow n : 2 ^ 62 < n < 2 ^ 64 -> rounded_capacity n = None.
Proof.
  intros Hn. unfold rounded_capacity.
  destruct (Z.eqb_spec n 0) as [|_]; [lia|]. cbn [orb].
  destruct (Z.ltb_spec (u64_max / 2) n) as [_|Hc]; [done|].
  change (u64_max / 2) with 9223372036854775807 in Hc.
  rewrite wrap_small by lia. apply (table_round_loop_overflow 64 3); lia.
Qed.

(** ** The operations on well-formed tables *)

Section facts.
Context {V : Type} `{Inhabited V}.
Implicit Types (tab : t V) (k : Z) (v : V) (m : gmap Z V).

Lemma table_wf_unique tab : wf tab -> keys_unique (entries_ tab).
Proof. by intros [(e & _ & _ & Hok) _ _ _]; apply Hok. Qed.

Lemma table_view_zero tab : wf tab -> view tab !! 0 = None.
Proof. intros. by apply lookup_to_map_0, table_wf_unique. Qed.

Lemma table_wf_free tab : wf tab -> has_free (entries_ tab).
Proof.
  intros Hwf. destruct (wf_capacity _ Hwf) as (e & He & Hc & Hok).
  apply free_of_size; [by apply table_wf_unique|].
  rewrite (ok_len _ _ _ Hok), <- Hc.
  change (to_map (entries_ tab)) with (view tab).
  rewrite <- (wf_size _ Hwf). pose proof (wf_bound _ Hwf). pose proof (wf_maximum _ Hwf). lia.
Qed.

Lemma table_size_range tab : wf tab -> 0 <= size_ tab < 2 ^ 63.
Proof.
  intros Hwf. rewrite (wf_size _ Hwf). split; [lia|].
  rewrite <- (wf_size _ Hwf). pose proof (wf_bound _ Hwf). pose proof (wf_maximum _ Hwf).
  destruct (wf_capacity _ Hwf) as (e & He & Hc & _).
  assert (2 ^ e <= 2 ^ 63) by (apply Z.pow_le_mono_r; lia). lia.
Qed.

(** Where the probe for a key stops. *)
Lemma table_find_slot_spec tab k :
  wf tab ->
  match view tab !! k with
  | Some v => 0 <= find_slot tab k < capacity_ tab /\
      (entries_ tab).[find_slot tab k] = mkEntry k v /\ k <> 0
  | None => find_slot tab k = capacity_ tab
  end.
Proof.
  intros Hwf. destruct (wf_capacity _ Hwf) as (e & He & Hc & Hok). unfold find_slot.
  destruct (Z.eqb_spec k 0) as [->|Hk]; [by rewrite table_view_zero|].
  pose proof (find_probe_spec hash e ltac:(lia) (entries_ tab) k Hok Hk) as Hf.
  unfold view. rewrite Hc. destruct (to_map (entries_ tab) !! k) as [v|]; [|done].
  destruct Hf as (i & [? ?] & Hv & ->). by split_and!.
Qed.

Lemma table_find_spec tab k : wf tab -> find tab k = view tab !! k.
Proof.
  intros Hwf. pose proof (table_find_slot_spec tab k Hwf) as Hf. unfold find.
  destruct (view tab !! k) as [v|].
  - destruct Hf as (Hs & He & _). destruct (Z.eqb_spec (find_slot tab k) (capacity_ tab)); [lia|].
    by rewrite He.
  - by rewrite Hf, Z.eqb_refl.
Qed.

Lemma table_make_ok n :
  1 <= n <= 2 ^ 62 -> exists tab, make (V := V) n = Some tab /\ wf tab /\ view tab = ∅ /\
    maximum_entries_ tab = n.
Proof.
  intros Hn. destruct (table_rounded_capacity_ok n Hn) as (e & He & Hr & Hle & _).
  unfold make. rewrite Hr. simpl. eexists. split; [done|].
  destruct (empty_entries_ok (V := V) hash e ltac:(lia)) as [Hok Hm].
  split_and!; auto. split; simpl; auto; [by exists e|lia| |lia].
  unfold view. simpl. by rewrite Hm, map_size_empty.
Qed.

Lemma table_insert_wf_view tab k v tab' r :
  wf tab -> insert tab k v = (tab', r) ->
  wf tab' /\ maximum_entries_ tab' = maximum_entries_ tab /\
  r = insert_result (view tab) (maximum_entries_ tab) k /\
  view tab' = (if decide (r = Inserted) then <[k := v]> (view tab) else view tab).
Proof.
  intros Hwf Hi. pose proof (table_wf_free _ Hwf) as Hfree. pose proof (table_size_range _ Hwf) as Hsz.
  destruct (wf_capacity _ Hwf) as (e & He & Hc & Hok).
  unfold insert in Hi. unfold insert_result.
  destruct (Z.eqb_spec k 0) as [->|Hk]; [by simplify_eq|].
  rewrite (decide_False (P := k = 0)) by done.
  destruct (Z.eqb_spec (size_ tab) (maximum_entries_ tab)) as [Hfull|Hroom].
  { rewrite (table_find_spec tab k Hwf) in Hi. rewrite (wf_size _ Hwf) in Hfull.
    destruct (view tab !! k) eqn:E; simplify_eq.
    - by rewrite decide_True by done.
    - rewrite decide_False by (intros [??]; congruence). by rewrite decide_True by done. }
  rewrite (wf_size _ Hwf) in Hroom. rewrite Hc in Hi.
  destruct (view tab !! k) as [w|] eqn:E.
  - apply lookup_to_map in E as (_ & i & Hin & Hv); [|by apply table_wf_unique].
    rewrite (ok_len _ _ _ Hok) in Hin.
    rewrite (insert_probe_present hash e ltac:(lia) _ i) in Hi by (done || by rewrite Hv).
    simplify_eq. by rewrite decide_True by done.
  - rewrite decide_False by (intros [??]; congruence). rewrite decide_False by done.
    apply lookup_to_map_None in E as Habs; [|by apply table_wf_unique|done].
    destruct (insert_probe_absent hash e ltac:(lia) _ _ Hok Hfree Habs)
      as (s & Hp & Hs & Hks & Hpath).
    rewrite Hp in Hi. simplify_eq/=.
    destruct (probing_ok_put hash e ltac:(lia) _ k v s Hok Habs Hk Hs Hks Hpath) as [Hok' Hm].
    assert (wf (mk (maximum_entries_ tab) (capacity_ tab)
      ((entries_ tab).[s <- mkEntry k v]) (incr (size_ tab)))) as Hwf'.
    { split; simpl; [by exists e|apply Hwf| |].
      - unfold view; simpl. rewrite Hm, map_size_insert_None by done.
        unfold incr. rewrite wrap_small by lia. pose proof (wf_size _ Hwf). unfold view in *. lia.
      - unfold incr. rewrite wrap_small by lia. pose proof (wf_size _ Hwf).
        pose proof (wf_bound _ Hwf). lia. }
    split_and!; auto.
Qed.

Lemma table_erase_wf_view tab k tab' b :
  wf tab -> erase tab k = (tab', b) ->
  wf tab' /\ maximum_entries_ tab' = maximum_entries_ tab /\
  b = bool_decide (is_Some (view tab !! k)) /\ view tab' = delete k (view tab).
Proof.
  intros Hwf He. pose proof (table_find_slot_spec tab k Hwf) as Hf.
  pose proof (table_wf_free _ Hwf) as Hfree. pose proof (table_size_range _ Hwf) as Hsz.
  destruct (wf_capacity _ Hwf) as (e & Hb & Hc & Hok). unfold erase in He.
  destruct (view tab !! k) as [v|] eqn:E.
  - destruct Hf as (Hs & Hv & Hk).
    destruct (Z.eqb_spec (find_slot tab k) (capacity_ tab)); [lia|]. simplify_eq/=.
    destruct (backshift_from_delete hash e ltac:(lia) _ k v (find_slot tab k) Hok Hfree)
      as [Hok' Hm]; [by unfold slot_in; rewrite <- Hc|done..|].
    rewrite <- Hc in Hok', Hm.
    assert (base.size (view tab) <> 0%nat) as Hne.
    { rewrite map_size_ne_0_lookup. by eauto. }
    assert (u64 (size_ tab - 1) = Z.of_nat (base.size (delete k (view tab)))) as Hsize.
    { rewrite map_size_delete_Some by eauto. pose proof (wf_size _ Hwf).
      rewrite wrap_small by lia. lia. }
    split_and!; auto. split; simpl; [by exists e|apply Hwf| |].
    + unfold view; simpl. by rewrite Hm.
    + rewrite Hsize, map_size_delete_Some by eauto.
      pose proof (wf_size _ Hwf). pose proof (wf_bound _ Hwf). lia.
  - rewrite Hf, Z.eqb_refl in He. simplify_eq. split_and!; auto. by rewrite delete_id.
Qed.

Lemma table_assign_wf_view tab k v :
  wf tab -> is_Some (view tab !! k) ->
  wf (assign tab k v) /\ maximum_entries_ (assign tab k v) = maximum_entries_ tab /\
  view (assign tab k v) = <[k := v]> (view tab).
Proof.
  intros Hwf [w Hw]. pose proof (table_find_slot_spec tab k Hwf) as Hf. rewrite Hw in Hf.
  destruct Hf as (Hs & Hv & Hk). destruct (wf_capacity _ Hwf) as (e & He & Hc & Hok).
  unfold assign.
  destruct (Z.eqb_spec (find_slot tab k) (capacity_ tab)); [lia|].
  updates. rewrite Hv. rewrite Hc in Hs. simpl.
  destruct (probing_ok_overwrite hash e ltac:(lia) _ k w v _ Hok Hs Hv Hk) as [Hok' Hm].
  split_and!; auto. split; simpl; [by exists e|apply Hwf| |apply Hwf].
  unfold view. simpl. rewrite Hm, map_size_insert_Some by (by exists w). apply Hwf.
Qed.

End facts.
End FixedHashTable.
