(* ===== verification/OrderIndex.v ===== *)
(** * class FixedOrderIndex (components/include/qtrader/DensePriceOrderBook.hpp)

    The order-id index of the dense book: an open-addressing table with its own
    hash, no element count and a capacity of at least four slots per order. *)

From S2P Require Import Prelude OpenAddressing.

Module FixedOrderIndex.

Record t := mk { _capacity : Z; _entries : list (Entry Z) }.

#[global] Instance eta_t : Eta t := fun r => mk (_capacity r) (_entries r).

Definition invalid_index : Z := u32_max.

Definition hash (value : Z) : Z := Z.lxor value (Z.shiftr value 32).

(** [while (result < orders * 4) result <<= 1;]: [orders * 4] and the shift wrap
    in [size_t]; [None] when the fuel runs out. *)
Fixpoint round_loop (fuel : nat) (result target : Z) : option Z :=
  match fuel with
  | O => None
  | S fuel' =>
      if result <? target then round_loop fuel' (u64 (Z.shiftl result 1)) target
      else Some result
  end.

Definition rounded_capacity (orders : Z) : option Z := round_loop 64 8 (u64 (orders * 4)).

Definition make (orders : Z) : option t :=
  capacity ← rounded_capacity orders;
  Some (mk capacity (empty_entries capacity)).

Definition insert (ix : t) (k value : Z) : t * bool :=
  match insert_probe (_capacity ix) (Z.to_nat (_capacity ix)) (_entries ix) k
          (bucket hash (_capacity ix) k) with
  | ProbeEmpty slot => (ix <| _entries ::= fun es => es.[slot <- mkEntry k value] |>, true)
  | _ => (ix, false)
  end.

(** The probe shared by [find] and [erase]; the capacity stands for not found. *)
Definition probe (ix : t) (k : Z) : Z :=
  find_probe (_capacity ix) (Z.to_nat (_capacity ix)) (_entries ix) k
    (bucket hash (_capacity ix) k).

Definition find (ix : t) (k : Z) : Z :=
  if (k =? 0) || (k =? u64_max) then invalid_index
  else
    let slot := probe ix k in
    if slot =? _capacity ix then invalid_index else value (_entries ix).[slot].

Definition erase (ix : t) (k : Z) : t * bool :=
  let slot := probe ix k in
  if slot =? _capacity ix then (ix, false)
  else (ix <| _entries ::= fun es => backshift_from hash (_capacity ix) es slot |>, true).

(** ** What the index promises *)

Definition view (ix : t) : gmap Z Z := to_map (_entries ix).

(** [room] keys may still be inserted with a free slot left over. *)
Record wf (ix : t) : Prop := {
  wf_capacity : exists e, 3 <= e <= 63 /\ _capacity ix = 2 ^ e /\
    probing_ok hash e (_entries ix);
  wf_room : Z.of_nat (size (view ix)) < _capacity ix
}.

Lemma index_round_loop_ok fuel e target :
  3 <= e <= 63 -> 63 - e < Z.of_nat fuel -> target <= 2 ^ 63 ->
  exists e', e <= e' <= 63 /\ round_loop fuel (2 ^ e) target = Some (2 ^ e') /\
    target <= 2 ^ e'.
Proof.
  revert e. induction fuel as [|fuel IH]; intros e He Hf Ht; [lia|]. simpl.
  destruct (Z.ltb_spec (2 ^ e) target) as [Hlt|]; [|by exists e; eauto with lia].
  assert (e < 63).
  { destruct (decide (e = 63)) as [->|]; [|lia]. lia. }
  assert (u64 (Z.shiftl (2 ^ e) 1) = 2 ^ (e + 1)) as ->.
  { rewrite Z.shiftl_mul_pow2, <- Z.pow_add_r by lia. apply wrap_small.
    split; [by apply Z.pow_nonneg|]. by apply Z.pow_lt_mono_r; lia. }
  destruct (IH (e + 1)) as (e' & ? & ? & ?); [lia..|].
  exists e'. split_and!; auto; lia.
Qed.

Lemma index_make_ok n :
  0 <= n <= 2 ^ 61 -> exists ix, make n = Some ix /\ wf ix /\ view ix = ∅ /\
    8 <= _capacity ix /\ 4 * n <= _capacity ix.
Proof.
  intros Hn. unfold make, rounded_capacity. rewrite wrap_small by lia.
  destruct (index_round_loop_ok 64 3 (n * 4)) as (e & He & Hr & Hle); [lia..|].
  change 8 with (2 ^ 3) at 1. rewrite Hr. simpl. eexists. split; [done|].
  destruct (empty_entries_ok (V := Z) hash e ltac:(lia)) as [Hok Hm].
  assert (2 ^ 3 <= 2 ^ e) by (apply Z.pow_le_mono_r; lia).
  split_and!; simpl; auto; [|lia..]. split; simpl; [by exists e|].
  unfold view. simpl. rewrite Hm, map_size_empty. lia.
Qed.

Section facts.
Implicit Types (ix : t) (k v : Z).

Lemma index_wf_unique ix : wf ix -> keys_unique (_entries ix).
Proof. by intros [(e & _ & _ & Hok) _]; apply Hok. Qed.

Lemma index_wf_free ix : wf ix -> has_free (_entries ix).
Proof.
  intros Hwf. destruct (wf_capacity _ Hwf) as (e & He & Hc & Hok).
  apply free_of_size; [by apply index_wf_unique|].
  rewrite (ok_len _ _ _ Hok), <- Hc. apply Hwf.
Qed.

Lemma index_probe_spec ix k :
  wf ix -> k <> 0 ->
  match view ix !! k with
  | Some v => 0 <= probe ix k < _capacity ix /\ (_entries ix).[probe ix k] = mkEntry k v
  | None => probe ix k = _capacity ix
  end.
Proof.
  intros Hwf Hk. destruct (wf_capacity _ Hwf) as (e & He & Hc & Hok). unfold probe.
  pose proof (find_probe_spec hash e ltac:(lia) (_entries ix) k Hok Hk) as Hf.
  unfold view. rewrite Hc. destruct (to_map (_entries ix) !! k) as [v|]; [|done].
  destruct Hf as (i & [??] & Hv & ->). by split_and!.
Qed.

Lemma index_view_zero ix : wf ix -> view ix !! 0 = None.
Proof. intros. by apply lookup_to_map_0, index_wf_unique. Qed.

(** [find] is lookup for the ids the book accepts. *)
Lemma index_find_spec ix k :
  wf ix -> k <> u64_max -> find ix k = default invalid_index (view ix !! k).
Proof.
  intros Hwf Hmax. unfold find.
  destruct (Z.eqb_spec k 0) as [->|Hk]; [by rewrite index_view_zero|].
  destruct (Z.eqb_spec k u64_max); [done|]. cbn [orb].
  pose proof (index_probe_spec ix k Hwf Hk) as Hp. destruct (view ix !! k) as [v|].
  - destruct Hp as [Hs He]. destruct (Z.eqb_spec (probe ix k) (_capacity ix)); [lia|].
    by rewrite He.
  - by rewrite Hp, Z.eqb_refl.
Qed.

Lemma index_insert_wf_view ix k v :
  wf ix -> k <> 0 -> view ix !! k = None -> Z.of_nat (size (view ix)) + 1 < _capacity ix ->
  wf (insert ix k v).1 /\ view (insert ix k v).1 = <[k := v]> (view ix) /\
  _capacity (insert ix k v).1 = _capacity ix /\ (insert ix k v).2 = true.
Proof.
  intros Hwf Hk Hn Hroom. pose proof (index_wf_free _ Hwf) as Hfree.
  destruct (wf_capacity _ Hwf) as (e & He & Hc & Hok).
  apply lookup_to_map_None in Hn as Habs; [|by apply index_wf_unique|done].
  destruct (insert_probe_absent hash e ltac:(lia) _ _ Hok Hfree Habs)
    as (s & Hp & Hs & Hks & Hpath).
  destruct (probing_ok_put hash e ltac:(lia) _ k v s Hok Habs Hk Hs Hks Hpath) as [Hok' Hm].
  unfold insert. rewrite Hc, Hp. updates. simpl.
  assert (view (mk (_capacity ix) ((_entries ix).[s <- mkEntry k v])) =
    <[k := v]> (view ix)) as Hv' by exact Hm.
  split_and!; auto. split; [by exists e|]. rewrite Hv', map_size_insert_None by done.
  simpl. lia.
Qed.

Lemma index_insert_present ix k v w :
  wf ix -> k <> 0 -> view ix !! k = Some w -> insert ix k v = (ix, false).
Proof.
  intros Hwf Hk Hw. destruct (wf_capacity _ Hwf) as (e & He & Hc & Hok).
  apply lookup_to_map in Hw as (_ & i & Hi & Hv); [|by apply index_wf_unique].
  rewrite (ok_len _ _ _ Hok) in Hi. unfold insert. rewrite Hc.
  by rewrite (insert_probe_present hash e ltac:(lia) _ i) by (done || by rewrite Hv).
Qed.

Lemma index_erase_wf_view ix k :
  wf ix -> k <> 0 ->
  wf (erase ix k).1 /\ view (erase ix k).1 = delete k (view ix) /\
  _capacity (erase ix k).1 = _capacity ix /\
  (erase ix k).2 = bool_decide (is_Some (view ix !! k)).
Proof.
  intros Hwf Hk. pose proof (index_probe_spec ix k Hwf Hk) as Hp.
  pose proof (index_wf_free _ Hwf) as Hfree. destruct (wf_capacity _ Hwf) as (e & He & Hc & Hok).
  unfold erase. destruct (view ix !! k) as [v|] eqn:E.
  - destruct Hp as [Hs Hv]. destruct (Z.eqb_spec (probe ix k) (_capacity ix)); [lia|].
    destruct (backshift_from_delete hash e ltac:(lia) _ k v (probe ix k) Hok Hfree)
      as [Hok' Hm]; [by unfold slot_in; rewrite <- Hc|done..|].
    updates. simpl. rewrite <- Hc in Hok', Hm. split_and!; auto.
    split; simpl; [by exists e|]. unfold view at 1. simpl. rewrite Hm.
    change (to_map (_entries ix)) with (view ix).
    rewrite map_size_delete_Some by eauto. pose proof (wf_room _ Hwf). lia.
  - rewrite Hp, Z.eqb_refl. simpl. rewrite delete_id by done. by split_and!.
Qed.

End facts.

#[export] Hint Resolve index_wf_unique index_wf_free : qtrader.

End FixedOrderIndex.
