(* ===== verification/HashProperties.v ===== *)
(** * Properties of the fixed-capacity hash tables

    Any history of operations on a table that [make] built is indistinguishable
    from the same history on a finite map with a bound on its size, although
    deletion moves entries around; and the power-of-two rounding of the
    capacity succeeds exactly where it should. *)

From S2P Require Import Prelude OpenAddressing FixedHashTable OrderIndex.

Module TableHistory.
Import FixedHashTable.

Section history.
Context {V : Type} `{Inhabited V}.

(** [Write] is the write through the pointer a [find] returned. *)
Inductive TableOp := Insert (k : Z) (v : V) | Find (k : Z) | Write (k : Z) (v : V) | Erase (k : Z) | Size.

Inductive TableResult :=
  | Inserting (r : FixedHashInsertResult) | Found (v : option V) | Wrote (ok : bool)
  | Erased (ok : bool) | Counted (n : Z).

Definition step (tab : t V) (op : TableOp) : t V * TableResult :=
  match op with
  | Insert k v => let '(tab, r) := insert tab k v in (tab, Inserting r)
  | Find k => (tab, Found (find tab k))
  | Write k v =>
      match find tab k with
      | Some _ => (assign tab k v, Wrote true)
      | None => (tab, Wrote false)
      end
  | Erase k => let '(tab, b) := erase tab k in (tab, Erased b)
  | Size => (tab, Counted (FixedHashTable.size tab))
  end.

(** The same operation on a map that holds at most [bound] non-zero keys. *)
Definition step_map (bound : Z) (m : gmap Z V) (op : TableOp) : gmap Z V * TableResult :=
  match op with
  | Insert k v =>
      let r := insert_result m bound k in
      (if decide (r = Inserted) then <[k := v]> m else m, Inserting r)
  | Find k => (m, Found (m !! k))
  | Write k v =>
      match m !! k with Some _ => (<[k := v]> m, Wrote true) | None => (m, Wrote false) end
  | Erase k => (delete k m, Erased (bool_decide (is_Some (m !! k))))
  | Size => (m, Counted (Z.of_nat (base.size m)))
  end.

Definition results {B} (step : B -> TableOp -> B * TableResult) : B -> list TableOp -> list TableResult :=
  fix go b ops :=
    match ops with
    | [] => []
    | op :: ops' => let '(b, r) := step b op in r :: go b ops'
    end.

Lemma step_view tab op :
  wf tab ->
  wf (step tab op).1 /\ maximum_entries_ (step tab op).1 = maximum_entries_ tab /\
  step_map (maximum_entries_ tab) (view tab) op = (view (step tab op).1, (step tab op).2).
Proof.
  intros Hwf. destruct op as [k v|k|k v|k|]; simpl.
  - destruct (insert tab k v) as [tab' r] eqn:E. simpl.
    destruct (table_insert_wf_view _ _ _ _ _ Hwf E) as (? & ? & -> & ->). by split_and!.
  - by rewrite table_find_spec.
  - rewrite table_find_spec by done. destruct (view tab !! k) eqn:E; [|done]. simpl.
    destruct (table_assign_wf_view tab k v Hwf) as (? & ? & ->); [by eexists|]. by split_and!.
  - destruct (erase tab k) as [tab' b] eqn:E. simpl.
    destruct (table_erase_wf_view _ _ _ _ Hwf E) as (? & ? & -> & ->). by split_and!.
  - by rewrite <- (wf_size _ Hwf).
Qed.

Lemma results_view tab ops :
  wf tab -> results step tab ops = results (step_map (maximum_entries_ tab)) (view tab) ops.
Proof.
  revert tab. induction ops as [|op ops IH]; intros tab Hwf; [done|]. simpl.
  destruct (step_view tab op Hwf) as (Hwf' & Hm & ->). destruct (step tab op) as [tab' r].
  simpl in *. by rewrite IH, Hm.
Qed.

(** C17: every history of insertions, lookups, writes through found pointers,
    deletions and size queries on a freshly built [FixedHashTable] returns
    what a finite map bounded by [maximum_entries] returns. *)
Theorem table_history_refines n tab ops :
  1 <= n <= 2 ^ 62 -> make (V := V) n = Some tab ->
  results step tab ops = results (step_map n) ∅ ops.
Proof.
  intros Hn Hmake. destruct (table_make_ok (V := V) n Hn) as (tab' & Ht & Hwf & Hv & Hm).
  rewrite Hmake in Ht. simplify_eq. by rewrite results_view, Hv.
Qed.
End history.

(** Keys that collide, a deletion in the middle of their run, a full table. *)
Definition demo : list (TableOp (V := Z)) :=
  [Insert 5 50; Insert 13 130; Insert 21 210; Insert 7 70; Erase 5; Find 13; Write 21 211;
   Find 21; Insert 13 1; Insert 0 0; Insert 9 90; Insert 30 1; Size].

Lemma table_history_refines_witness :
  match make (V := Z) 4 with
  | Some tab => results step tab demo = results (step_map 4) ∅ demo
  | None => False
  end.
Proof.
  destruct (make (V := Z) 4) as [tab|] eqn:E; [|vm_compute in E; discriminate E].
  apply (table_history_refines 4 tab demo); [lia|exact E].
Defined.

(** The constructor accepts exactly the sizes in [1, 2^62]: there it
    rounds up to a power of two at most four times the size (eight at least),
    and above, where doubling the size or the capacity would leave [size_t], it
    throws. *)
Theorem table_capacity_rounding n :
  0 <= n < 2 ^ 64 ->
  match rounded_capacity n with
  | Some c => 1 <= n <= 2 ^ 62 /\ 2 * n <= c /\ c <= Z.max 8 (4 * n) /\ exists e, c = 2 ^ e
  | None => n = 0 \/ 2 ^ 62 < n
  end.
Proof.
  intros Hn. destruct (decide (n = 0)) as [->|]; [by left|].
  destruct (decide (n <= 2 ^ 62)) as [Hle|Hgt].
  - destruct (table_rounded_capacity_ok n) as (e & He & -> & Hl & Hu); [lia|].
    split; [lia|]. split; [done|]. split; [|by exists e].
    destruct Hu as [->|]; lia.
  - rewrite table_rounded_capacity_overflow by lia. right. lia.
Qed.

Lemma table_capacity_rounding_witness :
  match rounded_capacity 100 with
  | Some c => 1 <= 100 <= 2 ^ 62 /\ 2 * 100 <= c /\ c <= Z.max 8 (4 * 100) /\ exists e, c = 2 ^ e
  | None => 100 = 0 \/ 2 ^ 62 < 100
  end.
Proof. apply (table_capacity_rounding 100). lia. Defined.
End TableHistory.
