(* ===== verification/BookTypes.v ===== *)
(** * The order-book vocabulary (components/include/qtrader/PriceTimeOrderBook.hpp)

    The enums and structs both books share, and the calls a book makes on its
    sink.  The template parameter [Sink] is modelled by the sequence of calls
    made on it: any concrete sink is a fold over that sequence. *)

From S2P Require Import Prelude.

Inductive Side := Buy | Sell.
Inductive OrderType := Limit | Market.
Inductive OrderState := New | PartiallyFilled | Filled | Canceled | Rejected.

#[global] Instance side_eq_dec : EqDecision Side.
Proof. solve_decision. Defined.
#[global] Instance order_type_eq_dec : EqDecision OrderType.
Proof. solve_decision. Defined.
#[global] Instance order_state_eq_dec : EqDecision OrderState.
Proof. solve_decision. Defined.

Definition is_buy (s : Side) : bool := match s with Buy => true | Sell => false end.
Definition is_limit (ty : OrderType) : bool := match ty with Limit => true | Market => false end.
Definition opposite (s : Side) : Side := match s with Buy => Sell | Sell => Buy end.

Module OrderRequest.
Record t := mk { id : Z; side : Side; type : OrderType; price : Z; quantity : Z }.
End OrderRequest.

Module Trade.
Record t := mk { maker_id : Z; taker_id : Z; price : Z; quantity : Z }.
#[global] Instance trade_eq_dec : EqDecision t.
Proof. solve_decision. Defined.
End Trade.

Module OrderUpdate.
Record t := mk { id : Z; state : OrderState; remaining : Z }.
#[global] Instance order_update_eq_dec : EqDecision t.
Proof. solve_decision. Defined.
End OrderUpdate.

(** One call on the sink. *)
Inductive SinkEvent :=
  | on_trade (trade : Trade.t)
  | on_order (update : OrderUpdate.t).

#[global] Instance sink_event_eq_dec : EqDecision SinkEvent.
Proof. solve_decision. Defined.

(** ** A book as a time-ordered list of resting orders

    The abstract state: the resting orders, oldest first.  A price level's FIFO
    queue is the sublist of its orders; price priority is the best price. *)
Record Resting := mkResting {
  rest_id : Z;
  rest_side : Side;
  rest_price : Z;
  rest_remaining : Z
}.

#[global] Instance eta_resting : Eta Resting :=
  fun r => mkResting (rest_id r) (rest_side r) (rest_price r) (rest_remaining r).
#[global] Instance resting_eq_dec : EqDecision Resting.
Proof. solve_decision. Defined.

Module BookSpec.
Implicit Types (l : list Resting) (o : Resting).

Definition lookup l (id : Z) : option Resting :=
  snd <$> list_find (fun o => rest_id o = id) l.

Definition remove l (id : Z) : list Resting := filter (fun o => rest_id o <> id) l.

Definition add l (id : Z) (side : Side) (price quantity : Z) : list Resting :=
  l ++ [mkResting id side price quantity].

(** Reduces one order in place; it keeps its time priority unless exhausted. *)
Definition reduce_order (id quantity : Z) (o : Resting) : option Resting :=
  if decide (rest_id o = id) then
    if decide (rest_remaining o = quantity) then None
    else Some (o <| rest_remaining ::= fun r => r - quantity |>)
  else Some o.

Definition reduce l (id quantity : Z) : list Resting := omap (reduce_order id quantity) l.

Definition replace l (old_id new_id price quantity : Z) : list Resting :=
  match lookup l old_id with
  | Some o => add (remove l old_id) new_id (rest_side o) price quantity
  | None => l
  end.

Definition queue l (side : Side) (price : Z) : list Resting :=
  filter (fun o => rest_side o = side /\ rest_price o = price) l.

Definition level_quantity l side price : Z :=
  foldr (fun o acc => rest_remaining o + acc) 0 (queue l side price).

(** Whether price [p] has priority over price [q] on a side. *)
Definition better (side : Side) (p q : Z) : bool :=
  match side with Buy => q <? p | Sell => p <? q end.

Definition best_step (side : Side) (o : Resting) (acc : option Resting) : option Resting :=
  if decide (rest_side o = side) then
    match acc with
    | Some o' => if better side (rest_price o') (rest_price o) then Some o' else Some o
    | None => Some o
    end
  else acc.

(** The order with price-time priority on a side: the earliest at the best price. *)
Definition best_order l (side : Side) : option Resting := foldr (best_step side) None l.

Definition best_price l (side : Side) : option Z := rest_price <$> best_order l side.

(** *** Matching *)

Definition crosses (side : Side) (ty : OrderType) (limit price : Z) : bool :=
  match ty with
  | Market => true
  | Limit => match side with Buy => price <=? limit | Sell => limit <=? price end
  end.

(** Matches an incoming order of [remaining] shares against the resting orders,
    best price first and oldest first; returns the book, the unfilled shares
    and the calls made on the sink.  Each round consumes a resting order or
    completes the incoming one, so [length l] rounds and one are enough. *)
Fixpoint match_rounds (n : nat) l (taker_id : Z) (side : Side) (ty : OrderType)
    (limit remaining : Z) : list Resting * Z * list SinkEvent :=
  match n with
  | O => (l, remaining, [])
  | S n' =>
      if remaining =? 0 then (l, remaining, [])
      else match best_order l (opposite side) with
      | None => (l, remaining, [])
      | Some maker =>
          if negb (crosses side ty limit (rest_price maker)) then (l, remaining, [])
          else
            let quantity := Z.min remaining (rest_remaining maker) in
            let l' := reduce l (rest_id maker) quantity in
            let left := rest_remaining maker - quantity in
            let '(l'', remaining', out) :=
              match_rounds n' l' taker_id side ty limit (remaining - quantity) in
            (l'', remaining',
             on_trade (Trade.mk (rest_id maker) taker_id (rest_price maker) quantity) ::
             on_order (OrderUpdate.mk (rest_id maker)
               (if left =? 0 then Filled else PartiallyFilled) left) :: out)
      end
  end.

Definition match_order l taker_id side ty limit remaining :=
  match_rounds (S (length l)) l taker_id side ty limit remaining.

(** What becomes of an accepted incoming order. *)
Definition settle l (id : Z) (side : Side) (ty : OrderType) (price quantity : Z) :
    list Resting * list SinkEvent :=
  let '(l', remaining, out) := match_order l id side ty price quantity in
  if remaining =? 0 then (l', out ++ [on_order (OrderUpdate.mk id Filled 0)])
  else match ty with
  | Market => (l', out ++ [on_order (OrderUpdate.mk id Canceled remaining)])
  | Limit =>
      (add l' id side price remaining,
       out ++ [on_order (OrderUpdate.mk id
         (if remaining =? quantity then New else PartiallyFilled) remaining)])
  end.

End BookSpec.
