(* ===== verification/DenseBook.v ===== *)
(** * class DensePriceOrderBook (components/include/qtrader/DensePriceOrderBook.hpp)

    The dense book as the code has it: a node pool with a free list, one
    doubly-linked FIFO per price level threaded through the pool by 32-bit
    indices, an occupancy bitmap and a best level per side, and the order-id
    index.  This file holds the definitions only. *)

From S2P Require Import Prelude OpenAddressing OrderIndex BookTypes.

Module DensePriceOrderBook.

Definition kInvalid : Z := u32_max.

Record Node := mkNode {
  id : Z;
  price : Z;
  remaining : Z;
  previous : Z;
  next : Z;
  free_next : Z;
  level : Z;
  side : Side;
  state : OrderState
}.

#[global] Instance eta_node : Eta Node := fun n =>
  mkNode (id n) (price n) (remaining n) (previous n) (next n) (free_next n)
    (level n) (side n) (state n).

Record PriceLevel := mkLevel { head : Z; tail : Z; total_quantity : Z }.

#[global] Instance eta_level : Eta PriceLevel := fun l =>
  mkLevel (head l) (tail l) (total_quantity l).

Definition empty_node : Node :=
  mkNode 0 0 0 kInvalid kInvalid kInvalid kInvalid Buy New.
Definition empty_level : PriceLevel := mkLevel kInvalid kInvalid 0.

#[global] Instance node_inhabited : Inhabited Node := populate empty_node.
#[global] Instance level_inhabited : Inhabited PriceLevel := populate empty_level.

Record t := mk {
  _nodes : list Node;
  _bids : list PriceLevel;
  _asks : list PriceLevel;
  _bid_bitmap : list Z;
  _ask_bitmap : list Z;
  _index : FixedOrderIndex.t;
  _order_capacity : Z;
  _minimum_price : Z;
  _tick_size : Z;
  _level_count : Z;
  _free : Z;
  _active : Z;
  _best_bid : Z;
  _best_ask : Z
}.

#[global] Instance eta_book : Eta t := fun b =>
  mk (_nodes b) (_bids b) (_asks b) (_bid_bitmap b) (_ask_bitmap b) (_index b)
    (_order_capacity b) (_minimum_price b) (_tick_size b) (_level_count b)
    (_free b) (_active b) (_best_bid b) (_best_ask b).

(** ** References the code takes *)

(** [PriceLevel& level = side == Side::Buy ? _bids[i] : _asks[i]]. *)
Definition levels (b : t) (s : Side) : list PriceLevel :=
  match s with Buy => _bids b | Sell => _asks b end.
Definition upd_level (b : t) (s : Side) (lv : Z) (f : PriceLevel -> PriceLevel) : t :=
  match s with
  | Buy => b <| _bids ::= fun a => a.[lv <- f a.[lv]] |>
  | Sell => b <| _asks ::= fun a => a.[lv <- f a.[lv]] |>
  end.
Definition node (b : t) (i : Z) : Node := (_nodes b).[i].
Definition upd_node (b : t) (i : Z) (f : Node -> Node) : t :=
  b <| _nodes ::= fun a => a.[i <- f a.[i]] |>.
Definition bitmap (b : t) (s : Side) : list Z :=
  match s with Buy => _bid_bitmap b | Sell => _ask_bitmap b end.
Definition upd_bitmap (b : t) (s : Side) (f : list Z -> list Z) : t :=
  match s with
  | Buy => b <| _bid_bitmap ::= f |>
  | Sell => b <| _ask_bitmap ::= f |>
  end.

(** ** Construction *)

Definition bitmap_words (level_count : Z) : Z := u32 (level_count + 63) / 64.

Definition fresh_node (order_capacity i : Z) : Node :=
  empty_node <| free_next := if i + 1 <? order_capacity then i + 1 else kInvalid |>.

Definition make (order_capacity minimum_price tick_size level_count : Z) : option t :=
  index ← FixedOrderIndex.make order_capacity;
  let words := Z.to_nat (bitmap_words level_count) in
  Some (mk (map (fresh_node order_capacity) (seqZ 0 order_capacity))
    (replicate (Z.to_nat level_count) empty_level)
    (replicate (Z.to_nat level_count) empty_level)
    (replicate words 0) (replicate words 0) index order_capacity minimum_price
    tick_size level_count (if order_capacity =? 0 then kInvalid else 0) 0
    kInvalid kInvalid).

(** ** Prices and levels *)

(** [bool price_index(int64_t, uint32_t&)]: [None] is [false]. *)
Definition price_index (b : t) (price : Z) : option Z :=
  if (_tick_size b <=? 0) || (price <? _minimum_price b) then None
  else
    let delta := price - _minimum_price b in
    let index :=
      if _tick_size b =? 1 then Some (u64 delta)
      else if negb (Z.rem delta (_tick_size b) =? 0) then None
      else Some (u64 (Z.quot delta (_tick_size b))) in
    match index with
    | None => None
    | Some index => if _level_count b <=? index then None else Some (u32 index)
    end.

Definition level_price (b : t) (lv : Z) : Z := _minimum_price b + lv * _tick_size b.

(** ** The occupancy bitmap *)

(** [while ((bits & 1) == 0) { bits >>= 1; ++index; }] *)
Fixpoint lowest_bit_loop (fuel : nat) (bits index : Z) : Z :=
  match fuel with
  | O => index
  | S fuel' =>
      if Z.land bits 1 =? 0 then lowest_bit_loop fuel' (Z.shiftr bits 1) (index + 1)
      else index
  end.

Definition lowest_bit (bits : Z) : Z := lowest_bit_loop 64 bits 0.

(** [while (bits >>= 1) ++index;] *)
Fixpoint highest_bit_loop (fuel : nat) (bits index : Z) : Z :=
  match fuel with
  | O => index
  | S fuel' =>
      let bits := Z.shiftr bits 1 in
      if bits =? 0 then index else highest_bit_loop fuel' bits (index + 1)
  end.

Definition highest_bit (bits : Z) : Z := highest_bit_loop 64 bits 0.

(** [for (word = words; word-- > 0;)]; the fuel is the number of words left. *)
Fixpoint find_highest (words : nat) (bm : list Z) : Z :=
  match words with
  | O => kInvalid
  | S words' =>
      let word := Z.of_nat words' in
      let bits := bm.[word] in
      if negb (bits =? 0) then word * 64 + highest_bit bits else find_highest words' bm
  end.

(** [for (word = 0; word < words; ++word)]; the fuel is the words still ahead. *)
Fixpoint find_lowest (ahead : nat) (word : Z) (bm : list Z) : Z :=
  match ahead with
  | O => kInvalid
  | S ahead' =>
      let bits := bm.[word] in
      if negb (bits =? 0) then word * 64 + lowest_bit bits
      else find_lowest ahead' (word + 1) bm
  end.

Definition find_best (b : t) (bm : list Z) (highest : bool) : Z :=
  let words := Z.to_nat (bitmap_words (_level_count b)) in
  if highest then find_highest words bm else find_lowest words 0 bm.

(** [bitmap[level >> 6] |= 1ULL << (level & 63)] *)
Definition set_bit (bm : list Z) (lv : Z) : list Z :=
  let w := Z.shiftr lv 6 in
  bm.[w <- Z.lor bm.[w] (u64 (Z.shiftl 1 (Z.land lv 63)))].

(** [bitmap[level >> 6] &= ~(1ULL << (level & 63))] *)
Definition clear_bit (bm : list Z) (lv : Z) : list Z :=
  let w := Z.shiftr lv 6 in
  bm.[w <- Z.land bm.[w] (u64 (Z.lnot (u64 (Z.shiftl 1 (Z.land lv 63)))))].

Definition set_occupied (b : t) (s : Side) (lv : Z) : t :=
  let b := upd_bitmap b s (fun bm => set_bit bm lv) in
  match s with
  | Buy =>
      if (_best_bid b =? kInvalid) || (_best_bid b <? lv) then b <| _best_bid := lv |> else b
  | Sell =>
      if (_best_ask b =? kInvalid) || (lv <? _best_ask b) then b <| _best_ask := lv |> else b
  end.

Definition clear_occupied (b : t) (s : Side) (lv : Z) : t :=
  let b := upd_bitmap b s (fun bm => clear_bit bm lv) in
  let b :=
    if is_buy s && (_best_bid b =? lv)
    then b <| _best_bid := find_best b (_bid_bitmap b) true |> else b in
  if negb (is_buy s) && (_best_ask b =? lv)
  then b <| _best_ask := find_best b (_ask_bitmap b) false |> else b.

(** ** The node pool *)

(** The allocated index, or [kInvalid] when the pool is exhausted. *)
Definition allocate (b : t) : t * Z :=
  if _free b =? kInvalid then (b, kInvalid)
  else
    let index := _free b in
    let b := b <| _free := free_next (node b index) |> in
    let b := upd_node b index (fun _ => empty_node) in
    (b <| _active ::= incr |>, index).

Definition release_without_index (b : t) (index : Z) : t :=
  let b := upd_node b index (fun n => n <| free_next := _free b |>) in
  b <| _free := index |> <| _active ::= fun a => u64 (a - 1) |>.

Definition release (b : t) (index : Z) : t :=
  let b := b <| _index ::= fun ix => (FixedOrderIndex.erase ix (id (node b index))).1 |> in
  release_without_index b index.

(** ** The level queues *)

Definition append (b : t) (index level_index : Z) : t :=
  let s := side (node b index) in
  let last := tail (levels b s).[level_index] in
  let b := upd_node b index (fun n => n <| previous := last |>) in
  let b :=
    if negb (last =? kInvalid) then upd_node b last (fun n => n <| next := index |>)
    else upd_level b s level_index (fun l => l <| head := index |>) in
  let b := upd_level b s level_index (fun l => l <| tail := index |>) in
  let b := upd_level b s level_index
    (fun l => l <| total_quantity ::= fun q => u64 (q + remaining (node b index)) |>) in
  set_occupied b s level_index.

Definition unlink (b : t) (index : Z) : t :=
  let level_index := level (node b index) in
  let s := side (node b index) in
  let prev := previous (node b index) in
  let b :=
    if negb (prev =? kInvalid)
    then upd_node b prev (fun n => n <| next := next (node b index) |>)
    else upd_level b s level_index (fun l => l <| head := next (node b index) |>) in
  let nxt := next (node b index) in
  let b :=
    if negb (nxt =? kInvalid)
    then upd_node b nxt (fun n => n <| previous := previous (node b index) |>)
    else upd_level b s level_index (fun l => l <| tail := previous (node b index) |>) in
  let b := upd_level b s level_index
    (fun l => l <| total_quantity ::= fun q => u64 (q - remaining (node b index)) |>) in
  let b := upd_node b index (fun n => n <| previous := kInvalid |> <| next := kInvalid |>) in
  if head (levels b s).[level_index] =? kInvalid then clear_occupied b s level_index else b.

Definition unlink_filled (b : t) (index level_index : Z) : t :=
  let s := side (node b index) in
  let nxt := next (node b index) in
  let b := upd_level b s level_index (fun l => l <| head := nxt |>) in
  let b :=
    if negb (nxt =? kInvalid) then upd_node b nxt (fun n => n <| previous := kInvalid |>)
    else upd_level b s level_index (fun l => l <| tail := kInvalid |>) in
  let b := upd_node b index (fun n => n <| previous := kInvalid |> <| next := kInvalid |>) in
  if head (levels b s).[level_index] =? kInvalid then clear_occupied b s level_index else b.

(** ** Direct market-data operations *)

Definition valid_id (id : Z) : bool := negb ((id =? 0) || (id =? u64_max)).

Definition feed_add (b : t) (id : Z) (s : Side) (price quantity : Z) : t * bool :=
  if negb (valid_id id) || (quantity =? 0) ||
     negb (FixedOrderIndex.find (_index b) id =? kInvalid) then (b, false)
  else match price_index b price with
  | None => (b, false)
  | Some lv =>
      let '(b, index) := allocate b in
      if index =? kInvalid then (b, false)
      else
        let '(ix, inserted) := FixedOrderIndex.insert (_index b) id index in
        if negb inserted then (release_without_index b index, false)
        else
          let b := b <| _index := ix |> in
          let b := upd_node b index (fun n =>
            n <| DensePriceOrderBook.id := id |> <| side := s |>
              <| DensePriceOrderBook.price := price |> <| remaining := quantity |>
              <| state := New |> <| level := lv |>) in
          (append b index lv, true)
  end.

Definition feed_reduce (b : t) (id quantity : Z) : t * bool :=
  let index := FixedOrderIndex.find (_index b) id in
  if (index =? kInvalid) || (quantity =? 0) || (remaining (node b index) <? quantity)
  then (b, false)
  else
    let s := side (node b index) in
    let b := upd_node b index (fun n => n <| remaining ::= fun r => u64 (r - quantity) |>) in
    let b := upd_level b s (level (node b index))
      (fun l => l <| total_quantity ::= fun q => u64 (q - quantity) |>) in
    if remaining (node b index) =? 0 then (release (unlink b index) index, true)
    else (b, true).

Definition feed_delete (b : t) (id : Z) : t * bool :=
  let index := FixedOrderIndex.find (_index b) id in
  if index =? kInvalid then (b, false) else (release (unlink b index) index, true).

Definition feed_replace (b : t) (old_id new_id price quantity : Z) : t * bool :=
  let index := FixedOrderIndex.find (_index b) old_id in
  if (index =? kInvalid) || negb (valid_id new_id) || (quantity =? 0) ||
     negb (FixedOrderIndex.find (_index b) new_id =? kInvalid) then (b, false)
  else match price_index b price with
  | None => (b, false)
  | Some lv =>
      let '(ix, inserted) := FixedOrderIndex.insert (_index b) new_id index in
      if negb inserted then (b, false)
      else
        let b := b <| _index := ix |> in
        let b := unlink b index in
        let b := b <| _index ::= fun ix => (FixedOrderIndex.erase ix old_id).1 |> in
        let b := upd_node b index (fun n =>
          n <| DensePriceOrderBook.id := new_id |> <| DensePriceOrderBook.price := price |>
            <| remaining := quantity |> <| state := New |> <| level := lv |>) in
        (append b index lv, true)
  end.

(** ** Matching *)

(** [while (taker.remaining != 0 && level.head != kInvalid)] *)
Fixpoint match_level (fuel : nat) (b : t) (taker level_index price : Z)
    (out : list SinkEvent) : t * list SinkEvent :=
  match fuel with
  | O => (b, out)
  | S fuel' =>
      let s := opposite (side (node b taker)) in
      let maker := head (levels b s).[level_index] in
      if (remaining (node b taker) =? 0) || (maker =? kInvalid) then (b, out)
      else
        let quantity :=
          if remaining (node b taker) <? remaining (node b maker)
          then remaining (node b taker) else remaining (node b maker) in
        let b := upd_node b taker (fun n => n <| remaining ::= fun r => u64 (r - quantity) |>) in
        let b := upd_node b maker (fun n => n <| remaining ::= fun r => u64 (r - quantity) |>) in
        let b := upd_level b s level_index
          (fun l => l <| total_quantity ::= fun q => u64 (q - quantity) |>) in
        let out := out ++ [on_trade (Trade.mk (id (node b maker)) (id (node b taker)) price quantity)] in
        if remaining (node b maker) =? 0 then
          let b := upd_node b maker (fun n => n <| state := Filled |>) in
          let out := out ++ [on_order (OrderUpdate.mk (id (node b maker)) Filled 0)] in
          let b := release (unlink_filled b maker level_index) maker in
          match_level fuel' b taker level_index price out
        else
          let b := upd_node b maker (fun n => n <| state := PartiallyFilled |>) in
          let out := out ++ [on_order (OrderUpdate.mk (id (node b maker)) PartiallyFilled
            (remaining (node b maker)))] in
          match_level fuel' b taker level_index price out
  end.

(** [while (taker.remaining != 0)]: both loops consume a maker per round or
    exhaust the taker, so one round per node and one are enough fuel. *)
Fixpoint match_loop (fuel : nat) (b : t) (taker : Z) (type : OrderType)
    (out : list SinkEvent) : t * list SinkEvent :=
  match fuel with
  | O => (b, out)
  | S fuel' =>
      if remaining (node b taker) =? 0 then (b, out)
      else
        let level_index := if is_buy (side (node b taker)) then _best_ask b else _best_bid b in
        if level_index =? kInvalid then (b, out)
        else
          let price := level_price b level_index in
          if is_limit type &&
             (if is_buy (side (node b taker))
              then DensePriceOrderBook.price (node b taker) <? price
              else price <? DensePriceOrderBook.price (node b taker))
          then (b, out)
          else
            let '(b, out) :=
              match_level (S (length (_nodes b))) b taker level_index price out in
            match_loop fuel' b taker type out
  end.

Definition match_taker (b : t) (taker : Z) (type : OrderType) (out : list SinkEvent) :
    t * list SinkEvent :=
  match_loop (S (length (_nodes b))) b taker type out.

(** ** Simulated-exchange operations *)

Definition submit (b : t) (request : OrderRequest.t) (out : list SinkEvent) :
    t * bool * list SinkEvent :=
  let rid := OrderRequest.id request in
  let qty := OrderRequest.quantity request in
  let rejected := out ++ [on_order (OrderUpdate.mk rid Rejected qty)] in
  let lv := price_index b (OrderRequest.price request) in
  if negb (valid_id rid) || (qty =? 0) ||
     negb (FixedOrderIndex.find (_index b) rid =? kInvalid) ||
     (is_limit (OrderRequest.type request) && bool_decide (lv = None))
  then (b, false, rejected)
  else
    let lv := if is_limit (OrderRequest.type request) then default kInvalid lv else kInvalid in
    let '(b, index) := allocate b in
    if index =? kInvalid then (b, false, rejected)
    else
      let '(ix, inserted) := FixedOrderIndex.insert (_index b) rid index in
      if negb inserted then (release_without_index b index, false, rejected)
      else
        let b := b <| _index := ix |> in
        let b := upd_node b index (fun n =>
          n <| id := rid |> <| side := OrderRequest.side request |>
            <| price := OrderRequest.price request |> <| remaining := qty |>
            <| state := New |> <| level := lv |>) in
        let '(b, out) := match_taker b index (OrderRequest.type request) out in
        if remaining (node b index) =? 0 then
          let b := upd_node b index (fun n => n <| state := Filled |>) in
          (release b index, true, out ++ [on_order (OrderUpdate.mk (id (node b index)) Filled 0)])
        else if negb (is_limit (OrderRequest.type request)) then
          let b := upd_node b index (fun n => n <| state := Canceled |>) in
          (release b index, true,
           out ++ [on_order (OrderUpdate.mk (id (node b index)) Canceled (remaining (node b index)))])
        else
          let st := if remaining (node b index) =? qty then New else PartiallyFilled in
          let b := upd_node b index (fun n => n <| state := st |>) in
          let b := append b index lv in
          (b, true, out ++ [on_order (OrderUpdate.mk (id (node b index)) st (remaining (node b index)))]).

Definition cancel (b : t) (oid : Z) (out : list SinkEvent) : t * bool * list SinkEvent :=
  let index := FixedOrderIndex.find (_index b) oid in
  if index =? kInvalid then (b, false, out)
  else
    let b := unlink b index in
    let b := upd_node b index (fun n => n <| state := Canceled |>) in
    (release b index, true,
     out ++ [on_order (OrderUpdate.mk oid Canceled (remaining (node b index)))]).

Definition modify (b : t) (oid new_price quantity : Z) (out : list SinkEvent) :
    t * bool * list SinkEvent :=
  let index := FixedOrderIndex.find (_index b) oid in
  if (index =? kInvalid) || (quantity =? 0) then (b, false, out)
  else match price_index b new_price with
  | None => (b, false, out)
  | Some lv =>
      let b := unlink b index in
      let b := upd_node b index (fun n =>
        n <| price := new_price |> <| remaining := quantity |> <| state := New |>
          <| level := lv |>) in
      let '(b, out) := match_taker b index Limit out in
      if remaining (node b index) =? 0 then
        let b := upd_node b index (fun n => n <| state := Filled |>) in
        (release b index, true, out ++ [on_order (OrderUpdate.mk (id (node b index)) Filled 0)])
      else
        let st := if remaining (node b index) =? quantity then New else PartiallyFilled in
        let b := upd_node b index (fun n => n <| state := st |>) in
        let b := append b index lv in
        (b, true, out ++ [on_order (OrderUpdate.mk (id (node b index)) st (remaining (node b index)))])
  end.

(** ** Queries *)

Definition active_orders (b : t) : Z := _active b.
Definition best_bid (b : t) : Z :=
  if _best_bid b =? kInvalid then 0 else level_price b (_best_bid b).
Definition best_ask (b : t) : Z :=
  if _best_ask b =? kInvalid then 0 else level_price b (_best_ask b).
Definition contains (b : t) (oid : Z) : bool :=
  negb (FixedOrderIndex.find (_index b) oid =? kInvalid).
Definition remaining_of (b : t) (oid : Z) : Z :=
  let index := FixedOrderIndex.find (_index b) oid in
  if index =? kInvalid then 0 else remaining (node b index).
Definition level_quantity (b : t) (s : Side) (p : Z) : Z :=
  match price_index b p with
  | None => 0
  | Some lv => total_quantity (levels b s).[lv]
  end.

(** [for (i = slot.head; i != kInvalid; i = _nodes[i].next)] *)
Fixpoint visit_loop (fuel : nat) (b : t) (i : Z) : list (Z * Z) :=
  match fuel with
  | O => []
  | S fuel' =>
      if i =? kInvalid then []
      else (id (node b i), remaining (node b i)) :: visit_loop fuel' b (next (node b i))
  end.

Definition visit_level (b : t) (s : Side) (p : Z) : list (Z * Z) :=
  match price_index b p with
  | None => []
  | Some lv => visit_loop (S (length (_nodes b))) b (head (levels b s).[lv])
  end.

End DensePriceOrderBook.
