(* ===== verification/Bitmap.v ===== *)
(** * The occupancy bitmap of the dense book

    [set_occupied]/[clear_occupied] keep one bit per price level in 64-bit
    words; [find_best] scans the words for the highest or lowest set bit.  The
    lemmas here read a bitmap as the predicate [occupied] on levels. *)

From S2P Require Import Prelude BookTypes DenseBook.
Import DensePriceOrderBook.

Definition occupied (bm : list Z) (lv : Z) : bool :=
  Z.testbit bm.[Z.shiftr lv 6] (Z.land lv 63).

Definition words_ok (bm : list Z) : Prop := forall w, 0 <= w < alen bm -> 0 <= bm.[w] < 2 ^ 64.

Lemma word_index lv : Z.shiftr lv 6 = lv / 64.
Proof. by rewrite Z.shiftr_div_pow2. Qed.

Lemma bit_index lv : Z.land lv 63 = lv mod 64.
Proof. change 63 with (2 ^ 6 - 1). by rewrite land_mask. Qed.

Lemma testbit_one j i : 0 <= j < 64 -> 0 <= i -> Z.testbit (u64 (Z.shiftl 1 j)) i = (i =? j).
Proof.
  intros Hj Hi. rewrite Z.shiftl_1_l, wrap_small.
  - rewrite Z.pow2_bits_eqb by lia. apply Z.eqb_sym.
  - split; [by apply Z.pow_nonneg|]. apply Z.pow_lt_mono_r; lia.
Qed.

Lemma testbit_not_one j i :
  0 <= j < 64 -> 0 <= i < 64 ->
  Z.testbit (u64 (Z.lnot (u64 (Z.shiftl 1 j)))) i = negb (i =? j).
Proof.
  intros Hj Hi. unfold wrap at 1. rewrite Z.mod_pow2_bits_low by lia.
  rewrite Z.lnot_spec by lia. by rewrite testbit_one by lia.
Qed.

Lemma set_bit_length bm lv : alen (set_bit bm lv) = alen bm.
Proof. apply alen_aset. Qed.

Lemma clear_bit_length bm lv : alen (clear_bit bm lv) = alen bm.
Proof. apply alen_aset. Qed.

Lemma same_level x y : 0 <= x -> 0 <= y -> x / 64 = y / 64 -> (x mod 64 =? y mod 64) = (x =? y).
Proof.
  intros. pose proof (Z.div_mod x 64). pose proof (Z.div_mod y 64).
  destruct (Z.eqb_spec (x mod 64) (y mod 64)), (Z.eqb_spec x y); lia.
Qed.

Section update.
Context (bm : list Z) (lv x : Z) (Hlv : 0 <= lv < 64 * alen bm) (Hx : 0 <= x < 64 * alen bm).

Lemma occupied_set_bit : occupied (set_bit bm lv) x = (x =? lv) || occupied bm x.
Proof.
  unfold occupied, set_bit. rewrite !word_index, !bit_index.
  pose proof (Z.mod_pos_bound x 64). pose proof (Z.mod_pos_bound lv 64).
  assert (0 <= lv / 64 < alen bm) by (split; [apply Z.div_pos; lia|apply Z.div_lt_upper_bound; lia]).
  assert (0 <= x / 64) by (apply Z.div_pos; lia).
  rewrite aget_aset by lia. case_decide as E.
  - rewrite Z.lor_spec, testbit_one by lia. rewrite E, orb_comm. f_equal.
    apply same_level; lia.
  - destruct (Z.eqb_spec x lv); [by subst|done].
Qed.

Lemma occupied_clear_bit : occupied (clear_bit bm lv) x = negb (x =? lv) && occupied bm x.
Proof.
  unfold occupied, clear_bit. rewrite !word_index, !bit_index.
  pose proof (Z.mod_pos_bound x 64). pose proof (Z.mod_pos_bound lv 64).
  assert (0 <= lv / 64 < alen bm) by (split; [apply Z.div_pos; lia|apply Z.div_lt_upper_bound; lia]).
  assert (0 <= x / 64) by (apply Z.div_pos; lia).
  rewrite aget_aset by lia. case_decide as E.
  - rewrite Z.land_spec, testbit_not_one by lia. rewrite E, andb_comm. f_equal. f_equal.
    apply same_level; lia.
  - destruct (Z.eqb_spec x lv); [by subst|done].
Qed.

End update.

Lemma set_bit_words bm lv : 0 <= lv -> words_ok bm -> words_ok (set_bit bm lv).
Proof.
  intros Hlv Hok w Hw. unfold set_bit in *. rewrite alen_aset in Hw.
  rewrite word_index, bit_index. assert (0 <= lv / 64) by (apply Z.div_pos; lia).
  destruct (decide (lv / 64 = w)) as [->|]; [|rewrite aget_aset_ne by lia; auto].
  rewrite aget_aset_eq by done. pose proof (Z.mod_pos_bound lv 64).
  pose proof (wrap_bounds 64 (Z.shiftl 1 (lv mod 64))).
  destruct (Hok w Hw) as [Hw1 Hw2]. split; [apply Z.lor_nonneg; lia|].
  assert (forall z, 0 <= z < 2 ^ 64 -> z = z mod 2 ^ 64) as Hmod
    by (intros; by rewrite Z.mod_small).
  rewrite (Hmod bm.[w]), (Hmod (u64 _)) by lia.
  rewrite <- !Z.land_ones, <- Z.land_lor_distr_l, Z.land_ones by lia.
  by apply Z.mod_pos_bound.
Qed.

Lemma clear_bit_words bm lv : 0 <= lv -> words_ok bm -> words_ok (clear_bit bm lv).
Proof.
  intros Hlv Hok w Hw. unfold clear_bit in *. rewrite alen_aset in Hw.
  rewrite word_index, bit_index. assert (0 <= lv / 64) by (apply Z.div_pos; lia).
  destruct (decide (lv / 64 = w)) as [->|]; [|rewrite aget_aset_ne by lia; auto].
  rewrite aget_aset_eq by done. destruct (Hok w Hw) as [Hw1 Hw2].
  split; [apply Z.land_nonneg; lia|].
  rewrite <- (Z.mod_small bm.[w] (2 ^ 64)) by lia.
  rewrite <- Z.land_ones, <- Z.land_assoc, (Z.land_comm (Z.ones 64)), Z.land_assoc, Z.land_ones by lia.
  by apply Z.mod_pos_bound.
Qed.

(** ** Bits of one word *)

Lemma highest_bit_loop_spec fuel bits index :
  0 < bits < 2 ^ Z.of_nat fuel -> highest_bit_loop fuel bits index = index + Z.log2 bits.
Proof.
  revert bits index. induction fuel as [|fuel IH]; intros bits index Hb; [simpl in Hb; lia|].
  cbn [highest_bit_loop]. cbn zeta.
  assert (Z.shiftr bits 1 = bits / 2) as Hs by by rewrite Z.shiftr_div_pow2.
  assert (2 ^ Z.of_nat (S fuel) = 2 * 2 ^ Z.of_nat fuel) as Hp.
  { rewrite Nat2Z.inj_succ, Z.pow_succ_r; lia. }
  destruct (Z.eqb_spec (Z.shiftr bits 1) 0) as [E|E].
  - assert (bits = 1) as -> by dlia. simpl. lia.
  - rewrite IH by dlia. rewrite Z.log2_shiftr by lia.
    assert (1 <= Z.log2 bits) by (apply Z.log2_le_pow2; dlia). lia.
Qed.

Lemma highest_bit_spec bits : 0 < bits < 2 ^ 64 -> highest_bit bits = Z.log2 bits.
Proof. intros. unfold highest_bit. by rewrite highest_bit_loop_spec. Qed.

Lemma lowest_bit_loop_spec fuel bits index :
  0 < bits < 2 ^ Z.of_nat fuel ->
  exists r, lowest_bit_loop fuel bits index = index + r /\ 0 <= r < Z.of_nat fuel /\
    Z.testbit bits r = true /\ forall i, 0 <= i < r -> Z.testbit bits i = false.
Proof.
  revert bits index. induction fuel as [|fuel IH]; intros bits index Hb; [simpl in Hb; lia|].
  cbn [lowest_bit_loop].
  assert (Z.land bits 1 = Z.b2z (Z.testbit bits 0)) as Hl.
  { change 1 with (2 ^ 1 - 1). rewrite land_mask, <- Z.bit0_mod by lia. done. }
  rewrite Hl. destruct (Z.testbit bits 0) eqn:E; simpl.
  - exists 0. split_and!; auto; lia.
  - assert (2 ^ Z.of_nat (S fuel) = 2 * 2 ^ Z.of_nat fuel) as Hp.
    { rewrite Nat2Z.inj_succ, Z.pow_succ_r; lia. }
    assert (Z.shiftr bits 1 = bits / 2) as Hs by by rewrite Z.shiftr_div_pow2.
    assert (bits <> 1) by (intros ->; done).
    destruct (IH (Z.shiftr bits 1) (index + 1)) as (r & -> & Hr & Ht & Hlow); [dlia|].
    exists (r + 1). rewrite Z.shiftr_spec in Ht by lia. split_and!; [lia..|done|].
    intros i Hi. destruct (decide (i = 0)) as [->|]; [done|].
    specialize (Hlow (i - 1) ltac:(lia)). rewrite Z.shiftr_spec in Hlow by lia.
    by replace (i - 1 + 1) with i in Hlow by lia.
Qed.

Lemma lowest_bit_spec bits :
  0 < bits < 2 ^ 64 ->
  0 <= lowest_bit bits < 64 /\ Z.testbit bits (lowest_bit bits) = true /\
  forall i, 0 <= i < lowest_bit bits -> Z.testbit bits i = false.
Proof.
  intros Hb. destruct (lowest_bit_loop_spec 64 bits 0 Hb) as (r & Hr & ? & ? & ?).
  unfold lowest_bit. by rewrite Hr, Z.add_0_l.
Qed.

(** ** find_best *)

Lemma occupied_word bm w i : 0 <= i < 64 -> occupied bm (w * 64 + i) = Z.testbit bm.[w] i.
Proof.
  intros. unfold occupied. rewrite word_index, bit_index.
  rewrite Z.div_add_l, Z.div_small, Z.add_0_r by lia.
  by rewrite Z.add_comm, Z.mod_add, Z.mod_small by lia.
Qed.

Lemma empty_word bm w lv : bm.[w] = 0 -> lv / 64 = w -> occupied bm lv = false.
Proof. intros Hw <-. unfold occupied. by rewrite word_index, Hw, Z.bits_0. Qed.

(** What a scan for the highest occupied level below [n] words returns. *)
Lemma find_highest_spec n bm :
  words_ok bm -> Z.of_nat n <= alen bm ->
  (find_highest n bm = kInvalid /\ forall x, 0 <= x < 64 * Z.of_nat n -> occupied bm x = false) \/
  (0 <= find_highest n bm < 64 * Z.of_nat n /\ occupied bm (find_highest n bm) = true /\
   forall x, find_highest n bm < x < 64 * Z.of_nat n -> occupied bm x = false).
Proof.
  intros Hok. induction n as [|n IH]; intros Hn; [left; split; [done|lia]|].
  cbn [find_highest]. set (w := Z.of_nat n) in *. cbn zeta.
  assert (forall x, 64 * w <= x < 64 * Z.of_nat (S n) -> x / 64 = w) as Hdiv by (intros; dlia).
  destruct (Z.eqb_spec bm.[w] 0) as [E|E]; cbn [negb].
  - destruct IH as [[-> Hnone]|(Hr & Ho & Hnone)]; [lia|left|right].
    + split; [done|]. intros x Hx. destruct (Z.lt_ge_cases x (64 * w)); [apply Hnone; lia|].
      apply (empty_word _ w); [done|]. apply Hdiv. lia.
    + split_and!; [lia|lia|done|]. intros x Hx.
      destruct (Z.lt_ge_cases x (64 * w)); [apply Hnone; lia|].
      apply (empty_word _ w); [done|]. apply Hdiv. lia.
  - right. assert (0 <= bm.[w] < 2 ^ 64) by (apply Hok; lia).
    rewrite highest_bit_spec by lia.
    assert (0 <= Z.log2 bm.[w] < 64) by (split; [apply Z.log2_nonneg|apply Z.log2_lt_pow2; lia]).
    split_and!; [lia|lia| |].
    + rewrite occupied_word by lia. apply Z.bit_log2. lia.
    + intros x Hx. replace x with (w * 64 + (x - w * 64)) by lia.
      rewrite occupied_word by lia. apply Z.bits_above_log2; lia.
Qed.

Lemma find_lowest_spec n w bm :
  words_ok bm -> 0 <= w -> w + Z.of_nat n <= alen bm ->
  (find_lowest n w bm = kInvalid /\
   forall x, 64 * w <= x < 64 * (w + Z.of_nat n) -> occupied bm x = false) \/
  (64 * w <= find_lowest n w bm < 64 * (w + Z.of_nat n) /\
   occupied bm (find_lowest n w bm) = true /\
   forall x, 64 * w <= x < find_lowest n w bm -> occupied bm x = false).
Proof.
  intros Hok. revert w. induction n as [|n IH]; intros w Hw Hn; [left; split; [done|lia]|].
  cbn [find_lowest]. cbn zeta.
  destruct (Z.eqb_spec bm.[w] 0) as [E|E]; cbn [negb].
  - destruct (IH (w + 1)) as [[-> Hnone]|(Hr & Ho & Hnone)]; [lia|lia|left|right].
    + split; [done|]. intros x Hx. destruct (Z.lt_ge_cases x (64 * (w + 1))); [|apply Hnone; lia].
      apply (empty_word _ w); [done|dlia].
    + split_and!; [lia|lia|done|]. intros x Hx.
      destruct (Z.lt_ge_cases x (64 * (w + 1))); [|apply Hnone; lia].
      apply (empty_word _ w); [done|dlia].
  - right. assert (0 <= bm.[w] < 2 ^ 64) by (apply Hok; lia).
    destruct (lowest_bit_spec bm.[w]) as (Hr & Ht & Hlow); [lia|].
    split_and!; [lia|lia| |].
    + by rewrite occupied_word by lia.
    + intros x Hx. replace x with (w * 64 + (x - w * 64)) by lia.
      rewrite occupied_word by lia. apply Hlow; lia.
Qed.
