(* ===== verification/LinkedQueue.v ===== *)
(** * Doubly-linked queues threaded through an array of nodes

    The FIFO of a price level, in both order books: nodes live in a pool, and
    [prev]/[next] hold pool indices or a null value.  [linked] describes the
    links of a list of indices; the lemmas say what appending, unlinking and
    unlinking the head do to it, in terms of the reads of the new pool only. *)

From S2P Require Import Prelude.

Definition first_or (d : Z) (q : list Z) : Z :=
  match q with [] => d | x :: _ => x end.

Fixpoint last_or (d : Z) (q : list Z) : Z :=
  match q with [] => d | x :: q' => last_or x q' end.

Lemma first_or_app d q1 q2 : first_or d (q1 ++ q2) = first_or (first_or d q2) q1.
Proof. by destruct q1. Qed.

Lemma last_or_app d q1 q2 : last_or d (q1 ++ q2) = last_or (last_or d q1) q2.
Proof. revert d. induction q1; intros; simpl; auto. Qed.

Lemma first_or_elem d q : q <> [] -> first_or d q ∈ q.
Proof. destruct q; [done|]. intros _. simpl. set_solver. Qed.

Lemma last_or_elem d q : q <> [] -> last_or d q ∈ q.
Proof.
  destruct q as [|x q]; [done|]. intros _. simpl. revert x.
  induction q as [|y q IH]; intros x; simpl; [set_solver|].
  specialize (IH y). set_solver.
Qed.

Lemma last_or_cases d q : last_or d q = d \/ last_or d q ∈ q.
Proof. destruct q; [by left|right]. by apply last_or_elem. Qed.

Lemma first_or_cases d q : first_or d q = d \/ first_or d q ∈ q.
Proof. destruct q; [by left|right]. by apply first_or_elem. Qed.

Lemma last_or_irrel d d' q : q <> [] -> last_or d q = last_or d' q.
Proof. by destruct q. Qed.

Lemma first_or_irrel d d' q : q <> [] -> first_or d q = first_or d' q.
Proof. by destruct q. Qed.

Lemma last_or_snoc d q x : last_or d (q ++ [x]) = x.
Proof. by rewrite last_or_app. Qed.

Section linked.
Context {N : Type} `{Inhabited N}.
Context (prev next : N -> Z) (null : Z).
Implicit Types (nodes : list N) (q : list Z).

(** [p] precedes the segment [q] and [nx] follows it. *)
Fixpoint linked nodes (p : Z) q (nx : Z) : Prop :=
  match q with
  | [] => True
  | x :: q' =>
      prev nodes.[x] = p /\ next nodes.[x] = first_or nx q' /\ linked nodes x q' nx
  end.

Lemma linked_app nodes p q1 q2 nx :
  linked nodes p (q1 ++ q2) nx <->
  linked nodes p q1 (first_or nx q2) /\ linked nodes (last_or p q1) q2 nx.
Proof.
  revert p. induction q1 as [|x q1 IH]; intros p; simpl; [tauto|].
  rewrite IH, first_or_app. destruct q1; simpl; tauto.
Qed.

(** Only the links of the listed nodes matter. *)
Lemma linked_ext nodes nodes' p q nx :
  (forall x, x ∈ q -> prev nodes'.[x] = prev nodes.[x] /\ next nodes'.[x] = next nodes.[x]) ->
  linked nodes p q nx -> linked nodes' p q nx.
Proof.
  revert p. induction q as [|x q IH]; intros p Hext; simpl; [done|].
  intros (Hp & Hn & Hq). destruct (Hext x) as [-> ->]; [set_solver|].
  split_and!; auto. apply IH; [|done]. intros y Hy. apply Hext. set_solver.
Qed.

(** Redirecting the last [next] pointer. *)
Lemma linked_redirect_next nodes nodes' p q x y :
  NoDup q ->
  (forall i, i ∈ q -> prev nodes'.[i] = prev nodes.[i]) ->
  (forall i, i ∈ q -> next nodes'.[i] = if decide (i = last_or null q) then y else next nodes.[i]) ->
  linked nodes p q x -> linked nodes' p q y.
Proof.
  revert p. induction q as [|i q IH]; intros p Hnd Hp Hn; simpl; [done|].
  intros (Hpi & Hni & Hq). apply NoDup_cons in Hnd as [Hiq Hnd].
  rewrite Hp by set_solver. split; [done|].
  destruct q as [|j q]; simpl in *.
  - rewrite Hn by set_solver. by rewrite decide_True.
  - rewrite Hn by set_solver.
    assert (i <> last_or j q) as Hne.
    { intros ->. apply Hiq. change (last_or j q) with (last_or null (j :: q)).
      by apply last_or_elem. }
    rewrite decide_False by done. split; [done|].
    apply IH; [done|intros; apply Hp; set_solver|intros; apply Hn; set_solver|done].
Qed.

(** Redirecting the first [prev] pointer. *)
Lemma linked_redirect_prev nodes nodes' p p' q nx :
  NoDup q ->
  (forall i, i ∈ q -> next nodes'.[i] = next nodes.[i]) ->
  (forall i, i ∈ q -> prev nodes'.[i] = if decide (i = first_or null q) then p' else prev nodes.[i]) ->
  linked nodes p q nx -> linked nodes' p' q nx.
Proof.
  destruct q as [|i q]; intros Hnd Hn Hp; simpl; [done|].
  intros (Hpi & Hni & Hq). apply NoDup_cons in Hnd as [Hiq Hnd].
  rewrite Hp, Hn by set_solver. simpl. rewrite decide_True by done. split_and!; auto.
  apply (linked_ext nodes); [|done]. intros j Hj.
  rewrite Hp, Hn by set_solver. simpl. rewrite decide_False; [done|]. by intros ->.
Qed.

(** Appending [x], whose next pointer is null, behind [q]. *)
Lemma linked_append nodes nodes' q x :
  NoDup q -> x ∉ q ->
  (forall i, i ∈ q -> prev nodes'.[i] = prev nodes.[i]) ->
  (forall i, i ∈ q -> next nodes'.[i] = if decide (i = last_or null q) then x else next nodes.[i]) ->
  prev nodes'.[x] = last_or null q -> next nodes'.[x] = null ->
  linked nodes null q null -> linked nodes' null (q ++ [x]) null.
Proof.
  intros Hnd Hx Hp Hn Hpx Hnx Hq. apply linked_app. simpl. split_and!; auto.
  by apply (linked_redirect_next nodes _ _ _ null).
Qed.

(** Unlinking [x] from between [q1] and [q2]. *)
Lemma linked_unlink nodes nodes' q1 x q2 :
  NoDup (q1 ++ x :: q2) ->
  (forall i, i ∈ q1 -> prev nodes'.[i] = prev nodes.[i]) ->
  (forall i, i ∈ q2 -> next nodes'.[i] = next nodes.[i]) ->
  (forall i, i ∈ q1 -> next nodes'.[i] =
     if decide (i = last_or null q1) then first_or null q2 else next nodes.[i]) ->
  (forall i, i ∈ q2 -> prev nodes'.[i] =
     if decide (i = first_or null q2) then last_or null q1 else prev nodes.[i]) ->
  linked nodes null (q1 ++ x :: q2) null -> linked nodes' null (q1 ++ q2) null.
Proof.
  intros (Hnd1 & Hdis & Hnd2)%NoDup_app Hp1 Hn2 Hn1 Hp2 Hq.
  apply NoDup_cons in Hnd2 as [_ Hnd2].
  apply linked_app in Hq as [Hq1 Hq2]. simpl in Hq2. destruct Hq2 as (_ & _ & Hq2).
  apply linked_app. split.
  - by apply (linked_redirect_next nodes _ _ _ x).
  - by apply (linked_redirect_prev nodes _ x).
Qed.

(** What the links of [x] say about its place in a queue. *)
Lemma linked_links nodes q1 x q2 :
  linked nodes null (q1 ++ x :: q2) null ->
  prev nodes.[x] = last_or null q1 /\ next nodes.[x] = first_or null q2.
Proof. intros [_ Hq]%linked_app. simpl in Hq. tauto. Qed.

(** Walking the queue from its head visits exactly its nodes. *)
Fixpoint walk (fuel : nat) nodes (i : Z) : list Z :=
  match fuel with
  | O => []
  | S fuel' => if i =? null then [] else i :: walk fuel' nodes (next nodes.[i])
  end.

Lemma walk_linked fuel nodes p q :
  (length q < fuel)%nat -> (forall x, x ∈ q -> x <> null) ->
  linked nodes p q null -> walk fuel nodes (first_or null q) = q.
Proof.
  revert p fuel. induction q as [|x q IH]; intros p fuel Hf Hne Hq;
    (destruct fuel as [|fuel]; [simpl in Hf; lia|]); simpl.
  - by rewrite Z.eqb_refl.
  - destruct Hq as (_ & Hn & Hq). destruct (Z.eqb_spec x null) as [|_].
    { by destruct (Hne x); [set_solver|]. }
    rewrite Hn. f_equal. apply (IH x); [simpl in Hf; lia| |done].
    intros y Hy. apply Hne. set_solver.
Qed.

End linked.

(** ** Free lists *)

Section free_list.
Context {N : Type} `{Inhabited N} (free_next : N -> Z) (null : Z).

(** The free list [fl] starts at [first] and ends at the null value. *)
Fixpoint free_chain (nodes : list N) (first : Z) (fl : list Z) : Prop :=
  match fl with
  | [] => first = null
  | i :: fl' => first = i /\ free_chain nodes (free_next nodes.[i]) fl'
  end.

Lemma free_chain_ext nodes nodes' first fl :
  (forall i, i ∈ fl -> free_next nodes'.[i] = free_next nodes.[i]) ->
  free_chain nodes first fl -> free_chain nodes' first fl.
Proof.
  revert first. induction fl as [|i fl IH]; intros first He; [done|].
  intros [-> Hc]. split; [done|]. rewrite He by (by left). apply IH; [|done].
  intros j Hj. apply He. by right.
Qed.
End free_list.

(** ** Taking an element out of a queue *)

Definition without (i : Z) (q : list Z) : list Z := filter (fun j => j <> i) q.

Lemma without_id i q : i ∉ q -> without i q = q.
Proof.
  unfold without. induction q as [|j q IH]; intros Hi; [done|].
  rewrite filter_cons_True by set_solver. rewrite IH; [done|]. set_solver.
Qed.

Lemma without_app i q1 q2 : without i (q1 ++ q2) = without i q1 ++ without i q2.
Proof. apply filter_app. Qed.

Lemma without_mid i q1 q2 : NoDup (q1 ++ i :: q2) -> without i (q1 ++ i :: q2) = q1 ++ q2.
Proof.
  intros (_ & Hdis & Hnd)%NoDup_app. apply NoDup_cons in Hnd as [Hi _].
  rewrite without_app. unfold without at 2. rewrite filter_cons_False by tauto.
  fold (without i q2). rewrite !without_id; [done|done|].
  intros Hq. apply (Hdis i Hq). by left.
Qed.

Lemma without_perm i l : NoDup l -> i ∈ l -> l ≡ₚ without i l ++ [i].
Proof.
  intros Hnd (l1 & l2 & ->)%list_elem_of_split. rewrite without_mid by done.
  rewrite <- app_assoc. apply Permutation_app_head. apply Permutation_cons_append.
Qed.

Lemma elem_without i j l : j ∈ without i l <-> j <> i /\ j ∈ l.
Proof. unfold without. by rewrite list_elem_of_filter. Qed.
