(* ===== verification/BookFacts.v ===== *)
(** * Facts about the abstract book

    The order with price-time priority, matching as a sequence of rounds that
    does not depend on the fuel, and the book a list of node indices stands
    for. *)

From S2P Require Import Prelude BookTypes LinkedQueue.
Import BookSpec.

(** ** Price-time priority *)

Lemma better_irrefl s p : better s p p = false.
Proof. destruct s; simpl; lia. Qed.

Lemma better_asym s p q : better s p q = true -> better s q p = false.
Proof. destruct s; simpl; rewrite Z.ltb_lt, Z.ltb_ge; lia. Qed.

Lemma best_order_elem l s o : best_order l s = Some o -> o ∈ l /\ rest_side o = s.
Proof.
  induction l as [|x l IH]; simpl; [done|]. unfold best_order in *. simpl. unfold best_step at 1.
  case_decide as Hs; [|intros Ho; destruct (IH Ho); split; [by right|done]].
  destruct (foldr (best_step s) None l) as [o'|]; [|intros [= <-]; split; [by left|done]].
  case_match; intros [= <-]; [|split; [by left|done]].
  destruct (IH eq_refl). split; [by right|done].
Qed.

Lemma best_order_none l s : (forall o, o ∈ l -> rest_side o <> s) -> best_order l s = None.
Proof.
  intros Hn. destruct (best_order l s) as [o|] eqn:E; [|done].
  apply best_order_elem in E as [Ho Hs]. by apply Hn in Ho.
Qed.

(** [o] comes before nothing as good and after nothing better. *)
Lemma best_order_intro l1 o l2 s :
  rest_side o = s ->
  (forall o', o' ∈ l1 -> rest_side o' = s -> better s (rest_price o) (rest_price o') = true) ->
  (forall o', o' ∈ l2 -> rest_side o' = s -> better s (rest_price o') (rest_price o) = false) ->
  best_order (l1 ++ o :: l2) s = Some o.
Proof.
  intros Hs Hfirst Hlast. unfold best_order. rewrite foldr_app.
  assert (foldr (best_step s) None (o :: l2) = Some o) as ->.
  { simpl. unfold best_step at 1. rewrite decide_True by done.
    destruct (foldr (best_step s) None l2) as [o'|] eqn:E; [|done].
    apply best_order_elem in E as [Ho' Hs']. by rewrite Hlast. }
  induction l1 as [|x l1 IH]; [done|]. simpl.
  rewrite IH by (intros; apply Hfirst; [by right|done]). unfold best_step.
  case_decide; [|done]. by rewrite Hfirst by (done || by left).
Qed.

(** ** Matching *)

Section rounds.
Context (taker_id : Z) (side : Side) (ty : OrderType) (limit : Z).

(** The resting order the next round trades with. *)
Definition counterparty (l : list Resting) (remaining : Z) : option Resting :=
  if remaining =? 0 then None
  else match best_order l (opposite side) with
  | Some maker => if crosses side ty limit (rest_price maker) then Some maker else None
  | None => None
  end.

Definition round_quantity (maker : Resting) (remaining : Z) : Z :=
  Z.min remaining (rest_remaining maker).

Definition round_events (maker : Resting) (remaining : Z) : list SinkEvent :=
  let q := round_quantity maker remaining in
  let left := rest_remaining maker - q in
  [on_trade (Trade.mk (rest_id maker) taker_id (rest_price maker) q);
   on_order (OrderUpdate.mk (rest_id maker) (if left =? 0 then Filled else PartiallyFilled) left)].

Definition prepend (out : list SinkEvent) (r : list Resting * Z * list SinkEvent) :
    list Resting * Z * list SinkEvent :=
  let '(l, remaining, out') := r in (l, remaining, out ++ out').

Lemma prepend_nil r : prepend [] r = r.
Proof. by destruct r as [[]]. Qed.

Lemma prepend_app o1 o2 r : prepend o1 (prepend o2 r) = prepend (o1 ++ o2) r.
Proof. destruct r as [[]]. simpl. by rewrite app_assoc. Qed.

Abbreviation rounds n l remaining := (match_rounds n l taker_id side ty limit remaining).

Lemma rounds_S n l remaining :
  rounds (S n) l remaining =
    match counterparty l remaining with
    | None => (l, remaining, [])
    | Some maker =>
        let q := round_quantity maker remaining in
        prepend (round_events maker remaining)
          (rounds n (reduce l (rest_id maker) q) (remaining - q))
    end.
Proof.
  simpl. unfold counterparty. destruct (remaining =? 0); [done|].
  destruct (best_order l (opposite side)) as [maker|]; [|done].
  destruct (crosses side ty limit (rest_price maker)); [|done]. simpl.
  unfold round_quantity. by destruct (match_rounds n _ _ _ _ _ _) as [[? ?] ?].
Qed.

Lemma rounds_idle n l remaining :
  counterparty l remaining = None -> rounds n l remaining = (l, remaining, []).
Proof. intros Hc. destruct n; [done|]. by rewrite rounds_S, Hc. Qed.

Lemma counterparty_elem l remaining maker :
  counterparty l remaining = Some maker -> maker ∈ l /\ remaining <> 0.
Proof.
  unfold counterparty. destruct (Z.eqb_spec remaining 0); [done|].
  destruct (best_order l (opposite side)) as [o|] eqn:E; [|done].
  destruct (crosses _ _ _ _); intros [= <-]. by apply best_order_elem in E as [? _].
Qed.

Lemma reduce_length l k q : (length (reduce l k q) <= length l)%nat.
Proof. unfold reduce. induction l as [|o l IH]; [done|]. rewrite omap_cons_match. case_match; simpl; lia. Qed.

Lemma reduce_shorter l maker :
  maker ∈ l -> (length (reduce l (rest_id maker) (rest_remaining maker)) < length l)%nat.
Proof.
  induction 1 as [maker l|maker o l Hm IH]; unfold reduce in *; rewrite omap_cons_match.
  - unfold reduce_order at 1. rewrite !decide_True by done. simpl.
    pose proof (reduce_length l (rest_id maker) (rest_remaining maker)) as Hl. unfold reduce in Hl. lia.
  - case_match; simpl; lia.
Qed.

(** Enough rounds are as good as any number of them. *)
Lemma rounds_enough n l remaining :
  (length l < n)%nat -> rounds n l remaining = match_order l taker_id side ty limit remaining.
Proof.
  unfold match_order.
  assert (forall k m l remaining, (length l < k)%nat -> (length l < m)%nat ->
    rounds k l remaining = rounds m l remaining) as Haux; [|intros; apply Haux; lia].
  induction k as [|k IH]; intros m l' r Hk Hm; [lia|]. destruct m as [|m]; [lia|].
  rewrite !rounds_S. destruct (counterparty l' r) as [maker|] eqn:Hc; [|done]. cbn zeta. f_equal.
  apply counterparty_elem in Hc as [Hin Hr]. unfold round_quantity.
  destruct (Z.min_spec r (rest_remaining maker)) as [[_ ->]|[_ ->]].
  - rewrite Z.sub_diag. by rewrite !rounds_idle.
  - pose proof (reduce_shorter _ _ Hin). apply IH; lia.
Qed.

(** One round at a time. *)
Lemma match_order_step l remaining :
  match_order l taker_id side ty limit remaining =
    match counterparty l remaining with
    | None => (l, remaining, [])
    | Some maker =>
        let q := round_quantity maker remaining in
        prepend (round_events maker remaining)
          (match_order (reduce l (rest_id maker) q) taker_id side ty limit (remaining - q))
    end.
Proof.
  unfold match_order at 1. rewrite rounds_S.
  destruct (counterparty l remaining) as [maker|] eqn:Hc; [|done]. cbn zeta. f_equal.
  apply counterparty_elem in Hc as [Hin Hr]. unfold round_quantity.
  destruct (Z.min_spec remaining (rest_remaining maker)) as [[_ ->]|[_ ->]].
  - rewrite Z.sub_diag. unfold match_order. by rewrite !rounds_idle.
  - apply rounds_enough. pose proof (reduce_shorter _ _ Hin). lia.
Qed.
End rounds.

(** ** Matching takes what crosses and nothing else *)

Lemma best_order_best l s o :
  best_order l s = Some o ->
  forall o', o' ∈ l -> rest_side o' = s -> better s (rest_price o') (rest_price o) = false.
Proof.
  revert o. induction l as [|x l IH]; intros o Ho o' Hin Hs; [by apply elem_of_nil in Hin|].
  assert (forall p q r, better s p q = false -> better s r q = true -> better s p r = false) as Htrans.
  { intros p q r. unfold better. destruct s; rewrite !Z.ltb_ge, Z.ltb_lt; lia. }
  assert (forall p q r, better s p q = false -> better s q r = false -> better s p r = false) as Htrans'.
  { intros p q r. unfold better. destruct s; rewrite !Z.ltb_ge; lia. }
  unfold best_order in *. simpl in Ho. unfold best_step at 1 in Ho.
  case_decide as Hx.
  - destruct (foldr (best_step s) None l) as [y|] eqn:E.
    + destruct (better s (rest_price y) (rest_price x)) eqn:Hb; simplify_eq.
      * apply elem_of_cons in Hin as [->|Hin]; [|by apply (IH o)].
        by apply better_asym.
      * apply elem_of_cons in Hin as [->|Hin]; [apply better_irrefl|].
        apply (Htrans' _ (rest_price y)); [by apply (IH y)|done].
    + simplify_eq. apply elem_of_cons in Hin as [->|Hin]; [apply better_irrefl|].
      exfalso. clear IH. revert E. induction l as [|z l IHl]; [by apply elem_of_nil in Hin|].
      simpl. unfold best_step at 1. case_decide as Hz; [by repeat case_match|].
      apply elem_of_cons in Hin as [->|Hin]; [done|]. by apply IHl.
  - apply elem_of_cons in Hin as [->|Hin]; [done|]. by apply (IH o).
Qed.

Lemma best_order_some l s o : o ∈ l -> rest_side o = s -> best_order l s <> None.
Proof.
  intros Hin Hs. unfold best_order. induction l as [|x l IH]; [by apply elem_of_nil in Hin|]. simpl.
  unfold best_step at 1. case_decide as Hx; [by repeat case_match|].
  apply elem_of_cons in Hin as [->|Hin]; [done|by apply IH].
Qed.

Section outcome.
Context (taker_id : Z) (side : Side) (ty : OrderType) (limit : Z).

(** What is left unfilled crosses no resting order. *)
Lemma match_order_left l remaining l' r ev :
  match_order l taker_id side ty limit remaining = (l', r, ev) ->
  counterparty side ty limit l' r = None.
Proof.
  unfold match_order. remember (S (length l)) as n eqn:Hn.
  assert (length l < n)%nat as Hlt by lia. clear Hn. revert l remaining l' r ev Hlt.
  induction n as [|n IH]; intros l remaining l' r ev Hlt Hm; [lia|].
  rewrite rounds_S in Hm. destruct (counterparty side ty limit l remaining) as [maker|] eqn:Hc;
    [|by simplify_eq]. cbn zeta in Hm.
  destruct (match_rounds n _ _ _ _ _ _) as [[l1 r1] ev1] eqn:E. simpl in Hm. simplify_eq.
  apply counterparty_elem in Hc as [Hin Hr]. unfold round_quantity in E.
  destruct (Z.min_spec remaining (rest_remaining maker)) as [[_ Hq]|[_ Hq]]; rewrite Hq in E.
  - rewrite Z.sub_diag, rounds_idle in E by done. by simplify_eq.
  - pose proof (reduce_shorter _ _ Hin). eapply IH; [|exact E]. lia.
Qed.

(** Nothing crosses what is left. *)
Lemma left_not_crossing l r :
  counterparty side ty limit l r = None -> r <> 0 ->
  forall o, o ∈ l -> rest_side o = opposite side -> crosses side ty limit (rest_price o) = false.
Proof.
  unfold counterparty. intros Hc Hr o Hin Hs. destruct (Z.eqb_spec r 0); [done|].
  destruct (best_order l (opposite side)) as [m|] eqn:E; [|by destruct (best_order_some _ _ _ Hin Hs)].
  destruct (crosses side ty limit (rest_price m)) eqn:Hm; [done|].
  pose proof (best_order_best _ _ _ E o Hin Hs) as Hb.
  unfold crosses, better in *. destruct ty; [|done].
    destruct side; cbn [opposite] in *; lia.
Qed.

(** Matching only shrinks resting orders. *)
Lemma match_order_shrinks l remaining l' r ev :
  match_order l taker_id side ty limit remaining = (l', r, ev) ->
  forall o, o ∈ l' -> exists o', o' ∈ l /\ rest_id o = rest_id o' /\
    rest_side o = rest_side o' /\ rest_price o = rest_price o'.
Proof.
  unfold match_order. generalize (S (length l)) as n. intros n.
  revert l remaining l' r ev. induction n as [|n IH]; intros l remaining l' r ev Hm o Ho.
  { simpl in Hm. simplify_eq. by exists o. }
  rewrite rounds_S in Hm. destruct (counterparty side ty limit l remaining) as [maker|];
    [|simplify_eq; by exists o]. cbn zeta in Hm.
  destruct (match_rounds n _ _ _ _ _ _) as [[l1 r1] ev1] eqn:E. simpl in Hm. simplify_eq.
  destruct (IH _ _ _ _ _ E o Ho) as (o1 & Ho1 & -> & -> & ->).
  unfold reduce in Ho1. apply list_elem_of_omap in Ho1 as (o2 & Ho2 & Hr). exists o2.
  unfold reduce_order in Hr. repeat case_decide; simplify_eq; by split_and!.
Qed.

(** Shares traded, from the sink's calls. *)
Definition traded (ev : list SinkEvent) : Z :=
  foldr (fun e acc => match e with on_trade tr => Trade.quantity tr + acc | _ => acc end) 0 ev.

Lemma match_order_conserves l remaining l' r ev :
  match_order l taker_id side ty limit remaining = (l', r, ev) -> traded ev + r = remaining.
Proof.
  unfold match_order. generalize (S (length l)) as n. intros n.
  revert l remaining l' r ev. induction n as [|n IH]; intros l remaining l' r ev Hm.
  { simpl in Hm. simplify_eq. done. }
  rewrite rounds_S in Hm. destruct (counterparty side ty limit l remaining) as [maker|];
    [|by simplify_eq]. cbn zeta in Hm.
  destruct (match_rounds n _ _ _ _ _ _) as [[l1 r1] ev1] eqn:E. simpl in Hm. simplify_eq.
  apply IH in E. simpl. lia.
Qed.
End outcome.

(** ** The book is never crossed *)

Definition uncrossed (l : list Resting) : Prop :=
  forall o o', o ∈ l -> o' ∈ l -> rest_side o = Buy -> rest_side o' = Sell ->
    rest_price o < rest_price o'.

Lemma uncrossed_shrinks l l' :
  (forall o, o ∈ l' -> exists o', o' ∈ l /\ rest_side o = rest_side o' /\ rest_price o = rest_price o') ->
  uncrossed l -> uncrossed l'.
Proof.
  intros Hs Hu o o' Ho Ho' Hb Hsl. destruct (Hs o Ho) as (p & Hp & E & ->).
  destruct (Hs o' Ho') as (p' & Hp' & E' & ->). apply Hu; congruence.
Qed.

Lemma uncrossed_remove l k : uncrossed l -> uncrossed (remove l k).
Proof.
  apply uncrossed_shrinks. intros o [_ Ho]%list_elem_of_filter. by exists o.
Qed.

Lemma settle_uncrossed l k side ty price q :
  uncrossed l -> uncrossed (settle l k side ty price q).1.
Proof.
  intros Hu. unfold settle. destruct (match_order l k side ty price q) as [[l' r] ev] eqn:E.
  assert (uncrossed l') as Hu'.
  { eapply uncrossed_shrinks; [|exact Hu]. intros o Ho.
    destruct (match_order_shrinks _ _ _ _ _ _ _ _ _ E o Ho) as (o' & ? & _ & ? & ?). by exists o'. }
  destruct (Z.eqb_spec r 0); [done|]. destruct ty; [|done]. cbn [fst].
  pose proof (left_not_crossing _ _ _ _ _ (match_order_left _ _ _ _ _ _ _ _ _ E) n) as Hn.
  intros o o' [Ho|Ho%list_elem_of_singleton]%elem_of_app [Ho'|Ho'%list_elem_of_singleton]%elem_of_app
    Hb Hs; subst; simpl in *.
  - by apply Hu'.
  - subst side. specialize (Hn o Ho Hb). simpl in Hn. lia.
  - subst side. specialize (Hn o' Ho' Hs). simpl in Hn. lia.
  - congruence.
Qed.

(** ** Lookup after each change *)

Definition unique_ids (l : list Resting) : Prop := NoDup (map rest_id l).

Lemma lookup_id l k o : lookup l k = Some o -> rest_id o = k /\ o ∈ l.
Proof.
  unfold lookup. intros ([i o'] & (Hl & Hid & _)%list_find_Some & [= ->])%fmap_Some.
  split; [done|]. by eapply list_elem_of_lookup_2.
Qed.

Lemma lookup_none l k : lookup l k = None <-> forall o, o ∈ l -> rest_id o <> k.
Proof. unfold lookup. by rewrite fmap_None, list_find_None, Forall_forall. Qed.

Lemma lookup_cons o l k :
  lookup (o :: l) k = if decide (rest_id o = k) then Some o else lookup l k.
Proof.
  unfold lookup. simpl. case_decide; [done|]. rewrite <- option_fmap_compose.
  by destruct (list_find _ l) as [[]|].
Qed.

Lemma lookup_add l k s p q k' :
  lookup l k = None ->
  lookup (add l k s p q) k' = if decide (k' = k) then Some (mkResting k s p q) else lookup l k'.
Proof.
  unfold add. induction l as [|o l IH]; intros Hn; cbn [app].
  - rewrite lookup_cons. cbn [rest_id]. by repeat case_decide; subst.
  - rewrite !lookup_cons. rewrite lookup_cons in Hn. case_decide; [done|].
    rewrite IH by done. by repeat case_decide; subst.
Qed.

Lemma lookup_remove l k k' : lookup (remove l k) k' = if decide (k' = k) then None else lookup l k'.
Proof.
  unfold remove. induction l as [|o l IH]; [by case_decide|]. rewrite filter_cons, lookup_cons.
  destruct (decide (rest_id o <> k)) as [Hk|Hk]; [rewrite lookup_cons|]; rewrite IH;
    repeat case_decide; naive_solver.
Qed.

Lemma lookup_reduce l k q k' :
  unique_ids l ->
  lookup (reduce l k q) k' = if decide (k' = k) then lookup l k ≫= reduce_order k q else lookup l k'.
Proof.
  unfold unique_ids, reduce. induction l as [|o l IH]; [by case_decide|].
  cbn [map]. rewrite omap_cons_match. intros [Ho Hu]%NoDup_cons.
  specialize (IH Hu). rewrite lookup_cons. destruct (decide (rest_id o = k)) as [Hk|Hk].
  - assert (lookup l k = None) as Hn.
    { apply lookup_none. intros o' Ho' Hid. apply Ho. rewrite Hk, <- Hid. by apply list_elem_of_fmap_2. }
    assert (reduce_order k q o = if decide (rest_remaining o = q) then None
      else Some (o <| rest_remaining ::= fun r => r - q |>)) as Hro
      by (unfold reduce_order; by rewrite decide_True).
    rewrite Hn in IH. cbn [mbind option_bind] in *. rewrite lookup_cons, Hro.
    destruct (decide (rest_remaining o = q)).
    + rewrite IH. repeat case_decide; subst; done.
    + rewrite lookup_cons, IH. updates. cbn [rest_id]. repeat case_decide; subst; done.
  - assert (reduce_order k q o = Some o) as -> by (unfold reduce_order; by rewrite decide_False).
    rewrite !lookup_cons, IH. repeat case_decide; subst; done.
Qed.

(** ** The book a list of node indices stands for *)

Section image.
Context (f : Z -> Resting) (l : list Z).
Hypothesis Hinj : forall i j, i ∈ l -> j ∈ l -> rest_id (f i) = rest_id (f j) -> i = j.

Lemma remove_map i : i ∈ l -> remove (map f l) (rest_id (f i)) = map f (without i l).
Proof using Hinj.
  intros Hi. unfold remove, without.
  assert (forall l', l' ⊆ l -> filter (fun o => rest_id o <> rest_id (f i)) (map f l') =
    map f (filter (fun j => j <> i) l')) as Haux; [|by apply Haux].
  induction l' as [|j l' IH]; intros Hs; [done|]. simpl. rewrite !filter_cons.
  rewrite IH by set_solver. assert (j = i <-> rest_id (f j) = rest_id (f i)) as Hji.
  { split; [by intros ->|]. apply Hinj; set_solver. }
  repeat case_decide; naive_solver.
Qed.

Lemma lookup_map i : i ∈ l -> lookup (map f l) (rest_id (f i)) = Some (f i).
Proof using Hinj.
  intros Hi. destruct (lookup (map f l) (rest_id (f i))) as [o|] eqn:E.
  - apply lookup_id in E as [Hid (j & -> & Hj)%list_elem_of_fmap]. by rewrite (Hinj j i).
  - destruct (proj1 (lookup_none _ _) E (f i)); [by apply list_elem_of_fmap_2|done].
Qed.

Lemma lookup_map_none k : (forall i, i ∈ l -> rest_id (f i) <> k) -> lookup (map f l) k = None.
Proof. intros Hn. apply lookup_none. intros o (i & -> & Hi)%list_elem_of_fmap. auto. Qed.

Lemma reduce_map f' i q :
  i ∈ l -> f' i = (f i) <| rest_remaining := rest_remaining (f i) - q |> ->
  (forall j, j ∈ l -> j <> i -> f' j = f j) ->
  reduce (map f l) (rest_id (f i)) q =
    map f' (if decide (rest_remaining (f i) = q) then without i l else l).
Proof using Hinj.
  intros Hi Hfi Hf. unfold reduce, without.
  assert (forall l', l' ⊆ l -> omap (reduce_order (rest_id (f i)) q) (map f l') =
    map f' (if decide (rest_remaining (f i) = q) then filter (fun j => j <> i) l' else l'))
    as Haux; [|by apply Haux].
  induction l' as [|j l' IH]; intros Hs; [by case_decide|]. cbn [map].
  rewrite omap_cons_match, IH by set_solver. unfold reduce_order.
  destruct (decide (j = i)) as [->|Hne].
  - rewrite decide_True by done. case_decide; [by rewrite filter_cons_False by tauto|].
    cbn [map]. by rewrite Hfi.
  - rewrite decide_False by (intros E; apply Hne, Hinj; set_solver).
    case_decide; rewrite ?filter_cons_True by done; cbn [map]; rewrite Hf by set_solver; done.
Qed.
End image.

Lemma queue_map (f : Z -> Resting) l s p :
  queue (map f l) s p = map f (filter (fun i => rest_side (f i) = s /\ rest_price (f i) = p) l).
Proof.
  unfold queue. induction l as [|i l IH]; [done|]. cbn [map]. rewrite !filter_cons.
  case_decide; cbn [map]; by rewrite IH.
Qed.

(** The oldest order at the best price has priority. *)
Lemma filter_first {A} (P : A -> Prop) `{!forall x, Decision (P x)} (l : list A) x q :
  filter P l = x :: q -> exists l1 l2, l = l1 ++ x :: l2 /\ P x /\ forall y, y ∈ l1 -> ~ P y.
Proof.
  induction l as [|y l IH]; [done|]. rewrite filter_cons. case_decide as Hy.
  - intros [= -> _]. exists [], l. split_and!; [done|done|]. by intros z Hz%elem_of_nil.
  - intros (l1 & l2 & -> & Hx & Hl)%IH. exists (y :: l1), l2. split_and!; [done|done|].
    intros z [->|Hz]%elem_of_cons; auto.
Qed.

Lemma best_order_first l s p o q :
  queue l s p = o :: q ->
  (forall o', o' ∈ l -> rest_side o' = s -> better s (rest_price o') p = false) ->
  best_order l s = Some o.
Proof.
  intros (l1 & l2 & -> & [Hs Hp] & Hl)%filter_first Hb. apply best_order_intro; [done|..].
  - intros o' Ho' Hs'. specialize (Hb o' ltac:(set_solver) Hs'). specialize (Hl o' Ho').
    assert (rest_price o' <> p) by tauto. unfold better in *. destruct s; lia.
  - intros o' Ho' Hs'. rewrite Hp. apply Hb; [set_solver|done].
Qed.

(** ** Outcomes and histories *)

(** The outcome of an operation: the book, the result, the calls on the sink. *)
Definition accepted (r : list Resting * list SinkEvent) : list Resting * bool * list SinkEvent :=
  (r.1, true, r.2).

Definition cancel_spec (m : list Resting) (k : Z) : list Resting * bool * list SinkEvent :=
  match lookup m k with
  | Some o => (remove m k, true, [on_order (OrderUpdate.mk k Canceled (rest_remaining o))])
  | None => (m, false, [])
  end.

Definition history {B Op} (step : B -> Op -> B * bool * list SinkEvent) :
    B -> list Op -> B * list (bool * list SinkEvent) :=
  fix go b ops :=
    match ops with
    | [] => (b, [])
    | op :: ops' =>
        let '(b, ok, ev) := step b op in
        let '(b, outs) := go b ops' in (b, (ok, ev) :: outs)
    end.
