(* ===== verification/DenseQueues.v ===== *)
(** * The level queues of the dense book

    [append], [unlink] and [unlink_filled] keep, for each side and level, a
    doubly-linked FIFO of pool indices, its total quantity, the occupancy
    bitmap and the best level.  [queues_ok b Q] states that the book's level
    arrays hold exactly the queues [Q]. *)

From S2P Require Import Prelude OpenAddressing OrderIndex BookTypes DenseBook Bitmap.
From S2P Require Import LinkedQueue.
Import DensePriceOrderBook.

Definition best (b : t) (s : Side) : Z := match s with Buy => _best_bid b | Sell => _best_ask b end.

(** ** Closed forms of the reads after an update *)

Section reads.
Implicit Types (b : t) (s : Side).

Lemma nodes_upd_node b i f : _nodes (upd_node b i f) = (_nodes b).[i <- f (_nodes b).[i]].
Proof. done. Qed.

Lemma nodes_upd_level b s lv f : _nodes (upd_level b s lv f) = _nodes b.
Proof. by destruct s. Qed.

Lemma levels_upd_node b i f s : levels (upd_node b i f) s = levels b s.
Proof. by destruct s. Qed.

Lemma levels_upd_level b s s' lv f :
  levels (upd_level b s lv f) s' =
    if decide (s = s') then (levels b s).[lv <- f (levels b s).[lv]] else levels b s'.
Proof. by destruct s, s'. Qed.

Lemma levels_upd_level_eq b s lv f :
  levels (upd_level b s lv f) s = (levels b s).[lv <- f (levels b s).[lv]].
Proof. by destruct s. Qed.

Lemma bitmap_upd_node b i f s : bitmap (upd_node b i f) s = bitmap b s.
Proof. by destruct s. Qed.

Lemma bitmap_upd_level b s lv f s' : bitmap (upd_level b s lv f) s' = bitmap b s'.
Proof. by destruct s, s'. Qed.

Lemma best_upd_node b i f s : best (upd_node b i f) s = best b s.
Proof. by destruct s. Qed.

Lemma best_upd_level b s lv f s' : best (upd_level b s lv f) s' = best b s'.
Proof. by destruct s, s'. Qed.

Lemma nodes_set_occupied b s lv : _nodes (set_occupied b s lv) = _nodes b.
Proof. unfold set_occupied. destruct s; by case_match. Qed.

Lemma nodes_clear_occupied b s lv : _nodes (clear_occupied b s lv) = _nodes b.
Proof. unfold clear_occupied. destruct s; repeat case_match; done. Qed.

Lemma levels_set_occupied b s lv s' : levels (set_occupied b s lv) s' = levels b s'.
Proof. unfold set_occupied. destruct s, s'; by case_match. Qed.

Lemma levels_clear_occupied b s lv s' : levels (clear_occupied b s lv) s' = levels b s'.
Proof. unfold clear_occupied. destruct s, s'; repeat case_match; done. Qed.
End reads.

Create Rewrite HintDb book.
#[export] Hint Rewrite nodes_upd_node nodes_upd_level levels_upd_node levels_upd_level_eq
  bitmap_upd_node bitmap_upd_level best_upd_node best_upd_level nodes_set_occupied
  nodes_clear_occupied levels_set_occupied levels_clear_occupied : book.

(** ** What the queue operations leave alone *)

Record frame (b b' : t) : Prop := {
  frame_index : _index b' = _index b;
  frame_capacity : _order_capacity b' = _order_capacity b;
  frame_minimum : _minimum_price b' = _minimum_price b;
  frame_tick : _tick_size b' = _tick_size b;
  frame_count : _level_count b' = _level_count b;
  frame_free : _free b' = _free b;
  frame_active : _active b' = _active b
}.

Lemma frame_refl b : frame b b.
Proof. by constructor. Qed.

Lemma frame_trans a b c : frame a b -> frame b c -> frame a c.
Proof. intros [] []. constructor; congruence. Qed.

Lemma frame_upd_node b i f : frame b (upd_node b i f).
Proof. by constructor. Qed.

Lemma frame_upd_level b s lv f : frame b (upd_level b s lv f).
Proof. destruct s; by constructor. Qed.

Lemma frame_set_occupied b s lv : frame b (set_occupied b s lv).
Proof. unfold set_occupied. destruct s; case_match; by constructor. Qed.

Lemma frame_clear_occupied b s lv : frame b (clear_occupied b s lv).
Proof. unfold clear_occupied. destruct s; repeat case_match; by constructor. Qed.

#[export] Hint Resolve frame_refl frame_upd_node frame_upd_level frame_set_occupied
  frame_clear_occupied : qtrader.

Ltac frame_steps :=
  repeat match goal with
  | |- frame _ (if _ then _ else _) => case_match
  | |- frame _ _ => eapply frame_trans; [|solve [eauto with qtrader]]
  end; try apply frame_refl.

Lemma frame_append b i lv : frame b (append b i lv).
Proof. unfold append. cbn zeta. frame_steps. Qed.

Lemma frame_unlink b i : frame b (unlink b i).
Proof. unfold unlink. cbn zeta. frame_steps. Qed.

Lemma frame_unlink_filled b i lv : frame b (unlink_filled b i lv).
Proof. unfold unlink_filled. cbn zeta. frame_steps. Qed.

(** ** Occupancy and the best level *)

(** [lv] is worse than [x] for a side: [x] is nearer the touch. *)
Definition nearer (s : Side) (x lv : Z) : Prop :=
  match s with Buy => lv < x | Sell => x < lv end.

Definition is_best (s : Side) (P : Z -> bool) (best : Z) : Prop :=
  (best = kInvalid /\ forall x, P x = false) \/
  (P best = true /\ forall x, nearer s x best -> P x = false).

(** Bitmap and best level of one side, for the set [P] of occupied levels. *)
Record occ_ok (s : Side) (lc : Z) (bm : list Z) (bst : Z) (P : Z -> bool) : Prop := {
  occ_count : 0 <= lc <= 2 ^ 32 - 64;
  occ_words : alen bm = bitmap_words lc;
  occ_wf : words_ok bm;
  occ_range : forall x, P x = true -> 0 <= x < lc;
  occ_bits : forall x, 0 <= x < 64 * alen bm -> occupied bm x = P x;
  occ_best : is_best s P bst
}.

Lemma bitmap_words_ok lc :
  0 <= lc <= 2 ^ 32 - 64 -> lc <= 64 * bitmap_words lc /\ 0 <= bitmap_words lc.
Proof. intros. unfold bitmap_words. rewrite wrap_small by lia. dlia. Qed.

Lemma is_best_ext s P P' bst : (forall x, P x = P' x) -> is_best s P bst -> is_best s P' bst.
Proof. intros He [[-> Hn]|[Hb Hn]]; [left|right]; split; auto; intros; rewrite <- He; auto. Qed.

Lemma occ_ok_ext s lc bm bst P P' :
  (forall x, P x = P' x) -> occ_ok s lc bm bst P -> occ_ok s lc bm bst P'.
Proof.
  intros He []. constructor; auto.
  - intros x. rewrite <- He. auto.
  - intros x Hx. rewrite <- He. auto.
  - by eapply is_best_ext.
Qed.

Section occupancy.
Context (s : Side) (b : t) (P : Z -> bool) (lv : Z).
Hypothesis Hok : occ_ok s (_level_count b) (bitmap b s) (best b s) P.
Hypothesis Hlv : 0 <= lv < _level_count b.

Let in_words : forall x, 0 <= x < _level_count b -> 0 <= x < 64 * alen (bitmap b s).
Proof.
  intros x Hx. rewrite (occ_words _ _ _ _ _ Hok).
  pose proof (bitmap_words_ok _ (occ_count _ _ _ _ _ Hok)). lia.
Qed.

Lemma set_occupied_ok :
  occ_ok s (_level_count b) (bitmap (set_occupied b s lv) s) (best (set_occupied b s lv) s)
    (fun x => (x =? lv) || P x).
Proof.
  assert (bitmap (set_occupied b s lv) s = set_bit (bitmap b s) lv) as ->.
  { unfold set_occupied. destruct s; by case_match. }
  assert (best (set_occupied b s lv) s =
    match s with
    | Buy => if (best b s =? kInvalid) || (best b s <? lv) then lv else best b s
    | Sell => if (best b s =? kInvalid) || (lv <? best b s) then lv else best b s
    end) as Hbest.
  { unfold set_occupied. destruct s, b; cbn; repeat case_match; done. }
  destruct Hok as [Hc Hw Hwf Hr Hb Hbst]. constructor; auto.
  - by rewrite set_bit_length.
  - apply set_bit_words; [lia|done].
  - intros x. destruct (Z.eqb_spec x lv); [lia|]. cbn [orb]. auto.
  - intros x. rewrite set_bit_length. intros Hx. rewrite occupied_set_bit by auto.
    by rewrite Hb by auto.
  - rewrite Hbest. right. destruct Hbst as [[-> Hn]|[Ht Hn]].
    + destruct s; rewrite !Z.eqb_refl; cbn [orb nearer]; rewrite ?Z.eqb_refl; cbn [orb]; (split; [done|]);
        intros x Hx; (destruct (Z.eqb_spec x lv); [lia|apply Hn]).
    + apply Hr in Ht as Hrange. destruct (Z.eqb_spec (best b s) kInvalid); [unfold kInvalid in *; lia|].
      destruct s; cbn [orb nearer] in *; split_if; rewrite ?Z.eqb_refl, ?Ht, ?orb_true_r;
        (split; [done|]); intros x Hx;
        (destruct (Z.eqb_spec x lv); [lia|apply Hn; lia]).
Qed.

Let scan (P' : Z -> bool) (bm : list Z) :
  words_ok bm -> alen bm = bitmap_words (_level_count b) ->
  (forall x, P' x = true -> 0 <= x < _level_count b) ->
  (forall x, 0 <= x < 64 * alen bm -> occupied bm x = P' x) ->
  is_best s P' (find_best b bm (is_buy s)).
Proof.
  intros Hwf Hlen Hr Hb. pose proof (bitmap_words_ok _ (occ_count _ _ _ _ _ Hok)) as [Hle Hpos].
  assert (forall x, 0 <= x < 64 * bitmap_words (_level_count b) -> occupied bm x = false ->
    P' x = false) as Hf by (intros x ?; rewrite Hb by lia; auto).
  assert (forall x, ~ 0 <= x < _level_count b -> P' x = false) as Hout.
  { intros x Hx. destruct (P' x) eqn:E; [|done]. by apply Hr in E. }
  unfold find_best. destruct s; cbn [is_buy].
  - destruct (find_highest_spec (Z.to_nat (bitmap_words (_level_count b))) bm)
      as [[-> Hn]|(Hx & Ho & Hn)]; [done|lia|left|right].
    + split; [done|]. intros x. destruct (decide (0 <= x < _level_count b)); [|auto].
      apply Hf; [lia|]. apply Hn. lia.
    + rewrite Hb in Ho by lia. split; [done|]. cbn [nearer]. intros x Hlt.
      destruct (decide (0 <= x < _level_count b)); [|auto]. apply Hf; [lia|]. apply Hn. lia.
  - destruct (find_lowest_spec (Z.to_nat (bitmap_words (_level_count b))) 0 bm)
      as [[-> Hn]|(Hx & Ho & Hn)]; [done|lia|lia|left|right].
    + split; [done|]. intros x. destruct (decide (0 <= x < _level_count b)); [|auto].
      apply Hf; [lia|]. apply Hn. lia.
    + rewrite Hb in Ho by lia. split; [done|]. cbn [nearer]. intros x Hlt.
      destruct (decide (0 <= x < _level_count b)); [|auto]. apply Hf; [lia|]. apply Hn. lia.
Qed.

Lemma clear_occupied_ok :
  occ_ok s (_level_count b) (bitmap (clear_occupied b s lv) s) (best (clear_occupied b s lv) s)
    (fun x => negb (x =? lv) && P x).
Proof.
  assert (bitmap (clear_occupied b s lv) s = clear_bit (bitmap b s) lv) as Hbm.
  { unfold clear_occupied. destruct s; repeat case_match; done. }
  assert (best (clear_occupied b s lv) s =
    if best b s =? lv then find_best b (clear_bit (bitmap b s) lv) (is_buy s) else best b s) as ->.
  { unfold clear_occupied. destruct s, b; cbn -[find_best clear_bit]; repeat case_match; done. }
  pose proof Hok as [Hc Hw Hwf Hr Hb Hbst]. rewrite Hbm.
  assert (words_ok (clear_bit (bitmap b s) lv)) by (apply clear_bit_words; [lia|done]).
  assert (forall x, negb (x =? lv) && P x = true -> 0 <= x < _level_count b)
    by (intros x [_ ?]%andb_prop; auto).
  assert (forall x, 0 <= x < 64 * alen (clear_bit (bitmap b s) lv) ->
    occupied (clear_bit (bitmap b s) lv) x = negb (x =? lv) && P x) as Hbits.
  { intros x. rewrite clear_bit_length. intros. rewrite occupied_clear_bit by auto.
    by rewrite Hb by auto. }
  constructor; auto; [by rewrite clear_bit_length|].
  destruct (Z.eqb_spec (best b s) lv) as [E|E].
  - apply scan; auto. by rewrite clear_bit_length.
  - destruct Hbst as [[-> Hn]|[Ht Hn]]; [left|right].
    + split; [done|]. intros x. by rewrite Hn, andb_false_r.
    + rewrite Ht. destruct (Z.eqb_spec (best b s) lv); [done|]. split; [done|].
      intros x Hx. by rewrite Hn, andb_false_r.
Qed.
End occupancy.

(** The other side is untouched. *)
Lemma set_occupied_other b s lv s' :
  s <> s' -> bitmap (set_occupied b s lv) s' = bitmap b s' /\
  best (set_occupied b s lv) s' = best b s'.
Proof. intros. unfold set_occupied. destruct s, s'; case_match; done. Qed.

Lemma clear_occupied_other b s lv s' :
  s <> s' -> bitmap (clear_occupied b s lv) s' = bitmap b s' /\
  best (clear_occupied b s lv) s' = best b s'.
Proof. intros. unfold clear_occupied. destruct s, s'; repeat case_match; done. Qed.

(** ** The queues *)

Definition nonempty (q : list Z) : bool := match q with [] => false | _ => true end.

Definition sum_remaining (nodes : list Node) (q : list Z) : Z :=
  foldr (fun i acc => remaining nodes.[i] + acc) 0 q.

Definition links_ok (nodes : list Node) (q : list Z) : Prop :=
  linked previous next nodes kInvalid q kInvalid.

Record level_ok (nodes : list Node) (l : PriceLevel) (q : list Z) : Prop := {
  level_head : head l = first_or kInvalid q;
  level_tail : tail l = last_or kInvalid q;
  level_links : links_ok nodes q;
  level_total : total_quantity l = u64 (sum_remaining nodes q)
}.

(** The level arrays of [b] hold the queues [Q side level]. *)
Record queues_ok (b : t) (Q : Side -> Z -> list Z) : Prop := {
  q_pool : alen (_nodes b) <= kInvalid;
  q_levels : forall s, alen (levels b s) = _level_count b;
  q_occ : forall s, occ_ok s (_level_count b) (bitmap b s) (best b s) (fun lv => nonempty (Q s lv));
  q_nodup : forall s lv, NoDup (Q s lv);
  q_in : forall s lv i, i ∈ Q s lv ->
    0 <= i < alen (_nodes b) /\ side (node b i) = s /\ level (node b i) = lv;
  q_level : forall s lv, 0 <= lv < _level_count b ->
    level_ok (_nodes b) (levels b s).[lv] (Q s lv)
}.

Lemma sum_remaining_ext nodes nodes' q :
  (forall i, i ∈ q -> remaining nodes'.[i] = remaining nodes.[i]) ->
  sum_remaining nodes' q = sum_remaining nodes q.
Proof.
  induction q as [|i q IH]; intros He; [done|]. simpl. rewrite He, IH by set_solver. done.
Qed.

Lemma sum_remaining_app nodes q1 q2 :
  sum_remaining nodes (q1 ++ q2) = sum_remaining nodes q1 + sum_remaining nodes q2.
Proof. induction q1 as [|i q1 IH]; simpl; [done|]. rewrite IH. lia. Qed.

Lemma level_ok_ext nodes nodes' l q :
  (forall i, i ∈ q -> nodes'.[i] = nodes.[i]) -> level_ok nodes l q -> level_ok nodes' l q.
Proof.
  intros He []. constructor; auto.
  - eapply linked_ext; [|done]. intros i Hi. by rewrite He.
  - by rewrite (sum_remaining_ext nodes) by (intros; by rewrite He).
Qed.

Section change.
Context (b b' : t) (Q Q' : Side -> Z -> list Z).
Hypothesis Hok : queues_ok b Q.
Hypothesis Hcount : _level_count b' = _level_count b.
Hypothesis Hpool : alen (_nodes b') = alen (_nodes b).

(** A change to the queue of one level. *)
Lemma queues_ok_change s lv :
  (forall s' lv', (s', lv') <> (s, lv) -> Q' s' lv' = Q s' lv') ->
  (forall s', alen (levels b' s') = alen (levels b s')) ->
  (forall s' lv', (s', lv') <> (s, lv) -> 0 <= lv' < _level_count b ->
     (levels b' s').[lv'] = (levels b s').[lv']) ->
  (forall s' lv' j, (s', lv') <> (s, lv) -> j ∈ Q s' lv' -> node b' j = node b j) ->
  (forall s', s' <> s -> bitmap b' s' = bitmap b s' /\ best b' s' = best b s') ->
  occ_ok s (_level_count b) (bitmap b' s) (best b' s) (fun x => nonempty (Q' s x)) ->
  NoDup (Q' s lv) ->
  (forall i, i ∈ Q' s lv ->
    0 <= i < alen (_nodes b) /\ side (node b' i) = s /\ level (node b' i) = lv) ->
  level_ok (_nodes b') (levels b' s).[lv] (Q' s lv) ->
  queues_ok b' Q'.
Proof.
  intros HQ Hlens Hlevels Hnodes Hother Hocc Hnd Hin Hlv.
  constructor; rewrite ?Hcount, ?Hpool; try apply Hok.
  - intros s'. rewrite Hlens. apply Hok.
  - intros s'. destruct (decide (s' = s)) as [->|Hne]; [done|].
    destruct (Hother s' Hne) as [-> ->]. eapply occ_ok_ext; [|apply Hok].
    intros x. simpl. rewrite HQ; [done|congruence].
  - intros s' lv'. destruct (decide ((s', lv') = (s, lv))); [by simplify_eq|].
    rewrite HQ by done. apply Hok.
  - intros s' lv' i. destruct (decide ((s', lv') = (s, lv))); [simplify_eq; apply Hin|].
    rewrite HQ by done. intros Hi. rewrite (Hnodes s' lv') by done. by apply Hok.
  - intros s' lv' Hr. destruct (decide ((s', lv') = (s, lv))); [by simplify_eq|].
    rewrite HQ, Hlevels by done. apply (level_ok_ext (_nodes b)); [|by apply Hok].
    intros i Hi. by apply (Hnodes s' lv').
Qed.

(** Nothing moved. *)
Lemma queues_ok_same :
  (forall s lv, Q' s lv = Q s lv) ->
  (forall s, levels b' s = levels b s /\ bitmap b' s = bitmap b s /\ best b' s = best b s) ->
  (forall s lv i, i ∈ Q s lv -> node b' i = node b i) ->
  queues_ok b' Q'.
Proof.
  intros HQ Hs Hnodes. constructor; rewrite ?Hcount, ?Hpool; try apply Hok.
  - intros s. destruct (Hs s) as (-> & _). apply Hok.
  - intros s. destruct (Hs s) as (_ & -> & ->). eapply occ_ok_ext; [|apply Hok].
    intros x. simpl. by rewrite HQ.
  - intros s lv. rewrite HQ. apply Hok.
  - intros s lv i. rewrite HQ. intros Hi. rewrite (Hnodes s lv) by done. by apply Hok.
  - intros s lv Hr. destruct (Hs s) as (-> & _). rewrite HQ.
    apply (level_ok_ext (_nodes b)); [|by apply Hok]. intros i Hi. by apply (Hnodes s lv).
Qed.
End change.

Lemma queues_ok_range b Q s lv i : queues_ok b Q -> i ∈ Q s lv -> 0 <= lv < _level_count b.
Proof.
  intros Hok Hi. apply (occ_range _ _ _ _ _ (q_occ _ _ Hok s)). by destruct (Q s lv); [set_solver|].
Qed.

Lemma queues_ok_valid b Q s lv i : queues_ok b Q -> i ∈ Q s lv -> i <> kInvalid.
Proof. intros Hok Hi. apply (q_in _ _ Hok) in Hi. pose proof (q_pool _ _ Hok). lia. Qed.

(** ** append *)

(** A node without its links. *)
Definition strip (n : Node) : Node := n <| previous := 0 |> <| next := 0 |>.

Definition same_payload (b b' : t) : Prop := forall j, strip (node b' j) = strip (node b j).

Definition append_links (b : t) (index level_index : Z) : t :=
  let s := side (node b index) in
  let last := tail (levels b s).[level_index] in
  let b := upd_node b index (fun n => n <| previous := last |>) in
  let b :=
    if negb (last =? kInvalid) then upd_node b last (fun n => n <| next := index |>)
    else upd_level b s level_index (fun l => l <| head := index |>) in
  let b := upd_level b s level_index (fun l => l <| tail := index |>) in
  upd_level b s level_index
    (fun l => l <| total_quantity ::= fun q => u64 (q + remaining (node b index)) |>).

Lemma append_set_occupied b i lv :
  append b i lv = set_occupied (append_links b i lv) (side (node b i)) lv.
Proof. done. Qed.

Section append.
Context (b : t) (i lv : Z).
Let s : Side := side (node b i).
Let last : Z := tail (levels b s).[lv].

Lemma append_links_nodes :
  _nodes (append_links b i lv) =
    let ns := (_nodes b).[i <- (node b i) <| previous := last |>] in
    if last =? kInvalid then ns else ns.[last <- ns.[last] <| next := i |>].
Proof.
  unfold append_links. fold s last. cbn zeta.
  destruct (last =? kInvalid); cbn [negb]; by autorewrite with book.
Qed.

Lemma append_links_payload j : strip (_nodes (append_links b i lv)).[j] = strip (node b j).
Proof.
  rewrite append_links_nodes. cbn zeta. unfold node. destruct (last =? kInvalid).
  - by rewrite (aget_update_field strip _ _ _ (fun n => n <| previous := last |>)).
  - rewrite (aget_update_field strip _ _ _ (fun n => n <| next := i |>)) by done.
    by rewrite (aget_update_field strip _ _ _ (fun n => n <| previous := last |>)).
Qed.

Lemma append_links_levels :
  0 <= lv < alen (levels b s) ->
  levels (append_links b i lv) s = (levels b s).[lv <-
    mkLevel (if last =? kInvalid then i else head (levels b s).[lv]) i
      (u64 (total_quantity (levels b s).[lv] + remaining (node b i)))].
Proof.
  intros Hlv. unfold append_links. fold s last. cbn zeta. autorewrite with book.
  assert (forall X, _nodes X = _nodes (append_links b i lv) ->
    remaining (node X i) = remaining (node b i)) as Hrem.
  { intros X HX. unfold node at 1. rewrite HX.
    exact (f_equal remaining (append_links_payload i)). }
  rewrite Hrem by (rewrite append_links_nodes; cbn zeta; destruct (last =? kInvalid);
    cbn [negb]; by autorewrite with book).
  destruct (last =? kInvalid); cbn [negb]; autorewrite with book;
    rewrite !aset_aset, !aget_aset_eq by (autorewrite with arr; lia); done.
Qed.

Lemma append_links_other s' :
  s' <> s -> levels (append_links b i lv) s' = levels b s'.
Proof.
  intros Hne. unfold append_links. fold s last. cbn zeta.
  rewrite !levels_upd_level, !decide_False by done.
  case_match; [by autorewrite with book|]. by rewrite levels_upd_level, decide_False.
Qed.

Lemma append_links_occupancy s' :
  bitmap (append_links b i lv) s' = bitmap b s' /\ best (append_links b i lv) s' = best b s' /\
  _level_count (append_links b i lv) = _level_count b.
Proof.
  unfold append_links. fold s last. cbn zeta. split_and!.
  - case_match; by autorewrite with book.
  - case_match; by autorewrite with book.
  - destruct s; by case_match.
Qed.
End append.

(** The fields that survive a change of links. *)
Lemma strip_fields n n' :
  strip n' = strip n ->
  id n' = id n /\ price n' = price n /\ remaining n' = remaining n /\
  free_next n' = free_next n /\ level n' = level n /\ side n' = side n /\ state n' = state n.
Proof. destruct n, n'. unfold strip. updates. cbn. intros Hs. injection Hs. intros. subst. by split_and!. Qed.

Lemma queue_last_cases b Q s lv :
  queues_ok b Q -> 0 <= lv < _level_count b ->
  (Q s lv = [] /\ tail (levels b s).[lv] = kInvalid /\ head (levels b s).[lv] = kInvalid) \/
  (Q s lv <> [] /\ tail (levels b s).[lv] = last_or kInvalid (Q s lv) /\
   tail (levels b s).[lv] <> kInvalid /\ tail (levels b s).[lv] ∈ Q s lv /\
   head (levels b s).[lv] = first_or kInvalid (Q s lv) /\ head (levels b s).[lv] ∈ Q s lv /\
   head (levels b s).[lv] <> kInvalid).
Proof.
  intros Hok Hlv. destruct (q_level _ _ Hok s lv Hlv) as [Hh Ht _ _]. rewrite Hh, Ht.
  destruct (decide (Q s lv = [])) as [->|Hne]; [by left|right].
  pose proof (first_or_elem kInvalid _ Hne). pose proof (last_or_elem kInvalid _ Hne).
  split_and!; auto; by apply (queues_ok_valid b Q s lv).
Qed.

Definition push (Q : Side -> Z -> list Z) (s : Side) (lv i : Z) : Side -> Z -> list Z :=
  fun s' lv' => if decide ((s', lv') = (s, lv)) then Q s lv ++ [i] else Q s' lv'.

Lemma push_eq Q s lv i : push Q s lv i s lv = Q s lv ++ [i].
Proof. unfold push. by rewrite decide_True. Qed.

Lemma push_ne Q s lv i s' lv' : (s', lv') <> (s, lv) -> push Q s lv i s' lv' = Q s' lv'.
Proof. intros. unfold push. by rewrite decide_False. Qed.

Section append_ok.
Context (b : t) (Q : Side -> Z -> list Z) (i lv : Z).
Hypothesis Hok : queues_ok b Q.
Hypothesis Hi : 0 <= i < alen (_nodes b).
Hypothesis Hlv : 0 <= lv < _level_count b.
Hypothesis Hfresh : forall s lv, i ∉ Q s lv.
Let s : Side := side (node b i).
Let last : Z := tail (levels b s).[lv].
Let b' := append_links b i lv.

Let last_in : last <> kInvalid -> last ∈ Q s lv /\ 0 <= last < alen (_nodes b).
Proof.
  intros Hne. destruct (queue_last_cases b Q s lv Hok Hlv) as [(_ & Ht & _)|(_ & _ & _ & Hin & _)];
    [done|]. split; [done|]. by apply (q_in _ _ Hok s lv), Hin.
Qed.

Lemma append_links_previous j :
  0 <= j -> previous (node b' j) = if decide (j = i) then last else previous (node b j).
Proof.
  intros Hj. unfold node, b'. rewrite append_links_nodes. fold s last. cbn zeta. unfold node.
  destruct (last =? kInvalid); cycle 1.
  - rewrite (aget_update_field previous _ _ _ (fun n => n <| next := i |>)) by done.
    rewrite (aget_update _ i j (fun n => n <| previous := last |>)) by done. by case_decide.
  - rewrite (aget_update _ i j (fun n => n <| previous := last |>)) by done. by case_decide.
Qed.

Lemma append_links_next j :
  0 <= j ->
  next (node b' j) = if decide (last <> kInvalid /\ j = last) then i else next (node b j).
Proof.
  intros Hj. unfold node, b'. rewrite append_links_nodes. fold s last. cbn zeta. unfold node.
  destruct (Z.eqb_spec last kInvalid) as [E|E].
  - rewrite (aget_update_field next _ _ _ (fun n => n <| previous := last |>)) by done.
    by rewrite decide_False by tauto.
  - destruct (last_in E) as [_ Hr].
    rewrite (aget_update _ last j (fun n => n <| next := i |>)) by (rewrite ?alen_aset; done).
    repeat case_decide; try tauto.
    by rewrite (aget_update_field next _ _ _ (fun n => n <| previous := last |>)).
Qed.

Lemma append_links_same j : 0 <= j -> j <> i -> j ∉ Q s lv -> node b' j = node b j.
Proof.
  intros Hj Hne Hq. unfold node, b'. rewrite append_links_nodes. fold s last. cbn zeta. unfold node.
  destruct (Z.eqb_spec last kInvalid) as [E|E].
  - by rewrite aget_aset_ne by lia.
  - destruct (last_in E) as [Hl Hr].
    assert (j <> last) by (intros ->; done). by rewrite !aget_aset_ne by lia.
Qed.

Lemma append_level_ok :
  next (node b i) = kInvalid -> level_ok (_nodes b') (levels b' s).[lv] (Q s lv ++ [i]).
Proof.
  intros Hnext. unfold b'. rewrite append_links_levels by (fold s; by rewrite (q_levels _ _ Hok)).
  fold s last b'. rewrite aget_aset_eq by (by rewrite (q_levels _ _ Hok)).
  destruct (q_level _ _ Hok s lv Hlv) as [Hh Ht Hlinks Htot].
  assert (forall j, j ∈ Q s lv -> 0 <= j /\ j <> i) as Hq.
  { intros j Hj. split; [apply (q_in _ _ Hok) in Hj; lia|]. intros ->. by apply (Hfresh s lv). }
  assert (forall j, remaining (_nodes b').[j] = remaining (_nodes b).[j]) as Hrem.
  { intros j. pose proof (append_links_payload b i lv j) as Hp. apply (strip_fields _ _ Hp). }
  constructor; cbn [head tail total_quantity].
  - destruct (queue_last_cases b Q s lv Hok Hlv) as [(-> & Hl & _)|(_ & _ & Hl & Hhd)];
      fold last in Hl.
    + by rewrite Hl, Z.eqb_refl.
    + destruct (Z.eqb_spec last kInvalid); [done|]. rewrite Hh. by destruct (Q s lv).
  - by rewrite last_or_snoc.
  - apply (linked_append previous next kInvalid (_nodes b)); auto; try apply Hok.
    + intros j Hj. destruct (Hq j Hj). pose proof (append_links_previous j) as Hp.
      rewrite decide_False in Hp by done. by apply Hp.
    + intros j Hj. destruct (Hq j Hj). pose proof (append_links_next j) as Hp.
      unfold node in Hp. rewrite Hp by done. fold last in Ht. rewrite <- Ht.
      assert (j <> kInvalid) by (by apply (queues_ok_valid b Q s lv)).
      destruct (decide (j = last)) as [E|E].
      * by rewrite decide_True by (split; congruence).
      * by rewrite decide_False by tauto.
    + pose proof (append_links_previous i) as Hp. rewrite decide_True in Hp by done.
      unfold node in Hp. rewrite Hp by lia. done.
    + pose proof (append_links_next i) as Hp. unfold node in Hp, Hnext. rewrite Hp, Hnext by lia.
      case_decide as Hd; [|done]. destruct Hd as [Hd Heq]. destruct (last_in Hd) as [Hl _].
      rewrite <- Heq in Hl. by apply Hfresh in Hl.
  - rewrite sum_remaining_app, (sum_remaining_ext (_nodes b)) by auto. simpl. rewrite Hrem, Htot.
    rewrite wrap_add_l, Z.add_0_r. done.
Qed.
End append_ok.

Lemma nonempty_push Q s lv i x :
  nonempty (push Q s lv i s x) = (x =? lv) || nonempty (Q s x).
Proof.
  destruct (Z.eqb_spec x lv) as [->|Hne].
  - rewrite push_eq. by destruct (Q s lv).
  - by rewrite push_ne by congruence.
Qed.

Lemma append_payload b i lv : same_payload b (append b i lv).
Proof.
  intros j. rewrite append_set_occupied. unfold node at 1. rewrite nodes_set_occupied.
  apply append_links_payload.
Qed.

(** What [append] does to the queues and to the nodes. *)
Lemma append_ok b Q i lv :
  queues_ok b Q -> 0 <= i < alen (_nodes b) -> 0 <= lv < _level_count b ->
  (forall s lv, i ∉ Q s lv) -> level (node b i) = lv -> next (node b i) = kInvalid ->
  queues_ok (append b i lv) (push Q (side (node b i)) lv i) /\ same_payload b (append b i lv).
Proof.
  intros Hok Hi Hlv Hfresh Hlevel Hnext. rewrite append_set_occupied.
  set (s := side (node b i)).
  assert (same_payload b (set_occupied (append_links b i lv) s lv)) as Hpay.
  { intros j. rewrite <- (append_payload b i lv j). by rewrite append_set_occupied. }
  split; [|done]. destruct (append_links_occupancy b i lv s) as (Hbm & Hbst & Hlc).
  assert (forall j, 0 <= j -> j <> i -> j ∉ Q s lv ->
    node (set_occupied (append_links b i lv) s lv) j = node b j) as Hsame.
  { intros. unfold node at 1. rewrite nodes_set_occupied. by apply (append_links_same b Q). }
  apply (queues_ok_change b _ Q _ Hok) with s lv.
  - rewrite (frame_count _ _ (frame_set_occupied _ _ _)). apply Hlc.
  - rewrite nodes_set_occupied, append_links_nodes. cbn zeta.
    case_match; by autorewrite with arr.
  - intros s' lv'. apply push_ne.
  - intros s'. rewrite levels_set_occupied. destruct (decide (s' = s)) as [->|Hne].
    + rewrite append_links_levels by (by rewrite (q_levels _ _ Hok)). by autorewrite with arr.
    + by rewrite append_links_other.
  - intros s' lv' Hne Hr. rewrite levels_set_occupied. destruct (decide (s' = s)) as [->|].
    + rewrite append_links_levels by (by rewrite (q_levels _ _ Hok)).
      rewrite aget_aset_ne; [done|lia|lia|congruence].
    + by rewrite append_links_other.
  - intros s' lv' j Hne Hj. pose proof (q_in _ _ Hok _ _ _ Hj) as (? & Hs & Hl). apply Hsame.
    + lia.
    + intros ->. by apply Hfresh in Hj.
    + intros Hj'. apply (q_in _ _ Hok) in Hj' as (_ & ? & ?). congruence.
  - intros s' Hne. destruct (append_links_occupancy b i lv s') as (Hb & Hs & _).
    destruct (set_occupied_other (append_links b i lv) s lv s') as [-> ->]; [done|]. done.
  - eapply occ_ok_ext; [intros x; symmetry; apply nonempty_push|].
    rewrite <- Hlc. apply (set_occupied_ok s (append_links b i lv) (fun x => nonempty (Q s x))).
    + rewrite Hbm, Hbst, Hlc. apply Hok.
    + by rewrite Hlc.
  - rewrite push_eq. apply NoDup_app. split_and!; [apply Hok| |apply NoDup_singleton].
    intros x Hx ->%list_elem_of_singleton. by apply Hfresh in Hx.
  - intros j. rewrite push_eq, elem_of_app, list_elem_of_singleton. intros Hj.
    pose proof (strip_fields _ _ (Hpay j)) as (_ & _ & _ & _ & -> & -> & _).
    destruct Hj as [Hj| ->]; [by apply Hok|done].
  - rewrite push_eq, nodes_set_occupied, levels_set_occupied. by apply append_level_ok.
Qed.

(** ** unlink *)

Definition unlink_links (b : t) (index : Z) : t :=
  let level_index := level (node b index) in
  let s := side (node b index) in
  let prev := previous (node b index) in
  let b :=
    if negb (prev =? kInvalid)
    then upd_node b prev (fun n => n <| next := next (node b index) |>)
    else upd_level b s level_index (fun l => l <| head := next (node b index) |>) in
  let nxt := next (node b index) in
  let b :=
    if negb (nxt =? kInvalid)
    then upd_node b nxt (fun n => n <| previous := previous (node b index) |>)
    else upd_level b s level_index (fun l => l <| tail := previous (node b index) |>) in
  let b := upd_level b s level_index
    (fun l => l <| total_quantity ::= fun q => u64 (q - remaining (node b index)) |>) in
  upd_node b index (fun n => n <| previous := kInvalid |> <| next := kInvalid |>).

Lemma unlink_clear_occupied b i :
  let s := side (node b i) in
  let lv := level (node b i) in
  let b' := unlink_links b i in
  unlink b i = if head (levels b' s).[lv] =? kInvalid then clear_occupied b' s lv else b'.
Proof. done. Qed.

Section unlink.
Context (b : t) (i : Z).
Let s : Side := side (node b i).
Let lv : Z := level (node b i).
Let p : Z := previous (node b i).
Let n : Z := next (node b i).
Hypothesis Hi : 0 <= i < alen (_nodes b).
Hypothesis Hp : p <> kInvalid -> 0 <= p < alen (_nodes b) /\ p <> i.
Hypothesis Hn : n <> kInvalid -> 0 <= n < alen (_nodes b) /\ n <> i.

Definition unlinked_nodes : list Node :=
  let ns := _nodes b in
  let ns := if p =? kInvalid then ns else ns.[p <- ns.[p] <| next := n |>] in
  let ns := if n =? kInvalid then ns else ns.[n <- ns.[n] <| previous := p |>] in
  ns.[i <- ns.[i] <| previous := kInvalid |> <| next := kInvalid |>].

Let read_i (ns : list Node) (j : Z) (f : Node -> Node) :
  (j <> kInvalid -> 0 <= j /\ j <> i) -> j <> kInvalid -> ns.[j <- f ns.[j]].[i] = ns.[i].
Proof. intros Hj Hne. destruct (Hj Hne). apply aget_aset_ne; lia. Qed.

Lemma unlink_links_nodes : _nodes (unlink_links b i) = unlinked_nodes.
Proof.
  unfold unlink_links, unlinked_nodes. fold s lv p. cbn zeta.
  destruct (Z.eqb_spec p kInvalid) as [Ep|Ep]; cbn [negb]; unfold node; autorewrite with book.
  - fold (node b i). fold n. fold p.
    destruct (Z.eqb_spec n kInvalid); cbn [negb]; by autorewrite with book.
  - destruct (Hp Ep). rewrite !(aget_aset_ne _ p i) by lia. fold (node b i). fold n. fold p.
    destruct (Z.eqb_spec n kInvalid); cbn [negb]; autorewrite with book; done.
Qed.

Lemma unlink_links_levels :
  0 <= lv < alen (levels b s) ->
  levels (unlink_links b i) s = (levels b s).[lv <-
    mkLevel (if p =? kInvalid then n else head (levels b s).[lv])
      (if n =? kInvalid then p else tail (levels b s).[lv])
      (u64 (total_quantity (levels b s).[lv] - remaining (node b i)))].
Proof.
  intros Hlv. unfold unlink_links. fold s lv p. cbn zeta.
  destruct (Z.eqb_spec p kInvalid) as [Ep|Ep]; cbn [negb]; unfold node; autorewrite with book.
  - fold (node b i). fold n. fold p. destruct (Z.eqb_spec n kInvalid) as [En|En]; cbn [negb];
      autorewrite with book.
    + by rewrite !aset_aset, !aget_aset_eq by (autorewrite with arr; lia).
    + destruct (Hn En). rewrite !(aget_aset_ne _ n i) by lia.
      by rewrite !aset_aset, !aget_aset_eq by (autorewrite with arr; lia).
  - destruct (Hp Ep). rewrite !(aget_aset_ne _ p i) by lia. fold (node b i). fold n. fold p.
    destruct (Z.eqb_spec n kInvalid) as [En|En]; cbn [negb]; autorewrite with book.
    + rewrite !(aget_aset_ne _ p i) by lia.
      by rewrite !aset_aset, !aget_aset_eq by (autorewrite with arr; lia).
    + destruct (Hn En). rewrite !(aget_aset_ne _ n i), !(aget_aset_ne _ p i) by lia. done.
Qed.

Lemma unlink_links_other s' : s' <> s -> levels (unlink_links b i) s' = levels b s'.
Proof.
  intros Hne. unfold unlink_links. fold s lv p. cbn zeta. rewrite levels_upd_node.
  rewrite levels_upd_level, decide_False by done.
  repeat case_match; rewrite ?levels_upd_node, ?levels_upd_level, ?decide_False by done; done.
Qed.

Lemma unlink_links_occupancy s' :
  bitmap (unlink_links b i) s' = bitmap b s' /\ best (unlink_links b i) s' = best b s' /\
  _level_count (unlink_links b i) = _level_count b.
Proof.
  unfold unlink_links. fold s lv p. cbn zeta. split_and!.
  - autorewrite with book. repeat case_match; by autorewrite with book.
  - autorewrite with book. repeat case_match; by autorewrite with book.
  - destruct s; repeat case_match; done.
Qed.

Lemma unlinked_payload j : strip unlinked_nodes.[j] = strip (node b j).
Proof.
  unfold unlinked_nodes, node. cbn zeta.
  rewrite (aget_update_field strip _ _ _ (fun x => x <| previous := kInvalid |> <| next := kInvalid |>))
    by done.
  destruct (n =? kInvalid), (p =? kInvalid);
    rewrite ?(aget_update_field strip _ _ _ (fun x => x <| previous := p |>)) by done;
    rewrite ?(aget_update_field strip _ _ _ (fun x => x <| next := n |>)) by done; done.
Qed.

Lemma unlinked_same j :
  0 <= j -> j <> i -> (p <> kInvalid -> j <> p) -> (n <> kInvalid -> j <> n) ->
  unlinked_nodes.[j] = node b j.
Proof.
  intros Hj Hne Hjp Hjn. unfold unlinked_nodes, node. cbn zeta. rewrite aget_aset_ne by lia.
  destruct (Z.eqb_spec n kInvalid) as [En|En], (Z.eqb_spec p kInvalid) as [Ep|Ep];
    try destruct (Hn En); try destruct (Hp Ep);
    try specialize (Hjp Ep); try specialize (Hjn En);
    by rewrite ?aget_aset_ne by lia.
Qed.

Lemma unlinked_previous j :
  0 <= j -> j <> i ->
  previous unlinked_nodes.[j] =
    if decide (n <> kInvalid /\ j = n) then p else previous (node b j).
Proof.
  intros Hj Hne. unfold unlinked_nodes, node. cbn zeta. rewrite aget_aset_ne by lia.
  set (ns := if p =? kInvalid then _ else _).
  assert (previous ns.[j] = previous (_nodes b).[j] /\ alen ns = alen (_nodes b)) as [Hns Hl].
  { unfold ns. case_match; [done|]. split; [|by autorewrite with arr].
    by apply (aget_update_field previous _ _ _ (fun x => x <| next := n |>)). }
  destruct (Z.eqb_spec n kInvalid) as [En|En].
  - by rewrite decide_False by tauto.
  - destruct (Hn En).
    rewrite (aget_update _ n j (fun x => x <| previous := p |>)) by (rewrite ?Hl; lia).
    destruct (decide (j = n)); [by rewrite decide_True|]. by rewrite decide_False by tauto.
Qed.

Lemma unlinked_next j :
  0 <= j -> j <> i ->
  next unlinked_nodes.[j] =
    if decide (p <> kInvalid /\ j = p) then n else next (node b j).
Proof.
  intros Hj Hne. unfold unlinked_nodes, node. cbn zeta. rewrite aget_aset_ne by lia.
  set (ns := if p =? kInvalid then _ else _).
  assert (next ns.[j] = if decide (p <> kInvalid /\ j = p) then n else next (_nodes b).[j])
    as <-.
  { unfold ns. destruct (Z.eqb_spec p kInvalid) as [Ep|Ep].
    - by rewrite decide_False by tauto.
    - destruct (Hp Ep). rewrite (aget_update _ p j (fun x => x <| next := n |>)) by lia.
      destruct (decide (j = p)); [by rewrite decide_True|]. by rewrite decide_False by tauto. }
  case_match; [done|].
  by apply (aget_update_field next _ _ _ (fun x => x <| previous := p |>)).
Qed.

Lemma unlinked_at : previous unlinked_nodes.[i] = kInvalid /\ next unlinked_nodes.[i] = kInvalid.
Proof.
  unfold unlinked_nodes. cbn zeta. rewrite aget_aset_eq; [done|].
  repeat case_match; autorewrite with arr; done.
Qed.
End unlink.

Definition drop_node (Q : Side -> Z -> list Z) (i : Z) : Side -> Z -> list Z :=
  fun s lv => without i (Q s lv).

Section unlink_ok.
Context (b : t) (Q : Side -> Z -> list Z) (i lv : Z) (s : Side) (q1 q2 : list Z).
Hypothesis Hok : queues_ok b Q.
Hypothesis Hq : Q s lv = q1 ++ i :: q2.

Let Hin : i ∈ Q s lv.
Proof. rewrite Hq. set_solver. Qed.

Let Hlv : 0 <= lv < _level_count b.
Proof. by apply (queues_ok_range b Q s lv i). Qed.

Let Hnd : NoDup (q1 ++ i :: q2).
Proof. rewrite <- Hq. apply Hok. Qed.

Lemma unlink_place :
  side (node b i) = s /\ level (node b i) = lv /\
  previous (node b i) = last_or kInvalid q1 /\ next (node b i) = first_or kInvalid q2.
Proof.
  destruct (q_in _ _ Hok _ _ _ Hin) as (_ & Hs & Hl).
  pose proof (level_links _ _ _ (q_level _ _ Hok s lv Hlv)) as Hlinks. rewrite Hq in Hlinks.
  destruct (linked_links previous next kInvalid _ _ _ _ Hlinks). by split_and!.
Qed.

Lemma queue_mem j : j ∈ q1 \/ j ∈ q2 -> j ∈ Q s lv /\ j <> i /\ j <> kInvalid /\
  0 <= j < alen (_nodes b).
Proof.
  intros Hj. assert (j ∈ Q s lv) as Hj' by (rewrite Hq; set_solver).
  split_and!; [done| |by apply (queues_ok_valid b Q s lv)|apply (q_in _ _ Hok s lv j Hj')..].
  intros ->. apply NoDup_app in Hnd as (_ & Hd & Hn). apply NoDup_cons in Hn as [Hn _].
  destruct Hj as [Hj|Hj]; [|done]. apply (Hd i Hj). by left.
Qed.

Lemma unlink_previous_range :
  previous (node b i) <> kInvalid ->
  0 <= previous (node b i) < alen (_nodes b) /\ previous (node b i) <> i.
Proof.
  destruct unlink_place as (_ & _ & -> & _). intros Hne.
  destruct (last_or_cases kInvalid q1) as [|Hm]; [done|].
  by destruct (queue_mem _ (or_introl Hm)) as (_ & ? & _ & ?).
Qed.

Lemma unlink_next_range :
  next (node b i) <> kInvalid ->
  0 <= next (node b i) < alen (_nodes b) /\ next (node b i) <> i.
Proof.
  destruct unlink_place as (_ & _ & _ & ->). intros Hne.
  destruct (first_or_cases kInvalid q2) as [|Hm]; [done|].
  by destruct (queue_mem _ (or_intror Hm)) as (_ & ? & _ & ?).
Qed.

Lemma unlinked_links : links_ok (unlinked_nodes b i) (q1 ++ q2).
Proof.
  pose proof (level_links _ _ _ (q_level _ _ Hok s lv Hlv)) as Hlinks. rewrite Hq in Hlinks.
  pose proof unlink_previous_range as Hp. pose proof unlink_next_range as Hn.
  destruct (q_in _ _ Hok _ _ _ Hin) as (Hi & _). destruct unlink_place as (_ & _ & Ep & En).
  assert (NoDup q1 /\ NoDup q2 /\ forall j, j ∈ q1 -> j ∉ q2) as (Hd1 & Hd2 & Hd).
  { apply NoDup_app in Hnd as (? & Hd & Hn2). apply NoDup_cons in Hn2 as [_ ?].
    split_and!; auto. intros j Hj Hj2. apply (Hd j Hj). by right. }
  apply (linked_unlink previous next kInvalid (_nodes b) _ q1 i q2); [done|..|done];
    intros j Hj; (destruct (queue_mem j) as (_ & Hne & Hv & Hr); [tauto|]).
  - rewrite unlinked_previous by (auto; lia). rewrite decide_False; [done|].
    intros [Hne' ->]. rewrite En in *. destruct (first_or_cases kInvalid q2); [done|].
    by apply (Hd _ Hj).
  - rewrite unlinked_next by (auto; lia). rewrite decide_False; [done|].
    intros [Hne' ->]. rewrite Ep in *. destruct (last_or_cases kInvalid q1) as [|Hm]; [done|].
    by apply (Hd _ Hm).
  - rewrite unlinked_next by (auto; lia). rewrite Ep, En.
    destruct (decide (j = last_or kInvalid q1)) as [E|E].
    + by rewrite decide_True by (split; congruence).
    + by rewrite decide_False by tauto.
  - rewrite unlinked_previous by (auto; lia). rewrite Ep, En.
    destruct (decide (j = first_or kInvalid q2)) as [E|E].
    + by rewrite decide_True by (split; congruence).
    + by rewrite decide_False by tauto.
Qed.

Lemma unlinked_level_ok :
  level_ok (unlinked_nodes b i) (levels (unlink_links b i) s).[lv] (q1 ++ q2).
Proof.
  pose proof unlink_previous_range as Hp. pose proof unlink_next_range as Hn.
  destruct (q_in _ _ Hok _ _ _ Hin) as (Hi & _). destruct unlink_place as (Es & El & Ep & En). rewrite <- Es, <- El.
  rewrite unlink_links_levels by (rewrite ?Es, ?El, ?(q_levels _ _ Hok); auto).
  rewrite aget_aset_eq by (rewrite ?Es, ?El, ?(q_levels _ _ Hok); auto).
  rewrite Es, El, Ep, En. destruct (q_level _ _ Hok s lv Hlv) as [Hh Ht _ Htot].
  rewrite Hq in Hh, Ht, Htot.
  assert (forall j, remaining (unlinked_nodes b i).[j] = remaining (_nodes b).[j]) as Hrem.
  { intros j. apply (strip_fields _ _ (unlinked_payload b i j)). }
  constructor; cbn [head tail total_quantity].
  - rewrite Hh, !first_or_app. destruct (decide (q1 = [])) as [->|Hne]; [by rewrite Z.eqb_refl|].
    destruct (Z.eqb_spec (last_or kInvalid q1) kInvalid) as [E|E].
    + exfalso. revert E. apply queue_mem. left. by apply last_or_elem.
    + by apply first_or_irrel.
  - rewrite Ht, !last_or_app. destruct (decide (q2 = [])) as [->|Hne]; [by rewrite Z.eqb_refl|].
    destruct (Z.eqb_spec (first_or kInvalid q2) kInvalid) as [E|E].
    + exfalso. revert E. apply queue_mem. right. by apply first_or_elem.
    + cbn [last_or]. by apply last_or_irrel.
  - apply unlinked_links.
  - rewrite (sum_remaining_ext (_nodes b)) by auto. rewrite Htot, !sum_remaining_app. simpl.
    rewrite wrap_sub_l. f_equal. unfold node. lia.
Qed.

Lemma drop_node_at : drop_node Q i s lv = q1 ++ q2.
Proof. unfold drop_node. rewrite Hq. by apply without_mid. Qed.

Lemma drop_node_elsewhere s' lv' : (s', lv') <> (s, lv) -> drop_node Q i s' lv' = Q s' lv'.
Proof.
  intros Hne. apply without_id. intros Hi'. apply (q_in _ _ Hok) in Hi' as (_ & ? & ?).
  destruct (q_in _ _ Hok _ _ _ Hin) as (_ & ? & ?). apply Hne. congruence.
Qed.

Lemma unlinked_elsewhere s' lv' j :
  (s', lv') <> (s, lv) -> j ∈ Q s' lv' -> (unlinked_nodes b i).[j] = node b j.
Proof.
  intros Hne Hj. destruct (q_in _ _ Hok _ _ _ Hj) as (Hr & Esj & Elj).
  assert (forall k, k ∈ Q s lv -> j <> k) as Hnj.
  { intros k Hk ->. apply (q_in _ _ Hok) in Hk as (_ & ? & ?). apply Hne. congruence. }
  pose proof unlink_previous_range as Hp. pose proof unlink_next_range as Hn.
  destruct (q_in _ _ Hok _ _ _ Hin) as (Hi & _). destruct unlink_place as (_ & _ & Ep & En).
  apply unlinked_same; auto; [lia|..]; intros Hv; apply Hnj, queue_mem.
  - left. rewrite Ep in *. by destruct (last_or_cases kInvalid q1).
  - right. rewrite En in *. by destruct (first_or_cases kInvalid q2).
Qed.

Lemma unlink_occ_ok :
  occ_ok s (_level_count b) (bitmap (unlink b i) s) (best (unlink b i) s)
    (fun x => nonempty (drop_node Q i s x)).
Proof.
  destruct unlink_place as (Es & El & _). pose proof unlinked_level_ok as Hlevel.
  destruct (unlink_links_occupancy b i s) as (Hb & Hs & Hc).
  assert (occ_ok s (_level_count b) (bitmap (unlink_links b i) s) (best (unlink_links b i) s)
    (fun x => nonempty (Q s x))) as Hocc by (rewrite Hb, Hs; apply Hok).
  rewrite unlink_clear_occupied. cbn zeta. rewrite Es, El, (level_head _ _ _ Hlevel).
  destruct (Z.eqb_spec (first_or kInvalid (q1 ++ q2)) kInvalid) as [E|E].
  - assert (q1 ++ q2 = []) as Hnil.
    { destruct (decide (q1 ++ q2 = [])) as [|Hne]; [done|exfalso].
      apply (first_or_elem kInvalid) in Hne. rewrite E, elem_of_app in Hne.
      by apply queue_mem in Hne as (_ & _ & ? & _). }
    eapply (occ_ok_ext _ _ _ _ (fun x => negb (x =? lv) && nonempty (Q s x))).
    + intros x. destruct (Z.eqb_spec x lv) as [->|Hne]; [by rewrite drop_node_at, Hnil|].
      by rewrite drop_node_elsewhere by congruence.
    + rewrite <- Hc. apply clear_occupied_ok; by rewrite Hc.
  - eapply (occ_ok_ext _ _ _ _ (fun x => nonempty (Q s x))); [|done].
    intros x. destruct (decide (x = lv)) as [->|Hne].
    + rewrite drop_node_at, Hq. by destruct q1, q2.
    + by rewrite drop_node_elsewhere by congruence.
Qed.
End unlink_ok.

(** What [unlink] does to the queues and to the nodes. *)
Lemma unlink_ok b Q s lv i :
  queues_ok b Q -> i ∈ Q s lv ->
  queues_ok (unlink b i) (drop_node Q i) /\ same_payload b (unlink b i) /\
  next (node (unlink b i) i) = kInvalid.
Proof.
  intros Hok Hin. pose proof (q_in _ _ Hok _ _ _ Hin) as (Hi & Es & El).
  apply list_elem_of_split in Hin as Hsplit. destruct Hsplit as (q1 & q2 & Hq).
  pose proof (unlink_previous_range b Q i lv s q1 q2 Hok Hq) as Hp.
  pose proof (unlink_next_range b Q i lv s q1 q2 Hok Hq) as Hn.
  pose proof (queues_ok_range b Q s lv i Hok Hin) as Hlv.
  pose proof (unlink_links_nodes b i Hi Hp) as Hnodes.
  pose proof (unlinked_level_ok b Q i lv s q1 q2 Hok Hq) as Hlevel.
  pose proof (drop_node_at b Q i lv s q1 q2 Hok Hq) as Hdrop.
  assert (_nodes (unlink b i) = unlinked_nodes b i) as Hnodes'.
  { rewrite unlink_clear_occupied. cbn zeta. case_match; rewrite ?nodes_clear_occupied; done. }
  assert (forall s', levels (unlink b i) s' = levels (unlink_links b i) s') as Hlevels.
  { intros s'. rewrite unlink_clear_occupied. cbn zeta.
    case_match; rewrite ?levels_clear_occupied; done. }
  assert (forall j, strip (unlinked_nodes b i).[j] = strip (node b j)) as Hpay
    by apply unlinked_payload.
  assert (same_payload b (unlink b i)) as Hpayload.
  { intros j. unfold node at 1. rewrite Hnodes'. apply Hpay. }
  split_and!; [|done|].
  2:{ unfold node. rewrite Hnodes'. by apply unlinked_at. }
  apply (queues_ok_change b _ Q _ Hok) with s lv.
  - apply (frame_count _ _ (frame_unlink b i)).
  - rewrite Hnodes'. unfold unlinked_nodes. cbn zeta.
    repeat case_match; by autorewrite with arr.
  - by apply (drop_node_elsewhere b Q i lv s q1 q2).
  - intros s'. rewrite Hlevels. destruct (decide (s' = s)) as [->|Hne].
    + rewrite <- Es. rewrite unlink_links_levels by (rewrite ?Es, ?El, ?(q_levels _ _ Hok); auto).
      by autorewrite with arr.
    + by rewrite unlink_links_other by congruence.
  - intros s' lv' Hne Hr. rewrite Hlevels. destruct (decide (s' = s)) as [->|Hs].
    + rewrite <- Es. rewrite unlink_links_levels by (rewrite ?Es, ?El, ?(q_levels _ _ Hok); auto).
      rewrite aget_aset_ne; [done|lia|lia|congruence].
    + by rewrite unlink_links_other by congruence.
  - intros s' lv' j Hne Hj. unfold node at 1. rewrite Hnodes'.
    by apply (unlinked_elsewhere b Q i lv s q1 q2 Hok Hq s' lv').
  - intros s' Hne. destruct (unlink_links_occupancy b i s') as (Hb & Hs & _).
    rewrite unlink_clear_occupied. cbn zeta. case_match; [|done].
    destruct (clear_occupied_other (unlink_links b i) (side (node b i)) (level (node b i)) s')
      as [-> ->]; [congruence|done].
  - by apply (unlink_occ_ok b Q i lv s q1 q2).
  - rewrite Hdrop. pose proof (q_nodup _ _ Hok s lv) as Hnd. rewrite Hq in Hnd.
    apply NoDup_app in Hnd as (? & Hd & [_ ?]%NoDup_cons). apply NoDup_app. split_and!; auto.
    intros j Hj Hj2. apply (Hd j Hj). by right.
  - intros j. rewrite Hdrop. intros Hj.
    pose proof (strip_fields _ _ (Hpayload j)) as (_ & _ & _ & _ & -> & -> & _).
    apply (q_in _ _ Hok s lv). rewrite Hq. set_solver.
  - by rewrite Hdrop, Hnodes', Hlevels.
Qed.
