(* ===== verification/DenseFeed.v ===== *)
(** * The dense book refines the list of resting orders

    [represents b m]: the pool, free list, index, level queues and bitmaps of
    [b] hold exactly the resting orders [m], oldest first.  Construction
    establishes it and every direct market-data operation ([feed_add],
    [feed_reduce], [feed_delete], [feed_replace]) acts as its counterpart of
    [BookSpec]. *)

From S2P Require Import Prelude OpenAddressing OrderIndex BookTypes DenseBook Bitmap.
From S2P Require Import LinkedQueue BookFacts DenseQueues.
Import DensePriceOrderBook.

(** ** The invariant *)

(** The free list, threaded through [free_next]. *)
Abbreviation free_chain := (LinkedQueue.free_chain free_next kInvalid).

Record pool_ok (b : t) (used : list Z) : Prop := {
  pool_free : exists fl, free_chain (_nodes b) (_free b) fl /\
    used ++ fl ≡ₚ seqZ 0 (alen (_nodes b));
  pool_active : _active b = Z.of_nat (length used);
  pool_bound : alen (_nodes b) <= kInvalid
}.

Record index_ok (b : t) (used : list Z) : Prop := {
  index_wf : FixedOrderIndex.wf (_index b);
  index_room : alen (_nodes b) + 1 < FixedOrderIndex._capacity (_index b);
  index_view : forall k i,
    FixedOrderIndex.view (_index b) !! k = Some i <-> i ∈ used /\ id (node b i) = k;
  index_ids : forall i, i ∈ used -> valid_id (id (node b i)) = true
}.

Definition order_ok (b : t) (n : Node) : Prop :=
  0 <= remaining n < 2 ^ 64 /\ price_index b (price n) = Some (level n) /\ price n < 2 ^ 63.

Definition queues_of (b : t) (l : list Z) : Side -> Z -> list Z :=
  fun s lv => filter (fun i => side (node b i) = s /\ level (node b i) = lv) l.

(** [l] are the resting nodes, oldest first; [x] the nodes in hand. *)
Record core_ok (b : t) (l x : list Z) : Prop := {
  core_queues : queues_ok b (queues_of b l);
  core_pool : pool_ok b (l ++ x);
  core_index : index_ok b (l ++ x);
  core_orders : forall i, i ∈ l -> order_ok b (node b i);
  core_geometry : 0 <= _minimum_price b /\ _order_capacity b = alen (_nodes b)
}.

Definition live (b : t) (l : list Z) : Prop := forall i, i ∈ l -> 0 < remaining (node b i).

Definition resting (b : t) (i : Z) : Resting :=
  mkResting (id (node b i)) (side (node b i)) (price (node b i)) (remaining (node b i)).

Definition orders (b : t) (l : list Z) : list Resting := map (resting b) l.

Definition represents (b : t) (m : list Resting) : Prop :=
  exists l, core_ok b l [] /\ live b l /\ orders b l = m.

(** ** Facts the invariant gives *)

Section facts.
Context (b : t) (l x : list Z).
Hypothesis Hok : core_ok b l x.

Lemma used_nodup : NoDup (l ++ x).
Proof.
  destruct (pool_free _ _ (core_pool _ _ _ Hok)) as (fl & _ & Hperm).
  assert (NoDup ((l ++ x) ++ fl)) as Hnd by (rewrite Hperm; apply NoDup_seqZ).
  by apply NoDup_app in Hnd as [? _].
Qed.

Lemma used_range i : i ∈ l ++ x -> 0 <= i < alen (_nodes b).
Proof.
  intros Hi. destruct (pool_free _ _ (core_pool _ _ _ Hok)) as (fl & _ & Hperm).
  assert (i ∈ seqZ 0 (alen (_nodes b))) as Hs.
  { rewrite <- Hperm. apply elem_of_app. by left. }
  apply elem_of_seqZ in Hs. lia.
Qed.

Lemma used_valid i : i ∈ l ++ x -> i <> kInvalid.
Proof.
  intros Hi%used_range. pose proof (pool_bound _ _ (core_pool _ _ _ Hok)). lia.
Qed.

Lemma resting_range i : i ∈ l -> 0 <= i < alen (_nodes b).
Proof. intros. apply used_range, elem_of_app. by left. Qed.

Lemma used_ids_inj i j :
  i ∈ l ++ x -> j ∈ l ++ x -> id (node b i) = id (node b j) -> i = j.
Proof.
  intros Hi Hj Hid. pose proof (index_view _ _ (core_index _ _ _ Hok)) as Hv.
  assert (FixedOrderIndex.view (_index b) !! id (node b i) = Some i) as Ei by (by apply Hv).
  assert (FixedOrderIndex.view (_index b) !! id (node b i) = Some j) as Ej by (by apply Hv).
  congruence.
Qed.

Lemma used_length : Z.of_nat (length (l ++ x)) <= alen (_nodes b).
Proof.
  destruct (pool_free _ _ (core_pool _ _ _ Hok)) as (fl & _ & Hperm).
  apply Permutation_length in Hperm. rewrite length_app, length_seqZ in Hperm.
  unfold alen in *. lia.
Qed.

Lemma index_size : Z.of_nat (size (FixedOrderIndex.view (_index b))) <= alen (_nodes b).
Proof.
  pose proof (index_view _ _ (core_index _ _ _ Hok)) as Hv.
  set (m := FixedOrderIndex.view (_index b)) in *.
  assert (NoDup (map snd (map_to_list m))) as Hnd.
  { apply NoDup_fmap_2_strong; [|apply NoDup_map_to_list].
    intros [k i] [k' i'] Hk Hk' Heq. simpl in Heq. subst i'.
    apply elem_of_map_to_list, Hv in Hk as [_ <-]. by apply elem_of_map_to_list, Hv in Hk' as [_ <-]. }
  assert (map snd (map_to_list m) ⊆+ l ++ x) as Hsub.
  { apply NoDup_submseteq; [done|]. intros i ([k i'] & -> & Hk)%list_elem_of_fmap.
    by apply elem_of_map_to_list, Hv in Hk as [? _]. }
  apply submseteq_length in Hsub. rewrite length_map in Hsub.
  rewrite length_map_to_list in Hsub. pose proof used_length. lia.
Qed.

Lemma queues_of_elem s lv i :
  i ∈ queues_of b l s lv <-> i ∈ l /\ side (node b i) = s /\ level (node b i) = lv.
Proof. unfold queues_of. rewrite list_elem_of_filter. tauto. Qed.

Lemma resting_in_queue i : i ∈ l -> i ∈ queues_of b l (side (node b i)) (level (node b i)).
Proof. intros. by apply queues_of_elem. Qed.

(** The index finds exactly the used nodes. *)
Lemma find_used k :
  k <> u64_max ->
  (FixedOrderIndex.find (_index b) k = kInvalid /\ forall i, i ∈ l ++ x -> id (node b i) <> k) \/
  (FixedOrderIndex.find (_index b) k ∈ l ++ x /\
   FixedOrderIndex.find (_index b) k <> kInvalid /\
   id (node b (FixedOrderIndex.find (_index b) k)) = k).
Proof.
  intros Hk. pose proof (index_view _ _ (core_index _ _ _ Hok) k) as Hv.
  rewrite (FixedOrderIndex.index_find_spec _ _ (index_wf _ _ (core_index _ _ _ Hok)) Hk).
  destruct (FixedOrderIndex.view (_index b) !! k) as [i|]; simpl.
  - right. destruct (Hv i) as [[Hi Hid] _]; [done|]. split_and!; auto. by apply used_valid.
  - left. split; [done|]. intros i Hi Hid. destruct (Hv i) as [_ Hs]. by discriminate Hs.
Qed.

End facts.

(** ** Each part depends on few fields *)

Lemma pool_ok_ext b b' used used' :
  _free b' = _free b -> _active b' = _active b -> alen (_nodes b') = alen (_nodes b) ->
  used ≡ₚ used' ->
  (forall i, i ∉ used -> free_next (node b' i) = free_next (node b i)) ->
  pool_ok b used -> pool_ok b' used'.
Proof.
  intros Hf Ha Hl Hu Hfn [(fl & Hc & Hp) Hact Hb]. constructor.
  - exists fl. rewrite Hf, Hl, <- Hu. split; [|done]. apply (free_chain_ext free_next kInvalid (_nodes b)); [|done].
    intros i Hi. apply Hfn. intros Hi'.
    assert (NoDup (used ++ fl)) as Hnd by (rewrite Hp; apply NoDup_seqZ).
    apply NoDup_app in Hnd as (_ & Hd & _). by apply (Hd i).
  - by rewrite Ha, Hact, Hu.
  - by rewrite Hl.
Qed.

Lemma index_ok_ext b b' used used' :
  _index b' = _index b -> alen (_nodes b') = alen (_nodes b) -> used ≡ₚ used' ->
  (forall i, i ∈ used -> id (node b' i) = id (node b i)) ->
  index_ok b used -> index_ok b' used'.
Proof.
  intros Hix Hl Hu Hid []. constructor; rewrite ?Hix, ?Hl; auto.
  - intros k i. rewrite index_view0, <- Hu. split; intros [Hi Hk]; split; auto.
    + by rewrite Hid.
    + by rewrite <- Hid.
  - intros i. rewrite <- Hu. intros Hi. rewrite Hid by done. auto.
Qed.

Lemma price_index_ext b b' p : frame b b' -> price_index b' p = price_index b p.
Proof.
  intros Hf. unfold price_index.
  by rewrite (frame_tick _ _ Hf), (frame_minimum _ _ Hf), (frame_count _ _ Hf).
Qed.

Lemma queues_of_ext b b' l s lv :
  (forall i, i ∈ l -> side (node b' i) = side (node b i) /\ level (node b' i) = level (node b i)) ->
  queues_of b' l s lv = queues_of b l s lv.
Proof.
  intros He. unfold queues_of. induction l as [|i l IH]; [done|].
  destruct (He i) as [Hs Hl]; [by left|]. rewrite !filter_cons, Hs, Hl.
  rewrite IH by (intros; apply He; by right). done.
Qed.

Lemma orders_ext b b' l :
  (forall i, i ∈ l -> id (node b' i) = id (node b i) /\ side (node b' i) = side (node b i) /\
    price (node b' i) = price (node b i) /\ remaining (node b' i) = remaining (node b i)) ->
  orders b' l = orders b l.
Proof.
  intros He. apply map_ext_in. intros i Hi%list_elem_of_In. unfold resting.
  by destruct (He i Hi) as (-> & -> & -> & ->).
Qed.

(** ** Prices and levels *)

Lemma price_index_range b p lv :
  0 <= _level_count b <= 2 ^ 32 - 64 -> price_index b p = Some lv -> 0 <= lv < _level_count b.
Proof.
  intros Hc. unfold price_index. cbn zeta.
  destruct (orb _ _); [done|]. set (o := if _tick_size b =? 1 then _ else _).
  assert (forall y, o = Some y -> 0 <= y) as Ho.
  { intros y. unfold o. repeat case_match; intros; simplify_eq; apply (wrap_bounds 64); lia. }
  destruct o as [y|]; [|done]. specialize (Ho y eq_refl).
  destruct (Z.leb_spec (_level_count b) y); [done|]. intros [= <-]. rewrite wrap_small; lia.
Qed.

(** The grid: level [lv] holds price [minimum + lv * tick]. *)
Lemma price_index_spec b p lv :
  0 <= _level_count b <= 2 ^ 32 - 64 -> p - _minimum_price b < 2 ^ 64 ->
  price_index b p = Some lv <->
    0 < _tick_size b /\ 0 <= lv < _level_count b /\ p = level_price b lv.
Proof.
  intros Hc Hd. unfold price_index, level_price. cbn zeta.
  destruct (Z.leb_spec (_tick_size b) 0); [split; [done|lia]|].
  destruct (Z.ltb_spec p (_minimum_price b)); [split; [done|nia]|]. cbn [orb].
  set (d := p - _minimum_price b) in *.
  assert ((if _tick_size b =? 1 then Some (u64 d) else
      if negb (Z.rem d (_tick_size b) =? 0) then None else Some (u64 (Z.quot d (_tick_size b)))) =
    if d mod _tick_size b =? 0 then Some (d / _tick_size b) else None) as ->.
  { rewrite Z.rem_mod_nonneg, Z.quot_div_nonneg by lia.
    assert (0 <= d / _tick_size b <= d) by (split; [apply Z.div_pos; lia|];
      apply Z.div_le_upper_bound; nia).
    destruct (Z.eqb_spec (_tick_size b) 1) as [->|].
    - rewrite Z.mod_1_r, Z.div_1_r, wrap_small by lia. done.
    - rewrite wrap_small by lia. by destruct (d mod _tick_size b =? 0). }
  pose proof (Z.div_mod d (_tick_size b)).
  destruct (Z.eqb_spec (d mod _tick_size b) 0) as [E|E]; cycle 1.
  { split; [done|]. intros (_ & _ & Hp). contradict E.
    replace d with (lv * _tick_size b) by lia. apply Z.mod_mul. lia. }
  assert (0 <= d / _tick_size b) by (apply Z.div_pos; lia).
  destruct (Z.leb_spec (_level_count b) (d / _tick_size b)).
  - split; [done|]. intros (_ & ? & ?). assert (d = lv * _tick_size b) as Ed by lia.
    rewrite Ed, Z.div_mul in * by lia. lia.
  - rewrite wrap_small by lia. split.
    + intros [= <-]. split_and!; lia.
    + intros (_ & ? & ?). f_equal. assert (d = lv * _tick_size b) as -> by lia.
      apply Z.div_mul. lia.
Qed.

(** ** Moving a node between the queues and the hand *)

Lemma payload_fields b b' i :
  same_payload b b' ->
  id (node b' i) = id (node b i) /\ price (node b' i) = price (node b i) /\
  remaining (node b' i) = remaining (node b i) /\
  free_next (node b' i) = free_next (node b i) /\ level (node b' i) = level (node b i) /\
  side (node b' i) = side (node b i) /\ state (node b' i) = state (node b i).
Proof. intros Hp. by apply strip_fields. Qed.

Lemma orders_payload b b' l : same_payload b b' -> orders b' l = orders b l.
Proof.
  intros Hp. apply orders_ext. intros i _.
  by destruct (payload_fields b b' i Hp) as (-> & -> & -> & _ & _ & -> & _).
Qed.

Lemma live_payload b b' l l' : same_payload b b' -> l' ⊆ l -> live b l -> live b' l'.
Proof.
  intros Hp Hs Hl i Hi. destruct (payload_fields b b' i Hp) as (_ & _ & -> & _). by apply Hl, Hs.
Qed.

Lemma alen_append b i lv : alen (_nodes (append b i lv)) = alen (_nodes b).
Proof.
  rewrite append_set_occupied, nodes_set_occupied, append_links_nodes. cbn zeta.
  case_match; by autorewrite with arr.
Qed.

Lemma alen_unlink b i : alen (_nodes (unlink b i)) = alen (_nodes b).
Proof.
  rewrite unlink_clear_occupied. cbn zeta.
  case_match; rewrite ?nodes_clear_occupied; unfold unlink_links; cbn zeta;
    repeat case_match; autorewrite with book arr; done.
Qed.

Lemma core_payload b b' l x l' x' :
  core_ok b l x -> frame b b' -> same_payload b b' -> alen (_nodes b') = alen (_nodes b) ->
  l ++ x ≡ₚ l' ++ x' -> queues_ok b' (queues_of b' l') ->
  (forall i, i ∈ l' -> order_ok b (node b i)) -> core_ok b' l' x'.
Proof.
  intros Hok Hf Hp Hl Hperm Hq Ho. constructor; auto.
  - apply (pool_ok_ext b _ (l ++ x)); [apply Hf|apply Hf|done|done| |apply Hok].
    intros i _. apply (payload_fields _ _ i Hp).
  - apply (index_ok_ext b _ (l ++ x)); [apply Hf|done|done| |apply Hok].
    intros i _. apply (payload_fields _ _ i Hp).
  - intros i Hi. unfold order_ok. rewrite (price_index_ext b) by done.
    destruct (payload_fields _ _ i Hp) as (_ & -> & -> & _ & -> & _). by apply Ho.
  - rewrite (frame_minimum _ _ Hf), (frame_capacity _ _ Hf), Hl. apply Hok.
Qed.

Lemma queues_ok_ext b Q Q' : (forall s lv, Q' s lv = Q s lv) -> queues_ok b Q -> queues_ok b Q'.
Proof. intros He Hok. by apply (queues_ok_same b b Q Q' Hok). Qed.

Lemma queues_of_without b l i s lv :
  queues_of b (without i l) s lv = drop_node (queues_of b l) i s lv.
Proof.
  unfold queues_of, drop_node, without. rewrite !list_filter_filter.
  apply list_filter_iff. tauto.
Qed.

Lemma queues_of_snoc b l i s lv :
  queues_of b (l ++ [i]) s lv = push (queues_of b l) (side (node b i)) (level (node b i)) i s lv.
Proof.
  unfold queues_of, push. rewrite filter_app. case_decide as Hd.
  - simplify_eq. by rewrite filter_cons_True, filter_nil.
  - rewrite filter_cons_False by (intros [??]; congruence). by rewrite filter_nil, app_nil_r.
Qed.

Section moves.
Context (b : t) (l x : list Z) (i : Z).

Lemma unlink_queues :
  queues_ok b (queues_of b l) -> i ∈ l ->
  queues_ok (unlink b i) (queues_of (unlink b i) (without i l)) /\
  same_payload b (unlink b i) /\ next (node (unlink b i) i) = kInvalid.
Proof.
  intros Hok Hi. destruct (unlink_ok b _ _ _ i Hok (resting_in_queue b l i Hi)) as (Hq & Hp & Hn).
  split_and!; [|done|done].
  apply (queues_ok_ext _ (drop_node (queues_of b l) i)); [|done]. intros s lv.
  rewrite (queues_of_ext b) by (intros j _; by destruct (payload_fields _ _ j Hp) as
    (_ & _ & _ & _ & -> & -> & _)).
  apply queues_of_without.
Qed.

Lemma unlink_core :
  core_ok b l x -> i ∈ l -> core_ok (unlink b i) (without i l) (i :: x).
Proof.
  intros Hok Hi. destruct (unlink_queues (core_queues _ _ _ Hok) Hi) as (Hq & Hp & _).
  pose proof (used_nodup _ _ _ Hok) as Hnd.
  apply (core_payload b _ l x); auto using frame_unlink, alen_unlink.
  - rewrite (without_perm i l) at 1; [by rewrite <- app_assoc| |done].
    by apply NoDup_app in Hnd as [? _].
  - intros j [_ Hj]%elem_without. by apply Hok.
Qed.

Lemma append_core :
  core_ok b l [i] -> order_ok b (node b i) -> next (node b i) = kInvalid ->
  core_ok (append b i (level (node b i))) (l ++ [i]) [].
Proof.
  intros Hok Ho Hn. pose proof (used_nodup _ _ _ Hok) as Hnd.
  apply NoDup_app in Hnd as (_ & Hd & _).
  assert (0 <= level (node b i) < _level_count b) as Hlv.
  { apply (price_index_range b (price (node b i))); [|apply Ho].
    apply (occ_count _ _ _ _ _ (q_occ _ _ (core_queues _ _ _ Hok) Buy)). }
  destruct (append_ok b (queues_of b l) i (level (node b i))) as (Hq & Hp);
    [apply Hok|apply (used_range _ _ _ Hok); set_solver|done| |done|done|].
  { intros s lv [Hil _]%queues_of_elem. apply (Hd i Hil). by left. }
  apply (core_payload b _ l [i]); auto using frame_append, alen_append.
  - by rewrite app_nil_r.
  - apply (queues_ok_ext _ (push (queues_of b l) (side (node b i)) (level (node b i)) i)); [|done].
    intros s lv. rewrite (queues_of_ext b) by (intros j _; by destruct (payload_fields _ _ j Hp) as
      (_ & _ & _ & _ & -> & -> & _)).
    apply queues_of_snoc.
  - intros j [Hj|Hj]%elem_of_app; [by apply Hok|]. apply list_elem_of_singleton in Hj. by subst.
Qed.
End moves.

(** ** Taking a node from the pool and giving it back *)

(** A change outside the level queues. *)
Record same_levels (b b' : t) : Prop := {
  same_geometry : _order_capacity b' = _order_capacity b /\
    _minimum_price b' = _minimum_price b /\ _tick_size b' = _tick_size b /\
    _level_count b' = _level_count b;
  same_pool : alen (_nodes b') = alen (_nodes b);
  same_sides : forall s, levels b' s = levels b s /\ bitmap b' s = bitmap b s /\ best b' s = best b s
}.

Lemma same_levels_trans a b c : same_levels a b -> same_levels b c -> same_levels a c.
Proof.
  intros [(G1 & G2 & G3 & G4) P S] [(G1' & G2' & G3' & G4') P' S'].
  constructor; [split_and!; congruence|congruence|].
  intros s. destruct (S s) as (<- & <- & <-). apply S'.
Qed.

Lemma same_levels_node b i f : same_levels b (upd_node b i f).
Proof.
  constructor; [done|unfold upd_node; updates; simpl; by rewrite alen_aset|]. by intros [].
Qed.

Lemma same_levels_price_index b b' p : same_levels b b' -> price_index b' p = price_index b p.
Proof. intros [(_ & Hm & Ht & Hc) _ _]. unfold price_index. by rewrite Hm, Ht, Hc. Qed.

Lemma same_levels_queues b b' l :
  same_levels b b' -> (forall i, i ∈ l -> node b' i = node b i) ->
  queues_ok b (queues_of b l) -> queues_ok b' (queues_of b' l).
Proof.
  intros [(_ & _ & _ & Hc) Hp Hs] Hn Hok.
  apply (queues_ok_same b b' _ _ Hok Hc Hp); [|done|].
  - intros s lv. apply queues_of_ext. intros i Hi. by rewrite Hn.
  - intros s lv i [Hi _]%queues_of_elem. auto.
Qed.

Lemma node_upd_node b i j f :
  0 <= i < alen (_nodes b) -> 0 <= j ->
  node (upd_node b i f) j = if decide (j = i) then f (node b i) else node b j.
Proof.
  intros Hi Hj. unfold node. rewrite nodes_upd_node, aget_update by done.
  case_decide; [by subst|done].
Qed.

Lemma orders_same b b' l : (forall i, i ∈ l -> node b' i = node b i) -> orders b' l = orders b l.
Proof. intros Hn. apply orders_ext. intros i Hi. by rewrite Hn. Qed.

Lemma allocate_spec b l :
  core_ok b l [] ->
  (allocate b = (b, kInvalid) /\ Z.of_nat (length l) = _order_capacity b) \/
  exists b' i, allocate b = (b', i) /\ Z.of_nat (length l) < _order_capacity b /\
    0 <= i < alen (_nodes b) /\ i <> kInvalid /\ (i ∉ l) /\ node b' i = empty_node /\
    (forall j, 0 <= j -> j <> i -> node b' j = node b j) /\
    pool_ok b' (l ++ [i]) /\ same_levels b b' /\ _index b' = _index b.
Proof.
  intros Hok. destruct (core_pool _ _ _ Hok) as [(fl & Hc & Hp) Ha Hb].
  rewrite app_nil_r in *. rewrite (proj2 (core_geometry _ _ _ Hok)).
  apply Permutation_length in Hp as Hlen. rewrite length_app, length_seqZ in Hlen.
  unfold allocate. destruct fl as [|i fl]; simpl in Hc, Hlen.
  - left. rewrite Hc, Z.eqb_refl. split; [done|]. unfold alen in *. lia.
  - right. destruct Hc as [-> Hc].
    assert (NoDup (l ++ i :: fl)) as Hnd by (rewrite Hp; apply NoDup_seqZ).
    apply NoDup_app in Hnd as (_ & Hd & [Hil Hnf]%NoDup_cons).
    assert (i ∈ seqZ 0 (alen (_nodes b))) as Hi%elem_of_seqZ by (rewrite <- Hp; set_solver).
    destruct (Z.eqb_spec i kInvalid); [lia|].
    eexists _, i. split; [done|].
    assert (forall j, 0 <= j -> node (upd_node (b <| _free := free_next (node b i) |>) i
      (fun _ => empty_node)) j = if decide (j = i) then empty_node else node b j) as Hn.
    { intros j Hj. by rewrite node_upd_node by (updates; simpl; lia). }
    split_and!; [unfold alen in *; lia|lia|lia|done| |..].
    + intros Hl. apply (Hd i Hl). by left.
    + specialize (Hn i ltac:(lia)). by rewrite decide_True in Hn.
    + intros j Hj Hne. specialize (Hn j Hj). by rewrite decide_False in Hn.
    + constructor; updates; simpl.
      * exists fl. rewrite alen_aset. split.
        -- apply (free_chain_ext free_next kInvalid (_nodes b)); [|done]. intros j Hj.
           assert (j ∈ seqZ 0 (alen (_nodes b))) as Hr%elem_of_seqZ by (rewrite <- Hp; set_solver).
           rewrite aget_aset_ne; [done|lia|lia|]. by intros ->.
        -- rewrite <- Hp. by rewrite <- app_assoc.
      * rewrite Ha. unfold incr. rewrite wrap_small; rewrite ?length_app; simpl; [lia|].
        unfold alen, kInvalid in *. lia.
      * by rewrite alen_aset.
    + constructor; [done|updates; simpl; by rewrite alen_aset|by intros []].
    + done.
Qed.

Lemma valid_id_spec k : valid_id k = true <-> k <> 0 /\ k <> u64_max.
Proof.
  unfold valid_id. destruct (Z.eqb_spec k 0), (Z.eqb_spec k u64_max); simpl; split; try done; tauto.
Qed.

(** The node an accepted request fills. *)
Definition fill (k : Z) (s : Side) (p q lv : Z) (n : Node) : Node :=
  n <| id := k |> <| side := s |> <| price := p |> <| remaining := q |> <| state := New |>
    <| level := lv |>.

Definition filled (k : Z) (s : Side) (p q lv : Z) : Node :=
  mkNode k p q kInvalid kInvalid kInvalid lv s New.

Section enter.
Context (b b1 : t) (l : list Z) (i k : Z) (s : Side) (p q lv : Z).
Hypothesis Hok : core_ok b l [].
Hypothesis Hk : valid_id k = true.
Hypothesis Hnew : FixedOrderIndex.find (_index b) k = kInvalid.
Hypothesis Hrange : 0 <= i < alen (_nodes b).
Hypothesis Hil : i ∉ l.
Hypothesis Hfresh : node b1 i = empty_node.
Hypothesis Hothers : forall j, 0 <= j -> j <> i -> node b1 j = node b j.
Hypothesis Hpool : pool_ok b1 (l ++ [i]).
Hypothesis Hlevels : same_levels b b1.
Hypothesis Hindex : _index b1 = _index b.

Let view_new : FixedOrderIndex.view (_index b) !! k = None.
Proof.
  apply valid_id_spec in Hk as [_ Hm]. pose proof (core_index _ _ _ Hok) as Hix.
  rewrite FixedOrderIndex.index_find_spec in Hnew by (done || apply Hix).
  destruct (FixedOrderIndex.view (_index b) !! k) as [j|] eqn:E; [|done]. simpl in Hnew. subst j.
  apply (index_view _ _ Hix) in E as [Hi _]. by apply (used_valid _ _ _ Hok) in Hi.
Qed.

Let b2 : t := upd_node (b1 <| _index := (FixedOrderIndex.insert (_index b1) k i).1 |>) i
  (fill k s p q lv).

Let read j : 0 <= j -> node b2 j = if decide (j = i) then filled k s p q lv else node b j.
Proof.
  intros Hj. unfold b2. rewrite node_upd_node; [|by updates; simpl; rewrite (same_pool _ _ Hlevels)|done].
  case_decide as E; [|by apply Hothers]. change (node _ i) with (node b1 i). by rewrite Hfresh.
Qed.

Lemma enter_insert :
  (FixedOrderIndex.insert (_index b1) k i).2 = true /\
  FixedOrderIndex.wf (FixedOrderIndex.insert (_index b1) k i).1 /\
  FixedOrderIndex.view (FixedOrderIndex.insert (_index b1) k i).1 =
    <[k := i]> (FixedOrderIndex.view (_index b)) /\
  FixedOrderIndex._capacity (FixedOrderIndex.insert (_index b1) k i).1 =
    FixedOrderIndex._capacity (_index b).
Proof.
  pose proof (core_index _ _ _ Hok) as Hix. apply valid_id_spec in Hk as [H0 _]. rewrite Hindex.
  destruct (FixedOrderIndex.index_insert_wf_view (_index b) k i) as (? & ? & ? & ?);
    [apply Hix|done|apply view_new| |by split_and!].
  pose proof (index_size _ _ _ Hok). pose proof (index_room _ _ Hix). lia.
Qed.

Lemma enter_core :
  core_ok b2 l [i] /\ node b2 i = filled k s p q lv /\ same_levels b b2 /\
  orders b2 l = orders b l /\ (live b l -> live b2 l).
Proof.
  destruct enter_insert as (_ & Hwf & Hview & Hcap).
  assert (same_levels b b2) as Hsame.
  { eapply same_levels_trans; [apply Hlevels|]. unfold b2.
    eapply same_levels_trans; [|apply same_levels_node]. constructor; [done|done|by intros []]. }
  assert (forall j, j ∈ l -> node b2 j = node b j) as Hl.
  { intros j Hj. apply (resting_range _ _ _ Hok) in Hj as Hr. rewrite read by lia.
    rewrite decide_False; [done|]. by intros ->. }
  assert (node b2 i = filled k s p q lv) as Hi by (rewrite read by lia; by rewrite decide_True).
  split_and!; [|done|done|by apply orders_same|intros Hv j Hj; rewrite Hl by done; by apply Hv].
  constructor.
  - apply (same_levels_queues b); auto. apply Hok.
  - apply (pool_ok_ext b1 _ (l ++ [i])); auto; [unfold b2; updates; simpl; by rewrite alen_aset|].
    intros j Hj. unfold b2, node. rewrite nodes_upd_node.
    by apply (aget_update_field free_next _ i j (fill k s p q lv)).
  - pose proof (core_index _ _ _ Hok) as Hix. rewrite app_nil_r in Hix. constructor.
    + apply Hwf.
    + rewrite (same_pool _ _ Hsame). unfold b2. updates. simpl. rewrite Hcap. apply Hix.
    + intros k' j. change (_index b2) with (FixedOrderIndex.insert (_index b1) k i).1.
      rewrite Hview, lookup_insert_Some, (index_view _ _ Hix), elem_of_app, list_elem_of_singleton.
      split.
      * intros [[-> ->]|(Hne & Hj & <-)]; [rewrite Hi; by auto|]. rewrite Hl by done. by auto.
      * intros [[Hj| ->] Hid].
        -- rewrite Hl in Hid by done. right. split_and!; auto. intros <-.
           pose proof (proj2 (index_view _ _ Hix _ j) (conj Hj Hid)) as Hs.
           by rewrite view_new in Hs.
        -- left. rewrite Hi in Hid. by split.
    + intros j [Hj|Hj%list_elem_of_singleton]%elem_of_app; [|by rewrite Hj, Hi].
      rewrite Hl by done. by apply Hix.
  - intros j Hj. rewrite Hl by done. unfold order_ok.
    rewrite (same_levels_price_index b) by done. by apply Hok.
  - destruct (same_geometry _ _ Hsame) as (-> & -> & _). rewrite (same_pool _ _ Hsame). apply Hok.
Qed.
End enter.

Section release.
Context (b : t) (l x : list Z) (i : Z).
Hypothesis Hok : core_ok b l (i :: x).

Let perm : l ++ i :: x ≡ₚ i :: (l ++ x).
Proof. symmetry. apply Permutation_middle. Qed.

Let used_i : i ∈ l ++ i :: x.
Proof. rewrite perm. by left. Qed.

Let fresh_i : i ∉ l ++ x.
Proof.
  pose proof (used_nodup _ _ _ Hok) as Hnd. rewrite perm in Hnd. by apply NoDup_cons in Hnd as [? _].
Qed.

Let used_others j : j ∈ l ++ x -> j ∈ l ++ i :: x /\ j <> i.
Proof. intros Hj. split; [rewrite perm; by right|]. by intros ->. Qed.

Lemma release_same_levels : same_levels b (release b i).
Proof.
  constructor; [done| |by intros []].
  unfold release, release_without_index, upd_node. updates. simpl. by rewrite alen_aset.
Qed.

Lemma release_reads j : j ∈ l ++ x -> node (release b i) j = node b j.
Proof.
  intros [Hj Hne]%used_others. pose proof (used_range _ _ _ Hok i used_i).
  pose proof (used_range _ _ _ Hok j Hj).
  unfold release, release_without_index. unfold node at 1. updates. simpl.
  by rewrite aget_aset_ne by lia.
Qed.

Let release_reads_l j : j ∈ l -> node (release b i) j = node b j.
Proof. intros Hj. apply release_reads, elem_of_app. by left. Qed.

Lemma release_pool : pool_ok (release b i) (l ++ x).
Proof.
  pose proof (used_range _ _ _ Hok i used_i) as Hi.
  destruct (core_pool _ _ _ Hok) as [(fl & Hc & Hp) Ha Hb].
  assert (NoDup ((l ++ i :: x) ++ fl)) as Hnd by (rewrite Hp; apply NoDup_seqZ).
  apply NoDup_app in Hnd as (_ & Hd & _).
  constructor; rewrite ?(same_pool _ _ release_same_levels); [|..|done].
  - exists (i :: fl). split; [|by rewrite <- Hp, perm, <- Permutation_middle].
    unfold release, release_without_index, upd_node. updates. simpl. split; [done|].
    rewrite aget_aset_eq by done. cbn [free_next]. apply (free_chain_ext free_next kInvalid (_nodes b)); [|done].
    intros j Hj. assert (j <> i) by (intros ->; by apply (Hd i used_i)).
    assert (j ∈ seqZ 0 (alen (_nodes b))) as Hr%elem_of_seqZ.
    { rewrite <- Hp. apply elem_of_app. by right. }
    by rewrite aget_aset_ne by lia.
  - unfold release, release_without_index. updates. simpl. rewrite Ha, perm. simpl.
    apply Permutation_length in Hp. rewrite perm in Hp. simpl in Hp.
    rewrite !length_app, length_seqZ in Hp.
    rewrite wrap_small; unfold kInvalid, alen in *; rewrite ?length_app in *; lia.
Qed.

Lemma release_index : index_ok (release b i) (l ++ x).
Proof.
  pose proof (core_index _ _ _ Hok) as Hix.
  pose proof (index_ids _ _ Hix i used_i) as [Hk _]%valid_id_spec.
  destruct (FixedOrderIndex.index_erase_wf_view (_index b) (id (node b i)) (index_wf _ _ Hix) Hk)
    as (Hwf & Hview & Hcap & _).
  change (FixedOrderIndex.erase (_index b) (id (node b i))).1 with (_index (release b i)) in *.
  constructor.
  - apply Hwf.
  - rewrite (same_pool _ _ release_same_levels), Hcap. apply Hix.
  - intros k j. rewrite Hview, lookup_delete_Some, (index_view _ _ Hix), perm, elem_of_cons. split.
    + intros (Hne & [->|Hj] & <-); [done|]. by rewrite release_reads.
    + intros [Hj Hid]. rewrite release_reads in Hid by done. split_and!; auto.
      intros Heq. destruct (used_others j Hj) as [Hj' Hne]. apply Hne.
      apply (used_ids_inj _ _ _ Hok); [done|done|congruence].
  - intros j Hj. rewrite release_reads by done. by apply Hix, used_others.
Qed.

Lemma release_core : core_ok (release b i) l x.
Proof.
  pose proof release_same_levels as Hsame. constructor.
  - apply (same_levels_queues b); auto. apply Hok.
  - apply release_pool.
  - apply release_index.
  - intros j Hj. rewrite release_reads_l by done. unfold order_ok.
    rewrite (same_levels_price_index b) by done. by apply Hok.
  - destruct (same_geometry _ _ Hsame) as (-> & -> & _). rewrite (same_pool _ _ Hsame). apply Hok.
Qed.

Lemma release_orders : orders (release b i) l = orders b l /\ (live b l -> live (release b i) l).
Proof.
  split; [by apply orders_same|]. intros Hv j Hj. rewrite release_reads_l by done.
  by apply Hv.
Qed.
End release.

(** ** Relating the operations to [BookSpec] *)

Section spec.
Context (b : t) (l x : list Z).
Hypothesis Hok : core_ok b l x.

Let resting_inj i j :
  i ∈ l -> j ∈ l -> rest_id (resting b i) = rest_id (resting b j) -> i = j.
Proof. intros Hi Hj. apply (used_ids_inj _ _ _ Hok); apply elem_of_app; by left. Qed.

Lemma orders_without i :
  i ∈ l -> orders b (without i l) = BookSpec.remove (orders b l) (id (node b i)).
Proof. intros Hi. symmetry. by apply (remove_map (resting b)). Qed.

Lemma orders_lookup i : i ∈ l -> BookSpec.lookup (orders b l) (id (node b i)) = Some (resting b i).
Proof. by apply (lookup_map (resting b)). Qed.

Lemma orders_lookup_None k :
  (forall i, i ∈ l -> id (node b i) <> k) -> BookSpec.lookup (orders b l) k = None.
Proof. apply (lookup_map_none (resting b)). Qed.
End spec.

Lemma orders_snoc b l i : orders b (l ++ [i]) = orders b l ++ [resting b i].
Proof. apply map_app. Qed.

(** ** Reducing a resting order in place *)

Section reduce.
Context (b : t) (l x : list Z) (i q : Z).
Hypothesis Hok : core_ok b l x.
Hypothesis Hi : i ∈ l.
Hypothesis Hq : 0 <= q <= remaining (node b i).
Let s : Side := side (node b i).
Let lv : Z := level (node b i).

(** Both the order's and its level's quantity go down. *)
Definition reduced : t :=
  upd_level (upd_node b i (fun n => n <| remaining ::= fun r => u64 (r - q) |>)) s lv
    (fun l => l <| total_quantity ::= fun t => u64 (t - q) |>).

Let range : 0 <= i < alen (_nodes b) := resting_range _ _ _ Hok i Hi.

Lemma reduced_node j :
  0 <= j -> node reduced j =
    if decide (j = i) then (node b i) <| remaining := remaining (node b i) - q |> else node b j.
Proof.
  intros Hj. unfold reduced. unfold node at 1. rewrite nodes_upd_level.
  fold (node (upd_node b i (fun n => n <| remaining ::= fun r => u64 (r - q) |>)) j).
  rewrite node_upd_node by done. case_decide; [|done]. updates. f_equal.
  pose proof (core_orders _ _ _ Hok i Hi) as [Hr _]. apply wrap_small. lia.
Qed.

Let level_valid : 0 <= lv < _level_count b.
Proof.
  apply (queues_ok_range b (queues_of b l) s lv i); [apply Hok|]. by apply queues_of_elem.
Qed.

Lemma sum_remaining_reduced qs :
  NoDup qs -> i ∈ qs -> (forall j, j ∈ qs -> 0 <= j) ->
  sum_remaining (_nodes reduced) qs = sum_remaining (_nodes b) qs - q.
Proof.
  intros Hnd Hiq Hpos. apply list_elem_of_split in Hiq as (q1 & q2 & ->).
  apply NoDup_app in Hnd as (_ & Hd & [Hi2 _]%NoDup_cons).
  assert (forall j, 0 <= j -> j <> i -> remaining (_nodes reduced).[j] = remaining (_nodes b).[j])
    as Hne.
  { intros j Hj Hne. pose proof (reduced_node j Hj) as Hr. rewrite decide_False in Hr by done.
    unfold node in Hr. by rewrite Hr. }
  rewrite !sum_remaining_app. simpl.
  rewrite (sum_remaining_ext (_nodes b) (_nodes reduced) q1);
    [|intros j Hj; apply Hne; [apply Hpos; set_solver|];
      intros ->; apply (Hd i Hj); by left].
  rewrite (sum_remaining_ext (_nodes b) (_nodes reduced) q2);
    [|intros j Hj; apply Hne; [apply Hpos; set_solver|]; by intros ->].
  pose proof (reduced_node i ltac:(lia)) as Hr. rewrite decide_True in Hr by done.
  unfold node in Hr. rewrite Hr. updates. simpl. unfold node. lia.
Qed.

Lemma reduced_core : core_ok reduced l x /\ frame b reduced.
Proof.
  assert (frame b reduced) as Hf.
  { eapply frame_trans; [apply frame_upd_node|apply frame_upd_level]. }
  assert (alen (_nodes reduced) = alen (_nodes b)) as Hlen.
  { unfold reduced. rewrite nodes_upd_level, nodes_upd_node. apply alen_aset. }
  assert (forall j, level (node reduced j) = level (node b j) /\ side (node reduced j) = side (node b j) /\
    previous (node reduced j) = previous (node b j) /\ next (node reduced j) = next (node b j) /\
    id (node reduced j) = id (node b j) /\ free_next (node reduced j) = free_next (node b j) /\
    price (node reduced j) = price (node b j)) as Hfields.
  { intros j. unfold node, reduced. rewrite nodes_upd_level, nodes_upd_node.
    set (f := fun n : Node => n <| remaining ::= fun r => u64 (r - q) |>).
    split_and!; by apply (aget_update_field _ _ i j f). }
  split; [|done]. constructor.
  - pose proof (core_queues _ _ _ Hok) as Hqs.
    assert (forall s lv, queues_of reduced l s lv = queues_of b l s lv) as HQ.
    { intros s' lv'. apply queues_of_ext. intros j _. by destruct (Hfields j) as (-> & -> & _). }
    apply (queues_ok_ext _ (queues_of b l)); [done|].
    apply (queues_ok_change b reduced (queues_of b l) _ Hqs) with s lv; auto.
    + apply Hf.
    + intros s'. unfold reduced. rewrite levels_upd_level. case_decide; [subst|done].
      by rewrite levels_upd_node, alen_aset.
    + intros s' lv' Hne Hr. unfold reduced. rewrite levels_upd_level, levels_upd_node.
      case_decide; [subst s'|done]. rewrite aget_aset_ne; [done|lia|lia|congruence].
    + intros s' lv' j Hne (Hj & <- & <-)%queues_of_elem.
      rewrite reduced_node by (apply (resting_range _ _ _ Hok) in Hj; lia).
      rewrite decide_False; [done|]. by intros ->.
    + intros s' _. unfold reduced. by autorewrite with book.
    + unfold reduced. autorewrite with book. apply Hqs.
    + apply Hqs.
    + intros j Hj. destruct (Hfields j) as (-> & -> & _). by apply Hqs.
    + destruct (q_level _ _ Hqs s lv level_valid) as [Hh Ht Hlk Htot].
      unfold reduced at 2. rewrite levels_upd_level_eq, levels_upd_node.
      rewrite aget_aset_eq by (by rewrite (q_levels _ _ Hqs)).
      constructor; updates; cbn [head tail total_quantity]; [done|done| |].
      * eapply linked_ext; [|apply Hlk]. intros j _. by destruct (Hfields j) as (_ & _ & ? & ? & _).
      * rewrite sum_remaining_reduced, Htot, wrap_sub_l; [done|apply Hqs|by apply queues_of_elem|].
        intros j Hj. apply (q_in _ _ Hqs) in Hj. lia.
  - apply (pool_ok_ext b _ (l ++ x)); [apply Hf|apply Hf|done|done| |apply Hok].
    intros j _. by destruct (Hfields j) as (_ & _ & _ & _ & _ & ? & _).
  - apply (index_ok_ext b _ (l ++ x)); [apply Hf|done|done| |apply Hok].
    intros j _. by destruct (Hfields j) as (_ & _ & _ & _ & ? & _).
  - intros j Hj. unfold order_ok. rewrite (price_index_ext b) by done.
    destruct (Hfields j) as (-> & _ & _ & _ & _ & _ & ->).
    pose proof (core_orders _ _ _ Hok j Hj) as (Hr & Hp & Hb). split; [|done].
    rewrite reduced_node by (apply (resting_range _ _ _ Hok) in Hj; lia).
    case_decide; [subst; updates; simpl; lia|done].
  - rewrite (frame_minimum _ _ Hf), (frame_capacity _ _ Hf), Hlen. apply Hok.
Qed.
End reduce.

(** ** The operations *)

Definition geometry (b : t) : Z * Z * Z * Z :=
  (_order_capacity b, _minimum_price b, _tick_size b, _level_count b).

Lemma frame_geometry b b' : frame b b' -> geometry b' = geometry b.
Proof. intros Hf. unfold geometry. destruct Hf. congruence. Qed.

Lemma same_levels_geometry b b' : same_levels b b' -> geometry b' = geometry b.
Proof. intros Hs. unfold geometry. destruct (same_geometry _ _ Hs) as (-> & -> & -> & ->). done. Qed.

Lemma geometry_fields b b' :
  geometry b' = geometry b -> _order_capacity b' = _order_capacity b /\
    _minimum_price b' = _minimum_price b /\ _tick_size b' = _tick_size b /\
    _level_count b' = _level_count b.
Proof. unfold geometry. intros Hg. by simplify_eq. Qed.

Lemma geometry_price_index b b' p :
  geometry b' = geometry b -> price_index b' p = price_index b p.
Proof.
  intros (_ & Hm & Ht & Hc)%geometry_fields. unfold price_index. by rewrite Hm, Ht, Hc.
Qed.

(** [b'] represents [m] on the same grid. *)
Definition goes_to (b b' : t) (m : list Resting) : Prop :=
  represents b' m /\ geometry b' = geometry b.

Section remove_order.
Context (b : t) (l x : list Z) (i : Z).
Hypothesis Hok : core_ok b l x.
Hypothesis Hi : i ∈ l.

(** [release(unlink(...))]: the order leaves the book. *)
Lemma remove_core :
  core_ok (release (unlink b i) i) (without i l) x /\
  orders (release (unlink b i) i) (without i l) = BookSpec.remove (orders b l) (id (node b i)) /\
  geometry (release (unlink b i) i) = geometry b /\
  (forall j, j ∈ without i l ++ x ->
    strip (node (release (unlink b i) i) j) = strip (node b j)).
Proof.
  pose proof (unlink_core b l x i Hok Hi) as Hu.
  assert (same_payload b (unlink b i)) as Hp.
  { eapply unlink_ok; [apply Hok|by apply (resting_in_queue b l i)]. }
  pose proof (release_core _ _ _ _ Hu) as Hr. destruct (release_orders _ _ _ _ Hu) as [Ho _].
  split_and!; [done| | |].
  - by rewrite Ho, (orders_payload b), (orders_without b l x).
  - rewrite (same_levels_geometry (unlink b i)) by apply release_same_levels.
    apply frame_geometry, frame_unlink.
  - intros j Hj. rewrite (release_reads (unlink b i) (without i l) x i) by done. apply Hp.
Qed.
End remove_order.

Section remove_resting.
Context (b : t) (l : list Z) (i : Z).
Hypothesis Hok : core_ok b l [].
Hypothesis Hi : i ∈ l.

Lemma remove_represents :
  (forall j, j ∈ l -> j <> i -> 0 < remaining (node b j)) ->
  goes_to b (release (unlink b i) i) (BookSpec.remove (orders b l) (id (node b i))).
Proof.
  intros Hl. destruct (remove_core b l [] i Hok Hi) as (Hc & Ho & Hg & Hr). split; [|done].
  exists (without i l). split_and!; auto. intros j Hj.
  destruct (strip_fields _ _ (Hr j ltac:(by rewrite app_nil_r))) as (_ & _ & -> & _).
  apply elem_without in Hj as [??]. by apply Hl.
Qed.
End remove_resting.

Lemma represents_find b m k :
  represents b m -> k <> u64_max ->
  (FixedOrderIndex.find (_index b) k = kInvalid /\ BookSpec.lookup m k = None) \/
  (FixedOrderIndex.find (_index b) k <> kInvalid /\
   BookSpec.lookup m k = Some (resting b (FixedOrderIndex.find (_index b) k)) /\
   id (node b (FixedOrderIndex.find (_index b) k)) = k /\
   exists l, core_ok b l [] /\ live b l /\ orders b l = m /\
     FixedOrderIndex.find (_index b) k ∈ l).
Proof.
  intros (l & Hok & Hl & <-) Hk.
  destruct (find_used b l [] Hok k Hk) as [[Hf Hn]|(Hi & Hv & Hid)]; rewrite app_nil_r in *.
  - left. split; [done|]. by apply orders_lookup_None.
  - right. split_and!; [done| |done|by exists l].
    rewrite <- Hid at 1. by apply (orders_lookup b l []).
Qed.

Lemma find_max b : FixedOrderIndex.find (_index b) u64_max = kInvalid.
Proof. done. Qed.

(** [find] never returns an order of an id the book refuses. *)
Lemma represents_lookup_max b m : represents b m -> BookSpec.lookup m u64_max = None.
Proof.
  intros (l & Hok & _ & <-). apply orders_lookup_None. intros i Hi.
  assert (i ∈ l ++ []) as Hi' by (by rewrite app_nil_r).
  by apply (index_ids _ _ (core_index _ _ _ Hok)), valid_id_spec in Hi' as [_ ?].
Qed.

Lemma feed_delete_represents b m k :
  represents b m ->
  (feed_delete b k).2 = bool_decide (is_Some (BookSpec.lookup m k)) /\
  goes_to b (feed_delete b k).1 (BookSpec.remove m k).
Proof.
  intros Hr. unfold feed_delete.
  assert (BookSpec.lookup m k = None -> BookSpec.remove m k = m) as Hnone.
  { unfold BookSpec.lookup, BookSpec.remove. intros Hn%fmap_None%list_find_None.
    by apply filter_true. }
  destruct (decide (k = u64_max)) as [->|Hk].
  { rewrite find_max, Z.eqb_refl. pose proof (represents_lookup_max _ _ Hr) as Hm.
    rewrite Hm, Hnone by done. by split. }
  destruct (represents_find b m k Hr Hk) as [[Hf Hn]|(Hf & Hs & Hid & l & Hok & Hl & <- & Hi)].
  - rewrite Hf, Hn, Hnone by done. by split.
  - destruct (Z.eqb_spec (FixedOrderIndex.find (_index b) k) kInvalid); [done|].
    rewrite Hs. split; [done|]. rewrite <- Hid at 3.
    apply remove_represents; auto.
Qed.

(** The book after a successful [feed_add]. *)
Lemma append_represents b l i :
  core_ok b l [i] -> live b l -> order_ok b (node b i) -> 0 < remaining (node b i) ->
  next (node b i) = kInvalid ->
  goes_to b (append b i (level (node b i))) (orders b l ++ [resting b i]).
Proof.
  intros Hok Hl Ho Hpos Hn. pose proof (append_core b l i Hok Ho Hn) as Hc.
  pose proof (append_payload b i (level (node b i))) as Hp.
  split; [|apply frame_geometry, frame_append].
  exists (l ++ [i]). split_and!; [done| |by rewrite (orders_payload b), orders_snoc].
  intros j [Hj|Hj%list_elem_of_singleton]%elem_of_app;
    destruct (payload_fields _ _ j Hp) as (_ & _ & -> & _); [by apply Hl|by subst].
Qed.

Lemma length_represents b m : represents b m -> Z.of_nat (length m) <= _order_capacity b.
Proof.
  intros (l & Hok & _ & <-). unfold orders. rewrite length_map.
  rewrite (proj2 (core_geometry _ _ _ Hok)). pose proof (used_length _ _ _ Hok) as Hl.
  by rewrite app_nil_r in Hl.
Qed.

(** Whether [feed_add] takes an order. *)
Definition can_add (b : t) (m : list Resting) (k p q : Z) : bool :=
  valid_id k && negb (q =? 0) && bool_decide (BookSpec.lookup m k = None) &&
  bool_decide (is_Some (price_index b p)) && (Z.of_nat (length m) <? _order_capacity b).

Lemma find_None_iff b m k :
  represents b m -> valid_id k = true ->
  (FixedOrderIndex.find (_index b) k =? kInvalid) = bool_decide (BookSpec.lookup m k = None).
Proof.
  intros Hr [_ Hk]%valid_id_spec.
  destruct (represents_find b m k Hr Hk) as [[-> ->]|(Hf & -> & _)]; [done|].
  destruct (Z.eqb_spec (FixedOrderIndex.find (_index b) k) kInvalid); [done|].
  by rewrite bool_decide_false.
Qed.

Lemma feed_add_represents b m k s p q :
  represents b m -> 0 <= q < 2 ^ 64 -> p < 2 ^ 63 ->
  (feed_add b k s p q).2 = can_add b m k p q /\
  goes_to b (feed_add b k s p q).1 (if can_add b m k p q then BookSpec.add m k s p q else m).
Proof.
  intros Hr Hq Hpb. unfold feed_add, can_add.
  assert (goes_to b b m) as Hself by done.
  destruct (valid_id k) eqn:Hk; [|done]. destruct (Z.eqb_spec q 0) as [|Hq0]; [done|].
  rewrite (find_None_iff b m k Hr Hk). cbn [negb orb andb].
  pose proof (find_None_iff b m k Hr Hk) as Hfind.
  destruct (bool_decide _); [|done].
  apply Z.eqb_eq in Hfind. cbn [negb andb orb].
  destruct (price_index b p) as [lv|] eqn:Hp; cbn [andb];
    [|rewrite bool_decide_false by apply is_Some_None; by split].
  rewrite bool_decide_true by (by eexists). cbn [andb].
  destruct Hr as (l & Hok & Hl & <-). unfold orders at 1 2 4. rewrite !length_map.
  destruct (allocate_spec b l Hok) as [[-> Hfull]|(b1 & i & -> & Hlt & Hi & Hv & Hil & Hf & Ho & Hpool & Hs & Hix)].
  { rewrite Z.eqb_refl. destruct (Z.ltb_spec (Z.of_nat (length l)) (_order_capacity b)); [lia|done]. }
  destruct (Z.ltb_spec (Z.of_nat (length l)) (_order_capacity b)); [|lia].
  destruct (Z.eqb_spec i kInvalid); [done|].
  destruct (enter_insert b b1 l i k Hok Hk Hfind Hix) as (Hins & _).
  destruct (FixedOrderIndex.insert (_index b1) k i) as [ix ins] eqn:Eix. simpl in Hins. subst ins.
  destruct (enter_core b b1 l i k s p q lv Hok Hk Hfind Hi Hil Hf Ho Hpool Hs Hix)
    as (Hc & Hn & Hsame & Hord & Hlive). rewrite Eix in Hc, Hn, Hsame, Hord, Hlive.
  cbn [negb fst snd] in *. fold (fill k s p q lv). set (b2 := upd_node _ _ _) in *.
  split; [done|]. pose proof (append_represents b2 l i Hc (Hlive Hl)) as Happ.
  rewrite Hn in Happ. cbn [filled level remaining next price] in Happ.
  destruct Happ as [Hrep Hg]; [|lia|done|].
  - split; [done|]. split; [|done]. by rewrite (same_levels_price_index b).
  - split; [|by rewrite Hg; apply same_levels_geometry].
    unfold BookSpec.add. rewrite <- Hord. unfold resting in Hrep at 1. by rewrite Hn in Hrep.
Qed.

(** Whether [feed_reduce] applies. *)
Definition can_reduce (m : list Resting) (k q : Z) : bool :=
  match BookSpec.lookup m k with
  | Some o => negb (q =? 0) && (q <=? rest_remaining o)
  | None => false
  end.

Section reduce_orders.
Context (b : t) (l x : list Z) (i q : Z).
Hypothesis Hok : core_ok b l x.
Hypothesis Hi : i ∈ l.
Hypothesis Hq : 0 <= q <= remaining (node b i).

Lemma reduced_resting j : j ∈ l ->
  resting (reduced b i q) j = if decide (j = i) then
    (resting b j) <| rest_remaining ::= fun r => r - q |> else resting b j.
Proof.
  intros Hj. pose proof (resting_range _ _ _ Hok j Hj) as Hr.
  unfold resting. rewrite (reduced_node b l x i q Hok Hi) by lia. case_decide; [by subst|done].
Qed.

Let same_id j : j ∈ l -> id (node b j) = id (node b i) -> j = i.
Proof. intros. apply (used_ids_inj _ _ _ Hok); rewrite ?elem_of_app; auto. Qed.

Lemma orders_reduced :
  remaining (node b i) <> q ->
  orders (reduced b i q) l = BookSpec.reduce (orders b l) (id (node b i)) q.
Proof.
  intros Hne. unfold orders, BookSpec.reduce.
  assert (forall l', l' ⊆ l -> map (resting (reduced b i q)) l' =
    omap (BookSpec.reduce_order (id (node b i)) q) (map (resting b) l')) as Haux; [|by apply Haux].
  induction l' as [|j l' IH]; intros Hs; [done|]. cbn [map].
  rewrite omap_cons_match, IH by set_solver. rewrite reduced_resting by set_solver.
  unfold BookSpec.reduce_order at 2. cbn [rest_id rest_remaining resting].
  destruct (decide (j = i)) as [->|Hji].
  - rewrite decide_True by done. by rewrite decide_False.
  - rewrite decide_False; [done|]. intros Hid. apply Hji, same_id; [set_solver|done].
Qed.

Lemma orders_reduced_remove :
  BookSpec.remove (orders (reduced b i q) l) (id (node b i)) =
    BookSpec.remove (orders b l) (id (node b i)).
Proof.
  unfold orders, BookSpec.remove.
  assert (forall l', l' ⊆ l -> filter (fun o => rest_id o <> id (node b i))
      (map (resting (reduced b i q)) l') =
    filter (fun o => rest_id o <> id (node b i)) (map (resting b) l')) as Haux; [|by apply Haux].
  induction l' as [|j l' IH]; intros Hs; [done|]. simpl. rewrite !filter_cons, IH by set_solver.
  rewrite reduced_resting by set_solver. destruct (decide (j = i)) as [->|Hji]; [|done].
  by rewrite !decide_False by (simpl; tauto).
Qed.

Lemma orders_reduce_all :
  remaining (node b i) = q ->
  BookSpec.reduce (orders b l) (id (node b i)) q = BookSpec.remove (orders b l) (id (node b i)).
Proof.
  intros Heq. unfold orders, BookSpec.remove, BookSpec.reduce.
  assert (forall l', l' ⊆ l -> omap (BookSpec.reduce_order (id (node b i)) q) (map (resting b) l') =
    filter (fun o => rest_id o <> id (node b i)) (map (resting b) l')) as Haux; [|by apply Haux].
  induction l' as [|j l' IH]; intros Hs; [done|]. cbn [map].
  rewrite omap_cons_match, filter_cons, IH by set_solver.
  unfold BookSpec.reduce_order at 1. cbn [rest_id rest_remaining resting]. destruct (decide (id (node b j) = id (node b i))) as [E|E].
  - apply same_id in E as ->; [|set_solver]. rewrite decide_True by done.
    by rewrite decide_False by tauto.
  - by rewrite decide_True.
Qed.
End reduce_orders.

Lemma feed_reduce_represents b m k q :
  represents b m -> 0 <= q < 2 ^ 64 ->
  (feed_reduce b k q).2 = can_reduce m k q /\
  goes_to b (feed_reduce b k q).1 (if can_reduce m k q then BookSpec.reduce m k q else m).
Proof.
  intros Hr Hq. unfold feed_reduce, can_reduce. assert (goes_to b b m) as Hself by done.
  destruct (decide (k = u64_max)) as [->|Hk].
  { by rewrite find_max, (represents_lookup_max b m). }
  destruct (represents_find b m k Hr Hk) as [[-> ->]|(Hf & -> & Hid & l & Hok & Hl & <- & Hi)]; [done|].
  set (i := FixedOrderIndex.find (_index b) k) in *. cbn [rest_remaining resting].
  destruct (Z.eqb_spec i kInvalid); [done|]. destruct (Z.eqb_spec q 0); [done|].
  cbn [orb negb andb]. rewrite Z.ltb_antisym.
  destruct (Z.leb_spec q (remaining (node b i))) as [Hle|]; [|done]. cbn [negb].
  assert (forall X, X = reduced b i q ->
    (if remaining (node X i) =? 0 then (release (unlink X i) i, true) else (X, true)) =
    (if remaining (node b i) =? q then release (unlink X i) i else X, true)) as Hif.
  { intros X ->. rewrite (reduced_node b l [] i q Hok Hi) by (auto || (apply (resting_range _ _ _ Hok) in Hi; lia)).
    rewrite decide_True by done. updates. cbn [remaining].
    destruct (Z.eqb_spec (remaining (node b i) - q) 0), (Z.eqb_spec (remaining (node b i)) q); done || lia. }
  assert (upd_level (upd_node b i (fun n => n <| remaining ::= fun r => u64 (r - q) |>))
    (side (node b i)) (level (node (upd_node b i (fun n => n <| remaining ::= fun r => u64 (r - q) |>)) i))
    (fun l => l <| total_quantity ::= fun t => u64 (t - q) |>) = reduced b i q) as ->.
  { unfold reduced. f_equal. unfold node. rewrite nodes_upd_node. by apply (aget_update_field level _ i i
       (fun n => n <| remaining ::= fun r => u64 (r - q) |>)). }
  rewrite Hif by done. cbn [fst snd]. split; [done|].
  destruct (reduced_core b l [] i q Hok Hi ltac:(lia)) as [Hc Hfr].
  assert (id (node (reduced b i q) i) = id (node b i)) as Hrid.
  { rewrite (reduced_node b l [] i q Hok Hi) by (auto || (apply (resting_range _ _ _ Hok) in Hi; lia)).
    by rewrite decide_True. }
  assert (forall j, j ∈ l -> j <> i -> 0 < remaining (node (reduced b i q) j)) as Hothers.
  { intros j Hj Hne. rewrite (reduced_node b l [] i q Hok Hi) by (auto || (apply (resting_range _ _ _ Hok) in Hj; lia)).
    rewrite decide_False by done. by apply Hl. }
  destruct (Z.eqb_spec (remaining (node b i)) q) as [E|E].
  - rewrite <- Hid, (orders_reduce_all b l [] i q Hok Hi ltac:(lia) E).
    rewrite <- (orders_reduced_remove b l [] i q Hok Hi ltac:(lia)).
    destruct (remove_represents (reduced b i q) l i Hc Hi Hothers) as [Hrep Hg].
    rewrite Hrid in Hrep. split; [done|]. rewrite Hg. by apply frame_geometry.
  - split; [|by apply frame_geometry]. exists l. split_and!; [done| |].
    + intros j Hj. destruct (decide (j = i)) as [->|]; [|auto].
      rewrite (reduced_node b l [] i q Hok Hi) by (auto || (apply (resting_range _ _ _ Hok) in Hj; lia)).
      rewrite decide_True by done. updates. simpl. lia.
    + rewrite <- Hid. apply (orders_reduced b l [] i q); auto; lia.
Qed.

(** ** feed_replace *)

Section replace.
Context (b : t) (l : list Z) (i k' p q lv : Z).
Hypothesis Hok : core_ok b l [].
Hypothesis Hi : i ∈ l.
Hypothesis Hk : valid_id k' = true.
Hypothesis Hnew : FixedOrderIndex.view (_index b) !! k' = None.
Let k : Z := id (node b i).

Definition replace_insert : t :=
  b <| _index := (FixedOrderIndex.insert (_index b) k' i).1 |>.
Definition replace_unlink : t :=
  (unlink replace_insert i) <| _index ::= fun ix => (FixedOrderIndex.erase ix k).1 |>.
Definition replaced : t :=
  upd_node replace_unlink i (fun n => n <| id := k' |> <| price := p |> <| remaining := q |>
    <| state := New |> <| level := lv |>).

Let used_i : i ∈ l ++ [].
Proof. by rewrite app_nil_r. Qed.

Let range : 0 <= i < alen (_nodes b) := resting_range _ _ _ Hok i Hi.

Lemma replace_index :
  (FixedOrderIndex.insert (_index b) k' i).2 = true /\
  FixedOrderIndex.wf (_index replaced) /\
  FixedOrderIndex.view (_index replaced) =
    delete k (<[k' := i]> (FixedOrderIndex.view (_index b))) /\
  FixedOrderIndex._capacity (_index replaced) = FixedOrderIndex._capacity (_index b).
Proof.
  pose proof (core_index _ _ _ Hok) as Hix. apply valid_id_spec in Hk as [H0 _].
  pose proof (index_ids _ _ Hix i used_i) as [Hk0 _]%valid_id_spec.
  pose proof (index_size _ _ _ Hok). pose proof (index_room _ _ Hix).
  destruct (FixedOrderIndex.index_insert_wf_view (_index b) k' i) as (Hwf & Hv & Hc & Ht);
    [apply Hix|done|done|lia|].
  assert (_index replaced = (FixedOrderIndex.erase (FixedOrderIndex.insert (_index b) k' i).1 k).1)
    as ->.
  { unfold replaced, replace_unlink, upd_node. updates. cbn [_index].
    by rewrite (frame_index _ _ (frame_unlink replace_insert i)). }
  destruct (FixedOrderIndex.index_erase_wf_view _ k Hwf Hk0) as (Hwf' & Hv' & Hc' & _).
  rewrite Hv', Hc', Hv. by split_and!.
Qed.

Lemma replace_insert_queues : queues_ok replace_insert (queues_of replace_insert l).
Proof. apply (same_levels_queues b); [constructor; [done|done|by intros []]|done|apply Hok]. Qed.

Lemma replaced_reads j : 0 <= j ->
  if decide (j = i) then
    node replaced j = (node (unlink replace_insert i) i) <| id := k' |> <| price := p |>
      <| remaining := q |> <| state := New |> <| level := lv |>
  else strip (node replaced j) = strip (node b j).
Proof.
  intros Hj. destruct (unlink_queues replace_insert l i replace_insert_queues Hi) as (_ & Hp & _).
  unfold replaced. rewrite node_upd_node; [|unfold replace_unlink; updates; simpl|done].
  - case_decide; [done|]. apply (Hp j).
  - rewrite (alen_unlink replace_insert i). done.
Qed.

Lemma replaced_at :
  next (node replaced i) = kInvalid /\ side (node replaced i) = side (node b i) /\
  id (node replaced i) = k' /\ price (node replaced i) = p /\ remaining (node replaced i) = q /\
  level (node replaced i) = lv /\ free_next (node replaced i) = free_next (node b i).
Proof.
  pose proof (replaced_reads i ltac:(lia)) as Hr. rewrite decide_True in Hr by done.
  destruct (unlink_queues replace_insert l i replace_insert_queues Hi) as (_ & Hp & Hn).
  destruct (payload_fields _ _ i Hp) as (_ & _ & _ & Hf & _ & Hs & _).
  rewrite Hr. updates. cbn [next side id price remaining level free_next]. by split_and!.
Qed.

Lemma replaced_other j : j ∈ l -> j <> i -> strip (node replaced j) = strip (node b j).
Proof.
  intros Hj Hne. apply (resting_range _ _ _ Hok) in Hj.
  pose proof (replaced_reads j ltac:(lia)) as Hr. by rewrite decide_False in Hr.
Qed.

Lemma replaced_geometry : geometry replaced = geometry b.
Proof.
  transitivity (geometry (unlink replace_insert i)); [done|].
  by rewrite (frame_geometry _ _ (frame_unlink replace_insert i)).
Qed.

Lemma replaced_alen : alen (_nodes replaced) = alen (_nodes b).
Proof.
  unfold replaced. rewrite nodes_upd_node, alen_aset. apply (alen_unlink replace_insert i).
Qed.

Lemma replaced_price_index y : price_index replaced y = price_index b y.
Proof.
  apply geometry_price_index, replaced_geometry.
Qed.

Lemma replaced_core : core_ok replaced (without i l) [i].
Proof.
  destruct replace_index as (_ & Hwf & Hview & Hcap). destruct replaced_at as (_ & _ & Hid & _ & _ & _ & Hfn).
  pose proof (used_nodup _ _ _ Hok) as Hnd. rewrite app_nil_r in Hnd.
  assert (forall j, j ∈ without i l -> strip (node replaced j) = strip (node b j)) as Hoth.
  { intros j [Hne Hj]%elem_without. by apply replaced_other. }
  destruct (geometry_fields _ _ replaced_geometry) as (Gc & Gm & _).
  constructor.
  - destruct (unlink_queues replace_insert l i replace_insert_queues Hi) as (Hq & _ & _).
    apply (same_levels_queues (unlink replace_insert i)); [..|done].
    + eapply same_levels_trans; [|apply same_levels_node]. constructor; [done|done|by intros []].
    + intros j [Hne Hj]%elem_without. apply (resting_range _ _ _ Hok) in Hj.
      unfold replaced. rewrite node_upd_node; [by rewrite decide_False| |lia].
      unfold replace_unlink. updates. simpl. by rewrite (alen_unlink replace_insert i).
  - apply (pool_ok_ext b _ l); [| |apply replaced_alen|by apply without_perm| |].
    + apply (frame_free _ _ (frame_unlink replace_insert i)).
    + apply (frame_active _ _ (frame_unlink replace_insert i)).
    + intros j Hj. destruct (unlink_queues replace_insert l i replace_insert_queues Hi) as (_ & Hp & _).
      destruct (payload_fields _ _ j Hp) as (_ & _ & _ & Hf & _). etransitivity; [|exact Hf].
      unfold replaced, node. rewrite nodes_upd_node.
      by apply (aget_update_field free_next _ i j (fun n => n <| id := k' |> <| price := p |>
        <| remaining := q |> <| state := New |> <| level := lv |>)).
    + rewrite <- (app_nil_r l). apply Hok.
  - pose proof (core_index _ _ _ Hok) as Hix. rewrite app_nil_r in Hix. constructor.
    + done.
    + rewrite replaced_alen, Hcap. apply Hix.
    + intros y j. rewrite Hview, lookup_delete_Some, lookup_insert_Some, (index_view _ _ Hix).
      rewrite elem_of_app, list_elem_of_singleton, elem_without.
      assert (k <> k') as Hkk.
      { intros Heq. assert (FixedOrderIndex.view (_index b) !! k = Some i) as Hs by (by apply Hix).
        by rewrite Heq, Hnew in Hs. }
      split.
      * intros [Hne [[<- <-]|(Hne' & Hj & Hidj)]]; [by auto|].
        assert (j <> i) by (intros ->; by apply Hne). split; [by left|].
        destruct (strip_fields _ _ (replaced_other j Hj ltac:(done))) as (-> & _). done.
      * intros [[[Hne Hj]| ->] Hidj].
        -- destruct (strip_fields _ _ (replaced_other j Hj Hne)) as (Hsame & _).
           rewrite Hsame in Hidj. split; [|right; split_and!; [|done..]].
           ++ intros <-. apply Hne. by apply (used_ids_inj _ _ _ Hok); rewrite ?app_nil_r.
           ++ intros <-. assert (FixedOrderIndex.view (_index b) !! k' = Some j) as Hs
                by (by apply Hix). by rewrite Hnew in Hs.
        -- rewrite Hid in Hidj. subst y. split; [done|]. by left.
    + intros j [Hj|Hj%list_elem_of_singleton]%elem_of_app.
      * destruct (strip_fields _ _ (Hoth j Hj)) as (-> & _). apply Hix.
        by apply elem_without in Hj as [_ ?].
      * by rewrite Hj, Hid.
  - intros j Hj. unfold order_ok. rewrite replaced_price_index.
    destruct (strip_fields _ _ (Hoth j Hj)) as (_ & -> & -> & _ & -> & _).
    apply elem_without in Hj as [_ ?]. by apply Hok.
  - rewrite Gm, Gc, replaced_alen. apply Hok.
Qed.
End replace.

(** Whether [feed_replace] applies. *)
Definition can_replace (b : t) (m : list Resting) (old new p q : Z) : bool :=
  bool_decide (is_Some (BookSpec.lookup m old)) && valid_id new && negb (q =? 0) &&
  bool_decide (BookSpec.lookup m new = None) && bool_decide (is_Some (price_index b p)).

Lemma feed_replace_represents b m old new p q :
  represents b m -> 0 <= q < 2 ^ 64 -> p < 2 ^ 63 ->
  (feed_replace b old new p q).2 = can_replace b m old new p q /\
  goes_to b (feed_replace b old new p q).1
    (if can_replace b m old new p q then BookSpec.replace m old new p q else m).
Proof.
  intros Hr Hq Hpb. unfold feed_replace, can_replace. assert (goes_to b b m) as Hself by done.
  destruct (decide (old = u64_max)) as [->|Hold].
  { by rewrite find_max, (represents_lookup_max b m). }
  destruct (represents_find b m old Hr Hold) as [[-> ->]|(Hf & Hlk & Hid & l & Hok & Hl & <- & Hi)]; [done|].
  destruct (valid_id new) eqn:Hk; [|rewrite orb_true_r, andb_false_r; done].
  rewrite (find_None_iff b _ new Hr Hk). pose proof (find_None_iff b _ new Hr Hk) as Hfind.
  rewrite Hlk. set (i := FixedOrderIndex.find (_index b) old) in *.
  destruct (Z.eqb_spec i kInvalid); [done|]. destruct (Z.eqb_spec q 0); [done|].
  rewrite (bool_decide_true (is_Some (Some (resting b i)))) by (by eexists). cbn [negb orb andb].
  destruct (bool_decide (BookSpec.lookup _ new = None)); [|done]. cbn [negb andb]. apply Z.eqb_eq in Hfind.
  destruct (price_index b p) as [lv|] eqn:Hp;
    [rewrite bool_decide_true by (by eexists)|rewrite bool_decide_false by apply is_Some_None; done].
  assert (FixedOrderIndex.view (_index b) !! new = None) as Hnew.
  { pose proof (core_index _ _ _ Hok) as Hix. apply valid_id_spec in Hk as [_ Hm].
    rewrite FixedOrderIndex.index_find_spec in Hfind by (done || apply Hix).
    destruct (FixedOrderIndex.view (_index b) !! new) as [j|] eqn:E; [|done]. simpl in Hfind.
    apply (index_view _ _ Hix) in E as [Hj _]. by apply (used_valid _ _ _ Hok) in Hj. }
  pose proof (replaced_core b l i new p q lv Hok Hi Hk Hnew) as Hc.
  destruct (replace_index b l i new p q lv Hok Hi Hk Hnew) as (Hins & _).
  pose proof (replaced_geometry b i new p q lv) as Hg.
  destruct (replaced_at b l i new p q lv Hok Hi) as (Hnext & Hs & Hid' & Hp' & Hq' & Hlv & _).
  pose proof (replaced_other b l i new p q lv Hok Hi) as Hoth.
  unfold replaced, replace_unlink, replace_insert in *.
  destruct (FixedOrderIndex.insert (_index b) new i) as [ix ins]. simpl in Hins. subst ins.
  cbn [fst snd negb] in *. cbn zeta. rewrite Hid in *.
  set (b4 := upd_node _ _ _) in *. split; [done|].
  pose proof (append_represents b4 (without i l) i Hc) as Happ. rewrite Hlv in Happ.
  assert (orders b4 (without i l) = BookSpec.remove (orders b l) old) as Hord.
  { rewrite <- Hid, <- (orders_without b l [] Hok) by done. apply orders_ext.
    intros j [Hne Hj]%elem_without. destruct (strip_fields _ _ (Hoth j Hj Hne)) as (-> & -> & -> & _ & _ & -> & _).
    by split_and!. }
  destruct Happ as [Hrep Hgeo]; [| |lia|done|].
  - intros j [Hne Hj]%elem_without. destruct (strip_fields _ _ (Hoth j Hj Hne)) as (_ & _ & -> & _).
    by apply Hl.
  - unfold order_ok. rewrite Hq', Hp', Hlv. split; [lia|]. split; [|done].
    by rewrite (geometry_price_index b).
  - split; [|by rewrite Hgeo, Hg]. unfold BookSpec.replace. rewrite Hlk. unfold BookSpec.add.
    rewrite <- Hord. unfold resting in Hrep at 1. by rewrite Hid', Hs, Hp', Hq' in Hrep.
Qed.

(** ** Histories of direct market-data operations *)

Inductive FeedOp :=
  | Add (id : Z) (side : Side) (price quantity : Z)
  | Reduce (id quantity : Z)
  | Delete (id : Z)
  | Replace (old_id new_id price quantity : Z).

Definition feed (b : t) (op : FeedOp) : t * bool :=
  match op with
  | Add id side price quantity => feed_add b id side price quantity
  | Reduce id quantity => feed_reduce b id quantity
  | Delete id => feed_delete b id
  | Replace old_id new_id price quantity => feed_replace b old_id new_id price quantity
  end.

(** Quantities are unsigned and prices signed 64-bit. *)
Definition op_ok (op : FeedOp) : Prop :=
  match op with
  | Add _ _ p q | Replace _ _ p q => 0 <= q < 2 ^ 64 /\ p < 2 ^ 63
  | Reduce _ q => 0 <= q < 2 ^ 64
  | Delete _ => True
  end.

(** The same operation on the list of resting orders; [b] supplies the grid. *)
Definition feed_spec (b : t) (m : list Resting) (op : FeedOp) : list Resting * bool :=
  match op with
  | Add k s p q => if can_add b m k p q then (BookSpec.add m k s p q, true) else (m, false)
  | Reduce k q => if can_reduce m k q then (BookSpec.reduce m k q, true) else (m, false)
  | Delete k => (BookSpec.remove m k, bool_decide (is_Some (BookSpec.lookup m k)))
  | Replace k k' p q =>
      if can_replace b m k k' p q then (BookSpec.replace m k k' p q, true) else (m, false)
  end.

Lemma feed_represents b m op :
  represents b m -> op_ok op ->
  (feed b op).2 = (feed_spec b m op).2 /\ goes_to b (feed b op).1 (feed_spec b m op).1.
Proof.
  intros Hr Hop. destruct op as [k s p q|k q|k|k k' p q]; simpl in *.
  - destruct (feed_add_represents b m k s p q Hr (proj1 Hop) (proj2 Hop)) as [-> ?]. by destruct (can_add _ _ _ _ _).
  - destruct (feed_reduce_represents b m k q Hr Hop) as [-> ?]. by destruct (can_reduce _ _ _).
  - by apply feed_delete_represents.
  - destruct (feed_replace_represents b m k k' p q Hr (proj1 Hop) (proj2 Hop)) as [-> ?].
    by destruct (can_replace _ _ _ _ _ _).
Qed.

(** [feed_spec] depends on the grid of [b] only. *)
Lemma feed_spec_geometry b b' m op :
  geometry b' = geometry b -> feed_spec b' m op = feed_spec b m op.
Proof.
  intros Hg. pose proof (geometry_fields _ _ Hg) as (Hc & _).
  destruct op; simpl; [unfold can_add|done..|unfold can_replace];
    by rewrite (geometry_price_index b b') by done; rewrite ?Hc.
Qed.

Definition run {B : Type} (step : B -> FeedOp -> B * bool) : B -> list FeedOp -> B * list bool :=
  fix go b ops :=
    match ops with
    | [] => (b, [])
    | op :: ops' =>
        let '(b, ok) := step b op in
        let '(b, oks) := go b ops' in (b, ok :: oks)
    end.

Lemma run_represents b0 b m ops :
  represents b m -> geometry b = geometry b0 -> Forall op_ok ops ->
  (run feed b ops).2 = (run (feed_spec b0) m ops).2 /\
  goes_to b0 (run feed b ops).1 (run (feed_spec b0) m ops).1.
Proof.
  intros Hr Hg Hops. revert b m Hr Hg.
  induction Hops as [|op ops Hop _ IH]; intros b m Hr Hg; [done|]. simpl.
  destruct (feed_represents b m op Hr Hop) as [Hok [Hr' Hg']].
  rewrite (feed_spec_geometry b0 b) in * by done.
  destruct (feed b op) as [b' ok], (feed_spec b0 m op) as [m' ok']. simpl in *. subst ok'.
  destruct (IH b' m' Hr' ltac:(congruence)) as [Hoks Hgo].
  destruct (run feed b' ops), (run (feed_spec b0) m' ops). simpl in *. by subst.
Qed.
