(* ===== verification/DenseQueries.v ===== *)
(** * Construction and queries of the dense book

    [make] establishes [represents], and every query ([best_bid], [best_ask],
    [level_quantity], [visit_level], [remaining], [contains],
    [active_orders]) reads its counterpart of [BookSpec] off the represented
    orders.  Together with [DenseFeed.run_represents] this makes the book
    indistinguishable from the list of resting orders. *)

From S2P Require Import Prelude OpenAddressing OrderIndex BookTypes DenseBook Bitmap.
From S2P Require Import LinkedQueue DenseQueues DenseFeed BookFacts.
Import DensePriceOrderBook.

(** ** Construction *)

Section make.
Context (cap minimum tick lc : Z).
Hypothesis Hcap : 0 <= cap < 2 ^ 32.
Hypothesis Hlc : 0 <= lc <= 2 ^ 32 - 64.

Let pool : list Node := map (fresh_node cap) (seqZ 0 cap).

Let pool_len : alen pool = cap.
Proof. unfold pool, alen. rewrite length_map, length_seqZ. lia. Qed.

Let pool_at i : 0 <= i < cap -> pool.[i] = fresh_node cap i.
Proof.
  intros Hi. unfold pool, aget. apply list_lookup_total_correct.
  rewrite list_lookup_fmap, lookup_seqZ_lt by lia. simpl. do 2 f_equal. lia.
Qed.

Let fresh_chain n i :
  i + Z.of_nat n = cap -> 0 <= i ->
  free_chain pool (if i <? cap then i else kInvalid) (seqZ i (Z.of_nat n)).
Proof.
  revert i. induction n as [|n IH]; intros i Hn Hi.
  - rewrite seqZ_nil by lia. simpl. destruct (Z.ltb_spec i cap); [lia|done].
  - rewrite seqZ_cons by lia. destruct (Z.ltb_spec i cap); [|lia]. simpl. split; [done|].
    rewrite pool_at by lia. unfold fresh_node. updates. cbn [free_next].
    replace (Z.pred (Z.of_nat (S n))) with (Z.of_nat n) by lia.
    replace (Z.succ i) with (i + 1) by lia. apply IH; lia.
Qed.

Lemma make_represents :
  0 <= minimum -> exists b, make cap minimum tick lc = Some b /\ represents b [] /\
    geometry b = (cap, minimum, tick, lc).
Proof.
  intros Hmin. unfold make.
  destruct (FixedOrderIndex.index_make_ok cap) as (ix & -> & Hwf & Hv & H8 & H4); [lia|].
  cbn [mbind option_bind]. eexists. split; [done|]. split; [|done]. exists [].
  split_and!; [|intros i Hi; by apply elem_of_nil in Hi|done]. fold pool.
  pose proof (bitmap_words_ok lc Hlc) as [Hw Hw0].
  constructor.
  - constructor; cbn.
    + rewrite pool_len. unfold kInvalid. lia.
    + intros []; cbn; unfold alen; rewrite length_replicate; lia.
    + assert (forall s, occ_ok s lc (replicate (Z.to_nat (bitmap_words lc)) 0) kInvalid
        (fun _ => false)) as Hocc.
      { intros s. constructor; [done| | |done| |by left].
        - rewrite alen_replicate. lia.
        - intros w. rewrite alen_replicate. intros Hr. rewrite aget_replicate by lia. lia.
        - intros x. rewrite alen_replicate. intros Hx. unfold occupied.
          rewrite word_index, aget_replicate by dlia. apply Z.bits_0. }
      intros []; apply Hocc.
    + intros. apply NoDup_nil_2.
    + intros s lv i Hi. by apply elem_of_nil in Hi.
    + intros [] lv Hlv; cbn; rewrite aget_replicate by lia; by constructor.
  - constructor; cbn; [|done|rewrite pool_len; unfold kInvalid; lia].
    exists (seqZ 0 cap). rewrite pool_len. split; [|done].
    pose proof (fresh_chain (Z.to_nat cap) 0 ltac:(lia) ltac:(lia)) as Hc.
    rewrite Z2Nat.id in Hc by lia. destruct (Z.ltb_spec 0 cap), (Z.eqb_spec cap 0); done || lia.
  - constructor; cbn; [done|rewrite pool_len; lia| |intros i Hi; by apply elem_of_nil in Hi].
    intros k i. rewrite Hv, lookup_empty, elem_of_nil. split; [done|tauto].
  - intros i Hi. by apply elem_of_nil in Hi.
  - cbn. by rewrite pool_len.
Qed.
End make.

Lemma core_count (b : t) l x : core_ok b l x -> 0 <= _level_count b <= 2 ^ 32 - 64.
Proof. intros Hok. apply (occ_count _ _ _ _ _ (q_occ _ _ (core_queues _ _ _ Hok) Buy)). Qed.

(** Equal levels are equal prices. *)
Lemma level_price_inj (b : t) l i p lv :
  core_ok b l [] -> i ∈ l -> price_index b p = Some lv ->
  p < 2 ^ 63 ->
  level (node b i) = lv <-> price (node b i) = p.
Proof.
  intros Hok Hi Hp Hpb. destruct (core_orders _ _ _ Hok i Hi) as (_ & Ho & Hbound).
  pose proof (core_count b l [] Hok). pose proof (core_geometry _ _ _ Hok) as [Hmin _].
  split; [|intros Hip; rewrite Hip, Hp in Ho; by simplify_eq].
  intros <-. apply price_index_spec in Ho as (_ & _ & ->); [|lia..].
  by apply price_index_spec in Hp as (_ & _ & ->); [|lia..].
Qed.

(** ** Reading one order *)

Section queries.
Context (b : t) (m : list Resting).
Hypothesis Hrep : represents b m.

Lemma contains_represents k : contains b k = bool_decide (is_Some (BookSpec.lookup m k)).
Proof.
  unfold contains. destruct (decide (k = u64_max)) as [->|Hk].
  { by rewrite find_max, (represents_lookup_max b m). }
  destruct (represents_find b m k Hrep Hk) as [[-> ->]|(Hf & -> & _)]; [done|].
  destruct (Z.eqb_spec (FixedOrderIndex.find (_index b) k) kInvalid); [done|].
  by rewrite bool_decide_true by (by eexists).
Qed.

Lemma remaining_represents k :
  remaining_of b k = from_option rest_remaining 0 (BookSpec.lookup m k).
Proof.
  unfold remaining_of. destruct (decide (k = u64_max)) as [->|Hk].
  { by rewrite find_max, (represents_lookup_max b m). }
  destruct (represents_find b m k Hrep Hk) as [[-> ->]|(Hf & -> & _)]; [done|].
  by destruct (Z.eqb_spec (FixedOrderIndex.find (_index b) k) kInvalid).
Qed.

Lemma active_represents : active_orders b = Z.of_nat (length m).
Proof.
  destruct Hrep as (l & Hok & _ & <-). unfold active_orders.
  rewrite (pool_active _ _ (core_pool _ _ _ Hok)), app_nil_r. unfold orders. by rewrite length_map.
Qed.

(** ** Reading a level *)

Let count_ok : 0 <= _level_count b <= 2 ^ 32 - 64.
Proof. destruct Hrep as (l & Hok & _). by apply (core_count b l []). Qed.

Lemma queue_represents s p lv :
  p < 2 ^ 63 -> price_index b p = Some lv ->
  exists l, core_ok b l [] /\ orders b l = m /\
    BookSpec.queue m s p = orders b (queues_of b l s lv).
Proof.
  intros Hpb Hp. destruct Hrep as (l & Hok & _ & Hm). exists l. split_and!; [done..|].
  rewrite <- Hm.
  unfold BookSpec.queue, queues_of, orders.
  assert (forall l', l' ⊆ l -> filter (fun o => rest_side o = s /\ rest_price o = p)
      (map (resting b) l') =
    map (resting b) (filter (fun i => side (node b i) = s /\ level (node b i) = lv) l'))
    as Haux; [|by apply Haux].
  induction l' as [|i l' IH]; intros Hs; [done|]. simpl. rewrite !filter_cons, IH by set_solver.
  assert (i ∈ l) as Hi by set_solver.
  pose proof (level_price_inj b l i p lv Hok Hi Hp Hpb). simpl.
  repeat case_decide; naive_solver.
Qed.

Lemma queue_out_of_grid s p :
  price_index b p = None -> BookSpec.queue m s p = [].
Proof.
  intros Hp. destruct Hrep as (l & Hok & _ & <-). unfold BookSpec.queue.
  apply filter_false. unfold orders. rewrite Forall_fmap, Forall_forall.
  intros i Hi [_ Hpi]. simpl in Hpi. destruct (core_orders _ _ _ Hok i Hi) as (_ & Ho & _). congruence.
Qed.

Lemma sum_remaining_orders q :
  sum_remaining (_nodes b) q = foldr (fun o acc => rest_remaining o + acc) 0 (orders b q).
Proof. induction q as [|i q IH]; [done|]. simpl. by rewrite IH. Qed.

Lemma level_quantity_represents s p :
  p < 2 ^ 63 -> level_quantity b s p = u64 (BookSpec.level_quantity m s p).
Proof.
  intros Hpb. unfold level_quantity, BookSpec.level_quantity.
  destruct (price_index b p) as [lv|] eqn:Hp; [|by rewrite queue_out_of_grid].
  destruct (queue_represents s p lv Hpb Hp) as (l & Hok & _ & ->).
  apply (price_index_range b) in Hp; [|done].
  rewrite (level_total _ _ _ (q_level _ _ (core_queues _ _ _ Hok) s lv Hp)).
  by rewrite sum_remaining_orders.
Qed.

Lemma visit_loop_walk fuel i :
  visit_loop fuel b i =
    map (fun j => (id (node b j), remaining (node b j))) (walk next kInvalid fuel (_nodes b) i).
Proof.
  revert i. induction fuel as [|fuel IH]; intros i; [done|]. simpl.
  destruct (i =? kInvalid); [done|]. simpl. by rewrite IH.
Qed.

Lemma visit_level_represents s p :
  p < 2 ^ 63 ->
  visit_level b s p = map (fun o => (rest_id o, rest_remaining o)) (BookSpec.queue m s p).
Proof.
  intros Hpb. unfold visit_level.
  destruct (price_index b p) as [lv|] eqn:Hp; [|by rewrite queue_out_of_grid].
  destruct (queue_represents s p lv Hpb Hp) as (l & Hok & _ & ->).
  apply (price_index_range b) in Hp; [|done]. pose proof (core_queues _ _ _ Hok) as Hq.
  destruct (q_level _ _ Hq s lv Hp) as [-> _ Hlinks _]. rewrite visit_loop_walk.
  rewrite (walk_linked previous next kInvalid _ _ kInvalid); [|..|done].
  - unfold orders. rewrite map_map. done.
  - assert (length (queues_of b l s lv) <= length l)%nat by apply length_filter.
    pose proof (used_length _ _ _ Hok) as Hu. rewrite app_nil_r in Hu. unfold alen in Hu. lia.
  - intros i Hi. by apply (queues_ok_valid b (queues_of b l) s lv).
Qed.
End queries.

(** ** The best level and price-time priority *)

Lemma filter_head_split {A} (P : A -> Prop) `{!forall x, Decision (P x)} l i q :
  filter P l = i :: q ->
  exists l1 l2, l = l1 ++ i :: l2 /\ P i /\ forall j, j ∈ l1 -> ~ P j.
Proof.
  induction l as [|x l IH]; [done|]. rewrite filter_cons. case_decide as Hx.
  - intros [= -> _]. exists [], l. split_and!; [done..|]. intros j Hj. by apply elem_of_nil in Hj.
  - intros (l1 & l2 & -> & Hi & Hn)%IH. exists (x :: l1), l2. split_and!; [done..|].
    intros j [->|Hj]%elem_of_cons; auto.
Qed.

Section best.
Context (b : t) (l x : list Z) (s : Side).
Hypothesis Hok : core_ok b l x.

Lemma order_price i : i ∈ l -> 0 < _tick_size b /\ price (node b i) = level_price b (level (node b i)).
Proof.
  intros Hi. destruct (core_orders _ _ _ Hok i Hi) as (_ & Ho & Hb).
  pose proof (core_geometry _ _ _ Hok) as [Hm _].
  by apply price_index_spec in Ho as (? & _ & ?); [|by apply (core_count b l x)|lia].
Qed.

Lemma nearer_better i j :
  i ∈ l -> j ∈ l ->
  BookSpec.better s (price (node b i)) (price (node b j)) = true <->
    nearer s (level (node b i)) (level (node b j)).
Proof.
  intros Hi Hj. destruct (order_price i Hi) as [Ht ->]. destruct (order_price j Hj) as [_ ->].
  unfold BookSpec.better, level_price. destruct s; simpl; rewrite Z.ltb_lt; nia.
Qed.

(** The head of the best level has price-time priority. *)
Lemma best_cases :
  (best b s = kInvalid /\ forall i, i ∈ l -> side (node b i) <> s) \/
  exists i, best b s <> kInvalid /\ head (levels b s).[best b s] = i /\ i ∈ l /\
    side (node b i) = s /\ level (node b i) = best b s /\
    price (node b i) = level_price b (best b s) /\
    BookSpec.best_order (orders b l) s = Some (resting b i) /\
    previous (node b i) = kInvalid.
Proof.
  pose proof (core_queues _ _ _ Hok) as Hq. pose proof (q_occ _ _ Hq s) as Hocc.
  destruct (occ_best _ _ _ _ _ Hocc) as [[-> Hn]|[Hb Hn]]; [left|right].
  - split; [done|]. intros i Hi <-. specialize (Hn (level (node b i))).
    pose proof (resting_in_queue b l i Hi) as Hin. by destruct (queues_of _ _ _ _); [set_solver|].
  - apply (occ_range _ _ _ _ _ Hocc) in Hb as Hr. pose proof (occ_count _ _ _ _ _ Hocc).
    destruct (queues_of b l s (best b s)) as [|i q] eqn:E; [done|]. exists i.
    pose proof (q_level _ _ Hq s (best b s) Hr) as Hl. rewrite E in Hl.
    destruct (filter_head_split _ _ _ _ E) as (l1 & l2 & Heq & [Hs Hlv] & Hn1).
    assert (i ∈ l) as Hi by (rewrite Heq; set_solver).
    split_and!; auto; [unfold kInvalid; lia|by rewrite (level_head _ _ _ Hl)| | |].
    + rewrite <- Hlv. by apply order_price.
    + assert (forall j, j ∈ l -> side (node b j) = s -> ~ nearer s (level (node b j)) (best b s)) as Hnear.
      { intros j Hj Hsj Hnj%Hn. pose proof (resting_in_queue b l j Hj) as Hin. rewrite Hsj in Hin.
        by destruct (queues_of b l s (level (node b j))); [set_solver|]. }
      assert (forall j, j ∈ l1 ++ i :: l2 -> j ∈ l) as Hin by (by rewrite Heq).
      rewrite Heq. unfold orders. rewrite map_app. simpl.
      apply best_order_intro; [done|..]; intros o (j & -> & Hj)%list_elem_of_fmap Hsj; simpl in *.
      * assert (j ∈ l) as Hjl by (apply Hin; set_solver). apply nearer_better; [done|done|].
        rewrite Hlv. specialize (Hnear j Hjl Hsj).
        assert (level (node b j) <> best b s) by (intros ?; by apply (Hn1 j)).
        destruct s; simpl in *; lia.
      * assert (j ∈ l) as Hjl by (apply Hin; set_solver). apply not_true_is_false.
        rewrite nearer_better by done. rewrite Hlv. by apply Hnear.
    + pose proof (level_links _ _ _ Hl) as Hlk. by apply Hlk.
Qed.
End best.

Definition best_price_of (b : t) (s : Side) : Z := match s with Buy => best_bid b | Sell => best_ask b end.

Lemma best_represents b m s :
  represents b m -> best_price_of b s = default 0 (BookSpec.best_price m s).
Proof.
  intros (l & Hok & _ & <-). unfold best_price_of, BookSpec.best_price.
  assert (best_price_of b s = if best b s =? kInvalid then 0 else level_price b (best b s)) as Hbp
    by by destruct s.
  unfold best_price_of in Hbp. rewrite Hbp.
  destruct (best_cases b l [] s Hok) as [[-> Hn]|(i & Hv & _ & _ & _ & _ & Hp & -> & _)].
  - rewrite Z.eqb_refl, best_order_none; [done|].
    intros o (i & -> & Hi)%list_elem_of_fmap. by apply Hn.
  - destruct (Z.eqb_spec (best b s) kInvalid); [done|]. simpl. by rewrite Hp.
Qed.
