(* ===== verification/DenseMatch.v ===== *)
(** * Matching in the dense book refines price-time matching

    [match_level] and [match_loop] walk the opposite side level by level,
    maker by maker; the specification trades, round by round, with the resting
    order that has price-time priority.  They make the same calls on the sink
    and leave the same orders resting.  [submit], [cancel] and [modify] follow. *)

From S2P Require Import Prelude OpenAddressing OrderIndex BookTypes DenseBook Bitmap.
From S2P Require Import LinkedQueue DenseQueues DenseFeed BookFacts DenseQueries.
Import DensePriceOrderBook.

(** ** Unlinking a filled head is unlinking *)

Lemma upd_level_id b s lv f : f (levels b s).[lv] = (levels b s).[lv] -> upd_level b s lv f = b.
Proof. intros Hf. destruct b, s; unfold upd_level; updates; cbn in *; by rewrite Hf, aset_aget. Qed.

Lemma unlink_filled_eq b Q s lv i q2 :
  queues_ok b Q -> Q s lv = i :: q2 -> remaining (node b i) = 0 -> unlink_filled b i lv = unlink b i.
Proof.
  intros Hok Hq H0.
  destruct (unlink_place b Q i lv s [] q2 Hok Hq) as (Es & El & Ep & En). simpl in Ep.
  assert (0 <= lv < _level_count b) as Hlv.
  { apply (queues_ok_range b Q s lv i Hok). rewrite Hq. by left. }
  pose proof (unlink_next_range b Q i lv s [] q2 Hok Hq) as Hn.
  assert (0 <= i) by (apply (q_in _ _ Hok s lv); rewrite Hq; by left).
  destruct (q_level _ _ Hok s lv Hlv) as [_ _ _ Htot].
  assert (forall X, remaining (node X i) = 0 ->
    total_quantity (levels X s).[lv] = total_quantity (levels b s).[lv] ->
    upd_level X s lv (fun l => l <| total_quantity ::= fun q => u64 (q - remaining (node X i)) |>) = X)
    as Hid.
  { intros X HX HT. apply upd_level_id. rewrite HX. destruct (levels X s).[lv] as [h t q].
    updates. simpl in *. f_equal. rewrite Z.sub_0_r, HT, Htot. unfold wrap. apply Z.mod_mod. lia. }
  unfold unlink_filled, unlink. rewrite Ep, Es, El, Z.eqb_refl. cbn [negb]. cbn zeta.
  set (b1 := upd_level b s lv (fun l => l <| head := next (node b i) |>)).
  assert (node b1 i = node b i) as Hb1 by (unfold node, b1; by rewrite nodes_upd_level).
  rewrite Hb1, Ep. destruct (Z.eqb_spec (next (node b i)) kInvalid) as [E|E]; cbn [negb].
  - rewrite Hid; [done|unfold node in *; by rewrite nodes_upd_level, Hb1|].
    unfold b1. rewrite !levels_upd_level_eq, !aget_aset_eq by (autorewrite with arr; rewrite (q_levels _ _ Hok); lia).
    done.
  - rewrite Hid; [done| |].
    + destruct (Hn E). unfold node in *. rewrite nodes_upd_node, aget_aset_ne, Hb1; [done|lia|lia|done].
    + unfold b1. rewrite levels_upd_node, levels_upd_level_eq, aget_aset_eq by (rewrite (q_levels _ _ Hok); lia).
      done.
Qed.

(** ** Updates of one node *)

(** The fields of a resting node the book depends on. *)
Definition relevant (n : Node) : Node := n <| state := New |>.

Lemma relevant_fields n n' :
  relevant n' = relevant n ->
  id n' = id n /\ price n' = price n /\ remaining n' = remaining n /\
  free_next n' = free_next n /\ level n' = level n /\ side n' = side n /\
  previous n' = previous n /\ next n' = next n.
Proof. destruct n, n'. unfold relevant. updates. cbn. intros Hs. injection Hs. intros. by subst. Qed.

Lemma queues_ok_relevant b b' Q :
  queues_ok b Q -> same_levels b b' ->
  (forall s lv i, i ∈ Q s lv -> relevant (node b' i) = relevant (node b i)) ->
  queues_ok b' Q.
Proof.
  intros Hok [(_ & _ & _ & Hc) Hp Hs] Hn. constructor; rewrite ?Hc, ?Hp; try apply Hok.
  - intros s. destruct (Hs s) as (-> & _). apply Hok.
  - intros s. destruct (Hs s) as (_ & -> & ->). apply Hok.
  - intros s lv i Hi. destruct (relevant_fields _ _ (Hn s lv i Hi)) as (_ & _ & _ & _ & -> & -> & _).
    by apply Hok.
  - intros s lv Hlv. destruct (Hs s) as (-> & _). destruct (q_level _ _ Hok s lv Hlv).
    constructor; auto.
    + eapply linked_ext; [|done]. intros i Hi.
      by destruct (relevant_fields _ _ (Hn s lv i Hi)) as (_ & _ & _ & _ & _ & _ & ? & ?).
    + rewrite (sum_remaining_ext (_nodes b)); [done|]. intros i Hi.
      apply (relevant_fields _ _ (Hn s lv i Hi)).
Qed.

Section touch.
Context (b : t) (l x : list Z) (i : Z) (f : Node -> Node).
Hypothesis Hok : core_ok b l x.
Hypothesis Hpos : 0 <= i.
Hypothesis Hid : forall n, id (f n) = id n /\ free_next (f n) = free_next n.
Hypothesis Hres : i ∈ l -> forall n, relevant (f n) = relevant n.
Let b' : t := upd_node b i f.

Let touch_field j : id (node b' j) = id (node b j) /\ free_next (node b' j) = free_next (node b j).
Proof.
  unfold b', node. rewrite nodes_upd_node. split; apply (aget_update_field _ _ i j f); apply Hid.
Qed.

Lemma touch_resting j : j ∈ l -> relevant (node b' j) = relevant (node b j).
Proof.
  intros Hj. destruct (decide (i = j)) as [<-|Hne].
  - unfold b', node. rewrite nodes_upd_node. apply (aget_update_field relevant _ i i f). auto.
  - apply (resting_range _ _ _ Hok) in Hj. unfold b', node. rewrite nodes_upd_node.
    by rewrite aget_aset_ne by lia.
Qed.

Lemma touch_core : core_ok b' l x /\ orders b' l = orders b l /\ (live b l -> live b' l).
Proof.
  assert (same_levels b b') as Hsame by apply same_levels_node.
  split_and!.
  - constructor.
    + apply (queues_ok_ext _ (queues_of b l)).
      * intros s lv. apply queues_of_ext. intros j Hj.
        by destruct (relevant_fields _ _ (touch_resting j Hj)) as (_ & _ & _ & _ & ? & ? & _).
      * apply (queues_ok_relevant b); [apply Hok|done|].
        intros s lv j [Hj _]%queues_of_elem. by apply touch_resting.
    + apply (pool_ok_ext b _ (l ++ x)); [done|done|apply Hsame|done| |apply Hok].
      intros j _. apply touch_field.
    + apply (index_ok_ext b _ (l ++ x)); [done|apply Hsame|done| |apply Hok].
      intros j _. apply touch_field.
    + intros j Hj. unfold order_ok. rewrite (same_levels_price_index b) by done.
      destruct (relevant_fields _ _ (touch_resting j Hj)) as (_ & -> & -> & _ & -> & _).
      by apply Hok.
    + destruct (same_geometry _ _ Hsame) as (-> & -> & _). rewrite (same_pool _ _ Hsame). apply Hok.
  - apply orders_ext. intros j Hj.
    by destruct (relevant_fields _ _ (touch_resting j Hj)) as (? & ? & ? & _ & _ & ? & _).
  - intros Hl j Hj. destruct (relevant_fields _ _ (touch_resting j Hj)) as (_ & _ & -> & _).
    by apply Hl.
Qed.
End touch.

(** ** Nodes in hand are out of the queues' reach *)

Lemma unlink_outside b Q s lv i j :
  queues_ok b Q -> i ∈ Q s lv -> j ∉ Q s lv -> 0 <= j -> node (unlink b i) j = node b j.
Proof.
  intros Hok Hin Hj H0. pose proof (q_in _ _ Hok _ _ _ Hin) as (Hi & _).
  apply list_elem_of_split in Hin as Hsplit. destruct Hsplit as (q1 & q2 & Hq).
  pose proof (unlink_previous_range b Q i lv s q1 q2 Hok Hq) as Hp.
  pose proof (unlink_next_range b Q i lv s q1 q2 Hok Hq) as Hn.
  destruct (unlink_place b Q i lv s q1 q2 Hok Hq) as (_ & _ & Ep & En).
  assert (_nodes (unlink b i) = unlinked_nodes b i) as Hnodes.
  { rewrite unlink_clear_occupied. cbn zeta. rewrite <- (unlink_links_nodes b i) by done.
    case_match; rewrite ?nodes_clear_occupied; done. }
  unfold node at 1. rewrite Hnodes. rewrite Hq, elem_of_app, elem_of_cons in Hj.
  apply unlinked_same; auto.
  - rewrite Ep. intros Hv ->. destruct (last_or_cases kInvalid q1); tauto.
  - rewrite En. intros Hv ->. destruct (first_or_cases kInvalid q2); tauto.
Qed.

Lemma hand_not_resting b l x j : core_ok b l x -> j ∈ x -> j ∉ l.
Proof.
  intros Hok Hj Hl. pose proof (used_nodup _ _ _ Hok) as Hnd.
  apply NoDup_app in Hnd as (_ & Hd & _). by apply (Hd j).
Qed.

Lemma hand_range b l x j : core_ok b l x -> j ∈ x -> 0 <= j < alen (_nodes b).
Proof. intros Hok Hj. apply (used_range _ _ _ Hok), elem_of_app. by right. Qed.

Lemma remove_outside b l x i j :
  core_ok b l x -> i ∈ l -> j ∈ x -> node (release (unlink b i) i) j = node b j.
Proof.
  intros Hok Hi Hj. rewrite (release_reads _ (without i l) x i) by
    (by apply unlink_core || (apply elem_of_app; by right)).
  apply (unlink_outside b (queues_of b l) (side (node b i)) (level (node b i))).
  - apply Hok.
  - by apply resting_in_queue.
  - intros [Hl _]%queues_of_elem. by apply (hand_not_resting b l x j).
  - by apply (hand_range b l x j Hok).
Qed.

(** ** One round *)

Definition level_round (b : t) (taker level_index price : Z) : t * list SinkEvent :=
  let s := opposite (side (node b taker)) in
  let maker := head (levels b s).[level_index] in
  let quantity :=
    if remaining (node b taker) <? remaining (node b maker)
    then remaining (node b taker) else remaining (node b maker) in
  let b := upd_node b taker (fun n => n <| remaining ::= fun r => u64 (r - quantity) |>) in
  let b := upd_node b maker (fun n => n <| remaining ::= fun r => u64 (r - quantity) |>) in
  let b := upd_level b s level_index
    (fun l => l <| total_quantity ::= fun q => u64 (q - quantity) |>) in
  let traded := on_trade (Trade.mk (id (node b maker)) (id (node b taker)) price quantity) in
  if remaining (node b maker) =? 0 then
    let b := upd_node b maker (fun n => n <| state := Filled |>) in
    (release (unlink_filled b maker level_index) maker,
     [traded; on_order (OrderUpdate.mk (id (node b maker)) Filled 0)])
  else
    let b := upd_node b maker (fun n => n <| state := PartiallyFilled |>) in
    (b, [traded; on_order (OrderUpdate.mk (id (node b maker)) PartiallyFilled
      (remaining (node b maker)))]).

Lemma match_level_S n b taker lv price out :
  match_level (S n) b taker lv price out =
    if (remaining (node b taker) =? 0) ||
       (head (levels b (opposite (side (node b taker)))).[lv] =? kInvalid) then (b, out)
    else
      let '(b', ev) := level_round b taker lv price in match_level n b' taker lv price (out ++ ev).
Proof.
  cbn [match_level]. unfold level_round. cbn zeta. case_match; [done|].
  match goal with |- (if ?c then _ else _) = _ => destruct c end; by rewrite <- app_assoc.
Qed.

Section round.
Context (b : t) (l : list Z) (k i : Z).
Let s : Side := opposite (side (node b k)).
Let lv : Z := level (node b i).
Hypothesis Hok : core_ok b l [k].
Hypothesis Hlive : live b l.
Hypothesis Hi : i ∈ l.
Hypothesis Hside : side (node b i) = s.
Hypothesis Hhead : head (levels b s).[lv] = i.
Hypothesis Hrem : 0 < remaining (node b k) < 2 ^ 64.
Let q : Z := Z.min (remaining (node b k)) (remaining (node b i)).

Let range_k : 0 <= k < alen (_nodes b).
Proof. apply (hand_range b l [k]); [done|by left]. Qed.
Let range_i : 0 <= i < alen (_nodes b).
Proof. by apply (resting_range b l [k]). Qed.
Let fresh : k ∉ l.
Proof. apply (hand_not_resting b l [k]); [done|by left]. Qed.
Let differ : i <> k.
Proof. intros E. apply fresh. by rewrite <- E. Qed.

Let b1 : t := upd_node b k (fun n => n <| remaining ::= fun r => u64 (r - q) |>).
Let b3 : t := reduced b1 i q.

Let b1_core : core_ok b1 l [k] /\ orders b1 l = orders b l /\ live b1 l.
Proof.
  destruct (touch_core b l [k] k (fun n => n <| remaining ::= fun r => u64 (r - q) |>))
    as (? & ? & ?); auto; [lia|done].
Qed.

Let b1_node j : 0 <= j -> node b1 j =
  if decide (j = k) then (node b k) <| remaining := remaining (node b k) - q |> else node b j.
Proof.
  intros Hj. unfold b1. rewrite node_upd_node by done. case_decide; [|done]. updates. f_equal.
  apply wrap_small. pose proof (Hlive i Hi). unfold q. lia.
Qed.

Let b1_i : node b1 i = node b i.
Proof. rewrite b1_node by lia. by rewrite decide_False. Qed.

Let q_ok : 0 < q <= remaining (node b1 i).
Proof. rewrite b1_i. pose proof (Hlive i Hi). unfold q. lia. Qed.

Let b3_core : core_ok b3 l [k] /\ frame b1 b3.
Proof. apply reduced_core; [apply b1_core|done|lia]. Qed.

Let b3_node j : 0 <= j -> node b3 j =
  if decide (j = i) then (node b i) <| remaining := remaining (node b i) - q |> else
  if decide (j = k) then (node b k) <| remaining := remaining (node b k) - q |> else node b j.
Proof.
  intros Hj. unfold b3. rewrite (reduced_node b1 l [k] i q) by (apply b1_core || done || lia).
  rewrite b1_i. case_decide; [done|]. by apply b1_node.
Qed.

Let b3_i : node b3 i = (node b i) <| remaining := remaining (node b i) - q |>.
Proof. rewrite b3_node by lia. by rewrite decide_True. Qed.

Let b3_k : node b3 k = (node b k) <| remaining := remaining (node b k) - q |>.
Proof. rewrite b3_node by lia. rewrite decide_False by done. by rewrite decide_True. Qed.

Let b3_geometry : geometry b3 = geometry b.
Proof. rewrite (frame_geometry b1); [done|apply b3_core]. Qed.

(** The round, its updates named. *)
Lemma level_round_eq price :
  level_round b k lv price =
    let st := if remaining (node b i) =? q then Filled else PartiallyFilled in
    let b4 := upd_node b3 i (fun n => n <| state := st |>) in
    (if remaining (node b i) =? q then release (unlink_filled b4 i lv) i else b4,
     [on_trade (Trade.mk (id (node b i)) (id (node b k)) price q);
      on_order (OrderUpdate.mk (id (node b i)) st (remaining (node b i) - q))]).
Proof.
  unfold level_round. fold s. rewrite Hhead.
  assert ((if remaining (node b k) <? remaining (node b i) then remaining (node b k)
    else remaining (node b i)) = q) as ->.
  { unfold q. destruct (Z.ltb_spec (remaining (node b k)) (remaining (node b i))); lia. }
  fold b1. cbn zeta.
  assert (upd_level (upd_node b1 i (fun n => n <| remaining ::= fun r => u64 (r - q) |>)) s lv
    (fun l => l <| total_quantity ::= fun t => u64 (t - q) |>) = b3) as ->.
  { unfold b3, reduced. by rewrite b1_i, Hside. }
  rewrite b3_i, b3_k. updates. cbn [remaining id].
  assert (forall st, node (upd_node b3 i (fun n => n <| state := st |>)) i =
    (node b3 i) <| state := st |>) as Hst.
  { intros st. rewrite node_upd_node; [by rewrite decide_True| |lia].
    destruct b3_core as [Hc _]. by apply (resting_range _ _ _ Hc). }
  destruct (Z.eqb_spec (remaining (node b i)) q) as [E|E].
  - destruct (Z.eqb_spec (remaining (node b i) - q) 0); [|lia].
    specialize (Hst Filled). revert Hst. updates. intros ->. rewrite b3_i. updates. cbn [id].
    by rewrite E, Z.sub_diag.
  - destruct (Z.eqb_spec (remaining (node b i) - q) 0); [lia|].
    specialize (Hst PartiallyFilled). revert Hst. updates. intros ->. rewrite b3_i. by updates.
Qed.

Let queue_head : exists q2, queues_of b l s lv = i :: q2.
Proof.
  assert (i ∈ queues_of b l s lv) as Hin by (by apply queues_of_elem).
  pose proof (queues_ok_range b _ s lv i (core_queues _ _ _ Hok) Hin) as Hr.
  pose proof (level_head _ _ _ (q_level _ _ (core_queues _ _ _ Hok) s lv Hr)) as Hh.
  rewrite Hhead in Hh. destruct (queues_of b l s lv) as [|j q2]; [by apply elem_of_nil in Hin|].
  simpl in Hh. subst j. by exists q2.
Qed.

Let b4 (st : OrderState) : t := upd_node b3 i (fun n => n <| state := st |>).

Let b4_core st : core_ok (b4 st) l [k] /\ orders (b4 st) l = orders b3 l /\
  (live b3 l -> live (b4 st) l).
Proof. apply touch_core; [apply b3_core|lia|done|done]. Qed.

Let b4_node st j : 0 <= j ->
  node (b4 st) j = if decide (j = i) then (node b3 i) <| state := st |> else node b3 j.
Proof.
  intros Hj. unfold b4. apply node_upd_node; [|done].
  destruct b3_core as [Hc _]. by apply (resting_range _ _ _ Hc).
Qed.

Lemma maker_gone st :
  remaining (node b i) = q ->
  let b' := release (unlink_filled (b4 st) i lv) i in
  core_ok b' (without i l) [k] /\ live b' (without i l) /\ geometry b' = geometry b /\
  orders b' (without i l) = BookSpec.reduce (orders b l) (id (node b i)) q /\
  node b' k = (node b k) <| remaining := remaining (node b k) - q |>.
Proof.
  intros E. destruct (b4_core st) as (Hc & Ho & _). destruct b1_core as (Hc1 & Ho1 & Hl1).
  destruct queue_head as [q2 Hq].
  assert (queues_of (b4 st) l s lv = i :: q2) as Hq4.
  { rewrite <- Hq. apply queues_of_ext. intros j Hj. apply (resting_range _ _ _ Hok) in Hj.
    rewrite b4_node, b3_i, b3_node by lia.
    destruct (decide (j = i)) as [Ej|]; [by rewrite Ej|].
    destruct (decide (j = k)) as [Ej|]; [by rewrite Ej|done]. }
  assert (node (b4 st) i = (node b3 i) <| state := st |>) as Hn4i
    by (rewrite b4_node by lia; by rewrite decide_True).
  cbn zeta. rewrite (unlink_filled_eq (b4 st) (queues_of (b4 st) l) s lv i q2);
    [|apply Hc|done|rewrite Hn4i, b3_i; updates; cbn [remaining]; lia].
  destruct (remove_core (b4 st) l [k] i Hc Hi) as (Hc' & Ho' & Hg & Hp).
  split_and!; [done| | | |].
  - intros j Hj. destruct (strip_fields _ _ (Hp j ltac:(apply elem_of_app; by left))) as (_ & _ & -> & _).
    apply elem_without in Hj as [Hne Hj]. pose proof (resting_range _ _ _ Hok j Hj).
    rewrite b4_node by lia. rewrite decide_False by done. rewrite b3_node by lia.
    rewrite !decide_False; [by apply Hlive|by intros Ej; rewrite Ej in Hj|done].
  - rewrite Hg. apply b3_geometry.
  - rewrite Ho', Ho, Hn4i, b3_i. updates. cbn [id]. rewrite <- b1_i.
    unfold b3. rewrite (orders_reduced_remove b1 l [k] i q Hc1 Hi) by lia.
    rewrite Ho1, b1_i. symmetry. apply (orders_reduce_all b l [k]); auto. lia.
  - rewrite (remove_outside _ l [k]) by (done || by left).
    rewrite b4_node by lia. by rewrite decide_False.
Qed.

Lemma maker_stays st :
  remaining (node b i) <> q ->
  core_ok (b4 st) l [k] /\ live (b4 st) l /\ geometry (b4 st) = geometry b /\
  orders (b4 st) l = BookSpec.reduce (orders b l) (id (node b i)) q /\
  node (b4 st) k = (node b k) <| remaining := remaining (node b k) - q |>.
Proof.
  intros E. destruct (b4_core st) as (Hc & Ho & Hl). destruct b1_core as (Hc1 & Ho1 & Hl1).
  split_and!; [done| |apply b3_geometry| |].
  - apply Hl. intros j Hj. pose proof (resting_range _ _ _ Hok j Hj). rewrite b3_node by lia.
    pose proof q_ok as Hqi. rewrite b1_i in Hqi.
    destruct (decide (j = i)); [updates; cbn [remaining]; lia|].
    destruct (decide (j = k)) as [Ej|]; [by rewrite Ej in Hj|by apply Hlive].
  - rewrite Ho. unfold b3. rewrite (orders_reduced b1 l [k] i q Hc1 Hi) by (rewrite ?b1_i; lia).
    by rewrite Ho1, b1_i.
  - rewrite b4_node by lia. by rewrite decide_False.
Qed.

(** A round of the code is a round of the specification. *)
Lemma level_round_ok :
  exists b' l', level_round b k lv (price (node b i)) =
      (b', round_events (id (node b k)) (resting b i) (remaining (node b k))) /\
    core_ok b' l' [k] /\ live b' l' /\ geometry b' = geometry b /\
    orders b' l' = BookSpec.reduce (orders b l) (id (node b i)) q /\
    node b' k = (node b k) <| remaining := remaining (node b k) - q |> /\
    (l' = l \/ l' = without i l).
Proof.
  rewrite level_round_eq. cbn zeta. unfold round_events, round_quantity. cbn [rest_remaining resting].
  fold q. destruct (Z.eqb_spec (remaining (node b i)) q) as [E|E].
  - destruct (Z.eqb_spec (remaining (node b i) - q) 0); [|lia].
    eexists _, (without i l). split; [done|]. fold (b4 Filled).
    destruct (maker_gone Filled E) as (? & ? & ? & ? & ?). split_and!; auto.
  - destruct (Z.eqb_spec (remaining (node b i) - q) 0); [lia|].
    eexists _, l. split; [done|]. fold (b4 PartiallyFilled).
    destruct (maker_stays PartiallyFilled E) as (? & ? & ? & ? & ?). split_and!; auto.
Qed.
End round.

(** ** The loops *)

Lemma reduce_elem l k q o :
  o ∈ BookSpec.reduce l k q ->
  exists o', o' ∈ l /\ rest_side o = rest_side o' /\ rest_price o = rest_price o'.
Proof.
  unfold BookSpec.reduce. rewrite list_elem_of_omap. intros (o' & Ho & Hr). exists o'.
  unfold BookSpec.reduce_order in Hr. repeat case_decide; simplify_eq; by split_and!.
Qed.

(** No resting order of side [s] is better than price [p]. *)
Definition none_better (m : list Resting) (s : Side) (p : Z) : Prop :=
  forall o, o ∈ m -> rest_side o = s -> BookSpec.better s (rest_price o) p = false.

Lemma none_better_reduce m s p k q :
  none_better m s p -> none_better (BookSpec.reduce m k q) s p.
Proof. intros Hn o (o' & Ho & -> & ->)%reduce_elem. by apply Hn. Qed.

Lemma level_head_elem b l x s lv :
  core_ok b l x -> 0 <= lv < _level_count b -> head (levels b s).[lv] <> kInvalid ->
  head (levels b s).[lv] ∈ l /\ side (node b (head (levels b s).[lv])) = s /\
  level (node b (head (levels b s).[lv])) = lv.
Proof.
  intros Hok Hlv Hne. pose proof (core_queues _ _ _ Hok) as Hq.
  rewrite (level_head _ _ _ (q_level _ _ Hq s lv Hlv)) in *.
  destruct (first_or_cases kInvalid (queues_of b l s lv)) as [|Hin]; [done|].
  by apply queues_of_elem in Hin.
Qed.

Lemma level_best b l x s lv :
  core_ok b l x -> 0 <= lv < _level_count b -> none_better (orders b l) s (level_price b lv) ->
  head (levels b s).[lv] <> kInvalid -> best b s = lv.
Proof.
  intros Hok Hlv Hn Hne. destruct (level_head_elem b l x s lv Hok Hlv Hne) as (Hi & Hs & Hl).
  set (i := head (levels b s).[lv]) in *.
  destruct (order_price b l x Hok i Hi) as [Ht Hp].
  destruct (best_cases b l x s Hok) as [[_ Hnone]|(j & _ & _ & Hj & Hsj & Hlj & Hpj & _ & _)].
  { by destruct (Hnone i Hi). }
  assert (~ nearer s (best b s) lv) as Hfar.
  { intros Hnear. rewrite <- Hl, <- Hlj in Hnear. apply (nearer_better b l x s Hok j i Hj Hi) in Hnear.
    rewrite Hp, Hl in Hnear. specialize (Hn (resting b j)). simpl in Hn.
    rewrite Hn in Hnear; [done|by apply list_elem_of_fmap_2|done]. }
  pose proof (q_occ _ _ (core_queues _ _ _ Hok) s) as Hocc.
  assert (nonempty (queues_of b l s lv) = true) as Hocclv.
  { pose proof (resting_in_queue b l i Hi) as Hin. rewrite Hs, Hl in Hin.
    by destruct (queues_of b l s lv); [apply elem_of_nil in Hin|]. }
  destruct (occ_best _ _ _ _ _ Hocc) as [[_ Hx]|[_ Hx]].
  - by rewrite Hx in Hocclv.
  - assert (~ nearer s lv (best b s)) as Hc by (intros Hc; by rewrite Hx in Hocclv).
    destruct s; simpl in *; lia.
Qed.

Section loops.
Context (k : Z) (taker : Node) (ty : OrderType).
Let s : Side := opposite (side taker).

(** The taker is in hand with [remaining] shares to go. *)
Definition in_hand (b : t) (remaining : Z) : Prop :=
  node b k = taker <| DensePriceOrderBook.remaining := remaining |>.

Abbreviation spec m r :=
  (BookSpec.match_order m (id taker) (side taker) ty (price taker) r).

Definition crossing (p : Z) : Prop :=
  BookSpec.crosses (side taker) ty (price taker) p = true.

Lemma match_level_sim fuel b l lv r out :
  core_ok b l [k] -> live b l -> in_hand b r -> 0 <= r < 2 ^ 64 ->
  0 <= lv < _level_count b -> none_better (orders b l) s (level_price b lv) ->
  crossing (level_price b lv) -> (length l < fuel)%nat ->
  exists b' l' r' ev, match_level fuel b k lv (level_price b lv) out = (b', out ++ ev) /\
    core_ok b' l' [k] /\ live b' l' /\ in_hand b' r' /\ 0 <= r' <= r /\ geometry b' = geometry b /\
    (length l' <= length l)%nat /\
    (r' = 0 \/ head (levels b s).[lv] = kInvalid \/ (length l' < length l)%nat) /\
    spec (orders b l) r = prepend ev (spec (orders b' l') r').
Proof.
  revert b l r out. induction fuel as [|fuel IH]; intros b l r out Hok Hl Hh Hr Hlv Hn Hc Hf; [lia|].
  rewrite match_level_S. pose proof Hh as Hhk. unfold in_hand in Hhk. rewrite Hhk. updates.
  cbn [remaining side]. fold s.
  destruct (Z.eqb_spec r 0) as [->|Hr0]; cbn [orb].
  { exists b, l, 0, []. rewrite app_nil_r, prepend_nil. split_and!; auto; lia. }
  destruct (Z.eqb_spec (head (levels b s).[lv]) kInvalid) as [Hhd|Hhd].
  { exists b, l, r, []. rewrite app_nil_r, prepend_nil. split_and!; auto; lia. }
  pose proof (level_best b l [k] s lv Hok Hlv Hn Hhd) as Hbest.
  destruct (best_cases b l [k] s Hok) as [[Hb _]|(i & _ & Hi & Hil & Hsi & Hli & Hpi & Hbo & _)].
  { pose proof (core_count b l [k] Hok). unfold kInvalid in *. lia. }
  rewrite Hbest in *.
  assert (side (node b k) = side taker /\ remaining (node b k) = r /\ id (node b k) = id taker)
    as (Es & Er & Eid) by (rewrite Hhk; by updates).
  destruct (level_round_ok b l k i Hok Hl Hil ltac:(by rewrite Es) ltac:(by rewrite Es, Hli)
    ltac:(lia)) as (b1 & l1 & Hround & Hok1 & Hl1 & Hg1 & Ho1 & Hk1 & Hlen1).
  rewrite Hli, Hpi, Eid, Er in Hround. rewrite Hround. rewrite Er in Ho1, Hk1.
  set (q := Z.min r (remaining (node b i))) in *.
  pose proof (Hl i Hil) as Hpos. destruct (geometry_fields _ _ Hg1) as (_ & Hm1 & Ht1 & Hc1).
  assert (level_price b1 lv = level_price b lv) as Hlp by (unfold level_price; congruence).
  assert (spec (orders b l) r = prepend (round_events (id taker) (resting b i) r)
    (spec (orders b1 l1) (r - q))) as Hstep.
  { rewrite match_order_step. unfold counterparty. destruct (Z.eqb_spec r 0); [done|].
    fold s. rewrite Hbo. cbn [rest_price resting]. rewrite Hpi, Hc. cbn zeta.
    unfold round_quantity. cbn [rest_remaining rest_id resting]. fold q. by rewrite Ho1. }
  destruct (decide (r - q = 0)) as [Hz|Hz].
  - exists b1, l1, 0, (round_events (id taker) (resting b i) r).
    assert (in_hand b1 0) as Hh1 by (unfold in_hand; rewrite Hk1, Hhk, Hz; by updates).
    split_and!; auto; try lia; [| |by rewrite Hstep, Hz].
    + destruct fuel as [|fuel']; [done|]. rewrite match_level_S.
      unfold in_hand in Hh1. rewrite Hh1. updates. by cbn [remaining].
    + destruct Hlen1 as [->| ->]; [lia|apply length_filter].
  - assert (l1 = without i l \/ l1 = l) as Hlen by tauto.
    assert (q = remaining (node b i)) as Hq by lia.
    assert ((length l1 < length l)%nat) as Hshort.
    { rewrite <- (length_map (resting b1)), <- (length_map (resting b)).
      change (length (orders b1 l1) < length (orders b l))%nat. rewrite Ho1, Hq.
      apply (reduce_shorter _ (resting b i)). by apply list_elem_of_fmap_2. }
    destruct (IH b1 l1 (r - q) (out ++ round_events (id taker) (resting b i) r))
      as (b' & l' & r' & ev & Hml & Hok' & Hl' & Hh' & Hr' & Hg' & Hlen' & _ & Hsp); auto; try lia.
    + unfold in_hand. rewrite Hk1, Hhk. by updates.
    + rewrite Hlp, Ho1. by apply none_better_reduce.
    + by rewrite Hlp.
    + rewrite Hlp in Hml. rewrite Hml. exists b', l', r', (round_events (id taker) (resting b i) r ++ ev).
      split_and!; auto; try lia; [by rewrite app_assoc|congruence|].
      by rewrite Hstep, Hsp, prepend_app.
Qed.

Lemma spec_done m r :
  counterparty (side taker) ty (price taker) m r = None -> spec m r = (m, r, []).
Proof. intros Hc. by rewrite match_order_step, Hc. Qed.

Lemma spec_filled m : spec m 0 = (m, 0, []).
Proof. by apply spec_done. Qed.

Lemma best_opposite b : (if is_buy (side taker) then _best_ask b else _best_bid b) = best b s.
Proof. unfold s. by destruct (side taker). Qed.

Lemma code_crosses p :
  is_limit ty && (if is_buy (side taker) then price taker <? p else p <? price taker) =
    negb (BookSpec.crosses (side taker) ty (price taker) p).
Proof. destruct ty, (side taker); simpl; try done; by rewrite Z.ltb_antisym. Qed.

Lemma match_loop_sim fuel b l r out :
  core_ok b l [k] -> live b l -> in_hand b r -> 0 <= r < 2 ^ 64 -> (length l < fuel)%nat ->
  exists b' l' r' ev, match_loop fuel b k ty out = (b', out ++ ev) /\
    core_ok b' l' [k] /\ live b' l' /\ in_hand b' r' /\ 0 <= r' <= r /\ geometry b' = geometry b /\
    spec (orders b l) r = (orders b' l', r', ev).
Proof.
  revert b l r out. induction fuel as [|fuel IH]; intros b l r out Hok Hl Hh Hr Hf; [lia|].
  cbn [match_loop]. pose proof Hh as Hhk. unfold in_hand in Hhk. rewrite Hhk. updates.
  cbn [remaining side price]. rewrite best_opposite, code_crosses.
  destruct (Z.eqb_spec r 0) as [->|Hr0].
  { exists b, l, 0, []. rewrite app_nil_r, spec_filled. split_and!; auto; lia. }
  assert (spec (orders b l) r = (orders b l, r, []) ->
    exists b' l' r' ev, (b, out) = (b', out ++ ev) /\
    core_ok b' l' [k] /\ live b' l' /\ in_hand b' r' /\ 0 <= r' <= r /\ geometry b' = geometry b /\
    spec (orders b l) r = (orders b' l', r', ev)) as Hstop.
  { intros ->. exists b, l, r, []. rewrite app_nil_r. split_and!; auto; lia. }
  assert (counterparty (side taker) ty (price taker) (orders b l) r =
    match BookSpec.best_order (orders b l) s with
    | Some maker => if BookSpec.crosses (side taker) ty (price taker) (rest_price maker)
        then Some maker else None
    | None => None
    end) as Hcp.
  { unfold counterparty. by destruct (Z.eqb_spec r 0). }
  destruct (best_cases b l [k] s Hok) as [[-> Hnone]|(i & Hb & Hhd & Hil & Hsi & Hli & Hpi & Hbo & _)].
  { rewrite Z.eqb_refl. apply Hstop, spec_done. rewrite Hcp, best_order_none; [done|].
    intros o (j & -> & Hj)%list_elem_of_fmap. by apply Hnone. }
  rewrite Hbo in Hcp. cbn [rest_price resting] in Hcp. rewrite Hpi in Hcp.
  destruct (Z.eqb_spec (best b s) kInvalid); [done|].
  destruct (BookSpec.crosses (side taker) ty (price taker) (level_price b (best b s))) eqn:Hc;
    cbn [negb]; [|by apply Hstop, spec_done].
  assert (0 <= best b s < _level_count b) as Hlv.
  { rewrite <- Hli. apply (price_index_range b (price (node b i)));
      [by apply (core_count b l [k])|by apply (core_orders _ _ _ Hok)]. }
  pose proof (used_length _ _ _ Hok) as Hu. rewrite length_app in Hu. unfold alen in Hu. simpl in Hu.
  destruct (match_level_sim (S (length (_nodes b))) b l (best b s) r out)
    as (b1 & l1 & r1 & ev & -> & Hok1 & Hl1 & Hh1 & Hr1 & Hg1 & Hlen1 & Hend & ->); auto; [|lia|].
  { intros o (j & -> & Hj)%list_elem_of_fmap Hsj. simpl in *. rewrite <- Hpi.
    apply not_true_is_false. rewrite (nearer_better b l [k] s Hok) by done. rewrite Hli.
    intros Hnear. destruct (occ_best _ _ _ _ _ (q_occ _ _ (core_queues _ _ _ Hok) s)) as [[? _]|[_ Hx]];
      [done|]. specialize (Hx _ Hnear). pose proof (resting_in_queue b l j Hj) as Hin. rewrite Hsj in Hin.
    by destruct (queues_of b l s (level (node b j))); [apply elem_of_nil in Hin|]. }
  rewrite Hhd in Hend. assert (i <> kInvalid) as Hiv.
  { apply (used_valid _ _ _ Hok), elem_of_app. by left. }
  destruct (decide (r1 = 0)) as [->|Hr1'].
  - exists b1, l1, 0, ev. rewrite spec_filled. simpl. rewrite app_nil_r.
    split_and!; auto; try lia; []. destruct fuel as [|fuel']; [done|]. cbn [match_loop].
    unfold in_hand in Hh1. rewrite Hh1. updates. by cbn [remaining].
  - destruct (IH b1 l1 r1 (out ++ ev)) as (b' & l' & r' & ev' & -> & ? & ? & ? & ? & Hg & ->); auto; [lia..|].
    exists b', l', r', (ev ++ ev'). split_and!; auto; try lia; [by rewrite app_assoc|congruence].
Qed.
End loops.
