(* ===== verification/DenseExchange.v ===== *)
(** * The simulated-exchange operations of the dense book

    [submit], [cancel] and [modify] act as [BookSpec.settle] and
    [BookSpec.remove] on the represented orders and make the same calls on the
    sink; with [DenseFeed] this covers every operation of the class, and any
    mix of them in sequence. *)

From S2P Require Import Prelude OpenAddressing OrderIndex BookTypes DenseBook Bitmap.
From S2P Require Import LinkedQueue DenseQueues DenseFeed BookFacts DenseQueries DenseMatch.
Import DensePriceOrderBook.

(** ** Abstract operations *)

Definition can_submit (b : t) (m : list Resting) (r : OrderRequest.t) : bool :=
  valid_id (OrderRequest.id r) && negb (OrderRequest.quantity r =? 0) &&
  bool_decide (BookSpec.lookup m (OrderRequest.id r) = None) &&
  (negb (is_limit (OrderRequest.type r)) ||
   bool_decide (is_Some (price_index b (OrderRequest.price r)))) &&
  (Z.of_nat (length m) <? _order_capacity b).

Definition submit_spec (b : t) (m : list Resting) (r : OrderRequest.t) :
    list Resting * bool * list SinkEvent :=
  if can_submit b m r then
    accepted (BookSpec.settle m (OrderRequest.id r) (OrderRequest.side r) (OrderRequest.type r)
      (OrderRequest.price r) (OrderRequest.quantity r))
  else (m, false, [on_order (OrderUpdate.mk (OrderRequest.id r) Rejected (OrderRequest.quantity r))]).

Definition modify_spec (b : t) (m : list Resting) (k p q : Z) :
    list Resting * bool * list SinkEvent :=
  match BookSpec.lookup m k with
  | Some o =>
      if negb (q =? 0) && bool_decide (is_Some (price_index b p)) then
        accepted (BookSpec.settle (BookSpec.remove m k) k (rest_side o) Limit p q)
      else (m, false, [])
  | None => (m, false, [])
  end.

(** [r] is the outcome [spec] promises, its calls appended to [out]. *)
Definition outcome (b : t) (out : list SinkEvent) (r : t * bool * list SinkEvent)
    (spec : list Resting * bool * list SinkEvent) : Prop :=
  goes_to b r.1.1 spec.1.1 /\ r.1.2 = spec.1.2 /\ r.2 = out ++ spec.2.

(** ** What becomes of the order in hand *)

Section hand.
Context (b : t) (l : list Z) (k : Z) (st : OrderState).
Hypothesis Hok : core_ok b l [k].
Hypothesis Hlive : live b l.

Let range : 0 <= k < alen (_nodes b).
Proof. apply (hand_range b l [k]); [done|by left]. Qed.

Let touched :
  core_ok (upd_node b k (fun n => n <| state := st |>)) l [k] /\
  orders (upd_node b k (fun n => n <| state := st |>)) l = orders b l /\
  live (upd_node b k (fun n => n <| state := st |>)) l.
Proof.
  destruct (touch_core b l [k] k (fun n => n <| state := st |>)) as (? & ? & ?); auto; lia.
Qed.

Lemma touched_node :
  node (upd_node b k (fun n => n <| state := st |>)) k = (node b k) <| state := st |>.
Proof. rewrite node_upd_node by lia. by rewrite decide_True. Qed.

Lemma drop_hand :
  goes_to b (release (upd_node b k (fun n => n <| state := st |>)) k) (orders b l).
Proof.
  destruct touched as (Hc & Ho & Hl). destruct (release_orders _ _ _ _ Hc) as [Hor Hlr].
  split; [|done]. exists l. split_and!; [by apply release_core|by apply Hlr|congruence].
Qed.

Lemma rest_hand :
  order_ok b (node b k) -> 0 < remaining (node b k) -> next (node b k) = kInvalid ->
  goes_to b (append (upd_node b k (fun n => n <| state := st |>)) k (level (node b k)))
    (orders b l ++ [resting b k]).
Proof.
  intros Hord Hpos Hn. destruct touched as (Hc & Ho & Hl). pose proof touched_node as Ht.
  set (b1 := upd_node b k (fun n => n <| state := st |>)) in *.
  assert (geometry b1 = geometry b) as Hg by done.
  destruct (append_represents b1 l k Hc Hl) as [Hr Hga].
  - unfold order_ok. rewrite (geometry_price_index b) by done. by rewrite Ht.
  - by rewrite Ht.
  - by rewrite Ht.
  - rewrite Ht in Hr, Hga. rewrite Ho in Hr. unfold resting at 1 in Hr. rewrite Ht in Hr.
    split; [done|exact (eq_trans Hga Hg)].
Qed.
End hand.

(** The tail [submit] and [modify] share: match, then settle the rest. *)
Definition finish (b : t) (index quantity lv : Z) (ty : OrderType) (out : list SinkEvent) :
    t * bool * list SinkEvent :=
  let '(b, out) := match_taker b index ty out in
  if remaining (node b index) =? 0 then
    let b := upd_node b index (fun n => n <| state := Filled |>) in
    (release b index, true, out ++ [on_order (OrderUpdate.mk (id (node b index)) Filled 0)])
  else if negb (is_limit ty) then
    let b := upd_node b index (fun n => n <| state := Canceled |>) in
    (release b index, true,
     out ++ [on_order (OrderUpdate.mk (id (node b index)) Canceled (remaining (node b index)))])
  else
    let st := if remaining (node b index) =? quantity then New else PartiallyFilled in
    let b := upd_node b index (fun n => n <| state := st |>) in
    let b := append b index lv in
    (b, true, out ++ [on_order (OrderUpdate.mk (id (node b index)) st (remaining (node b index)))]).

Lemma finish_ok b l k ty out :
  core_ok b l [k] -> live b l -> 0 < remaining (node b k) < 2 ^ 64 ->
  next (node b k) = kInvalid ->
  (ty = Limit -> price_index b (price (node b k)) = Some (level (node b k)) /\
    price (node b k) < 2 ^ 63) ->
  outcome b out (finish b k (remaining (node b k)) (level (node b k)) ty out)
    (accepted (BookSpec.settle (orders b l) (id (node b k)) (side (node b k)) ty
      (price (node b k)) (remaining (node b k)))).
Proof.
  intros Hok Hl Hrem Hnext Hlim. unfold finish, match_taker.
  pose proof (used_length _ _ _ Hok) as Hu. rewrite length_app in Hu. unfold alen in Hu. simpl in Hu.
  destruct (match_loop_sim k (node b k) ty (S (length (_nodes b))) b l (remaining (node b k)) out)
    as (b1 & l1 & r & ev & -> & Hok1 & Hl1 & Hh & Hr & Hg & Hspec); auto; [|lia|lia|].
  { unfold in_hand. by destruct (node b k). }
  unfold in_hand in Hh. unfold BookSpec.settle. rewrite Hspec.
  assert (id (node b1 k) = id (node b k) /\ remaining (node b1 k) = r /\
    level (node b1 k) = level (node b k) /\ price (node b1 k) = price (node b k) /\
    next (node b1 k) = kInvalid /\ side (node b1 k) = side (node b k)) as (Eid & Er & El & Ep & En & Es)
    by (rewrite Hh; by updates).
  rewrite Er. destruct (Z.eqb_spec r 0) as [->|Hr0].
  { pose proof (drop_hand b1 l1 k Filled Hok1 Hl1) as [? ?].
    unfold outcome. cbn [fst snd accepted]. rewrite (touched_node b1 l1 k Filled Hok1).
    split_and!; [split; [done|congruence]|done|]. rewrite <- app_assoc. updates. cbn [id]. by rewrite Eid. }
  destruct ty; cbn [is_limit negb].
  - destruct Hlim as [Hp Hb]; [done|].
    pose proof (rest_hand b1 l1 k (if r =? remaining (node b k) then New else PartiallyFilled) Hok1 Hl1)
      as Hrest. rewrite Er, El in Hrest. destruct Hrest as [Hrep Hgeo]; [|lia|done|].
    { unfold order_ok. rewrite Er, Ep, El, (geometry_price_index b) by done. split; [lia|done]. }
    set (b2 := upd_node _ _ _) in *.
    assert (id (node (append b2 k (level (node b k))) k) = id (node b k) /\
      remaining (node (append b2 k (level (node b k))) k) = r) as [-> ->].
    { destruct (strip_fields _ _ (append_payload b2 k (level (node b k)) k)) as (-> & _ & -> & _).
      unfold b2. rewrite (touched_node b1 l1 k _ Hok1). updates. by cbn [id remaining]. }
    unfold outcome. cbn [fst snd accepted]. unfold BookSpec.add.
    unfold resting in Hrep. rewrite Eid, Er, Ep, Es in Hrep.
    split_and!; [split; [done|congruence]|done|]. by rewrite <- app_assoc.
  - pose proof (drop_hand b1 l1 k Canceled Hok1 Hl1) as [? ?].
    unfold outcome. cbn [fst snd accepted]. rewrite (touched_node b1 l1 k Canceled Hok1).
    split_and!; [split; [done|congruence]|done|]. rewrite <- app_assoc. updates. cbn [id remaining].
    by rewrite Eid, Er.
Qed.

(** ** The operations *)

Lemma can_submit_find b m r :
  represents b m ->
  negb (valid_id (OrderRequest.id r)) || (OrderRequest.quantity r =? 0) ||
    negb (FixedOrderIndex.find (_index b) (OrderRequest.id r) =? kInvalid) ||
    (is_limit (OrderRequest.type r) &&
     bool_decide (price_index b (OrderRequest.price r) = None)) =
  negb (valid_id (OrderRequest.id r) && negb (OrderRequest.quantity r =? 0) &&
    bool_decide (BookSpec.lookup m (OrderRequest.id r) = None) &&
    (negb (is_limit (OrderRequest.type r)) ||
     bool_decide (is_Some (price_index b (OrderRequest.price r))))).
Proof.
  intros Hr. destruct (valid_id (OrderRequest.id r)) eqn:Hk; [|done].
  rewrite (find_None_iff b m _ Hr Hk).
  destruct (OrderRequest.quantity r =? 0); [done|]. destruct (bool_decide (BookSpec.lookup _ _ = _)); [|done].
  destruct (is_limit _); [|done]. by destruct (price_index b (OrderRequest.price r)).
Qed.

Lemma submit_represents b m r out :
  represents b m -> 0 <= OrderRequest.quantity r < 2 ^ 64 -> OrderRequest.price r < 2 ^ 63 ->
  outcome b out (submit b r out) (submit_spec b m r).
Proof.
  intros Hr Hq Hpb. unfold submit, submit_spec, can_submit. rewrite (can_submit_find b m r Hr).
  set (rid := OrderRequest.id r). set (qty := OrderRequest.quantity r) in *.
  set (c := valid_id rid && _ && _ && _). destruct c eqn:Hc; cbn [negb andb].
  2:{ split; [by split|by split]. }
  subst c. apply andb_prop in Hc as [Hc Hgrid]. apply andb_prop in Hc as [Hc Hnone].
  apply andb_prop in Hc as [Hk Hq0]. apply negb_true_iff, Z.eqb_neq in Hq0.
  pose proof (find_None_iff b m rid Hr Hk) as Hfind. rewrite Hnone in Hfind. apply Z.eqb_eq in Hfind.
  pose proof Hr as (l & Hok & Hl & Hm). rewrite <- Hm at 1. unfold orders at 1. rewrite length_map.
  destruct (allocate_spec b l Hok) as
    [[-> Hfull]|(b1 & i & -> & Hlt & Hi & Hv & Hil & Hf & Ho & Hpool & Hs & Hix)].
  { rewrite Z.eqb_refl. destruct (Z.ltb_spec (Z.of_nat (length l)) (_order_capacity b)); [lia|].
    split; [by split|by split]. }
  destruct (Z.ltb_spec (Z.of_nat (length l)) (_order_capacity b)); [|lia].
  destruct (Z.eqb_spec i kInvalid); [done|].
  destruct (enter_insert b b1 l i rid Hok Hk Hfind Hix) as (Hins & _).
  set (lv := if is_limit (OrderRequest.type r) then default kInvalid (price_index b (OrderRequest.price r))
    else kInvalid).
  destruct (FixedOrderIndex.insert (_index b1) rid i) as [ix ins] eqn:Eix. simpl in Hins. subst ins.
  destruct (enter_core b b1 l i rid (OrderRequest.side r) (OrderRequest.price r) qty lv
    Hok Hk Hfind Hi Hil Hf Ho Hpool Hs Hix) as (Hc & Hn & Hsame & Hord & Hlive).
  rewrite Eix in Hc, Hn, Hsame, Hord, Hlive. cbn [negb fst snd] in *.
  fold (fill rid (OrderRequest.side r) (OrderRequest.price r) qty lv).
  set (b2 := upd_node _ _ _) in *.
  pose proof (finish_ok b2 l i (OrderRequest.type r) out Hc (Hlive Hl)) as Hfin.
  rewrite Hn in Hfin. cbn [filled remaining next price level id side] in Hfin.
  rewrite Hord, Hm in Hfin. destruct Hfin as (Hgo & Hok' & Hev); [lia|done|..].
  - intros Hty. rewrite Hty in *. cbn [is_limit negb orb] in *.
    rewrite (same_levels_price_index b) by done. split; [|done].
    unfold lv. rewrite Hty. by apply bool_decide_eq_true in Hgrid as [y ->].
  - unfold outcome. split_and!; [|exact Hok'|exact Hev]. destruct Hgo as [? Hg].
    split; [done|]. etransitivity; [exact Hg|]. by apply same_levels_geometry.
Qed.

Lemma cancel_represents b m k out :
  represents b m -> outcome b out (cancel b k out) (cancel_spec m k).
Proof.
  intros Hr. unfold cancel, cancel_spec.
  assert (outcome b out (b, false, out) (m, false, [])) as Hself
    by (split; [by split|split; [done|by rewrite app_nil_r]]).
  destruct (decide (k = u64_max)) as [->|Hk].
  { by rewrite find_max, Z.eqb_refl, (represents_lookup_max b m Hr). }
  destruct (represents_find b m k Hr Hk) as [[-> ->]|(Hf & -> & Hid & l & Hok & Hl & <- & Hi)];
    [by rewrite Z.eqb_refl|].
  set (i := FixedOrderIndex.find (_index b) k) in *.
  destruct (Z.eqb_spec i kInvalid); [done|].
  pose proof (unlink_core b l [] i Hok Hi) as Hc.
  destruct (unlink_queues b l i (core_queues _ _ _ Hok) Hi) as (_ & Hp & _).
  assert (live (unlink b i) (without i l)) as Hlv.
  { apply (live_payload b _ l); [done| |done]. intros j [_ ?]%elem_without. done. }
  destruct (drop_hand (unlink b i) (without i l) i Canceled Hc Hlv) as [Hrep Hg].
  rewrite (touched_node (unlink b i) (without i l) i Canceled Hc).
  destruct (payload_fields _ _ i Hp) as (_ & _ & Hrem & _). updates. cbn [remaining]. rewrite Hrem.
  split; [|done]. split.
  - cbn [fst]. by rewrite (orders_payload b), (orders_without b l [] Hok), Hid in Hrep.
  - etransitivity; [exact Hg|]. apply frame_geometry, frame_unlink.
Qed.

Lemma modify_represents b m k p q out :
  represents b m -> 0 <= q < 2 ^ 64 -> p < 2 ^ 63 ->
  outcome b out (modify b k p q out) (modify_spec b m k p q).
Proof.
  intros Hr Hq Hpb. unfold modify, modify_spec.
  assert (outcome b out (b, false, out) (m, false, [])) as Hself
    by (split; [by split|split; [done|by rewrite app_nil_r]]).
  destruct (decide (k = u64_max)) as [->|Hk].
  { by rewrite find_max, Z.eqb_refl, (represents_lookup_max b m Hr). }
  destruct (represents_find b m k Hr Hk) as [[-> ->]|(Hf & -> & Hid & l & Hok & Hl & <- & Hi)];
    [by rewrite Z.eqb_refl|].
  set (i := FixedOrderIndex.find (_index b) k) in *.
  destruct (Z.eqb_spec i kInvalid); [done|]. destruct (Z.eqb_spec q 0); [done|]. cbn [orb negb andb].
  destruct (price_index b p) as [lv|] eqn:Hp;
    [rewrite bool_decide_true by (by eexists)|rewrite bool_decide_false by apply is_Some_None; done].
  pose proof (unlink_core b l [] i Hok Hi) as Hc.
  destruct (unlink_queues b l i (core_queues _ _ _ Hok) Hi) as (_ & Hpay & Hnext).
  assert (live (unlink b i) (without i l)) as Hlv.
  { apply (live_payload b _ l); [done| |done]. intros j [_ ?]%elem_without. done. }
  assert (geometry (unlink b i) = geometry b) as Hgu by apply frame_geometry, frame_unlink.
  set (f := fun n : Node => n <| price := p |> <| remaining := q |> <| state := New |> <| level := lv |>).
  pose proof (hand_range _ _ _ i Hc ltac:(by left)) as Hir.
  destruct (touch_core (unlink b i) (without i l) [i] i f Hc) as (Hc2 & Ho2 & Hl2); [lia|done| |].
  { intros [? _]%elem_without. done. }
  assert (node (upd_node (unlink b i) i f) i = f (node (unlink b i) i)) as Hn.
  { rewrite node_upd_node by lia. by rewrite decide_True. }
  destruct (payload_fields _ _ i Hpay) as (Eid & _ & _ & _ & _ & Es & _).
  set (b2 := upd_node (unlink b i) i f) in *.
  pose proof (finish_ok b2 (without i l) i Limit out Hc2 (Hl2 Hlv)) as Hfin.
  rewrite Hn in Hfin. unfold f, set_field in Hfin. cbn [remaining next price level id side] in Hfin.
  rewrite Hnext, Eid, Es, Ho2 in Hfin.
  rewrite (orders_payload b), (orders_without b l [] Hok), Hid in Hfin by done.
  destruct Hfin as (Hgo & Hok' & Hev); [lia|done| |].
  - intros _. split; [|done]. by rewrite (geometry_price_index b).
  - unfold outcome. split_and!; [|exact Hok'|exact Hev]. destruct Hgo as [? Hg].
    split; [done|]. etransitivity; [exact Hg|exact Hgu].
Qed.
