(* ===== verification/DenseProperties.v ===== *)
(** * Properties of the dense order book

    Whole histories of operations on a book that [make] built, against the
    list of resting orders: results, sink calls and every query agree; the
    exchange side never leaves a crossed book. *)

From S2P Require Import Prelude OpenAddressing OrderIndex BookTypes DenseBook DenseQueues.
From S2P Require Import DenseFeed BookFacts DenseQueries DenseMatch DenseExchange.
Import DensePriceOrderBook.

(** ** Histories *)

Inductive BookOp :=
  | Feed (op : FeedOp)
  | Submit (request : OrderRequest.t)
  | Cancel (id : Z)
  | Modify (id price quantity : Z).

Definition book_step (b : t) (op : BookOp) : t * bool * list SinkEvent :=
  match op with
  | Feed op => (feed b op, [])
  | Submit r => submit b r []
  | Cancel k => cancel b k []
  | Modify k p q => modify b k p q []
  end.

Definition book_spec (b : t) (m : list Resting) (op : BookOp) : list Resting * bool * list SinkEvent :=
  match op with
  | Feed op => (feed_spec b m op, [])
  | Submit r => submit_spec b m r
  | Cancel k => cancel_spec m k
  | Modify k p q => modify_spec b m k p q
  end.

(** Arguments fit their C++ types. *)
Definition in_types (op : BookOp) : Prop :=
  match op with
  | Feed op => op_ok op
  | Submit r => 0 <= OrderRequest.quantity r < 2 ^ 64 /\ OrderRequest.price r < 2 ^ 63
  | Cancel _ => True
  | Modify _ p q => 0 <= q < 2 ^ 64 /\ p < 2 ^ 63
  end.

Lemma step_represents b m op :
  represents b m -> in_types op -> outcome b [] (book_step b op) (book_spec b m op).
Proof.
  intros Hr Hop. destruct op as [op|r|k|k p q]; simpl in *.
  - destruct (feed_represents b m op Hr Hop) as [Hok Hgo]. by split.
  - destruct Hop. by apply submit_represents.
  - by apply cancel_represents.
  - destruct Hop. by apply modify_represents.
Qed.

Lemma book_spec_geometry b b' m op : geometry b' = geometry b -> book_spec b' m op = book_spec b m op.
Proof.
  intros Hg. pose proof (geometry_fields _ _ Hg) as (Hc & _). destruct op; simpl.
  - by rewrite (feed_spec_geometry b).
  - unfold submit_spec, can_submit. by rewrite (geometry_price_index b), Hc.
  - done.
  - unfold modify_spec. by rewrite (geometry_price_index b).
Qed.

Lemma history_represents b0 b m ops :
  represents b m -> geometry b = geometry b0 -> Forall in_types ops ->
  (history book_step b ops).2 = (history (book_spec b0) m ops).2 /\
  goes_to b0 (history book_step b ops).1 (history (book_spec b0) m ops).1.
Proof.
  intros Hr Hg Hops. revert b m Hr Hg.
  induction Hops as [|op ops Hop _ IH]; intros b m Hr Hg; [done|]. simpl.
  destruct (step_represents b m op Hr Hop) as ([Hr' Hg'] & Hok & Hev).
  rewrite (book_spec_geometry b0 b) in * by done.
  destruct (book_step b op) as [[b' ok] ev], (book_spec b0 m op) as [[m' ok'] ev'].
  simpl in *. subst ok' ev'.
  destruct (IH b' m' Hr' ltac:(congruence)) as [Houts Hgo].
  destruct (history book_step b' ops), (history (book_spec b0) m' ops). simpl in *. by subst.
Qed.

(** Every query of the book, read off the resting orders. *)
Record observed (b : t) (m : list Resting) : Prop := {
  obs_active : active_orders b = Z.of_nat (length m);
  obs_contains : forall k, contains b k = bool_decide (is_Some (BookSpec.lookup m k));
  obs_remaining : forall k, remaining_of b k = from_option rest_remaining 0 (BookSpec.lookup m k);
  obs_bid : best_bid b = default 0 (BookSpec.best_price m Buy);
  obs_ask : best_ask b = default 0 (BookSpec.best_price m Sell);
  obs_quantity : forall s p, p < 2 ^ 63 -> level_quantity b s p = u64 (BookSpec.level_quantity m s p);
  obs_level : forall s p, p < 2 ^ 63 ->
    visit_level b s p = map (fun o => (rest_id o, rest_remaining o)) (BookSpec.queue m s p)
}.

Lemma represents_observed b m : represents b m -> observed b m.
Proof.
  intros Hr. constructor; intros.
  - by apply active_represents.
  - by apply contains_represents.
  - by apply remaining_represents.
  - by apply (best_represents b m Buy).
  - by apply (best_represents b m Sell).
  - by apply level_quantity_represents.
  - by apply visit_level_represents.
Qed.

(** ** Uncrossed books *)

Definition is_exchange (op : BookOp) : Prop := match op with Feed _ => False | _ => True end.

Lemma book_spec_uncrossed b m op :
  is_exchange op -> uncrossed m -> uncrossed (book_spec b m op).1.1.
Proof.
  intros He Hu. destruct op as [op|r|k|k p q]; simpl; [done|..].
  - unfold submit_spec. case_match; [by apply settle_uncrossed|done].
  - unfold cancel_spec. case_match; [by apply uncrossed_remove|done].
  - unfold modify_spec. case_match; [|done]. case_match; [|done].
    by apply settle_uncrossed, uncrossed_remove.
Qed.

Lemma history_uncrossed b m ops :
  Forall is_exchange ops -> uncrossed m -> uncrossed (history (book_spec b) m ops).1.
Proof.
  intros Hops. revert m. induction Hops as [|op ops Hop _ IH]; intros m Hu; [done|]. simpl.
  pose proof (book_spec_uncrossed b m op Hop Hu) as Hu'.
  destruct (book_spec b m op) as [[m' ok] ev]. simpl in Hu'. specialize (IH m' Hu').
  by destruct (history (book_spec b) m' ops).
Qed.

Lemma best_price_witness m s p :
  BookSpec.best_price m s = Some p -> exists o, o ∈ m /\ rest_side o = s /\ rest_price o = p.
Proof.
  unfold BookSpec.best_price. intros (o & Ho & ->)%fmap_Some.
  apply best_order_elem in Ho as [? ?]. by exists o.
Qed.

(** ** The properties *)

(** C1: for any history of market-data and exchange operations on a freshly
    built dense book, every operation returns the same result and makes the
    same sink calls as price-time matching on the list of resting orders, and
    afterwards every query reads that list. *)
Theorem dense_history_refines cap minimum tick lc b ops :
  0 <= cap < 2 ^ 32 -> 0 <= minimum -> 0 <= lc <= 2 ^ 32 - 64 ->
  make cap minimum tick lc = Some b -> Forall in_types ops ->
  (history book_step b ops).2 = (history (book_spec b) [] ops).2 /\
  observed (history book_step b ops).1 (history (book_spec b) [] ops).1.
Proof.
  intros Hcap Hmin Hlc Hmake Hops.
  destruct (make_represents cap minimum tick lc Hcap Hlc Hmin) as (b' & Hb & Hr & _).
  rewrite Hmake in Hb. simplify_eq.
  destruct (history_represents b' b' [] ops Hr eq_refl Hops) as [Ho [Hr' _]].
  split; [done|]. by apply represents_observed.
Qed.

(** Adds, a partial execution, a replace, crossing limit and market orders, a
    duplicate id, an off-grid price, a modification and a cancellation. *)
Definition demo : list BookOp :=
  [Feed (Add 1 Buy 100 10); Feed (Add 2 Buy 101 5); Feed (Add 3 Sell 103 7); Feed (Reduce 2 2);
   Feed (Replace 1 4 102 6); Submit (OrderRequest.mk 5 Buy Limit 103 9);
   Submit (OrderRequest.mk 5 Sell Market 0 4); Submit (OrderRequest.mk 6 Sell Market 0 4);
   Submit (OrderRequest.mk 7 Sell Limit 500 1); Modify 4 101 3; Cancel 2; Feed (Delete 9)].

Lemma dense_history_refines_witness :
  match make 4 100 1 64 with
  | Some b =>
      (history book_step b demo).2 = (history (book_spec b) [] demo).2 /\
      observed (history book_step b demo).1 (history (book_spec b) [] demo).1
  | None => False
  end.
Proof.
  destruct (make 4 100 1 64) as [b|] eqn:E; [|vm_compute in E; discriminate E].
  apply (dense_history_refines 4 100 1 64 b demo); [lia|lia|lia|exact E|].
  repeat constructor; vm_compute; congruence.
Defined.

(** A dense book driven by [submit], [cancel] and [modify] is never
    crossed: when both sides hold orders the best bid is below the best ask. *)
Theorem dense_never_crossed cap minimum tick lc b ops :
  0 <= cap < 2 ^ 32 -> 0 <= minimum -> 0 <= lc <= 2 ^ 32 - 64 ->
  make cap minimum tick lc = Some b -> Forall in_types ops -> Forall is_exchange ops ->
  best_bid (history book_step b ops).1 <> 0 -> best_ask (history book_step b ops).1 <> 0 ->
  best_bid (history book_step b ops).1 < best_ask (history book_step b ops).1.
Proof.
  intros Hcap Hmin Hlc Hmake Hops Hex Hbid Hask.
  destruct (make_represents cap minimum tick lc Hcap Hlc Hmin) as (b' & Hb & Hr & _).
  rewrite Hmake in Hb. simplify_eq.
  destruct (history_represents b' b' [] ops Hr eq_refl Hops) as [_ [Hr' _]].
  destruct (represents_observed _ _ Hr') as [_ _ _ Eb Ea _ _]. rewrite Eb, Ea in *.
  assert (uncrossed (history (book_spec b') [] ops).1) as Hu.
  { apply history_uncrossed; [done|]. intros o o' Ho. by apply elem_of_nil in Ho. }
  destruct (BookSpec.best_price _ Buy) as [pb|] eqn:Hpb; [|done].
  destruct (BookSpec.best_price _ Sell) as [pa|] eqn:Hpa; [|done].
  apply best_price_witness in Hpb as (o & ? & ? & <-).
  apply best_price_witness in Hpa as (o' & ? & ? & <-). by apply Hu.
Qed.

(** Two bids, an ask that trades with the better one and rests. *)
Definition demo_exchange : list BookOp :=
  [Submit (OrderRequest.mk 1 Buy Limit 100 10); Submit (OrderRequest.mk 2 Buy Limit 102 5);
   Submit (OrderRequest.mk 3 Sell Limit 101 8); Modify 1 99 4].

Lemma dense_never_crossed_witness :
  match make 4 90 1 64 with
  | Some b => best_bid (history book_step b demo_exchange).1 < best_ask (history book_step b demo_exchange).1
  | None => False
  end.
Proof.
  destruct (make 4 90 1 64) as [b|] eqn:E; [|vm_compute in E; discriminate E].
  apply (dense_never_crossed 4 90 1 64 b demo_exchange); [lia|lia|lia|exact E|..].
  - repeat constructor; vm_compute; congruence.
  - repeat constructor.
  - vm_compute in E. injection E as <-. vm_compute. congruence.
  - vm_compute in E. injection E as <-. vm_compute. congruence.
Defined.
