(* ===== verification/PriceTimeBook.v ===== *)
(** * class PriceTimeOrderBook (components/include/qtrader/PriceTimeOrderBook.hpp)

    The reference book: nodes from a pool, one doubly-linked FIFO per price in
    two ordered maps, and a hash map from order ids to nodes.  A [Node*] is the
    node's position in [_storage], [nullptr] is -1.  This file holds the
    definitions only. *)

From S2P Require Import Prelude BookTypes.

Module PriceTimeOrderBook.

Definition nullptr : Z := -1.

Record PriceLevel := mkLevel { head : Z; tail : Z }.

#[global] Instance eta_level : Eta PriceLevel := fun l => mkLevel (head l) (tail l).

Record Node := mkNode {
  id : Z;
  price : Z;
  remaining : Z;
  side : Side;
  state : OrderState;
  previous : Z;
  next : Z;
  free_next : Z
}.

#[global] Instance eta_node : Eta Node := fun n =>
  mkNode (id n) (price n) (remaining n) (side n) (state n) (previous n) (next n) (free_next n).

(** [Node{}] and [PriceLevel{}]. *)
Definition empty_node : Node := mkNode 0 0 0 Buy New nullptr nullptr nullptr.
Definition empty_level : PriceLevel := mkLevel nullptr nullptr.

#[global] Instance node_inhabited : Inhabited Node := populate empty_node.

Record t := mk {
  _storage : list Node;
  _capacity : Z;
  _free : Z;
  _active : Z;
  _orders : gmap Z Z;
  _bids : gmap Z PriceLevel;
  _asks : gmap Z PriceLevel
}.

#[global] Instance eta_book : Eta t := fun b =>
  mk (_storage b) (_capacity b) (_free b) (_active b) (_orders b) (_bids b) (_asks b).

(** ** The maps of price levels *)

(** [std::greater] orders the bids, [std::less] the asks. *)
Definition precedes (s : Side) (p q : Z) : bool :=
  match s with Buy => q <? p | Sell => p <? q end.

(** [levels.begin()]: the first entry in the map's order, none when it is empty. *)
Definition begin (s : Side) (m : gmap Z PriceLevel) : option (Z * PriceLevel) :=
  map_fold (fun p l first =>
    match first with
    | Some (q, _) => if precedes s q p then first else Some (p, l)
    | None => Some (p, l)
    end) None m.

Definition levels (b : t) (s : Side) : gmap Z PriceLevel :=
  match s with Buy => _bids b | Sell => _asks b end.
Definition upd_levels (b : t) (s : Side) (f : gmap Z PriceLevel -> gmap Z PriceLevel) : t :=
  match s with Buy => b <| _bids ::= f |> | Sell => b <| _asks ::= f |> end.

Definition node (b : t) (i : Z) : Node := (_storage b).[i].
Definition upd_node (b : t) (i : Z) (f : Node -> Node) : t :=
  b <| _storage ::= fun a => a.[i <- f a.[i]] |>.

(** ** Construction *)

(** [for (i = 0; i < capacity; ++i) { _storage[i].free_next = _free; _free = &_storage[i]; }] *)
Fixpoint thread_free (ahead : nat) (i : Z) (storage : list Node) (first : Z) : list Node * Z :=
  match ahead with
  | O => (storage, first)
  | S ahead' =>
      thread_free ahead' (i + 1) (storage.[i <- storage.[i] <| free_next := first |>]) i
  end.

Definition make (capacity : Z) : t :=
  let '(storage, free) :=
    thread_free (Z.to_nat capacity) 0 (replicate (Z.to_nat capacity) empty_node) nullptr in
  mk storage capacity free 0 ∅ ∅ ∅.

(** ** The node pool *)

Definition allocate (b : t) : t * Z :=
  if _free b =? nullptr then (b, nullptr)
  else
    let node' := _free b in
    let b := b <| _free := free_next (node b (_free b)) |> in
    let b := upd_node b node' (fun _ => empty_node) in
    (b <| _active ::= incr |>, node').

Definition release (b : t) (i : Z) : t :=
  let b := b <| _orders ::= delete (id (node b i)) |> in
  let b := upd_node b i (fun n => n <| free_next := _free b |>) in
  b <| _free := i |> <| _active ::= fun a => u64 (a - 1) |>.

(** ** The queues *)

(** [append_to(levels, order)], [levels] being the map of side [s]. *)
Definition append_to (b : t) (s : Side) (order : Z) : t :=
  let p := price (node b order) in
  let level := default empty_level (levels b s !! p) in
  let b := upd_node b order (fun n => n <| previous := tail level |>) in
  let '(b, level) :=
    if negb (tail level =? nullptr)
    then (upd_node b (tail level) (fun n => n <| next := order |>), level)
    else (b, level <| head := order |>) in
  upd_levels b s <[p := level <| tail := order |>]>.

Definition append (b : t) (order : Z) : t := append_to b (side (node b order)) order.

Definition unlink_from (b : t) (s : Side) (order : Z) : t :=
  let p := price (node b order) in
  match levels b s !! p with
  | None => b
  | Some level =>
      let '(b, level) :=
        if negb (previous (node b order) =? nullptr)
        then (upd_node b (previous (node b order)) (fun n => n <| next := next (node b order) |>), level)
        else (b, level <| head := next (node b order) |>) in
      let '(b, level) :=
        if negb (next (node b order) =? nullptr)
        then (upd_node b (next (node b order)) (fun n => n <| previous := previous (node b order) |>), level)
        else (b, level <| tail := previous (node b order) |>) in
      let b := upd_node b order (fun n => n <| previous := nullptr |> <| next := nullptr |>) in
      let b := upd_levels b s <[p := level]> in
      if head level =? nullptr then upd_levels b s (delete p) else b
  end.

Definition unlink (b : t) (order : Z) : t := unlink_from b (side (node b order)) order.

(** ** Matching *)

(** The inner loop, [while (taker.remaining != 0 && level.head != nullptr)];
    [s] is the side whose map [levels] is. *)
Fixpoint match_level (fuel : nat) (b : t) (s : Side) (taker match_price : Z)
    (out : list SinkEvent) : t * list SinkEvent :=
  match fuel with
  | O => (b, out)
  | S fuel' =>
      let maker := head (default empty_level (levels b s !! match_price)) in
      if (remaining (node b taker) =? 0) || (maker =? nullptr) then (b, out)
      else
        let quantity :=
          if remaining (node b taker) <? remaining (node b maker)
          then remaining (node b taker) else remaining (node b maker) in
        let b := upd_node b taker (fun n => n <| remaining ::= fun r => u64 (r - quantity) |>) in
        let b := upd_node b maker (fun n => n <| remaining ::= fun r => u64 (r - quantity) |>) in
        let out := out ++
          [on_trade (Trade.mk (id (node b maker)) (id (node b taker)) match_price quantity)] in
        if remaining (node b maker) =? 0 then
          let b := upd_node b maker (fun n => n <| state := Filled |>) in
          let out := out ++ [on_order (OrderUpdate.mk (id (node b maker)) Filled 0)] in
          let b := release (unlink_from b s maker) maker in
          match begin s (levels b s) with
          | None => (b, out)
          | Some (first, _) =>
              if negb (first =? match_price) then (b, out)
              else match_level fuel' b s taker match_price out
          end
        else
          let b := upd_node b maker (fun n => n <| state := PartiallyFilled |>) in
          let out := out ++ [on_order (OrderUpdate.mk (id (node b maker)) PartiallyFilled
            (remaining (node b maker)))] in
          match_level fuel' b s taker match_price out
  end.

(** The outer loop, [while (taker.remaining != 0 && !levels.empty())].  A round
    of either loop consumes a maker or exhausts the taker, so one round per node
    and one are enough fuel. *)
Fixpoint match_levels (fuel : nat) (b : t) (s : Side) (taker : Z) (type : OrderType)
    (out : list SinkEvent) : t * list SinkEvent :=
  match fuel with
  | O => (b, out)
  | S fuel' =>
      if remaining (node b taker) =? 0 then (b, out)
      else
        match begin s (levels b s) with
        | None => (b, out)
        | Some (match_price, _) =>
            let crosses := negb (is_limit type) ||
              (if is_buy (side (node b taker)) then match_price <=? price (node b taker)
               else price (node b taker) <=? match_price) in
            if negb crosses then (b, out)
            else
              let '(b, out) := match_level (S (length (_storage b))) b s taker match_price out in
              match_levels fuel' b s taker type out
        end
  end.

(** [match]: a buyer trades with the asks, a seller with the bids. *)
Definition match_taker (b : t) (taker : Z) (type : OrderType) (out : list SinkEvent) :
    t * list SinkEvent :=
  if is_buy (side (node b taker))
  then match_levels (S (length (_storage b))) b Sell taker type out
  else match_levels (S (length (_storage b))) b Buy taker type out.

(** ** Operations *)

Definition submit (b : t) (request : OrderRequest.t) (out : list SinkEvent) :
    t * bool * list SinkEvent :=
  let rid := OrderRequest.id request in
  let qty := OrderRequest.quantity request in
  let rejected := out ++ [on_order (OrderUpdate.mk rid Rejected qty)] in
  if (rid =? 0) || (qty =? 0) ||
     (is_limit (OrderRequest.type request) && (OrderRequest.price request <=? 0)) ||
     bool_decide (is_Some (_orders b !! rid))
  then (b, false, rejected)
  else
    let '(b, order) := allocate b in
    if order =? nullptr then (b, false, rejected)
    else
      let b := upd_node b order (fun n =>
        n <| id := rid |> <| side := OrderRequest.side request |>
          <| price := OrderRequest.price request |> <| remaining := qty |> <| state := New |>) in
      let b := b <| _orders ::= <[id (node b order) := order]> |> in
      let '(b, out) := match_taker b order (OrderRequest.type request) out in
      if remaining (node b order) =? 0 then
        let b := upd_node b order (fun n => n <| state := Filled |>) in
        (release b order, true, out ++ [on_order (OrderUpdate.mk (id (node b order)) Filled 0)])
      else if negb (is_limit (OrderRequest.type request)) then
        let b := upd_node b order (fun n => n <| state := Canceled |>) in
        (release b order, true,
         out ++ [on_order (OrderUpdate.mk (id (node b order)) Canceled (remaining (node b order)))])
      else
        let st := if remaining (node b order) =? qty then New else PartiallyFilled in
        let b := upd_node b order (fun n => n <| state := st |>) in
        let b := append b order in
        (b, true, out ++ [on_order (OrderUpdate.mk (id (node b order)) (state (node b order))
          (remaining (node b order)))]).

Definition cancel (b : t) (oid : Z) (out : list SinkEvent) : t * bool * list SinkEvent :=
  match _orders b !! oid with
  | None => (b, false, out)
  | Some order =>
      let b := unlink b order in
      let b := upd_node b order (fun n => n <| state := Canceled |>) in
      (release b order, true,
       out ++ [on_order (OrderUpdate.mk oid Canceled (remaining (node b order)))])
  end.

Definition modify (b : t) (oid new_price new_quantity : Z) (out : list SinkEvent) :
    t * bool * list SinkEvent :=
  match _orders b !! oid with
  | None => (b, false, out)
  | Some order =>
      if (new_price <=? 0) || (new_quantity =? 0) then (b, false, out)
      else
        let s := side (node b order) in
        let b := release (unlink b order) order in
        submit b (OrderRequest.mk oid s Limit new_price new_quantity) out
  end.

(** ** Queries *)

Definition active_orders (b : t) : Z := _active b.
Definition best_bid (b : t) : Z := from_option fst 0 (begin Buy (_bids b)).
Definition best_ask (b : t) : Z := from_option fst 0 (begin Sell (_asks b)).

End PriceTimeOrderBook.

(** ** A session *)

(** The calls of components/tests/PriceTimeOrderBookTest.cpp, with the results
    and the trades it asks for. *)
Example reference_session :
  let limit k s p q b := PriceTimeOrderBook.submit b (OrderRequest.mk k s Limit p q) in
  let '(b, results, out) :=
    foldl (fun '(b, results, out) call =>
      let '(b, ok, out) := call b out in (b, results ++ [ok], out))
      (PriceTimeOrderBook.make 32, [], [])
      [limit 1 Sell 101 5; limit 2 Sell 101 5; limit 3 Buy 101 7; limit 4 Buy 99 4; limit 5 Buy 99 4;
       (fun b => PriceTimeOrderBook.modify b 4 99 4);
       (fun b => PriceTimeOrderBook.submit b (OrderRequest.mk 6 Sell Market 0 5));
       (fun b => PriceTimeOrderBook.cancel b 4); (fun b => PriceTimeOrderBook.cancel b 999)] in
  results = [true; true; true; true; true; true; true; true; false] /\
  omap (fun e => match e with
    | on_trade tr => Some (Trade.maker_id tr, Trade.quantity tr)
    | on_order _ => None
    end) out = [(1, 5); (2, 2); (5, 4); (4, 1)] /\
  PriceTimeOrderBook.best_ask b = 101 /\ PriceTimeOrderBook.active_orders b = 1.
Proof. by vm_compute. Qed.
