(* ===== verification/PriceTimeFacts.v ===== *)
(** * The reference book keeps its queues

    [core_ok b l x]: the maps, links, pool and id map of [b] hold the nodes [l]
    as resting orders, oldest first, and the nodes [x] as orders in hand.  Each
    step of the class ([allocate], [append], [unlink], [release], a change of a
    node's quantity) keeps the invariant and moves one node.

    Then the pool of nodes and the maps of levels. *)

From S2P Require Import Prelude BookTypes LinkedQueue BookFacts PriceTimeBook.
Import PriceTimeOrderBook.

(** ** The ordered maps *)

Lemma precedes_better s p q : precedes s p q = BookSpec.better s p q.
Proof. by destruct s. Qed.

Lemma begin_spec s m :
  match begin s m with
  | None => m = ∅
  | Some (p, l) => m !! p = Some l /\ forall q l', m !! q = Some l' -> precedes s q p = false
  end.
Proof.
  unfold begin. apply (map_fold_weak_ind (fun r m => match r with
    | None => m = ∅
    | Some (p, l) => m !! p = Some l /\ forall q l', m !! q = Some l' -> precedes s q p = false
    end)); [done|].
  intros p l m' [[q l0]|] Hp IH.
  - destruct IH as [Hq Hb]. destruct (precedes s q p) eqn:E.
    + split; [rewrite lookup_insert_ne; [done|]; congruence|].
      intros q' l' [[<- _]|[_ Hq']]%lookup_insert_Some; [|by apply (Hb q' l')].
      unfold precedes in *. destruct s; lia.
    + split; [by rewrite lookup_insert_eq|].
      intros q' l' [[<- _]|[_ Hq']]%lookup_insert_Some; [unfold precedes; destruct s; lia|].
      apply Hb in Hq'. unfold precedes in *. destruct s; lia.
  - subst m'. split; [by rewrite lookup_insert_eq|].
    intros q' l' [[<- _]|[_ Hq']]%lookup_insert_Some; [unfold precedes; destruct s; lia|].
    by rewrite lookup_empty in Hq'.
Qed.

(** ** Reads after writes *)

Create Rewrite HintDb ptbook.

Lemma levels_upd_levels b s f s' :
  levels (upd_levels b s f) s' = if decide (s' = s) then f (levels b s) else levels b s'.
Proof. by destruct s, s'. Qed.

Lemma pt_levels_upd_node b i f s : levels (upd_node b i f) s = levels b s.
Proof. by destruct s. Qed.

Lemma node_upd_levels b s f i : node (upd_levels b s f) i = node b i.
Proof. by destruct s. Qed.

Lemma storage_upd_levels b s f : _storage (upd_levels b s f) = _storage b.
Proof. by destruct s. Qed.

#[export] Hint Rewrite levels_upd_levels pt_levels_upd_node node_upd_levels : ptbook.

Lemma pt_node_upd_node b i j f :
  0 <= i < alen (_storage b) -> 0 <= j ->
  node (upd_node b i f) j = if decide (j = i) then f (node b i) else node b j.
Proof.
  intros Hi Hj. unfold node, upd_node. updates. cbn [_storage]. rewrite aget_update by done.
  case_decide; [by subst|done].
Qed.

Lemma alen_upd_node b i f : alen (_storage (upd_node b i f)) = alen (_storage b).
Proof. unfold upd_node. updates. cbn [_storage]. by autorewrite with arr. Qed.

(** What the queue operations leave alone. *)
Definition frame (b : t) : Z * Z * Z * gmap Z Z * Z :=
  (_capacity b, _free b, _active b, _orders b, alen (_storage b)).

Lemma pt_frame_upd_node b i f : frame (upd_node b i f) = frame b.
Proof. unfold frame. by rewrite alen_upd_node. Qed.

Lemma frame_upd_levels b s f : frame (upd_levels b s f) = frame b.
Proof. by destruct s. Qed.

#[export] Hint Rewrite pt_frame_upd_node frame_upd_levels : ptbook.

(** A node without its links. *)
Definition strip (n : Node) : Node := n <| previous := nullptr |> <| next := nullptr |>.

Lemma pt_strip_fields n n' :
  strip n' = strip n ->
  id n' = id n /\ price n' = price n /\ remaining n' = remaining n /\ side n' = side n /\
  state n' = state n /\ free_next n' = free_next n.
Proof. destruct n, n'. unfold strip. updates. cbn. intros [=]. by subst. Qed.

(** ** The invariant *)

Definition resting (b : t) (i : Z) : Resting :=
  mkResting (id (node b i)) (side (node b i)) (price (node b i)) (remaining (node b i)).

Definition orders (b : t) (l : list Z) : list Resting := map (resting b) l.

Definition queue_at (b : t) (l : list Z) (s : Side) (p : Z) : list Z :=
  filter (fun i => side (node b i) = s /\ price (node b i) = p) l.

(** The map entry of a queue. *)
Definition level_of (q : list Z) : option PriceLevel :=
  match q with [] => None | _ => Some (mkLevel (first_or nullptr q) (last_or nullptr q)) end.

Abbreviation queue_links nodes q := (linked previous next nodes nullptr q nullptr).

Record core_ok (b : t) (l x : list Z) : Prop := {
  core_levels : forall s p, levels b s !! p = level_of (queue_at b l s p);
  core_links : forall s p, queue_links (_storage b) (queue_at b l s p);
  core_free : exists fl, free_chain free_next nullptr (_storage b) (_free b) fl /\
    (l ++ x) ++ fl ≡ₚ seqZ 0 (alen (_storage b));
  core_active : _active b = Z.of_nat (length (l ++ x));
  core_ids : forall k i, _orders b !! k = Some i <-> i ∈ l ++ x /\ id (node b i) = k;
  core_nonzero : forall i, i ∈ l ++ x -> id (node b i) <> 0;
  core_remaining : forall i, i ∈ l -> 0 <= remaining (node b i) < 2 ^ 64;
  core_size : alen (_storage b) < 2 ^ 64 /\ _capacity b = alen (_storage b)
}.

Definition live (b : t) (l : list Z) : Prop := forall i, i ∈ l -> 0 < remaining (node b i).

Definition represents (b : t) (m : list Resting) : Prop :=
  exists l, core_ok b l [] /\ live b l /\ orders b l = m.

Section facts.
Context (b : t) (l x : list Z).
Hypothesis Hok : core_ok b l x.

Lemma pt_used_nodup : NoDup (l ++ x).
Proof.
  destruct (core_free _ _ _ Hok) as (fl & _ & Hperm).
  assert (NoDup ((l ++ x) ++ fl)) as Hnd by (rewrite Hperm; apply NoDup_seqZ).
  by apply NoDup_app in Hnd as [? _].
Qed.

Lemma pt_used_range i : i ∈ l ++ x -> 0 <= i < alen (_storage b).
Proof.
  intros Hi. destruct (core_free _ _ _ Hok) as (fl & _ & Hperm).
  assert (i ∈ seqZ 0 (alen (_storage b))) as Hs%elem_of_seqZ; [|lia].
  rewrite <- Hperm. apply elem_of_app. by left.
Qed.

Lemma pt_resting_range i : i ∈ l -> 0 <= i < alen (_storage b).
Proof. intros. apply pt_used_range, elem_of_app. by left. Qed.

Lemma pt_hand_range i : i ∈ x -> 0 <= i < alen (_storage b).
Proof. intros. apply pt_used_range, elem_of_app. by right. Qed.

Lemma resting_nodup : NoDup l.
Proof. pose proof pt_used_nodup as Hnd. by apply NoDup_app in Hnd as [? _]. Qed.

Lemma pt_hand_not_resting i : i ∈ x -> i ∉ l.
Proof.
  intros Hx Hl. pose proof pt_used_nodup as Hnd. apply NoDup_app in Hnd as (_ & Hd & _).
  by apply (Hd i).
Qed.

Lemma pt_used_ids_inj i j : i ∈ l ++ x -> j ∈ l ++ x -> id (node b i) = id (node b j) -> i = j.
Proof.
  intros Hi Hj Hid. pose proof (core_ids _ _ _ Hok) as Hv.
  assert (_orders b !! id (node b i) = Some i) as Ei by (by apply Hv).
  assert (_orders b !! id (node b i) = Some j) as Ej by (by apply Hv). congruence.
Qed.

Lemma resting_ids_inj i j :
  i ∈ l -> j ∈ l -> rest_id (resting b i) = rest_id (resting b j) -> i = j.
Proof. intros. apply pt_used_ids_inj; [apply elem_of_app; by left..|done]. Qed.

Lemma queue_at_elem s p i : i ∈ queue_at b l s p <-> i ∈ l /\ side (node b i) = s /\ price (node b i) = p.
Proof. unfold queue_at. rewrite list_elem_of_filter. tauto. Qed.

Lemma pt_resting_in_queue i : i ∈ l -> i ∈ queue_at b l (side (node b i)) (price (node b i)).
Proof. intros. by apply queue_at_elem. Qed.

Lemma queue_nodup s p : NoDup (queue_at b l s p).
Proof. apply NoDup_filter, resting_nodup. Qed.

Lemma queue_range s p i : i ∈ queue_at b l s p -> 0 <= i < alen (_storage b).
Proof. intros [Hi _]%queue_at_elem. by apply pt_resting_range. Qed.

Lemma pt_used_length : Z.of_nat (length (l ++ x)) <= alen (_storage b).
Proof.
  destruct (core_free _ _ _ Hok) as (fl & _ & Hperm).
  apply Permutation_length in Hperm. rewrite length_app, length_seqZ in Hperm. unfold alen in *. lia.
Qed.
End facts.

(** ** What depends on the payload only *)

Lemma queue_at_ext b b' l s p :
  (forall i, i ∈ l -> side (node b' i) = side (node b i) /\ price (node b' i) = price (node b i)) ->
  queue_at b' l s p = queue_at b l s p.
Proof.
  unfold queue_at. induction l as [|i l IH]; intros He; [done|].
  destruct (He i ltac:(by left)) as [Es Ep].
  rewrite !filter_cons, Es, Ep, IH by (intros; apply He; by right). done.
Qed.

Section payload.
Context (b b' : t).
Hypothesis Hp : forall j, 0 <= j -> strip (node b' j) = strip (node b j).

Lemma queue_at_payload l s p :
  (forall i, i ∈ l -> 0 <= i) -> queue_at b' l s p = queue_at b l s p.
Proof using Hp.
  intros Hl. apply queue_at_ext. intros i Hi.
  by destruct (pt_strip_fields _ _ (Hp i (Hl i Hi))) as (_ & Ep & _ & Es & _).
Qed.

Lemma pt_orders_payload l : (forall i, i ∈ l -> 0 <= i) -> orders b' l = orders b l.
Proof using Hp.
  intros Hl. apply map_ext_in. intros i Hi%list_elem_of_In%Hl. unfold resting.
  by destruct (pt_strip_fields _ _ (Hp i Hi)) as (-> & -> & -> & -> & _).
Qed.

Lemma pt_core_payload l x l' x' :
  core_ok b l x -> frame b' = frame b -> l ++ x ≡ₚ l' ++ x' ->
  (forall i, i ∈ l' -> 0 <= remaining (node b i) < 2 ^ 64) ->
  (forall s p, levels b' s !! p = level_of (queue_at b l' s p)) ->
  (forall s p, queue_links (_storage b') (queue_at b l' s p)) ->
  core_ok b' l' x'.
Proof using Hp.
  intros Hok Hf Hperm Hrem Hlv Hlk. unfold frame in Hf. injection Hf as Hc Hfr Ha Ho Hlen.
  assert (forall i, i ∈ l' ++ x' -> 0 <= i) as Hpos.
  { intros i. rewrite <- Hperm. intros Hi%(pt_used_range _ _ _ Hok). lia. }
  assert (forall i, i ∈ l' -> 0 <= i) as Hpos' by (intros; apply Hpos, elem_of_app; by left).
  destruct (core_free _ _ _ Hok) as (fl & Hch & Hfl). constructor.
  - intros. by rewrite queue_at_payload by done.
  - intros. by rewrite queue_at_payload by done.
  - exists fl. rewrite Hfr, Hlen, <- Hperm. split; [|done].
    apply (free_chain_ext free_next nullptr (_storage b)); [|done]. intros i Hi.
    assert (i ∈ seqZ 0 (alen (_storage b))) as Hr%elem_of_seqZ.
    { rewrite <- Hfl. apply elem_of_app. by right. }
    apply (pt_strip_fields _ _ (Hp i ltac:(lia))).
  - by rewrite Ha, (core_active _ _ _ Hok), Hperm.
  - intros k i. rewrite Ho, (core_ids _ _ _ Hok), Hperm.
    split; intros [Hi Hk]; (split; [done|]);
      destruct (pt_strip_fields _ _ (Hp i ltac:(by apply Hpos))) as [E _]; congruence.
  - intros i Hi. destruct (pt_strip_fields _ _ (Hp i ltac:(by apply Hpos))) as [-> _].
    apply (core_nonzero _ _ _ Hok). by rewrite Hperm.
  - intros i Hi. destruct (pt_strip_fields _ _ (Hp i ltac:(by apply Hpos'))) as (_ & _ & -> & _). auto.
  - rewrite Hlen, Hc. apply (core_size _ _ _ Hok).
Qed.
End payload.

(** ** Appending a node *)

(** The entry [levels[price]] reads, created when it is missing. *)
Definition entry (q : list Z) : PriceLevel := mkLevel (first_or nullptr q) (last_or nullptr q).

Lemma default_level q : default empty_level (level_of q) = entry q.
Proof. by destruct q. Qed.

Lemma level_of_cons q : q <> [] -> level_of q = Some (entry q).
Proof. by destruct q. Qed.

Lemma first_null q : (forall j, j ∈ q -> 0 <= j) -> first_or nullptr q = nullptr <-> q = [].
Proof.
  intros Hq. split; [|by intros ->]. destruct q as [|j q]; [done|]. simpl.
  specialize (Hq j ltac:(by left)). unfold nullptr. lia.
Qed.

Lemma last_null q : (forall j, j ∈ q -> 0 <= j) -> last_or nullptr q = nullptr <-> q = [].
Proof.
  intros Hq. split; [|by intros ->]. intros E. destruct (decide (q = [])) as [|Hne]; [done|].
  pose proof (Hq _ (last_or_elem nullptr q Hne)) as H0. rewrite E in H0. unfold nullptr in H0. lia.
Qed.

Section append.
Context (b : t) (l : list Z) (i : Z).
Hypothesis Hok : core_ok b l [i].
Hypothesis Hnext : next (node b i) = nullptr.
Let s : Side := side (node b i).
Let p : Z := price (node b i).
Let q : list Z := queue_at b l s p.

Let Hi : 0 <= i < alen (_storage b).
Proof. apply (pt_hand_range b l [i] Hok). by left. Qed.
Let Hil : i ∉ l.
Proof. apply (pt_hand_not_resting b l [i] Hok). by left. Qed.
Let Hq j : j ∈ q -> 0 <= j < alen (_storage b) /\ j <> i.
Proof.
  intros Hj. split; [by apply (queue_range b l [i] Hok s p)|].
  intros ->. by apply queue_at_elem in Hj as [? _].
Qed.

Lemma append_node j :
  0 <= j -> node (append b i) j =
    if decide (j = i) then (node b i) <| previous := last_or nullptr q |>
    else if decide (j = last_or nullptr q) then (node b j) <| next := i |> else node b j.
Proof.
  intros Hj. unfold append, append_to. rewrite (core_levels _ _ _ Hok), default_level.
  fold s p q. cbn [tail entry].
  destruct (Z.eqb_spec (last_or nullptr q) nullptr) as [E|E]; cbn [negb].
  - rewrite node_upd_levels, pt_node_upd_node by done. case_decide; [by subst|].
    by rewrite decide_False by (rewrite E; unfold nullptr; lia).
  - destruct (Hq (last_or nullptr q)) as [Hr Hne].
    { apply last_or_elem. intros Hn. apply E. by rewrite Hn. }
    rewrite node_upd_levels, !pt_node_upd_node by (rewrite ?alen_upd_node; lia).
    destruct (decide (j = i)) as [->|]; [by rewrite decide_False|].
    destruct (decide (j = last_or nullptr q)) as [->|]; [|done]. by rewrite decide_False.
Qed.

Lemma append_levels s' p' :
  levels (append b i) s' !! p' =
    if decide ((s', p') = (s, p)) then level_of (q ++ [i]) else levels b s' !! p'.
Proof.
  unfold append, append_to. rewrite (core_levels _ _ _ Hok), default_level. fold s p q. cbn [tail entry].
  assert (level_of (q ++ [i]) = Some (mkLevel (first_or i q) i)) as ->.
  { rewrite level_of_cons by (by destruct q). unfold entry. by rewrite first_or_app, last_or_snoc. }
  pose proof (last_null q (fun j Hj => proj1 (proj1 (Hq j Hj)))) as Hn.
  destruct (Z.eqb_spec (last_or nullptr q) nullptr) as [E|E]; cbn [negb];
    autorewrite with ptbook; destruct (decide (s' = s)) as [->|Hs].
  2,4: by rewrite decide_False by congruence.
  all: destruct (decide (p' = p)) as [->|Hp].
  2,4: by rewrite lookup_insert_ne, decide_False by congruence.
  all: rewrite lookup_insert_eq, decide_True by done; updates; cbn [head tail].
  - by rewrite (proj1 Hn E).
  - do 2 f_equal. apply first_or_irrel. by intros ->.
Qed.

Lemma append_strip j : 0 <= j -> strip (node (append b i) j) = strip (node b j).
Proof. intros Hj. rewrite append_node by done. repeat case_decide; by subst. Qed.

Lemma append_frame : frame (append b i) = frame b.
Proof.
  unfold append, append_to. set (lv := default _ _).
  destruct (tail lv =? nullptr); cbn [negb]; by autorewrite with ptbook.
Qed.

Lemma queue_at_snoc s' p' :
  queue_at b (l ++ [i]) s' p' =
    if decide ((s', p') = (s, p)) then q ++ [i] else queue_at b l s' p'.
Proof.
  unfold q, queue_at. rewrite filter_app. case_decide as Hd.
  - simplify_eq. by rewrite filter_cons_True, filter_nil.
  - rewrite filter_cons_False by (intros [<- <-]; by apply Hd).
    by rewrite filter_nil, app_nil_r.
Qed.

Lemma append_links s' p' : queue_links (_storage (append b i)) (queue_at b (l ++ [i]) s' p').
Proof.
  rewrite queue_at_snoc. pose proof (core_links _ _ _ Hok) as Hl. case_decide as Hd.
  - pose proof (Hl s p) as Hlq. fold q in Hlq.
    apply (linked_append previous next nullptr (_storage b)); [by apply (queue_nodup b l [i])|..|done].
    + intros Hj. by apply Hq in Hj as [_ ?].
    + intros j Hj. destruct (Hq j Hj) as [Hr Hne]. change ((_storage (append b i)).[j]) with (node (append b i) j).
      rewrite append_node by lia. rewrite decide_False by done. by case_decide.
    + intros j Hj. destruct (Hq j Hj) as [Hr Hne]. change ((_storage (append b i)).[j]) with (node (append b i) j).
      rewrite append_node by lia. rewrite decide_False by done. by case_decide.
    + change ((_storage (append b i)).[i]) with (node (append b i) i).
      rewrite append_node by lia. by rewrite decide_True.
    + change ((_storage (append b i)).[i]) with (node (append b i) i).
      rewrite append_node by lia. by rewrite decide_True.
  - apply (linked_ext previous next (_storage b)); [|apply Hl]. intros j Hj.
    pose proof Hj as (Hjl & Es & Ep)%queue_at_elem. apply (pt_resting_range b l [i] Hok) in Hjl as Hr.
    change ((_storage (append b i)).[j]) with (node (append b i) j).
    rewrite append_node by lia. rewrite decide_False by (by intros ->). rewrite decide_False; [done|].
    intros ->. destruct (last_or_cases nullptr q) as [E|E]; [unfold nullptr in *; lia|].
    apply queue_at_elem in E as (_ & ? & ?). congruence.
Qed.

Lemma pt_append_core : 0 <= remaining (node b i) < 2 ^ 64 -> core_ok (append b i) (l ++ [i]) [].
Proof.
  intros Hrem. apply (pt_core_payload b _ append_strip l [i]); auto using append_frame, append_links.
  - by rewrite app_nil_r.
  - intros j [Hj|Hj%list_elem_of_singleton]%elem_of_app; [|by subst].
    by apply (core_remaining _ _ _ Hok).
  - intros s' p'. rewrite append_levels, queue_at_snoc, (core_levels _ _ _ Hok). by case_decide.
Qed.
End append.

(** ** Unlinking a node *)

(** The entry after unlinking [i] from between [q1] and [q2]. *)
Definition unlinked_level (q1 : list Z) (i : Z) (q2 : list Z) : PriceLevel :=
  let before := last_or nullptr q1 in
  let after := first_or nullptr q2 in
  mkLevel (if before =? nullptr then after else first_or nullptr (q1 ++ i :: q2))
    (if after =? nullptr then before else last_or nullptr (q1 ++ i :: q2)).

Lemma pt_unlinked_level_ok q1 i q2 :
  (forall j, j ∈ q1 \/ j ∈ q2 -> 0 <= j) ->
  (if head (unlinked_level q1 i q2) =? nullptr then None else Some (unlinked_level q1 i q2)) =
    level_of (q1 ++ q2).
Proof.
  intros mem.
  pose proof (last_null q1 (fun j Hj => mem j (or_introl Hj))) as H1.
  pose proof (first_null q2 (fun j Hj => mem j (or_intror Hj))) as H2.
  unfold unlinked_level. cbn [head]. destruct (Z.eqb_spec (last_or nullptr q1) nullptr) as [E1|E1].
  - apply H1 in E1. subst q1. cbn [app last_or].
    destruct (Z.eqb_spec (first_or nullptr q2) nullptr) as [E2|E2]; [apply H2 in E2; by subst q2|].
    by destruct q2.
  - assert (q1 <> []) as Hne by (intros E; apply E1; by rewrite E).
    rewrite (level_of_cons (q1 ++ q2)) by (by destruct q1). unfold entry. rewrite !first_or_app, !last_or_app.
    cbn [first_or last_or]. rewrite (first_or_irrel i (first_or nullptr q2)) by done.
    destruct (Z.eqb_spec (first_or (first_or nullptr q2) q1) nullptr) as [E|E].
    { pose proof (mem _ (or_introl (first_or_elem (first_or nullptr q2) q1 Hne))). unfold nullptr in *. lia. }
    destruct (Z.eqb_spec (first_or nullptr q2) nullptr) as [E2|E2]; [apply H2 in E2; by subst q2|].
    do 2 f_equal. apply last_or_irrel. intros ->. done.
Qed.

Section unlink.
Context (b : t) (l x : list Z) (i : Z).
Hypothesis Hok : core_ok b l x.
Hypothesis Hil : i ∈ l.
Let s : Side := side (node b i).
Let p : Z := price (node b i).
Context (q1 q2 : list Z).
Hypothesis Hq : queue_at b l s p = q1 ++ i :: q2.
Abbreviation before := (last_or nullptr q1).
Abbreviation after := (first_or nullptr q2).

Let Hi : 0 <= i < alen (_storage b).
Proof. by apply (pt_resting_range b l x Hok). Qed.

Let Hnd : NoDup (q1 ++ i :: q2).
Proof. rewrite <- Hq. by apply (queue_nodup b l x). Qed.

Let mem j : j ∈ q1 \/ j ∈ q2 -> 0 <= j < alen (_storage b) /\ j <> i.
Proof.
  intros Hj. split.
  - apply (queue_range b l x Hok s p). rewrite Hq. set_solver.
  - intros ->. apply NoDup_app in Hnd as (_ & Hd & [? _]%NoDup_cons).
    destruct Hj as [Hj|Hj]; [|done]. apply (Hd i Hj). by left.
Qed.

Let before_ok : before <> nullptr -> 0 <= before < alen (_storage b) /\ before <> i.
Proof. intros Hn. apply mem. left. destruct (last_or_cases nullptr q1); [done|done]. Qed.

Let after_ok : after <> nullptr -> 0 <= after < alen (_storage b) /\ after <> i.
Proof. intros Hn. apply mem. right. destruct (first_or_cases nullptr q2); [done|done]. Qed.

Let apart : before <> nullptr -> before <> after.
Proof.
  intros Hb E. destruct (last_or_cases nullptr q1) as [|H1]; [done|].
  destruct (first_or_cases nullptr q2) as [E2|H2]; [congruence|].
  apply NoDup_app in Hnd as (_ & Hd & _). apply (Hd _ H1). rewrite E. by right.
Qed.

Let at_i : previous (node b i) = before /\ next (node b i) = after.
Proof.
  apply (linked_links previous next nullptr). rewrite <- Hq. apply (core_links _ _ _ Hok).
Qed.

Let found : levels b s !! p = Some (entry (q1 ++ i :: q2)).
Proof. rewrite (core_levels _ _ _ Hok), Hq. apply level_of_cons. by destruct q1. Qed.

Definition unlinked : t :=
  let b := if before =? nullptr then b else upd_node b before (fun n => n <| next := after |>) in
  let b := if after =? nullptr then b else upd_node b after (fun n => n <| previous := before |>) in
  upd_node b i (fun n => n <| previous := nullptr |> <| next := nullptr |>).

Lemma unlink_eq :
  unlink b i =
    let b' := upd_levels unlinked s <[p := unlinked_level q1 i q2]> in
    if head (unlinked_level q1 i q2) =? nullptr then upd_levels b' s (delete p) else b'.
Proof.
  unfold unlink, unlink_from. fold s p. rewrite found. destruct at_i as [Ep En].
  unfold unlinked, unlinked_level. rewrite Ep.
  destruct (Z.eqb_spec before nullptr) as [Eb|Eb]; cbn [negb].
  - cbv beta iota zeta. rewrite En, Ep. by destruct (Z.eqb_spec after nullptr).
  - destruct (before_ok Eb) as [Hb Hbi].
    assert (node (upd_node b before (fun n => n <| next := next (node b i) |>)) i = node b i) as Hn.
    { rewrite pt_node_upd_node by lia. by rewrite decide_False. }
    cbv beta iota zeta. rewrite !Hn, Ep, En. by destruct (Z.eqb_spec after nullptr).
Qed.

Let unlink_unlinked j : node (unlink b i) j = node unlinked j.
Proof. rewrite unlink_eq. cbn zeta. destruct (_ =? _); by autorewrite with ptbook. Qed.

Lemma unlink_node j :
  0 <= j -> node (unlink b i) j =
    if decide (j = i) then strip (node b i)
    else if decide (j = before) then (node b j) <| next := after |>
    else if decide (j = after) then (node b j) <| previous := before |> else node b j.
Proof.
  intros Hj. rewrite unlink_unlinked. unfold unlinked.
  set (b1 := if before =? nullptr then b else _).
  assert (alen (_storage b1) = alen (_storage b) /\ forall k, 0 <= k ->
    node b1 k = if decide (k = before) then (node b k) <| next := after |> else node b k) as [Hl1 H1].
  { unfold b1. destruct (Z.eqb_spec before nullptr) as [E|E].
    - split; [done|]. intros k Hk. rewrite decide_False; [done|]. rewrite E. unfold nullptr. lia.
    - split; [apply alen_upd_node|]. intros k Hk. rewrite pt_node_upd_node by (apply before_ok || done; done).
      case_decide; by subst. }
  set (b2 := if after =? nullptr then b1 else _).
  assert (alen (_storage b2) = alen (_storage b) /\ forall k, 0 <= k ->
    node b2 k = if decide (k = after) then (node b1 k) <| previous := before |> else node b1 k) as [Hl2 H2].
  { unfold b2. destruct (Z.eqb_spec after nullptr) as [E|E].
    - split; [done|]. intros k Hk. rewrite decide_False; [done|]. rewrite E. unfold nullptr. lia.
    - split; [by rewrite alen_upd_node|]. destruct (after_ok E).
      intros k Hk. rewrite pt_node_upd_node by (rewrite ?Hl1; done). case_decide; by subst. }
  rewrite pt_node_upd_node by (rewrite ?Hl2; done). rewrite !H2, !H1 by lia.
  destruct (decide (j = i)) as [->|Hne].
  - rewrite (decide_False (P := i = after)), (decide_False (P := i = before)); [done|..].
    + intros E. assert (before <> nullptr) as Hn by (rewrite <- E; unfold nullptr; lia).
      by destruct (before_ok Hn).
    + intros E. assert (after <> nullptr) as Hn by (rewrite <- E; unfold nullptr; lia).
      by destruct (after_ok Hn).
  - destruct (decide (j = before)) as [E|]; [|done]. rewrite decide_False; [done|].
    rewrite E. apply apart. rewrite <- E. unfold nullptr. lia.
Qed.

Lemma unlink_strip j : 0 <= j -> strip (node (unlink b i) j) = strip (node b j).
Proof. intros Hj. rewrite unlink_node by done. repeat case_decide; by subst. Qed.

Lemma unlink_frame : frame (unlink b i) = frame b.
Proof.
  rewrite unlink_eq. cbn zeta. unfold unlinked.
  destruct (_ =? _), (_ =? _), (_ =? _); by autorewrite with ptbook.
Qed.

(** Nodes of other queues and in hand are not touched. *)
Lemma unlink_other j : 0 <= j -> j ∉ queue_at b l s p -> node (unlink b i) j = node b j.
Proof.
  rewrite Hq. intros Hj Hn. rewrite unlink_node by done.
  assert (j <> before).
  { intros ->. destruct (last_or_cases nullptr q1) as [E|E]; [unfold nullptr in *; lia|].
    apply Hn, elem_of_app. by left. }
  assert (j <> after).
  { intros ->. destruct (first_or_cases nullptr q2) as [E|E]; [unfold nullptr in *; lia|].
    apply Hn, elem_of_app. right. by right. }
  assert (j <> i) by (intros ->; apply Hn, elem_of_app; right; by left).
  by rewrite !decide_False.
Qed.

Lemma unlink_levels s' p' :
  levels (unlink b i) s' !! p' =
    if decide ((s', p') = (s, p)) then level_of (q1 ++ q2) else levels b s' !! p'.
Proof.
  assert (forall s', levels unlinked s' = levels b s') as Hl.
  { intros. unfold unlinked. destruct (_ =? _), (_ =? _); by autorewrite with ptbook. }
  rewrite <- (pt_unlinked_level_ok q1 i q2 (fun j Hj => proj1 (proj1 (mem j Hj)))), unlink_eq. cbn zeta.
  destruct (decide (s' = s)) as [->|Hs]; [destruct (decide (p' = p)) as [->|Hp]|].
  - rewrite (decide_True (P := (s, p) = (s, p))) by done.
    destruct (_ =? _); autorewrite with ptbook; rewrite !decide_True by done.
    + apply lookup_delete_eq.
    + apply lookup_insert_eq.
  - rewrite (decide_False (P := (s, p') = (s, p))) by congruence.
    destruct (_ =? _); autorewrite with ptbook; rewrite !decide_True by done;
      by rewrite ?lookup_delete_ne, ?lookup_insert_ne, Hl by done.
  - rewrite (decide_False (P := (s', p') = (s, p))) by congruence.
    destruct (_ =? _); autorewrite with ptbook; by rewrite !decide_False, Hl by done.
Qed.

Lemma queue_at_without s' p' :
  queue_at b (without i l) s' p' = without i (queue_at b l s' p').
Proof. unfold queue_at, without. rewrite !list_filter_filter. apply list_filter_iff. tauto. Qed.

Let queue_at_rest s' p' :
  queue_at b (without i l) s' p' =
    if decide ((s', p') = (s, p)) then q1 ++ q2 else queue_at b l s' p'.
Proof.
  rewrite queue_at_without. case_decide as Hd.
  - simplify_eq. rewrite Hq. by apply without_mid.
  - apply without_id. intros (_ & <- & <-)%queue_at_elem. by apply Hd.
Qed.

Lemma unlink_links s' p' : queue_links (_storage (unlink b i)) (queue_at b (without i l) s' p').
Proof.
  rewrite queue_at_rest. pose proof (core_links _ _ _ Hok) as Hl. case_decide as Hd.
  - pose proof (Hl s p) as Hlq. rewrite Hq in Hlq.
    apply NoDup_app in Hnd as Hsplit. destruct Hsplit as (_ & Hdis & [Hi2 _]%NoDup_cons).
    apply (linked_unlink previous next nullptr (_storage b) _ q1 i q2); [done|..|done];
      intros j Hj; (destruct (mem j ltac:(auto)) as [Hr Hne]);
      change ((_storage (unlink b i)).[j]) with (node (unlink b i) j);
      change ((_storage b).[j]) with (node b j);
      rewrite unlink_node by lia; rewrite decide_False by done.
    + destruct (decide (j = before)); [done|]. rewrite decide_False; [done|]. intros ->.
      destruct (first_or_cases nullptr q2) as [E|E]; [unfold nullptr in *; lia|].
      apply (Hdis _ Hj). by right.
    + rewrite decide_False; [by case_decide|]. intros ->.
      destruct (last_or_cases nullptr q1) as [E|E]; [unfold nullptr in *; lia|].
      apply (Hdis _ E). by right.
    + destruct (decide (j = before)); [done|]. by case_decide.
    + rewrite decide_False; [by case_decide|]. intros ->.
      destruct (last_or_cases nullptr q1) as [E|E]; [unfold nullptr in *; lia|].
      apply (Hdis _ E). by right.
  - apply (linked_ext previous next (_storage b)); [|apply Hl]. intros j Hj.
    pose proof Hj as (Hjl & Es & Ep)%queue_at_elem. apply (pt_resting_range b l x Hok) in Hjl as Hr.
    change ((_storage (unlink b i)).[j]) with (node (unlink b i) j).
    rewrite unlink_other; [done|lia|]. intros (_ & ? & ?)%queue_at_elem. congruence.
Qed.

Lemma pt_unlink_core : core_ok (unlink b i) (without i l) (i :: x).
Proof.
  apply (pt_core_payload b _ unlink_strip l x); auto using unlink_frame, unlink_links.
  - rewrite (without_perm i l) at 1 by (done || by apply (resting_nodup b l x)).
    by rewrite <- app_assoc.
  - intros j [_ Hj]%elem_without. by apply (core_remaining _ _ _ Hok).
  - intros s' p'. rewrite unlink_levels, queue_at_rest, (core_levels _ _ _ Hok). by case_decide.
Qed.
End unlink.

(** * Pool and levels *)

Import PriceTimeOrderBook.

(** ** Books that agree on the resting nodes *)

Section same.
Context (b b' : t) (l : list Z).
Hypothesis Hn : forall i, i ∈ l -> node b' i = node b i.

Lemma queue_at_same s p : queue_at b' l s p = queue_at b l s p.
Proof using Hn.
  apply queue_at_ext. intros i Hi. by rewrite Hn.
Qed.

Lemma pt_orders_same : orders b' l = orders b l.
Proof using Hn. apply map_ext_in. intros i Hi%list_elem_of_In. unfold resting. by rewrite Hn. Qed.

Lemma live_same : live b l -> live b' l.
Proof using Hn. intros Hl i Hi. rewrite Hn by done. by apply Hl. Qed.

Lemma core_same x x' :
  core_ok b l x -> (forall s, levels b' s = levels b s) ->
  (exists fl, free_chain free_next nullptr (_storage b') (_free b') fl /\
    (l ++ x') ++ fl ≡ₚ seqZ 0 (alen (_storage b'))) ->
  _active b' = Z.of_nat (length (l ++ x')) ->
  (forall k i, _orders b' !! k = Some i <-> i ∈ l ++ x' /\ id (node b' i) = k) ->
  (forall i, i ∈ x' -> id (node b' i) <> 0) ->
  alen (_storage b') = alen (_storage b) -> _capacity b' = _capacity b ->
  core_ok b' l x'.
Proof using Hn.
  intros Hok Hlv Hfr Ha Ho Hnz Hlen Hc. constructor; auto.
  - intros. rewrite queue_at_same, Hlv. by apply (core_levels _ _ _ Hok).
  - intros. rewrite queue_at_same. apply (linked_ext previous next (_storage b)); [|apply (core_links _ _ _ Hok)].
    intros i [Hi _]%queue_at_elem. specialize (Hn i Hi). unfold node in Hn. by rewrite Hn.
  - intros i [Hi|Hi]%elem_of_app; [|by apply Hnz]. rewrite Hn by done.
    apply (core_nonzero _ _ _ Hok), elem_of_app. by left.
  - intros i Hi. rewrite Hn by done. by apply (core_remaining _ _ _ Hok).
  - rewrite Hlen, Hc. apply (core_size _ _ _ Hok).
Qed.
End same.

(** ** Releasing a node *)

Section release.
Context (b : t) (l x : list Z) (i : Z).
Hypothesis Hok : core_ok b l (i :: x).

Let perm : l ++ i :: x ≡ₚ i :: (l ++ x).
Proof. symmetry. apply Permutation_middle. Qed.

Let used_i : i ∈ l ++ i :: x.
Proof. rewrite perm. by left. Qed.

Let fresh_i : i ∉ l ++ x.
Proof. pose proof (pt_used_nodup _ _ _ Hok) as Hnd. rewrite perm in Hnd. by apply NoDup_cons in Hnd as [? _]. Qed.

Let used_others j : j ∈ l ++ x -> j ∈ l ++ i :: x /\ j <> i.
Proof. intros Hj. split; [rewrite perm; by right|]. by intros ->. Qed.

Lemma pt_release_reads j : j ∈ l ++ x -> node (release b i) j = node b j.
Proof.
  intros [Hj Hne]%used_others. pose proof (pt_used_range _ _ _ Hok i used_i).
  pose proof (pt_used_range _ _ _ Hok j Hj).
  unfold node, release, upd_node. updates. cbn [_storage]. by rewrite aget_aset_ne by lia.
Qed.

Lemma pt_release_core : core_ok (release b i) l x.
Proof.
  pose proof (pt_used_range _ _ _ Hok i used_i) as Hi.
  assert (alen (_storage (release b i)) = alen (_storage b)) as Hlen.
  { unfold release, upd_node. updates. cbn [_storage]. by autorewrite with arr. }
  apply (core_same b _ l) with (i :: x); auto.
  - intros j Hj. apply pt_release_reads, elem_of_app. by left.
  - destruct (core_free _ _ _ Hok) as (fl & Hc & Hp).
    assert (NoDup ((l ++ i :: x) ++ fl)) as Hnd by (rewrite Hp; apply NoDup_seqZ).
    apply NoDup_app in Hnd as (_ & Hd & _).
    exists (i :: fl). rewrite Hlen. split; [|by rewrite <- Hp, perm, <- Permutation_middle].
    unfold release, upd_node. updates. cbn [_storage _free]. split; [done|].
    rewrite aget_aset_eq by done. cbn [free_next].
    apply (free_chain_ext free_next nullptr (_storage b)); [|done]. intros j Hj.
    assert (j <> i) by (intros ->; by apply (Hd i used_i)).
    assert (j ∈ seqZ 0 (alen (_storage b))) as Hr%elem_of_seqZ.
    { rewrite <- Hp. apply elem_of_app. by right. }
    by rewrite aget_aset_ne by lia.
  - change (_active (release b i)) with (u64 (_active b - 1)). rewrite (core_active _ _ _ Hok).
    pose proof (pt_used_length _ _ _ Hok) as Hl. pose proof (core_size _ _ _ Hok) as [Hs _].
    assert (length (l ++ i :: x) = S (length (l ++ x))) as E by (by rewrite perm).
    rewrite E in *. rewrite wrap_small; lia.
  - intros k j. change (_orders (release b i)) with (delete (id (node b i)) (_orders b)).
    rewrite lookup_delete_Some, (core_ids _ _ _ Hok), perm, elem_of_cons. split.
    + intros (Hne & [->|Hj] & <-); [done|]. by rewrite pt_release_reads.
    + intros [Hj Hid]. rewrite pt_release_reads in Hid by done. split_and!; auto.
      intros Heq. destruct (used_others j Hj) as [Hj' Hne]. apply Hne.
      apply (pt_used_ids_inj _ _ _ Hok); [done|done|congruence].
  - intros j Hj. rewrite pt_release_reads by (apply elem_of_app; by right).
    apply (core_nonzero _ _ _ Hok). rewrite perm. right. apply elem_of_app. by right.
Qed.

Lemma pt_release_orders :
  orders (release b i) l = orders b l /\ (live b l -> live (release b i) l).
Proof.
  assert (forall j, j ∈ l -> node (release b i) j = node b j) as Hr.
  { intros j Hj. apply pt_release_reads, elem_of_app. by left. }
  split; [by apply pt_orders_same|by apply live_same].
Qed.
End release.

(** ** Allocating a node for a new order *)

Definition fill (k : Z) (s : Side) (p q : Z) (n : Node) : Node :=
  n <| id := k |> <| side := s |> <| price := p |> <| remaining := q |> <| state := New |>.

Definition filled (k : Z) (s : Side) (p q : Z) : Node := mkNode k p q s New nullptr nullptr nullptr.

(** The order enters its node and the id map. *)
Definition enter (b : t) (i k : Z) (s : Side) (p q : Z) : t :=
  let b := upd_node b i (fill k s p q) in b <| _orders ::= <[id (node b i) := i]> |>.

Lemma allocate_ok b l k s p q :
  core_ok b l [] -> k <> 0 -> _orders b !! k = None ->
  (allocate b = (b, nullptr) /\ Z.of_nat (length l) = _capacity b) \/
  exists b1 i, allocate b = (b1, i) /\ Z.of_nat (length l) < _capacity b /\ i <> nullptr /\
    core_ok (enter b1 i k s p q) l [i] /\ node (enter b1 i k s p q) i = filled k s p q /\
    orders (enter b1 i k s p q) l = orders b l /\ (live b l -> live (enter b1 i k s p q) l) /\
    _capacity (enter b1 i k s p q) = _capacity b.
Proof.
  intros Hok Hk Hnew. destruct (core_free _ _ _ Hok) as (fl & Hc & Hp). rewrite app_nil_r in Hp.
  pose proof (core_size _ _ _ Hok) as [Hsz Hcap].
  apply Permutation_length in Hp as Hlen. rewrite length_app, length_seqZ in Hlen.
  unfold allocate. destruct fl as [|i fl]; cbn [free_chain] in Hc; cbn [length] in Hlen.
  { left. rewrite Hc, Z.eqb_refl. split; [done|]. unfold alen in *. lia. }
  right. destruct Hc as [Hfi Hc]. rewrite Hfi in *.
  assert (NoDup (l ++ i :: fl)) as Hnd by (rewrite Hp; apply NoDup_seqZ).
  apply NoDup_app in Hnd as (_ & Hd & [Hifl Hnf]%NoDup_cons).
  assert (i ∈ seqZ 0 (alen (_storage b))) as Hi%elem_of_seqZ by (rewrite <- Hp; set_solver).
  assert (i ∉ l) as Hil by (intros Hl; apply (Hd i Hl); by left).
  destruct (Z.eqb_spec i nullptr) as [|Hne]; [unfold nullptr in *; lia|].
  eexists _, i. split; [done|].
  set (b2 := enter _ i k s p q).
  assert (forall j, 0 <= j -> node b2 j = if decide (j = i) then filled k s p q else node b j) as Hn.
  { intros j Hj. unfold b2, enter, upd_node, node. updates. cbn [_storage].
    rewrite aset_aset, aget_aset_eq, aget_aset by lia. repeat case_decide; by subst. }
  assert (node b2 i = filled k s p q) as Hni by (rewrite Hn by lia; by rewrite decide_True).
  assert (forall j, j ∈ l -> node b2 j = node b j) as Hl.
  { intros j Hj. apply (pt_resting_range _ _ _ Hok) in Hj as Hr. rewrite Hn by lia.
    rewrite decide_False; [done|]. by intros ->. }
  assert (alen (_storage b2) = alen (_storage b)) as Halen.
  { unfold b2, enter, upd_node. updates. cbn [_storage]. by autorewrite with arr. }
  assert (_orders b2 = <[k := i]> (_orders b)) as Hords.
  { change (_orders b2) with (<[id (node b2 i) := i]> (_orders b)). by rewrite Hni. }
  split_and!; [unfold alen in *; lia|done| |done|by apply pt_orders_same|by apply live_same|done].
  apply (core_same b _ l) with ([] : list Z); auto.
  - exists fl. rewrite Halen, <- Hp, <- app_assoc. split; [|done].
    apply (free_chain_ext free_next nullptr (_storage b)); [|exact Hc]. intros j Hj.
    assert (j ∈ seqZ 0 (alen (_storage b))) as Hr%elem_of_seqZ by (rewrite <- Hp; set_solver).
    change ((_storage b2).[j]) with (node b2 j). rewrite Hn by lia.
    rewrite decide_False; [done|]. by intros ->.
  - change (_active b2) with (incr (_active b)). rewrite (core_active _ _ _ Hok), app_nil_r.
    unfold incr. rewrite wrap_small; rewrite ?length_app; cbn [length]; [lia|]. unfold alen in *. lia.
  - intros k' j. rewrite Hords, lookup_insert_Some, (core_ids _ _ _ Hok), app_nil_r.
    rewrite elem_of_app, list_elem_of_singleton. split.
    + intros [[-> ->]|(Hne' & Hj & <-)]; [rewrite Hni; by auto|]. rewrite Hl by done. by auto.
    + intros [[Hj| ->] Hid]; [|left; rewrite Hni in Hid; by split].
      rewrite Hl in Hid by done. right. split_and!; auto. intros <-.
      assert (_orders b !! k = Some j) as E; [|congruence].
      apply (core_ids _ _ _ Hok). by rewrite app_nil_r.
  - intros j Hj%list_elem_of_singleton. subst j. by rewrite Hni.
Qed.

(** ** Changing one node *)

Section touch.
Context (b : t) (l x : list Z) (i : Z) (f : Node -> Node).
Hypothesis Hok : core_ok b l x.
Hypothesis Hi : i ∈ l ++ x.
Hypothesis Hid : forall n, id (f n) = id n /\ free_next (f n) = free_next n.
Hypothesis Hres : i ∈ l ->
  (forall n, side (f n) = side n /\ price (f n) = price n /\ previous (f n) = previous n /\ next (f n) = next n) /\
  0 <= remaining (f (node b i)) < 2 ^ 64.

Let range : 0 <= i < alen (_storage b).
Proof. by apply (pt_used_range _ _ _ Hok). Qed.

Let read j : 0 <= j -> node (upd_node b i f) j = if decide (j = i) then f (node b i) else node b j.
Proof. intros. by apply pt_node_upd_node. Qed.

Let fields j : 0 <= j -> id (node (upd_node b i f) j) = id (node b j) /\
  free_next (node (upd_node b i f) j) = free_next (node b j).
Proof. intros Hj. rewrite read by done. case_decide; [subst; apply Hid|done]. Qed.

Let links j : j ∈ l -> side (node (upd_node b i f) j) = side (node b j) /\
  price (node (upd_node b i f) j) = price (node b j) /\
  previous (node (upd_node b i f) j) = previous (node b j) /\
  next (node (upd_node b i f) j) = next (node b j).
Proof.
  intros Hj. apply (pt_resting_range _ _ _ Hok) in Hj as Hr. rewrite read by lia.
  case_decide; [subst|done]. by apply Hres.
Qed.

Lemma queue_at_touch s p : queue_at (upd_node b i f) l s p = queue_at b l s p.
Proof.
  apply queue_at_ext. intros j Hj. by destruct (links j Hj) as (? & ? & _).
Qed.

Lemma pt_touch_core : core_ok (upd_node b i f) l x.
Proof.
  constructor.
  - intros. rewrite queue_at_touch, pt_levels_upd_node. apply (core_levels _ _ _ Hok).
  - intros. rewrite queue_at_touch.
    apply (linked_ext previous next (_storage b)); [|apply (core_links _ _ _ Hok)].
    intros j [Hj _]%queue_at_elem. by destruct (links j Hj) as (_ & _ & ? & ?).
  - destruct (core_free _ _ _ Hok) as (fl & Hc & Hp). exists fl. rewrite alen_upd_node. split; [|done].
    apply (free_chain_ext free_next nullptr (_storage b)); [|done]. intros j Hj.
    assert (j ∈ seqZ 0 (alen (_storage b))) as Hr%elem_of_seqZ.
    { rewrite <- Hp. apply elem_of_app. by right. }
    by destruct (fields j ltac:(lia)).
  - apply (core_active _ _ _ Hok).
  - intros k j. change (_orders (upd_node b i f)) with (_orders b). rewrite (core_ids _ _ _ Hok).
    split; intros [Hj Hk]; (split; [done|]); apply (pt_used_range _ _ _ Hok) in Hj;
      destruct (fields j ltac:(lia)); congruence.
  - intros j Hj. apply (pt_used_range _ _ _ Hok) in Hj as Hr. destruct (fields j ltac:(lia)) as [-> _].
    by apply (core_nonzero _ _ _ Hok).
  - intros j Hj. apply (pt_resting_range _ _ _ Hok) in Hj as Hr. rewrite read by lia.
    case_decide; [subst; by apply Hres|by apply (core_remaining _ _ _ Hok)].
  - rewrite alen_upd_node. apply (core_size _ _ _ Hok).
Qed.

(** A node in hand is not one of the resting orders. *)
Lemma touch_hand_orders :
  i ∉ l -> orders (upd_node b i f) l = orders b l /\ (live b l -> live (upd_node b i f) l).
Proof.
  intros Hn. assert (forall j, j ∈ l -> node (upd_node b i f) j = node b j) as Hs.
  { intros j Hj. apply (pt_resting_range _ _ _ Hok) in Hj as Hr. rewrite read by lia.
    rewrite decide_False; [done|]. by intros ->. }
  split; [by apply pt_orders_same|by apply live_same].
Qed.
End touch.

(** ** Construction *)

Lemma thread_free_spec n i storage first :
  0 <= i -> alen storage = i + Z.of_nat n -> first = i - 1 ->
  (forall j, 0 <= j < i -> free_next storage.[j] = j - 1) ->
  let '(storage', free) := thread_free n i storage first in
  alen storage' = alen storage /\ free = alen storage - 1 /\
  forall j, 0 <= j < alen storage -> free_next storage'.[j] = j - 1.
Proof.
  revert i storage first. induction n as [|n IH]; intros i storage first Hi Hl Hf Hs; cbn [thread_free].
  - split_and!; [done|lia|]. intros. apply Hs. lia.
  - specialize (IH (i + 1) (storage.[i <- storage.[i] <| free_next := first |>]) i).
    rewrite alen_aset in IH. apply IH; [lia|lia|lia|]. intros j Hj.
    rewrite aget_aset by lia. case_decide; [subst; updates; cbn [free_next]; lia|]. apply Hs. lia.
Qed.

Lemma free_chain_down (storage : list Node) n :
  (forall j, 0 <= j < Z.of_nat n -> free_next storage.[j] = j - 1) ->
  free_chain free_next nullptr storage (Z.of_nat n - 1) (reverse (seqZ 0 (Z.of_nat n))).
Proof.
  induction n as [|n IH]; intros Hs; [done|].
  replace (Z.of_nat (S n)) with (Z.of_nat n + 1) by lia. rewrite seqZ_app by lia.
  assert (seqZ (0 + Z.of_nat n) 1 = [Z.of_nat n]) as -> by (rewrite seqZ_cons by lia; done).
  rewrite reverse_app. cbn [reverse rev_append app free_chain]. split; [lia|].
  rewrite Hs by lia. apply IH. intros. apply Hs. lia.
Qed.

Lemma pt_make_represents cap : 0 <= cap < 2 ^ 64 -> represents (make cap) [] /\ _capacity (make cap) = cap.
Proof.
  intros Hc. unfold make.
  pose proof (thread_free_spec (Z.to_nat cap) 0 (replicate (Z.to_nat cap) empty_node) nullptr
    ltac:(lia) ltac:(rewrite alen_replicate; lia) eq_refl ltac:(lia)) as Hth.
  destruct (thread_free _ _ _ _) as [storage free]. rewrite alen_replicate, Z2Nat.id in Hth by lia.
  destruct Hth as (Hlen & -> & Hs). split; [|done]. exists []. split_and!; [|by intros i Hi%elem_of_nil|done].
  constructor; cbn [_storage _free _active _orders _capacity app length]; try done; try lia.
  - by intros [] p.
  - exists (reverse (seqZ 0 cap)). rewrite Hlen. split; [|by rewrite reverse_Permutation].
    replace cap with (Z.of_nat (Z.to_nat cap)) in Hs |- * by lia. by apply free_chain_down.
  - intros k i. rewrite lookup_empty. split; [done|]. by intros [Hi%elem_of_nil _].
  - by intros i Hi%elem_of_nil.
  - by intros i Hi%elem_of_nil.
Qed.
