(* ===== verification/PriceTimeMatch.v ===== *)
(** * Matching in the reference book is price-time matching

    [match_level] and [match_levels] trade with the head of the first level of
    the opposite map; the specification trades, round by round, with the resting
    order that has price-time priority.  They make the same calls on the sink
    and leave the same orders resting. *)

From S2P Require Import Prelude BookTypes LinkedQueue BookFacts PriceTimeBook PriceTimeFacts.
Import PriceTimeOrderBook.

(** ** The first level holds the order with priority *)

Lemma queue_orders b l s p : BookSpec.queue (orders b l) s p = map (resting b) (queue_at b l s p).
Proof. apply queue_map. Qed.

Lemma first_level b l x s :
  core_ok b l x ->
  match begin s (levels b s) with
  | None => forall i, i ∈ l -> side (node b i) <> s
  | Some (p, lv) => exists i q, queue_at b l s p = i :: q /\ lv = entry (i :: q) /\
      BookSpec.best_order (orders b l) s = Some (resting b i)
  end.
Proof.
  intros Hok. pose proof (core_levels _ _ _ Hok) as Hlv.
  assert (forall i, i ∈ l -> side (node b i) = s -> is_Some (levels b s !! price (node b i))) as Hin.
  { intros i Hi <-. rewrite Hlv. apply (pt_resting_in_queue b) in Hi.
    destruct (queue_at b l _ _); [by apply elem_of_nil in Hi|by eexists]. }
  pose proof (begin_spec s (levels b s)) as Hb. destruct (begin s (levels b s)) as [[p lv]|].
  - destruct Hb as [Hp Hbest]. rewrite Hlv in Hp.
    destruct (queue_at b l s p) as [|i q] eqn:Eq; [done|]. injection Hp as <-.
    exists i, q. split_and!; [done|done|].
    apply (best_order_first _ s p _ (map (resting b) q)); [by rewrite queue_orders, Eq|].
    intros o (j & -> & Hj)%list_elem_of_fmap Hs. destruct (Hin j Hj Hs) as [l' Hl'].
    rewrite <- precedes_better. by apply (Hbest _ l').
  - intros i Hi Hs. destruct (Hin i Hi Hs) as [l' Hl']. rewrite Hb in Hl'. by rewrite lookup_empty in Hl'.
Qed.

(** ** One round *)

Definition level_round (b : t) (s : Side) (taker match_price : Z) : t * bool * list SinkEvent :=
  let maker := head (default empty_level (levels b s !! match_price)) in
  let quantity :=
    if remaining (node b taker) <? remaining (node b maker)
    then remaining (node b taker) else remaining (node b maker) in
  let b := upd_node b taker (fun n => n <| remaining ::= fun r => u64 (r - quantity) |>) in
  let b := upd_node b maker (fun n => n <| remaining ::= fun r => u64 (r - quantity) |>) in
  let traded :=
    on_trade (Trade.mk (id (node b maker)) (id (node b taker)) match_price quantity) in
  if remaining (node b maker) =? 0 then
    let b := upd_node b maker (fun n => n <| state := Filled |>) in
    let out := [traded; on_order (OrderUpdate.mk (id (node b maker)) Filled 0)] in
    let b := release (unlink_from b s maker) maker in
    (b, negb (bool_decide (fst <$> begin s (levels b s) = Some match_price)), out)
  else
    let b := upd_node b maker (fun n => n <| state := PartiallyFilled |>) in
    (b, false, [traded; on_order (OrderUpdate.mk (id (node b maker)) PartiallyFilled
      (remaining (node b maker)))]).

Lemma pt_match_level_S n b s taker p out :
  match_level (S n) b s taker p out =
    if (remaining (node b taker) =? 0) ||
       (head (default empty_level (levels b s !! p)) =? nullptr) then (b, out)
    else
      let '(b', stop, ev) := level_round b s taker p in
      if stop then (b', out ++ ev) else match_level n b' s taker p (out ++ ev).
Proof.
  cbn [match_level]. unfold level_round. cbn zeta. destruct (_ || _); [done|].
  match goal with |- (if ?c then _ else _) = _ => destruct c end; [|by rewrite <- app_assoc].
  rewrite <- app_assoc. cbn [app].
  destruct (begin s _) as [[p' lv]|]; cbn [fmap option_fmap option_map fst].
  - destruct (Z.eqb_spec p' p) as [->|Hne]; cbn [negb].
    + by rewrite bool_decide_true.
    + by rewrite bool_decide_false by congruence.
  - by rewrite bool_decide_false.
Qed.

Lemma match_level_done n b s taker p out :
  remaining (node b taker) = 0 -> match_level n b s taker p out = (b, out).
Proof. intros H0. destruct n; [done|]. by rewrite pt_match_level_S, H0. Qed.

Section round.
Context (b : t) (l : list Z) (k i p : Z) (rest : list Z).
Let s : Side := opposite (side (node b k)).
Hypothesis Hok : core_ok b l [k].
Hypothesis Hlive : live b l.
Hypothesis Hqueue : queue_at b l s p = i :: rest.
Hypothesis Hrem : 0 < remaining (node b k) < 2 ^ 64.
Let q : Z := Z.min (remaining (node b k)) (remaining (node b i)).
Let st : OrderState := if remaining (node b i) =? q then Filled else PartiallyFilled.

Let place : i ∈ l /\ side (node b i) = s /\ price (node b i) = p.
Proof. apply queue_at_elem. rewrite Hqueue. by left. Qed.
Let Hi : i ∈ l.
Proof. apply place. Qed.
Let Hk : k ∉ l.
Proof. apply (pt_hand_not_resting b l [k] Hok). by left. Qed.
Let range_k : 0 <= k < alen (_storage b).
Proof. apply (pt_hand_range b l [k] Hok). by left. Qed.
Let range_i : 0 <= i < alen (_storage b).
Proof. by apply (pt_resting_range b l [k] Hok). Qed.
Let differ : i <> k.
Proof. intros E. apply Hk. by rewrite <- E. Qed.
Let q_ok : 0 < q <= remaining (node b i) /\ q <= remaining (node b k).
Proof. pose proof (Hlive i Hi). unfold q. lia. Qed.
Let rem_i : remaining (node b i) < 2 ^ 64.
Proof. by apply (core_remaining _ _ _ Hok). Qed.

Let b1 : t := upd_node b k (fun n => n <| remaining ::= fun r => u64 (r - q) |>).
Let b2 : t := upd_node b1 i (fun n => n <| remaining ::= fun r => u64 (r - q) |>).
Let b3 : t := upd_node b2 i (fun n => n <| state := st |>).

Let node_b2 j : 0 <= j -> node b2 j =
  if decide (j = i) then (node b i) <| remaining := remaining (node b i) - q |>
  else if decide (j = k) then (node b k) <| remaining := remaining (node b k) - q |> else node b j.
Proof.
  intros Hj. unfold b2, b1. rewrite !pt_node_upd_node by (rewrite ?alen_upd_node; lia).
  rewrite (decide_False (P := i = k)) by done. updates.
  repeat case_decide; subst; try done; f_equal; apply wrap_small; lia.
Qed.

Let node_b3 j : 0 <= j -> node b3 j =
  if decide (j = i) then (node b i) <| remaining := remaining (node b i) - q |> <| state := st |>
  else if decide (j = k) then (node b k) <| remaining := remaining (node b k) - q |> else node b j.
Proof.
  intros Hj. unfold b3. rewrite pt_node_upd_node by (unfold b2, b1; rewrite ?alen_upd_node; lia).
  rewrite !node_b2 by lia. rewrite (decide_True (P := i = i)) by done. by repeat case_decide.
Qed.

Let b3_core : core_ok b3 l [k].
Proof.
  assert (core_ok b1 l [k]) as H1.
  { apply pt_touch_core; [done|set_solver|done|done]. }
  assert (core_ok b2 l [k]) as H2.
  { apply pt_touch_core; [done|set_solver|done|]. intros _. split; [done|].
    unfold b1. rewrite pt_node_upd_node, decide_False by (lia || done). updates. cbn [remaining].
    apply (wrap_bounds 64). lia. }
  apply pt_touch_core; [done|set_solver|done|]. intros _. split; [done|].
  rewrite node_b2, decide_True by (lia || done). updates. cbn [remaining]. lia.
Qed.

Let b3_i : node b3 i = (node b i) <| remaining := remaining (node b i) - q |> <| state := st |>.
Proof. rewrite node_b3 by lia. by rewrite decide_True. Qed.

Let b3_k : node b3 k = (node b k) <| remaining := remaining (node b k) - q |>.
Proof. rewrite node_b3 by lia. by rewrite decide_False, decide_True by done. Qed.

Let b3_orders :
  BookSpec.reduce (orders b l) (id (node b i)) q =
    orders b3 (if decide (remaining (node b i) = q) then without i l else l).
Proof.
  apply (reduce_map (resting b) l (resting_ids_inj b l [k] Hok) (resting b3) i q Hi).
  - unfold resting. rewrite b3_i. by updates.
  - intros j Hj Hne. apply (pt_resting_range b l [k] Hok) in Hj as Hr. unfold resting.
    rewrite node_b3 by lia. rewrite !decide_False; [done|by intros ->|done].
Qed.

Definition round_book : t :=
  if remaining (node b i) =? q then release (unlink b3 i) i else b3.

Definition round_list : list Z := if remaining (node b i) =? q then without i l else l.

Lemma pt_level_round_eq :
  level_round b s k p =
    (round_book,
     (remaining (node b i) =? q) &&
       negb (bool_decide (fst <$> begin s (levels round_book s) = Some p)),
     round_events (id (node b k)) (resting b i) (remaining (node b k))).
Proof.
  unfold level_round. rewrite (core_levels _ _ _ Hok), Hqueue, default_level.
  unfold entry. cbn [head first_or].
  assert ((if remaining (node b k) <? remaining (node b i) then remaining (node b k)
    else remaining (node b i)) = q) as ->.
  { unfold q. destruct (Z.ltb_spec (remaining (node b k)) (remaining (node b i))); lia. }
  fold b1. fold b2.
  assert (id (node b2 i) = id (node b i) /\ remaining (node b2 i) = remaining (node b i) - q /\
    id (node b2 k) = id (node b k)) as (-> & -> & ->).
  { rewrite !node_b2 by lia. rewrite (decide_False (P := k = i)) by (intros E; by apply differ).
    by rewrite !decide_True by done. }
  unfold round_events, round_quantity. cbn [rest_remaining rest_id rest_price resting]. fold q.
  destruct place as (_ & Es & ->). pose proof b3_i as H3. unfold round_book, b3, st in *. cbv zeta.
  destruct (Z.eqb_spec (remaining (node b i) - q) 0), (Z.eqb_spec (remaining (node b i)) q); try lia.
  - unfold unlink. rewrite !H3. updates. cbn [id side].
    rewrite Es. by replace (remaining (node b i) - q) with 0 by lia.
  - rewrite H3. by updates.
Qed.

Lemma round_ok :
  core_ok round_book round_list [k] /\ live round_book round_list /\
  node round_book k = (node b k) <| remaining := remaining (node b k) - q |> /\
  orders round_book round_list = BookSpec.reduce (orders b l) (id (node b i)) q /\
  _capacity round_book = _capacity b.
Proof.
  rewrite b3_orders. unfold round_book, round_list.
  assert (forall j, j ∈ l -> j <> i -> remaining (node b3 j) = remaining (node b j)) as Hrest.
  { intros j Hj Hne. apply (pt_resting_range b l [k] Hok) in Hj as Hr.
    rewrite node_b3, !decide_False; [done|by intros ->|done|lia]. }
  destruct (Z.eqb_spec (remaining (node b i)) q) as [E|E].
  - rewrite decide_True by done.
    assert (queue_at b3 l (side (node b3 i)) (price (node b3 i)) = [] ++ i :: rest) as Hq.
    { rewrite b3_i. updates. cbn [side price]. destruct place as (_ & -> & ->).
      rewrite (queue_at_ext b b3); [done|]. intros j Hj. apply (pt_resting_range b l [k] Hok) in Hj as Hr.
      rewrite node_b3 by lia. repeat case_decide; subst; by updates. }
    pose proof (pt_unlink_core b3 l [k] i b3_core Hi [] rest Hq) as Hc.
    assert (forall j, 0 <= j -> strip (node (unlink b3 i) j) = strip (node b3 j)) as Hs
      by apply (unlink_strip b3 l [k] i b3_core Hi [] rest Hq).
    pose proof (pt_release_core _ _ _ _ Hc) as Hr. destruct (pt_release_orders _ _ _ _ Hc) as [Ho Hl].
    split_and!; [done| | | |].
    + apply Hl. intros j [Hne Hj]%elem_without. apply (pt_resting_range b l [k] Hok) in Hj as Hrj.
      destruct (pt_strip_fields _ _ (Hs j ltac:(lia))) as (_ & _ & -> & _).
      rewrite Hrest by done. by apply Hlive.
    + rewrite (pt_release_reads _ (without i l) [k] i Hc) by (apply elem_of_app; right; by left).
      rewrite (unlink_other b3 l [k] i b3_core Hi [] rest Hq), b3_k; [done|lia|].
      intros [? _]%queue_at_elem. done.
    + rewrite Ho. apply (pt_orders_payload _ _ Hs). intros j [_ Hj]%elem_without.
      apply (pt_resting_range b l [k] Hok) in Hj. lia.
    + pose proof (unlink_frame b3 l [k] i b3_core Hi [] rest Hq) as Hf.
      change (_capacity (release (unlink b3 i) i)) with (_capacity (unlink b3 i)).
      unfold frame in Hf. by injection Hf as -> _ _ _ _.
  - rewrite decide_False by done. split_and!; [done| |done|done|done].
    intros j Hj. destruct (decide (j = i)) as [->|Hne]; [|rewrite Hrest by done; by apply Hlive].
    rewrite b3_i. updates. cbn [remaining]. lia.
Qed.
End round.

(** ** The loops *)

Section loops.
Context (k : Z) (taker : Node) (ty : OrderType).
Let s : Side := opposite (side taker).

(** The taker is in hand with [remaining] shares to go. *)
Definition in_hand (b : t) (remaining : Z) : Prop :=
  node b k = taker <| PriceTimeOrderBook.remaining := remaining |>.

Abbreviation spec m r :=
  (BookSpec.match_order m (id taker) (side taker) ty (price taker) r).

Definition crossing (p : Z) : Prop :=
  BookSpec.crosses (side taker) ty (price taker) p = true.

Let in_hand_fields b r : in_hand b r ->
  side (node b k) = side taker /\ remaining (node b k) = r /\ id (node b k) = id taker /\
  price (node b k) = price taker.
Proof. unfold in_hand. intros ->. by updates. Qed.

Lemma spec_step b l r p i q' :
  core_ok b l [k] -> 0 < r -> crossing p ->
  queue_at b l s p = i :: q' -> BookSpec.best_order (orders b l) s = Some (resting b i) ->
  spec (orders b l) r =
    prepend (round_events (id taker) (resting b i) r)
      (spec (BookSpec.reduce (orders b l) (id (node b i)) (Z.min r (remaining (node b i))))
        (r - Z.min r (remaining (node b i)))).
Proof.
  intros Hok Hr Hc Hq Hb. rewrite match_order_step. unfold counterparty.
  destruct (Z.eqb_spec r 0); [lia|]. fold s. rewrite Hb. cbn [rest_price resting].
  assert (i ∈ queue_at b l s p) as (_ & _ & ->)%queue_at_elem by (rewrite Hq; by left).
  by rewrite Hc.
Qed.

Lemma pt_match_level_sim fuel b l p lv r out :
  core_ok b l [k] -> live b l -> in_hand b r -> 0 <= r < 2 ^ 64 ->
  begin s (levels b s) = Some (p, lv) -> crossing p -> (length l < fuel)%nat ->
  exists b' l' r' ev, match_level fuel b s k p out = (b', out ++ ev) /\
    core_ok b' l' [k] /\ live b' l' /\ in_hand b' r' /\ 0 <= r' <= r /\ _capacity b' = _capacity b /\
    (length l' <= length l)%nat /\ (r' = 0 \/ (length l' < length l)%nat) /\
    spec (orders b l) r = prepend ev (spec (orders b' l') r').
Proof.
  revert b l lv r out. induction fuel as [|fuel IH]; intros b l lv r out Hok Hl Hh Hr Hbg Hc Hf; [lia|].
  destruct (in_hand_fields b r Hh) as (Es & Er & Eid & Ep).
  destruct (decide (r = 0)) as [->|Hr0].
  { exists b, l, 0, []. rewrite app_nil_r, prepend_nil. split_and!; auto; try lia; [].
    by apply match_level_done. }
  pose proof (first_level b l [k] s Hok) as Hfl. rewrite Hbg in Hfl.
  destruct Hfl as (i & q' & Hq & -> & Hbest).
  assert (i ∈ l) as Hi by (apply (queue_at_elem b l s p); rewrite Hq; by left).
  pose proof (pt_resting_range b l [k] Hok i Hi) as Hir. pose proof (Hl i Hi) as Hpos.
  assert (queue_at b l (opposite (side (node b k))) p = i :: q') as Hq' by (by rewrite Es).
  pose proof (pt_level_round_eq b l k i p q' Hok Hl Hq' ltac:(lia)) as Hround.
  destruct (round_ok b l k i p q' Hok Hl Hq' ltac:(lia)) as (Hok1 & Hl1 & Hk1 & Ho1 & Hcap1).
  rewrite pt_match_level_S, Er, (core_levels _ _ _ Hok), Hq, default_level. unfold entry. cbn [head first_or].
  destruct (Z.eqb_spec r 0); [done|]. destruct (Z.eqb_spec i nullptr); [unfold nullptr in *; lia|].
  cbn [orb]. rewrite Es in Hround. fold s in Hround. rewrite Hround. rewrite Er, Eid in *.
  pose proof (spec_step b l r p i q' Hok ltac:(lia) Hc Hq Hbest) as Hstep. rewrite <- Ho1 in Hstep.
  set (b1 := round_book b k i) in *. set (l1 := round_list b l k i) in *.
  set (q := Z.min r (remaining (node b i))) in *. set (ev1 := round_events _ _ _) in *.
  assert (in_hand b1 (r - q)) as Hh1 by (unfold in_hand in *; rewrite Hk1, Hh; by updates).
  assert (l1 = without i l \/ l1 = l) as Hcase by (unfold l1, round_list; case_match; auto).
  assert (length l1 <= length l)%nat as Hle.
  { destruct Hcase as [->| ->]; [apply length_filter|done]. }
  assert (r - q = 0 \/ (length l1 < length l)%nat) as Hprog.
  { destruct (decide (r - q = 0)) as [|Hne]; [by left|right].
    assert (q = remaining (node b i)) as Hqi by lia.
    rewrite <- (length_map (resting b1) l1), <- (length_map (resting b) l).
    fold (orders b1 l1). fold (orders b l). rewrite Ho1, Hqi.
    apply (reduce_shorter _ (resting b i)). by apply list_elem_of_fmap_2. }
  assert (exists b' l' r' ev, (b1, out ++ ev1) = (b', out ++ ev) /\
    core_ok b' l' [k] /\ live b' l' /\ in_hand b' r' /\ 0 <= r' <= r /\ _capacity b' = _capacity b /\
    (length l' <= length l)%nat /\ (r' = 0 \/ (length l' < length l)%nat) /\
    spec (orders b l) r = prepend ev (spec (orders b' l') r')) as Hstop.
  { exists b1, l1, (r - q), ev1. split_and!; auto; lia. }
  set (stop := (remaining (node b i) =? q) && _). destruct stop eqn:Estop; [done|].
  destruct (decide (r - q = 0)) as [Hz|Hz].
  { rewrite match_level_done; [done|]. destruct (in_hand_fields _ _ Hh1) as (_ & -> & _). done. }
  destruct Hprog as [|Hshort]; [done|]. unfold stop in Estop.
  destruct (Z.eqb_spec (remaining (node b i)) q) as [_|]; [|lia]. cbn [andb] in Estop.
  apply negb_false_iff, bool_decide_eq_true, fmap_Some in Estop as ([p' lv'] & Hbg1 & Hp').
  cbn [fst] in Hp'. subst p'.
  destruct (IH b1 l1 lv' (r - q) (out ++ ev1)) as (b' & l' & r' & ev & -> & Hok' & Hl' & Hh' & Hr' & Hc' & Hlen' & _ & Hsp);
    auto; try lia; [].
  exists b', l', r', (ev1 ++ ev). split_and!; auto; try lia; [by rewrite app_assoc|].
  by rewrite Hstep, Hsp, prepend_app.
Qed.

Lemma pt_spec_done m r :
  counterparty (side taker) ty (price taker) m r = None -> spec m r = (m, r, []).
Proof. intros Hc. by rewrite match_order_step, Hc. Qed.

Lemma pt_code_crosses p :
  negb (is_limit ty) || (if is_buy (side taker) then p <=? price taker else price taker <=? p) =
    BookSpec.crosses (side taker) ty (price taker) p.
Proof. by destruct ty, (side taker). Qed.

Lemma match_levels_sim fuel b l r out :
  core_ok b l [k] -> live b l -> in_hand b r -> 0 <= r < 2 ^ 64 -> (length l < fuel)%nat ->
  exists b' l' r' ev, match_levels fuel b s k ty out = (b', out ++ ev) /\
    core_ok b' l' [k] /\ live b' l' /\ in_hand b' r' /\ 0 <= r' <= r /\ _capacity b' = _capacity b /\
    spec (orders b l) r = (orders b' l', r', ev).
Proof.
  revert b l r out. induction fuel as [|fuel IH]; intros b l r out Hok Hl Hh Hr Hf; [lia|].
  cbn [match_levels]. destruct (in_hand_fields b r Hh) as (-> & -> & _ & ->).
  assert (counterparty (side taker) ty (price taker) (orders b l) r = None ->
    exists b' l' r' ev, (b, out) = (b', out ++ ev) /\
    core_ok b' l' [k] /\ live b' l' /\ in_hand b' r' /\ 0 <= r' <= r /\ _capacity b' = _capacity b /\
    spec (orders b l) r = (orders b' l', r', ev)) as Hstop.
  { intros Hc%pt_spec_done. exists b, l, r, []. rewrite app_nil_r. split_and!; auto; lia. }
  unfold counterparty in Hstop. fold s in Hstop.
  destruct (Z.eqb_spec r 0) as [->|Hr0]; [by apply Hstop|].
  pose proof (first_level b l [k] s Hok) as Hfl.
  destruct (begin s (levels b s)) as [[p lv]|] eqn:Hbg.
  2:{ apply Hstop. rewrite best_order_none; [done|].
      intros o (j & -> & Hj)%list_elem_of_fmap. by apply Hfl. }
  destruct Hfl as (i & q' & Hq & -> & Hbest). rewrite Hbest in Hstop. cbn [rest_price resting] in Hstop.
  assert (i ∈ queue_at b l s p) as (Hi & _ & Hp)%queue_at_elem by (rewrite Hq; by left).
  rewrite Hp in Hstop. rewrite pt_code_crosses.
  destruct (BookSpec.crosses (side taker) ty (price taker) p) eqn:Hc; cbn [negb]; [|by apply Hstop].
  pose proof (pt_used_length _ _ _ Hok) as Hu. rewrite length_app in Hu. unfold alen in Hu. cbn [length] in Hu.
  destruct (pt_match_level_sim (S (length (_storage b))) b l p _ r out Hok Hl Hh Hr Hbg Hc ltac:(lia))
    as (b1 & l1 & r1 & ev & -> & Hok1 & Hl1 & Hh1 & Hr1 & Hc1 & Hlen1 & Hend & ->).
  destruct (decide (r1 = 0)) as [->|Hr1'].
  - exists b1, l1, 0, ev. rewrite (pt_spec_done _ 0) by done. cbn [prepend]. rewrite app_nil_r.
    split_and!; auto; try lia. destruct fuel as [|fuel']; [done|]. cbn [match_levels].
    destruct (in_hand_fields _ _ Hh1) as (_ & -> & _). done.
  - destruct Hend as [|Hshort]; [done|].
    destruct (IH b1 l1 r1 (out ++ ev)) as (b' & l' & r' & ev' & -> & ? & ? & ? & ? & ? & ->); auto; [lia..|].
    exists b', l', r', (ev ++ ev'). split_and!; auto; try lia; by rewrite app_assoc.
Qed.

Lemma match_taker_sim b l r out :
  core_ok b l [k] -> live b l -> in_hand b r -> 0 <= r < 2 ^ 64 ->
  exists b' l' r' ev, match_taker b k ty out = (b', out ++ ev) /\
    core_ok b' l' [k] /\ live b' l' /\ in_hand b' r' /\ 0 <= r' <= r /\ _capacity b' = _capacity b /\
    spec (orders b l) r = (orders b' l', r', ev).
Proof.
  intros Hok Hl Hh Hr. pose proof (pt_used_length _ _ _ Hok) as Hu.
  rewrite length_app in Hu. unfold alen in Hu. cbn [length] in Hu.
  destruct (match_levels_sim (S (length (_storage b))) b l r out Hok Hl Hh Hr ltac:(lia))
    as (b' & l' & r' & ev & Hm & Hrest).
  exists b', l', r', ev. split; [|done]. rewrite <- Hm. unfold match_taker.
  destruct (in_hand_fields b r Hh) as (-> & _). unfold s. by destruct (side taker).
Qed.
End loops.
