(* ===== verification/PriceTimeExchange.v ===== *)
(** * The operations of the reference book refine the list of resting orders

    [submit], [cancel] and [modify] act as [BookSpec.settle] and
    [BookSpec.remove] on the represented orders and make the same calls on the
    sink; the queries read the represented orders. *)

From S2P Require Import Prelude BookTypes LinkedQueue BookFacts PriceTimeBook PriceTimeFacts.
From S2P Require Import PriceTimeMatch.
Import PriceTimeOrderBook.

(** ** Abstract operations *)

(** [can_submit cap m r]: the reference book of capacity [cap] accepts [r]. *)
Definition can_submit (cap : Z) (m : list Resting) (r : OrderRequest.t) : bool :=
  negb (OrderRequest.id r =? 0) && negb (OrderRequest.quantity r =? 0) &&
  (negb (is_limit (OrderRequest.type r)) || (0 <? OrderRequest.price r)) &&
  bool_decide (BookSpec.lookup m (OrderRequest.id r) = None) && (Z.of_nat (length m) <? cap).

Definition submit_spec (cap : Z) (m : list Resting) (r : OrderRequest.t) :
    list Resting * bool * list SinkEvent :=
  if can_submit cap m r then
    accepted (BookSpec.settle m (OrderRequest.id r) (OrderRequest.side r) (OrderRequest.type r)
      (OrderRequest.price r) (OrderRequest.quantity r))
  else (m, false, [on_order (OrderUpdate.mk (OrderRequest.id r) Rejected (OrderRequest.quantity r))]).

Definition modify_spec (m : list Resting) (k p q : Z) : list Resting * bool * list SinkEvent :=
  match BookSpec.lookup m k with
  | Some o =>
      if (0 <? p) && negb (q =? 0) then
        accepted (BookSpec.settle (BookSpec.remove m k) k (rest_side o) Limit p q)
      else (m, false, [])
  | None => (m, false, [])
  end.

(** [r] is the outcome [spec] promises, its calls appended to [out]. *)
Definition outcome (b : t) (out : list SinkEvent) (r : t * bool * list SinkEvent)
    (spec : list Resting * bool * list SinkEvent) : Prop :=
  represents r.1.1 spec.1.1 /\ _capacity r.1.1 = _capacity b /\ r.1.2 = spec.1.2 /\ r.2 = out ++ spec.2.

(** ** What becomes of the order in hand *)

(** The tail of [submit]: match, then settle the rest. *)
Definition finish (b : t) (order quantity : Z) (ty : OrderType) (out : list SinkEvent) :
    t * bool * list SinkEvent :=
  let '(b, out) := match_taker b order ty out in
  if remaining (node b order) =? 0 then
    let b := upd_node b order (fun n => n <| state := Filled |>) in
    (release b order, true, out ++ [on_order (OrderUpdate.mk (id (node b order)) Filled 0)])
  else if negb (is_limit ty) then
    let b := upd_node b order (fun n => n <| state := Canceled |>) in
    (release b order, true,
     out ++ [on_order (OrderUpdate.mk (id (node b order)) Canceled (remaining (node b order)))])
  else
    let st := if remaining (node b order) =? quantity then New else PartiallyFilled in
    let b := upd_node b order (fun n => n <| state := st |>) in
    let b := append b order in
    (b, true, out ++ [on_order (OrderUpdate.mk (id (node b order)) (state (node b order))
      (remaining (node b order)))]).

Section hand.
Context (b : t) (l : list Z) (k : Z) (st : OrderState).
Hypothesis Hok : core_ok b l [k].
Hypothesis Hlive : live b l.
Let b' : t := upd_node b k (fun n => n <| state := st |>).

Let Hk : k ∉ l.
Proof. apply (pt_hand_not_resting b l [k] Hok). by left. Qed.

Lemma stated_node : node b' k = (node b k) <| state := st |>.
Proof.
  pose proof (pt_hand_range b l [k] Hok k ltac:(by left)). unfold b'. rewrite pt_node_upd_node by lia.
  by rewrite decide_True.
Qed.

Let stated : core_ok b' l [k] /\ orders b' l = orders b l /\ live b' l.
Proof.
  assert (k ∈ l ++ [k]) as Hin by (apply elem_of_app; right; by left).
  split; [by apply pt_touch_core|].
  destruct (touch_hand_orders b l [k] k (fun n => n <| state := st |>) Hok Hin Hk) as [Ho Hl].
  split; [exact Ho|by apply Hl].
Qed.

Lemma pt_drop_hand : represents (release b' k) (orders b l).
Proof.
  destruct stated as (Hc & Ho & Hl). destruct (pt_release_orders _ _ _ _ Hc) as [Hor Hlr].
  exists l. split_and!; [by apply pt_release_core|by apply Hlr|congruence].
Qed.

Lemma pt_rest_hand :
  next (node b k) = nullptr -> 0 < remaining (node b k) < 2 ^ 64 ->
  represents (append b' k) (orders b l ++ [resting b k]) /\
  strip (node (append b' k) k) = strip (node b' k) /\ _capacity (append b' k) = _capacity b.
Proof.
  intros Hn Hr. destruct stated as (Hc & Ho & Hl). pose proof stated_node as Hs.
  assert (next (node b' k) = nullptr /\ remaining (node b' k) = remaining (node b k)) as [Hn' Hr']
    by (rewrite Hs; by updates).
  pose proof (append_strip b' l k Hc) as Hst. pose proof (pt_hand_range b' l [k] Hc k ltac:(by left)) as Hkr.
  assert (forall j, j ∈ l ++ [k] -> 0 <= j) as Hpos.
  { intros j Hj. apply (pt_used_range _ _ _ Hc) in Hj. lia. }
  split_and!; [|by apply Hst; lia|].
  - exists (l ++ [k]). split_and!.
    + apply pt_append_core; [done|done|lia].
    + intros j Hj. destruct (pt_strip_fields _ _ (Hst j (Hpos j Hj))) as (_ & _ & -> & _).
      apply elem_of_app in Hj as [Hj|Hj%list_elem_of_singleton]; [by apply Hl|subst; lia].
    + rewrite (pt_orders_payload _ _ Hst) by done. unfold orders at 1. rewrite map_app. cbn [map].
      fold (orders b' l). rewrite Ho. unfold resting at 1. rewrite Hs. by updates.
  - pose proof (append_frame b' k) as Hf. unfold frame in Hf. injection Hf as -> _ _ _ _. done.
Qed.
End hand.

Lemma pt_finish_ok b l k ty out :
  core_ok b l [k] -> live b l -> 0 < remaining (node b k) < 2 ^ 64 -> next (node b k) = nullptr ->
  outcome b out (finish b k (remaining (node b k)) ty out)
    (accepted (BookSpec.settle (orders b l) (id (node b k)) (side (node b k)) ty
      (price (node b k)) (remaining (node b k)))).
Proof.
  intros Hok Hl Hrem Hnext. unfold finish.
  destruct (match_taker_sim k (node b k) ty b l (remaining (node b k)) out)
    as (b1 & l1 & r & ev & -> & Hok1 & Hl1 & Hh & Hr & Hcap & Hspec); auto; [|lia|].
  { unfold in_hand. by destruct (node b k). }
  unfold BookSpec.settle. rewrite Hspec. unfold in_hand in Hh.
  assert (id (node b1 k) = id (node b k) /\ remaining (node b1 k) = r /\
    price (node b1 k) = price (node b k) /\ next (node b1 k) = nullptr /\
    side (node b1 k) = side (node b k)) as (Eid & Er & Ep & En & Es) by (rewrite Hh; by updates).
  rewrite Er. unfold outcome. destruct (Z.eqb_spec r 0) as [->|Hr0].
  { pose proof (pt_drop_hand b1 l1 k Filled Hok1 Hl1) as Hrep. cbn [fst snd accepted].
    rewrite (stated_node b1 l1 k Filled Hok1). split_and!; [done|done|done|].
    rewrite <- app_assoc. updates. cbn [id]. by rewrite Eid. }
  destruct ty; cbn [is_limit negb].
  - pose proof (pt_rest_hand b1 l1 k (if r =? remaining (node b k) then New else PartiallyFilled) Hok1 Hl1 En
      ltac:(lia)) as (Hrep & Hstrip & Hcap').
    set (b2 := append _ k) in *. rewrite (stated_node b1 l1 k _ Hok1) in Hstrip.
    destruct (pt_strip_fields _ _ Hstrip) as (Eid2 & _ & Er2 & _ & Es2 & _).
    rewrite Eid2, Er2, Es2. cbn [fst snd accepted]. unfold resting in Hrep. rewrite Eid, Er, Ep, Es in Hrep.
    split_and!; [done|by rewrite Hcap'|done|]. rewrite <- app_assoc. updates. cbn [id remaining state].
    by rewrite Eid, Er.
  - pose proof (pt_drop_hand b1 l1 k Canceled Hok1 Hl1) as Hrep. cbn [fst snd accepted].
    rewrite (stated_node b1 l1 k Canceled Hok1). split_and!; [done|done|done|].
    rewrite <- app_assoc. updates. cbn [id remaining]. by rewrite Eid, Er.
Qed.

(** ** The operations *)

Lemma pt_represents_find b m k :
  represents b m ->
  match _orders b !! k with
  | None => BookSpec.lookup m k = None
  | Some i => exists l, core_ok b l [] /\ live b l /\ orders b l = m /\ i ∈ l /\
      id (node b i) = k /\ BookSpec.lookup m k = Some (resting b i)
  end.
Proof.
  intros (l & Hok & Hl & <-). pose proof (core_ids _ _ _ Hok) as Hids.
  destruct (_orders b !! k) as [i|] eqn:E.
  - apply Hids in E as [Hi Hk]. rewrite app_nil_r in Hi. exists l. split_and!; try done.
    rewrite <- Hk. by apply (lookup_map (resting b) l (resting_ids_inj b l [] Hok)).
  - apply (lookup_map_none (resting b)). intros i Hi Hk.
    assert (_orders b !! k = Some i) as E'; [|congruence].
    apply Hids. rewrite app_nil_r. by split.
Qed.

Lemma submit_finish b r out b1 i :
  (OrderRequest.id r =? 0) || (OrderRequest.quantity r =? 0) ||
    (is_limit (OrderRequest.type r) && (OrderRequest.price r <=? 0)) ||
    bool_decide (is_Some (_orders b !! OrderRequest.id r)) = false ->
  allocate b = (b1, i) -> i <> nullptr ->
  submit b r out =
    finish (enter b1 i (OrderRequest.id r) (OrderRequest.side r) (OrderRequest.price r)
      (OrderRequest.quantity r)) i (OrderRequest.quantity r) (OrderRequest.type r) out.
Proof.
  intros Hc Ha Hi. unfold submit. rewrite Hc, Ha. destruct (Z.eqb_spec i nullptr); [done|].
  unfold finish, enter, fill. by destruct (match_taker _ i _ out).
Qed.

Lemma pt_submit_represents b m r out :
  represents b m -> 0 <= OrderRequest.quantity r < 2 ^ 64 ->
  outcome b out (submit b r out) (submit_spec (_capacity b) m r).
Proof.
  intros Hr Hq. pose proof (pt_represents_find b m (OrderRequest.id r) Hr) as Hfind.
  unfold submit_spec, can_submit.
  destruct ((OrderRequest.id r =? 0) || (OrderRequest.quantity r =? 0) ||
    (is_limit (OrderRequest.type r) && (OrderRequest.price r <=? 0)) ||
    bool_decide (is_Some (_orders b !! OrderRequest.id r))) eqn:Hc.
  - assert (negb (OrderRequest.id r =? 0) && negb (OrderRequest.quantity r =? 0) &&
      (negb (is_limit (OrderRequest.type r)) || (0 <? OrderRequest.price r)) &&
      bool_decide (BookSpec.lookup m (OrderRequest.id r) = None) = false) as ->.
    { rewrite Z.leb_antisym in Hc. destruct (OrderRequest.id r =? 0); [done|].
      destruct (OrderRequest.quantity r =? 0); [done|]. destruct (is_limit _), (0 <? OrderRequest.price r);
        try done; cbn [negb andb orb] in *; destruct (_orders b !! OrderRequest.id r) as [i|];
        try (by rewrite bool_decide_false in Hc by apply is_Some_None);
        destruct Hfind as (l & _ & _ & _ & _ & _ & ->); by rewrite bool_decide_false. }
    cbn [andb]. unfold submit. rewrite Hc. by split_and!.
  - pose proof Hc as Hc'. apply orb_false_elim in Hc' as [Hc' Hnew]. apply orb_false_elim in Hc' as [Hc' Hp].
    apply orb_false_elim in Hc' as [Hid Hqz]. rewrite Hid, Hqz. rewrite Z.leb_antisym in Hp.
    apply Z.eqb_neq in Hid, Hqz. apply bool_decide_eq_false, eq_None_not_Some in Hnew. rewrite Hnew in Hfind.
    assert (negb (is_limit (OrderRequest.type r)) || (0 <? OrderRequest.price r) = true) as ->.
    { destruct (is_limit _); [|done]. by apply negb_false_iff in Hp. }
    rewrite (bool_decide_true (BookSpec.lookup m _ = None)) by done. cbn [negb andb].
    destruct Hr as (l & Hok & Hl & Hm).
    destruct (allocate_ok b l _ (OrderRequest.side r) (OrderRequest.price r) (OrderRequest.quantity r) Hok Hid Hnew)
      as [[Ha Hfull]|(b1 & i & Ha & Hlt & Hi & Hok2 & Hn2 & Ho2 & Hl2 & Hcap2)];
      (assert (length m = length l) as -> by (rewrite <- Hm; apply length_map)).
    + destruct (Z.ltb_spec (Z.of_nat (length l)) (_capacity b)); [lia|].
      unfold submit. rewrite Hc, Ha, Z.eqb_refl. split_and!; [by exists l|done|done|done].
    + destruct (Z.ltb_spec (Z.of_nat (length l)) (_capacity b)); [|lia].
      rewrite (submit_finish b r out b1 i) by done.
      pose proof (pt_finish_ok _ l i (OrderRequest.type r) out Hok2 (Hl2 Hl)) as Hfin.
      rewrite Hn2 in Hfin. cbn [filled remaining next price id side] in Hfin. rewrite Ho2, Hm in Hfin.
      destruct Hfin as (Hrep & Hcap & Hres); [lia|done|]. unfold outcome. split_and!; [done| |apply Hres|apply Hres].
      by rewrite Hcap.
Qed.

(** Taking a resting order out of the book. *)
Lemma remove_resting b l i :
  core_ok b l [] -> live b l -> i ∈ l ->
  core_ok (unlink b i) (without i l) [i] /\ live (unlink b i) (without i l) /\
  orders (unlink b i) (without i l) = BookSpec.remove (orders b l) (id (node b i)) /\
  strip (node (unlink b i) i) = strip (node b i) /\ _capacity (unlink b i) = _capacity b.
Proof.
  intros Hok Hl Hi. pose proof (pt_resting_in_queue b l i Hi) as Hq.
  apply list_elem_of_split in Hq as (q1 & q2 & Hq).
  pose proof (unlink_strip b l [] i Hok Hi q1 q2 Hq) as Hs.
  assert (forall j, j ∈ without i l -> 0 <= j) as Hpos.
  { intros j [_ Hj]%elem_without. apply (pt_resting_range b l [] Hok) in Hj. lia. }
  split_and!.
  - by apply (pt_unlink_core b l [] i Hok Hi q1 q2 Hq).
  - intros j Hj. destruct (pt_strip_fields _ _ (Hs j (Hpos j Hj))) as (_ & _ & -> & _).
    apply elem_without in Hj as [_ Hj]. by apply Hl.
  - rewrite (pt_orders_payload _ _ Hs) by done.
    symmetry. by apply (remove_map (resting b) l (resting_ids_inj b l [] Hok)).
  - apply Hs. apply (pt_resting_range b l [] Hok) in Hi. lia.
  - pose proof (unlink_frame b l [] i Hok Hi q1 q2 Hq) as Hf. unfold frame in Hf. by injection Hf as -> _ _ _ _.
Qed.

Lemma pt_cancel_represents b m k out : represents b m -> outcome b out (cancel b k out) (cancel_spec m k).
Proof.
  intros Hr. unfold cancel, cancel_spec. pose proof (pt_represents_find b m k Hr) as Hfind.
  destruct (_orders b !! k) as [i|].
  - destruct Hfind as (l & Hok & Hl & <- & Hi & Hid & ->).
    destruct (remove_resting b l i Hok Hl Hi) as (Hc & Hlv & Ho & Hs & Hcap).
    pose proof (pt_drop_hand _ _ i Canceled Hc Hlv) as Hrep. rewrite Ho, Hid in Hrep.
    rewrite (stated_node _ _ i Canceled Hc). updates. cbn [remaining].
    destruct (pt_strip_fields _ _ Hs) as (_ & _ & -> & _). by split_and!.
  - rewrite Hfind. split_and!; [done|done|done|by rewrite app_nil_r].
Qed.

Lemma pt_modify_represents b m k p q out :
  represents b m -> 0 <= q < 2 ^ 64 -> outcome b out (modify b k p q out) (modify_spec m k p q).
Proof.
  intros Hr Hq. unfold modify, modify_spec. pose proof (pt_represents_find b m k Hr) as Hfind.
  assert (outcome b out (b, false, out) (m, false, [])) as Hself
    by (split_and!; [done|done|done|by rewrite app_nil_r]).
  destruct (_orders b !! k) as [i|]; [|by rewrite Hfind].
  destruct Hfind as (l & Hok & Hl & <- & Hi & Hid & ->).
  destruct (Z.leb_spec p 0), (Z.ltb_spec 0 p), (Z.eqb_spec q 0); try lia; try done. cbn [orb andb negb].
  destruct (remove_resting b l i Hok Hl Hi) as (Hc & Hlv & Ho & Hs & Hcap).
  destruct (pt_release_orders _ _ _ _ Hc) as [Hor Hlr].
  assert (represents (release (unlink b i) i) (BookSpec.remove (orders b l) k)) as Hrep.
  { exists (without i l). split_and!; [by apply pt_release_core|by apply Hlr|]. by rewrite Hor, Ho, Hid. }
  pose proof (pt_submit_represents _ _ (OrderRequest.mk k (side (node b i)) Limit p q) out Hrep Hq) as Hsub.
  change (_capacity (release (unlink b i) i)) with (_capacity (unlink b i)) in Hsub. rewrite Hcap in Hsub.
  assert (submit_spec (_capacity b) (BookSpec.remove (orders b l) k)
    (OrderRequest.mk k (side (node b i)) Limit p q) =
    accepted (BookSpec.settle (BookSpec.remove (orders b l) k) k (side (node b i)) Limit p q)) as Hspec.
  { unfold submit_spec, can_submit. cbn [OrderRequest.id OrderRequest.quantity OrderRequest.type
      OrderRequest.price OrderRequest.side is_limit].
    assert (k <> 0) by (rewrite <- Hid; apply (core_nonzero _ _ _ Hok); rewrite app_nil_r; done).
    destruct (Z.eqb_spec k 0), (Z.eqb_spec q 0), (Z.ltb_spec 0 p); try lia. cbn [negb orb andb].
    rewrite lookup_remove, decide_True by done. rewrite bool_decide_true by done. cbn [andb].
    pose proof (pt_used_length _ _ _ Hc) as Hu. rewrite length_app in Hu. cbn [length] in Hu.
    rewrite <- Hid, <- Ho. unfold orders at 1. rewrite length_map.
    destruct (Z.ltb_spec (Z.of_nat (length (without i l))) (_capacity b)); [done|].
    pose proof (core_size _ _ _ Hc) as [_ Hsz]. lia. }
  rewrite Hspec in Hsub. destruct Hsub as (? & Hc' & ? & ?). split_and!; try done. cbn. by rewrite Hc'.
Qed.

(** ** Queries *)

Lemma pt_active_represents b m : represents b m -> active_orders b = Z.of_nat (length m).
Proof.
  intros (l & Hok & _ & <-). unfold active_orders. rewrite (core_active _ _ _ Hok), app_nil_r.
  unfold orders. by rewrite length_map.
Qed.

Lemma pt_best_represents b m s :
  represents b m -> from_option fst 0 (begin s (levels b s)) = default 0 (BookSpec.best_price m s).
Proof.
  intros (l & Hok & _ & <-). unfold BookSpec.best_price.
  pose proof (first_level b l [] s Hok) as Hf. destruct (begin s (levels b s)) as [[p lv]|].
  - destruct Hf as (i & q & Hq & _ & ->). cbn.
    assert (i ∈ queue_at b l s p) as (_ & _ & ->)%queue_at_elem by (rewrite Hq; by left). done.
  - rewrite best_order_none; [done|]. intros o (j & -> & Hj)%list_elem_of_fmap. by apply Hf.
Qed.
