(* ===== verification/PriceTimeProperties.v ===== *)
(** * Properties of the reference book

    Whole histories of [submit], [cancel] and [modify] on a book that [make]
    built, against the list of resting orders; and the claim the randomised
    comparison of components/tests/DenseOrderBookTest.cpp samples: on prices of
    the dense book's grid both books do the same. *)

From S2P Require Import Prelude BookTypes BookFacts DenseBook DenseFeed DenseQueries DenseMatch.
From S2P Require Import DenseExchange DenseProperties PriceTimeBook PriceTimeFacts.
From S2P Require Import PriceTimeMatch PriceTimeExchange.

Module Reference := PriceTimeOrderBook.
Module Dense := DensePriceOrderBook.

(** ** Histories *)

Inductive ExchangeOp :=
  | SubmitOrder (request : OrderRequest.t)
  | CancelOrder (id : Z)
  | ModifyOrder (id price quantity : Z).

Definition reference_step (b : Reference.t) (op : ExchangeOp) : Reference.t * bool * list SinkEvent :=
  match op with
  | SubmitOrder r => Reference.submit b r []
  | CancelOrder k => Reference.cancel b k []
  | ModifyOrder k p q => Reference.modify b k p q []
  end.

(** Price-time matching on the resting orders of a book of capacity [cap]. *)
Definition reference_spec (cap : Z) (m : list Resting) (op : ExchangeOp) :
    list Resting * bool * list SinkEvent :=
  match op with
  | SubmitOrder r => PriceTimeExchange.submit_spec cap m r
  | CancelOrder k => cancel_spec m k
  | ModifyOrder k p q => PriceTimeExchange.modify_spec m k p q
  end.

(** Quantities fit their C++ type. *)
Definition quantity_ok (op : ExchangeOp) : Prop :=
  match op with
  | SubmitOrder r => 0 <= OrderRequest.quantity r < 2 ^ 64
  | CancelOrder _ => True
  | ModifyOrder _ _ q => 0 <= q < 2 ^ 64
  end.

Lemma reference_step_ok b m op :
  PriceTimeFacts.represents b m -> quantity_ok op ->
  PriceTimeExchange.outcome b [] (reference_step b op) (reference_spec (Reference._capacity b) m op).
Proof.
  intros Hr Hq. destruct op; cbn in *.
  - by apply pt_submit_represents.
  - by apply pt_cancel_represents.
  - by apply pt_modify_represents.
Qed.

Lemma reference_history b m ops :
  PriceTimeFacts.represents b m -> Forall quantity_ok ops ->
  (history reference_step b ops).2 = (history (reference_spec (Reference._capacity b)) m ops).2 /\
  PriceTimeFacts.represents (history reference_step b ops).1
    (history (reference_spec (Reference._capacity b)) m ops).1.
Proof.
  intros Hr Hops. revert b m Hr. induction Hops as [|op ops Hop _ IH]; intros b m Hr; [done|]. cbn.
  destruct (reference_step_ok b m op Hr Hop) as (Hr' & Hc & Hok & Hev).
  destruct (reference_step b op) as [[b' ok] ev], (reference_spec (Reference._capacity b) m op) as [[m' ok'] ev'].
  cbn in *. subst ok' ev'. rewrite <- Hc. destruct (IH b' m' Hr') as [Ho Hr2].
  destruct (history reference_step b' ops), (history (reference_spec _) m' ops). cbn in *. by subst.
Qed.

(** Every query of the class. *)
Definition reference_observes (b : Reference.t) (m : list Resting) : Prop :=
  Reference.active_orders b = Z.of_nat (length m) /\
  Reference.best_bid b = default 0 (BookSpec.best_price m Buy) /\
  Reference.best_ask b = default 0 (BookSpec.best_price m Sell).

Lemma represents_observes b m : PriceTimeFacts.represents b m -> reference_observes b m.
Proof.
  intros Hr. split_and!; [by apply pt_active_represents|..].
  - by apply (pt_best_represents b m Buy).
  - by apply (pt_best_represents b m Sell).
Qed.

(** ** The reference book and the dense book *)

Definition dense_op (op : ExchangeOp) : BookOp :=
  match op with
  | SubmitOrder r => Submit r
  | CancelOrder k => Cancel k
  | ModifyOrder k p q => Modify k p q
  end.

(** Limit prices are on the grid of the dense book, ids are not the value its
    index reserves for free slots. *)
Definition on_grid (b : Dense.t) (op : ExchangeOp) : Prop :=
  quantity_ok op /\
  match op with
  | SubmitOrder r => OrderRequest.id r <> u64_max /\ OrderRequest.price r < 2 ^ 63 /\
      (OrderRequest.type r = Limit -> is_Some (Dense.price_index b (OrderRequest.price r)))
  | CancelOrder _ => True
  | ModifyOrder _ p _ => p < 2 ^ 63 /\ is_Some (Dense.price_index b p)
  end.

Lemma grid_positive b p :
  0 < Dense._minimum_price b -> is_Some (Dense.price_index b p) -> 0 < p.
Proof.
  intros Hm [i Hi]. unfold Dense.price_index in Hi.
  destruct (Z.leb_spec (Dense._tick_size b) 0); [done|].
  destruct (Z.ltb_spec p (Dense._minimum_price b)); [done|]. lia.
Qed.

Lemma specs_agree b m op :
  0 < Dense._minimum_price b -> on_grid b op ->
  reference_spec (Dense._order_capacity b) m op = book_spec b m (dense_op op).
Proof.
  intros Hm [_ Hg]. destruct op as [r|k|k p q]; cbn; [|done|].
  - destruct Hg as (Hid & _ & Hp).
    unfold PriceTimeExchange.submit_spec, DenseExchange.submit_spec.
    assert (PriceTimeExchange.can_submit (Dense._order_capacity b) m r = DenseExchange.can_submit b m r) as ->;
      [|done].
    unfold PriceTimeExchange.can_submit, DenseExchange.can_submit, Dense.valid_id.
    destruct (Z.eqb_spec (OrderRequest.id r) u64_max); [done|]. rewrite orb_false_r.
    assert (negb (is_limit (OrderRequest.type r)) || (0 <? OrderRequest.price r) =
      negb (is_limit (OrderRequest.type r)) ||
        bool_decide (is_Some (Dense.price_index b (OrderRequest.price r)))) as ->.
    { destruct (OrderRequest.type r); [|done]. specialize (Hp eq_refl). cbn.
      rewrite bool_decide_true by done. apply Z.ltb_lt. by apply (grid_positive b). }
    f_equal. rewrite <- !andb_assoc. do 2 f_equal. apply andb_comm.
  - destruct Hg as [_ Hp]. unfold PriceTimeExchange.modify_spec, DenseExchange.modify_spec.
    destruct (BookSpec.lookup m k); [|done]. rewrite (bool_decide_true (is_Some _)) by done.
    pose proof (grid_positive b p Hm Hp). destruct (Z.ltb_spec 0 p); [|lia]. by rewrite andb_true_r.
Qed.

Lemma spec_histories_agree b m ops :
  0 < Dense._minimum_price b -> Forall (on_grid b) ops ->
  history (reference_spec (Dense._order_capacity b)) m ops = history (book_spec b) m (map dense_op ops).
Proof.
  intros Hm Hops. revert m. induction Hops as [|op ops Hop _ IH]; intros m; [done|]. cbn.
  rewrite (specs_agree b m op Hm Hop). destruct (book_spec b m (dense_op op)) as [[m' ok] ev].
  by rewrite IH.
Qed.

Lemma on_grid_types b op : on_grid b op -> in_types (dense_op op).
Proof. intros [Hq Hg]. destruct op; cbn in *; tauto. Qed.

(** ** The properties *)

(** C13: in any history of [submit], [cancel] and [modify] on a freshly built
    reference book, whatever ids, prices and order types come, every operation
    returns the result and makes the sink calls of price-time matching on the
    list of resting orders, and afterwards the queries read that list. *)
Theorem reference_history_refines cap ops :
  0 <= cap < 2 ^ 64 -> Forall quantity_ok ops ->
  (history reference_step (Reference.make cap) ops).2 = (history (reference_spec cap) [] ops).2 /\
  reference_observes (history reference_step (Reference.make cap) ops).1
    (history (reference_spec cap) [] ops).1.
Proof.
  intros Hc Hops. destruct (PriceTimeFacts.pt_make_represents cap Hc) as [Hr Hcap].
  destruct (reference_history _ _ ops Hr Hops) as [Ho Hr']. rewrite Hcap in *.
  split; [done|]. by apply represents_observes.
Qed.

(** Queues of two orders, a partial fill, a sweep of both sides' best levels, a
    replacement in place, a market order on an empty side, rejections. *)
Definition demo_reference : list ExchangeOp :=
  [SubmitOrder (OrderRequest.mk 1 Sell Limit 101 5); SubmitOrder (OrderRequest.mk 2 Sell Limit 101 5);
   SubmitOrder (OrderRequest.mk 3 Buy Limit 101 7); SubmitOrder (OrderRequest.mk 4 Buy Limit 99 4);
   SubmitOrder (OrderRequest.mk 4 Buy Limit 98 4); SubmitOrder (OrderRequest.mk 5 Buy Limit 0 4);
   ModifyOrder 4 101 9; SubmitOrder (OrderRequest.mk 6 Buy Market 0 5); CancelOrder 4; CancelOrder 9].

Lemma reference_history_refines_witness :
  (history reference_step (Reference.make 3) demo_reference).2 =
    (history (reference_spec 3) [] demo_reference).2 /\
  reference_observes (history reference_step (Reference.make 3) demo_reference).1
    (history (reference_spec 3) [] demo_reference).1.
Proof.
  apply (reference_history_refines 3 demo_reference); [lia|].
  repeat constructor; vm_compute; congruence.
Defined.

(** C6: on orders whose limit prices lie on the dense book's grid, the dense
    book and the reference book of the same capacity return the same results,
    make the same sink calls in the same order, and agree on the best bid, the
    best ask and the number of active orders. *)
Theorem books_agree cap minimum tick lc b ops :
  0 <= cap < 2 ^ 32 -> 0 < minimum -> 0 <= lc <= 2 ^ 32 - 64 ->
  Dense.make cap minimum tick lc = Some b -> Forall (on_grid b) ops ->
  let dense := history book_step b (map dense_op ops) in
  let reference := history reference_step (Reference.make cap) ops in
  dense.2 = reference.2 /\
  Dense.best_bid dense.1 = Reference.best_bid reference.1 /\
  Dense.best_ask dense.1 = Reference.best_ask reference.1 /\
  Dense.active_orders dense.1 = Reference.active_orders reference.1.
Proof.
  intros Hc Hm Hlc Hmake Hops. cbn zeta.
  destruct (DenseQueries.make_represents cap minimum tick lc Hc Hlc ltac:(lia)) as (b' & Hb & Hr & Hgeo).
  rewrite Hmake in Hb. simplify_eq.
  unfold geometry in Hgeo. injection Hgeo as Hcap Hmin _ _.
  assert (Forall in_types (map dense_op ops)) as Hty.
  { apply Forall_map. eapply Forall_impl; [exact Hops|]. intros op. apply on_grid_types. }
  destruct (history_represents b' b' [] _ Hr eq_refl Hty) as [Ho [Hr' _]].
  destruct (PriceTimeFacts.pt_make_represents cap ltac:(lia)) as [Hrr Hrc].
  destruct (reference_history _ _ ops Hrr) as [Ho2 Hr2].
  { eapply Forall_impl; [exact Hops|]. by intros op [? _]. }
  rewrite Hrc, <- Hcap, (spec_histories_agree b' [] ops) in * by (rewrite ?Hmin; done).
  destruct (represents_observed _ _ Hr') as [Ha _ _ Hbid Hask _ _].
  destruct (represents_observes _ _ Hr2) as (Ha2 & Hbid2 & Hask2).
  split_and!; congruence.
Qed.

(** The same kinds of calls, every price on the grid from 90. *)
Definition demo_grid : list ExchangeOp :=
  [SubmitOrder (OrderRequest.mk 1 Sell Limit 101 5); SubmitOrder (OrderRequest.mk 2 Sell Limit 101 5);
   SubmitOrder (OrderRequest.mk 3 Buy Limit 101 7); SubmitOrder (OrderRequest.mk 4 Buy Limit 99 4);
   SubmitOrder (OrderRequest.mk 5 Buy Limit 99 4); ModifyOrder 4 99 4; CancelOrder 2;
   SubmitOrder (OrderRequest.mk 6 Sell Market 0 5); CancelOrder 4].

Lemma books_agree_witness :
  match Dense.make 3 90 1 64 with
  | Some b =>
      (history book_step b (map dense_op demo_grid)).2 =
        (history reference_step (Reference.make 3) demo_grid).2
  | None => False
  end.
Proof.
  destruct (Dense.make 3 90 1 64) as [b|] eqn:E; [|vm_compute in E; discriminate E].
  apply (books_agree 3 90 1 64 b demo_grid); [lia|lia|lia|exact E|].
  vm_compute in E. injection E as <-.
  repeat constructor; vm_compute; try congruence; by eexists.
Defined.
