(* ===== verification/Itch50.v ===== *)
(** * include/qtrader/NasdaqItch50.hpp

    Big-endian readers and the message-size table of the ITCH 5.0 feed.  A
    pointer into a buffer is the list of bytes from it on; [p +! n] advances
    it. *)

From Stdlib Require Import Ascii.
From stdpp Require Import strings.
From S2P Require Import Prelude.

Module itch50.

(** [p[i]] *)
Definition byte_at (p : list Z) (i : Z) : Z := default 0 (p !! Z.to_nat i).

(** [p + n] *)
Definition advance (p : list Z) (n : Z) : list Z := drop (Z.to_nat n) p.
Notation "p +! n" := (advance p n) (at level 50, left associativity) : array_scope.

Definition read_u16 (p : list Z) : Z :=
  u16 (Z.lor (Z.shiftl (byte_at p 0) 8) (byte_at p 1)).

Definition read_u32 (p : list Z) : Z :=
  Z.lor (Z.lor (Z.lor (u32 (Z.shiftl (byte_at p 0) 24)) (u32 (Z.shiftl (byte_at p 1) 16)))
    (u32 (Z.shiftl (byte_at p 2) 8))) (byte_at p 3).

Definition read_u48 (p : list Z) : Z :=
  Z.lor (Z.lor (Z.lor (Z.lor (Z.lor (u64 (Z.shiftl (byte_at p 0) 40))
    (u64 (Z.shiftl (byte_at p 1) 32))) (u64 (Z.shiftl (byte_at p 2) 24)))
    (u64 (Z.shiftl (byte_at p 3) 16))) (u64 (Z.shiftl (byte_at p 4) 8))) (byte_at p 5).

Definition read_u64 (p : list Z) : Z :=
  Z.lor (Z.lor (Z.lor (Z.lor (Z.lor (Z.lor (Z.lor (u64 (Z.shiftl (byte_at p 0) 56))
    (u64 (Z.shiftl (byte_at p 1) 48))) (u64 (Z.shiftl (byte_at p 2) 40)))
    (u64 (Z.shiftl (byte_at p 3) 32))) (u64 (Z.shiftl (byte_at p 4) 24)))
    (u64 (Z.shiftl (byte_at p 5) 16))) (u64 (Z.shiftl (byte_at p 6) 8))) (byte_at p 7).

(** The message types, as character codes. *)
Definition chr (c : Ascii.ascii) : Z := Z.of_nat (Ascii.nat_of_ascii c).

Definition message_sizes : list (Ascii.ascii * Z) := [
  ("S"%char, 12); ("R"%char, 39); ("H"%char, 25); ("Y"%char, 20); ("L"%char, 26); ("V"%char, 35);
  ("W"%char, 12); ("K"%char, 28); ("J"%char, 35); ("h"%char, 21); ("A"%char, 36); ("F"%char, 40);
  ("E"%char, 31); ("C"%char, 36); ("X"%char, 23); ("D"%char, 19); ("U"%char, 35); ("P"%char, 44);
  ("Q"%char, 40); ("B"%char, 19); ("I"%char, 50); ("N"%char, 20)].

(** A [switch] over the type byte whose cases are the table's rows. *)
Definition switch {A} (table : list (Ascii.ascii * A)) (otherwise : A) (type : Z) : A :=
  match list_find (fun row => chr (fst row) = type) table with
  | Some (_, row) => snd row
  | None => otherwise
  end.

Definition expected_message_size (type : Z) : Z := switch message_sizes 0 type.

Definition message_names : list (Ascii.ascii * string) := [
  ("S"%char, "System Event"%string); ("R"%char, "Stock Directory"%string);
  ("H"%char, "Stock Trading Action"%string); ("Y"%char, "Reg SHO Restriction"%string);
  ("L"%char, "Market Participant Position"%string); ("V"%char, "MWCB Decline Level"%string);
  ("W"%char, "MWCB Status"%string); ("K"%char, "IPO Quoting Period Update"%string);
  ("J"%char, "LULD Auction Collar"%string); ("h"%char, "Operational Halt"%string);
  ("A"%char, "Add Order"%string); ("F"%char, "Add Order with MPID"%string);
  ("E"%char, "Order Executed"%string); ("C"%char, "Order Executed with Price"%string);
  ("X"%char, "Order Cancel"%string); ("D"%char, "Order Delete"%string);
  ("U"%char, "Order Replace"%string); ("P"%char, "Trade"%string); ("Q"%char, "Cross Trade"%string);
  ("B"%char, "Broken Trade"%string); ("I"%char, "NOII"%string);
  ("N"%char, "Retail Price Improvement"%string)].

Definition message_name (type : Z) : string := switch message_names "Unknown"%string type.

(** ** Byte strings *)

Definition is_byte (b : Z) : Prop := 0 <= b < 256.

(** The big-endian value of [n] bytes. *)
Fixpoint be_value (p : list Z) (n : nat) : Z :=
  match n with
  | O => 0
  | S n' => byte_at p 0 * 256 ^ Z.of_nat n' + be_value (p +! 1) n'
  end.

(** The big-endian encoding of [v] in [n] bytes. *)
Fixpoint be_bytes (n : nat) (v : Z) : list Z :=
  match n with
  | O => []
  | S n' => (v / 256 ^ Z.of_nat n') mod 256 :: be_bytes n' v
  end.

Lemma byte_at_ok p i : Forall is_byte p -> is_byte (byte_at p i).
Proof.
  intros Hp. unfold byte_at. destruct (p !! Z.to_nat i) as [b|] eqn:E; simpl; [|done].
  rewrite Forall_lookup in Hp. eauto.
Qed.

Lemma byte_at_advance p i j : 0 <= i -> 0 <= j -> byte_at (p +! i) j = byte_at p (i + j).
Proof.
  intros. unfold byte_at, advance. rewrite lookup_drop. do 2 f_equal. lia.
Qed.

Lemma advance_advance p i j : 0 <= i -> 0 <= j -> (p +! i) +! j = p +! (i + j).
Proof. intros. unfold advance. rewrite drop_drop. f_equal. lia. Qed.

Lemma byte_at_app_l p q i : 0 <= i < alen p -> byte_at (p ++ q) i = byte_at p i.
Proof. unfold byte_at, alen. intros. by rewrite lookup_app_l by lia. Qed.

Lemma advance_app p q n : alen p = n -> (p ++ q) +! n = q.
Proof. unfold alen, advance. intros <-. by rewrite Nat2Z.id, drop_app_length. Qed.

Lemma advance_bytes p n : Forall is_byte p -> Forall is_byte (p +! n).
Proof. intros. by apply Forall_drop. Qed.

(** Values without common bits add up. *)
Lemma lor_disjoint x b k : 0 <= k -> x mod 2 ^ k = 0 -> 0 <= b < 2 ^ k -> Z.lor x b = x + b.
Proof.
  intros Hk Hx Hb. assert (Z.land x b = 0) as Hl.
  { apply Z.bits_inj'. intros n Hn. rewrite Z.land_spec, Z.bits_0.
    destruct (Z.lt_ge_cases n k).
    - by rewrite <- (Z.mod_pow2_bits_low x k n), Hx, Z.bits_0 by lia.
    - rewrite <- (Z.mod_small b (2 ^ k)), Z.mod_pow2_bits_high by lia. apply andb_false_r. }
  rewrite <- Z.lxor_lor by done. by rewrite Z.add_nocarry_lxor.
Qed.

Lemma shifted_byte w b k : 0 <= k -> k + 8 <= w -> is_byte b -> wrap w (Z.shiftl b k) = b * 2 ^ k.
Proof.
  unfold is_byte. intros Hk Hw Hb. rewrite Z.shiftl_mul_pow2 by done. apply wrap_small.
  assert (2 ^ (k + 8) <= 2 ^ w) by (apply Z.pow_le_mono_r; lia).
  rewrite Z.pow_add_r in * by lia. change (2 ^ 8) with 256 in *. nia.
Qed.

Ltac bytes_range :=
  repeat match goal with
  | Hp : Forall is_byte ?p |- context [byte_at ?p ?i] =>
      lazymatch goal with
      | _ : is_byte (byte_at p i) |- _ => fail
      | _ => pose proof (byte_at_ok p i Hp)
      end
  end.

Ltac compute_indices :=
  repeat match goal with
  | |- context [byte_at _ (?a + ?b)] => let c := eval vm_compute in (a + b) in change (a + b) with c
  | |- context [256 ^ Z.of_nat ?n] =>
      let c := eval vm_compute in (256 ^ Z.of_nat n) in change (256 ^ Z.of_nat n) with c
  end.

Ltac read_be :=
  intros; cbn [be_value]; rewrite ?advance_advance, ?byte_at_advance by lia;
  compute_indices; bytes_range;
  rewrite ?shifted_byte by (done || lia); unfold is_byte in *.

(** Adds up the innermost alternative of a reader. *)
Ltac lor_at k :=
  match goal with
  | |- context [Z.lor ?x ?b] =>
      lazymatch x with context [Z.lor _ _] => fail | _ => idtac end;
      rewrite (lor_disjoint x b k) by first [lia | dlia]
  end.

(** Each reader is the big-endian value of its bytes. *)
Lemma read_u16_be p : Forall is_byte p -> read_u16 p = be_value p 2.
Proof.
  unfold read_u16. read_be. rewrite (Z.shiftl_mul_pow2 _ 8) by lia. lor_at 8.
  rewrite wrap_small; lia.
Qed.

Lemma read_u32_be p : Forall is_byte p -> read_u32 p = be_value p 4.
Proof. unfold read_u32. read_be. lor_at 24. lor_at 16. lor_at 8. lia. Qed.

Lemma read_u48_be p : Forall is_byte p -> read_u48 p = be_value p 6.
Proof. unfold read_u48. read_be. lor_at 40. lor_at 32. lor_at 24. lor_at 16. lor_at 8. lia. Qed.

Lemma read_u64_be p : Forall is_byte p -> read_u64 p = be_value p 8.
Proof.
  unfold read_u64. read_be. lor_at 56. lor_at 48. lor_at 40. lor_at 32. lor_at 24. lor_at 16.
  lor_at 8. lia.
Qed.

(** ** Round trips *)

Lemma length_be_bytes n v : length (be_bytes n v) = n.
Proof. induction n; simpl; [done|]. by f_equal. Qed.

Lemma be_bytes_ok n v : Forall is_byte (be_bytes n v).
Proof.
  induction n; simpl; constructor; [|done]. unfold is_byte. apply Z.mod_pos_bound. lia.
Qed.

Lemma be_value_bytes n v q : be_value (be_bytes n v ++ q) n = v mod 256 ^ Z.of_nat n.
Proof.
  revert v. induction n as [|n IH]; intros v; simpl be_value; [by rewrite Z.mod_1_r|].
  cbn [be_bytes app]. unfold byte_at. cbn [lookup list_lookup Z.to_nat default].
  change ((v / 256 ^ Z.of_nat n mod 256 :: be_bytes n v ++ q) +! 1) with (be_bytes n v ++ q).
  rewrite IH, Nat2Z.inj_succ, Z.pow_succ_r, (Z.mul_comm 256) by lia.
  rewrite Z.rem_mul_r by (try apply Z.pow_nonzero; lia). simpl. lia.
Qed.

Lemma be_value_bound p n : Forall is_byte p -> 0 <= be_value p n < 256 ^ Z.of_nat n.
Proof.
  revert p. induction n as [|n IH]; intros p Hp; simpl be_value; [lia|].
  pose proof (byte_at_ok p 0 Hp) as Hb. unfold is_byte in Hb.
  pose proof (IH (p +! 1) (advance_bytes _ _ Hp)). rewrite Nat2Z.inj_succ, Z.pow_succ_r by lia.
  assert (0 < 256 ^ Z.of_nat n) by (apply Z.pow_pos_nonneg; lia). nia.
Qed.

(** Decoded fields are in range. *)
Lemma read_u16_range p : Forall is_byte p -> 0 <= read_u16 p < 2 ^ 16.
Proof. intros Hp. rewrite read_u16_be by done. by apply (be_value_bound p 2). Qed.

Lemma read_u32_range p : Forall is_byte p -> 0 <= read_u32 p < 2 ^ 32.
Proof. intros Hp. rewrite read_u32_be by done. by apply (be_value_bound p 4). Qed.

Lemma read_u64_range p : Forall is_byte p -> 0 <= read_u64 p < 2 ^ 64.
Proof. intros Hp. rewrite read_u64_be by done. by apply (be_value_bound p 8). Qed.

(** The bytes of a buffer are the encoding of their value. *)
Lemma be_bytes_value n p :
  Forall is_byte p -> Z.of_nat n <= alen p -> be_bytes n (be_value p n) = take n p.
Proof.
  revert p. induction n as [|n IH]; intros p Hp Hn; [done|].
  destruct p as [|b p]; [unfold alen in Hn; simpl in Hn; lia|].
  apply Forall_cons in Hp as [Hb Hp]. cbn [be_bytes be_value take].
  change ((b :: p) +! 1) with p. change (byte_at (b :: p) 0) with b. unfold is_byte in Hb.
  pose proof (be_value_bound p n Hp) as Hbnd.
  assert (0 < 256 ^ Z.of_nat n) by (apply Z.pow_pos_nonneg; lia).
  f_equal.
  - rewrite Z.div_add_l, Z.div_small, Z.add_0_r, Z.mod_small by lia. done.
  - rewrite <- IH by (done || (unfold alen in *; simpl in Hn; lia)).
    assert (forall a m, be_bytes n (a * 256 ^ Z.of_nat n + m) = be_bytes n m) as Hlow; [|by apply Hlow].
    clear. intros a m. assert (forall k, (k <= n)%nat -> be_bytes k (a * 256 ^ Z.of_nat n + m) = be_bytes k m)
      as Haux; [|by apply Haux]. induction k as [|k IHk]; intros Hk; [done|]. cbn [be_bytes].
    rewrite IHk by lia. f_equal.
    replace (256 ^ Z.of_nat n) with (256 ^ Z.of_nat (n - k - 1) * 256 * 256 ^ Z.of_nat k).
    + rewrite Z.mul_assoc, Z.div_add_l by (apply Z.pow_nonzero; lia).
      by rewrite Z.mul_assoc, Z.add_comm, Z.mod_add by lia.
    + rewrite <- (Z.pow_1_r 256) at 2. rewrite <- !Z.pow_add_r by lia. f_equal. lia.
Qed.

(** ** The size table *)

Lemma switch_default {A} (table : list (ascii * A)) d type :
  switch table d type = d \/ exists row, row ∈ table /\ chr row.1 = type /\ switch table d type = row.2.
Proof.
  unfold switch. destruct (list_find _ table) as [[i row]|] eqn:E; [right|by left].
  apply list_find_Some in E as (Hl & Ht & _). exists row.
  split_and!; [by eapply list_elem_of_lookup_2|done..].
Qed.

Lemma expected_size_range type :
  expected_message_size type = 0 \/ 12 <= expected_message_size type <= 50.
Proof.
  unfold expected_message_size. destruct (switch_default message_sizes 0 type) as [->|(row & Hr & _ & ->)];
    [by left|right]. revert Hr. unfold message_sizes. rewrite !elem_of_cons, elem_of_nil.
  intros Hr. repeat destruct Hr as [->|Hr]; simpl; lia || done.
Qed.

(** Sizes are given for exactly the named types. *)
Lemma sizes_and_names type :
  expected_message_size type = 0 <-> message_name type = "Unknown"%string.
Proof.
  unfold expected_message_size, message_name, switch.
  assert (map fst message_sizes = map fst message_names) as Hsame by done.
  destruct (list_find (fun row => chr row.1 = type) message_sizes) as [[i row]|] eqn:E;
  destruct (list_find (fun row => chr row.1 = type) message_names) as [[j row']|] eqn:E'.
  - apply list_find_Some in E as (Hl & _). apply list_elem_of_lookup_2 in Hl.
    apply list_find_Some in E' as (Hl' & _). apply list_elem_of_lookup_2 in Hl'.
    assert (row.2 <> 0) as Hs.
    { revert Hl. unfold message_sizes. rewrite !elem_of_cons, elem_of_nil.
      intros Hr. repeat destruct Hr as [->|Hr]; done. }
    assert (row'.2 <> "Unknown"%string) as Hs'.
    { revert Hl'. unfold message_names. rewrite !elem_of_cons, elem_of_nil.
      intros Hr. repeat destruct Hr as [->|Hr]; done. }
    tauto.
  - exfalso. apply list_find_None in E'. apply list_find_Some in E as (Hl & Ht & _).
    rewrite Forall_forall in E'.
    assert (row.1 ∈ map fst message_names) as Hin.
    { rewrite <- Hsame. apply list_elem_of_fmap_2. by eapply list_elem_of_lookup_2. }
    apply list_elem_of_fmap in Hin as (row' & Hrow & Hin). apply (E' row' Hin). by rewrite <- Hrow.
  - exfalso. apply list_find_None in E. apply list_find_Some in E' as (Hl & Ht & _).
    rewrite Forall_forall in E.
    assert (row'.1 ∈ map fst message_sizes) as Hin.
    { rewrite Hsame. apply list_elem_of_fmap_2. by eapply list_elem_of_lookup_2. }
    apply list_elem_of_fmap in Hin as (row & Hrow & Hin). apply (E row Hin). by rewrite <- Hrow.
  - done.
Qed.

(** ** Properties *)

Lemma read_app n v q (read : list Z -> Z) :
  (forall p, Forall is_byte p -> read p = be_value p n) -> Forall is_byte q ->
  read (be_bytes n v ++ q) = v mod 256 ^ Z.of_nat n.
Proof.
  intros Hread Hq. rewrite Hread by (apply Forall_app; split; [apply be_bytes_ok|done]).
  apply be_value_bytes.
Qed.

Lemma write_read n p (read : list Z -> Z) :
  (forall p, Forall is_byte p -> read p = be_value p n) -> Forall is_byte p -> Z.of_nat n <= alen p ->
  be_bytes n (read p) = take n p.
Proof. intros Hread Hp Hn. rewrite Hread by done. by apply be_bytes_value. Qed.

(** The four readers invert the big-endian encoding, whatever follows in
    the buffer, and the encoding of what they read is the bytes read. *)
Theorem readers_roundtrip v q p :
  Forall is_byte q -> Forall is_byte p -> 8 <= alen p ->
  (read_u16 (be_bytes 2 v ++ q) = v mod 2 ^ 16 /\ read_u32 (be_bytes 4 v ++ q) = v mod 2 ^ 32 /\
   read_u48 (be_bytes 6 v ++ q) = v mod 2 ^ 48 /\ read_u64 (be_bytes 8 v ++ q) = v mod 2 ^ 64) /\
  (be_bytes 2 (read_u16 p) = take 2 p /\ be_bytes 4 (read_u32 p) = take 4 p /\
   be_bytes 6 (read_u48 p) = take 6 p /\ be_bytes 8 (read_u64 p) = take 8 p).
Proof.
  intros Hq Hp Hl. split_and!.
  - by apply (read_app 2 v q read_u16 read_u16_be).
  - by apply (read_app 4 v q read_u32 read_u32_be).
  - by apply (read_app 6 v q read_u48 read_u48_be).
  - by apply (read_app 8 v q read_u64 read_u64_be).
  - by apply (write_read 2 p read_u16 read_u16_be); [|lia].
  - by apply (write_read 4 p read_u32 read_u32_be); [|lia].
  - by apply (write_read 6 p read_u48 read_u48_be); [|lia].
  - by apply (write_read 8 p read_u64 read_u64_be); [|lia].
Qed.

Lemma readers_roundtrip_witness :
  (read_u16 (be_bytes 2 258 ++ [7]) = 258 mod 2 ^ 16 /\ read_u32 (be_bytes 4 258 ++ [7]) = 258 mod 2 ^ 32 /\
   read_u48 (be_bytes 6 258 ++ [7]) = 258 mod 2 ^ 48 /\ read_u64 (be_bytes 8 258 ++ [7]) = 258 mod 2 ^ 64) /\
  (be_bytes 2 (read_u16 [1; 2; 3; 4; 5; 6; 7; 8]) = take 2 [1; 2; 3; 4; 5; 6; 7; 8] /\
   be_bytes 4 (read_u32 [1; 2; 3; 4; 5; 6; 7; 8]) = take 4 [1; 2; 3; 4; 5; 6; 7; 8] /\
   be_bytes 6 (read_u48 [1; 2; 3; 4; 5; 6; 7; 8]) = take 6 [1; 2; 3; 4; 5; 6; 7; 8] /\
   be_bytes 8 (read_u64 [1; 2; 3; 4; 5; 6; 7; 8]) = take 8 [1; 2; 3; 4; 5; 6; 7; 8]).
Proof. apply (readers_roundtrip 258 [7] [1; 2; 3; 4; 5; 6; 7; 8]); [repeat (constructor; [done|]); constructor..|done]. Defined.

(** The two tables cover the same types: a message size is known exactly
    for the named types, and it is between 12 and 50 bytes, so that every field
    offset an 11-byte header check allows lies in the message. *)
Theorem message_table_consistent type :
  (expected_message_size type = 0 <-> message_name type = "Unknown"%string) /\
  (expected_message_size type = 0 \/ 12 <= expected_message_size type <= 50).
Proof. split; [apply sizes_and_names|apply expected_size_range]. Qed.

(** ** Reads within a prefix of the buffer *)

Section within.
Context (n : Z) (m : list Z).

Lemma byte_at_take i : 0 <= i < n -> byte_at (take (Z.to_nat n) m) i = byte_at m i.
Proof. intros. unfold byte_at. by rewrite lookup_take_lt by lia. Qed.

Lemma byte_at_take_advance i j :
  0 <= i -> 0 <= j -> i + j < n -> byte_at (take (Z.to_nat n) m +! i) j = byte_at (m +! i) j.
Proof. intros. rewrite !byte_at_advance by lia. apply byte_at_take. lia. Qed.

Lemma read_u16_take i : 0 <= i -> i + 2 <= n -> read_u16 (take (Z.to_nat n) m +! i) = read_u16 (m +! i).
Proof. intros. unfold read_u16. by rewrite !byte_at_take_advance by lia. Qed.

Lemma read_u32_take i : 0 <= i -> i + 4 <= n -> read_u32 (take (Z.to_nat n) m +! i) = read_u32 (m +! i).
Proof. intros. unfold read_u32. by rewrite !byte_at_take_advance by lia. Qed.

Lemma read_u48_take i : 0 <= i -> i + 6 <= n -> read_u48 (take (Z.to_nat n) m +! i) = read_u48 (m +! i).
Proof. intros. unfold read_u48. by rewrite !byte_at_take_advance by lia. Qed.

Lemma read_u64_take i : 0 <= i -> i + 8 <= n -> read_u64 (take (Z.to_nat n) m +! i) = read_u64 (m +! i).
Proof. intros. unfold read_u64. by rewrite !byte_at_take_advance by lia. Qed.
End within.

End itch50.
