(* ===== verification/Samples.v ===== *)
(** * Encoded messages

    A few concrete ITCH messages of the instrument with locate 7, on which the
    properties of the other files are exercised. *)

From S2P Require Import Prelude Itch50.

(** Ten shares to buy at 100. *)
Definition add_message (id : Z) : list Z :=
  [65; 0; 7; 0; 0; 0; 0; 0; 0; 0; 1] ++ itch50.be_bytes 8 id ++ [66; 0; 0; 0; 10] ++
  replicate 8 32 ++ [0; 0; 0; 100].

(** Four shares executed. *)
Definition execute_message (id match_id : Z) : list Z :=
  [69; 0; 7; 0; 0; 0; 0; 0; 0; 0; 2] ++ itch50.be_bytes 8 id ++ [0; 0; 0; 4] ++ itch50.be_bytes 8 match_id.

(** Three shares cancelled. *)
Definition cancel_message (id : Z) : list Z :=
  [88; 0; 7; 0; 0; 0; 0; 0; 0; 0; 3] ++ itch50.be_bytes 8 id ++ [0; 0; 0; 3].

Definition delete_message (id : Z) : list Z :=
  [68; 0; 7; 0; 0; 0; 0; 0; 0; 0; 4] ++ itch50.be_bytes 8 id.

(** Replaced by five shares at 101. *)
Definition replace_message (id new_id : Z) : list Z :=
  [85; 0; 7; 0; 0; 0; 0; 0; 0; 0; 5] ++ itch50.be_bytes 8 id ++ itch50.be_bytes 8 new_id ++
  [0; 0; 0; 5; 0; 0; 0; 101].

(** An order of another instrument. *)
Definition foreign_message (id : Z) : list Z :=
  [65; 0; 8; 0; 0; 0; 0; 0; 0; 0; 6] ++ itch50.be_bytes 8 id ++ [83; 0; 0; 0; 9] ++
  replicate 8 32 ++ [0; 0; 0; 99].

(** The stock directory message of the symbol A at locate 7. *)
Definition directory_message : list Z :=
  [82; 0; 7; 0; 0; 0; 0; 0; 0; 0; 0; 65] ++ replicate 27 32.

Definition is_byteb (b : Z) : bool := (0 <=? b) && (b <? 256).

Lemma bytes_ok l : forallb is_byteb l = true -> Forall itch50.is_byte l.
Proof.
  intros Hf. apply Forall_forall. intros b Hb%list_elem_of_In.
  rewrite forallb_forall in Hf. specialize (Hf b Hb). unfold is_byteb, itch50.is_byte in *. lia.
Qed.
