(* ===== verification/UftTypes.v ===== *)
(** * include/qtrader/UftTypes.hpp

    The events of the UFT layer, and the interface an event source relies on:
    [MarketDataEngine] states which publications an engine offers (the book
    channel is optional, as the overload of [book_publish] makes it). *)

From S2P Require Import Prelude.

Definition kInvalidInstrumentId : Z := u32_max.
Definition kInvalidStrategyId : Z := u32_max.

Module UftSide.
Inductive t := Unknown | Buy | Sell.
#[global] Instance uft_side_eq_dec : EqDecision t.
Proof. solve_decision. Defined.
End UftSide.

Module UftOrderType.
Inductive t := Unknown | Limit | Market.
End UftOrderType.

Module UftTransactionType.
Inductive t := Unknown | Trade | Cancel | TradeBust.
#[global] Instance uft_transaction_type_eq_dec : EqDecision t.
Proof. solve_decision. Defined.
End UftTransactionType.

Module UftBookAction.
Inductive t := Add | Reduce | Delete | Replace | Execution | Trade | TradeBust.
#[global] Instance uft_book_action_eq_dec : EqDecision t.
Proof. solve_decision. Defined.
End UftBookAction.

Module UftBookUpdate.
Record t := mk {
  source_sequence : Z;
  exchange_time_ns : Z;
  order_id : Z;
  new_order_id : Z;
  match_id : Z;
  price_ticks : Z;
  quantity : Z;
  instrument_id : Z;
  side : UftSide.t;
  action : UftBookAction.t;
  printable : bool
}.

Definition empty : t :=
  mk 0 0 0 0 0 0 0 kInvalidInstrumentId UftSide.Unknown UftBookAction.Add false.
End UftBookUpdate.

Module UftOrderDetail.
Record t := mk {
  source_sequence : Z;
  exchange_time_ns : Z;
  order_id : Z;
  price_ticks : Z;
  quantity : Z;
  instrument_id : Z;
  side : UftSide.t;
  order_type : UftOrderType.t
}.
End UftOrderDetail.

Module UftTransaction.
Record t := mk {
  source_sequence : Z;
  exchange_time_ns : Z;
  transaction_id : Z;
  ask_order_id : Z;
  bid_order_id : Z;
  price_ticks : Z;
  quantity : Z;
  instrument_id : Z;
  side : UftSide.t;
  transaction_type : UftTransactionType.t
}.
End UftTransaction.

(** What an event source asks of an engine: each publication returns the number
    of callbacks it made. *)
Class MarketDataEngine (E : Type) := {
  publish_order_detail : E -> UftOrderDetail.t -> E * Z;
  publish_transaction : E -> UftTransaction.t -> E * Z;
  publish_book_update : option (E -> UftBookUpdate.t -> E * Z)
}.
