(* ===== verification/UftAdapter.v ===== *)
(** * include/qtrader/NasdaqItchUftAdapter.hpp

    The ITCH adapter of one instrument: decodes a message, keeps the active
    orders and the unique matches in fixed-capacity tables, and publishes order
    details, transactions and book updates on any [MarketDataEngine]. *)

From Stdlib Require Import Ascii.
From S2P Require Import Prelude OpenAddressing FixedHashTable Itch50 UftTypes.
Import itch50.
Open Scope char_scope.
Open Scope Z_scope.

Module UftAdapterStats.
Record t := mk {
  order_details : Z;
  transactions : Z;
  matches : Z;
  cancels : Z;
  trade_busts : Z;
  duplicate_matches_suppressed : Z;
  non_printable_suppressed : Z;
  broken_trades_without_output : Z;
  unknown_broken_trades : Z;
  malformed_or_missing_orders : Z;
  capacity_exhaustions : Z;
  peak_active_orders : Z;
  order_events_delivered : Z;
  transaction_events_delivered : Z;
  callback_deliveries : Z;
  undelivered_events : Z;
  book_events : Z;
  book_callback_deliveries : Z;
  undelivered_book_events : Z
}.

#[global] Instance eta_stats : Eta t := fun s =>
  mk (order_details s) (transactions s) (matches s) (cancels s) (trade_busts s)
    (duplicate_matches_suppressed s) (non_printable_suppressed s)
    (broken_trades_without_output s) (unknown_broken_trades s)
    (malformed_or_missing_orders s) (capacity_exhaustions s) (peak_active_orders s)
    (order_events_delivered s) (transaction_events_delivered s) (callback_deliveries s)
    (undelivered_events s) (book_events s) (book_callback_deliveries s)
    (undelivered_book_events s).

Definition zero : t := mk 0 0 0 0 0 0 0 0 0 0 0 0 0 0 0 0 0 0 0.
End UftAdapterStats.
Import (hints) UftAdapterStats.

Module Order.
Record t := mk { price_ticks : Z; remaining : Z; side : UftSide.t }.
#[global] Instance eta_order : Eta t := fun o => mk (price_ticks o) (remaining o) (side o).
#[global] Instance order_inhabited : Inhabited t := populate (mk 0 0 UftSide.Unknown).
End Order.

Module Match.
Record t := mk {
  price_ticks : Z;
  quantity : Z;
  order_id : Z;
  side : UftSide.t;
  emitted : bool
}.
#[global] Instance match_inhabited : Inhabited t := populate (mk 0 0 0 UftSide.Unknown false).
End Match.

Module NasdaqItchUftAdapter.
Import FixedHashTable.

Record t := mk {
  instrument_id_ : Z;
  locator_ : Z;
  source_sequence_ : Z;
  orders_ : FixedHashTable.t Order.t;
  matches_ : FixedHashTable.t Match.t;
  stats_ : UftAdapterStats.t
}.

#[global] Instance eta_adapter : Eta t := fun a =>
  mk (instrument_id_ a) (locator_ a) (source_sequence_ a) (orders_ a) (matches_ a) (stats_ a).

Definition make (instrument_id locator maximum_active_orders maximum_unique_matches : Z) : option t :=
  orders ← FixedHashTable.make maximum_active_orders;
  matches ← FixedHashTable.make maximum_unique_matches;
  Some (mk instrument_id locator 0 orders matches UftAdapterStats.zero).

Definition stats (a : t) : UftAdapterStats.t := stats_ a.
Definition active_orders (a : t) : Z := FixedHashTable.size (orders_ a).

(** [++stats_.field] *)
Definition count (a : t) (f : UftAdapterStats.t -> UftAdapterStats.t) : t := a <| stats_ ::= f |>.

Definition malformed (a : t) : t :=
  count a (fun s => s <| UftAdapterStats.malformed_or_missing_orders ::= incr |>).

Definition side_of (side : Z) : UftSide.t :=
  if side =? chr "B" then UftSide.Buy
  else if side =? chr "S" then UftSide.Sell else UftSide.Unknown.

Definition is_unknown (side : UftSide.t) : bool := bool_decide (side = UftSide.Unknown).

Section engine.
Context {E : Type} `{MarketDataEngine E}.
Implicit Types (a : t) (engine : E) (message : list Z).

Definition book_publish a engine (event : UftBookUpdate.t) : t * E :=
  match publish_book_update with
  | None => (a, engine)
  | Some publish =>
      let a := count a (fun s => s <| UftAdapterStats.book_events ::= incr |>) in
      let '(engine, delivered) := publish engine event in
      let a := count a (fun s =>
        s <| UftAdapterStats.book_callback_deliveries ::= fun n => u64 (n + delivered) |>) in
      (if delivered =? 0
       then count a (fun s => s <| UftAdapterStats.undelivered_book_events ::= incr |>)
       else a, engine)
  end.

Definition emit_book a engine message (action : UftBookAction.t) (id new_id match_id price
    quantity : Z) (side : UftSide.t) (printable : bool) : t * E :=
  book_publish a engine (UftBookUpdate.mk (source_sequence_ a) (read_u48 (message +! 5)) id new_id
    match_id price quantity (instrument_id_ a) side action printable).

Definition emit_order a engine message (order_id : Z) (order : Order.t) : t * E :=
  let event := UftOrderDetail.mk (source_sequence_ a) (read_u48 (message +! 5)) order_id
    (Order.price_ticks order) (Order.remaining order) (instrument_id_ a) (Order.side order)
    UftOrderType.Limit in
  let a := count a (fun s => s <| UftAdapterStats.order_details ::= incr |>) in
  let '(engine, deliveries) := publish_order_detail engine event in
  let a := count a (fun s =>
    s <| UftAdapterStats.callback_deliveries ::= fun n => u64 (n + deliveries) |>) in
  (if deliveries =? 0
   then count a (fun s => s <| UftAdapterStats.undelivered_events ::= incr |>)
   else count a (fun s => s <| UftAdapterStats.order_events_delivered ::= incr |>), engine).

Definition emit_transaction a engine message (transaction_id : Z) (type : UftTransactionType.t)
    (side : UftSide.t) (price_ticks quantity order_id : Z) : t * E :=
  if quantity =? 0 then (malformed a, engine)
  else
    let event := UftTransaction.mk (source_sequence_ a) (read_u48 (message +! 5)) transaction_id
      (if decide (side = UftSide.Sell) then order_id else 0)
      (if decide (side = UftSide.Buy) then order_id else 0)
      price_ticks quantity (instrument_id_ a) side type in
    let a := count a (fun s => s <| UftAdapterStats.transactions ::= incr |>) in
    let '(engine, deliveries) := publish_transaction engine event in
    let a := count a (fun s =>
      s <| UftAdapterStats.callback_deliveries ::= fun n => u64 (n + deliveries) |>) in
    let a :=
      if deliveries =? 0
      then count a (fun s => s <| UftAdapterStats.undelivered_events ::= incr |>)
      else count a (fun s => s <| UftAdapterStats.transaction_events_delivered ::= incr |>) in
    (match type with
     | UftTransactionType.Trade => count a (fun s => s <| UftAdapterStats.matches ::= incr |>)
     | UftTransactionType.Cancel => count a (fun s => s <| UftAdapterStats.cancels ::= incr |>)
     | UftTransactionType.TradeBust =>
         count a (fun s => s <| UftAdapterStats.trade_busts ::= incr |>)
     | UftTransactionType.Unknown => a
     end, engine).

Definition count_insert_failure a (result : FixedHashInsertResult) : t :=
  match result with
  | Full => count a (fun s => s <| UftAdapterStats.capacity_exhaustions ::= incr |>)
  | _ => malformed a
  end.

Definition add a engine message : t * E :=
  let order_id := read_u64 (message +! 11) in
  let side := side_of (byte_at message 19) in
  let quantity := read_u32 (message +! 20) in
  let price := read_u32 (message +! 32) in
  if is_unknown side || (quantity =? 0) || (price =? 0) then (malformed a, engine)
  else
    let order := Order.mk price quantity side in
    let '(orders, inserted) := FixedHashTable.insert (orders_ a) order_id order in
    let a := a <| orders_ := orders |> in
    match inserted with
    | Inserted =>
        let a := count a (fun s => s <| UftAdapterStats.peak_active_orders ::=
          fun n => Z.max n (FixedHashTable.size (orders_ a)) |>) in
        let '(a, engine) := emit_order a engine message order_id order in
        emit_book a engine message UftBookAction.Add order_id 0 0 (Order.price_ticks order)
          quantity side false
    | _ => (count_insert_failure a inserted, engine)
    end.

(** [order->remaining -= quantity; if (order->remaining == 0) orders_.erase(order_id);]
    through the pointer found at [order_id]. *)
Definition take a (order_id quantity : Z) : t :=
  match FixedHashTable.find (orders_ a) order_id with
  | None => a
  | Some order =>
      let left := u64 (Order.remaining order - quantity) in
      let a := a <| orders_ ::= fun tab =>
        FixedHashTable.assign tab order_id (order <| Order.remaining := left |>) |> in
      if left =? 0 then a <| orders_ ::= fun tab => (FixedHashTable.erase tab order_id).1 |> else a
  end.

Definition execute a engine message : t * E :=
  let order_id := read_u64 (message +! 11) in
  let quantity := read_u32 (message +! 19) in
  match FixedHashTable.find (orders_ a) order_id with
  | None => (malformed a, engine)
  | Some order =>
      if (quantity =? 0) || (Order.remaining order <? quantity) then (malformed a, engine)
      else
        let match_id := read_u64 (message +! 23) in
        let with_price := byte_at message 0 =? chr "C" in
        let price :=
          if with_price then read_u32 (message +! 32) else Order.price_ticks order in
        let printable := negb with_price || (byte_at message 31 =? chr "Y") in
        if (price <=? 0) ||
           (with_price && negb (byte_at message 31 =? chr "Y") && negb (byte_at message 31 =? chr "N"))
        then (malformed a, engine)
        else
          let '(matches, first) := FixedHashTable.insert (matches_ a) match_id
            (Match.mk price quantity order_id (Order.side order) printable) in
          let a := a <| matches_ := matches |> in
          match first with
          | Full | InvalidKey => (count_insert_failure a first, engine)
          | _ =>
              let '(a, engine) :=
                if negb printable
                then (count a (fun s => s <| UftAdapterStats.non_printable_suppressed ::= incr |>), engine)
                else match first with
                | Inserted =>
                    emit_transaction a engine message match_id UftTransactionType.Trade
                      (Order.side order) price quantity order_id
                | Duplicate =>
                    (count a (fun s => s <| UftAdapterStats.duplicate_matches_suppressed ::= incr |>),
                     engine)
                | _ => (count_insert_failure a first, engine)
                end in
              let '(a, engine) := emit_book a engine message UftBookAction.Execution order_id 0
                match_id price quantity (Order.side order) printable in
              (take a order_id quantity, engine)
          end
  end.

Definition cancel_partial a engine message : t * E :=
  let order_id := read_u64 (message +! 11) in
  let quantity := read_u32 (message +! 19) in
  match FixedHashTable.find (orders_ a) order_id with
  | None => (malformed a, engine)
  | Some order =>
      if (quantity =? 0) || (Order.remaining order <? quantity) then (malformed a, engine)
      else
        let '(a, engine) := emit_transaction a engine message (source_sequence_ a)
          UftTransactionType.Cancel (Order.side order) (Order.price_ticks order) quantity order_id in
        let '(a, engine) := emit_book a engine message UftBookAction.Reduce order_id 0 0
          (Order.price_ticks order) quantity (Order.side order) false in
        (take a order_id quantity, engine)
  end.

Definition cancel_all a engine message : t * E :=
  let order_id := read_u64 (message +! 11) in
  match FixedHashTable.find (orders_ a) order_id with
  | None => (malformed a, engine)
  | Some snapshot =>
      let '(a, engine) := emit_transaction a engine message (source_sequence_ a)
        UftTransactionType.Cancel (Order.side snapshot) (Order.price_ticks snapshot)
        (Order.remaining snapshot) order_id in
      let '(a, engine) := emit_book a engine message UftBookAction.Delete order_id 0 0
        (Order.price_ticks snapshot) (Order.remaining snapshot) (Order.side snapshot) false in
      (a <| orders_ ::= fun tab => (FixedHashTable.erase tab order_id).1 |>, engine)
  end.

Definition replace a engine message : t * E :=
  let old_id := read_u64 (message +! 11) in
  let new_id := read_u64 (message +! 19) in
  let quantity := read_u32 (message +! 27) in
  let price := read_u32 (message +! 31) in
  match FixedHashTable.find (orders_ a) old_id with
  | None => (malformed a, engine)
  | Some old_order =>
      if (new_id =? 0) || (quantity =? 0) || (price =? 0) ||
         bool_decide (is_Some (FixedHashTable.find (orders_ a) new_id))
      then (malformed a, engine)
      else
        let a := a <| orders_ ::= fun tab => (FixedHashTable.erase tab old_id).1 |> in
        let replacement := Order.mk price quantity (Order.side old_order) in
        let '(orders, inserted) := FixedHashTable.insert (orders_ a) new_id replacement in
        let a := a <| orders_ := orders |> in
        match inserted with
        | Inserted =>
            let '(a, engine) := emit_transaction a engine message (source_sequence_ a)
              UftTransactionType.Cancel (Order.side old_order) (Order.price_ticks old_order)
              (Order.remaining old_order) old_id in
            let '(a, engine) := emit_order a engine message new_id replacement in
            emit_book a engine message UftBookAction.Replace old_id new_id 0
              (Order.price_ticks replacement) quantity (Order.side replacement) false
        | _ => (count_insert_failure a inserted, engine)
        end
  end.

(** The tail [non_cross_trade] and [cross_trade] share: publish a new match. *)
Definition publish_match a engine message (match_id : Z) (mt : Match.t) : t * E :=
  let '(matches, first) := FixedHashTable.insert (matches_ a) match_id mt in
  let a := a <| matches_ := matches |> in
  match first with
  | Inserted =>
      let '(a, engine) := emit_book a engine message UftBookAction.Trade (Match.order_id mt) 0 match_id
        (Match.price_ticks mt) (Match.quantity mt) (Match.side mt) true in
      emit_transaction a engine message match_id UftTransactionType.Trade (Match.side mt)
        (Match.price_ticks mt) (Match.quantity mt) (Match.order_id mt)
  | Duplicate =>
      (count a (fun s => s <| UftAdapterStats.duplicate_matches_suppressed ::= incr |>), engine)
  | _ => (count_insert_failure a first, engine)
  end.

Definition non_cross_trade a engine message : t * E :=
  let match_id := read_u64 (message +! 36) in
  let mt := Match.mk (read_u32 (message +! 32)) (read_u32 (message +! 20)) (read_u64 (message +! 11))
    (side_of (byte_at message 19)) true in
  if (Match.quantity mt =? 0) || (Match.price_ticks mt <=? 0) || is_unknown (Match.side mt)
  then (malformed a, engine)
  else publish_match a engine message match_id mt.

Definition cross_trade a engine message : t * E :=
  let match_id := read_u64 (message +! 31) in
  let mt := Match.mk (read_u32 (message +! 27)) (read_u64 (message +! 11)) 0 UftSide.Unknown true in
  if (Match.quantity mt =? 0) || (Match.price_ticks mt <=? 0) then (malformed a, engine)
  else publish_match a engine message match_id mt.

Definition broken_trade a engine message : t * E :=
  let match_id := read_u64 (message +! 11) in
  match FixedHashTable.find (matches_ a) match_id with
  | None => (count a (fun s => s <| UftAdapterStats.unknown_broken_trades ::= incr |>), engine)
  | Some mt =>
      let '(a, engine) := emit_book a engine message UftBookAction.TradeBust (Match.order_id mt) 0
        match_id (Match.price_ticks mt) (Match.quantity mt) (Match.side mt) (Match.emitted mt) in
      let '(a, engine) :=
        if Match.emitted mt then
          emit_transaction a engine message match_id UftTransactionType.TradeBust (Match.side mt)
            (Match.price_ticks mt) (Match.quantity mt) (Match.order_id mt)
        else
          (count a (fun s => s <| UftAdapterStats.broken_trades_without_output ::= incr |>), engine) in
      (a <| matches_ ::= fun tab => (FixedHashTable.erase tab match_id).1 |>, engine)
  end.

(** [message] is a nullable pointer. *)
Definition on_message a (message : option (list Z)) (size : Z) engine : t * E :=
  match message with
  | None => (a, engine)
  | Some message =>
      if (size <? 11) || negb (read_u16 (message +! 1) =? locator_ a) then (a, engine)
      else
        let a := a <| source_sequence_ ::= incr |> in
        let type := byte_at message 0 in
        if negb (size =? expected_message_size type) then (malformed a, engine)
        else if (type =? chr "A") || (type =? chr "F") then add a engine message
        else if (type =? chr "E") || (type =? chr "C") then execute a engine message
        else if type =? chr "X" then cancel_partial a engine message
        else if type =? chr "D" then cancel_all a engine message
        else if type =? chr "U" then replace a engine message
        else if type =? chr "P" then non_cross_trade a engine message
        else if type =? chr "Q" then cross_trade a engine message
        else if type =? chr "B" then broken_trade a engine message
        else (a, engine)
  end.
End engine.
End NasdaqItchUftAdapter.
