(* ===== verification/Engine.v ===== *)
(** * include/qtrader/UftMarketDataEngine.hpp and UftBookMarketDataEngine.hpp

    The subscription engine: instruments and strategies are registered, a
    single [start] freezes the configuration and runs every [on_init], and
    publications reach the subscribers of the event's instrument in
    subscription order.  A strategy is outside this repository: its [on_init]
    is any program over the context's operations, its event callbacks are the
    deliveries made to it. *)

From S2P Require Import Prelude UftTypes.

Definition kMaximumStandardCode : Z := 31.

Module UftInstrumentMetadata.
Record t := mk {
  instrument_id : Z;
  minimum_price_ticks : Z;
  maximum_price_ticks : Z;
  tick_size : Z;
  standard_code : list Z
}.
Definition empty : t := mk kInvalidInstrumentId 0 0 0 (replicate 32 0).
End UftInstrumentMetadata.

Module Channel.
Inductive t := OrderDetail | Transaction.
End Channel.

(** What an [on_init] may do with its context; each step sees the results of
    those before it. *)
Inductive InitProgram :=
  | Return
  | Subscribe (instrument_id : Z) (channel : Channel.t) (k : bool -> InitProgram)
  | Lookup (instrument_id : Z) (k : option UftInstrumentMetadata.t -> InitProgram).

Module UftStrategyCallbacks.
(** A callback pointer is null ([None], [false]) or present. *)
Record t := mk {
  on_init : option InitProgram;
  on_session_begin : bool;
  on_session_end : bool;
  on_order_detail : bool;
  on_transaction : bool
}.
Definition none : t := mk None false false false false.
End UftStrategyCallbacks.

Module InstrumentSlot.
(** Subscriber pointers are strategy indices; the counts are the lengths. *)
Record t := mk {
  metadata : UftInstrumentMetadata.t;
  order_details : list Z;
  transactions : list Z;
  registered : bool
}.
#[global] Instance eta_slot : Eta t := fun s =>
  mk (metadata s) (order_details s) (transactions s) (registered s).
#[global] Instance slot_inhabited : Inhabited t :=
  populate (mk UftInstrumentMetadata.empty [] [] false).
End InstrumentSlot.

Module StrategySlot.
(** [strategy] is the non-null [void*] it was registered with. *)
Record t := mk {
  strategy : option Z;
  callbacks : UftStrategyCallbacks.t;
  configuration_ok : bool;
  registered : bool
}.
#[global] Instance eta_strategy : Eta t := fun s =>
  mk (strategy s) (callbacks s) (configuration_ok s) (registered s).
#[global] Instance strategy_inhabited : Inhabited t :=
  populate (mk None UftStrategyCallbacks.none true false).
End StrategySlot.

(** A callback made on a strategy. *)
Inductive Delivery :=
  | SessionBegin (strategy_id trading_date : Z)
  | SessionEnd (strategy_id trading_date : Z)
  | OrderDetailTo (strategy_id : Z) (event : UftOrderDetail.t)
  | TransactionTo (strategy_id : Z) (event : UftTransaction.t).

Module UftMarketDataEngine.

Record t := mk {
  instruments_ : list InstrumentSlot.t;
  strategies_ : list StrategySlot.t;
  configuration_frozen_ : bool;
  running_ : bool
}.

#[global] Instance eta_engine : Eta t := fun e =>
  mk (instruments_ e) (strategies_ e) (configuration_frozen_ e) (running_ e).

Section engine.
Context (InstrumentCapacity StrategyCapacity MaxStrategiesPerInstrument : Z).

Definition make : t :=
  mk (replicate (Z.to_nat InstrumentCapacity) inhabitant)
    (replicate (Z.to_nat StrategyCapacity) inhabitant) false false.

(** [while (length <= kMaximumStandardCode && standard_code[length] != 0) ++length;] *)
Fixpoint code_length_loop (fuel : nat) (code : list Z) (length : Z) : Z :=
  match fuel with
  | O => length
  | S fuel' =>
      if (length <=? kMaximumStandardCode) && negb (default 0 (code !! Z.to_nat length) =? 0)
      then code_length_loop fuel' code (length + 1) else length
  end.

(** The prefix of [target] overwritten by [source]. *)
Definition overwrite (target source : list Z) : list Z := source ++ drop (length source) target.

Definition register_instrument (e : t) (instrument_id : Z) (standard_code : option (list Z))
    (minimum_price_ticks maximum_price_ticks tick_size : Z) : t * bool :=
  match standard_code with
  | None => (e, false)
  | Some code =>
      if configuration_frozen_ e || (InstrumentCapacity <=? instrument_id) || (tick_size <=? 0) ||
         (maximum_price_ticks <? minimum_price_ticks) then (e, false)
      else if InstrumentSlot.registered (instruments_ e).[instrument_id] then (e, false)
      else
        let length := code_length_loop 33 code 0 in
        if (length =? 0) || (kMaximumStandardCode <? length) then (e, false)
        else
          let slot := (instruments_ e).[instrument_id] in
          let stored := overwrite (UftInstrumentMetadata.standard_code (InstrumentSlot.metadata slot))
            (take (Z.to_nat length) code) in
          let metadata := UftInstrumentMetadata.mk instrument_id minimum_price_ticks
            maximum_price_ticks tick_size (stored.[length <- 0]) in
          (e <| instruments_ ::= fun a => a.[instrument_id <-
             slot <| InstrumentSlot.metadata := metadata |>
                  <| InstrumentSlot.registered := true |>] |>, true)
  end.

Definition register_strategy (e : t) (strategy_id : Z) (strategy : option Z)
    (callbacks : UftStrategyCallbacks.t) : t * bool :=
  if configuration_frozen_ e || (StrategyCapacity <=? strategy_id) ||
     bool_decide (strategy = None) then (e, false)
  else if StrategySlot.registered (strategies_ e).[strategy_id] then (e, false)
  else
    (e <| strategies_ ::= fun a =>
       a.[strategy_id <- StrategySlot.mk strategy callbacks true true] |>, true).

Definition append_subscription (subscribers : list Z) (strategy_id : Z) (callback_present : bool) :
    list Z * bool :=
  if negb callback_present || (alen subscribers =? MaxStrategiesPerInstrument)
  then (subscribers, false)
  else if bool_decide (strategy_id ∈ subscribers) then (subscribers, false)
  else (subscribers ++ [strategy_id], true).

Definition subscribe (e : t) (strategy_id instrument_id : Z) (channel : Channel.t) : t * bool :=
  if negb (configuration_frozen_ e) || running_ e || (StrategyCapacity <=? strategy_id) ||
     (InstrumentCapacity <=? instrument_id) then (e, false)
  else
    let strategy := (strategies_ e).[strategy_id] in
    let slot := (instruments_ e).[instrument_id] in
    if negb (StrategySlot.registered strategy) || negb (InstrumentSlot.registered slot)
    then (e, false)
    else match channel with
    | Channel.OrderDetail =>
        let '(subscribers, ok) := append_subscription (InstrumentSlot.order_details slot) strategy_id
          (UftStrategyCallbacks.on_order_detail (StrategySlot.callbacks strategy)) in
        (e <| instruments_ ::= fun a =>
           a.[instrument_id <- slot <| InstrumentSlot.order_details := subscribers |>] |>, ok)
    | Channel.Transaction =>
        let '(subscribers, ok) := append_subscription (InstrumentSlot.transactions slot) strategy_id
          (UftStrategyCallbacks.on_transaction (StrategySlot.callbacks strategy)) in
        (e <| instruments_ ::= fun a =>
           a.[instrument_id <- slot <| InstrumentSlot.transactions := subscribers |>] |>, ok)
    end.

Definition instrument (e : t) (instrument_id : Z) : option UftInstrumentMetadata.t :=
  if (InstrumentCapacity <=? instrument_id) ||
     negb (InstrumentSlot.registered (instruments_ e).[instrument_id]) then None
  else Some (InstrumentSlot.metadata (instruments_ e).[instrument_id]).

(** [UftStrategyContext::subscribe]: a refused subscription fails the
    strategy's configuration for good. *)
Definition context_subscribe (e : t) (strategy_id instrument_id : Z) (channel : Channel.t) : t * bool :=
  let '(e, result) := subscribe e strategy_id instrument_id channel in
  (e <| strategies_ ::= fun a => a.[strategy_id <- a.[strategy_id]
     <| StrategySlot.configuration_ok ::= fun ok => ok && result |>] |>, result).

Fixpoint run_init (e : t) (strategy_id : Z) (program : InitProgram) : t :=
  match program with
  | Return => e
  | Subscribe instrument_id channel k =>
      let '(e, result) := context_subscribe e strategy_id instrument_id channel in
      run_init e strategy_id (k result)
  | Lookup instrument_id k => run_init e strategy_id (k (instrument e instrument_id))
  end.

(** [for (auto& strategy : strategies_)]: [false] when a configuration failed. *)
Fixpoint init_strategies (e : t) (ids : list Z) : t * bool :=
  match ids with
  | [] => (e, true)
  | id :: ids' =>
      let slot := (strategies_ e).[id] in
      let e :=
        match StrategySlot.registered slot, UftStrategyCallbacks.on_init (StrategySlot.callbacks slot) with
        | true, Some program => run_init e id program
        | _, _ => e
        end in
      if StrategySlot.registered slot && negb (StrategySlot.configuration_ok (strategies_ e).[id])
      then (e, false) else init_strategies e ids'
  end.

Definition start (e : t) : t * bool :=
  if configuration_frozen_ e then (e, false)
  else
    let e := e <| configuration_frozen_ := true |> in
    let '(e, ok) := init_strategies e (seqZ 0 StrategyCapacity) in
    if ok then (e <| running_ := true |>, true) else (e, false).

Definition stop (e : t) : t := e <| running_ := false |>.
Definition running (e : t) : bool := running_ e.
Definition configuration_frozen (e : t) : bool := configuration_frozen_ e.

Definition on_session (e : t) (present : UftStrategyCallbacks.t -> bool) (call : Z -> Delivery) :
    list Delivery :=
  if negb (running_ e) then []
  else omap (fun id =>
    let slot := (strategies_ e).[id] in
    if StrategySlot.registered slot && present (StrategySlot.callbacks slot)
    then Some (call id) else None) (seqZ 0 StrategyCapacity).

Definition on_session_begin (e : t) (trading_date : Z) : list Delivery :=
  on_session e UftStrategyCallbacks.on_session_begin (fun id => SessionBegin id trading_date).
Definition on_session_end (e : t) (trading_date : Z) : list Delivery :=
  on_session e UftStrategyCallbacks.on_session_end (fun id => SessionEnd id trading_date).

(** The callbacks made and the count returned. *)
Definition publish_order_detail (e : t) (event : UftOrderDetail.t) : list Delivery * Z :=
  if negb (running_ e) || (InstrumentCapacity <=? UftOrderDetail.instrument_id event) then ([], 0)
  else
    let slot := (instruments_ e).[UftOrderDetail.instrument_id event] in
    if negb (InstrumentSlot.registered slot) then ([], 0)
    else (map (fun id => OrderDetailTo id event) (InstrumentSlot.order_details slot),
          alen (InstrumentSlot.order_details slot)).

Definition publish_transaction (e : t) (event : UftTransaction.t) : list Delivery * Z :=
  if negb (running_ e) || (InstrumentCapacity <=? UftTransaction.instrument_id event) then ([], 0)
  else
    let slot := (instruments_ e).[UftTransaction.instrument_id event] in
    if negb (InstrumentSlot.registered slot) then ([], 0)
    else (map (fun id => TransactionTo id event) (InstrumentSlot.transactions slot),
          alen (InstrumentSlot.transactions slot)).
End engine.
End UftMarketDataEngine.

Module UftBookMarketDataEngine.

Section engine.
(** [B] is the book stage a slot's [void*] and callback stand for. *)
Context {B : Type} (Instruments Strategies Subscribers : Z).

Record t := mk {
  base : UftMarketDataEngine.t;
  slots_ : list (option B)
}.

#[global] Instance eta_book_engine : Eta t := fun e => mk (base e) (slots_ e).

Definition make : t :=
  mk (UftMarketDataEngine.make Instruments Strategies) (replicate (Z.to_nat Instruments) None).

Definition register_book (e : t) (id : Z) (book : option B) : t * bool :=
  match book with
  | None => (e, false)
  | Some callback =>
      if UftMarketDataEngine.configuration_frozen (base e) || (Instruments <=? id) ||
         bool_decide (UftMarketDataEngine.instrument Instruments (base e) id = None) ||
         bool_decide (is_Some ((slots_ e).[id]))
      then (e, false)
      else (e <| slots_ ::= fun a => a.[id <- Some callback] |>, true)
  end.

(** The book stage the event goes to, if any; one callback is then made. *)
Definition publish_book_update (e : t) (event : UftBookUpdate.t) : option B :=
  if negb (UftMarketDataEngine.running (base e)) ||
     (Instruments <=? UftBookUpdate.instrument_id event) then None
  else (slots_ e).[UftBookUpdate.instrument_id event].
End engine.
End UftBookMarketDataEngine.
