(* ===== verification/Pipeline.v ===== *)
(** * include/qtrader/UftOrderBookPipeline.hpp

    One instrument, one feed session: the adapter decodes each message, the
    book engine routes its updates back to [apply], which mutates the dense
    book; [ingest] checks that adapter and book agree before the strategy sees
    anything.  The strategy is outside this repository: it is any function from
    what it is shown to the pipeline operations it calls back. *)

From Stdlib Require Import Ascii.
From stdpp Require Import strings.
From S2P Require Import Prelude OpenAddressing FixedHashTable OrderIndex BookTypes DenseBook Itch50.
From S2P Require Import UftTypes Engine UftAdapter.

Inductive BookFeedState := Live | Recovering | Faulted.
Inductive BookIngestResult := Applied | Duplicate | Gap | IngestFaulted.

#[global] Instance book_feed_state_eq_dec : EqDecision BookFeedState.
Proof. solve_decision. Defined.
#[global] Instance book_ingest_result_eq_dec : EqDecision BookIngestResult.
Proof. solve_decision. Defined.

Module UftOrderBookPipeline.
Import itch50.

Abbreviation Book := DensePriceOrderBook.t.

(** What the strategy is shown. *)
Record StrategyCall := mkCall {
  call_book : Book;
  call_update : option UftBookUpdate.t;
  call_sequence : Z;
  call_volume : Z
}.

(** What a strategy may do with the pipeline during its callback. *)
Inductive Reaction := Reenter | Invalidate | NoteGap (highest_sequence : Z).

Definition Strategy : Type := StrategyCall -> list Reaction.

Module Match.
Record t := mk { quantity : Z; printable : bool; busted : bool }.
#[global] Instance eta_match : Eta t := fun m => mk (quantity m) (printable m) (busted m).
#[global] Instance pipeline_match_inhabited : Inhabited t := populate (mk 0 false false).
End Match.

Record t := mk {
  session_ : string;
  next_ : Z;
  high_water_ : Z;
  callbacks_ : Z;
  adapter_ : NasdaqItchUftAdapter.t;
  book_ : Book;
  matches_ : FixedHashTable.t Match.t;
  engine_ : UftBookMarketDataEngine.t (B := unit);
  state_ : BookFeedState;
  error_ : option string;
  callback_ : option Strategy;
  last_ : UftBookUpdate.t;
  net_volume_ : Z;
  pending_ : bool;
  started_ : bool;
  in_ingest_ : bool
}.

#[global] Instance eta_pipeline : Eta t := fun p =>
  mk (session_ p) (next_ p) (high_water_ p) (callbacks_ p) (adapter_ p) (book_ p) (matches_ p)
    (engine_ p) (state_ p) (error_ p) (callback_ p) (last_ p) (net_volume_ p) (pending_ p)
    (started_ p) (in_ingest_ p).

Definition is_faulted (s : BookFeedState) : bool := bool_decide (s = Faulted).

(** ** Construction; [None] is the thrown [invalid_argument] or [bad_alloc] *)

Definition checked_orders (n : Z) : option Z :=
  if (n =? 0) || (u32_max <=? n) then None else Some n.

Definition levels (lo hi tick : Z) : option Z :=
  if (lo <=? 0) || (hi <? lo) || (tick <=? 0) || negb (Z.rem (hi - lo) tick =? 0) ||
     (u32_max - 64 <? Z.quot (hi - lo) tick)
  then None else Some (u32 (Z.quot (hi - lo) tick + 1)).

(** ITCH.BOOK *)
Definition book_code : list Z := map chr ["I"; "T"; "C"; "H"; "."; "B"; "O"; "O"; "K"]%char.

Definition make (session : string) (first_sequence locator max_orders max_matches
    minimum maximum tick : Z) : option t :=
  orders ← checked_orders max_orders;
  adapter ← NasdaqItchUftAdapter.make 0 locator orders max_matches;
  level_count ← levels minimum maximum tick;
  book ← DensePriceOrderBook.make max_orders minimum tick level_count;
  matches ← FixedHashTable.make max_matches;
  let engine := UftBookMarketDataEngine.make 1 1 in
  if bool_decide (session = ""%string) || (first_sequence =? 0) || (first_sequence =? u64_max) then None
  else
    let '(base, registered) := UftMarketDataEngine.register_instrument 1
      (UftBookMarketDataEngine.base engine) 0 (Some book_code) minimum maximum tick in
    let engine := engine <| UftBookMarketDataEngine.base := base |> in
    let '(engine, booked) := UftBookMarketDataEngine.register_book 1 engine 0 (Some tt) in
    if negb registered || negb booked then None
    else Some (mk session first_sequence 0 0 adapter book matches engine Live None None
      UftBookUpdate.empty 0 false false false).

(** [strategy] and [callback] are nullable pointers; a present callback is the
    function it computes on the strategy. *)
Definition start (p : t) (strategy : option Z) (callback : option Strategy) : t * bool :=
  if started_ p || bool_decide (strategy = None) then (p, false)
  else match callback with
  | None => (p, false)
  | Some f =>
      let p := p <| callback_ := Some f |> in
      let '(base, started) :=
        UftMarketDataEngine.start 1 1 1 (UftBookMarketDataEngine.base (engine_ p)) in
      (p <| engine_ ::= fun e => e <| UftBookMarketDataEngine.base := base |> |>
         <| started_ := started |>, started)
  end.

(** ** Faults and gaps *)

Definition fault (p : t) (reason : string) : t :=
  p <| state_ := Faulted |> <| error_ ::= fun e => match e with None => Some reason | _ => e end |>.

Definition note_gap (p : t) (highest_sequence : Z) : t :=
  if is_faulted (state_ p) || (highest_sequence <? next_ p) then p
  else p <| state_ := Recovering |> <| high_water_ ::= fun h => Z.max h highest_sequence |>.

Definition invalidate (p : t) : t := fault p "external feed/session failure".

(** ** The book stage *)

Definition record (p : t) (e : UftBookUpdate.t) : t * bool :=
  match FixedHashTable.find (matches_ p) (UftBookUpdate.match_id e) with
  | Some m => (p, negb (Match.busted m))
  | None =>
      if UftBookUpdate.printable e && (u64_max - net_volume_ p <? UftBookUpdate.quantity e) then (p, false)
      else
        let '(matches, inserted) := FixedHashTable.insert (matches_ p) (UftBookUpdate.match_id e)
          (Match.mk (UftBookUpdate.quantity e) (UftBookUpdate.printable e) false) in
        let p := p <| matches_ := matches |> in
        match inserted with
        | FixedHashTable.Inserted =>
            (if UftBookUpdate.printable e
             then p <| net_volume_ ::= fun v => u64 (v + UftBookUpdate.quantity e) |> else p, true)
        | _ => (p, false)
        end
  end.

Definition bust (p : t) (e : UftBookUpdate.t) : t * bool :=
  match FixedHashTable.find (matches_ p) (UftBookUpdate.match_id e) with
  | None => (p, false)
  | Some m =>
      if Match.busted m then (p, false)
      else
        let p := if Match.printable m
          then p <| net_volume_ ::= fun v => u64 (v - Match.quantity m) |> else p in
        (p <| matches_ ::= fun tab =>
           FixedHashTable.assign tab (UftBookUpdate.match_id e) (m <| Match.busted := true |>) |>, true)
  end.

(** Applies one operation of the book. *)
Definition on_book (p : t) (op : Book -> Book * bool) : t * bool :=
  let '(book, ok) := op (book_ p) in (p <| book_ := book |>, ok).

Definition book_side (s : UftSide.t) : Side :=
  match s with UftSide.Buy => Buy | _ => Sell end.

(** The [switch] of [apply]. *)
Definition apply_action (p : t) (e : UftBookUpdate.t) : t * bool :=
  let id := UftBookUpdate.order_id e in
  let quantity := UftBookUpdate.quantity e in
  let price := UftBookUpdate.price_ticks e in
  let ok := negb (quantity =? 0) in
  match UftBookUpdate.action e with
  | UftBookAction.Add =>
      if ok && negb (bool_decide (UftBookUpdate.side e = UftSide.Unknown))
      then on_book p (fun b =>
        DensePriceOrderBook.feed_add b id (book_side (UftBookUpdate.side e)) price quantity)
      else (p, false)
  | UftBookAction.Reduce =>
      if ok then on_book p (fun b => DensePriceOrderBook.feed_reduce b id quantity) else (p, false)
  | UftBookAction.Delete =>
      if ok && (DensePriceOrderBook.remaining_of (book_ p) id =? quantity)
      then on_book p (fun b => DensePriceOrderBook.feed_delete b id) else (p, false)
  | UftBookAction.Replace =>
      if ok then on_book p (fun b =>
        DensePriceOrderBook.feed_replace b id (UftBookUpdate.new_order_id e) price quantity)
      else (p, false)
  | UftBookAction.Execution =>
      if ok then
        let '(p, reduced) := on_book p (fun b => DensePriceOrderBook.feed_reduce b id quantity) in
        if reduced then record p e else (p, false)
      else (p, false)
  | UftBookAction.Trade => if ok then record p e else (p, false)
  | UftBookAction.TradeBust => bust p e
  end.

Definition apply (p : t) (e : UftBookUpdate.t) : t :=
  if is_faulted (state_ p) then p
  else
    let '(p, ok) := apply_action p e in
    if ok then p <| last_ := e |> <| pending_ := true |>
    else fault p "invalid mutation or exhausted book/match capacity".

(** The engine the adapter publishes on: no strategy is registered with it, and
    the book slot's callback is [receive], that is [apply]. *)
#[global] Instance pipeline_engine : MarketDataEngine t := {|
  publish_order_detail p e :=
    (p, (UftMarketDataEngine.publish_order_detail 1 (UftBookMarketDataEngine.base (engine_ p)) e).2);
  publish_transaction p e :=
    (p, (UftMarketDataEngine.publish_transaction 1 (UftBookMarketDataEngine.base (engine_ p)) e).2);
  publish_book_update := Some (fun p e =>
    match UftBookMarketDataEngine.publish_book_update 1 (engine_ p) e with
    | Some _ => (apply p e, 1)
    | None => (p, 0)
    end)
|}.

(** ** ingest *)

(** The strategy's calls into the pipeline from within its callback: a
    re-entered [ingest] faults before anything else. *)
Definition react (p : t) (r : Reaction) : t :=
  match r with
  | Reenter => fault p "not started, reentrant, faulted or session mismatch"
  | Invalidate => invalidate p
  | NoteGap h => note_gap p h
  end.

(** Whether the adapter's counters say the message was not cleanly applied. *)
Definition inconsistent (before after : UftAdapterStats.t) : bool :=
  negb (UftAdapterStats.malformed_or_missing_orders after =?
        UftAdapterStats.malformed_or_missing_orders before) ||
  negb (UftAdapterStats.capacity_exhaustions after =? UftAdapterStats.capacity_exhaustions before) ||
  negb (UftAdapterStats.unknown_broken_trades after =? UftAdapterStats.unknown_broken_trades before) ||
  negb (UftAdapterStats.undelivered_book_events after =?
        UftAdapterStats.undelivered_book_events before).

Definition ingest (p : t) (session : string) (sequence : Z) (message : option (list Z)) (size : Z) :
    t * BookIngestResult * list StrategyCall :=
  let faulted p reason := (fault p reason, IngestFaulted, []) in
  if negb (started_ p) || in_ingest_ p || is_faulted (state_ p) ||
     negb (bool_decide (session = session_ p))
  then faulted p "not started, reentrant, faulted or session mismatch"%string
  else if sequence <? next_ p then (p, Duplicate, [])
  else if sequence =? u64_max then faulted p "sequence overflow"%string
  else if next_ p <? sequence then
    (p <| state_ := Recovering |> <| high_water_ ::= fun h => Z.max h sequence |>, Gap, [])
  else match message with
  | None => faulted p "malformed or unsupported ITCH message"%string
  | Some bytes =>
      if (size <? 11) || negb (size =? expected_message_size (byte_at bytes 0))
      then faulted p "malformed or unsupported ITCH message"%string
      else
        let p := p <| in_ingest_ := true |> <| pending_ := false |> in
        let before := NasdaqItchUftAdapter.stats (adapter_ p) in
        let '(adapter, p) := NasdaqItchUftAdapter.on_message (adapter_ p) message size p in
        let p := p <| adapter_ := adapter |> in
        let after := NasdaqItchUftAdapter.stats adapter in
        let p :=
          if inconsistent before after ||
             negb (DensePriceOrderBook.active_orders (book_ p) =?
                   NasdaqItchUftAdapter.active_orders adapter)
          then fault p "adapter/book state error; rebuild from trusted session replay" else p in
        if is_faulted (state_ p) then (p <| in_ingest_ := false |>, IngestFaulted, [])
        else
          let p := p <| next_ ::= incr |> in
          let recovered := bool_decide (state_ p = Recovering) && (high_water_ p <? next_ p) in
          let p := if recovered then p <| state_ := Live |> else p in
          let '(p, calls) :=
            if bool_decide (state_ p = Live) && (pending_ p || recovered) then
              let p := p <| callbacks_ ::= incr |> in
              let call := mkCall (book_ p) (if pending_ p then Some (last_ p) else None) sequence
                (net_volume_ p) in
              let reactions := match callback_ p with Some f => f call | None => [] end in
              (foldl react p reactions, [call])
            else (p, []) in
          let p := p <| in_ingest_ := false |> in
          (p, if is_faulted (state_ p) then IngestFaulted else Applied, calls)
  end.

Definition ready (p : t) : bool := started_ p && bool_decide (state_ p = Live).
Definition state (p : t) : BookFeedState := state_ p.
Definition next_sequence (p : t) : Z := next_ p.
Definition book (p : t) : Book := book_ p.
Definition net_printed_volume (p : t) : Z := net_volume_ p.
Definition strategy_callbacks (p : t) : Z := callbacks_ p.
Definition error (p : t) : option string := error_ p.
Definition session (p : t) : string := session_ p.
End UftOrderBookPipeline.
