(* ===== verification/UftAdapterFacts.v ===== *)
(** * What the adapter keeps, whatever the engine

    Publishing changes the adapter's counters only.  Each handler is shown to
    act on the finite maps its tables stand for, and the invariant of the
    active orders (known side, positive price and quantity) is preserved. *)

From Stdlib Require Import Ascii.
From S2P Require Import Prelude OpenAddressing FixedHashTable Itch50 UftTypes UftAdapter.
Import itch50 NasdaqItchUftAdapter.
Import (hints) UftAdapterStats.

(** ** Publications *)

(** Everything but the counters. *)
Definition same_tables (a a' : t) : Prop :=
  instrument_id_ a' = instrument_id_ a /\ locator_ a' = locator_ a /\
  source_sequence_ a' = source_sequence_ a /\ orders_ a' = orders_ a /\ matches_ a' = matches_ a.

Lemma same_tables_refl a : same_tables a a.
Proof. by split_and!. Qed.

Lemma same_tables_trans a b c : same_tables a b -> same_tables b c -> same_tables a c.
Proof. unfold same_tables. intuition congruence. Qed.

Lemma count_tables a f : same_tables a (count a f).
Proof. by split_and!. Qed.

#[export] Hint Resolve same_tables_refl count_tables : qtrader.

Ltac same_steps :=
  repeat match goal with
  | |- same_tables _ (if _ then _ else _) => case_match
  | |- same_tables _ (match _ with _ => _ end) => case_match
  | |- same_tables _ (count _ _) => eapply same_tables_trans; [|apply count_tables]
  end; try apply same_tables_refl.

Section publications.
Context {E : Type} `{MarketDataEngine E}.
Implicit Types (a : t) (engine : E).

Lemma malformed_tables a : same_tables a (malformed a).
Proof. apply count_tables. Qed.

Lemma count_insert_failure_tables a r : same_tables a (count_insert_failure a r).
Proof. destruct r; apply count_tables. Qed.

Lemma book_publish_tables a engine e : same_tables a (book_publish a engine e).1.
Proof.
  unfold book_publish. destruct publish_book_update as [pub|]; [|apply same_tables_refl].
  destruct (pub engine e) as [engine' d]. cbn [fst]. same_steps.
Qed.

Lemma emit_book_tables a engine m act id nid mid p q s pr :
  same_tables a (emit_book a engine m act id nid mid p q s pr).1.
Proof. apply book_publish_tables. Qed.

Lemma emit_order_tables a engine m id o : same_tables a (emit_order a engine m id o).1.
Proof.
  unfold emit_order. destruct (publish_order_detail _ _) as [engine' d]. cbn [fst]. same_steps.
Qed.

Lemma emit_transaction_tables a engine m tid ty s p q id :
  same_tables a (emit_transaction a engine m tid ty s p q id).1.
Proof.
  unfold emit_transaction. case_match; [apply malformed_tables|].
  destruct (publish_transaction _ _) as [engine' d]. cbn [fst]. same_steps.
Qed.
End publications.

(** ** The invariant *)

Record order_wf (o : Order.t) : Prop := {
  order_side : Order.side o <> UftSide.Unknown;
  order_price_range : 0 < Order.price_ticks o < 2 ^ 32;
  order_remaining_range : 0 < Order.remaining o < 2 ^ 32
}.

Record adapter_wf (a : t) : Prop := {
  adapter_orders : FixedHashTable.wf (orders_ a);
  adapter_matches : FixedHashTable.wf (matches_ a);
  adapter_order_wf : forall id o, FixedHashTable.view (orders_ a) !! id = Some o -> order_wf o;
  adapter_match_wf : forall id mt, FixedHashTable.view (matches_ a) !! id = Some mt -> 0 <= Match.quantity mt
}.

Lemma adapter_wf_tables a a' : same_tables a a' -> adapter_wf a -> adapter_wf a'.
Proof. intros (_ & _ & _ & Ho & Hm) []. constructor; by rewrite ?Ho, ?Hm. Qed.

Definition orders_view (a : t) : gmap Z Order.t := FixedHashTable.view (orders_ a).

(** The quantity taken off an order; gone when none is left. *)
Definition take_order (o : Order.t) (q : Z) : option Order.t :=
  if decide (Order.remaining o = q) then None
  else Some (o <| Order.remaining := Order.remaining o - q |>).

Lemma with_orders_wf a tab :
  adapter_wf a -> FixedHashTable.wf tab ->
  (forall id o, FixedHashTable.view tab !! id = Some o -> order_wf o) ->
  adapter_wf (a <| orders_ := tab |>).
Proof. intros Hwf Ht Ho. constructor; [done|apply Hwf|done|apply Hwf]. Qed.

Lemma erase_order_wf a id :
  adapter_wf a ->
  adapter_wf (a <| orders_ ::= fun tab => (FixedHashTable.erase tab id).1 |>) /\
  orders_view (a <| orders_ ::= fun tab => (FixedHashTable.erase tab id).1 |>) =
    delete id (orders_view a).
Proof.
  intros Hwf. destruct (FixedHashTable.erase (orders_ a) id) as [tab b] eqn:E.
  destruct (FixedHashTable.table_erase_wf_view _ _ _ _ (adapter_orders _ Hwf) E) as (Hw & _ & _ & Hv).
  change (a <| orders_ ::= fun tab => (FixedHashTable.erase tab id).1 |>)
    with (a <| orders_ := (FixedHashTable.erase (orders_ a) id).1 |>).
  rewrite E. split; [|done]. apply with_orders_wf; [done..|].
  cbn [fst]. intros k o. rewrite Hv, lookup_delete_Some. intros [_ Hk]. by apply (adapter_order_wf _ Hwf k).
Qed.

Lemma assign_order_wf a id o o' :
  adapter_wf a -> orders_view a !! id = Some o -> order_wf o' ->
  adapter_wf (a <| orders_ ::= fun tab => FixedHashTable.assign tab id o' |>) /\
  orders_view (a <| orders_ ::= fun tab => FixedHashTable.assign tab id o' |>) =
    <[id := o']> (orders_view a).
Proof.
  intros Hwf Hid Ho.
  destruct (FixedHashTable.table_assign_wf_view (orders_ a) id o' (adapter_orders _ Hwf) ltac:(by eexists))
    as (Hwf' & _ & Hv).
  split; [|done]. apply (with_orders_wf a (FixedHashTable.assign (orders_ a) id o')); [done..|].
  intros k o1. rewrite Hv, lookup_insert_Some.
  intros [[_ <-]|[_ Hk]]; [done|by apply (adapter_order_wf _ Hwf k)].
Qed.

(** Only the order table may change. *)
Definition same_others (a a' : t) : Prop :=
  instrument_id_ a' = instrument_id_ a /\ locator_ a' = locator_ a /\
  source_sequence_ a' = source_sequence_ a /\ matches_ a' = matches_ a.

Lemma take_others a id q : same_others a (take a id q).
Proof.
  unfold take. case_match; [|by split_and!]. case_match; by split_and!.
Qed.

Lemma take_spec a id q o :
  adapter_wf a -> orders_view a !! id = Some o -> 0 < q <= Order.remaining o ->
  adapter_wf (take a id q) /\
  orders_view (take a id q) =
    match take_order o q with
    | Some o' => <[id := o']> (orders_view a)
    | None => delete id (orders_view a)
    end.
Proof.
  intros Hwf Hid Hq. destruct (adapter_order_wf _ Hwf id o Hid) as [Hs Hp Hr].
  unfold take. rewrite FixedHashTable.table_find_spec by apply Hwf.
  unfold orders_view in Hid. rewrite Hid. rewrite wrap_small by lia. unfold take_order.
  destruct (Z.eqb_spec (Order.remaining o - q) 0) as [E|E].
  - rewrite decide_True by lia.
    set (o' := o <| Order.remaining := Order.remaining o - q |>).
    (* the zero-remaining record lives between the write and the erase only *)
    destruct (FixedHashTable.table_assign_wf_view (orders_ a) id o' (adapter_orders _ Hwf) ltac:(by eexists))
      as (Hwf1 & _ & Hv1).
    set (tab := FixedHashTable.assign _ _ _) in *.
    destruct (FixedHashTable.erase tab id) as [tab' ok] eqn:Ee.
    destruct (FixedHashTable.table_erase_wf_view _ _ _ _ Hwf1 Ee) as (Hwf2 & _ & _ & Hv2).
    match goal with |- adapter_wf ?x /\ _ =>
      change x with (a <| orders_ := (FixedHashTable.erase tab id).1 |>) end.
    rewrite Ee. cbn [fst]. rewrite Hv1, delete_insert_eq in Hv2.
    split; [apply with_orders_wf; [done..|]|].
    + intros k o1. rewrite Hv2, lookup_delete_Some. intros [_ Hk]. by apply (adapter_order_wf _ Hwf k).
    + unfold orders_view at 1. updates. cbn [orders_]. rewrite Hv2. done.
  - rewrite decide_False by lia.
    apply (assign_order_wf a id o (o <| Order.remaining := Order.remaining o - q |>)); [done..|].
    constructor; cbn; [done|done|lia].
Qed.

Lemma insert_match_wf a mid mt tab r :
  adapter_wf a -> 0 <= Match.quantity mt -> FixedHashTable.insert (matches_ a) mid mt = (tab, r) ->
  adapter_wf (a <| matches_ := tab |>).
Proof.
  intros Hwf Hq Hi. destruct (FixedHashTable.table_insert_wf_view _ _ _ _ _ (adapter_matches _ Hwf) Hi)
    as (Hw & _ & _ & Hv). constructor; [apply Hwf|done|apply Hwf|].
  intros k mt'. updates. cbn [matches_]. rewrite Hv.
  case_decide; [|by apply Hwf]. rewrite lookup_insert_Some.
  intros [[_ <-]|[_ Hk]]; [done|by apply (adapter_match_wf _ Hwf k)].
Qed.

Lemma insert_order_wf a id o tab r :
  adapter_wf a -> order_wf o -> FixedHashTable.insert (orders_ a) id o = (tab, r) ->
  adapter_wf (a <| orders_ := tab |>) /\
  orders_view (a <| orders_ := tab |>) =
    (if decide (r = FixedHashTable.Inserted) then <[id := o]> (orders_view a) else orders_view a) /\
  (r = FixedHashTable.Inserted -> orders_view a !! id = None /\ id <> 0).
Proof.
  intros Hwf Ho Hi. destruct (FixedHashTable.table_insert_wf_view _ _ _ _ _ (adapter_orders _ Hwf) Hi)
    as (Hw & _ & Hr & Hv). split_and!.
  - apply with_orders_wf; [done..|]. intros k o'. rewrite Hv.
    case_decide; [|by apply (adapter_order_wf _ Hwf k)]. rewrite lookup_insert_Some.
    intros [[_ <-]|[_ Hk]]; [done|by apply (adapter_order_wf _ Hwf k)].
  - done.
  - intros ->. unfold FixedHashTable.insert_result in Hr. unfold orders_view.
    repeat case_decide; try done. split; [|done]. by apply eq_None_not_Some.
Qed.

Lemma erase_match_wf a id :
  adapter_wf a -> adapter_wf (a <| matches_ ::= fun tab => (FixedHashTable.erase tab id).1 |>).
Proof.
  intros Hwf. destruct (FixedHashTable.erase (matches_ a) id) as [tab b] eqn:E.
  destruct (FixedHashTable.table_erase_wf_view _ _ _ _ (adapter_matches _ Hwf) E) as (Hw & _ & _ & Hv).
  change (a <| matches_ ::= fun tab => (FixedHashTable.erase tab id).1 |>)
    with (a <| matches_ := (FixedHashTable.erase (matches_ a) id).1 |>).
  rewrite E. constructor; [apply Hwf|done|apply Hwf|].
  intros k mt. updates. cbn [matches_ fst]. rewrite Hv, lookup_delete_Some.
  intros [_ Hk]. by apply (adapter_match_wf _ Hwf k).
Qed.

Lemma table_make_bound {V} `{Inhabited V} n (tab : FixedHashTable.t V) :
  0 <= n < 2 ^ 64 -> FixedHashTable.make n = Some tab -> 1 <= n <= 2 ^ 62.
Proof.
  intros Hn. unfold FixedHashTable.make. destruct (Z.eqb_spec n 0) as [->|]; [done|].
  destruct (Z.leb_spec n (2 ^ 62)); [lia|].
  by rewrite FixedHashTable.table_rounded_capacity_overflow by lia.
Qed.

Lemma make_wf id loc mo mm a :
  0 <= mo < 2 ^ 64 -> 0 <= mm < 2 ^ 64 -> make id loc mo mm = Some a ->
  adapter_wf a /\ orders_view a = ∅ /\ instrument_id_ a = id /\ locator_ a = loc.
Proof.
  intros Ho Hm. unfold make.
  destruct (FixedHashTable.make mo) as [to|] eqn:Eo; [|done].
  destruct (FixedHashTable.make mm) as [tm|] eqn:Em; [|done].
  destruct (FixedHashTable.table_make_ok (V := Order.t) mo) as (to' & Ho' & Hwo & Hvo & _);
    [by eapply table_make_bound|].
  destruct (FixedHashTable.table_make_ok (V := Match.t) mm) as (tm' & Hm' & Hwm & Hvm & _);
    [by eapply table_make_bound|].
  rewrite Eo in Ho'. rewrite Em in Hm'. injection Ho' as <-. injection Hm' as <-.
  cbn [mbind option_bind]. intros [= <-].
  split_and!; try done. constructor; [done|done|..];
    cbn [orders_ matches_]; rewrite ?Hvo, ?Hvm; intros k o; by rewrite lookup_empty.
Qed.

(** ** What a message does to the active orders

    The order replay of the feed, on a finite map: the reference the handlers
    are compared with. *)
Definition reduce_orders (orders : gmap Z Order.t) (id q : Z) : gmap Z Order.t :=
  match orders !! id with
  | Some o =>
      match take_order o q with
      | Some o' => <[id := o']> orders
      | None => delete id orders
      end
  | None => orders
  end.

Definition message_orders (orders : gmap Z Order.t) (message : list Z) : gmap Z Order.t :=
  let type := byte_at message 0 in
  let id := read_u64 (message +! 11) in
  if (type =? chr "A") || (type =? chr "F") then
    <[id := Order.mk (read_u32 (message +! 32)) (read_u32 (message +! 20))
              (side_of (byte_at message 19))]> orders
  else if (type =? chr "E") || (type =? chr "C") || (type =? chr "X") then
    reduce_orders orders id (read_u32 (message +! 19))
  else if type =? chr "D" then delete id orders
  else if type =? chr "U" then
    match orders !! id with
    | Some o =>
        <[read_u64 (message +! 19) :=
          Order.mk (read_u32 (message +! 31)) (read_u32 (message +! 27)) (Order.side o)]>
          (delete id orders)
    | None => orders
    end
  else orders.

(** ** Tables through publications *)

Lemma same_tables_view a a' : same_tables a a' -> orders_view a' = orders_view a.
Proof. intros (_ & _ & _ & Ho & _). unfold orders_view. by rewrite Ho. Qed.

Lemma same_tables_ids a a' :
  same_tables a a' -> instrument_id_ a' = instrument_id_ a /\ locator_ a' = locator_ a.
Proof. by intros (? & ? & _). Qed.

Lemma find_order a id : adapter_wf a -> FixedHashTable.find (orders_ a) id = orders_view a !! id.
Proof. intros Hwf. by apply FixedHashTable.table_find_spec, Hwf. Qed.

Lemma known_side s : is_unknown (side_of s) = false -> side_of s <> UftSide.Unknown.
Proof. by intros H%bool_decide_eq_false. Qed.
