(* ===== verification/Recorder.v ===== *)
(** * An adapter and the engine it publishes on

    The reference engine records what is published and delivers it once; and an
    adapter does the same on any two engines that deliver every event of its
    instrument exactly once. *)

From Stdlib Require Import Ascii.
From S2P Require Import Prelude FixedHashTable Itch50 UftTypes UftAdapter UftAdapterFacts.
Import itch50 NasdaqItchUftAdapter.
Import (hints) UftAdapterStats.

(** ** An engine that records *)

Inductive Published := OrderPublished (e : UftOrderDetail.t) | TransactionPublished (e : UftTransaction.t).

(** The reference: everything published is delivered, once. *)
Record Recorder := mkRecorder { recorded : list Published }.

#[global] Instance recorder_engine : MarketDataEngine Recorder := {|
  publish_order_detail r event := (mkRecorder (recorded r ++ [OrderPublished event]), 1);
  publish_transaction r event := (mkRecorder (recorded r ++ [TransactionPublished event]), 1);
  publish_book_update := None
|}.

(** ** The adapter does not depend on the engine *)

(** Every event published was delivered. *)
Definition delivered_all (s : UftAdapterStats.t) : Prop :=
  UftAdapterStats.order_events_delivered s = UftAdapterStats.order_details s /\
  UftAdapterStats.transaction_events_delivered s = UftAdapterStats.transactions s /\
  UftAdapterStats.undelivered_events s = 0 /\
  UftAdapterStats.callback_deliveries s = u64 (UftAdapterStats.order_details s + UftAdapterStats.transactions s).

Section same_engines.
Context {E1 E2 : Type} `{M1 : MarketDataEngine E1} `{M2 : MarketDataEngine E2}.
Context (R : E1 -> E2 -> Prop) (iid : Z).
Hypothesis order_same : forall e1 e2 event,
  R e1 e2 -> UftOrderDetail.instrument_id event = iid ->
  exists e1' e2', publish_order_detail e1 event = (e1', 1) /\ publish_order_detail e2 event = (e2', 1) /\ R e1' e2'.
Hypothesis transaction_same : forall e1 e2 event,
  R e1 e2 -> UftTransaction.instrument_id event = iid ->
  exists e1' e2', publish_transaction e1 event = (e1', 1) /\ publish_transaction e2 event = (e2', 1) /\ R e1' e2'.
Hypothesis no_book1 : publish_book_update (E := E1) = None.
Hypothesis no_book2 : publish_book_update (E := E2) = None.

Definition sound (a : t) : Prop := delivered_all (stats_ a) /\ instrument_id_ a = iid.

Definition agree (s1 : t * E1) (s2 : t * E2) : Prop := s1.1 = s2.1 /\ R s1.2 s2.2 /\ sound s1.1.

Lemma agree_quiet a e1 e2 : sound a -> R e1 e2 -> agree (a, e1) (a, e2).
Proof. done. Qed.

Lemma agree_book a e1 e2 m act id nid mid p q s pr :
  sound a -> R e1 e2 -> agree (emit_book a e1 m act id nid mid p q s pr) (emit_book a e2 m act id nid mid p q s pr).
Proof. intros Ha HR. unfold emit_book, book_publish. by rewrite no_book1, no_book2. Qed.

Lemma incr_sum x y : u64 (u64 (x + y) + 1) = u64 (incr x + y).
Proof.
  unfold incr. rewrite !wrap_add_l. f_equal. lia.
Qed.

Lemma agree_order a e1 e2 m id o :
  sound a -> R e1 e2 -> agree (emit_order a e1 m id o) (emit_order a e2 m id o).
Proof.
  intros [(H1 & H2 & H3 & H4) Hi] HR. unfold emit_order. cbv zeta.
  match goal with |- context [publish_order_detail e1 ?event] =>
    destruct (order_same e1 e2 event HR) as (e1' & e2' & -> & -> & HR'); [exact Hi|] end.
  cbn [Z.eqb]. split_and!; [done|exact HR'|]. split; [|exact Hi].
  unfold delivered_all. cbn. rewrite H1, H2, H3, H4, incr_sum. done.
Qed.

Lemma agree_transaction a e1 e2 m tid ty s p q id :
  sound a -> R e1 e2 ->
  agree (emit_transaction a e1 m tid ty s p q id) (emit_transaction a e2 m tid ty s p q id).
Proof.
  intros [(H1 & H2 & H3 & H4) Hi] HR. unfold emit_transaction. destruct (q =? 0); [done|].
  match goal with |- context [publish_transaction e1 ?event] =>
    destruct (transaction_same e1 e2 event HR) as (e1' & e2' & -> & -> & HR'); [exact Hi|] end.
  cbn [Z.eqb]. set (a' := count _ (fun s => s <| UftAdapterStats.transaction_events_delivered ::= incr |>)).
  assert (sound a') as Ha'.
  { split; [|exact Hi]. unfold delivered_all. cbn. rewrite H1, H2, H3, H4.
    split_and!; try done. rewrite (Z.add_comm (UftAdapterStats.order_details _)), incr_sum. f_equal. lia. }
  split_and!; [done|done|]. by destruct ty.
Qed.

(** A step after steps that agree. *)
Lemma agree_bind (s1 : t * E1) (s2 : t * E2) (k1 : t -> E1 -> t * E1) (k2 : t -> E2 -> t * E2) :
  agree s1 s2 -> (forall a e1 e2, sound a -> R e1 e2 -> agree (k1 a e1) (k2 a e2)) ->
  agree (let '(a, e) := s1 in k1 a e) (let '(a, e) := s2 in k2 a e).
Proof.
  destruct s1 as [a1 e1], s2 as [a2 e2]. intros (H1 & HR & Ha) Hk. cbn in *. subst a2. by apply Hk.
Qed.

Lemma agree_if (b : bool) (x1 y1 : t * E1) (x2 y2 : t * E2) :
  agree x1 x2 -> agree y1 y2 -> agree (if b then x1 else y1) (if b then x2 else y2).
Proof. by destruct b. Qed.

(** Changes of the tables. *)
Lemma sound_orders a f : sound a -> sound (a <| orders_ ::= f |>).
Proof. done. Qed.
Lemma sound_matches a f : sound a -> sound (a <| matches_ ::= f |>).
Proof. done. Qed.
Lemma sound_take a id q : sound a -> sound (take a id q).
Proof. intros Ha. unfold take. by repeat case_match. Qed.
Lemma sound_failure a r : sound a -> sound (count_insert_failure a r).
Proof. intros Ha. by destruct r. Qed.

Context (a : t) (e1 : E1) (e2 : E2) (message : list Z).
Hypothesis Ha : sound a.
Hypothesis HR : R e1 e2.

Lemma agree_add : agree (add a e1 message) (add a e2 message).
Proof.
  unfold add. destruct (_ || _); [done|]. destruct (FixedHashTable.insert _ _ _) as [orders []]; try done.
  apply agree_bind; [by apply agree_order|]. intros. by apply agree_book.
Qed.

Lemma agree_cancel_partial : agree (cancel_partial a e1 message) (cancel_partial a e2 message).
Proof.
  unfold cancel_partial. destruct (FixedHashTable.find _ _); [|done]. destruct (_ || _); [done|].
  apply agree_bind; [by apply agree_transaction|]. intros a1 f1 f2 Ha1 HR1.
  apply agree_bind; [by apply agree_book|]. intros. apply agree_quiet; [by apply sound_take|done].
Qed.

Lemma agree_cancel_all : agree (cancel_all a e1 message) (cancel_all a e2 message).
Proof.
  unfold cancel_all. destruct (FixedHashTable.find _ _); [|done].
  apply agree_bind; [by apply agree_transaction|]. intros a1 f1 f2 Ha1 HR1.
  apply agree_bind; [by apply agree_book|]. done.
Qed.

Lemma agree_replace : agree (replace a e1 message) (replace a e2 message).
Proof.
  unfold replace. destruct (FixedHashTable.find _ _); [|done]. destruct (_ || _); [done|]. cbv zeta.
  destruct (FixedHashTable.insert _ _ _) as [orders []]; try done.
  apply agree_bind; [by apply agree_transaction|]. intros a1 f1 f2 Ha1 HR1.
  apply agree_bind; [by apply agree_order|]. intros. by apply agree_book.
Qed.

Lemma agree_execute : agree (execute a e1 message) (execute a e2 message).
Proof.
  unfold execute. destruct (FixedHashTable.find _ _); [|done]. destruct (_ || _); [done|]. cbv zeta.
  destruct (_ || _); [done|].
  destruct (FixedHashTable.insert _ _ _) as [matches []] eqn:Hi; try done;
    (apply agree_bind;
     [apply agree_if; [done|by first [apply agree_transaction|apply agree_quiet]]|];
     intros a1 f1 f2 Ha1 HR1; apply agree_bind; [by apply agree_book|];
     intros; apply agree_quiet; [by apply sound_take|done]).
Qed.

Lemma agree_publish_match mid mt : agree (publish_match a e1 message mid mt) (publish_match a e2 message mid mt).
Proof.
  unfold publish_match. destruct (FixedHashTable.insert _ _ _) as [matches []]; try done.
  apply agree_bind; [by apply agree_book|]. intros. by apply agree_transaction.
Qed.

Lemma agree_broken_trade : agree (broken_trade a e1 message) (broken_trade a e2 message).
Proof.
  unfold broken_trade. destruct (FixedHashTable.find _ _) as [mt|]; [|done].
  apply agree_bind; [by apply agree_book|]. intros a1 f1 f2 Ha1 HR1.
  apply agree_bind; [|done]. destruct (Match.emitted mt); [by apply agree_transaction|done].
Qed.

End same_engines.

Section same_engines_message.
Context {E1 E2 : Type} `{M1 : MarketDataEngine E1} `{M2 : MarketDataEngine E2}.
Context (R : E1 -> E2 -> Prop) (iid : Z).
Hypothesis order_same : forall e1 e2 event,
  R e1 e2 -> UftOrderDetail.instrument_id event = iid ->
  exists e1' e2', publish_order_detail e1 event = (e1', 1) /\ publish_order_detail e2 event = (e2', 1) /\ R e1' e2'.
Hypothesis transaction_same : forall e1 e2 event,
  R e1 e2 -> UftTransaction.instrument_id event = iid ->
  exists e1' e2', publish_transaction e1 event = (e1', 1) /\ publish_transaction e2 event = (e2', 1) /\ R e1' e2'.
Hypothesis no_book1 : publish_book_update (E := E1) = None.
Hypothesis no_book2 : publish_book_update (E := E2) = None.

Lemma agree_message a e1 e2 message size :
  sound iid a -> R e1 e2 ->
  agree R iid (on_message a message size e1) (on_message a message size e2).
Proof.
  intros Ha HR. unfold on_message. destruct message as [message|]; [|done]. destruct (_ || _); [done|].
  set (a1 := a <| source_sequence_ ::= incr |>). assert (sound iid a1) as Ha1 by done. clearbody a1.
  case_match; [done|]. case_match; [by apply agree_add|]. case_match; [by apply agree_execute|].
  case_match; [by apply agree_cancel_partial|]. case_match; [by apply agree_cancel_all|].
  case_match; [by apply agree_replace|].
  case_match; [unfold non_cross_trade; case_match; [done|by apply agree_publish_match]|].
  case_match; [unfold cross_trade; case_match; [done|by apply agree_publish_match]|].
  case_match; [by apply agree_broken_trade|done].
Qed.
End same_engines_message.
