(* ===== verification/PipelineFacts.v ===== *)
(** * The book stage follows the adapter

    [mirrors b orders]: the dense book [b] holds exactly the adapter's active
    orders.  Each book update, applied by [apply], either faults the pipeline
    or keeps the book a mirror of the orders the adapter is left with; the
    printed volume is the sum over the match table throughout. *)

From Stdlib Require Import Ascii.
From stdpp Require Import strings.
From S2P Require Import Prelude OpenAddressing FixedHashTable OrderIndex BookTypes DenseBook DenseQueues DenseFeed.
From S2P Require Import BookFacts DenseQueries Itch50 UftTypes Engine UftAdapter UftAdapterFacts Pipeline.
Import UftOrderBookPipeline.

(** ** Mirrors *)

(** The resting order that stands for an active order. *)
Definition resting_of (id : Z) (o : Order.t) : Resting :=
  mkResting id (book_side (Order.side o)) (Order.price_ticks o) (Order.remaining o).

Definition mirrors (b : Book) (m : list Resting) (orders : gmap Z Order.t) : Prop :=
  represents b m /\ forall id, BookSpec.lookup m id = resting_of id <$> orders !! id.

Lemma represents_unique b m : represents b m -> unique_ids m.
Proof.
  intros (l & Hok & _ & <-). pose proof (used_nodup _ _ _ Hok) as Hnd. rewrite app_nil_r in Hnd.
  unfold unique_ids, orders. rewrite <- list_fmap_compose.
  apply NoDup_fmap_2_strong; [|done]. intros i j Hi Hj Hid.
  apply (used_ids_inj _ _ _ Hok); [by rewrite app_nil_r..|done].
Qed.

Lemma mirrors_empty b : represents b [] -> mirrors b [] ∅.
Proof. intros Hr. split; [done|]. intros id. by rewrite lookup_empty. Qed.

(** The mirror has as many orders as the map. *)
Lemma mirrors_active b m orders :
  mirrors b m orders -> DensePriceOrderBook.active_orders b = Z.of_nat (size orders).
Proof.
  intros (Hr & Hm). rewrite (active_represents b m Hr). f_equal.
  assert (list_to_set (map rest_id m) =@{gset Z} dom orders) as Hdom.
  { apply set_eq. intros id. rewrite elem_of_list_to_set, elem_of_dom, list_elem_of_fmap.
    specialize (Hm id). destruct (orders !! id) as [o|]; simpl in Hm.
    - split; [by eexists|]. intros _. apply lookup_id in Hm as [Hid Hin]. by exists (resting_of id o).
    - split; [|by intros [??]]. intros (o & -> & Ho).
      rewrite lookup_none in Hm. by apply Hm in Ho. }
  rewrite <- size_dom, <- Hdom, size_list_to_set, length_map; [done|by eapply represents_unique].
Qed.

Lemma mirrors_remaining b m orders id :
  mirrors b m orders ->
  DensePriceOrderBook.remaining_of b id = from_option Order.remaining 0 (orders !! id).
Proof.
  intros (Hr & Hm). rewrite (remaining_represents b m Hr), Hm. by destruct (orders !! id).
Qed.

Section book_updates.
Context (b : Book) (m : list Resting) (orders : gmap Z Order.t) (Hb : mirrors b m orders).

Lemma mirrors_add id o :
  orders !! id = None -> order_wf o ->
  (DensePriceOrderBook.feed_add b id (book_side (Order.side o)) (Order.price_ticks o)
    (Order.remaining o)).2 = true ->
  mirrors (DensePriceOrderBook.feed_add b id (book_side (Order.side o)) (Order.price_ticks o)
    (Order.remaining o)).1
    (BookSpec.add m id (book_side (Order.side o)) (Order.price_ticks o) (Order.remaining o))
    (<[id := o]> orders).
Proof.
  intros Hn [_ Hp Hq]. destruct Hb as (Hr & Hm).
  destruct (feed_add_represents b m id (book_side (Order.side o)) (Order.price_ticks o)
    (Order.remaining o) Hr ltac:(lia) ltac:(lia)) as [-> [Hr' _]].
  intros Hc. rewrite Hc in Hr'. split; [done|]. intros k.
  rewrite lookup_add by (by rewrite Hm, Hn). case_decide; subst.
  - by rewrite lookup_insert_eq.
  - by rewrite lookup_insert_ne, Hm by done.
Qed.

Lemma mirrors_reduce id q o :
  orders !! id = Some o -> 0 < q <= Order.remaining o -> order_wf o ->
  (DensePriceOrderBook.feed_reduce b id q).2 = true ->
  mirrors (DensePriceOrderBook.feed_reduce b id q).1 (BookSpec.reduce m id q)
    (match take_order o q with Some o' => <[id := o']> orders | None => delete id orders end).
Proof.
  intros Ho Hq [_ _ Hrem]. destruct Hb as (Hr & Hm).
  destruct (feed_reduce_represents b m id q Hr ltac:(lia)) as [-> [Hr' _]].
  intros Hc. rewrite Hc in Hr'. split; [done|]. intros k.
  rewrite lookup_reduce by (by eapply represents_unique). rewrite Hm, Ho. cbn [fmap option_fmap option_map mbind option_bind].
  unfold take_order, BookSpec.reduce_order. cbn [rest_id resting_of rest_remaining].
  rewrite (decide_True (P := id = id)) by done.
  destruct (decide (Order.remaining o = q)); case_decide; subst.
  - by rewrite lookup_delete_eq.
  - by rewrite lookup_delete_ne, Hm by done.
  - by rewrite lookup_insert_eq.
  - by rewrite lookup_insert_ne, Hm by done.
Qed.

Lemma mirrors_delete id o :
  orders !! id = Some o ->
  (DensePriceOrderBook.feed_delete b id).2 = true ->
  mirrors (DensePriceOrderBook.feed_delete b id).1 (BookSpec.remove m id) (delete id orders).
Proof.
  intros Ho _. destruct Hb as (Hr & Hm).
  destruct (feed_delete_represents b m id Hr) as [_ [Hr' _]].
  split; [done|]. intros k. rewrite lookup_remove. case_decide; subst.
  - by rewrite lookup_delete_eq.
  - by rewrite lookup_delete_ne, Hm by done.
Qed.

Lemma mirrors_replace old new o o' :
  orders !! old = Some o -> orders !! new = None -> Order.side o' = Order.side o -> order_wf o' ->
  (DensePriceOrderBook.feed_replace b old new (Order.price_ticks o') (Order.remaining o')).2 = true ->
  mirrors (DensePriceOrderBook.feed_replace b old new (Order.price_ticks o') (Order.remaining o')).1
    (BookSpec.replace m old new (Order.price_ticks o') (Order.remaining o'))
    (<[new := o']> (delete old orders)).
Proof.
  intros Ho Hn Hs [_ Hp Hq]. destruct Hb as (Hr & Hm).
  destruct (feed_replace_represents b m old new (Order.price_ticks o') (Order.remaining o') Hr
    ltac:(lia) ltac:(lia)) as [-> [Hr' _]].
  intros Hc. rewrite Hc in Hr'. split; [done|]. intros k.
  unfold BookSpec.replace. rewrite Hm, Ho. cbn [fmap option_fmap option_map].
  assert (new <> old) by congruence.
  rewrite lookup_add by (rewrite lookup_remove, Hm, Hn; by case_decide).
  rewrite lookup_remove, Hm. destruct (decide (k = new)) as [->|].
  - rewrite lookup_insert_eq. unfold resting_of. cbn. by rewrite Hs.
  - rewrite lookup_insert_ne by done. case_decide; subst.
    + by rewrite lookup_delete_eq.
    + by rewrite lookup_delete_ne.
Qed.
End book_updates.

(** ** The printed volume *)

Definition printed_quantity (m : Match.t) : Z :=
  if Match.printable m && negb (Match.busted m) then Match.quantity m else 0.

(** The quantity of the printable matches that were not broken. *)
Definition printed (ms : gmap Z Match.t) : Z := map_fold (fun _ m acc => printed_quantity m + acc) 0 ms.

Lemma printed_insert ms k m : ms !! k = None -> printed (<[k := m]> ms) = printed_quantity m + printed ms.
Proof. intros. unfold printed. rewrite map_fold_insert_L; [done|intros; lia|done]. Qed.

Lemma printed_delete ms k m : ms !! k = Some m -> printed ms = printed_quantity m + printed (delete k ms).
Proof.
  intros Hm. rewrite <- (insert_delete_id ms k m Hm) at 1. by rewrite printed_insert by apply lookup_delete_eq.
Qed.

Lemma printed_nonneg ms : (forall k m, ms !! k = Some m -> 0 <= Match.quantity m) -> 0 <= printed ms.
Proof.
  induction ms as [|k m ms Hk IH] using map_ind; [done|]. intros Hq.
  rewrite printed_insert by done. assert (0 <= printed ms).
  { apply IH. intros k' m' Hm'. apply (Hq k'). rewrite lookup_insert_ne; [done|congruence]. }
  specialize (Hq k m (lookup_insert_eq _ _ _)). unfold printed_quantity. case_match; lia.
Qed.

Record volume_ok (p : t) : Prop := {
  volume_matches : FixedHashTable.wf (matches_ p);
  volume_quantities : forall k m,
    FixedHashTable.view (matches_ p) !! k = Some m -> 0 <= Match.quantity m;
  volume_sum : net_volume_ p = printed (FixedHashTable.view (matches_ p));
  volume_bound : net_volume_ p < 2 ^ 64
}.

Lemma volume_range p : volume_ok p -> 0 <= net_volume_ p < 2 ^ 64.
Proof.
  intros [_ Hq Hs Hb]. rewrite Hs in *. split; [by apply printed_nonneg|done].
Qed.

(** ** What the book stage may change *)

(** The fields [apply] leaves alone; it may only fault, besides. *)
Record stage_frame (p p' : t) : Prop := {
  frame_session : session_ p' = session_ p;
  frame_next : next_ p' = next_ p;
  frame_high_water : high_water_ p' = high_water_ p;
  frame_callbacks : callbacks_ p' = callbacks_ p;
  frame_adapter : adapter_ p' = adapter_ p;
  frame_engine : engine_ p' = engine_ p;
  frame_callback : callback_ p' = callback_ p;
  frame_started : started_ p' = started_ p;
  frame_in_ingest : in_ingest_ p' = in_ingest_ p;
  frame_state : state_ p' = state_ p \/ state_ p' = Faulted
}.

Lemma stage_frame_refl p : stage_frame p p.
Proof. constructor; auto. Qed.

Lemma stage_frame_trans p q r : stage_frame p q -> stage_frame q r -> stage_frame p r.
Proof.
  intros [] []. constructor; try congruence. intuition congruence.
Qed.

Lemma fault_frame p reason : stage_frame p (fault p reason).
Proof. constructor; auto. Qed.

#[export] Hint Resolve stage_frame_refl fault_frame : qtrader.

Lemma record_frame p e : stage_frame p (record p e).1.
Proof.
  unfold record. case_match; [auto with qtrader|]. case_match; [auto with qtrader|].
  destruct (FixedHashTable.insert _ _ _) as [tab r]. destruct r; [case_match| | |]; constructor; auto.
Qed.

Lemma bust_frame p e : stage_frame p (bust p e).1.
Proof.
  unfold bust. case_match; [|auto with qtrader]. repeat case_match; constructor; auto.
Qed.

Lemma on_book_frame p op : stage_frame p (on_book p op).1.
Proof. unfold on_book. destruct (op (book_ p)). constructor; auto. Qed.

#[export] Hint Resolve record_frame bust_frame on_book_frame : qtrader.

Lemma apply_action_frame p e : stage_frame p (apply_action p e).1.
Proof.
  unfold apply_action. destruct (UftBookUpdate.action e) eqn:Ha;
    try (repeat case_match; auto with qtrader; fail).
  destruct (negb _); [|auto with qtrader].
  pose proof (on_book_frame p (fun b => DensePriceOrderBook.feed_reduce b
    (UftBookUpdate.order_id e) (UftBookUpdate.quantity e))) as Hf.
  destruct (on_book p _) as [p1 [|]]; [|auto with qtrader].
  eapply stage_frame_trans; [exact Hf|apply record_frame].
Qed.

Lemma apply_frame p e : stage_frame p (apply p e).
Proof.
  unfold apply. case_match; [auto with qtrader|].
  pose proof (apply_action_frame p e) as Hf. destruct (apply_action p e) as [p' ok]. cbn [fst] in Hf.
  eapply stage_frame_trans; [exact Hf|]. case_match; constructor; auto.
Qed.

(** ** Recording and breaking matches *)

Lemma record_book p e : book_ (record p e).1 = book_ p.
Proof. unfold record. repeat case_match; done. Qed.

Lemma bust_book p e : book_ (bust p e).1 = book_ p.
Proof. unfold bust. repeat case_match; done. Qed.

Lemma record_volume p e :
  volume_ok p -> 0 <= UftBookUpdate.quantity e -> volume_ok (record p e).1.
Proof.
  intros Hv Hq. pose proof (volume_range _ Hv) as Hr. destruct Hv as [Hwf Hqs Hs Hb]. unfold record.
  destruct (FixedHashTable.find _ _); [by constructor|].
  destruct (_ && _) eqn:Hfull; [by constructor|].
  destruct (FixedHashTable.insert (matches_ p) _ _) as [tab r] eqn:Ei.
  destruct (FixedHashTable.table_insert_wf_view _ _ _ _ _ Hwf Ei) as (Hwf' & _ & Hr' & Hview).
  destruct r; [|rewrite decide_False in Hview by done;
    constructor; cbn; rewrite ?Hview; done..].
  rewrite decide_True in Hview by done. unfold FixedHashTable.insert_result in Hr'.
  assert (FixedHashTable.view (matches_ p) !! UftBookUpdate.match_id e = None) as Hn.
  { apply eq_None_not_Some. intros ?. repeat case_decide; done. }
  assert (forall k m, FixedHashTable.view tab !! k = Some m -> 0 <= Match.quantity m) as Hqs'.
  { intros k m. rewrite Hview, lookup_insert_Some. intros [[_ <-]|[_ Hm]]; [done|by apply (Hqs k)]. }
  pose proof (printed_insert _ _ (Match.mk (UftBookUpdate.quantity e) (UftBookUpdate.printable e) false) Hn) as Hp.
  rewrite <- Hview in Hp. unfold printed_quantity in Hp. cbn in Hp.
  destruct (UftBookUpdate.printable e); cbn [andb negb] in *;
    constructor; cbn; rewrite ?wrap_small; done || lia.
Qed.

Lemma printed_member ms k m :
  (forall k m, ms !! k = Some m -> 0 <= Match.quantity m) -> ms !! k = Some m ->
  printed_quantity m <= printed ms.
Proof.
  intros Hq Hm. rewrite (printed_delete ms k m Hm).
  assert (0 <= printed (delete k ms)); [|lia]. apply printed_nonneg.
  intros k' m' [_ Hm']%lookup_delete_Some. by apply (Hq k').
Qed.

Lemma bust_volume p e : volume_ok p -> volume_ok (bust p e).1.
Proof.
  intros Hv. pose proof (volume_range _ Hv) as Hr. pose proof Hv as [Hwf Hqs Hs Hb]. unfold bust.
  rewrite FixedHashTable.table_find_spec by done.
  destruct (FixedHashTable.view (matches_ p) !! UftBookUpdate.match_id e) as [m|] eqn:Hm; [|done].
  destruct (Match.busted m) eqn:Hbust; [done|]. cbn [fst].
  pose proof (printed_member _ _ _ Hqs Hm) as Hle. pose proof (Hqs _ _ Hm) as Hqm.
  pose proof (printed_delete _ _ _ Hm) as Hd.
  set (m' := m <| Match.busted := true |>).
  destruct (FixedHashTable.table_assign_wf_view (matches_ p) (UftBookUpdate.match_id e) m' Hwf
    ltac:(by eexists)) as (Hwf' & _ & Hview).
  assert (printed (FixedHashTable.view (FixedHashTable.assign (matches_ p) (UftBookUpdate.match_id e) m'))
    = printed (FixedHashTable.view (matches_ p)) - printed_quantity m) as Hp.
  { rewrite Hview, Hd, (printed_delete _ (UftBookUpdate.match_id e) m') by apply lookup_insert_eq.
    rewrite delete_insert_eq. unfold printed_quantity, m'. cbn. rewrite andb_false_r. lia. }
  assert (forall k x, FixedHashTable.view (FixedHashTable.assign (matches_ p) (UftBookUpdate.match_id e) m')
    !! k = Some x -> 0 <= Match.quantity x) as Hqs'.
  { intros k x. rewrite Hview, lookup_insert_Some. intros [[_ <-]|[_ Hx]]; [done|by apply (Hqs k)]. }
  unfold printed_quantity in *. rewrite Hbust in *.
  destruct (Match.printable m); cbn [andb negb] in *; constructor; cbn; rewrite ?wrap_small;
    done || lia.
Qed.

Lemma on_book_volume p op : volume_ok p -> volume_ok (on_book p op).1.
Proof. intros []. unfold on_book. destruct (op (book_ p)). by constructor. Qed.

Lemma apply_action_volume p e :
  volume_ok p -> 0 <= UftBookUpdate.quantity e -> volume_ok (apply_action p e).1.
Proof.
  intros Hv Hq. unfold apply_action. destruct (UftBookUpdate.action e) eqn:Ha;
    try (repeat case_match; auto using on_book_volume, record_volume, bust_volume; fail).
  destruct (negb _); [|done].
  pose proof (on_book_volume p (fun b => DensePriceOrderBook.feed_reduce b
    (UftBookUpdate.order_id e) (UftBookUpdate.quantity e)) Hv) as Hf.
  destruct (on_book p _) as [p1 [|]]; [|done]. by apply record_volume.
Qed.

Lemma apply_volume p e : volume_ok p -> 0 <= UftBookUpdate.quantity e -> volume_ok (apply p e).
Proof.
  intros Hv Hq. unfold apply. case_match; [done|].
  pose proof (apply_action_volume p e Hv Hq) as [].
  destruct (apply_action p e) as [p' ok]. cbn [fst] in *. case_match; by constructor.
Qed.

(** ** One book update *)

(** Either the pipeline is faulted or its book mirrors [orders]. *)
Definition follows (p : t) (m : list Resting) (orders : gmap Z Order.t) : Prop :=
  state_ p = Faulted \/ mirrors (book_ p) m orders.

Lemma apply_follows p e m' orders' :
  ((apply_action p e).2 = true -> mirrors (book_ (apply_action p e).1) m' orders') ->
  (is_faulted (state_ p) = true \/ follows (apply p e) m' orders').
Proof.
  intros Ha. unfold apply. destruct (is_faulted (state_ p)) eqn:Hf; [by left|right].
  destruct (apply_action p e) as [p' ok]. cbn [fst snd] in Ha. destruct ok; [right; by apply Ha|by left].
Qed.

Lemma apply_faulted p e : state_ p = Faulted -> apply p e = p.
Proof. intros Hs. unfold apply. by rewrite Hs. Qed.

Section one_update.
Context (p : t) (e : UftBookUpdate.t) (m : list Resting) (orders : gmap Z Order.t).
Hypothesis Hf : follows p m orders.

Lemma follows_apply m' orders' :
  (mirrors (book_ p) m orders -> (apply_action p e).2 = true ->
   mirrors (book_ (apply_action p e).1) m' orders') ->
  follows (apply p e) m' orders'.
Proof.
  intros Ha. destruct Hf as [Hs|Hm]; [rewrite apply_faulted by done; by left|].
  destruct (apply_follows p e m' orders' (Ha Hm)) as [Hs%bool_decide_eq_true|]; [|done].
  rewrite apply_faulted by done. by left.
Qed.

Lemma follows_add id o :
  UftBookUpdate.action e = UftBookAction.Add -> UftBookUpdate.order_id e = id -> orders !! id = None ->
  order_wf o -> UftBookUpdate.side e = Order.side o ->
  UftBookUpdate.price_ticks e = Order.price_ticks o -> UftBookUpdate.quantity e = Order.remaining o ->
  follows (apply p e)
    (BookSpec.add m id (book_side (Order.side o)) (Order.price_ticks o) (Order.remaining o))
    (<[id := o]> orders).
Proof.
  intros Ha <- Hn Hwf Hs Hp Hq. apply follows_apply. intros Hm.
  unfold apply_action. rewrite Ha, Hs, Hp, Hq. case_match; [|done].
  unfold on_book. pose proof (mirrors_add _ _ _ Hm _ o Hn Hwf) as Hadd.
  destruct (DensePriceOrderBook.feed_add _ _ _ _ _) as [b ok]. exact Hadd.
Qed.

(** What [Reduce] and [Execution] make of the order. *)
Definition reduced (id q : Z) (o : Order.t) : gmap Z Order.t :=
  match take_order o q with Some o' => <[id := o']> orders | None => delete id orders end.

Lemma follows_reduce id q o :
  UftBookUpdate.action e = UftBookAction.Reduce \/ UftBookUpdate.action e = UftBookAction.Execution ->
  UftBookUpdate.order_id e = id -> UftBookUpdate.quantity e = q ->
  orders !! id = Some o -> order_wf o -> 0 < q <= Order.remaining o ->
  follows (apply p e) (BookSpec.reduce m id q) (reduced id q o).
Proof.
  intros Ha <- <- Ho Hwf Hq. apply follows_apply. intros Hm.
  pose proof (mirrors_reduce _ _ _ Hm _ _ _ Ho Hq Hwf) as Hred.
  unfold apply_action, on_book. destruct Ha as [->| ->]; (destruct (negb _); [|done]);
    destruct (DensePriceOrderBook.feed_reduce _ _ _) as [b ok]; [exact Hred|].
  destruct ok; [|done]. intros _. rewrite record_book. by apply Hred.
Qed.

Lemma follows_delete id o :
  UftBookUpdate.action e = UftBookAction.Delete -> UftBookUpdate.order_id e = id ->
  orders !! id = Some o -> follows (apply p e) (BookSpec.remove m id) (delete id orders).
Proof.
  intros Ha <- Ho. apply follows_apply. intros Hm. pose proof (mirrors_delete _ _ _ Hm _ _ Ho) as Hd.
  unfold apply_action, on_book. rewrite Ha.
  destruct (_ && _); [|done]. destruct (DensePriceOrderBook.feed_delete _ _) as [b ok]. exact Hd.
Qed.

Lemma follows_replace id new o o' :
  UftBookUpdate.action e = UftBookAction.Replace -> UftBookUpdate.order_id e = id ->
  UftBookUpdate.new_order_id e = new -> orders !! id = Some o -> orders !! new = None -> Order.side o' = Order.side o -> order_wf o' ->
  UftBookUpdate.price_ticks e = Order.price_ticks o' -> UftBookUpdate.quantity e = Order.remaining o' ->
  follows (apply p e)
    (BookSpec.replace m id new (Order.price_ticks o') (Order.remaining o'))
    (<[new := o']> (delete id orders)).
Proof.
  intros Ha <- <- Ho Hn Hs Hwf Hp Hq. apply follows_apply. intros Hm.
  pose proof (mirrors_replace _ _ _ Hm _ _ _ o' Ho Hn Hs Hwf) as Hr.
  unfold apply_action, on_book. rewrite Ha, Hp, Hq. destruct (negb _); [|done].
  destruct (DensePriceOrderBook.feed_replace _ _ _ _ _) as [b ok]. exact Hr.
Qed.

Lemma follows_trade :
  UftBookUpdate.action e = UftBookAction.Trade \/ UftBookUpdate.action e = UftBookAction.TradeBust ->
  follows (apply p e) m orders.
Proof.
  intros Ha. apply follows_apply. intros Hm. unfold apply_action.
  destruct Ha as [->| ->]; [destruct (negb _); [|done]; by rewrite record_book|by rewrite bust_book].
Qed.
End one_update.

(** ** The adapter on the pipeline *)

(** The engine is started and routes instrument 0 to the book stage. *)
Definition stage_running (p : t) : Prop :=
  UftMarketDataEngine.running_ (UftBookMarketDataEngine.base (engine_ p)) = true /\
  UftBookMarketDataEngine.slots_ (engine_ p) = [Some tt].

Lemma stage_running_frame p p' : stage_frame p p' -> stage_running p -> stage_running p'.
Proof. intros Hf. unfold stage_running. by rewrite (frame_engine _ _ Hf). Qed.

Lemma emit_order_pipeline a p message id o :
  (NasdaqItchUftAdapter.emit_order a p message id o).2 = p.
Proof. done. Qed.

Lemma emit_transaction_pipeline a p message tid ty s pr q id :
  (NasdaqItchUftAdapter.emit_transaction a p message tid ty s pr q id).2 = p.
Proof. unfold NasdaqItchUftAdapter.emit_transaction. by destruct (q =? 0). Qed.

(** The update the adapter publishes. *)
Definition book_update (a : NasdaqItchUftAdapter.t) (message : list Z) (act : UftBookAction.t)
    (id new_id match_id price quantity : Z) (side : UftSide.t) (pr : bool) : UftBookUpdate.t :=
  UftBookUpdate.mk (NasdaqItchUftAdapter.source_sequence_ a) (itch50.read_u48 (itch50.advance message 5))
    id new_id match_id price quantity (NasdaqItchUftAdapter.instrument_id_ a) side act pr.

Lemma emit_book_pipeline a p message act id nid mid pr q s b :
  stage_running p -> NasdaqItchUftAdapter.instrument_id_ a = 0 ->
  (NasdaqItchUftAdapter.emit_book a p message act id nid mid pr q s b).2 =
    apply p (book_update a message act id nid mid pr q s b).
Proof.
  intros [Hr Hs] Hid. unfold NasdaqItchUftAdapter.emit_book, NasdaqItchUftAdapter.book_publish.
  cbn [publish_book_update pipeline_engine]. fold (book_update a message act id nid mid pr q s b).
  unfold UftBookMarketDataEngine.publish_book_update, UftMarketDataEngine.running.
  rewrite Hr, Hs. unfold book_update. cbn [UftBookUpdate.instrument_id]. rewrite Hid. done.
Qed.

(** *** One message, handler by handler *)

Section handlers.
Import itch50 NasdaqItchUftAdapter.
Implicit Types (a : NasdaqItchUftAdapter.t) (p : UftOrderBookPipeline.t).

(** What holds after a handler: the message had exactly the effect [m'] and
    [orders'], or none on a mirror and the counters tell. *)
Record handled a p (m m' : list Resting) (orders' : gmap Z Order.t)
    (r : NasdaqItchUftAdapter.t * UftOrderBookPipeline.t) :
    Prop := {
  handled_adapter : adapter_wf r.1;
  handled_ids : instrument_id_ r.1 = instrument_id_ a /\ locator_ r.1 = locator_ a;
  handled_frame : stage_frame p r.2;
  handled_volume : volume_ok r.2;
  handled_follows :
    (follows r.2 m (orders_view r.1) /\ inconsistent (stats_ a) (stats_ r.1) = true) \/
    (follows r.2 m' (orders_view r.1) /\ orders_view r.1 = orders')
}.

Context a p (m : list Resting) (message : list Z).
Hypothesis Hwf : adapter_wf a.
Hypothesis Hid : instrument_id_ a = 0.
Hypothesis Hrun : stage_running p.
Hypothesis Hvol : volume_ok p.
Hypothesis Hfollows : follows p m (orders_view a).
Hypothesis Hbytes : Forall is_byte message.

(** The book stage was not called. *)
Lemma handled_quiet a' m' orders' :
  adapter_wf a' -> instrument_id_ a' = instrument_id_ a -> locator_ a' = locator_ a ->
  orders_view a' = orders_view a ->
  inconsistent (stats_ a) (stats_ a') = true \/ (m' = m /\ orders_view a' = orders') ->
  handled a p m m' orders' (a', p).
Proof.
  intros Hw Hi Hl Hv Hc. constructor; cbn [fst snd]; auto with qtrader. rewrite Hv in *.
  destruct Hc as [Hc|[-> Hc]]; auto.
Qed.

Lemma malformed_inconsistent a' :
  stats_ a' = stats_ a -> inconsistent (stats_ a) (stats_ (malformed a')) = true.
Proof.
  intros Hs. unfold inconsistent, malformed, count. updates. cbn. rewrite Hs.
  by rewrite incr_changes.
Qed.

Lemma insert_failure_inconsistent a' r :
  stats_ a' = stats_ a -> inconsistent (stats_ a) (stats_ (count_insert_failure a' r)) = true.
Proof.
  intros Hs. destruct r; try by apply malformed_inconsistent.
  unfold inconsistent, count_insert_failure, count. updates. cbn. rewrite Hs.
  by rewrite incr_changes, orb_true_r.
Qed.

Lemma handled_malformed m' orders' : handled a p m m' orders' (malformed a, p).
Proof.
  apply handled_quiet; [|done..|left; by apply malformed_inconsistent].
  by eapply adapter_wf_tables; [apply malformed_tables|].
Qed.

(** A refused insertion. *)
Lemma handled_refused a' r m' orders' :
  adapter_wf a' -> instrument_id_ a' = instrument_id_ a -> locator_ a' = locator_ a ->
  stats_ a' = stats_ a -> orders_view a' = orders_view a ->
  handled a p m m' orders' (count_insert_failure a' r, p).
Proof.
  intros Hw Hi Hl Hs Hv. pose proof (count_insert_failure_tables a' r) as Ht.
  destruct (same_tables_ids _ _ Ht) as [Hi' Hl'].
  apply handled_quiet; [by eapply adapter_wf_tables|congruence..| |].
  - rewrite <- Hv. by apply same_tables_view.
  - left. by apply insert_failure_inconsistent.
Qed.

(** One book update [e] was applied. *)
Lemma handled_update a' e m' orders' :
  adapter_wf a' -> instrument_id_ a' = instrument_id_ a -> locator_ a' = locator_ a ->
  0 <= UftBookUpdate.quantity e -> orders_view a' = orders' -> follows (apply p e) m' orders' ->
  handled a p m m' orders' (a', apply p e).
Proof.
  intros Hw Hi Hl Hq Hv Hf. constructor; cbn [fst snd]; auto using apply_frame, apply_volume.
  right. by rewrite Hv.
Qed.

(** Names the outcome of the next publication. *)
Tactic Notation "run_emit" ident(a') ident(p') ident(H) ident(H') :=
  match goal with
  | |- context [emit_order ?a ?p ?m ?id ?o] =>
      pose proof (emit_order_tables a p m id o) as H;
      pose proof (emit_order_pipeline a p m id o) as H';
      destruct (emit_order a p m id o) as [a' p']
  | |- context [emit_transaction ?a ?p ?m ?i ?ty ?s ?pr ?q ?id] =>
      pose proof (emit_transaction_tables a p m i ty s pr q id) as H;
      pose proof (emit_transaction_pipeline a p m i ty s pr q id) as H';
      destruct (emit_transaction a p m i ty s pr q id) as [a' p']
  | |- context [emit_book ?a ?p ?m ?act ?i ?n ?mid ?pr ?q ?s ?b] =>
      pose proof (emit_book_tables a p m act i n mid pr q s b) as H;
      pose proof (emit_book_pipeline a p m act i n mid pr q s b) as H';
      destruct (emit_book a p m act i n mid pr q s b) as [a' p']
  end; cbn [fst snd] in *.

(** The handlers that end with a book update, on an adapter [a1] whose tables
    are ready. *)
Lemma emit_book_handled a1 a2 m' orders' act id nid mid pr q s b :
  adapter_wf a1 -> instrument_id_ a1 = 0 -> locator_ a1 = locator_ a -> orders_view a1 = orders' ->
  same_tables a1 a2 -> 0 <= q ->
  (forall e, e = book_update a2 message act id nid mid pr q s b -> follows (apply p e) m' orders') ->
  handled a p m m' orders' (emit_book a2 p message act id nid mid pr q s b).
Proof.
  intros Hw Hi Hl Hv Ht Hq Hf. destruct (same_tables_ids _ _ Ht) as [Hi2 Hl2].
  run_emit a3 p3 Ht3 Hp3. rewrite Hp3 by (done || congruence).
  assert (same_tables a1 a3) as Ht' by (eapply same_tables_trans; eassumption).
  destruct (same_tables_ids _ _ Ht') as [Hi3 Hl3].
  apply handled_update; [by eapply adapter_wf_tables|congruence..|done| |by apply Hf].
  rewrite <- Hv. by apply same_tables_view.
Qed.

Lemma add_handled :
  handled a p m
    (BookSpec.add m (read_u64 (message +! 11)) (book_side (side_of (byte_at message 19)))
      (read_u32 (message +! 32)) (read_u32 (message +! 20)))
    (<[read_u64 (message +! 11) := Order.mk (read_u32 (message +! 32)) (read_u32 (message +! 20))
       (side_of (byte_at message 19))]> (orders_view a))
    (add a p message).
Proof.
  unfold add. destruct (_ || _) eqn:Hbad; [apply handled_malformed|].
  apply orb_false_iff in Hbad as [[Hs Hq]%orb_false_iff Hpr].
  apply known_side in Hs. apply Z.eqb_neq in Hq, Hpr.
  pose proof (read_u32_range (message +! 20) (advance_bytes _ _ Hbytes)).
  pose proof (read_u32_range (message +! 32) (advance_bytes _ _ Hbytes)).
  set (id := read_u64 _). set (o := Order.mk _ _ _).
  assert (order_wf o) as Ho by (constructor; cbn; [done|lia..]).
  destruct (FixedHashTable.insert (orders_ a) id o) as [tab r] eqn:Ei.
  destruct (insert_order_wf a id o tab r Hwf Ho Ei) as (Hw & Hv & Hins).
  destruct r; [|apply handled_refused; done..].
  rewrite decide_True in Hv by done. destruct (Hins eq_refl) as [Hn _].
  set (a1 := a <| orders_ := tab |>) in *.
  match goal with |- context [count a1 ?g] => set (a2 := count a1 g) end.
  run_emit a3 p3 Ht3 Hp3. subst p3.
  apply (emit_book_handled a1); [done..|by eapply same_tables_trans; [apply count_tables|]|lia|].
  intros e ->. by apply (follows_add p _ m (orders_view a) Hfollows id o).
Qed.

(** The tail of [execute] and [cancel_partial]. *)
Lemma emit_take_handled a1 a2 act id mid pr q s b o :
  act = UftBookAction.Reduce \/ act = UftBookAction.Execution ->
  adapter_wf a1 -> instrument_id_ a1 = 0 -> locator_ a1 = locator_ a ->
  orders_view a1 = orders_view a -> same_tables a1 a2 ->
  orders_view a !! id = Some o -> 0 < q <= Order.remaining o ->
  handled a p m (BookSpec.reduce m id q) (reduce_orders (orders_view a) id q)
    (let '(a', p') := emit_book a2 p message act id 0 mid pr q s b in (take a' id q, p')).
Proof.
  intros Hact Hw Hi Hl Hv Ht Ho Hq. destruct (same_tables_ids _ _ Ht) as [Hi2 Hl2].
  run_emit a3 p3 Ht3 Hp3. rewrite Hp3 by (done || congruence).
  assert (same_tables a1 a3) as Ht' by (eapply same_tables_trans; eassumption).
  assert (adapter_wf a3) as Hw3 by (by eapply adapter_wf_tables).
  assert (orders_view a3 = orders_view a) as Hv3 by (rewrite <- Hv; by apply same_tables_view).
  destruct (same_tables_ids _ _ Ht') as [Hi3 Hl3].
  destruct (take_others a3 id q) as (Hti & Htl & _).
  destruct (take_spec a3 id q o Hw3 ltac:(by rewrite Hv3) Hq) as [Hw4 Hv4].
  apply handled_update; [done|congruence..|cbn; lia| |].
  - rewrite Hv4, Hv3. unfold reduce_orders. by rewrite Ho.
  - unfold reduce_orders. rewrite Ho.
    apply (follows_reduce p _ m (orders_view a) Hfollows id q o); try done.
    by apply (adapter_order_wf _ Hwf id).
Qed.

Lemma execute_handled :
  handled a p m (BookSpec.reduce m (read_u64 (message +! 11)) (read_u32 (message +! 19)))
    (reduce_orders (orders_view a) (read_u64 (message +! 11)) (read_u32 (message +! 19)))
    (execute a p message).
Proof.
  unfold execute. rewrite find_order by done.
  destruct (orders_view a !! _) as [o|] eqn:Ho; [|apply handled_malformed].
  destruct (_ || _) eqn:Hq; [apply handled_malformed|].
  apply orb_false_iff in Hq as [Hq0%Z.eqb_neq Hq1%Z.ltb_ge].
  pose proof (read_u32_range (message +! 19) (advance_bytes _ _ Hbytes)).
  match goal with |- context [if ?c then (malformed a, p) else _] => destruct c end;
    [apply handled_malformed|].
  set (printable := negb (byte_at message 0 =? chr "C") || (byte_at message 31 =? chr "Y")).
  match goal with |- context [FixedHashTable.insert _ ?mid ?mt] =>
    destruct (FixedHashTable.insert (matches_ a) mid mt) as [tab r] eqn:Ei end.
  assert (adapter_wf (a <| matches_ := tab |>)) as Hw
    by (eapply insert_match_wf; [done| |exact Ei]; cbn; lia).
  set (a1 := a <| matches_ := tab |>) in *.
  destruct r; [| |apply handled_refused; done..].
  all: match goal with |- context [let '(_, _) := ?x in let '(_, _) := emit_book _ _ _ _ _ _ _ _ _ _ _ in _] =>
    assert (same_tables a1 x.1 /\ x.2 = p) as [Ht Hp];
    [|destruct x as [a2 p2]; cbn [fst snd] in Ht, Hp; subst p2;
      eapply (emit_take_handled a1); eauto; lia] end.
  all: destruct (negb printable); [split; [apply count_tables|done]|].
  - split; [apply emit_transaction_tables|apply emit_transaction_pipeline].
  - split; [apply count_tables|done].
Qed.

Lemma cancel_partial_handled :
  handled a p m (BookSpec.reduce m (read_u64 (message +! 11)) (read_u32 (message +! 19)))
    (reduce_orders (orders_view a) (read_u64 (message +! 11)) (read_u32 (message +! 19)))
    (cancel_partial a p message).
Proof.
  unfold cancel_partial. rewrite find_order by done.
  destruct (orders_view a !! _) as [o|] eqn:Ho; [|apply handled_malformed].
  destruct (_ || _) eqn:Hq; [apply handled_malformed|].
  apply orb_false_iff in Hq as [Hq0%Z.eqb_neq Hq1%Z.ltb_ge].
  pose proof (read_u32_range (message +! 19) (advance_bytes _ _ Hbytes)).
  run_emit a2 p2 Ht2 Hp2. subst p2. eapply (emit_take_handled a); eauto. lia.
Qed.

Lemma cancel_all_handled :
  handled a p m (BookSpec.remove m (read_u64 (message +! 11)))
    (delete (read_u64 (message +! 11)) (orders_view a)) (cancel_all a p message).
Proof.
  unfold cancel_all. rewrite find_order by done. set (id := read_u64 _).
  destruct (orders_view a !! id) as [o|] eqn:Ho; [|apply handled_malformed].
  pose proof (adapter_order_wf _ Hwf _ _ Ho) as [_ _ Hrem].
  run_emit a2 p2 Ht2 Hp2. subst p2. destruct (same_tables_ids _ _ Ht2) as [Hi2 Hl2].
  run_emit a3 p3 Ht3 Hp3. rewrite Hp3 by (done || congruence).
  assert (same_tables a a3) as Ht' by (eapply same_tables_trans; eassumption).
  destruct (same_tables_ids _ _ Ht') as [Hi3 Hl3].
  destruct (erase_order_wf a3 id) as [Hw4 Hv4]; [by eapply adapter_wf_tables|].
  apply handled_update; [done..|cbn; lia| |].
  - rewrite Hv4. f_equal. by apply same_tables_view.
  - by apply (follows_delete p _ m (orders_view a) Hfollows id o).
Qed.

Lemma replace_handled :
  handled a p m
    (BookSpec.replace m (read_u64 (message +! 11)) (read_u64 (message +! 19))
      (read_u32 (message +! 31)) (read_u32 (message +! 27)))
    (match orders_view a !! read_u64 (message +! 11) with
     | Some o =>
         <[read_u64 (message +! 19) :=
           Order.mk (read_u32 (message +! 31)) (read_u32 (message +! 27)) (Order.side o)]>
           (delete (read_u64 (message +! 11)) (orders_view a))
     | None => orders_view a
     end)
    (replace a p message).
Proof.
  unfold replace. rewrite !find_order by done.
  set (old := read_u64 (message +! 11)). set (new := read_u64 (message +! 19)).
  destruct (orders_view a !! old) as [o|] eqn:Ho; [|apply handled_malformed].
  destruct (_ || _) eqn:Hbad; [apply handled_malformed|].
  apply orb_false_iff in Hbad as [[[Hnew Hq]%orb_false_iff Hpr]%orb_false_iff Hfree].
  apply Z.eqb_neq in Hnew, Hq, Hpr. apply bool_decide_eq_false, eq_None_not_Some in Hfree.
  pose proof (read_u32_range (message +! 27) (advance_bytes _ _ Hbytes)).
  pose proof (read_u32_range (message +! 31) (advance_bytes _ _ Hbytes)).
  pose proof (adapter_order_wf _ Hwf _ _ Ho) as [Hs _ _].
  set (o' := Order.mk _ _ _).
  assert (order_wf o') as Ho' by (constructor; cbn; [done|lia..]).
  destruct (erase_order_wf a old Hwf) as [Hw1 Hv1].
  set (a1 := a <| orders_ ::= _ |>) in *.
  destruct (FixedHashTable.insert (orders_ a1) new o') as [tab r] eqn:Ei.
  destruct (insert_order_wf a1 new o' tab r Hw1 Ho' Ei) as (Hw & Hv & Hins).
  assert (r = FixedHashTable.Inserted) as ->.
  { destruct (FixedHashTable.erase (orders_ a) old) as [tab1 ok] eqn:Ee.
    destruct (FixedHashTable.table_erase_wf_view _ _ _ _ (adapter_orders _ Hwf) Ee) as (Hwt & Hmax & _ & Hvt).
    assert (orders_ a1 = tab1) as Ht1 by (unfold a1; updates; cbn [orders_]; by rewrite Ee).
    destruct (FixedHashTable.table_insert_wf_view _ _ _ _ _ (adapter_orders _ Hw1) Ei) as (_ & _ & -> & _).
    unfold FixedHashTable.insert_result. rewrite Ht1, Hvt, Hmax.
    rewrite !decide_False; [done| | |done].
    2: { rewrite lookup_delete_ne by congruence. unfold orders_view in Hfree. rewrite Hfree.
      by intros [??]. }
    pose proof (FixedHashTable.wf_bound _ (adapter_orders _ Hwf)) as Hb.
    rewrite (FixedHashTable.wf_size _ (adapter_orders _ Hwf)) in Hb.
    assert (size (FixedHashTable.view (orders_ a)) <> 0%nat) by (rewrite map_size_ne_0_lookup; by eexists).
    rewrite map_size_delete_Some by (by eexists). lia. }
  rewrite decide_True in Hv by done. rewrite Hv1 in Hv.
  set (a2 := a1 <| orders_ := tab |>) in *.
  run_emit a3 p3 Ht3 Hp3. subst p3. run_emit a4 p4 Ht4 Hp4. subst p4.
  apply (emit_book_handled a2); [done..|by eapply same_tables_trans|lia|].
  intros e ->. by apply (follows_replace p _ m (orders_view a) Hfollows old new o o').
Qed.

(** Matches leave the orders alone. *)
Lemma publish_match_handled mid mt :
  0 <= UftAdapter.Match.quantity mt -> handled a p m m (orders_view a) (publish_match a p message mid mt).
Proof.
  intros Hq. unfold publish_match.
  destruct (FixedHashTable.insert (matches_ a) mid mt) as [tab r] eqn:Ei.
  pose proof (insert_match_wf _ _ _ _ _ Hwf Hq Ei) as Hw.
  set (a1 := a <| matches_ := tab |>) in *.
  destruct r; [| |apply handled_refused; done..].
  2: { apply handled_quiet; [by apply (adapter_wf_tables a1); [apply count_tables|]|done..|by right]. }
  run_emit a2 p2 Ht2 Hp2. rewrite Hp2 by done. run_emit a3 p3 Ht3 Hp3. subst p3.
  assert (same_tables a1 a3) as Ht by (by eapply same_tables_trans).
  destruct (same_tables_ids _ _ Ht) as [Hi Hl].
  apply handled_update; [by eapply adapter_wf_tables|done..|by apply (same_tables_view a1)|].
  apply follows_trade; [done|by left].
Qed.

Lemma non_cross_trade_handled : handled a p m m (orders_view a) (non_cross_trade a p message).
Proof.
  unfold non_cross_trade. destruct (_ || _); [apply handled_malformed|].
  apply publish_match_handled. cbn. by apply read_u32_range, advance_bytes.
Qed.

Lemma cross_trade_handled : handled a p m m (orders_view a) (cross_trade a p message).
Proof.
  unfold cross_trade. destruct (_ || _); [apply handled_malformed|].
  apply publish_match_handled. cbn. by apply read_u64_range, advance_bytes.
Qed.

Lemma broken_trade_handled :
  handled a p m m (orders_view a) (broken_trade a p message).
Proof.
  unfold broken_trade. rewrite FixedHashTable.table_find_spec by apply Hwf.
  destruct (FixedHashTable.view (matches_ a) !! _) as [mt|] eqn:Hm.
  2: { apply handled_quiet; [by apply (adapter_wf_tables a); [apply count_tables|]|done..|].
    left. unfold inconsistent, count. updates. cbn. by rewrite incr_changes, !orb_true_r. }
  run_emit a2 p2 Ht2 Hp2. rewrite Hp2 by done.
  match goal with |- context [let '(_, _) := ?x in _] =>
    assert (same_tables a2 x.1 /\ x.2 = apply p (book_update a message UftBookAction.TradeBust
      (Match.order_id mt) 0 (read_u64 (message +! 11)) (Match.price_ticks mt)
      (UftAdapter.Match.quantity mt) (Match.side mt) (Match.emitted mt))) as [Ht Hp];
    [|destruct x as [a3 p3]; cbn [fst snd] in Ht, Hp; subst p3] end.
  - destruct (Match.emitted mt); [|split; [apply count_tables|done]].
    split; [apply emit_transaction_tables|apply emit_transaction_pipeline].
  - assert (same_tables a a3) as Ht' by (by eapply same_tables_trans).
    destruct (same_tables_ids _ _ Ht') as [Hi Hl].
    apply handled_update; [|done|done| | |].
    + apply erase_match_wf. by eapply adapter_wf_tables.
    + by apply (adapter_match_wf _ Hwf _ _ Hm).
    + exact (same_tables_view a a3 Ht').
    + apply follows_trade; [done|by right].
Qed.

End handlers.

(** The replay of a message on the list of resting orders. *)
Definition message_book (m : list Resting) (message : list Z) : list Resting :=
  let read_u32 i := itch50.read_u32 (itch50.advance message i) in
  let read_u64 i := itch50.read_u64 (itch50.advance message i) in
  let type_is c := itch50.byte_at message 0 =? itch50.chr c in
  if type_is "A"%char || type_is "F"%char then
    BookSpec.add m (read_u64 11) (book_side (NasdaqItchUftAdapter.side_of (itch50.byte_at message 19)))
      (read_u32 32) (read_u32 20)
  else if type_is "E"%char || type_is "C"%char || type_is "X"%char then BookSpec.reduce m (read_u64 11) (read_u32 19)
  else if type_is "D"%char then BookSpec.remove m (read_u64 11)
  else if type_is "U"%char then BookSpec.replace m (read_u64 11) (read_u64 19) (read_u32 31) (read_u32 27)
  else m.

(** The dispatch of [on_message]; only this instrument's messages count. *)
Lemma on_message_handled a p m message size :
  adapter_wf a -> NasdaqItchUftAdapter.instrument_id_ a = 0 -> stage_running p -> volume_ok p ->
  follows p m (orders_view a) -> Forall itch50.is_byte message -> 11 <= size ->
  size = itch50.expected_message_size (itch50.byte_at message 0) ->
  handled a p m
    (if itch50.read_u16 (itch50.advance message 1) =? NasdaqItchUftAdapter.locator_ a
     then message_book m message else m)
    (if itch50.read_u16 (itch50.advance message 1) =? NasdaqItchUftAdapter.locator_ a
     then message_orders (orders_view a) message else orders_view a)
    (NasdaqItchUftAdapter.on_message a (Some message) size p).
Proof.
  intros Hwf Hid Hrun Hvol Hf Hbytes Hsize Hexp. unfold NasdaqItchUftAdapter.on_message.
  destruct (Z.ltb_spec size 11); [lia|]. cbn [orb].
  destruct (_ =? NasdaqItchUftAdapter.locator_ a); cbn [negb].
  2: { apply handled_quiet; auto. }
  rewrite <- Hexp, Z.eqb_refl. cbn [negb]. unfold message_orders, message_book. clear Hexp Hsize.
  set (a' := a <| NasdaqItchUftAdapter.source_sequence_ ::= incr |>).
  assert (adapter_wf a') as Hwf' by (constructor; apply Hwf).
  change (orders_view a) with (orders_view a').
  assert (forall m' orders' r, handled a' p m m' orders' r -> handled a p m m' orders' r) as Hsame.
  { intros m' orders' r []. by constructor. }
  destruct (_ || _); [by apply Hsame, add_handled|].
  match goal with |- context [if ?c then NasdaqItchUftAdapter.execute _ _ _ else _] =>
    destruct c end; cbn [orb]; [by apply Hsame, execute_handled|].
  destruct (_ =? _); [by apply Hsame, cancel_partial_handled|].
  destruct (_ =? _); [by apply Hsame, cancel_all_handled|].
  destruct (_ =? _); [by apply Hsame, replace_handled|].
  destruct (_ =? _); [by apply Hsame, non_cross_trade_handled|].
  destruct (_ =? _); [by apply Hsame, cross_trade_handled|].
  destruct (_ =? _); [by apply Hsame, broken_trade_handled|].
  apply handled_quiet; auto.
Qed.
