(* ===== verification/PipelineProperties.v ===== *)
(** * Properties of the order-book pipeline

    Histories of calls on a pipeline that [make] built: the book is the replay
    of exactly the applied messages, in sequence and once each; the strategy
    sees it only between messages and with every known gap filled; a fault is
    final; the net printed volume never wraps. *)

From Stdlib Require Import Ascii.
From stdpp Require Import strings.
From S2P Require Import Prelude OpenAddressing FixedHashTable OrderIndex BookTypes DenseBook DenseQueues DenseFeed.
From S2P Require Import BookFacts DenseQueries DenseProperties Itch50 UftTypes Engine UftAdapter.
From S2P Require Import UftAdapterFacts Pipeline PipelineFacts Samples.
Import UftOrderBookPipeline.

(** ** Histories *)

Inductive Call :=
  | StartCall (strategy : option Z) (callback : option Strategy)
  | IngestCall (session : string) (sequence : Z) (message : option (list Z)) (size : Z)
  | NoteGapCall (highest_sequence : Z)
  | InvalidateCall.

(** Buffers hold bytes, sequence numbers are 64-bit. *)
Definition call_ok (c : Call) : Prop :=
  match c with
  | IngestCall _ sequence message _ =>
      0 <= sequence < 2 ^ 64 /\ match message with Some bytes => Forall itch50.is_byte bytes | None => True end
  | _ => True
  end.

(** The new state, the [size] bytes of the message taken by the call ([next_]
    moved past it), and the strategy's calls. *)
Definition pipeline_call (p : t) (c : Call) : t * list (Z * list Z) * list StrategyCall :=
  match c with
  | StartCall strategy callback => ((start p strategy callback).1, [], [])
  | IngestCall session sequence message size =>
      let '(p', _, calls) := ingest p session sequence message size in
      (p', match message with
           | Some bytes => if next_ p' =? next_ p then [] else [(sequence, take (Z.to_nat size) bytes)]
           | None => []
           end, calls)
  | NoteGapCall h => (note_gap p h, [], [])
  | InvalidateCall => (invalidate p, [], [])
  end.

Fixpoint run (p : t) (cs : list Call) : t * list (Z * list Z) * list StrategyCall :=
  match cs with
  | [] => (p, [], [])
  | c :: cs' =>
      let '(p, applied, calls) := pipeline_call p c in
      let '(p, applied', calls') := run p cs' in (p, applied ++ applied', calls ++ calls')
  end.

(** ** The replay of the feed *)

Section replay.
Context (locator : Z).

Definition replay_book (m : list Resting) (message : list Z) : list Resting :=
  if itch50.read_u16 (itch50.advance message 1) =? locator then message_book m message else m.

Definition replay_orders (orders : gmap Z Order.t) (message : list Z) : gmap Z Order.t :=
  if itch50.read_u16 (itch50.advance message 1) =? locator
  then message_orders orders message else orders.
End replay.

(** Both read the message's own bytes only. *)
Section trim.
Import itch50.

Context (size : Z) (bytes : list Z).
Hypothesis Hsize : 11 <= size.
Hypothesis Hexp : size = expected_message_size (byte_at bytes 0).

(** Rewrites every read of the trimmed message, [size] being that of the type. *)
Ltac trim_reads :=
  repeat match goal with
  | |- context [byte_at bytes 0 =? chr ?c] =>
      destruct (Z.eqb_spec (byte_at bytes 0) (chr c)); cbn [orb]; cbv iota
  end;
  repeat match goal with
  | Ht : byte_at bytes 0 = chr _ |- _ => rewrite Ht in Hexp; vm_compute in Hexp; clear Ht
  end;
  rewrite ?read_u64_take, ?read_u32_take, ?byte_at_take by lia; try done.

Lemma message_book_trim m : message_book m (take (Z.to_nat size) bytes) = message_book m bytes.
Proof. unfold message_book. rewrite byte_at_take by lia. trim_reads. Qed.

Lemma message_orders_trim orders :
  message_orders orders (take (Z.to_nat size) bytes) = message_orders orders bytes.
Proof. unfold message_orders. rewrite byte_at_take by lia. trim_reads. Qed.

Lemma replay_trim locator m orders :
  replay_book locator m (take (Z.to_nat size) bytes) = replay_book locator m bytes /\
  replay_orders locator orders (take (Z.to_nat size) bytes) = replay_orders locator orders bytes.
Proof.
  unfold replay_book, replay_orders. rewrite read_u16_take by lia.
  by rewrite message_book_trim, message_orders_trim.
Qed.
End trim.

(** ** The invariant between calls *)

Record pipeline_wf (p : t) (m : list Resting) (orders : gmap Z Order.t) : Prop := {
  wf_adapter : adapter_wf (adapter_ p);
  wf_instrument : NasdaqItchUftAdapter.instrument_id_ (adapter_ p) = 0;
  wf_volume : volume_ok p;
  wf_book : state_ p = Faulted \/ (mirrors (book_ p) m orders /\ orders_view (adapter_ p) = orders);
  wf_slots : UftBookMarketDataEngine.slots_ (engine_ p) = [Some tt];
  wf_started : started_ p = true ->
    UftMarketDataEngine.running_ (UftBookMarketDataEngine.base (engine_ p)) = true;
  wf_next : 1 <= next_ p <= u64_max;
  wf_live : state_ p = Live -> high_water_ p < next_ p;
  wf_idle : in_ingest_ p = false
}.

Lemma wf_running p m orders : pipeline_wf p m orders -> started_ p = true -> stage_running p.
Proof. intros Hwf Hs. split; [by apply Hwf|apply Hwf]. Qed.

(** Faults keep it. *)
Lemma fault_wf p m orders m' orders' reason :
  pipeline_wf p m orders -> pipeline_wf (fault p reason) m' orders'.
Proof. intros []. constructor; cbn; auto; try done. by destruct wf_volume0; constructor. Qed.

(** ** Each call *)

Lemma start_wf p m orders s f :
  pipeline_wf p m orders ->
  pipeline_wf (start p s f).1 m orders /\ state_ (start p s f).1 = state_ p /\
  next_ (start p s f).1 = next_ p.
Proof.
  intros Hwf. unfold start. destruct (_ || _); [done|]. destruct f as [f|]; [|done].
  unfold UftMarketDataEngine.start.
  destruct (UftMarketDataEngine.configuration_frozen_ _).
  - split; [|done]. destruct Hwf. constructor; cbn; auto; try done. by destruct wf_volume0; constructor.
  - destruct (UftMarketDataEngine.init_strategies _ _ _ _ _) as [e ok].
    destruct ok; (split; [|done]); destruct Hwf; constructor; cbn; auto; try done;
      by destruct wf_volume0; constructor.
Qed.

Lemma note_gap_wf p m orders h :
  pipeline_wf p m orders -> pipeline_wf (note_gap p h) m orders.
Proof.
  intros Hwf. unfold note_gap. destruct (_ || _) eqn:Hn; [done|].
  apply orb_false_iff in Hn as [Hs%bool_decide_eq_false _]. destruct Hwf.
  constructor; cbn; auto; try done; [by destruct wf_volume0; constructor|].
  by destruct wf_book0; [|right].
Qed.

Lemma react_fields p r :
  book_ (react p r) = book_ p /\ adapter_ (react p r) = adapter_ p /\
  net_volume_ (react p r) = net_volume_ p /\ next_ (react p r) = next_ p /\
  high_water_ p <= high_water_ (react p r).
Proof. destruct r; unfold react, note_gap; try case_match; cbn; split_and!; done || lia. Qed.

(** The invariant with [in_ingest_] set, during the callback. *)
Definition pipeline_inside (p : t) (m : list Resting) (orders : gmap Z Order.t) : Prop :=
  pipeline_wf (p <| in_ingest_ := false |>) m orders.

Lemma react_inside p m orders r : pipeline_inside p m orders -> pipeline_inside (react p r) m orders.
Proof.
  unfold pipeline_inside. intros Hwf. destruct r; cbn [react].
  - exact (fault_wf (p <| in_ingest_ := false |>) m orders m orders _ Hwf).
  - exact (fault_wf (p <| in_ingest_ := false |>) m orders m orders _ Hwf).
  - pose proof (note_gap_wf _ m orders highest_sequence Hwf) as Hg.
    unfold note_gap in *. cbn in Hg. by destruct (_ || _).
Qed.

Lemma reactions_inside p m orders rs :
  pipeline_inside p m orders ->
  pipeline_inside (foldl react p rs) m orders /\ book_ (foldl react p rs) = book_ p /\
  adapter_ (foldl react p rs) = adapter_ p /\ net_volume_ (foldl react p rs) = net_volume_ p /\
  next_ (foldl react p rs) = next_ p /\ high_water_ p <= high_water_ (foldl react p rs).
Proof.
  revert p. induction rs as [|r rs IH]; intros p Hi; [by split_and!|]. cbn [foldl].
  destruct (react_fields p r) as (Hb & Ha & Hv & Hn & Hh).
  destruct (IH _ (react_inside _ _ _ r Hi)) as (? & -> & -> & -> & -> & ?). split_and!; [done..|lia].
Qed.

(** The message stage of [ingest]: everything before the notification. *)
Lemma message_stage p m orders bytes size a' p1 :
  pipeline_wf p m orders -> started_ p = true -> state_ p <> Faulted ->
  Forall itch50.is_byte bytes -> 11 <= size ->
  size = itch50.expected_message_size (itch50.byte_at bytes 0) ->
  NasdaqItchUftAdapter.on_message (adapter_ p) (Some bytes) size
    (p <| in_ingest_ := true |> <| pending_ := false |>) = (a', p1) ->
  let loc := NasdaqItchUftAdapter.locator_ (adapter_ p) in
  adapter_wf a' /\ NasdaqItchUftAdapter.instrument_id_ a' = 0 /\
  NasdaqItchUftAdapter.locator_ a' = loc /\
  stage_frame (p <| in_ingest_ := true |> <| pending_ := false |>) p1 /\ volume_ok p1 /\
  (inconsistent (NasdaqItchUftAdapter.stats (adapter_ p)) (NasdaqItchUftAdapter.stats a') = false ->
   state_ p1 = Faulted \/
   (mirrors (book_ p1) (replay_book loc m bytes) (replay_orders loc orders bytes) /\
    orders_view a' = replay_orders loc orders bytes)).
Proof.
  intros Hwf Hs Hst Hbytes Hsize Hexp Hon loc. destruct (wf_book _ _ _ Hwf) as [|[Hm Ho]]; [done|].
  set (p0 := p <| in_ingest_ := true |> <| pending_ := false |>) in *.
  pose proof (on_message_handled (adapter_ p) p0 m bytes size (wf_adapter _ _ _ Hwf)
    (wf_instrument _ _ _ Hwf) (wf_running _ _ _ Hwf Hs)) as Hh.
  destruct Hh as [Ha [Hi Hl] Hfr Hv Hf]; [|by right; rewrite Ho|done..|].
  { destruct (wf_volume _ _ _ Hwf). by constructor. }
  rewrite Hon in *. cbn [fst snd] in *. split_and!; try done; [by rewrite Hi; apply Hwf|].
  intros Hc. destruct Hf as [[_ Hc']|[Hf Hv']]; [unfold NasdaqItchUftAdapter.stats in Hc; congruence|].
  unfold replay_book, replay_orders. rewrite Ho in *. destruct Hf as [|Hf]; [by left|right].
  rewrite Hv' in Hf. by split.
Qed.

(** The pipeline after the message stage is well formed but for [in_ingest_]. *)
Lemma staged_inside p m orders a' p1 m' orders' :
  pipeline_wf p m orders -> adapter_wf a' -> NasdaqItchUftAdapter.instrument_id_ a' = 0 ->
  stage_frame (p <| in_ingest_ := true |> <| pending_ := false |>) p1 -> volume_ok p1 ->
  state_ p1 = Faulted \/ (mirrors (book_ p1) m' orders' /\ orders_view a' = orders') ->
  pipeline_inside (p1 <| adapter_ := a' |>) m' orders'.
Proof.
  intros Hwf Ha Hi Hf Hv Hb. destruct Hf. cbn in *. unfold pipeline_inside.
  constructor; cbn; try done; [by destruct Hv; constructor|..].
  - rewrite frame_engine. apply Hwf.
  - rewrite frame_engine, frame_started. apply Hwf.
  - rewrite frame_next. apply Hwf.
  - rewrite frame_next, frame_high_water. destruct frame_state as [->| ->]; [apply Hwf|done].
Qed.

Lemma idle_inside p m orders : pipeline_wf p m orders -> pipeline_inside p m orders.
Proof.
  intros Hwf. destruct Hwf. unfold pipeline_inside. constructor; cbn; auto.
  by destruct wf_volume0; constructor.
Qed.

(** [s] is behind the pipeline, or known to be missing. *)
Definition known (p : t) (s : Z) : Prop := state_ p = Faulted \/ s < next_ p \/ s <= high_water_ p.

(** What an [ingest] that takes the message leaves. *)
Record advanced (p : t) (m : list Resting) (orders : gmap Z Order.t) (sequence : Z) (bytes : list Z)
    (p' : t) (result : BookIngestResult) (calls : list StrategyCall) : Prop := {
  adv_sequence : sequence = next_ p;
  adv_next : next_ p' = sequence + 1;
  adv_high_water : high_water_ p <= high_water_ p';
  adv_locator : NasdaqItchUftAdapter.locator_ (adapter_ p') = NasdaqItchUftAdapter.locator_ (adapter_ p);
  adv_wf : pipeline_wf p' (replay_book (NasdaqItchUftAdapter.locator_ (adapter_ p)) m bytes)
    (replay_orders (NasdaqItchUftAdapter.locator_ (adapter_ p)) orders bytes);
  adv_result : result = (if is_faulted (state_ p') then IngestFaulted else Applied);
  adv_once : (length calls <= 1)%nat;
  adv_calls : forall c, c ∈ calls ->
    mirrors (call_book c) (replay_book (NasdaqItchUftAdapter.locator_ (adapter_ p)) m bytes)
      (replay_orders (NasdaqItchUftAdapter.locator_ (adapter_ p)) orders bytes) /\
    call_sequence c = sequence /\ high_water_ p <= sequence /\ call_volume c = net_volume_ p'
}.

(** The notification stage of [ingest]. *)
Definition notify (p : t) (sequence : Z) : t * BookIngestResult * list StrategyCall :=
  let p := p <| next_ ::= incr |> in
  let recovered := bool_decide (state_ p = Recovering) && (high_water_ p <? next_ p) in
  let p := if recovered then p <| state_ := Live |> else p in
  let '(p, calls) :=
    if bool_decide (state_ p = Live) && (pending_ p || recovered) then
      let p := p <| callbacks_ ::= incr |> in
      let call := mkCall (book_ p) (if pending_ p then Some (last_ p) else None) sequence
        (net_volume_ p) in
      let reactions := match callback_ p with Some f => f call | None => [] end in
      (foldl react p reactions, [call])
    else (p, []) in
  let p := p <| in_ingest_ := false |> in
  (p, if is_faulted (state_ p) then IngestFaulted else Applied, calls).

(** The state as the notification finds it: [next_] moved, recovery ended. *)
Lemma recover_inside p m orders :
  pipeline_inside p m orders -> next_ p <> u64_max ->
  let p1 := p <| next_ ::= incr |> in
  let recovered := bool_decide (state_ p1 = Recovering) && (high_water_ p1 <? next_ p1) in
  let p2 := if recovered then p1 <| state_ := Live |> else p1 in
  pipeline_inside p2 m orders /\ next_ p2 = next_ p + 1 /\ high_water_ p2 = high_water_ p /\
  adapter_ p2 = adapter_ p.
Proof.
  intros Hin Hn p1 recovered p2. destruct Hin. cbn in *.
  assert (incr (next_ p) = next_ p + 1) as Hi by (unfold incr; rewrite wrap_small; lia).
  assert (pipeline_inside p1 m orders) as H1.
  { unfold pipeline_inside, p1. constructor; cbn; auto; rewrite ?Hi; [by destruct wf_volume0; constructor|lia|].
    intros Hl. specialize (wf_live0 Hl). lia. }
  unfold p2. destruct recovered eqn:Hr; [|by split_and!].
  apply andb_true_iff in Hr as [Hs%bool_decide_eq_true Hh%Z.ltb_lt].
  split_and!; try done. destruct H1. cbn in *. constructor; cbn; auto.
  - by destruct wf_volume0; constructor.
  - right. destruct wf_book0 as [Hf|]; [|done]. rewrite Hf in Hs. done.
Qed.

Lemma notify_advanced p m orders bytes p0 :
  pipeline_inside p (replay_book (NasdaqItchUftAdapter.locator_ (adapter_ p0)) m bytes)
    (replay_orders (NasdaqItchUftAdapter.locator_ (adapter_ p0)) orders bytes) ->
  next_ p = next_ p0 -> high_water_ p = high_water_ p0 -> next_ p0 <> u64_max ->
  NasdaqItchUftAdapter.locator_ (adapter_ p) = NasdaqItchUftAdapter.locator_ (adapter_ p0) ->
  let '(p', result, calls) := notify p (next_ p0) in
  advanced p0 m orders (next_ p0) bytes p' result calls.
Proof.
  intros Hin Hn Hh Hmax Hl. unfold notify.
  destruct (recover_inside _ _ _ Hin ltac:(congruence)) as (Hin2 & Hn2 & Hh2 & Ha2).
  set (p2 := if bool_decide _ && _ then _ else _) in *.
  set (recovered := bool_decide _ && _).
  destruct (bool_decide (state_ p2 = Live) && _) eqn:Hlive.
  2: { constructor; cbn; [done|congruence|lia|by rewrite Ha2|exact Hin2|done|lia|].
    intros c Hc. by apply elem_of_nil in Hc. }
  apply andb_true_iff in Hlive as [Hs%bool_decide_eq_true _].
  set (p3 := p2 <| callbacks_ ::= incr |>).
  assert (pipeline_inside p3 (replay_book (NasdaqItchUftAdapter.locator_ (adapter_ p0)) m bytes)
    (replay_orders (NasdaqItchUftAdapter.locator_ (adapter_ p0)) orders bytes)) as Hin3.
  { destruct Hin2. cbn in *. constructor; cbn; auto. by destruct wf_volume0; constructor. }
  set (call := mkCall _ _ _ _).
  match goal with |- context [foldl react p3 ?rs] =>
    destruct (reactions_inside p3 _ _ rs Hin3) as (Hr & Hb & Ha & Hv & Hnx & Hhx); set (p4 := foldl react p3 rs) in * end.
  clearbody p4.
  constructor; cbn; [done|by rewrite Hnx, <- Hn|cbn in Hhx; lia|by rewrite Ha, <- Hl, <- Ha2|exact Hr|done|lia|].
  intros c ->%list_elem_of_singleton. cbn. split_and!; [|done| |by rewrite Hv].
  - destruct (wf_book _ _ _ Hin2) as [Hf|[Hm _]]; [|exact Hm]. cbn in Hf. congruence.
  - pose proof (wf_live _ _ _ Hin2 Hs) as Hw. cbn in Hw. rewrite Hh2, Hn2, Hh, Hn in Hw. lia.
Qed.

(** What an [ingest] that does not take the message leaves. *)
Record refused (p : t) (m : list Resting) (orders : gmap Z Order.t) (sequence : Z)
    (p' : t) (result : BookIngestResult) (calls : list StrategyCall) : Prop := {
  ref_result : result <> Applied;
  ref_calls : calls = [];
  ref_wf : pipeline_wf p' m orders;
  ref_next : next_ p' = next_ p;
  ref_reason : sequence = next_ p -> state_ p' = Faulted;
  ref_known : forall s, known p s \/ s = sequence -> known p' s;
  ref_locator : NasdaqItchUftAdapter.locator_ (adapter_ p') = NasdaqItchUftAdapter.locator_ (adapter_ p)
}.

Lemma refused_fault p m orders sequence reason :
  pipeline_wf p m orders -> refused p m orders sequence (fault p reason) IngestFaulted [].
Proof. intros Hwf. constructor; try done; [by eapply fault_wf|]. intros s _. by left. Qed.

Lemma ingest_spec p m orders session sequence message size :
  pipeline_wf p m orders -> call_ok (IngestCall session sequence message size) ->
  let '(p', result, calls) := ingest p session sequence message size in
  refused p m orders sequence p' result calls \/
  (exists bytes, message = Some bytes /\ state_ p <> Faulted /\
     (11 <= size /\ size = itch50.expected_message_size (itch50.byte_at bytes 0)) /\
     advanced p m orders sequence bytes p' result calls).
Proof.
  intros Hwf [Hseq Hmsg]. unfold ingest.
  destruct (_ || _) eqn:Hstart; [left; by apply refused_fault|].
  apply orb_false_iff in Hstart as [[[Hs Hidle]%orb_false_iff Hlive]%orb_false_iff _].
  apply negb_false_iff in Hs. apply bool_decide_eq_false in Hlive.
  destruct (Z.ltb_spec sequence (next_ p)); [left; constructor; try done|].
  { lia. }
  { intros s [Hk| ->]; [done|by right; left]. }
  destruct (Z.eqb_spec sequence u64_max); [left; by apply refused_fault|].
  destruct (Z.ltb_spec (next_ p) sequence).
  { left. constructor; try done.
    - destruct Hwf. constructor; cbn; auto; try done; [by destruct wf_volume0; constructor|].
      right. by destruct wf_book0.
    - lia.
    - intros s Hk. right. cbn. destruct Hk as [[Hk|[Hk|Hk]]| ->]; [done|lia..]. }
  destruct message as [bytes|]; [|left; by apply refused_fault].
  destruct (_ || negb (size =? _)) eqn:Hsize; [left; by apply refused_fault|].
  apply orb_false_iff in Hsize as [Hsize%Z.ltb_ge Hexp%negb_false_iff%Z.eqb_eq].
  destruct (NasdaqItchUftAdapter.on_message _ _ _ _) as [a' p1] eqn:Hon.
  destruct (message_stage p m orders bytes size a' p1 Hwf Hs Hlive Hmsg Hsize Hexp Hon)
    as (Ha & Hi & Hl & Hf & Hv & Hb).
  set (loc := NasdaqItchUftAdapter.locator_ (adapter_ p)) in *.
  pose proof (frame_next _ _ Hf) as Hn. pose proof (frame_high_water _ _ Hf) as Hh. cbn in Hn, Hh.
  set (bad := inconsistent _ _ || _).
  destruct bad eqn:Hbad; [|destruct (is_faulted (state_ (p1 <| adapter_ := a' |>))) eqn:Hfault].
  - left. cbn [is_faulted]. constructor; cbn; try done; [|intros s _; by left].
    refine (staged_inside p m orders a' (fault p1 "adapter/book state error; rebuild from trusted session replay")
      m orders Hwf Ha Hi _ _ _); [|by destruct Hv; constructor|by left].
    eapply stage_frame_trans; [exact Hf|apply fault_frame].
  - left. apply bool_decide_eq_true in Hfault.
    constructor; cbn; try done; [|intros s _; by left].
    apply (staged_inside p m orders a' p1 m orders Hwf Ha Hi Hf Hv). by left.
  - apply bool_decide_eq_false in Hfault. apply orb_false_iff in Hbad as [Hbad _].
    assert (sequence = next_ p) as -> by lia.
    change (let '(p', result, calls) := notify (p1 <| adapter_ := a' |>) (next_ p) in
      refused p m orders (next_ p) p' result calls \/
      (exists bytes0, Some bytes = Some bytes0 /\ state_ p <> Faulted /\
         (11 <= size /\ size = itch50.expected_message_size (itch50.byte_at bytes0 0)) /\
         advanced p m orders (next_ p) bytes0 p' result calls)).
    pose proof (notify_advanced (p1 <| adapter_ := a' |>) m orders bytes p) as Hadv.
    destruct (notify _ _) as [[p' r] calls]. right. exists bytes. split_and!; [done..|].
    apply Hadv; [|done..]. apply (staged_inside p m orders a' p1 _ _ Hwf Ha Hi Hf Hv).
    right. by destruct (Hb Hbad).
Qed.

(** ** A fresh pipeline *)

Lemma checked_orders_range n m : checked_orders n = Some m -> 0 <= n -> m = n /\ 1 <= n < u32_max.
Proof.
  unfold checked_orders. destruct (Z.eqb_spec n 0); [done|]. destruct (Z.leb_spec u32_max n); [done|].
  intros [= <-]. lia.
Qed.

Lemma levels_range lo hi tick n :
  levels lo hi tick = Some n -> hi < 2 ^ 63 ->
  0 < lo /\ 0 < tick /\ 1 <= n <= 2 ^ 32 - 64 /\ n = (hi - lo) / tick + 1.
Proof.
  unfold levels. destruct (_ || _) eqn:E; [done|].
  apply orb_false_iff in E as [[[[?%Z.leb_gt ?%Z.ltb_ge]%orb_false_iff ?%Z.leb_gt]%orb_false_iff _]%orb_false_iff
    Hq%Z.ltb_ge].
  intros [= <-] Hh. rewrite Z.quot_div_nonneg in * by lia.
  pose proof (Z.div_pos (hi - lo) tick ltac:(lia) ltac:(lia)).
  rewrite wrap_small by lia. lia.
Qed.

Section fresh.
Context (session : string) (first locator max_orders max_matches minimum maximum tick : Z) (p : t).
Hypothesis Hmake : make session first locator max_orders max_matches minimum maximum tick = Some p.
Hypothesis Horders : 0 <= max_orders < 2 ^ 64.
Hypothesis Hmatches : 0 <= max_matches < 2 ^ 64.
Hypothesis Hfirst : 0 <= first < 2 ^ 64.
Hypothesis Hmax : maximum < 2 ^ 63.

Lemma fresh_wf :
  pipeline_wf p [] ∅ /\ next_ p = first /\ state_ p = Live /\ started_ p = false /\
  NasdaqItchUftAdapter.locator_ (adapter_ p) = locator.
Proof.
  unfold make in Hmake.
  destruct (checked_orders max_orders) as [n|] eqn:En; [|done]. cbn [mbind option_bind] in Hmake.
  destruct (checked_orders_range _ _ En ltac:(lia)) as [-> Hn].
  destruct (NasdaqItchUftAdapter.make _ _ _ _) as [a|] eqn:Ea; [|done]. cbn [mbind option_bind] in Hmake.
  destruct (make_wf _ _ _ _ _ Horders Hmatches Ea) as (Hwa & Hva & Hia & Hla).
  destruct (levels _ _ _) as [lc|] eqn:El; [|done]. cbn [mbind option_bind] in Hmake.
  destruct (levels_range _ _ _ _ El Hmax) as (Hlo & Ht & Hlc & _).
  destruct (make_represents max_orders minimum tick lc ltac:(lia) ltac:(lia) ltac:(lia))
    as (b & Eb & Hrep & _).
  rewrite Eb in Hmake. cbn [mbind option_bind] in Hmake.
  destruct (FixedHashTable.make max_matches) as [ms|] eqn:Em; [|done]. cbn [mbind option_bind] in Hmake.
  destruct (FixedHashTable.table_make_ok (V := Match.t) max_matches) as (ms' & Em' & Hwm & Hvm & _);
    [by eapply table_make_bound|].
  rewrite Em in Em'. injection Em' as <-.
  destruct (_ || _) eqn:Hf; [done|].
  apply orb_false_iff in Hf as [[_ Hf0]%orb_false_iff Hf1]. apply Z.eqb_neq in Hf0, Hf1.
  destruct (UftMarketDataEngine.register_instrument _ _ _ _ _ _ _) as [base reg].
  destruct (UftBookMarketDataEngine.register_book _ _ _ _) as [e ok] eqn:Eb'.
  destruct (negb reg || negb ok) eqn:Hok; [done|]. apply orb_false_iff in Hok as [_ ->%negb_false_iff].
  assert (UftBookMarketDataEngine.slots_ e = [Some tt]) as Hslots.
  { unfold UftBookMarketDataEngine.register_book in Eb'. by case_match; simplify_eq. }
  injection Hmake as <-. split_and!; try done.
  constructor; cbn; try done; [|right; split; [by apply mirrors_empty|done]|lia|lia].
  constructor; cbn; [done| |by rewrite Hvm|done]. intros k m. by rewrite Hvm, lookup_empty.
Qed.
End fresh.

(** ** Histories keep the invariant *)

Section history.
Context (locator first : Z).

Definition book_after (messages : list (list Z)) : list Resting :=
  foldl (replay_book locator) [] messages.
Definition orders_after (messages : list (list Z)) : gmap Z Order.t :=
  foldl (replay_orders locator) ∅ messages.

(** The state after [taken] messages. *)
Record reached (p : t) (taken : list (Z * list Z)) : Prop := {
  reached_wf : pipeline_wf p (book_after (map snd taken)) (orders_after (map snd taken));
  reached_next : next_ p = first + Z.of_nat (length taken);
  reached_locator : NasdaqItchUftAdapter.locator_ (adapter_ p) = locator;
  reached_sequences : map fst taken = seqZ first (Z.of_nat (length taken))
}.

(** What a strategy call shows: the replay up to its own sequence number. *)
Definition shows (taken : list (Z * list Z)) (c : StrategyCall) : Prop :=
  first <= call_sequence c < first + Z.of_nat (length taken) /\
  observed (call_book c)
    (book_after (take (Z.to_nat (call_sequence c - first + 1)) (map snd taken))).

Lemma shows_app taken later c : shows taken c -> shows (taken ++ later) c.
Proof.
  intros [Hr Ho]. split; [rewrite length_app; lia|].
  rewrite map_app, take_app_le; [done|]. rewrite length_map. lia.
Qed.

Lemma call_reached p taken c :
  reached p taken -> call_ok c ->
  let '(p', new, calls) := pipeline_call p c in
  reached p' (taken ++ new) /\ Forall (shows (taken ++ new)) calls /\
  Forall (fun c => call_sequence c = next_ p /\ high_water_ p <= next_ p /\ state_ p <> Faulted) calls.
Proof.
  intros Hr Hc. pose proof Hr as [Hwf Hn Hl Hs].
  destruct c as [s f|session sequence message size|h|]; cbn [pipeline_call].
  - rewrite app_nil_r. destruct (start_wf p _ _ s f Hwf) as (Hwf' & _ & Hn').
    split_and!; [|done..]. constructor; [done|congruence| |done].
    rewrite <- Hl. unfold start. by repeat case_match.
  - pose proof (ingest_spec p _ _ session sequence message size Hwf Hc) as Hi.
    destruct (ingest _ _ _ _ _) as [[p' r] calls].
    destruct Hi as [[_ -> Hwf' Hn' _ _ Hl']|(bytes & -> & Hlive & [Hmin Hexp] & [Hseq Hn' _ Hl' Hwf' _ _ Hcalls])].
    + rewrite Hn', Z.eqb_refl. assert (match message with Some _ => [] | None => [] end = @nil (Z * list Z)) as ->
        by (by destruct message). rewrite app_nil_r. split_and!; [|done..]. constructor; congruence.
    + destruct (Z.eqb_spec (next_ p') (next_ p)); [lia|]. rewrite Hl in *.
      destruct (replay_trim size bytes Hmin Hexp locator (book_after (map snd taken))
        (orders_after (map snd taken))) as [Htb Hto].
      assert (book_after (map snd (taken ++ [(sequence, take (Z.to_nat size) bytes)])) =
        replay_book locator (book_after (map snd taken)) bytes) as Hb.
      { rewrite <- Htb. unfold book_after. by rewrite map_app, foldl_app. }
      assert (orders_after (map snd (taken ++ [(sequence, take (Z.to_nat size) bytes)])) =
        replay_orders locator (orders_after (map snd taken)) bytes) as Ho.
      { rewrite <- Hto. unfold orders_after. by rewrite map_app, foldl_app. }
      split_and!.
      * constructor; [by rewrite Hb, Ho|rewrite length_app; simpl; lia|congruence|].
        rewrite map_app, length_app, Nat2Z.inj_add, seqZ_app, Hs by lia. f_equal.
        rewrite seqZ_cons, seqZ_nil by (simpl; lia). simpl. f_equal. lia.
      * apply Forall_forall. intros c Hin. destruct (Hcalls c Hin) as ([Hm _] & Hsc & _).
        split; [rewrite length_app; simpl; lia|]. rewrite Hsc.
        rewrite take_ge by (rewrite length_map, length_app; simpl; lia).
        rewrite Hb. by apply represents_observed.
      * apply Forall_forall. intros c Hin. destruct (Hcalls c Hin) as (_ & Hsc & Hh & _). split_and!; [lia..|done].
  - rewrite app_nil_r. split_and!; [|done..]. constructor; [by apply note_gap_wf|..|done];
      unfold note_gap; by case_match.
  - rewrite app_nil_r. split_and!; [|done..]. constructor; [by eapply fault_wf|done..].
Qed.

Lemma run_reached p taken cs :
  reached p taken -> Forall call_ok cs ->
  let '(p', new, calls) := run p cs in
  reached p' (taken ++ new) /\ Forall (shows (taken ++ new)) calls.
Proof.
  intros Hr Hcs. revert p taken Hr. induction Hcs as [|c cs Hc _ IH]; intros p taken Hr; cbn [run].
  { by rewrite app_nil_r. }
  pose proof (call_reached p taken c Hr Hc) as H1. destruct (pipeline_call p c) as [[p1 new] calls].
  destruct H1 as (Hr1 & Hs1 & _). specialize (IH p1 _ Hr1).
  destruct (run p1 cs) as [[p2 new2] calls2]. destruct IH as [Hr2 Hs2].
  rewrite app_assoc. split; [done|]. apply Forall_app. split; [|done].
  eapply Forall_impl; [exact Hs1|]. intros ?. apply shows_app.
Qed.
End history.

Lemma fresh_reached session first locator max_orders max_matches minimum maximum tick p :
  make session first locator max_orders max_matches minimum maximum tick = Some p ->
  0 <= max_orders < 2 ^ 64 -> 0 <= max_matches < 2 ^ 64 -> 0 <= first < 2 ^ 64 -> maximum < 2 ^ 63 ->
  reached locator first p [].
Proof.
  intros Hm Ho Hmm Hf Hmax. destruct (fresh_wf _ _ _ _ _ _ _ _ _ Hm Ho Hmm Hf Hmax) as (Hwf & Hn & _ & _ & Hl).
  constructor; [done|simpl; lia|done|]. by rewrite seqZ_nil.
Qed.

(** ** The properties *)

Section properties.
Context (session : string) (first locator max_orders max_matches minimum maximum tick : Z).

(** The parameters fit their C++ types. *)
Definition parameters_ok : Prop :=
  0 <= max_orders < 2 ^ 64 /\ 0 <= max_matches < 2 ^ 64 /\ 0 <= first < 2 ^ 64 /\ maximum < 2 ^ 63.

Definition fresh : option t :=
  make session first locator max_orders max_matches minimum maximum tick.
End properties.

(** C3: for every history of calls on a fresh pipeline, the messages it took
    carry consecutive transport sequence numbers from [first_sequence], and
    unless the pipeline is faulted its book is, to every query, the price-time
    replay of exactly those messages, its adapter keeps the same orders, and
    the two agree on how many are active. *)
Theorem pipeline_replays_feed session first locator max_orders max_matches minimum maximum tick p cs :
  fresh session first locator max_orders max_matches minimum maximum tick = Some p ->
  parameters_ok first max_orders max_matches maximum -> Forall call_ok cs ->
  let '(p', taken, _) := run p cs in
  map fst taken = seqZ first (Z.of_nat (length taken)) /\
  next_sequence p' = first + Z.of_nat (length taken) /\
  (state p' <> Faulted ->
   observed (book p') (book_after locator (map snd taken)) /\
   orders_view (adapter_ p') = orders_after locator (map snd taken) /\
   DensePriceOrderBook.active_orders (book p') = NasdaqItchUftAdapter.active_orders (adapter_ p')).
Proof.
  intros Hm (Ho & Hmm & Hf & Hmax) Hcs.
  pose proof (fresh_reached _ _ _ _ _ _ _ _ _ Hm Ho Hmm Hf Hmax) as Hr.
  pose proof (run_reached _ _ _ _ _ Hr Hcs) as Hrun. destruct (run p cs) as [[p' taken] calls].
  cbn [app] in Hrun. destruct Hrun as [[Hwf Hn _ Hs] _]. split_and!; [done..|].
  intros Hlive. destruct (wf_book _ _ _ Hwf) as [|[Hmir Hord]]; [done|].
  split_and!; [by apply represents_observed, Hmir|done|].
  unfold book. rewrite (mirrors_active _ _ _ Hmir), <- Hord.
  unfold NasdaqItchUftAdapter.active_orders, FixedHashTable.size.
  by rewrite (FixedHashTable.wf_size _ (adapter_orders _ (wf_adapter _ _ _ Hwf))).
Qed.

(** C5: every call of the strategy, in any history, is made between two
    messages: the book it is shown is the replay of all the messages up to and
    including the transport sequence number it is given. *)
Theorem strategy_sees_replay session first locator max_orders max_matches minimum maximum tick p cs :
  fresh session first locator max_orders max_matches minimum maximum tick = Some p ->
  parameters_ok first max_orders max_matches maximum -> Forall call_ok cs ->
  let '(p', taken, calls) := run p cs in
  forall c, c ∈ calls ->
    first <= call_sequence c < next_sequence p' /\
    observed (call_book c)
      (book_after locator (take (Z.to_nat (call_sequence c - first + 1)) (map snd taken))).
Proof.
  intros Hm (Ho & Hmm & Hf & Hmax) Hcs.
  pose proof (fresh_reached _ _ _ _ _ _ _ _ _ Hm Ho Hmm Hf Hmax) as Hr.
  pose proof (run_reached _ _ _ _ _ Hr Hcs) as Hrun. destruct (run p cs) as [[p' taken] calls].
  destruct Hrun as [[_ Hn _ _] Hs]. intros c Hc. rewrite Forall_forall in Hs.
  unfold next_sequence. rewrite Hn. by apply Hs.
Qed.

(** *** Gaps *)

(** The sequence number a call tells the pipeline about. *)
Definition mentions (c : Call) (s : Z) : Prop :=
  match c with
  | IngestCall _ sequence _ _ => sequence = s
  | NoteGapCall h => h = s
  | _ => False
  end.

Lemma call_known p m orders c s :
  pipeline_wf p m orders -> call_ok c -> known p s \/ mentions c s ->
  known (pipeline_call p c).1.1 s.
Proof.
  intros Hwf Hc Hk. destruct c as [st f|session sequence message size|h|]; cbn [pipeline_call fst].
  - destruct Hk as [Hk|[]]. unfold start. by repeat case_match.
  - pose proof (ingest_spec p m orders session sequence message size Hwf Hc) as Hi.
    destruct (ingest _ _ _ _ _) as [[p' r] calls]. cbn [fst].
    destruct Hi as [Href|(bytes & _ & Hlive & _ & [Hseq Hn Hh _ _ _ _ _])].
    + apply (ref_known _ _ _ _ _ _ _ Href). destruct Hk as [Hk|Hk]; [by left|right; by symmetry].
    + right. destruct Hk as [[|[|]]|Hk]; [done|left; lia|right; lia|]. simpl in Hk. left. lia.
  - unfold note_gap. destruct (_ || _) eqn:Hn.
    + destruct Hk as [|Hk]; [done|]. simpl in Hk. apply orb_true_iff in Hn as [Hn|Hn].
      * left. by apply bool_decide_eq_true in Hn.
      * right. left. lia.
    + right. cbn. destruct Hk as [[Hf|[|]]|Hk]; [|lia..|simpl in Hk; lia].
      apply orb_false_iff in Hn as [Hn%bool_decide_eq_false _]. done.
  - by left.
Qed.

Lemma run_app p cs1 cs2 :
  run p (cs1 ++ cs2) =
    (let '(p1, taken1, calls1) := run p cs1 in
     let '(p2, taken2, calls2) := run p1 cs2 in (p2, taken1 ++ taken2, calls1 ++ calls2)).
Proof.
  revert p. induction cs1 as [|c cs1 IH]; intros p; cbn [app run].
  - by destruct (run p cs2) as [[p2 t2] c2].
  - destruct (pipeline_call p c) as [[p0 t0] c0]. rewrite IH.
    destruct (run p0 cs1) as [[p1 t1] c1]. destruct (run p1 cs2) as [[p2 t2] c2].
    by rewrite !app_assoc.
Qed.

Lemma run_known locator first p taken cs s :
  reached locator first p taken -> Forall call_ok cs -> known p s ->
  Forall (fun c => s <= call_sequence c) (run p cs).2.
Proof.
  intros Hr Hcs. revert p taken Hr. induction Hcs as [|c cs Hc _ IH]; intros p taken Hr Hk; cbn [run]; [done|].
  pose proof (call_reached locator first p taken c Hr Hc) as H1.
  pose proof (call_known p _ _ c s (reached_wf _ _ _ _ Hr) Hc (or_introl Hk)) as Hk1.
  destruct (pipeline_call p c) as [[p1 new] calls]. cbn [fst] in Hk1.
  destruct H1 as (Hr1 & _ & Hcalls). specialize (IH p1 _ Hr1 Hk1).
  destruct (run p1 cs) as [[p2 new2] calls2]. cbn [snd] in *.
  apply Forall_app. split; [|done]. eapply Forall_impl; [exact Hcalls|].
  intros x (-> & Hh & Hl). cbn. destruct Hk as [|[|]]; [done|lia..].
Qed.

(** C14: once a message or a gap report has told the pipeline about sequence
    number [s], no later strategy call has a smaller sequence number: the
    strategy is not called before everything known to be missing is applied. *)
Theorem strategy_waits_for_gaps session first locator max_orders max_matches minimum maximum tick p
    before c after s :
  fresh session first locator max_orders max_matches minimum maximum tick = Some p ->
  parameters_ok first max_orders max_matches maximum -> Forall call_ok (before ++ c :: after) ->
  mentions c s ->
  let p1 := (run p (before ++ [c])).1.1 in
  forall x, x ∈ (run p1 after).2 -> s <= call_sequence x.
Proof.
  intros Hm (Ho & Hmm & Hf & Hmax) [Hb [Hc Ha]%Forall_cons]%Forall_app Hs p1.
  pose proof (fresh_reached _ _ _ _ _ _ _ _ _ Hm Ho Hmm Hf Hmax) as Hr.
  pose proof (run_reached _ _ _ _ before Hr Hb) as Hr0.
  assert (p1 = (pipeline_call (run p before).1.1 c).1.1) as Hp1.
  { unfold p1. rewrite run_app. destruct (run p before) as [[p0 t0] c0]. cbn [run fst].
    by destruct (pipeline_call p0 c) as [[? ?] ?]. }
  destruct (run p before) as [[p0 t0] c0]. cbn [fst app] in *. destruct Hr0 as [Hr0 _].
  pose proof (call_reached _ _ _ _ c Hr0 Hc) as Hr1.
  pose proof (call_known p0 _ _ c s (reached_wf _ _ _ _ Hr0) Hc (or_intror Hs)) as Hk.
  rewrite <- Hp1 in Hk. clearbody p1.
  destruct (pipeline_call p0 c) as [[p1' t1] c1]. cbn [fst] in Hp1. subst p1'. destruct Hr1 as (Hr1 & _).
  apply Forall_forall. by apply (run_known locator first p1 (t0 ++ t1)).
Qed.

(** C15: in every history the net printed volume is the sum of the quantities of
    the printable matches on record that were not broken; it never wraps. *)
Theorem printed_volume_is_sum session first locator max_orders max_matches minimum maximum tick p cs :
  fresh session first locator max_orders max_matches minimum maximum tick = Some p ->
  parameters_ok first max_orders max_matches maximum -> Forall call_ok cs ->
  let p' := (run p cs).1.1 in
  net_printed_volume p' = printed (FixedHashTable.view (matches_ p')) /\
  0 <= net_printed_volume p' < 2 ^ 64.
Proof.
  intros Hm (Ho & Hmm & Hf & Hmax) Hcs.
  pose proof (fresh_reached _ _ _ _ _ _ _ _ _ Hm Ho Hmm Hf Hmax) as Hr.
  pose proof (run_reached _ _ _ _ _ Hr Hcs) as Hrun. destruct (run p cs) as [[p' taken] calls].
  destruct Hrun as [[Hwf _ _ _] _]. cbn [fst]. pose proof (wf_volume _ _ _ Hwf) as Hv.
  split; [by apply volume_sum|by apply volume_range].
Qed.

Lemma call_faulted p c :
  state_ p = Faulted ->
  let '(p', taken, calls) := pipeline_call p c in
  state_ p' = Faulted /\ taken = [] /\ calls = [] /\ book_ p' = book_ p /\ adapter_ p' = adapter_ p /\
  next_ p' = next_ p /\ (forall e, error_ p = Some e -> error_ p' = Some e).
Proof.
  intros Hs. destruct c as [s f|session sequence message size|h|]; cbn [pipeline_call].
  - unfold start. by repeat case_match.
  - unfold ingest. rewrite Hs. change (is_faulted Faulted) with true. rewrite orb_true_r.
    cbn [orb fault]. cbn. rewrite Z.eqb_refl. split_and!; try done; [by destruct message|].
    intros e He. by rewrite He.
  - unfold note_gap. rewrite Hs. done.
  - cbn. split_and!; try done. intros e He. by rewrite He.
Qed.

(** C16: a fault is final: whatever is called afterwards, the pipeline stays
    faulted with its first error, takes no message, and never calls the
    strategy again. *)
Theorem fault_is_final p cs :
  state p = Faulted ->
  let '(p', taken, calls) := run p cs in
  state p' = Faulted /\ ready p' = false /\ taken = [] /\ calls = [] /\ book p' = book p /\
  next_sequence p' = next_sequence p /\ (forall e, error p = Some e -> error p' = Some e).
Proof.
  unfold state, ready, book, next_sequence, error. revert p.
  induction cs as [|c cs IH]; intros p Hs; cbn [run].
  - rewrite Hs, andb_false_r. done.
  - pose proof (call_faulted p c Hs) as H1. destruct (pipeline_call p c) as [[p1 t1] c1].
    destruct H1 as (Hs1 & -> & -> & Hb & _ & Hn & He). specialize (IH p1 Hs1).
    destruct (run p1 cs) as [[p2 t2] c2].
    destruct IH as (? & ? & -> & -> & Hb2 & Hn2 & He2). split_and!; try done; [congruence..|].
    intros e Hp. by apply He2, He.
Qed.

(** ** Witnesses: a small session *)

Definition small : option t := fresh "S" 1 7 4 4 90 110 1.

(** Two orders, a gap that is filled, an execution, a duplicate. *)
Definition small_session : list Call := [
  StartCall (Some 1) (Some (fun _ => []));
  IngestCall "S" 1 (Some (add_message 5)) 36;
  IngestCall "S" 3 (Some (execute_message 5 9)) 31;
  IngestCall "S" 2 (Some (add_message 6)) 36;
  IngestCall "S" 3 (Some (execute_message 5 9)) 31;
  IngestCall "S" 2 (Some (add_message 6)) 36].

Lemma small_session_ok : Forall call_ok small_session.
Proof. repeat constructor; try done; by apply bytes_ok. Qed.

Lemma small_parameters : parameters_ok 1 4 4 110.
Proof. by split_and!. Qed.

(** The session takes all three messages and ends live with two orders. *)
Lemma pipeline_replays_feed_witness :
  match small with
  | Some p =>
      (let '(p', taken, _) := run p small_session in
       map fst taken = seqZ 1 (Z.of_nat (length taken)) /\
       next_sequence p' = 1 + Z.of_nat (length taken) /\
       (state p' <> Faulted ->
        observed (book p') (book_after 7 (map snd taken)) /\
        orders_view (adapter_ p') = orders_after 7 (map snd taken) /\
        DensePriceOrderBook.active_orders (book p') =
          NasdaqItchUftAdapter.active_orders (adapter_ p'))) /\
      (let '(p', taken, _) := run p small_session in
       state p' = Live /\ map fst taken = [1; 2; 3] /\
       book_after 7 (map snd taken) = [mkResting 5 Buy 100 6; mkResting 6 Buy 100 10])
  | None => False
  end.
Proof.
  destruct small as [p|] eqn:E; [|vm_compute in E; discriminate E]. split.
  - apply (pipeline_replays_feed "S" 1 7 4 4 90 110 1 p small_session);
      [exact E|exact small_parameters|exact small_session_ok].
  - injection E as <-. vm_compute. done.
Defined.

(** The strategy is called for messages 1 and 3, not while 2 is missing. *)
Lemma strategy_sees_replay_witness :
  match small with
  | Some p =>
      (let '(p', taken, calls) := run p small_session in
       forall c, c ∈ calls ->
         1 <= call_sequence c < next_sequence p' /\
         observed (call_book c)
           (book_after 7 (take (Z.to_nat (call_sequence c - 1 + 1)) (map snd taken)))) /\
      map call_sequence (run p small_session).2 = [1; 3]
  | None => False
  end.
Proof.
  destruct small as [p|] eqn:E; [|vm_compute in E; discriminate E]. split.
  - apply (strategy_sees_replay "S" 1 7 4 4 90 110 1 p small_session);
      [exact E|exact small_parameters|exact small_session_ok].
  - injection E as <-. vm_compute. done.
Defined.

Lemma strategy_waits_for_gaps_witness :
  match small with
  | Some p =>
      let p1 := (run p (take 2 small_session ++
        [IngestCall "S" 3 (Some (execute_message 5 9)) 31])).1.1 in
      state p1 = Recovering /\ map call_sequence (run p1 (drop 3 small_session)).2 = [3] /\
      forall x, x ∈ (run p1 (drop 3 small_session)).2 -> 3 <= call_sequence x
  | None => False
  end.
Proof.
  destruct small as [p|] eqn:E; [|vm_compute in E; discriminate E]. intros p1.
  split_and!.
  1, 2: injection E as <-; vm_compute; done.
  apply (strategy_waits_for_gaps "S" 1 7 4 4 90 110 1 p (take 2 small_session)
    (IngestCall "S" 3 (Some (execute_message 5 9)) 31) (drop 3 small_session) 3);
    [exact E|exact small_parameters|exact small_session_ok|done].
Defined.

Lemma printed_volume_is_sum_witness :
  match small with
  | Some p =>
      let p' := (run p small_session).1.1 in
      net_printed_volume p' = 4 /\
      net_printed_volume p' = printed (FixedHashTable.view (matches_ p')) /\
      0 <= net_printed_volume p' < 2 ^ 64
  | None => False
  end.
Proof.
  destruct small as [p|] eqn:E; [|vm_compute in E; discriminate E]. intros p'. split.
  - injection E as <-. vm_compute. done.
  - apply (printed_volume_is_sum "S" 1 7 4 4 90 110 1 p small_session);
      [exact E|exact small_parameters|exact small_session_ok].
Defined.

(** Invalidated in the middle of the session. *)
Lemma fault_is_final_witness :
  match small with
  | Some p =>
      let p1 := (run p (take 2 small_session ++ [InvalidateCall])).1.1 in
      let '(p', taken, calls) := run p1 (drop 3 small_session) in
      state p' = Faulted /\ ready p' = false /\ taken = [] /\ calls = [] /\ book p' = book p1 /\
      next_sequence p' = next_sequence p1 /\ (forall e, error p1 = Some e -> error p' = Some e)
  | None => False
  end.
Proof.
  destruct small as [p|] eqn:E; [|vm_compute in E; discriminate E]. intros p1.
  apply (fault_is_final p1 (drop 3 small_session)). unfold p1. injection E as <-. vm_compute. done.
Defined.
