(* ===== verification/EngineProperties.v ===== *)
(** * Properties of the subscription engine

    Whatever the registered strategies' [on_init] programs do: subscriber lists
    stay bounded, free of duplicates and of null callbacks; [start] succeeds at
    most once and freezes the configuration; a publication calls back nobody but
    registered strategies with a callback, each at most once and no more than an
    instrument may have, and nobody unless the engine runs.  That a strategy
    whose subscription was granted is reached is shown where a component relies
    on it, in QUftOpaque.v for the runner. *)

From S2P Require Import Prelude UftTypes Engine.
Import UftMarketDataEngine.

(** Writing one element of an array, whatever the index. *)
Section writes.
Context {A : Type} `{Inhabited A}.
Implicit Types (a : list A).

Lemma aget_aset_cases a i x j : (a.[i <- x]).[j] = x \/ (a.[i <- x]).[j] = a.[j].
Proof.
  unfold aget, aset. destruct (decide (Z.to_nat i = Z.to_nat j)) as [E|].
  - rewrite E. destruct (decide (Z.to_nat j < length a)%nat).
    + left. by rewrite list_lookup_total_insert_eq.
    + right. by rewrite list_insert_ge by lia.
  - right. by rewrite list_lookup_total_insert_ne.
Qed.

Lemma aget_aset_other a i x j : a.[i] <> a.[j] -> (a.[i <- x]).[j] = a.[j].
Proof.
  unfold aget, aset. intros Hne. rewrite list_lookup_total_insert_ne; [done|congruence].
Qed.
End writes.

Section engine.
Context (InstrumentCapacity StrategyCapacity MaxStrategiesPerInstrument : Z).
Hypothesis Hmax : 0 <= MaxStrategiesPerInstrument.

Local Abbreviation register_instrument := (register_instrument InstrumentCapacity).
Local Abbreviation register_strategy := (register_strategy StrategyCapacity).
Local Abbreviation start := (start InstrumentCapacity StrategyCapacity MaxStrategiesPerInstrument).
Local Abbreviation subscribe := (subscribe InstrumentCapacity StrategyCapacity MaxStrategiesPerInstrument).
Local Abbreviation make := (make InstrumentCapacity StrategyCapacity).

(** ** Histories of the public operations *)

Inductive EngineOp :=
  | RegisterInstrument (id : Z) (code : option (list Z)) (minimum maximum tick : Z)
  | RegisterStrategy (id : Z) (strategy : option Z) (callbacks : UftStrategyCallbacks.t)
  | Start
  | Stop.

Definition engine_step (e : t) (op : EngineOp) : t * bool :=
  match op with
  | RegisterInstrument id code lo hi tick => register_instrument e id code lo hi tick
  | RegisterStrategy id strategy callbacks => register_strategy e id strategy callbacks
  | Start => start e
  | Stop => (stop e, true)
  end.

Fixpoint engine_run (e : t) (ops : list EngineOp) : t * list bool :=
  match ops with
  | [] => (e, [])
  | op :: ops' =>
      let '(e, r) := engine_step e op in
      let '(e, rs) := engine_run e ops' in (e, r :: rs)
  end.

(** ** The invariant *)

(** A subscriber list whose callbacks [present] all exist. *)
Record subscribers_ok (e : t) (present : UftStrategyCallbacks.t -> bool) (l : list Z) : Prop := {
  subs_nodup : NoDup l;
  subs_bound : alen l <= MaxStrategiesPerInstrument;
  subs_present : forall id, id ∈ l -> 0 <= id < StrategyCapacity /\
    StrategySlot.registered (strategies_ e).[id] = true /\
    present (StrategySlot.callbacks (strategies_ e).[id]) = true
}.

Record slot_ok (e : t) (s : InstrumentSlot.t) : Prop := {
  slot_details : subscribers_ok e UftStrategyCallbacks.on_order_detail (InstrumentSlot.order_details s);
  slot_transactions : subscribers_ok e UftStrategyCallbacks.on_transaction (InstrumentSlot.transactions s);
  slot_empty : configuration_frozen_ e = false \/ InstrumentSlot.registered s = false ->
    InstrumentSlot.order_details s = [] /\ InstrumentSlot.transactions s = []
}.

Record engine_wf (e : t) : Prop := {
  engine_slots : forall i, slot_ok e (instruments_ e).[i];
  engine_frozen : running_ e = true -> configuration_frozen_ e = true;
  engine_configured : running_ e = true -> forall id, 0 <= id < StrategyCapacity ->
    StrategySlot.registered (strategies_ e).[id] = true ->
    StrategySlot.configuration_ok (strategies_ e).[id] = true
}.

Lemma subscribers_ok_ext e e' present l :
  (forall id, id ∈ l -> StrategySlot.registered (strategies_ e').[id] = StrategySlot.registered (strategies_ e).[id] /\
    StrategySlot.callbacks (strategies_ e').[id] = StrategySlot.callbacks (strategies_ e).[id]) ->
  subscribers_ok e present l -> subscribers_ok e' present l.
Proof.
  intros Hs [Hn Hb Hp]. constructor; [done..|]. intros id Hid.
  destruct (Hs id Hid) as [-> ->]. by apply Hp.
Qed.

Lemma slot_ok_ext e e' s :
  (forall id, StrategySlot.registered (strategies_ e').[id] = StrategySlot.registered (strategies_ e).[id] /\
    StrategySlot.callbacks (strategies_ e').[id] = StrategySlot.callbacks (strategies_ e).[id]) ->
  (configuration_frozen_ e' = false -> configuration_frozen_ e = false) ->
  slot_ok e s -> slot_ok e' s.
Proof.
  intros Hs Hf [Hd Ht He]. constructor; [by eapply subscribers_ok_ext..|].
  intros [Hn|Hn]; apply He; auto.
Qed.

Lemma engine_make_wf : engine_wf make.
Proof.
  assert (forall e s, InstrumentSlot.order_details s = [] -> InstrumentSlot.transactions s = [] ->
    slot_ok e s) as Hempty.
  { intros e s Hd Ht. constructor; rewrite ?Hd, ?Ht; [constructor..|done];
      try done; try apply NoDup_nil_2; intros id Hid; by apply elem_of_nil in Hid. }
  constructor; [|done..]. intros i.
  assert ((instruments_ make).[i] = inhabitant) as ->; [|by apply Hempty].
  unfold aget. cbn [instruments_ UftMarketDataEngine.make].
  rewrite list_lookup_total_alt. destruct (replicate _ _ !! _) as [s|] eqn:E; [|done].
  by apply lookup_replicate in E as [-> _].
Qed.

Lemma register_instrument_wf e id code lo hi tick :
  engine_wf e -> engine_wf (register_instrument e id code lo hi tick).1.
Proof.
  intros Hwf. unfold UftMarketDataEngine.register_instrument. destruct code as [code|]; [|done].
  destruct (_ || (tick <=? 0) || _) eqn:Hpre; [done|].
  apply orb_false_iff in Hpre as [[[Hfr _]%orb_false_iff _]%orb_false_iff _].
  destruct (InstrumentSlot.registered _) eqn:Hreg; [done|]. case_match; [done|]. cbn [fst].
  destruct Hwf as [Hs Hf Hc]. constructor; updates; cbn; [|done..]. intros i.
  match goal with |- slot_ok ?e' ((instruments_ e).[id <- ?x]).[i] => 
    destruct (aget_aset_cases (instruments_ e) id x i) as [-> | ->] end.
  - eapply slot_ok_ext; [| |constructor; [apply (Hs id)..|]]; cbn; [done..|]. intros _.
    apply (slot_empty _ _ (Hs id)). by left.
  - by apply (slot_ok_ext e).
Qed.

Lemma register_strategy_wf e id strategy callbacks :
  engine_wf e -> engine_wf (register_strategy e id strategy callbacks).1.
Proof.
  intros Hwf. unfold UftMarketDataEngine.register_strategy.
  destruct (_ || _) eqn:Hpre; [done|]. apply orb_false_iff in Hpre as [[Hfr _]%orb_false_iff _].
  destruct (StrategySlot.registered _) eqn:Hreg; [done|]. cbn [fst].
  destruct Hwf as [Hs Hf Hc]. constructor; updates; cbn; [|done|].
  - intros i. destruct (Hs i) as [Hd Ht He]. destruct (He (or_introl Hfr)) as [Hd0 Ht0].
    constructor; [| |by intros _]; rewrite ?Hd0, ?Ht0 in *;
      (apply (subscribers_ok_ext e); [intros k Hk; by apply elem_of_nil in Hk|done]).
  - intros Hr. apply Hf in Hr. congruence.
Qed.

(** ** Subscriptions *)

Lemma append_subscription_ok e f l sid :
  subscribers_ok e f l -> 0 <= sid < StrategyCapacity ->
  StrategySlot.registered (strategies_ e).[sid] = true ->
  subscribers_ok e f (append_subscription MaxStrategiesPerInstrument l sid
    (f (StrategySlot.callbacks (strategies_ e).[sid]))).1.
Proof.
  intros [Hn Hb Hp] Hsid Hreg. unfold append_subscription. destruct (_ || _) eqn:Hpre; [done|].
  apply orb_false_iff in Hpre as [Hpres%negb_false_iff Hlen%Z.eqb_neq].
  destruct (bool_decide_reflect (sid ∈ l)) as [|Hnot]; [done|]. cbn [fst]. constructor.
  - apply NoDup_app. split_and!; [done| |apply NoDup_singleton].
    intros x Hx ->%list_elem_of_singleton. done.
  - unfold alen in *. rewrite length_app. simpl. lia.
  - intros id [Hid| ->%list_elem_of_singleton]%elem_of_app; [by apply Hp|done].
Qed.

(** The fields a subscription leaves alone. *)
Lemma subscribe_fields e sid iid ch :
  strategies_ (subscribe e sid iid ch).1 = strategies_ e /\
  configuration_frozen_ (subscribe e sid iid ch).1 = configuration_frozen_ e /\
  running_ (subscribe e sid iid ch).1 = running_ e.
Proof.
  unfold UftMarketDataEngine.subscribe. repeat case_match; done.
Qed.

Lemma subscribe_slots e sid iid ch :
  (forall i, slot_ok e (instruments_ e).[i]) -> 0 <= sid ->
  forall i, slot_ok (subscribe e sid iid ch).1 (instruments_ (subscribe e sid iid ch).1).[i].
Proof.
  intros Hs Hsid i. destruct (subscribe_fields e sid iid ch) as (Hst & Hfr & _).
  apply (slot_ok_ext e); [by rewrite Hst|by rewrite Hfr|]. clear Hst Hfr.
  unfold UftMarketDataEngine.subscribe.
  destruct (_ || _) eqn:Hpre; [apply Hs|].
  apply orb_false_iff in Hpre as [[[Hfr%negb_false_iff _]%orb_false_iff Hcap%Z.leb_gt]%orb_false_iff _].
  destruct (_ || _) eqn:Hreg; [apply Hs|].
  apply orb_false_iff in Hreg as [Hreg%negb_false_iff Hins%negb_false_iff].
  destruct (Hs iid) as [Hd Ht He]. destruct ch.
  - pose proof (append_subscription_ok e _ _ sid Hd ltac:(lia) Hreg) as Ha.
    destruct (append_subscription _ _ _ _) as [subs ok]. cbn [fst] in *. updates. cbn [instruments_].
    match goal with |- slot_ok _ ((instruments_ e).[iid <- ?x]).[i] =>
      destruct (aget_aset_cases (instruments_ e) iid x i) as [-> | ->] end; [|apply Hs].
    constructor; cbn; [done..|]. intros [|]; congruence.
  - pose proof (append_subscription_ok e _ _ sid Ht ltac:(lia) Hreg) as Ha.
    destruct (append_subscription _ _ _ _) as [subs ok]. cbn [fst] in *. updates. cbn [instruments_].
    match goal with |- slot_ok _ ((instruments_ e).[iid <- ?x]).[i] =>
      destruct (aget_aset_cases (instruments_ e) iid x i) as [-> | ->] end; [|apply Hs].
    constructor; cbn; [done..|]. intros [|]; congruence.
Qed.

(** What running an [on_init] preserves: only its own configuration flag and
    the subscriber lists change. *)
Record init_frame (sid : Z) (e e' : t) : Prop := {
  init_frozen : configuration_frozen_ e' = configuration_frozen_ e;
  init_running : running_ e' = running_ e;
  init_strategies_fields : forall id,
    StrategySlot.registered (strategies_ e').[id] = StrategySlot.registered (strategies_ e).[id] /\
    StrategySlot.callbacks (strategies_ e').[id] = StrategySlot.callbacks (strategies_ e).[id];
  init_others : forall id, 0 <= id -> id <> sid -> (strategies_ e').[id] = (strategies_ e).[id]
}.

Lemma run_init_frame e sid program :
  (forall i, slot_ok e (instruments_ e).[i]) -> 0 <= sid ->
  let e' := run_init InstrumentCapacity StrategyCapacity MaxStrategiesPerInstrument e sid program in
  init_frame sid e e' /\ (forall i, slot_ok e' (instruments_ e').[i]).
Proof.
  intros Hs Hsid. cbv zeta. revert e Hs. induction program as [|iid ch k IH|iid k IH]; intros e Hs; cbn [run_init].
  - by split.
  - unfold context_subscribe. destruct (subscribe_fields e sid iid ch) as (Hst & Hfr & Hrun).
    pose proof (subscribe_slots e sid iid ch Hs Hsid) as Hs1.
    destruct (subscribe e sid iid ch) as [e1 result]. cbn [fst] in *.
    set (g := fun s => s <| StrategySlot.configuration_ok ::= fun ok => ok && result |>).
    set (e2 := e1 <| strategies_ ::= fun a => a.[sid <- g a.[sid]] |>).
    assert (strategies_ e2 = (strategies_ e).[sid <- g (strategies_ e).[sid]]) as Hst2
      by (unfold e2; updates; cbn; by rewrite Hst).
    assert (init_frame sid e e2) as Hf2.
    { constructor; [done|done| |]; intros id; rewrite Hst2.
      - split; by apply (aget_update_field _ _ _ _ g).
      - intros H0 Hne. by apply aget_aset_ne. }
    destruct (IH result e2) as [Hf Hs'].
    { intros i. apply (slot_ok_ext e1); [|done|apply Hs1].
      intros id. rewrite Hst2, Hst. split; by apply (aget_update_field _ _ _ _ g). }
    split; [|exact Hs']. destruct Hf2 as [A1 A2 A3 A4]. destruct Hf as [B1 B2 B3 B4].
    constructor; [exact (eq_trans B1 A1)|exact (eq_trans B2 A2)| |].
    + intros id. destruct (A3 id) as [<- <-]. apply B3.
    + intros id H0 Hne. exact (eq_trans (B4 id H0 Hne) (A4 id H0 Hne)).
  - by apply IH.
Qed.

(** ** Starting *)

Lemma init_strategies_spec ids e :
  (forall i, slot_ok e (instruments_ e).[i]) -> NoDup ids -> (forall id, id ∈ ids -> 0 <= id) ->
  let '(e', ok) := init_strategies InstrumentCapacity StrategyCapacity MaxStrategiesPerInstrument e ids in
  configuration_frozen_ e' = configuration_frozen_ e /\ running_ e' = running_ e /\
  (forall i, slot_ok e' (instruments_ e').[i]) /\
  (forall id, 0 <= id -> id ∉ ids -> (strategies_ e').[id] = (strategies_ e).[id]) /\
  (ok = true -> forall id, id ∈ ids -> StrategySlot.registered (strategies_ e').[id] = true ->
    StrategySlot.configuration_ok (strategies_ e').[id] = true).
Proof.
  revert e. induction ids as [|sid ids IH]; intros e Hs Hnd Hpos; cbn [init_strategies].
  { split_and!; try done. intros _ id Hid. by apply elem_of_nil in Hid. }
  apply NoDup_cons in Hnd as [Hnot Hnd].
  assert (0 <= sid) as Hsid by (apply Hpos; by left).
  set (e1 := match StrategySlot.registered _, _ with true, Some _ => _ | _, _ => _ end).
  assert (init_frame sid e e1 /\ (forall i, slot_ok e1 (instruments_ e1).[i])) as [[F1 F2 F3 F4] Hs1].
  { unfold e1. clear e1. assert (init_frame sid e e) as Hrefl by (by constructor).
    destruct (StrategySlot.registered _); [|by split].
    destruct (UftStrategyCallbacks.on_init _) as [program|]; [|by split]. exact (run_init_frame e sid program Hs Hsid). }
  clearbody e1. destruct (_ && _) eqn:Hfail.
  { split_and!; try done. intros id H0 [Hne _]%not_elem_of_cons. by apply F4. }
  specialize (IH e1 Hs1 Hnd). destruct (init_strategies _ _ _ e1 ids) as [e2 ok].
  destruct IH as (G1 & G2 & G3 & G4 & G5); [intros; apply Hpos; by right|].
  split_and!; [congruence..|done| |].
  - intros id H0 [Hne Hn]%not_elem_of_cons. by rewrite G4, F4.
  - intros Hok id [->|Hid]%elem_of_cons; [|by apply G5].
    rewrite G4 by done. destruct (F3 sid) as [Hr _]. rewrite Hr. intros Hreg. rewrite Hreg in Hfail.
    by apply negb_false_iff in Hfail.
Qed.

Lemma engine_start_wf e : engine_wf e -> engine_wf (start e).1.
Proof.
  intros Hwf. unfold UftMarketDataEngine.start. destruct (configuration_frozen_ e) eqn:Hfr; [done|].
  set (e0 := e <| configuration_frozen_ := true |>).
  pose proof (init_strategies_spec (seqZ 0 StrategyCapacity) e0) as Hi.
  destruct (init_strategies _ _ _ e0 _) as [e1 ok].
  destruct Hi as (F1 & F2 & F3 & _ & F5); [|apply NoDup_seqZ|intros id Hid%elem_of_seqZ; lia|].
  { intros i. apply (slot_ok_ext e); [done|done|apply Hwf]. }
  assert (running_ e = false) as Hrun.
  { destruct (running_ e) eqn:E; [|done]. apply (engine_frozen _ Hwf) in E. congruence. }
  cbn in F1, F2. destruct ok; cbn [fst].
  - constructor; cbn; [intros i; apply (slot_ok_ext e1); [done|done|apply F3]|done|].
    intros _ id Hid. apply F5; [done|]. apply elem_of_seqZ. lia.
  - constructor; [done|rewrite F2, Hrun; done..].
Qed.

Lemma engine_step_wf e op : engine_wf e -> engine_wf (engine_step e op).1.
Proof.
  intros Hwf. destruct op; cbn [engine_step].
  - by apply register_instrument_wf.
  - by apply register_strategy_wf.
  - by apply engine_start_wf.
  - constructor; [intros i; by apply (slot_ok_ext e); [..|apply Hwf]|done..].
Qed.

Lemma engine_run_wf e ops : engine_wf e -> engine_wf (engine_run e ops).1.
Proof.
  revert e. induction ops as [|op ops IH]; intros e Hwf; cbn [engine_run]; [done|].
  pose proof (engine_step_wf e op Hwf) as Hs. destruct (engine_step e op) as [e1 r].
  specialize (IH e1 Hs). by destruct (engine_run e1 ops) as [e2 rs].
Qed.

(** The deliveries a publication must make. *)
Record delivers (e : t) (present : UftStrategyCallbacks.t -> bool) (deliver : Z -> Delivery)
    (out : list Delivery * Z) : Prop := {
  delivers_count : out.2 = alen out.1 /\ 0 <= out.2 <= MaxStrategiesPerInstrument;
  delivers_once : NoDup out.1;
  delivers_present : forall d, d ∈ out.1 -> exists id, d = deliver id /\
    StrategySlot.registered (strategies_ e).[id] = true /\
    present (StrategySlot.callbacks (strategies_ e).[id]) = true;
  delivers_running : running e = false -> out.1 = []
}.

Lemma delivers_nothing e present deliver : delivers e present deliver ([], 0).
Proof. constructor; cbn; [done|apply NoDup_nil_2| |done]. intros d Hd. by apply elem_of_nil in Hd. Qed.

Lemma delivers_subscribers e present deliver l :
  subscribers_ok e present l -> Inj (=) (=) deliver -> running e = true ->
  delivers e present deliver (map deliver l, alen l).
Proof.
  intros [Hn Hb Hp] Hinj Hr. constructor; cbn.
  - unfold alen. rewrite length_map. unfold alen in Hb. lia.
  - by apply NoDup_fmap_2.
  - intros d (id & -> & Hid)%list_elem_of_fmap. exists id. split; [done|]. by apply Hp.
  - congruence.
Qed.

End engine.

(** C21: after any history of registrations, a start and stops, and whatever
    the strategies' [on_init] did, a publication calls back registered
    strategies only, each with a callback that is present and at most once, at
    most [MaxStrategiesPerInstrument] of them, reports how many it called, and
    calls nobody unless the engine runs. *)
Theorem publications_reach_subscribers Instruments Strategies Subscribers ops order transaction :
  0 <= Subscribers ->
  let e := (engine_run Instruments Strategies Subscribers (make Instruments Strategies) ops).1 in
  delivers Subscribers e UftStrategyCallbacks.on_order_detail (fun id => OrderDetailTo id order)
    (publish_order_detail Instruments e order) /\
  delivers Subscribers e UftStrategyCallbacks.on_transaction (fun id => TransactionTo id transaction)
    (publish_transaction Instruments e transaction).
Proof.
  intros Hmax e.
  assert (engine_wf Strategies Subscribers e) as Hwf
    by (by apply engine_run_wf, engine_make_wf).
  clearbody e. unfold publish_order_detail, publish_transaction.
  split; (destruct (_ || _) eqn:Hpre; [by apply delivers_nothing|];
    apply orb_false_iff in Hpre as [Hrun%negb_false_iff _];
    destruct (negb _); [by apply delivers_nothing|];
    eapply delivers_subscribers; [apply (engine_slots _ _ _ Hwf)|intros ?? [= ->]; done|done]).
Qed.




(** ** Witnesses: one instrument, two strategies *)

Definition two_strategies : list EngineOp := [
  RegisterInstrument 0 (Some [65; 0]) 1 10 1;
  RegisterStrategy 0 (Some 1) (UftStrategyCallbacks.mk
    (Some (Subscribe 0 Channel.OrderDetail (fun _ => Return))) false false true false);
  RegisterStrategy 1 (Some 2) (UftStrategyCallbacks.mk
    (Some (Subscribe 0 Channel.Transaction (fun _ => Subscribe 0 Channel.OrderDetail (fun _ => Return))))
    false false true true)].

Definition sample_order : UftOrderDetail.t :=
  UftOrderDetail.mk 1 0 5 7 3 0 UftSide.Buy UftOrderType.Limit.
Definition sample_transaction : UftTransaction.t :=
  UftTransaction.mk 1 0 5 0 5 7 3 0 UftSide.Buy UftTransactionType.Trade.

Lemma publications_reach_subscribers_witness :
  let e := (engine_run 1 2 8 (make 1 2) (two_strategies ++ [Start])).1 in
  publish_order_detail 1 e sample_order =
    ([OrderDetailTo 0 sample_order; OrderDetailTo 1 sample_order], 2) /\
  delivers 8 e UftStrategyCallbacks.on_order_detail (fun id => OrderDetailTo id sample_order)
    (publish_order_detail 1 e sample_order) /\
  delivers 8 e UftStrategyCallbacks.on_transaction (fun id => TransactionTo id sample_transaction)
    (publish_transaction 1 e sample_transaction).
Proof.
  intros e. split; [vm_compute; done|].
  apply (publications_reach_subscribers 1 2 8 (two_strategies ++ [Start])). done.
Defined.

