(* ===== verification/OrderLifecycle.v ===== *)
(** * include/qtrader/NasdaqItchOrderLifecycle.hpp

    The order tracker of the inspection tool: all the orders of a file, of
    every instrument, in one hash map, with counters of what the file did. *)

From Stdlib Require Import Ascii.
From S2P Require Import Prelude Itch50.
Import itch50.

Module OrderRecord.
Record t := mk {
  price : Z;
  remaining : Z;
  stock_locate : Z;
  side : Z
}.
#[global] Instance eta_order_record : Eta t := fun r =>
  mk (price r) (remaining r) (stock_locate r) (side r).
End OrderRecord.

Module LifecycleStats.
Record t := mk {
  adds : Z;
  executions : Z;
  executed_shares : Z;
  cancels : Z;
  canceled_shares : Z;
  deletes : Z;
  replaces : Z;
  duplicate_order_ids : Z;
  missing_order_ids : Z;
  over_reductions : Z;
  stock_locate_mismatches : Z;
  invalid_adds : Z;
  peak_active_orders : Z
}.
#[global] Instance eta_lifecycle_stats : Eta t := fun s =>
  mk (adds s) (executions s) (executed_shares s) (cancels s) (canceled_shares s) (deletes s)
    (replaces s) (duplicate_order_ids s) (missing_order_ids s) (over_reductions s)
    (stock_locate_mismatches s) (invalid_adds s) (peak_active_orders s).
Definition zero : t := mk 0 0 0 0 0 0 0 0 0 0 0 0 0.
End LifecycleStats.
Import (hints) OrderRecord LifecycleStats.

Module OrderLifecycle.

Record t := mk { orders_ : gmap Z OrderRecord.t; stats_ : LifecycleStats.t }.
#[global] Instance eta_lifecycle : Eta t := fun s => mk (orders_ s) (stats_ s).

(** The constructor only reserves buckets. *)
Definition make : t := mk ∅ LifecycleStats.zero.

Definition stats (s : t) : LifecycleStats.t := stats_ s.
Definition active_orders (s : t) : Z := Z.of_nat (size (orders_ s)).

Inductive Reduction := Execution | Cancel.

(** [++stats_.field] *)
Definition count (s : t) (f : LifecycleStats.t -> LifecycleStats.t) : t := s <| stats_ ::= f |>.

Definition update_peak (s : t) : t :=
  count s (fun st => st <| LifecycleStats.peak_active_orders ::=
    fun n => Z.max n (u64 (active_orders s)) |>).

Definition add (s : t) (message : list Z) : t :=
  let s := count s (fun st => st <| LifecycleStats.adds ::= incr |>) in
  let order_id := read_u64 (message +! 11) in
  let side := byte_at message 19 in
  let shares := read_u32 (message +! 20) in
  let price := read_u32 (message +! 32) in
  let stock_locate := read_u16 (message +! 1) in
  if (order_id =? 0) || (shares =? 0) || (price =? 0) ||
     (negb (side =? chr "B") && negb (side =? chr "S"))
  then count s (fun st => st <| LifecycleStats.invalid_adds ::= incr |>)
  else match orders_ s !! order_id with
  | Some _ => count s (fun st => st <| LifecycleStats.duplicate_order_ids ::= incr |>)
  | None =>
      update_peak (s <| orders_ ::= <[order_id := OrderRecord.mk price shares stock_locate side]> |>)
  end.

(** Counts an order whose locate is not the message's. *)
Definition check_locate (s : t) (message : list Z) (found : OrderRecord.t) : t :=
  if negb (OrderRecord.stock_locate found =? read_u16 (message +! 1))
  then count s (fun st => st <| LifecycleStats.stock_locate_mismatches ::= incr |>) else s.

Definition reduce (s : t) (message : list Z) (shares : Z) (kind : Reduction) : t :=
  let s :=
    match kind with
    | Execution =>
        count s (fun st => st <| LifecycleStats.executions ::= incr |>
          <| LifecycleStats.executed_shares ::= fun n => u64 (n + shares) |>)
    | Cancel =>
        count s (fun st => st <| LifecycleStats.cancels ::= incr |>
          <| LifecycleStats.canceled_shares ::= fun n => u64 (n + shares) |>)
    end in
  let order_id := read_u64 (message +! 11) in
  match orders_ s !! order_id with
  | None => count s (fun st => st <| LifecycleStats.missing_order_ids ::= incr |>)
  | Some found =>
      let s := check_locate s message found in
      if (shares =? 0) || (OrderRecord.remaining found <? shares)
      then count s (fun st => st <| LifecycleStats.over_reductions ::= incr |>)
      else
        let left := u32 (OrderRecord.remaining found - shares) in
        let s := s <| orders_ ::= <[order_id := found <| OrderRecord.remaining := left |>]> |> in
        if left =? 0 then s <| orders_ ::= delete order_id |> else s
  end.

Definition erase (s : t) (message : list Z) : t :=
  let s := count s (fun st => st <| LifecycleStats.deletes ::= incr |>) in
  let order_id := read_u64 (message +! 11) in
  match orders_ s !! order_id with
  | None => count s (fun st => st <| LifecycleStats.missing_order_ids ::= incr |>)
  | Some found => (check_locate s message found) <| orders_ ::= delete order_id |>
  end.

Definition replace (s : t) (message : list Z) : t :=
  let s := count s (fun st => st <| LifecycleStats.replaces ::= incr |>) in
  let old_order_id := read_u64 (message +! 11) in
  let new_order_id := read_u64 (message +! 19) in
  let shares := read_u32 (message +! 27) in
  let price := read_u32 (message +! 31) in
  match orders_ s !! old_order_id with
  | None => count s (fun st => st <| LifecycleStats.missing_order_ids ::= incr |>)
  | Some found =>
      let s := check_locate s message found in
      if (new_order_id =? 0) || (shares =? 0) || (price =? 0)
      then count s (fun st => st <| LifecycleStats.invalid_adds ::= incr |>)
      else if bool_decide (is_Some (orders_ s !! new_order_id))
      then count s (fun st => st <| LifecycleStats.duplicate_order_ids ::= incr |>)
      else
        let replacement := found <| OrderRecord.price := price |> <| OrderRecord.remaining := shares |> in
        update_peak (s <| orders_ ::= fun m => <[new_order_id := replacement]> (delete old_order_id m) |>)
  end.

Definition on_message (s : t) (message : list Z) (size : Z) : t :=
  if size =? 0 then s
  else
    let type := byte_at message 0 in
    let sized := size =? expected_message_size type in
    if (type =? chr "A") || (type =? chr "F") then if sized then add s message else s
    else if (type =? chr "E") || (type =? chr "C") then
      if sized then reduce s message (read_u32 (message +! 19)) Execution else s
    else if type =? chr "X" then
      if sized then reduce s message (read_u32 (message +! 19)) Cancel else s
    else if type =? chr "D" then if sized then erase s message else s
    else if type =? chr "U" then if sized then replace s message else s
    else s.

End OrderLifecycle.
