(* ===== verification/LifecycleProperties.v ===== *)
(** * Properties of the order tracker

    Its orders are well formed, its peak is the peak, and on messages the UFT
    adapter takes without complaint it keeps the adapter's orders. *)

From Stdlib Require Import Ascii.
From S2P Require Import Prelude OpenAddressing FixedHashTable Itch50 UftTypes UftAdapter UftAdapterFacts.
From S2P Require Import Engine OrderLifecycle Samples.
Import itch50 OrderLifecycle.
Import (hints) OrderRecord LifecycleStats.

(** ** The invariant *)

Definition record_ok (r : OrderRecord.t) : Prop :=
  0 < OrderRecord.price r < 2 ^ 32 /\ 0 < OrderRecord.remaining r < 2 ^ 32 /\
  (OrderRecord.side r = chr "B" \/ OrderRecord.side r = chr "S").

Definition records_ok (orders : gmap Z OrderRecord.t) : Prop :=
  map_Forall (fun id r => 0 < id < 2 ^ 64 /\ record_ok r) orders.

Definition peak (s : t) : Z := LifecycleStats.peak_active_orders (stats s).

Record lifecycle_ok (s : t) : Prop := {
  ok_records : records_ok (orders_ s);
  ok_peak : active_orders s <= peak s
}.

Lemma positive_keys_size (X : gset Z) n :
  0 < n -> (forall k, k ∈ X -> 0 < k < n) -> Z.of_nat (size X) < n.
Proof.
  intros Hn Hk. assert (X ⊆ list_to_set (seqZ 1 (n - 1))) as Hsub.
  { intros k Hin. apply elem_of_list_to_set, elem_of_seqZ. specialize (Hk k Hin). lia. }
  apply subseteq_size in Hsub. rewrite size_list_to_set, length_seqZ in Hsub by apply NoDup_seqZ. lia.
Qed.

(** Order ids are 64-bit, so that there are fewer than [2^64] orders. *)
Lemma records_size orders : records_ok orders -> Z.of_nat (size orders) < 2 ^ 64.
Proof.
  intros Hok. rewrite <- size_dom. apply positive_keys_size; [by apply Z.pow_pos_nonneg|].
  intros id (r & Hr)%elem_of_dom. by destruct (Hok _ _ Hr).
Qed.

Lemma records_insert orders id r :
  records_ok orders -> 0 < id < 2 ^ 64 -> record_ok r -> records_ok (<[id := r]> orders).
Proof. intros. by apply map_Forall_insert_2. Qed.

Lemma records_delete orders id : records_ok orders -> records_ok (delete id orders).
Proof. intros. by apply map_Forall_delete. Qed.

(** What a handler may do: count, drop or shrink orders, or add one and look at
    the peak. *)
Definition handled (s s' : t) : Prop :=
  records_ok (orders_ s') /\
  (peak s' = peak s /\ active_orders s' <= active_orders s \/
   peak s' = Z.max (peak s) (active_orders s')).

Lemma handled_ok s s' : lifecycle_ok s -> handled s s' -> lifecycle_ok s' /\ peak s' = Z.max (peak s) (active_orders s').
Proof. intros [_ Hp] [Hr Hs]. split; [split; [done|]|]; lia. Qed.

Lemma handled_same s s' :
  lifecycle_ok s -> orders_ s' = orders_ s -> peak s' = peak s -> handled s s'.
Proof. intros [Hr _] Ho Hp. split; [by rewrite Ho|]. left. unfold active_orders. by rewrite Ho. Qed.

Lemma update_peak_handled s s1 :
  records_ok (orders_ s1) -> peak s1 = peak s -> handled s (update_peak s1).
Proof.
  intros Hr Hp. split; [done|]. right.
  change (Z.max (peak s1) (u64 (active_orders s1)) = Z.max (peak s) (active_orders s1)).
  pose proof (records_size _ Hr). rewrite wrap_small; [by rewrite Hp|]. unfold active_orders. lia.
Qed.

Lemma side_ok x : (negb (x =? chr "B") && negb (x =? chr "S")) = false -> x = chr "B" \/ x = chr "S".
Proof. destruct (Z.eqb_spec x (chr "B")), (Z.eqb_spec x (chr "S")); simpl; auto; discriminate. Qed.

Section handlers.
Context (s : t) (message : list Z).
Hypothesis Hok : lifecycle_ok s.
Hypothesis Hbytes : Forall is_byte message.

Lemma field_u32 i : 0 <= read_u32 (message +! i) < 2 ^ 32.
Proof. by apply read_u32_range, advance_bytes. Qed.

Lemma field_u64 i : 0 <= read_u64 (message +! i) < 2 ^ 64.
Proof. by apply read_u64_range, advance_bytes. Qed.

Lemma tracker_add_handled : handled s (add s message).
Proof.
  unfold add. pose proof (field_u64 11). pose proof (field_u32 20). pose proof (field_u32 32).
  match goal with |- handled _ (if ?c then _ else _) => destruct c eqn:Hc end;
    [by apply handled_same|].
  apply orb_false_iff in Hc as [[[Hid Hq]%orb_false_iff Hp]%orb_false_iff Hside].
  apply side_ok in Hside. rewrite !Z.eqb_neq in *.
  match goal with |- handled _ (match ?x with _ => _ end) => destruct x eqn:Hx end;
    [by apply handled_same|].
  apply update_peak_handled; [|done]. apply records_insert; [apply Hok|lia|].
  split_and!; cbn; (lia || done).
Qed.

Lemma tracker_reduce_handled shares kind :
  0 <= shares < 2 ^ 32 -> handled s (reduce s message shares kind).
Proof.
  intros Hq. unfold reduce.
  set (s1 := match kind with Execution => _ | Cancel => _ end).
  assert (orders_ s1 = orders_ s /\ peak s1 = peak s) as [Ho Hpk] by (by destruct kind).
  clearbody s1. rewrite Ho.
  destruct (orders_ s !! read_u64 (message +! 11)) as [found|] eqn:Hf;
    [|apply handled_same; [done|exact Ho|exact Hpk]].
  set (s2 := check_locate s1 message found).
  assert (orders_ s2 = orders_ s /\ peak s2 = peak s) as [Ho2 Hpk2].
  { unfold s2, check_locate. by case_match. }
  clearbody s2.
  match goal with |- handled _ (if ?c then _ else _) => destruct c eqn:Hc end;
    [apply handled_same; [done|exact Ho2|exact Hpk2]|].
  apply orb_false_iff in Hc as [Hz Hle]. rewrite Z.eqb_neq, Z.ltb_ge in *.
  destruct (ok_records _ Hok _ _ Hf) as (Hid & Hp & Hr & Hs). cbn beta in *.
  rewrite wrap_small by lia.
  assert (size (<[read_u64 (message +! 11) := found <| OrderRecord.remaining :=
     OrderRecord.remaining found - shares |>]> (orders_ s)) = size (orders_ s)) as Hsz.
  { by rewrite map_size_insert_Some. }
  case_match eqn:He.
  - split; [|left; split; [exact Hpk2|]]; unfold active_orders; updates; cbn [orders_]; rewrite Ho2, delete_insert_eq.
    + by apply records_delete, Hok.
    + rewrite map_size_delete_Some by (by eexists). lia.
  - apply Z.eqb_neq in He.
    split; [|left; split; [exact Hpk2|]]; unfold active_orders; updates; cbn [orders_]; rewrite Ho2.
    + apply records_insert; [apply Hok|lia|]. split_and!; cbn; (lia || done).
    + revert Hsz. updates. intros ->. done.
Qed.

Lemma tracker_erase_handled : handled s (erase s message).
Proof.
  unfold erase. match goal with |- handled _ (match ?x with _ => _ end) => destruct x as [found|] eqn:Hf end;
    [|by apply handled_same].
  set (s2 := check_locate _ message found).
  assert (orders_ s2 = orders_ s /\ peak s2 = peak s) as [Ho2 Hpk2].
  { unfold s2, check_locate. by case_match. }
  split; [|left; split; [exact Hpk2|]]; unfold active_orders; updates; cbn [orders_]; rewrite Ho2.
  - by apply records_delete, Hok.
  - rewrite map_size_delete_Some by (by eexists). lia.
Qed.

Lemma tracker_replace_handled : handled s (replace s message).
Proof.
  unfold replace. pose proof (field_u64 19). pose proof (field_u32 27). pose proof (field_u32 31).
  match goal with |- handled _ (match ?x with _ => _ end) => destruct x as [found|] eqn:Hf end;
    [|by apply handled_same].
  set (s2 := check_locate _ message found).
  assert (orders_ s2 = orders_ s /\ peak s2 = peak s) as [Ho2 Hpk2].
  { unfold s2, check_locate. by case_match. }
  clearbody s2.
  destruct (ok_records _ Hok _ _ Hf) as (Hid & Hp & Hr & Hs).
  match goal with |- handled _ (if ?c then _ else _) => destruct c eqn:Hc end;
    [apply handled_same; [done|exact Ho2|exact Hpk2]|].
  apply orb_false_iff in Hc as [[Hz Hq]%orb_false_iff Hpr]. rewrite !Z.eqb_neq in *.
  case_bool_decide; [apply handled_same; [done|exact Ho2|exact Hpk2]|].
  apply update_peak_handled; [|exact Hpk2]. updates. cbn [orders_]. rewrite Ho2.
  apply records_insert; [by apply records_delete, Hok|lia|]. split_and!; cbn; (lia || done).
Qed.

Lemma tracker_on_message_handled size : handled s (on_message s message size).
Proof.
  assert (handled s s) by (by apply handled_same). unfold on_message.
  destruct (size =? 0); [done|]. destruct (_ || _); [destruct (_ =? _); [apply tracker_add_handled|done]|].
  destruct (_ || _); [destruct (_ =? _); [apply tracker_reduce_handled, field_u32|done]|].
  repeat match goal with |- handled _ (if ?c then _ else _) => destruct c end;
    first [done|apply tracker_reduce_handled, field_u32|apply tracker_erase_handled|apply tracker_replace_handled].
Qed.
End handlers.

(** ** The tracker and the adapter *)

Definition order_of (r : OrderRecord.t) : Order.t :=
  Order.mk (OrderRecord.price r) (OrderRecord.remaining r)
    (NasdaqItchUftAdapter.side_of (OrderRecord.side r)).

(** Whether the adapter counted the message as malformed, missing or too much. *)
Definition complains (before after : NasdaqItchUftAdapter.t) : bool :=
  let b := NasdaqItchUftAdapter.stats before in
  let a := NasdaqItchUftAdapter.stats after in
  negb (UftAdapterStats.malformed_or_missing_orders a =? UftAdapterStats.malformed_or_missing_orders b) ||
  negb (UftAdapterStats.capacity_exhaustions a =? UftAdapterStats.capacity_exhaustions b).

(** The tracker's own error counters. *)
Definition errors (s : t) : list Z :=
  let st := stats s in
  [LifecycleStats.duplicate_order_ids st; LifecycleStats.missing_order_ids st;
   LifecycleStats.over_reductions st; LifecycleStats.stock_locate_mismatches st;
   LifecycleStats.invalid_adds st].

Record tracks (locator : Z) (s : t) (a : NasdaqItchUftAdapter.t) : Prop := {
  tracks_orders : order_of <$> orders_ s = orders_view a;
  tracks_locate : map_Forall (fun _ r => OrderRecord.stock_locate r = locator) (orders_ s);
  tracks_wf : adapter_wf a;
  tracks_locator : NasdaqItchUftAdapter.locator_ a = locator
}.

(** One message: the tracker follows without an error. *)
Definition follows (locator : Z) (s s' : t) (a' : NasdaqItchUftAdapter.t) : Prop :=
  tracks locator s' a' /\ errors s' = errors s.

Lemma complains_malformed a a' :
  NasdaqItchUftAdapter.stats_ a' = NasdaqItchUftAdapter.stats_ a ->
  complains a (NasdaqItchUftAdapter.malformed a') = true.
Proof.
  intros Hs. unfold complains, NasdaqItchUftAdapter.malformed, NasdaqItchUftAdapter.count,
    NasdaqItchUftAdapter.stats. updates. cbn. rewrite Hs. by rewrite incr_changes.
Qed.

Lemma complains_insert a a' r :
  NasdaqItchUftAdapter.stats_ a' = NasdaqItchUftAdapter.stats_ a ->
  complains a (NasdaqItchUftAdapter.count_insert_failure a' r) = true.
Proof.
  intros Hs. destruct r; try by apply complains_malformed.
  unfold complains, NasdaqItchUftAdapter.count_insert_failure, NasdaqItchUftAdapter.count,
    NasdaqItchUftAdapter.stats. updates. cbn. rewrite Hs. by rewrite incr_changes, orb_true_r.
Qed.

Lemma tracks_tables locator s a a' : same_tables a a' -> tracks locator s a -> tracks locator s a'.
Proof.
  intros Ht [Ho Hl Hw Hloc]. constructor; [|done|by eapply adapter_wf_tables|].
  - by rewrite (same_tables_view _ _ Ht).
  - by destruct (same_tables_ids _ _ Ht) as [_ ->].
Qed.

(** The adapter's map changed as the tracker's did. *)
Lemma tracks_change locator s a s' a' :
  tracks locator s a -> order_of <$> orders_ s' = orders_view a' ->
  map_Forall (fun _ r => OrderRecord.stock_locate r = locator) (orders_ s') ->
  adapter_wf a' -> NasdaqItchUftAdapter.locator_ a' = NasdaqItchUftAdapter.locator_ a ->
  tracks locator s' a'.
Proof. intros [_ _ _ Hl] Ho Hloc Hw Hl'. constructor; [done..|]. by rewrite Hl'. Qed.

Ltac skip_counts :=
  repeat match goal with
  | |- context [orders_ (count ?x ?f)] => change (orders_ (count x f)) with (orders_ x)
  end.

(** Steps over a publication: only counters change. *)
Ltac pass_emit :=
  match goal with
  | |- context [NasdaqItchUftAdapter.emit_order ?a1 ?e ?m ?k ?o] =>
      let Ht := fresh "Ht" in
      pose proof (emit_order_tables a1 e m k o) as Ht;
      destruct (NasdaqItchUftAdapter.emit_order a1 e m k o) as [? ?]; cbn [fst] in Ht |- *
  | |- context [NasdaqItchUftAdapter.emit_book ?a1 ?e ?m ?x ?i ?n ?mt ?p ?q ?sd ?pr] =>
      let Ht := fresh "Ht" in
      pose proof (emit_book_tables a1 e m x i n mt p q sd pr) as Ht;
      destruct (NasdaqItchUftAdapter.emit_book a1 e m x i n mt p q sd pr) as [? ?]; cbn [fst] in Ht |- *
  | |- context [NasdaqItchUftAdapter.emit_transaction ?a1 ?e ?m ?x ?y ?sd ?p ?q ?i] =>
      let Ht := fresh "Ht" in
      pose proof (emit_transaction_tables a1 e m x y sd p q i) as Ht;
      destruct (NasdaqItchUftAdapter.emit_transaction a1 e m x y sd p q i) as [? ?]; cbn [fst] in Ht |- *
  end.

(** A complaint ends a case. *)
Ltac complaint := cbn [fst]; by rewrite ?complains_malformed, ?complains_insert.

Section agreement.
Context {E : Type} `{MarketDataEngine E}.
Context (locator : Z) (s : t) (a : NasdaqItchUftAdapter.t) (engine : E) (message : list Z).
Hypothesis Htracks : tracks locator s a.
Hypothesis Hok : lifecycle_ok s.
Hypothesis Hbytes : Forall is_byte message.
Hypothesis Hlocate : read_u16 (message +! 1) = locator.

Lemma tracked_order id : orders_view a !! id = order_of <$> orders_ s !! id.
Proof. by rewrite <- (tracks_orders _ _ _ Htracks), lookup_fmap. Qed.

Lemma located s1 id found :
  orders_ s !! id = Some found -> orders_ s1 = orders_ s -> check_locate s1 message found = s1.
Proof.
  intros Hf _. unfold check_locate. rewrite Hlocate, (tracks_locate _ _ _ Htracks _ _ Hf).
  by rewrite Z.eqb_refl.
Qed.

Lemma entered_order_wf side price quantity :
  side <> UftSide.Unknown -> (quantity =? 0) = false -> (price =? 0) = false ->
  0 <= price < 2 ^ 32 -> 0 <= quantity < 2 ^ 32 -> order_wf (Order.mk price quantity side).
Proof. intros Hs Hq%Z.eqb_neq Hp%Z.eqb_neq. constructor; cbn; [done|lia|lia]. Qed.

Lemma add_follows :
  let a' := (NasdaqItchUftAdapter.add a engine message).1 in
  complains a a' = false -> follows locator s (add s message) a'.
Proof.
  cbn zeta. unfold NasdaqItchUftAdapter.add, add.
  pose proof (read_u32_range _ (advance_bytes message 20 Hbytes)).
  pose proof (read_u32_range _ (advance_bytes message 32 Hbytes)).
  match goal with |- context [if ?c then _ else _] => destruct c eqn:Hc end;
    [cbn [fst]; by rewrite complains_malformed|].
  apply orb_false_iff in Hc as [[Hside Hq]%orb_false_iff Hp].
  destruct (FixedHashTable.insert _ _ _) as [tab r] eqn:Hi.
  destruct (decide (r = FixedHashTable.Inserted)) as [->|Hr];
    [|by destruct r; cbn [fst]; rewrite ?complains_insert].
  destruct (insert_order_wf a _ _ _ _ (tracks_wf _ _ _ Htracks)
    (entered_order_wf _ _ _ (known_side _ Hside) Hq Hp ltac:(done) ltac:(done)) Hi) as (Hwf & Hv & Hin).
  destruct (Hin eq_refl) as [Hnone Hid]. rewrite decide_True in Hv by done.
  rewrite tracked_order, fmap_None in Hnone.
  assert ((negb (byte_at message 19 =? chr "B") && negb (byte_at message 19 =? chr "S")) = false) as Hsd.
  { unfold NasdaqItchUftAdapter.is_unknown, NasdaqItchUftAdapter.side_of in Hside.
    destruct (_ =? chr "B"), (_ =? chr "S"); done. }
  apply Z.eqb_neq in Hid. rewrite Hid, Hq, Hp, Hsd. cbn [orb]. skip_counts. rewrite Hnone.
  intros _. split; [|reflexivity].
  match goal with |- context [NasdaqItchUftAdapter.emit_order ?a1 ?e ?m ?k ?o] =>
    pose proof (emit_order_tables a1 e m k o) as Ht1;
    destruct (NasdaqItchUftAdapter.emit_order a1 e m k o) as [a2 e2] end.
  match goal with |- tracks _ _ (NasdaqItchUftAdapter.emit_book ?a1 ?e ?m ?x ?i ?n ?mt ?p ?q ?sd ?pr).1 =>
    pose proof (emit_book_tables a1 e m x i n mt p q sd pr) as Ht2 end.
  eapply tracks_tables; [exact Ht2|]. cbn [fst] in Ht1. eapply tracks_tables; [exact Ht1|].
  eapply tracks_tables; [apply count_tables|].
  eapply tracks_change; [done|..|done|done].
  - rewrite Hv, <- (tracks_orders _ _ _ Htracks).
    exact (fmap_insert order_of (orders_ s) (read_u64 (message +! 11))
      (OrderRecord.mk (read_u32 (message +! 32)) (read_u32 (message +! 20))
        (read_u16 (message +! 1)) (byte_at message 19))).
  - apply map_Forall_insert_2; [exact Hlocate|apply Htracks].
Qed.

Lemma tracks_take a2 id q found :
  tracks locator s a2 -> orders_ s !! id = Some found -> 0 < q <= OrderRecord.remaining found ->
  forall s1, orders_ s1 = (if decide (OrderRecord.remaining found = q) then delete id (orders_ s)
    else <[id := found <| OrderRecord.remaining := OrderRecord.remaining found - q |>]> (orders_ s)) ->
  tracks locator s1 (NasdaqItchUftAdapter.take a2 id q).
Proof.
  intros Ht Hf Hq s1 Hs1. pose proof (tracks_locate _ _ _ Ht _ _ Hf) as Hl. cbn beta in Hl.
  assert (orders_view a2 !! id = Some (order_of found)) as Hv.
  { by rewrite <- (tracks_orders _ _ _ Ht), lookup_fmap, Hf. }
  destruct (take_spec a2 id q _ (tracks_wf _ _ _ Ht) Hv Hq) as [Hwf Htake].
  destruct (take_others a2 id q) as (_ & Hloc & _).
  eapply tracks_change; [exact Ht| |..|exact Hwf|exact Hloc]; rewrite Hs1, ?Htake.
  - rewrite <- (tracks_orders _ _ _ Ht). unfold take_order.
    change (Order.remaining (order_of found)) with (OrderRecord.remaining found).
    case_decide; [by rewrite fmap_delete|by rewrite fmap_insert].
  - case_decide; [apply map_Forall_delete, Ht|apply map_Forall_insert_2; [exact Hl|apply Ht]].
Qed.

Lemma reduce_follows a2 q kind found :
  tracks locator s a2 -> orders_ s !! read_u64 (message +! 11) = Some found ->
  0 < q <= OrderRecord.remaining found ->
  follows locator s (reduce s message q kind)
    (NasdaqItchUftAdapter.take a2 (read_u64 (message +! 11)) q).
Proof.
  intros Ht Hf Hq. destruct (ok_records _ Hok _ _ Hf) as (_ & _ & Hr & _).
  unfold reduce. set (s1 := match kind with Execution => _ | Cancel => _ end).
  assert (orders_ s1 = orders_ s /\ errors s1 = errors s) as [Ho He] by (by destruct kind).
  clearbody s1. rewrite Ho, Hf, (located s1 _ _ Hf Ho).
  assert ((q =? 0) = false) as -> by (apply Z.eqb_neq; lia).
  assert ((OrderRecord.remaining found <? q) = false) as -> by (apply Z.ltb_ge; lia).
  cbn [orb]. rewrite wrap_small by lia.
  destruct (Z.eqb_spec (OrderRecord.remaining found - q) 0) as [Hz|Hz]; (split; [|exact He]);
    apply (tracks_take a2 _ q found); try done; updates; cbn [orders_]; rewrite Ho.
  - rewrite decide_True by lia. by rewrite delete_insert_eq.
  - rewrite decide_False by lia. done.
Qed.

Lemma found_order id o : orders_view a !! id = Some o ->
  exists found, orders_ s !! id = Some found /\ o = order_of found.
Proof. rewrite tracked_order. intros (found & Hf & ->)%fmap_Some. by exists found. Qed.

Lemma tracks_matches id mt tab r :
  0 <= Match.quantity mt -> FixedHashTable.insert (NasdaqItchUftAdapter.matches_ a) id mt = (tab, r) ->
  tracks locator s (a <| NasdaqItchUftAdapter.matches_ := tab |>).
Proof.
  intros Hq Hi. eapply tracks_change; [exact Htracks|apply Htracks|apply Htracks| |done].
  by eapply insert_match_wf; [apply Htracks|..].
Qed.

Lemma tracks_trans a1 a2 : tracks locator s a1 -> same_tables a1 a2 -> tracks locator s a2.
Proof. intros. by eapply tracks_tables. Qed.

Lemma cancel_partial_follows :
  let a' := (NasdaqItchUftAdapter.cancel_partial a engine message).1 in
  complains a a' = false ->
  follows locator s (reduce s message (read_u32 (message +! 19)) Cancel) a'.
Proof.
  cbn zeta. unfold NasdaqItchUftAdapter.cancel_partial. rewrite find_order by apply Htracks.
  pose proof (read_u32_range _ (advance_bytes message 19 Hbytes)).
  destruct (orders_view a !! _) as [o|] eqn:Ho; [|complaint].
  apply found_order in Ho as (found & Hf & ->).
  match goal with |- context [if ?c then _ else _] => destruct c eqn:Hc end; [complaint|].
  apply orb_false_iff in Hc as [Hz Hle]. rewrite Z.eqb_neq, Z.ltb_ge in *.
  do 2 pass_emit. intros _. apply (reduce_follows _ _ _ found); [|done|cbn in Hle; lia].
  eapply tracks_trans; [|eassumption]. eapply tracks_trans; eassumption.
Qed.

Lemma execute_follows :
  let a' := (NasdaqItchUftAdapter.execute a engine message).1 in
  complains a a' = false ->
  follows locator s (reduce s message (read_u32 (message +! 19)) Execution) a'.
Proof.
  cbn zeta. unfold NasdaqItchUftAdapter.execute. rewrite find_order by apply Htracks.
  pose proof (read_u32_range _ (advance_bytes message 19 Hbytes)).
  destruct (orders_view a !! _) as [o|] eqn:Ho; [|complaint].
  apply found_order in Ho as (found & Hf & ->).
  match goal with |- context [if ?c then _ else _] => destruct c eqn:Hc end; [complaint|].
  apply orb_false_iff in Hc as [Hz Hle]. rewrite Z.eqb_neq, Z.ltb_ge in *. cbn zeta.
  match goal with |- context [if ?c then (NasdaqItchUftAdapter.malformed _, _) else _] =>
    destruct c end; [complaint|].
  match goal with |- context [FixedHashTable.insert ?x ?k ?v] =>
    destruct (FixedHashTable.insert x k v) as [tab r] eqn:Hi end.
  assert (tracks locator s (a <| NasdaqItchUftAdapter.matches_ := tab |>)) as Ht1.
  { eapply tracks_matches; [|exact Hi]. cbn. lia. }
  set (a1 := a <| NasdaqItchUftAdapter.matches_ := tab |>) in *.
  destruct r; [| |complaint|complaint].
  all: match goal with |- context [let '(_, _) := if ?b then ?x else ?y in _] =>
    assert (same_tables a1 (if b then x else y).1) as Hs by
      (destruct b; [apply count_tables|first [apply count_tables|apply emit_transaction_tables]]);
    destruct (if b then x else y) as [a2 e2]; cbn [fst] in Hs end.
  all: pass_emit; intros _; apply (reduce_follows _ _ _ found); [|done|cbn in Hle; lia].
  all: eapply tracks_trans; [|eassumption]; eapply tracks_trans; eassumption.
Qed.

Lemma cancel_all_follows :
  let a' := (NasdaqItchUftAdapter.cancel_all a engine message).1 in
  complains a a' = false -> follows locator s (erase s message) a'.
Proof.
  cbn zeta. unfold NasdaqItchUftAdapter.cancel_all, erase. rewrite find_order by apply Htracks.
  destruct (orders_view a !! _) as [o|] eqn:Ho; [|complaint].
  apply found_order in Ho as (found & Hf & ->). do 2 pass_emit. intros _.
  skip_counts. rewrite Hf, (located _ _ _ Hf) by done. split; [|done].
  match goal with |- tracks _ _ (?x <| NasdaqItchUftAdapter.orders_ ::= _ |>) =>
    assert (tracks locator s x) as Hx by
      (eapply tracks_trans; [|eassumption]; eapply tracks_trans; eassumption);
    destruct (erase_order_wf x (read_u64 (message +! 11)) (tracks_wf _ _ _ Hx)) as [Hwf Hv] end.
  eapply tracks_change; [exact Hx| | |exact Hwf|done].
  - rewrite Hv, <- (tracks_orders _ _ _ Hx). exact (fmap_delete order_of (orders_ s) _).
  - apply (map_Forall_delete _ (orders_ s)), Htracks.
Qed.

Lemma replace_follows :
  let a' := (NasdaqItchUftAdapter.replace a engine message).1 in
  complains a a' = false -> follows locator s (replace s message) a'.
Proof.
  cbn zeta. unfold NasdaqItchUftAdapter.replace, replace. rewrite !find_order by apply Htracks.
  pose proof (read_u32_range _ (advance_bytes message 27 Hbytes)).
  pose proof (read_u32_range _ (advance_bytes message 31 Hbytes)).
  destruct (orders_view a !! read_u64 (message +! 11)) as [o|] eqn:Ho; [|complaint].
  pose proof (adapter_order_wf _ (tracks_wf _ _ _ Htracks) _ _ Ho) as [Hside _ _].
  apply found_order in Ho as (found & Hf & ->).
  match goal with |- context [if ?c then _ else _] => destruct c eqn:Hc end; [complaint|].
  apply orb_false_iff in Hc as [[[Hid Hq]%orb_false_iff Hp]%orb_false_iff Hnew%bool_decide_eq_false].
  destruct (erase_order_wf a (read_u64 (message +! 11)) (tracks_wf _ _ _ Htracks)) as [Hwf1 Hv1].
  cbn zeta.
  match goal with |- context [FixedHashTable.insert ?x ?k ?v] =>
    destruct (FixedHashTable.insert x k v) as [tab r] eqn:Hi end.
  destruct (decide (r = FixedHashTable.Inserted)) as [->|Hr];
    [|by destruct r; cbn [fst]; rewrite ?complains_insert].
  destruct (insert_order_wf _ _ _ _ _ Hwf1 (entered_order_wf _ _ _ Hside Hq Hp
    ltac:(done) ltac:(done)) Hi) as (Hwf & Hv & _).
  rewrite decide_True in Hv by done.
  do 3 pass_emit. intros _. skip_counts. rewrite Hf, (located _ _ _ Hf) by done.
  assert (orders_ s !! read_u64 (message +! 19) = None) as Hn.
  { apply eq_None_not_Some. intros [r Hrr]. apply Hnew. rewrite tracked_order, Hrr. by eexists. }
  rewrite Hid, Hq, Hp. cbn [orb]. skip_counts. rewrite bool_decide_false by (rewrite Hn; intros []; done).
  split; [|reflexivity].
  do 3 (eapply tracks_tables; [eassumption|]).
  eapply tracks_change; [done| | |exact Hwf|done].
  - rewrite Hv, Hv1, <- (tracks_orders _ _ _ Htracks), <- fmap_delete.
    exact (fmap_insert order_of (delete (read_u64 (message +! 11)) (orders_ s)) _
      (OrderRecord.mk (read_u32 (message +! 31)) (read_u32 (message +! 27))
        (OrderRecord.stock_locate found) (OrderRecord.side found))).
  - apply (map_Forall_insert_2 _ (delete _ (orders_ s))).
    + exact (tracks_locate _ _ _ Htracks _ _ Hf).
    + apply map_Forall_delete, Htracks.
Qed.

Lemma publish_match_tracks id mt :
  0 <= Match.quantity mt -> tracks locator s (NasdaqItchUftAdapter.publish_match a engine message id mt).1.
Proof.
  intros Hq. unfold NasdaqItchUftAdapter.publish_match.
  destruct (FixedHashTable.insert _ _ _) as [tab r] eqn:Hi.
  pose proof (tracks_matches _ _ _ _ Hq Hi) as Ht1.
  destruct r; repeat pass_emit; repeat (eapply tracks_tables; [eassumption|]); try done.
  - eapply tracks_tables; [apply count_tables|done].
  - eapply tracks_tables; [apply (count_insert_failure_tables _ FixedHashTable.Full)|done].
  - eapply tracks_tables; [apply (count_insert_failure_tables _ FixedHashTable.InvalidKey)|done].
Qed.

Lemma non_cross_trade_tracks : tracks locator s (NasdaqItchUftAdapter.non_cross_trade a engine message).1.
Proof.
  unfold NasdaqItchUftAdapter.non_cross_trade.
  pose proof (read_u32_range _ (advance_bytes message 20 Hbytes)).
  match goal with |- context [if ?c then _ else _] => destruct c end;
    [eapply tracks_tables; [apply malformed_tables|done]|]. apply publish_match_tracks. cbn. lia.
Qed.

Lemma cross_trade_tracks : tracks locator s (NasdaqItchUftAdapter.cross_trade a engine message).1.
Proof.
  unfold NasdaqItchUftAdapter.cross_trade.
  pose proof (read_u64_range _ (advance_bytes message 11 Hbytes)).
  match goal with |- context [if ?c then _ else _] => destruct c end;
    [eapply tracks_tables; [apply malformed_tables|done]|]. apply publish_match_tracks. cbn. lia.
Qed.

Lemma broken_trade_tracks : tracks locator s (NasdaqItchUftAdapter.broken_trade a engine message).1.
Proof.
  unfold NasdaqItchUftAdapter.broken_trade.
  destruct (FixedHashTable.find _ _) as [mt|]; [|eapply tracks_tables; [apply count_tables|done]].
  pass_emit.
  match goal with |- context [let '(_, _) := if ?b then ?x else ?y in _] =>
    assert (tracks locator s (if b then x else y).1) as Hs;
      [|destruct (if b then x else y) as [a2 e2]; cbn [fst] in Hs |- *] end.
  - destruct (Match.emitted mt); [pass_emit; eapply tracks_tables; [eassumption|]
      |cbn [fst]; eapply tracks_tables; [apply count_tables|]]; by eapply tracks_tables.
  - eapply tracks_change; [exact Hs|apply Hs|apply Hs|by apply erase_match_wf, Hs|done].
Qed.
End agreement.

Lemma on_message_follows {E} `{MarketDataEngine E} locator s a (engine : E) message size :
  tracks locator s a -> lifecycle_ok s -> Forall is_byte message -> read_u16 (message +! 1) = locator ->
  let a' := (NasdaqItchUftAdapter.on_message a (Some message) size engine).1 in
  complains a a' = false -> follows locator s (on_message s message size) a'.
Proof.
  intros Ht Hok Hb Hl. cbn zeta.
  assert (follows locator s s a) as Hidle by done.
  unfold NasdaqItchUftAdapter.on_message, on_message.
  rewrite (tracks_locator _ _ _ Ht), Hl, Z.eqb_refl, orb_false_r.
  destruct (Z.ltb_spec size 11).
  { intros _. destruct (Z.eqb_spec size 0); [done|].
    assert ((size =? expected_message_size (byte_at message 0)) = false) as ->.
    { apply Z.eqb_neq. destruct (expected_size_range (byte_at message 0)); lia. }
    by repeat case_match. }
  assert ((size =? 0) = false) as -> by (apply Z.eqb_neq; lia). cbn zeta.
  destruct (size =? expected_message_size (byte_at message 0)); cbn [negb];
    [|cbn [fst]; by rewrite complains_malformed].
  set (a1 := a <| NasdaqItchUftAdapter.source_sequence_ ::= incr |>).
  assert (tracks locator s a1) as Ht1.
  { eapply tracks_change; [exact Ht|apply Ht| |destruct (tracks_wf _ _ _ Ht); constructor; assumption|done].
    apply Ht. }
  change (complains a) with (complains a1).
  repeat match goal with |- complains _ (if ?c then _ else _).1 = _ -> _ => destruct c end;
    first [by eapply add_follows|by eapply execute_follows|by eapply cancel_partial_follows
          |by eapply cancel_all_follows|by eapply replace_follows|intros _; split; [|done]].
  - by apply non_cross_trade_tracks.
  - by apply cross_trade_tracks.
  - by apply broken_trade_tracks.
  - done.
Qed.

(** ** Whole files *)

Definition run (s : t) (ms : list (list Z * Z)) : t := foldl (fun s m => on_message s m.1 m.2) s ms.

(** The adapter over a file: its state, and whether it never complained. *)
Fixpoint adapter_run {E} `{MarketDataEngine E} (a : NasdaqItchUftAdapter.t) (engine : E)
    (ms : list (list Z * Z)) : NasdaqItchUftAdapter.t * bool :=
  match ms with
  | [] => (a, true)
  | m :: ms' =>
      let '(a', engine') := NasdaqItchUftAdapter.on_message a (Some m.1) m.2 engine in
      let '(a'', clean) := adapter_run a' engine' ms' in
      (a'', negb (complains a a') && clean)
  end.

(** The messages of one instrument. *)
Definition located_at (locator : Z) (ms : list (list Z * Z)) : list (list Z * Z) :=
  filter (fun m => read_u16 (m.1 +! 1) = locator) ms.

Lemma run_tracks {E} `{MarketDataEngine E} locator s a (engine : E) ms :
  tracks locator s a -> lifecycle_ok s -> Forall (fun m => Forall is_byte m.1) ms ->
  let '(a', clean) := adapter_run a engine ms in
  let s' := run s (located_at locator ms) in
  clean = true -> tracks locator s' a' /\ errors s' = errors s.
Proof.
  intros Ht Hok Hms. revert s a engine Ht Hok.
  induction Hms as [|[m size] ms Hm _ IH]; intros s a engine Ht Hok; [by cbn|]. cbn [adapter_run fst snd].
  destruct (NasdaqItchUftAdapter.on_message a (Some m) size engine) as [a1 e1] eqn:Hstep.
  unfold located_at. rewrite filter_cons. cbn [fst].
  destruct (decide (read_u16 (m +! 1) = locator)) as [Hl|Hl].
  - pose proof (on_message_follows locator s a engine m size Ht Hok Hm Hl) as Hf.
    rewrite Hstep in Hf. cbn [fst] in Hf.
    destruct (complains a a1); [by destruct (adapter_run a1 e1 ms)|].
    destruct (Hf eq_refl) as [Ht1 He1].
    destruct (handled_ok s _ Hok (tracker_on_message_handled s m Hok Hm size)) as [Hok1 _].
    specialize (IH _ _ e1 Ht1 Hok1). destruct (adapter_run a1 e1 ms) as [a2 clean].
    cbn [negb andb]. intros Hc. destruct (IH Hc) as [Ht2 He2]. split; [exact Ht2|].
    etransitivity; [exact He2|exact He1].
  - assert (a1 = a) as ->.
    { unfold NasdaqItchUftAdapter.on_message in Hstep. rewrite (tracks_locator _ _ _ Ht) in Hstep.
      rewrite (proj2 (Z.eqb_neq _ _) Hl), orb_true_r in Hstep. by simplify_eq. }
    specialize (IH _ _ e1 Ht Hok). destruct (adapter_run a e1 ms) as [a2 clean].
    intros [_ Hc]%andb_true_iff. by apply IH.
Qed.

(** ** The properties *)

(** A file of messages: each is bytes and its size. *)
Definition file_ok (ms : list (list Z * Z)) : Prop := Forall (fun m => Forall is_byte m.1) ms.

Lemma make_ok : lifecycle_ok make.
Proof. split; [apply map_Forall_empty|done]. Qed.

Lemma run_snoc s ms m : run s (ms ++ [m]) = on_message (run s ms) m.1 m.2.
Proof. unfold run. by rewrite foldl_app. Qed.

(** The numbers of active orders after each prefix of a file. *)
Definition active_history (ms : list (list Z * Z)) : list Z :=
  map (fun n => active_orders (run make (take n ms))) (seq 0 (S (length ms))).

Lemma active_history_snoc ms m :
  active_history (ms ++ [m]) = active_history ms ++ [active_orders (run make (ms ++ [m]))].
Proof.
  unfold active_history. rewrite length_app, Nat.add_1_r, (seq_S (S (length ms))), map_app. f_equal.
  - apply map_ext_in. intros n [_ Hn]%in_seq. do 2 f_equal. rewrite take_app_le by lia. done.
  - simpl. rewrite take_ge; [done|]. rewrite length_app. simpl. lia.
Qed.

Lemma run_lifecycle_ok ms :
  file_ok ms -> lifecycle_ok (run make ms) /\ peak (run make ms) = foldr Z.max 0 (active_history ms).
Proof.
  intros Hms. induction ms as [|m ms IH] using rev_ind; [split; [apply make_ok|done]|].
  apply Forall_app in Hms as [Hms [Hm _]%Forall_cons]. destruct (IH Hms) as [Hok Hp].
  rewrite active_history_snoc, run_snoc.
  destruct (handled_ok _ _ Hok (tracker_on_message_handled _ _ Hok Hm m.2)) as [Hok' Hp'].
  split; [exact Hok'|]. rewrite Hp', Hp, foldr_app. cbn [foldr].
  set (x := active_orders _). assert (0 <= x) by (unfold x, active_orders; lia). clearbody x.
  clear -H. induction (active_history ms) as [|y l IHl]; simpl; lia.
Qed.

(** Whatever a file holds, the tracked orders are well formed (a known
    side, a positive price and quantity, a 64-bit id other than zero), and
    [peak_active_orders] is the largest number of orders that were active at
    once. *)
Theorem tracker_orders_and_peak ms :
  file_ok ms ->
  let s := run make ms in
  map_Forall (fun id r => 0 < id < 2 ^ 64 /\ record_ok r) (orders_ s) /\
  LifecycleStats.peak_active_orders (stats s) = foldr Z.max 0 (active_history ms) /\
  active_orders s <= LifecycleStats.peak_active_orders (stats s).
Proof.
  intros Hms. cbn zeta. destruct (run_lifecycle_ok ms Hms) as [[Hr Ha] Hp]. by split_and!.
Qed.

(** Three orders of two instruments, an execution, a cancellation, a replace,
    a deletion and a message cut short. *)
Definition sample_file : list (list Z * Z) := [
  (add_message 5, 36); (foreign_message 9, 36); (add_message 6, 36);
  (execute_message 5 1, 31); (cancel_message 6, 23); (replace_message 5 8, 35);
  (delete_message 6, 19)].

Lemma sample_file_ok : file_ok sample_file.
Proof. repeat (apply Forall_cons_2; [by apply bytes_ok|]). apply Forall_nil_2. Qed.

Lemma tracker_orders_and_peak_witness :
  let s := run make (sample_file ++ [(add_message 7, 12)]) in
  (map_Forall (fun id r => 0 < id < 2 ^ 64 /\ record_ok r) (orders_ s) /\
   LifecycleStats.peak_active_orders (stats s) =
     foldr Z.max 0 (active_history (sample_file ++ [(add_message 7, 12)])) /\
   active_orders s <= LifecycleStats.peak_active_orders (stats s)) /\
  LifecycleStats.peak_active_orders (stats s) = 3 /\ active_orders s = 2.
Proof.
  split; [|by vm_compute]. apply tracker_orders_and_peak. apply Forall_app. split; [apply sample_file_ok|].
  apply Forall_cons_2; [by apply bytes_ok|apply Forall_nil_2].
Defined.

(** An engine of one instrument without the optional book channel, as the
    adapter uses it. *)
#[global] Instance uft_engine : MarketDataEngine UftMarketDataEngine.t := {|
  publish_order_detail e ev := (e, (UftMarketDataEngine.publish_order_detail 1 e ev).2);
  publish_transaction e ev := (e, (UftMarketDataEngine.publish_transaction 1 e ev).2);
  publish_book_update := None
|}.

(** C23: the tracker and the UFT adapter are two implementations of the same
    order replay. On any file of which the adapter of one instrument, on any
    engine, takes every message without a complaint, the tracker fed with that
    instrument's messages keeps the adapter's orders, as many of them, and
    counts no error of its own. *)
Theorem tracker_agrees_with_adapter {E} `{MarketDataEngine E} instrument locator orders matches a
    (engine : E) ms :
  0 <= orders < 2 ^ 64 -> 0 <= matches < 2 ^ 64 ->
  NasdaqItchUftAdapter.make instrument locator orders matches = Some a -> file_ok ms ->
  let '(a', clean) := adapter_run a engine ms in
  let s := run make (located_at locator ms) in
  clean = true ->
  order_of <$> orders_ s = orders_view a' /\
  active_orders s = NasdaqItchUftAdapter.active_orders a' /\ errors s = [0; 0; 0; 0; 0].
Proof.
  intros Ho Hm Hmake Hms. destruct (make_wf _ _ _ _ _ Ho Hm Hmake) as (Hwf & Hv & _ & Hl).
  assert (tracks locator make a) as Ht.
  { constructor; [|apply map_Forall_empty|done|done]. rewrite Hv. exact (fmap_empty order_of). }
  pose proof (run_tracks locator make a engine ms Ht make_ok Hms) as Hr.
  destruct (adapter_run a engine ms) as [a' clean]. intros s Hc. destruct (Hr Hc) as [[Hv' _ Hwf' _] He].
  split_and!; [done| |done]. unfold active_orders, NasdaqItchUftAdapter.active_orders, FixedHashTable.size.
  rewrite (FixedHashTable.wf_size _ (adapter_orders _ Hwf')). unfold orders_view in Hv'.
  by rewrite <- Hv', map_size_fmap.
Qed.

Lemma tracker_agrees_with_adapter_witness :
  match NasdaqItchUftAdapter.make 0 7 8 8 with
  | Some a =>
      (let '(a', clean) := adapter_run a (UftMarketDataEngine.make 1 1) sample_file in
       let s := run make (located_at 7 sample_file) in
       clean = true ->
       order_of <$> orders_ s = orders_view a' /\
       active_orders s = NasdaqItchUftAdapter.active_orders a' /\ errors s = [0; 0; 0; 0; 0]) /\
      (adapter_run a (UftMarketDataEngine.make 1 1) sample_file).2 = true /\
      orders_ (run make (located_at 7 sample_file)) !! 8 = Some (OrderRecord.mk 101 5 7 66)
  | None => False
  end.
Proof.
  destruct (NasdaqItchUftAdapter.make 0 7 8 8) as [a|] eqn:Ea; [|vm_compute in Ea; discriminate Ea].
  split.
  - apply (tracker_agrees_with_adapter 0 7 8 8 a (UftMarketDataEngine.make 1 1) sample_file);
      [lia|lia|exact Ea|exact sample_file_ok].
  - vm_compute in Ea. injection Ea as <-. by vm_compute.
Defined.
