(* ===== verification/HistoricalFile.v ===== *)
(** * include/qtrader/NasdaqItchFile.hpp

    The scanner of a historical file: two-byte big-endian lengths, each
    followed by a message, read through a fixed buffer.  The file system is
    not part of the repository: an open file is any value with a [read] that
    behaves as POSIX says, in chunks of its own choosing, with interruptions
    and failures at its own choosing. *)

From Stdlib Require Import Ascii.
From S2P Require Import Prelude Itch50.
Import itch50.

(** What [::read] returns: bytes (none at the end of the file), [EINTR], or
    another error. *)
Inductive ReadResult := Bytes (b : list Z) | Interrupted | Failed.

Class PosixFile (F : Type) := {
  (** [read(fd, buffer, capacity)] *)
  read : F -> Z -> F * ReadResult
}.

(** POSIX: a read of a positive capacity returns the next bytes of the file,
    at most the capacity, none only at its end; an interrupted read takes
    nothing.  Signals do not come forever. *)
Class PosixFileLaws (F : Type) `{PosixFile F} := {
  unread : F -> list Z;
  interruptions : F -> nat;
  read_bytes f n f' b :
    0 < n -> read f n = (f', Bytes b) ->
    unread f = b ++ unread f' /\ alen b <= n /\ (b = [] -> unread f = []) /\
    (interruptions f' <= interruptions f)%nat;
  read_interrupted f n f' :
    0 < n -> read f n = (f', Interrupted) ->
    unread f' = unread f /\ (interruptions f' < interruptions f)%nat
}.

Module FileScanResult.
Record t := mk { messages : Z; framed_bytes : Z }.
#[global] Instance eta_scan_result : Eta t := fun r => mk (messages r) (framed_bytes r).
End FileScanResult.

(** The exceptions thrown. *)
Inductive ScanError :=
  | open_failed
  | record_too_large
  | read_failed
  | zero_length_record (offset : Z)
  | truncated_record (offset wanted got : Z)
  | trailing_byte.

Definition result (A : Type) : Type := A + ScanError.

Module BufferedFile.

Definition kBufferBytes : Z := 8 * 1024 * 1024.

Section file.
Context {F : Type} `{PosixFile F}.

Record t := mk {
  fd_ : F;
  buffer_ : list Z;
  begin_ : Z;
  end_ : Z;
  eof_ : bool
}.
#[global] Instance eta_buffered_file : Eta t := fun s =>
  mk (fd_ s) (buffer_ s) (begin_ s) (end_ s) (eof_ s).

(** [opened] is what [::open] gave, if it gave anything. *)
Definition make (opened : option F) : result t :=
  match opened with
  | None => inr open_failed
  | Some fd => inl (mk fd (replicate (Z.to_nat kBufferBytes) 0) 0 0 false)
  end.

(** [source] written at [offset] of an array. *)
Definition write_at (a : list Z) (offset : Z) (source : list Z) : list Z :=
  take (Z.to_nat offset) a ++ source ++ drop (Z.to_nat offset + length source) a.

(** The compaction before a refill. *)
Definition compact (s : t) : t :=
  if negb (begin_ s =? 0) && negb (begin_ s =? end_ s) then
    let pending := take (Z.to_nat (end_ s - begin_ s)) (drop (Z.to_nat (begin_ s)) (buffer_ s)) in
    s <| buffer_ ::= fun a => write_at a 0 pending |>
      <| end_ := end_ s - begin_ s |> <| begin_ := 0 |>
  else if begin_ s =? end_ s then s <| begin_ := 0 |> <| end_ := 0 |>
  else s.

(** [while (end_ < requested && !eof_)]; [None] when the fuel runs out. *)
Fixpoint fill (fuel : nat) (s : t) (requested : Z) : option (t * option ScanError) :=
  match fuel with
  | O => None
  | S fuel' =>
      if (end_ s <? requested) && negb (eof_ s) then
        let capacity := alen (buffer_ s) - end_ s in
        let '(fd, count) := read (fd_ s) capacity in
        let s := s <| fd_ := fd |> in
        match count with
        | Bytes [] => fill fuel' (s <| eof_ := true |>) requested
        | Bytes b =>
            fill fuel' (s <| buffer_ ::= fun a => write_at a (end_ s) b |>
                          <| end_ := end_ s + alen b |>) requested
        | Interrupted => fill fuel' s requested
        | Failed => Some (s, Some read_failed)
        end
      else Some (s, None)
  end.

Definition ensure (fuel : nat) (s : t) (requested : Z) : option (t * result bool) :=
  if alen (buffer_ s) <? requested then Some (s, inr record_too_large)
  else if requested <=? end_ s - begin_ s then Some (s, inl true)
  else
    '(s, thrown) ← fill fuel (compact s) requested;
    Some (s, match thrown with
             | Some e => inr e
             | None => inl (requested <=? end_ s - begin_ s)
             end).

Definition data (s : t) : list Z := buffer_ s +! begin_ s.
Definition consume (s : t) (count : Z) : t := s <| begin_ ::= fun b => b + count |>.
Definition available (s : t) : Z := end_ s - begin_ s.

End file.
End BufferedFile.
Import (hints) BufferedFile FileScanResult.
Import BufferedFile.

Section scan.
Context {F : Type} `{PosixFile F}.

(** One call of the callback: the pointer and the size it is given. *)
Abbreviation Delivered := (list Z * Z)%type.

(** [while (input.ensure(2))]: the callbacks made, and how the scan ended. *)
Fixpoint scan_loop (fuel : nat) (input : BufferedFile.t (F := F)) (r : FileScanResult.t) :
    option (list Delivered * result FileScanResult.t) :=
  match fuel with
  | O => None
  | S fuel' =>
      '(input, more) ← ensure fuel input 2;
      match more with
      | inr e => Some ([], inr e)
      | inl false =>
          Some ([], if negb (available input =? 0) then inr trailing_byte else inl r)
      | inl true =>
          let record_offset := FileScanResult.framed_bytes r in
          let record_size := read_u16 (data input) in
          let input := consume input 2 in
          let r := r <| FileScanResult.framed_bytes ::= fun n => u64 (n + 2) |> in
          if record_size =? 0 then Some ([], inr (zero_length_record record_offset))
          else
            '(input, whole) ← ensure fuel input record_size;
            match whole with
            | inr e => Some ([], inr e)
            | inl false =>
                Some ([], inr (truncated_record record_offset record_size (available input)))
            | inl true =>
                let call := (data input, record_size) in
                let input := consume input record_size in
                let r := r <| FileScanResult.framed_bytes ::= fun n => u64 (n + record_size) |>
                           <| FileScanResult.messages ::= incr |> in
                '(calls, ending) ← scan_loop fuel' input r;
                Some (call :: calls, ending)
            end
      end
  end.

Definition scan_historical_file (fuel : nat) (opened : option F) :
    option (list Delivered * result FileScanResult.t) :=
  match make opened with
  | inr e => Some ([], inr e)
  | inl input => scan_loop fuel input (FileScanResult.mk 0 0)
  end.

End scan.
