(* ===== verification/FileProperties.v ===== *)
(** * Properties of the file scanner

    Whatever the sizes of the reads, the interruptions and the point at which
    reading fails, the scanner's callbacks are the records of the file, up to
    where the file stops being well framed. *)

From Stdlib Require Import Ascii.
From S2P Require Import Prelude Itch50 HistoricalFile.
Import itch50 BufferedFile.

Section facts.
Context {F : Type} `{PosixFileLaws F}.
Implicit Types (s : t (F := F)) (r : FileScanResult.t).

(** The bytes in the buffer, and all the bytes still to come. *)
Definition pending s : list Z :=
  take (Z.to_nat (end_ s - begin_ s)) (drop (Z.to_nat (begin_ s)) (buffer_ s)).
Definition rest s : list Z := pending s ++ unread (fd_ s).

Record file_wf s : Prop := {
  wf_range : 0 <= begin_ s <= end_ s /\ end_ s <= alen (buffer_ s);
  wf_eof : eof_ s = true -> unread (fd_ s) = []
}.

(** The reads an input can still ask for. *)
Definition budget s : nat :=
  length (unread (fd_ s)) + interruptions (fd_ s) + (if eof_ s then 0 else 1).

Lemma length_pending s : file_wf s -> alen (pending s) = end_ s - begin_ s.
Proof.
  intros [Hr _]. unfold pending, alen in *. rewrite length_take, length_drop. lia.
Qed.

Lemma length_write_at a o b :
  0 <= o -> o + alen b <= alen a -> alen (write_at a o b) = alen a.
Proof.
  unfold alen, write_at. intros. rewrite !length_app, length_take, length_drop. lia.
Qed.

(** Input [s'] is [s] further on: the same bytes are to come. *)
Record same_input s s' : Prop := {
  same_wf : file_wf s';
  same_rest : rest s' = rest s;
  same_capacity : alen (buffer_ s') = alen (buffer_ s);
  same_budget : (budget s' <= budget s)%nat
}.

Lemma same_input_refl s : file_wf s -> same_input s s.
Proof. by constructor. Qed.

Lemma same_input_trans s1 s2 s3 : same_input s1 s2 -> same_input s2 s3 -> same_input s1 s3.
Proof. intros [] []. constructor; [done|congruence|congruence|lia]. Qed.

Lemma compact_ok s : file_wf s -> same_input s (compact s) /\ begin_ (compact s) = 0.
Proof.
  intros Hwf. pose proof (length_pending s Hwf) as Hp. destruct (Hwf) as [Hr He]. unfold compact.
  destruct (Z.eqb_spec (begin_ s) 0) as [E0|E0], (Z.eqb_spec (begin_ s) (end_ s)) as [E1|E1];
    cbn [negb andb].
  1,3: split; [|done]; constructor; updates; cbn;
    [constructor; cbn; [unfold alen in *; lia|done]| |done|unfold budget; cbn; lia].
  1,2: unfold rest, pending; cbn; rewrite <- E1, !Z.sub_diag; done.
  1: split; [by apply same_input_refl|done].
  fold (pending s). split; [|done].
  assert (alen (write_at (buffer_ s) 0 (pending s)) = alen (buffer_ s)) as Hl
    by (apply length_write_at; lia).
  constructor; updates; cbn.
  - constructor; cbn; [rewrite Hl; lia|done].
  - unfold rest. f_equal. unfold pending at 1. cbn. rewrite Z.sub_0_r. unfold write_at. cbn.
    rewrite drop_0, take_0, app_nil_l, take_app_le by (unfold alen in Hp; lia).
    apply take_ge. unfold alen in Hp. lia.
  - done.
  - unfold budget. cbn. lia.
Qed.

(** Bytes just read go to the end of the pending ones. *)
Lemma append_bytes s fd b :
  file_wf s -> begin_ s = 0 -> end_ s + alen b <= alen (buffer_ s) ->
  unread (fd_ s) = b ++ unread fd -> (eof_ s = true -> unread fd = []) ->
  let s' := mk fd (write_at (buffer_ s) (end_ s) b) (begin_ s) (end_ s + alen b) (eof_ s) in
  file_wf s' /\ rest s' = rest s.
Proof.
  intros [Hr _] Hz Hb Hu He. cbn zeta. pose proof (length_write_at (buffer_ s) (end_ s) b) as Hl.
  unfold alen in *. split.
  - constructor; cbn; [unfold alen; rewrite Hl; lia|done].
  - unfold rest, pending. cbn. rewrite Hu, app_assoc, Hz. cbn. f_equal. rewrite !Z.sub_0_r, !drop_0.
    unfold write_at. rewrite app_assoc, take_app_le by (rewrite length_app, length_take; lia).
    apply take_ge. rewrite length_app, length_take. lia.
Qed.

Lemma fill_ok fuel s requested :
  file_wf s -> begin_ s = 0 -> requested <= alen (buffer_ s) -> (budget s < fuel)%nat ->
  exists s' thrown, fill fuel s requested = Some (s', thrown) /\
    match thrown with
    | Some e => e = read_failed
    | None =>
        same_input s s' /\ begin_ s' = 0 /\ (requested <= end_ s' \/ unread (fd_ s') = [])
    end.
Proof.
  revert s. induction fuel as [|fuel IH]; intros s Hwf Hz Hreq Hfuel; [lia|]. simpl.
  destruct (Z.ltb_spec (end_ s) requested);
    [|eexists _, None; split_and!; auto using same_input_refl].
  destruct (eof_ s) eqn:Heof; cbn [negb andb].
  { eexists _, None. split_and!; [done|by apply same_input_refl|done|]. right. by apply Hwf. }
  assert (forall s1, same_input s s1 -> begin_ s1 = 0 -> (budget s1 < budget s)%nat ->
    exists s' thrown, fill fuel s1 requested = Some (s', thrown) /\
      match thrown with
      | Some e => e = read_failed
      | None => same_input s s' /\ begin_ s' = 0 /\ (requested <= end_ s' \/ unread (fd_ s') = [])
      end) as Hgo.
  { intros s1 Hs1 Hb1 Hlt.
    destruct (IH s1) as (s' & th & Hf & Hth);
      [apply Hs1|done|rewrite (same_capacity _ _ Hs1); done|lia|].
    exists s', th. split; [done|]. destruct th; [done|]. destruct Hth as (? & ? & ?).
    split_and!; [by eapply same_input_trans|done|done]. }
  clear IH. destruct (read (fd_ s) (alen (buffer_ s) - end_ s)) as [fd [[|x b]| |]] eqn:Hread.
  - apply read_bytes in Hread as (Hu & _ & Hend & Hi); [|lia]. specialize (Hend eq_refl).
    assert (unread fd = []) as Hfd by (by rewrite Hend in Hu). apply Hgo; [|done|].
    + constructor; [constructor; [apply Hwf|done]| |done|].
      * change (pending s ++ unread fd = rest s). unfold rest. by rewrite Hfd, Hend.
      * unfold budget. cbn. rewrite Hfd, Heof. simpl. lia.
    + unfold budget. cbn. rewrite Hfd, Heof. simpl. lia.
  - apply read_bytes in Hread as (Hu & Hlen & _ & Hi); [|lia].
    destruct (append_bytes s fd (x :: b) Hwf Hz ltac:(lia) Hu ltac:(by rewrite Heof)) as [Hwf1 Hrest].
    apply (Hgo (mk fd (write_at (buffer_ s) (end_ s) (x :: b)) (begin_ s) (end_ s + alen (x :: b)) (eof_ s)));
      [|done|].
    + constructor; [done|done| |].
      * destruct Hwf as [? _]. apply length_write_at; lia.
      * unfold budget. cbn. rewrite Hu, length_app. simpl. lia.
    + unfold budget. cbn. rewrite Hu, length_app. simpl. lia.
  - apply read_interrupted in Hread as [Hu Hi]; [|lia]. apply Hgo; [|done|].
    + constructor; [constructor; [apply Hwf|by cbn; rewrite Heof]| |done|].
      * change (pending s ++ unread fd = rest s). by rewrite Hu.
      * unfold budget. cbn. rewrite Hu. lia.
    + unfold budget. cbn. rewrite Hu. lia.
  - by eexists _, (Some read_failed).
Qed.

Lemma rest_pending s : file_wf s -> alen (rest s) = end_ s - begin_ s + alen (unread (fd_ s)).
Proof. intros Hwf. unfold rest. rewrite <- (length_pending s Hwf). unfold alen. rewrite length_app. lia. Qed.

Lemma ensure_ok fuel s requested :
  file_wf s -> 0 < requested <= alen (buffer_ s) -> (budget s < fuel)%nat ->
  exists s' out, ensure fuel s requested = Some (s', out) /\
    match out with
    | inr e => e = read_failed
    | inl more =>
        same_input s s' /\ more = (requested <=? alen (rest s)) /\
        if more then requested <= end_ s' - begin_ s' else available s' = alen (rest s)
    end.
Proof.
  intros Hwf Hreq Hfuel. unfold ensure.
  assert ((alen (buffer_ s) <? requested) = false) as -> by (apply Z.ltb_ge; lia).
  pose proof (rest_pending s Hwf) as Hr.
  destruct (Z.leb_spec requested (end_ s - begin_ s)).
  - exists s, (inl true). split_and!; [done|by apply same_input_refl| |done].
    symmetry. apply Z.leb_le. rewrite Hr. unfold alen. lia.
  - destruct (compact_ok s Hwf) as [Hc Hb].
    destruct (fill_ok fuel (compact s) requested) as (s' & th & -> & Hth);
      [apply Hc|done|rewrite (same_capacity _ _ Hc); lia|pose proof (same_budget _ _ Hc); lia|].
    cbn [mbind option_bind]. destruct th as [e|]; [by eexists _, (inr e)|].
    destruct Hth as (Hs' & Hb' & Hend). eexists _, (inl _). split; [done|].
    assert (same_input s s') as Hss by (by eapply same_input_trans).
    assert ((requested <=? end_ s' - begin_ s') = (requested <=? alen (rest s))) as Heq.
    { pose proof (rest_pending s' (same_wf _ _ Hss)) as Hr'. rewrite (same_rest _ _ Hss) in Hr'.
      rewrite Hr', Hb'. destruct Hend as [Hend| ->].
      - rewrite (proj2 (Z.leb_le _ _)) by lia. symmetry. apply Z.leb_le. unfold alen. lia.
      - change (alen []) with 0. f_equal. lia. }
    split_and!; [done|done|].
    destruct (Z.leb_spec requested (end_ s' - begin_ s')); [done|].
    unfold available. rewrite <- (same_rest _ _ Hss), rest_pending by apply Hss.
    destruct Hend as [Hend| ->]; [lia|]. change (alen []) with 0. lia.
Qed.

(** The bytes at hand are the next ones. *)
Lemma take_data s n :
  file_wf s -> n <= end_ s - begin_ s -> take (Z.to_nat n) (data s) = take (Z.to_nat n) (rest s).
Proof.
  intros Hwf Hn. pose proof (length_pending s Hwf) as Hp. unfold alen in Hp.
  unfold rest. rewrite take_app_le by lia. unfold pending, data, advance. by rewrite take_take, Nat.min_l by lia.
Qed.

Lemma consume_ok s n :
  file_wf s -> 0 <= n <= end_ s - begin_ s ->
  file_wf (consume s n) /\ rest (consume s n) = drop (Z.to_nat n) (rest s) /\
  alen (buffer_ (consume s n)) = alen (buffer_ s) /\ budget (consume s n) = budget s.
Proof.
  intros Hwf Hn. pose proof (length_pending s Hwf) as Hp. unfold alen in Hp. destruct Hwf as [Hr He].
  split_and!; [constructor; cbn; [lia|done]| |done|done].
  unfold rest at 2. rewrite drop_app_le by lia. unfold rest. cbn. f_equal. unfold pending. cbn.
  rewrite skipn_firstn_comm, drop_drop. f_equal; [lia|]. f_equal. lia.
Qed.

Lemma read_u16_prefix p q : take 2 p = take 2 q -> read_u16 p = read_u16 q.
Proof.
  assert (forall l, read_u16 l = read_u16 (take 2 l)) as Hl by (by intros [|? [|? ?]]).
  intros Ht. by rewrite (Hl p), (Hl q), Ht.
Qed.
End facts.

(** ** The format *)

(** How a framed file ends. *)
Inductive Ending := Clean | Trailing | ZeroLength | Cut (wanted got : Z).

(** The records of a file and what follows the last complete one. *)
Fixpoint unframe_loop (n : nat) (c : list Z) : list (list Z) * Ending :=
  match n, c with
  | O, _ | _, [] => ([], Clean)
  | _, [_] => ([], Trailing)
  | S n', _ :: _ :: body =>
      let size := read_u16 c in
      if size =? 0 then ([], ZeroLength)
      else if alen body <? size then ([], Cut size (alen body))
      else
        let '(records, e) := unframe_loop n' (drop (Z.to_nat size) body) in
        (take (Z.to_nat size) body :: records, e)
  end.

Definition unframe (c : list Z) : list (list Z) * Ending := unframe_loop (length c) c.

(** The bytes of framed records. *)
Definition framed (records : list (list Z)) : Z := foldr (fun r acc => 2 + alen r + acc) 0 records.

(** What the scan returns or throws. *)
Definition finish (r : FileScanResult.t) (records : list (list Z)) (e : Ending) :
    result FileScanResult.t :=
  let bytes := FileScanResult.framed_bytes r + framed records in
  match e with
  | Clean => inl (FileScanResult.mk (FileScanResult.messages r + alen records) bytes)
  | Trailing => inr trailing_byte
  | ZeroLength => inr (zero_length_record bytes)
  | Cut wanted got => inr (truncated_record bytes wanted got)
  end.

(** A callback's bytes and size, and a record's. *)
Definition shown (call : list Z * Z) : list Z * Z := (take (Z.to_nat call.2) call.1, call.2).
Definition sized (record : list Z) : list Z * Z := (record, alen record).

Lemma unframe_enough n m c :
  (length c <= n)%nat -> (length c <= m)%nat -> unframe_loop n c = unframe_loop m c.
Proof.
  revert m c. induction n as [|n IH]; intros m c Hn Hm.
  { destruct c; [|simpl in Hn; lia]. by destruct m. }
  destruct m as [|m]; [destruct c; [done|simpl in Hm; lia]|].
  destruct c as [|a [|b body]]; [done|done|]. simpl.
  destruct (read_u16 _ =? 0); [done|]. destruct (alen body <? _); [done|].
  rewrite (IH m); [done|..]; rewrite length_drop; simpl in *; lia.
Qed.

Lemma unframe_step n a b body :
  unframe_loop (S n) (a :: b :: body) =
    let size := read_u16 (a :: b :: body) in
    if size =? 0 then ([], ZeroLength)
    else if alen body <? size then ([], Cut size (alen body))
    else
      let '(records, e) := unframe_loop n (drop (Z.to_nat size) body) in
      (take (Z.to_nat size) body :: records, e).
Proof. done. Qed.

Lemma unframe_cons a b body :
  unframe (a :: b :: body) =
    let size := read_u16 (a :: b :: body) in
    if size =? 0 then ([], ZeroLength)
    else if alen body <? size then ([], Cut size (alen body))
    else
      let '(records, e) := unframe (drop (Z.to_nat size) body) in
      (take (Z.to_nat size) body :: records, e).
Proof.
  unfold unframe at 1. cbn [length]. rewrite unframe_step. cbn zeta. unfold unframe.
  by rewrite (unframe_enough (S (length body))
    (length (drop (Z.to_nat (read_u16 (a :: b :: body))) body))) by (rewrite ?length_drop; lia).
Qed.

(** ** The scan *)

Section scan_facts.
Context {F : Type} `{PosixFileLaws F}.

(** What the scanner does on the bytes still to come: [None] of the counters
    wraps while the file is shorter than [2^64] bytes. *)
Definition scanned (r : FileScanResult.t) (c : list Z) (calls : list (list Z * Z))
    (ending : result FileScanResult.t) : Prop :=
  let '(records, e) := unframe c in
  ending = inr read_failed /\ map shown calls `prefix_of` map sized records \/
  map shown calls = map sized records /\ ending = finish r records e.

Lemma scanned_failed r c : scanned r c [] (inr read_failed).
Proof. unfold scanned. destruct (unframe c). left. split; [done|]. apply prefix_nil. Qed.

Lemma scanned_cons r a b body record calls ending :
  let size := read_u16 (a :: b :: body) in
  size <> 0 -> size <= alen body -> record.2 = size ->
  take (Z.to_nat size) record.1 = take (Z.to_nat size) body -> 0 <= size ->
  scanned (FileScanResult.mk (FileScanResult.messages r + 1) (FileScanResult.framed_bytes r + 2 + size))
    (drop (Z.to_nat size) body) calls ending ->
  scanned r (a :: b :: body) (record :: calls) ending.
Proof.
  cbn zeta. intros Hz Hle Hrec Hd Hpos Hs. unfold scanned in *. rewrite unframe_cons. cbn zeta.
  rewrite (proj2 (Z.eqb_neq _ _) Hz), (proj2 (Z.ltb_ge _ _) Hle).
  destruct (unframe (drop _ body)) as [records e].
  assert (alen (take (Z.to_nat (read_u16 (a :: b :: body))) body) = read_u16 (a :: b :: body)) as Hl.
  { unfold alen. rewrite length_take. unfold alen in Hle. lia. }
  assert (shown record = sized (take (Z.to_nat (read_u16 (a :: b :: body))) body)) as Hsh.
  { unfold shown, sized. by rewrite Hrec, Hd, Hl. }
  cbn [map]. rewrite Hsh. destruct Hs as [[-> Hp]|[-> ->]]; [left|right].
  - split; [done|]. by apply prefix_cons.
  - split; [done|]. unfold finish. cbn [foldr framed FileScanResult.messages FileScanResult.framed_bytes].
    fold (framed records). rewrite Hl.
    assert (forall l, alen (l :: records) = 1 + alen records) as -> by (intros; unfold alen; simpl; lia).
    destruct e; try done; do 2 f_equal; lia.
Qed.

Lemma scan_loop_ok fuel s r :
  file_wf s -> u16_max <= alen (buffer_ s) -> Forall is_byte (rest s) ->
  (length (rest s) + budget s < fuel)%nat ->
  0 <= FileScanResult.messages r <= FileScanResult.framed_bytes r ->
  FileScanResult.framed_bytes r + alen (rest s) < 2 ^ 64 ->
  exists calls ending, scan_loop fuel s r = Some (calls, ending) /\ scanned r (rest s) calls ending.
Proof.
  revert s r. induction fuel as [|fuel IH]; intros s r Hwf Hcap Hbytes Hfuel Hm Hf; [lia|]. cbn [scan_loop].
  destruct (ensure_ok (S fuel) s 2 Hwf ltac:(lia) ltac:(lia)) as (s1 & out & -> & Hout).
  cbn [mbind option_bind]. destruct out as [more|e];
    [|subst; eexists _, _; split; [done|apply scanned_failed]].
  destruct Hout as (Hs1 & -> & Hav). rewrite <- (same_rest _ _ Hs1) in *.
  pose proof (same_capacity _ _ Hs1) as Hc1. pose proof (same_budget _ _ Hs1).
  destruct (Z.leb_spec 2 (alen (rest s1))) as [H2|H2].
  2: { eexists _, _. split; [done|]. rewrite Hav. unfold scanned, unframe.
       destruct (rest s1) as [|? [|? ?]]; [right|right|unfold alen in H2; simpl in H2; lia].
       - split; [done|]. destruct r. unfold finish. cbn. by rewrite !Z.add_0_r.
       - by split. }
  destruct (rest s1) as [|a [|b body]] eqn:Hrest; [unfold alen in H2; simpl in H2; lia..|].
  assert (read_u16 (data s1) = read_u16 (a :: b :: body)) as ->.
  { apply read_u16_prefix. change 2%nat with (Z.to_nat 2). rewrite take_data, Hrest by (apply Hs1 || lia). done. }
  destruct (consume_ok s1 2 (same_wf _ _ Hs1) ltac:(lia)) as (Hwf2 & Hr2 & Hc2 & Hb2).
  rewrite Hrest in Hr2. change (drop (Z.to_nat 2) (a :: b :: body)) with body in Hr2.
  set (size := read_u16 (a :: b :: body)) in *.
  assert (0 <= size <= u16_max) as Hsize.
  { unfold size. rewrite read_u16_be by done. pose proof (be_value_bound (a :: b :: body) 2 Hbytes). lia. }
  cbn zeta. destruct (Z.eqb_spec size 0) as [Hz|Hz].
  { eexists _, _. split; [done|]. unfold scanned. rewrite unframe_cons. cbn zeta. fold size.
    rewrite Hz. right. split; [done|]. unfold finish. cbn. by rewrite Z.add_0_r. }
  destruct (ensure_ok (S fuel) (consume s1 2) size Hwf2 ltac:(rewrite Hc2; lia) ltac:(lia))
    as (s3 & out & -> & Hout). cbn [mbind option_bind].
  destruct out as [more|e]; [|subst; eexists _, _; split; [done|apply scanned_failed]].
  destruct Hout as (Hs3 & -> & Hav3). rewrite Hr2 in *.
  destruct (Z.leb_spec size (alen body)) as [Hle|Hlt].
  2: { eexists _, _. split; [done|]. rewrite Hav3. unfold scanned. rewrite unframe_cons. cbn zeta. fold size.
       rewrite (proj2 (Z.eqb_neq _ _) Hz), (proj2 (Z.ltb_lt _ _) Hlt). right. split; [done|].
       unfold finish. cbn. by rewrite Z.add_0_r. }
  pose proof (same_rest _ _ Hs3) as Hr3. rewrite Hr2 in Hr3.
  destruct (consume_ok s3 size (same_wf _ _ Hs3) ltac:(lia)) as (Hwf4 & Hr4 & Hc4 & Hb4).
  rewrite Hr3 in Hr4. pose proof (same_budget _ _ Hs3). pose proof (same_capacity _ _ Hs3).
  assert (alen (a :: b :: body) = 2 + alen body) as Hlen by (unfold alen; simpl; lia). rewrite Hlen in Hf.
  set (r2 := _ <| FileScanResult.messages ::= incr |>).
  assert (r2 = FileScanResult.mk (FileScanResult.messages r + 1)
    (FileScanResult.framed_bytes r + 2 + size)) as ->.
  { unfold r2, incr. updates. cbn. by rewrite !wrap_small by (rewrite ?wrap_small; lia). }
  destruct (IH (consume s3 size) (FileScanResult.mk (FileScanResult.messages r + 1)
    (FileScanResult.framed_bytes r + 2 + size))) as (calls & ending & -> & Hs).
  - done.
  - lia.
  - rewrite Hr4. apply Forall_drop. by do 2 apply Forall_inv_tail in Hbytes.
  - rewrite Hr4, length_drop. simpl in Hfuel. lia.
  - cbn. lia.
  - cbn. rewrite Hr4. unfold alen in *. rewrite length_drop. lia.
  - eexists _, _. split; [done|]. rewrite Hr4 in Hs. apply scanned_cons; try done; [|lia].
    cbn [fst]. rewrite take_data by (apply Hs3 || lia). by rewrite Hr3.
Qed.
End scan_facts.

(** ** A framed file *)

Definition record_ok (r : list Z) : Prop := 1 <= alen r <= u16_max /\ Forall is_byte r.

Definition frame (records : list (list Z)) : list Z :=
  concat (map (fun r => be_bytes 2 (alen r) ++ r) records).

Lemma frame_cons r records :
  exists a b, frame (r :: records) = a :: b :: r ++ frame records /\ be_bytes 2 (alen r) = [a; b].
Proof. unfold frame. cbn [map concat be_bytes app]. by eexists _, _. Qed.

Lemma read_frame r rest :
  record_ok r -> Forall is_byte rest -> read_u16 (be_bytes 2 (alen r) ++ rest) = alen r.
Proof.
  intros [Hr _] Hb. rewrite read_u16_be by (apply Forall_app; split; [apply be_bytes_ok|done]).
  rewrite be_value_bytes. apply Z.mod_small. simpl. lia.
Qed.

Lemma frame_bytes records : Forall record_ok records -> Forall is_byte (frame records).
Proof.
  induction 1 as [|r records [_ Hr] _ IH]; [apply Forall_nil_2|]. unfold frame in *. cbn [map concat].
  rewrite !Forall_app. split_and!; [apply be_bytes_ok|done|done].
Qed.

Lemma unframe_frame records : Forall record_ok records -> unframe (frame records) = (records, Clean).
Proof.
  induction 1 as [|r records Hr Hrs IH]; [done|].
  destruct (frame_cons r records) as (a & b & -> & Hab). rewrite unframe_cons. cbn zeta.
  assert (read_u16 (a :: b :: r ++ frame records) = alen r) as ->.
  { change (a :: b :: r ++ frame records) with ([a; b] ++ r ++ frame records). rewrite <- Hab.
    apply read_frame; [done|]. apply Forall_app. split; [apply Hr|by apply frame_bytes]. }
  destruct Hr as [Hr _]. rewrite (proj2 (Z.eqb_neq _ _)) by lia.
  rewrite (proj2 (Z.ltb_ge _ _)) by (unfold alen; rewrite length_app; lia).
  unfold alen. rewrite Nat2Z.id, drop_app_length, take_app_length. by rewrite IH.
Qed.

Lemma be_bytes_read a b : is_byte a -> is_byte b -> forall rest, Forall is_byte rest ->
  be_bytes 2 (read_u16 (a :: b :: rest)) = [a; b].
Proof.
  intros Ha Hb rest Hrest. assert (Forall is_byte (a :: b :: rest)) by (by repeat apply Forall_cons_2).
  rewrite read_u16_be, be_bytes_value; [done|done|unfold alen; simpl; lia|done].
Qed.

Lemma unframe_clean c records :
  Forall is_byte c -> unframe c = (records, Clean) -> c = frame records /\ Forall record_ok records.
Proof.
  remember (length c) as n eqn:Hn. revert c Hn records.
  induction (lt_wf n) as [n _ IH]. intros c -> records Hb Hu.
  destruct c as [|a [|b body]]; [by injection Hu as <-|discriminate Hu|].
  rewrite unframe_cons in Hu. cbn zeta in Hu. set (size := read_u16 (a :: b :: body)) in *.
  pose proof (be_value_bound (a :: b :: body) 2 Hb) as Hrange. rewrite <- read_u16_be in Hrange by done. fold size in Hrange.
  destruct (Z.eqb_spec size 0); [done|]. destruct (Z.ltb_spec (alen body) size); [done|].
  destruct (unframe (drop (Z.to_nat size) body)) as [records' e] eqn:E. simplify_eq.
  apply Forall_cons in Hb as [Ha Hb]. apply Forall_cons in Hb as [Hb Hbody].
  destruct (IH (length (drop (Z.to_nat size) body)) ltac:(rewrite length_drop; simpl; lia) _ eq_refl records'
    ltac:(by apply Forall_drop) E) as [Hc Hr].
  assert (alen (take (Z.to_nat size) body) = size) as Hl.
  { unfold alen in *. rewrite length_take. lia. }
  split.
  - unfold frame. cbn [map concat]. fold (frame records'). rewrite <- Hc, Hl. unfold size.
    rewrite be_bytes_read by done. fold size. cbn [app]. by rewrite take_drop.
  - apply Forall_cons_2; [|done]. split; [rewrite Hl; simpl in Hrange; lia|by apply Forall_take].
Qed.

(** Whatever follows them, the records are well formed and take three bytes or
    more each. *)
Lemma unframe_records c records e :
  Forall is_byte c -> unframe c = (records, e) -> Forall record_ok records /\ 3 * alen records <= alen c.
Proof.
  remember (length c) as n eqn:Hn. revert c Hn records.
  induction (lt_wf n) as [n _ IH]. intros c -> records Hb Hu.
  destruct c as [|a [|b body]]; [by injection Hu as <- <-|by injection Hu as <- <-|].
  rewrite unframe_cons in Hu. cbn zeta in Hu. set (size := read_u16 (a :: b :: body)) in *.
  pose proof (be_value_bound (a :: b :: body) 2 Hb) as Hrange. rewrite <- read_u16_be in Hrange by done. fold size in Hrange.
  destruct (Z.eqb_spec size 0); [by injection Hu as <- <-|].
  destruct (Z.ltb_spec (alen body) size); [by injection Hu as <- <-|].
  destruct (unframe (drop (Z.to_nat size) body)) as [records' e'] eqn:E. injection Hu as <- <-.
  apply Forall_cons in Hb as [Ha Hb]. apply Forall_cons in Hb as [Hb Hbody].
  destruct (IH (length (drop (Z.to_nat size) body)) ltac:(rewrite length_drop; simpl; lia) _ eq_refl records'
    ltac:(by apply Forall_drop) E) as [Hr Hl].
  assert (alen (take (Z.to_nat size) body) = size) as Hsize.
  { unfold alen in *. rewrite length_take. lia. }
  split.
  - apply Forall_cons_2; [|done]. split; [rewrite Hsize; simpl in Hrange; lia|by apply Forall_take].
  - unfold alen in *. rewrite length_drop in Hl. cbn [length]. lia.
Qed.

(** The sizes of the calls are those of records. *)
Lemma shown_sizes calls records :
  map shown calls = map sized records -> Forall record_ok records -> Forall (fun d => 1 <= d.2) calls.
Proof.
  intros E Hok. apply Forall_forall. intros d Hd.
  assert (shown d ∈ map sized records) as Hin by (rewrite <- E; by apply list_elem_of_fmap_2).
  apply list_elem_of_fmap in Hin as (m & Hm & Hr). rewrite Forall_forall in Hok.
  destruct (Hok _ Hr) as [Hsize _]. injection Hm as _ ->. lia.
Qed.

Lemma framed_length records : framed records = alen (frame records).
Proof.
  induction records as [|r records IH]; [done|]. cbn [framed foldr]. fold (framed records). rewrite IH.
  destruct (frame_cons r records) as (a & b & -> & _). unfold alen. cbn [length]. rewrite length_app. lia.
Qed.

(** ** The properties *)

Section properties.
Context {F : Type} `{PosixFileLaws F}.

(** Reads enough for any file. *)
Definition enough (f : F) : nat := 2 * length (unread f) + interruptions f + 2.

Lemma opened_ok f buffer :
  u16_max <= alen buffer -> let s := BufferedFile.mk f buffer 0 0 false in
  file_wf s /\ rest s = unread f /\ budget s = (length (unread f) + interruptions f + 1)%nat.
Proof.
  intros Hb. cbn zeta. split_and!; [constructor; cbn; [lia|done]| |done].
  unfold rest, pending. cbn. done.
Qed.

Lemma kBufferBytes_ok : u16_max <= alen (replicate (Z.to_nat kBufferBytes) 0).
Proof. rewrite alen_replicate, Z2Nat.id; done. Qed.

Lemma scan_ok fuel f :
  Forall is_byte (unread f) -> alen (unread f) < 2 ^ 64 -> (enough f <= fuel)%nat ->
  exists calls ending, scan_historical_file fuel (Some f) = Some (calls, ending) /\
    scanned (FileScanResult.mk 0 0) (unread f) calls ending.
Proof.
  intros Hb Hl Hfuel. unfold scan_historical_file, make. pose proof kBufferBytes_ok as Hk.
  generalize dependent (replicate (Z.to_nat kBufferBytes) 0). intros buffer Hk.
  destruct (opened_ok f buffer Hk) as (Hwf & Hr & Hbud). rewrite <- Hr.
  apply scan_loop_ok; [done|done|by rewrite Hr| |done|by rewrite Hr].
  rewrite Hbud, Hr. unfold enough in Hfuel. lia.
Qed.

(** C24: the scan of any file ends, after at most as many reads as the file
    has bytes and signals interrupt it, whatever chunks the reads return. Its
    callbacks are the records of the file, in order, each with its bytes and its
    size, up to where the file is not well framed; then it returns the counts
    or throws what is wrong and where. Should a read fail, the callbacks made
    are the first of these. *)
Theorem scan_delivers_records fuel f :
  Forall is_byte (unread f) -> alen (unread f) < 2 ^ 64 -> (enough f <= fuel)%nat ->
  exists calls ending, scan_historical_file fuel (Some f) = Some (calls, ending) /\
    let '(records, e) := unframe (unread f) in
    (ending = inr read_failed /\ map shown calls `prefix_of` map sized records) \/
    (map shown calls = map sized records /\ ending = finish (FileScanResult.mk 0 0) records e).
Proof. apply scan_ok. Qed.

(** Framing and scanning are inverse: a file of framed records, each of 1
    to 65535 bytes, is scanned into those records and their counts; and a file
    whose scan returns is the framing of the records it delivered. *)
Theorem scan_inverts_framing fuel f calls ending :
  Forall is_byte (unread f) -> alen (unread f) < 2 ^ 64 -> (enough f <= fuel)%nat ->
  scan_historical_file fuel (Some f) = Some (calls, ending) ->
  (forall records, Forall record_ok records -> unread f = frame records -> ending <> inr read_failed ->
    map shown calls = map sized records /\
    ending = inl (FileScanResult.mk (alen records) (alen (unread f)))) /\
  (forall r, ending = inl r ->
    exists records, Forall record_ok records /\ unread f = frame records /\
      map shown calls = map sized records).
Proof.
  intros Hb Hl Hfuel Hscan. destruct (scan_ok fuel f Hb Hl Hfuel) as (calls' & ending' & Hscan' & Hs).
  rewrite Hscan in Hscan'. simplify_eq. unfold scanned in Hs. split.
  - intros records Hr Hu Hnf. rewrite Hu, unframe_frame in Hs by done.
    destruct Hs as [[? _]|[Hc ->]]; [done|]. split; [done|].
    unfold finish. cbn. by rewrite framed_length, Hu.
  - intros r ->. destruct (unframe (unread f)) as [records e] eqn:E.
    destruct Hs as [[? _]|[Hc He]]; [done|]. destruct e; try done.
    apply unframe_clean in E as [? ?]; [|done]. by exists records.
Qed.
End properties.

(** A file whose reads follow a script of chunk sizes and signals. *)
Inductive Step := Chunk (n : positive) | Signal.

Record Script := mkScript { script_bytes : list Z; script_steps : list Step }.

#[global] Instance script_file : PosixFile Script := {|
  read f n :=
    match script_steps f with
    | Signal :: steps => (mkScript (script_bytes f) steps, Interrupted)
    | Chunk k :: steps =>
        let m := Z.to_nat (Z.min (Zpos k) n) in
        (mkScript (drop m (script_bytes f)) steps, Bytes (take m (script_bytes f)))
    | [] =>
        (mkScript (drop (Z.to_nat n) (script_bytes f)) [], Bytes (take (Z.to_nat n) (script_bytes f)))
    end
|}.

#[global] Instance script_laws : PosixFileLaws Script.
Proof.
  refine {| unread := script_bytes; interruptions f := length (script_steps f) |}.
  - intros [bytes [|[k|] steps]] n f' b Hn; cbn; intros [= <- <-]; cbn;
      (split_and!; [by rewrite take_drop|unfold alen; rewrite length_take; lia| |lia]).
    all: destruct bytes as [|x bytes]; [done|].
    + destruct (Z.to_nat n) eqn:En; [lia|]. done.
    + destruct (Z.to_nat (Z.min (Zpos k) n)) eqn:En; [lia|]. done.
  - intros [bytes [|[k|] steps]] n f' Hn; cbn; intros [=]; subst; cbn. split; [done|lia].
Defined.

(** Two records in five reads, one of them interrupted, and a damaged tail. *)
Definition sample_script (tail : list Z) : Script :=
  mkScript (frame [[83; 1; 2]; [72]] ++ tail) [Chunk 1; Signal; Chunk 3; Chunk 2].

Lemma scan_delivers_records_witness :
  exists calls ending, scan_historical_file 30 (Some (sample_script [0; 4; 9])) = Some (calls, ending) /\
    let '(records, e) := unframe (unread (sample_script [0; 4; 9])) in
    (ending = inr read_failed /\ map shown calls `prefix_of` map sized records) \/
    (map shown calls = map sized records /\ ending = finish (FileScanResult.mk 0 0) records e).
Proof.
  (* [unframe] gives the two records and [Cut 4 1] *)
  apply (scan_delivers_records 30 (sample_script [0; 4; 9])); [|done|].
  - repeat (apply Forall_cons_2; [done|]). apply Forall_nil_2.
  - vm_compute. lia.
Defined.

Lemma sample_script_ok tail : Forall is_byte tail -> Forall is_byte (unread (sample_script tail)).
Proof.
  intros Ht. unfold unread. cbn [script_laws sample_script script_bytes]. apply Forall_app. split; [|done].
  repeat (apply Forall_cons_2; [done|]). apply Forall_nil_2.
Qed.

Lemma scan_inverts_framing_witness :
  exists calls ending, scan_historical_file 30 (Some (sample_script [])) = Some (calls, ending) /\
  (forall records, Forall record_ok records -> unread (sample_script []) = frame records ->
    ending <> inr read_failed ->
    map shown calls = map sized records /\
    ending = inl (FileScanResult.mk (alen records) (alen (unread (sample_script []))))) /\
  (forall r, ending = inl r ->
    exists records, Forall record_ok records /\ unread (sample_script []) = frame records /\
      map shown calls = map sized records).
Proof.
  assert (enough (sample_script []) <= 30)%nat as He by (vm_compute; lia).
  pose proof (sample_script_ok [] ltac:(apply Forall_nil_2)) as Hb.
  destruct (scan_ok 30 (sample_script []) Hb ltac:(done) He) as (calls & ending & Hs & _).
  exists calls, ending. split; [exact Hs|].
  apply (scan_inverts_framing 30 (sample_script [])); [exact Hb|done|exact He|exact Hs].
Defined.
