(* ===== verification/SpscRing.v ===== *)
(** * components/include/qtrader/SpscRing.hpp

    The single-producer single-consumer ring.  The two threads take turns at
    will: a schedule is any sequence of the steps below.  An atomic variable is
    its modification order; an acquire load may return any value stored since
    the one its thread last saw, not only the newest.

    Its theorems hold for every schedule and every choice of what the acquire
    loads return: values come out in the order they went in, none is lost or
    duplicated, no slot is touched by both threads without the synchronisation
    that orders them, and a call that loads the newest value fails only when the
    ring is full, or empty. *)

From S2P Require Import Prelude.
Inductive FullPolicy := Reject | Spin | DropNewest.
Inductive PushResult := Pushed | Full | Dropped.

#[global] Instance push_result_eq_dec : EqDecision PushResult.
Proof. solve_decision. Defined.

Module SpscRing.
Section ring.
Context {T : Type} `{Inhabited T} (Capacity : Z).

(** Where the producer is in [push], and the consumer in [try_pop]. *)
Inductive Producer :=
  | ProducerIdle
  | ProducerLoads (value : T) (policy : FullPolicy) (dropped : bool)
  | ProducerWrites (value : T)
  | ProducerPublishes (value : T).

Inductive Consumer := ConsumerIdle | ConsumerLoads | ConsumerReads | ConsumerReleases (value : T).

(** [published] and [tail] are modification orders, oldest first; [seen_tail]
    and [seen_published] are the positions the threads last loaded. *)
Record t := mk {
  buffer_ : list T;
  published : list Z;
  head : Z;
  tail : list Z;
  local_tail : Z;
  producer : Producer;
  consumer : Consumer;
  seen_tail : nat;
  seen_published : nat;
  dropped_ : Z
}.

#[global] Instance eta_ring : Eta t := fun r =>
  mk (buffer_ r) (published r) (head r) (tail r) (local_tail r) (producer r) (consumer r)
    (seen_tail r) (seen_published r) (dropped_ r).

Definition make : t :=
  mk (replicate (Z.to_nat Capacity) inhabitant) [0] 0 [0] 0 ProducerIdle ConsumerIdle 0 0 0.

(** [(i + 1) & (Capacity - 1)] *)
Definition successor (i : Z) : Z := Z.land (u64 (i + 1)) (Capacity - 1).

(** What the calls return. *)
Inductive Output := PushReturned (value : T) (r : PushResult) | PopReturned (value : option T).

(** One step of a thread.  [Push] and [Pop] are the calls; a load names the
    position in the modification order it reads. *)
Inductive Step :=
  | Push (value : T) (policy : FullPolicy) (dropped : bool)
  | LoadTail (position : nat)
  | WriteSlot
  | Publish
  | Pop
  | LoadPublished (position : nat)
  | ReadSlot
  | Release.

(** [try_push] gave [false]: [push] spins, counts or gives up. *)
Definition push_failed (r : t) (value : T) (policy : FullPolicy) (dropped : bool) : t * list Output :=
  match policy with
  | Spin => (r <| producer := ProducerLoads value policy dropped |>, [])
  | DropNewest =>
      ((if dropped then r <| dropped_ ::= incr |> else r) <| producer := ProducerIdle |>,
       [PushReturned value Dropped])
  | Reject => (r <| producer := ProducerIdle |>, [PushReturned value Full])
  end.

(** [next == _consumer.tail.load(acquire)], the load having read [position]. *)
Definition load_tail (r : t) (value : T) (policy : FullPolicy) (dropped : bool) (position : nat) :
    option (t * list Output) :=
  loaded ← tail r !! position;
  if (position <? seen_tail r)%nat then None
  else
    let r := r <| seen_tail := position |> in
    Some (if successor (head r) =? loaded then push_failed r value policy dropped
          else (r <| producer := ProducerWrites value |>, [])).

Definition write_slot (r : t) (value : T) : t :=
  r <| buffer_ ::= fun b => b.[head r <- value] |> <| producer := ProducerPublishes value |>.

Definition publish (r : t) (value : T) : t * list Output :=
  let next := successor (head r) in
  (r <| head := next |> <| published ::= fun l => l ++ [next] |> <| producer := ProducerIdle |>,
   [PushReturned value Pushed]).

(** [tail == _producer.published.load(acquire)], the load having read [position]. *)
Definition load_published (r : t) (position : nat) : option (t * list Output) :=
  loaded ← published r !! position;
  if (position <? seen_published r)%nat then None
  else
    let r := r <| seen_published := position |> in
    Some (if local_tail r =? loaded
          then (r <| consumer := ConsumerIdle |>, [PopReturned None])
          else (r <| consumer := ConsumerReads |>, [])).

Definition read_slot (r : t) : t :=
  r <| consumer := ConsumerReleases (buffer_ r).[local_tail r] |>.

Definition release (r : t) (value : T) : t * list Output :=
  let next := successor (local_tail r) in
  (r <| local_tail := next |> <| tail ::= fun l => l ++ [next] |> <| consumer := ConsumerIdle |>,
   [PopReturned (Some value)]).

(** [None] when the thread is elsewhere or the load is not possible. *)
Definition step (r : t) (s : Step) : option (t * list Output) :=
  match s, producer r, consumer r with
  | Push value policy dropped, ProducerIdle, _ =>
      Some (r <| producer := ProducerLoads value policy dropped |>, [])
  | LoadTail position, ProducerLoads value policy dropped, _ =>
      load_tail r value policy dropped position
  | WriteSlot, ProducerWrites value, _ => Some (write_slot r value, [])
  | Publish, ProducerPublishes value, _ => Some (publish r value)
  | Pop, _, ConsumerIdle => Some (r <| consumer := ConsumerLoads |>, [])
  | LoadPublished position, _, ConsumerLoads => load_published r position
  | ReadSlot, _, ConsumerReads => Some (read_slot r, [])
  | Release, _, ConsumerReleases value => Some (release r value)
  | _, _, _ => None
  end.

(** A schedule, and what the calls returned meanwhile. *)
Fixpoint run (r : t) (schedule : list Step) : option (t * list Output) :=
  match schedule with
  | [] => Some (r, [])
  | s :: schedule' =>
      '(r, out) ← step r s;
      '(r, outs) ← run r schedule';
      Some (r, out ++ outs)
  end.

End ring.
End SpscRing.

(** * Properties *)

Import SpscRing.

Section facts.
Context {T : Type} `{Inhabited T} (Capacity : Z).
Implicit Types (r : t (T := T)) (s : Step (T := T)).

(** [Capacity] is a power of two, at least two. *)
Definition capacity_ok : Prop := exists e, 1 <= e <= 63 /\ Capacity = 2 ^ e.
Hypothesis Hcap : capacity_ok.

Lemma capacity_range : 2 <= Capacity <= 2 ^ 63.
Proof.
  destruct Hcap as (e & He & ->). split; [|by apply Z.pow_le_mono_r; lia].
  change 2 with (2 ^ 1) at 1. apply Z.pow_le_mono_r; lia.
Qed.

Lemma successor_mod n : 0 <= n -> successor Capacity (n mod Capacity) = (n + 1) mod Capacity.
Proof.
  intros Hn. pose proof capacity_range. unfold successor. destruct Hcap as (e & He & Hc).
  rewrite Hc at 2. rewrite land_mask_wrap by lia. rewrite <- Hc. apply Zplus_mod_idemp_l.
Qed.

(** Values that returned from [push], and from [try_pop]. *)
Definition pushed_of (outs : list (Output (T := T))) : list T :=
  omap (fun o => match o with PushReturned v Pushed => Some v | _ => None end) outs.
Definition popped_of (outs : list (Output (T := T))) : list T :=
  omap (fun o => match o with PopReturned (Some v) => Some v | _ => None end) outs.

(** The modification order of an index after [n] operations. *)
Definition indices (n : nat) : list Z := map (fun i => Z.of_nat i mod Capacity) (seq 0 (S n)).

#[local] Arguments indices : simpl never.

Lemma lookup_indices n i v : indices n !! i = Some v -> (i <= n)%nat /\ v = Z.of_nat i mod Capacity.
Proof.
  unfold indices. intros (k & -> & [-> Hi]%lookup_seq)%list_lookup_fmap_Some. split; [lia|done].
Qed.

Lemma indices_S n : indices (S n) = indices n ++ [Z.of_nat (S n) mod Capacity].
Proof. unfold indices. by rewrite (seq_S (S n)), map_app. Qed.

(** The ring after [pushed] went in and [popped] came out. *)
Record ring_ok r (pushed popped : list T) : Prop := {
  ring_published : published r = indices (length pushed);
  ring_tail : tail r = indices (length popped);
  ring_head : head r = Z.of_nat (length pushed) mod Capacity;
  ring_local_tail : local_tail r = Z.of_nat (length popped) mod Capacity;
  ring_popped : popped = take (length popped) pushed;
  ring_seen_tail : (seen_tail r <= length popped)%nat;
  ring_seen_published : (length popped <= seen_published r <= length pushed)%nat;
  ring_room : Z.of_nat (length pushed) - Z.of_nat (seen_tail r) <= Capacity - 1;
  ring_buffer : alen (buffer_ r) = Capacity;
  ring_slots : forall i v, (length popped <= i)%nat -> pushed !! i = Some v ->
    (buffer_ r).[Z.of_nat i mod Capacity] = v;
  ring_producer :
    match producer r with
    | ProducerIdle | ProducerLoads _ _ _ => True
    | ProducerWrites _ => Z.of_nat (length pushed) + 1 - Z.of_nat (seen_tail r) <= Capacity - 1
    | ProducerPublishes v =>
        Z.of_nat (length pushed) + 1 - Z.of_nat (seen_tail r) <= Capacity - 1 /\
        (buffer_ r).[Z.of_nat (length pushed) mod Capacity] = v
    end;
  ring_consumer :
    match consumer r with
    | ConsumerIdle | ConsumerLoads => True
    | ConsumerReads => (length popped < seen_published r)%nat
    | ConsumerReleases v =>
        (length popped < seen_published r)%nat /\ pushed !! length popped = Some v
    end
}.

Lemma make_ring_ok : ring_ok (make Capacity) [] [].
Proof.
  pose proof capacity_range. constructor; try done; cbn; try (by rewrite Z.mod_0_l by lia); try lia.
  - unfold alen. rewrite length_replicate. lia.
Qed.

(** Distinct residues of counters less than a capacity apart. *)
Lemma residue_inj a b : 0 <= a <= b -> b - a < Capacity -> a mod Capacity = b mod Capacity -> a = b.
Proof.
  intros Hab Hlt Hm. pose proof capacity_range.
  assert (0 = (b - a) mod Capacity) as Hz by (rewrite Zminus_mod, Hm, Z.sub_diag; by rewrite Z.mod_0_l by lia).
  rewrite Z.mod_small in Hz by lia. lia.
Qed.

Lemma popped_le r pushed popped : ring_ok r pushed popped -> (length popped <= length pushed)%nat.
Proof. intros []. lia. Qed.

(** The ring differs only in where the producer is, and what it saw. *)
Lemma producer_moves r pushed popped p seen dropped :
  ring_ok r pushed popped -> (seen_tail r <= seen <= length popped)%nat ->
  match p with
  | ProducerIdle | ProducerLoads _ _ _ => True
  | ProducerWrites _ => Z.of_nat (length pushed) + 1 - Z.of_nat seen <= Capacity - 1
  | ProducerPublishes v => False
  end ->
  ring_ok (mk (buffer_ r) (published r) (head r) (tail r) (local_tail r) p (consumer r) seen
    (seen_published r) dropped) pushed popped.
Proof.
  intros [] Hseen Hp. constructor; cbn; try done; try lia. by destruct p.
Qed.

Lemma consumer_moves r pushed popped c seen :
  ring_ok r pushed popped -> (seen_published r <= seen <= length pushed)%nat ->
  match c with
  | ConsumerIdle | ConsumerLoads => True
  | ConsumerReads => (length popped < seen)%nat
  | ConsumerReleases v => (length popped < seen)%nat /\ pushed !! length popped = Some v
  end ->
  ring_ok (mk (buffer_ r) (published r) (head r) (tail r) (local_tail r) (producer r) c (seen_tail r)
    seen (dropped_ r)) pushed popped.
Proof. intros [] Hseen Hc. constructor; cbn; try done; lia. Qed.

(** What a load of [tail] tells the producer. *)
Lemma load_tail_spec r pushed popped position loaded :
  ring_ok r pushed popped -> tail r !! position = Some loaded -> (seen_tail r <= position)%nat ->
  (position <= length popped)%nat /\
  ((successor Capacity (head r) =? loaded) =
    (Z.of_nat (length pushed) - Z.of_nat position =? Capacity - 1)).
Proof.
  intros [] Hl Hs. pose proof capacity_range. rewrite ring_tail0 in Hl.
  apply lookup_indices in Hl as [Hle ->]. split; [done|].
  rewrite ring_head0, successor_mod by lia. apply eq_true_iff_eq. rewrite !Z.eqb_eq. split; intros He.
  - assert (Z.of_nat position + Capacity = Z.of_nat (length pushed) + 1 \/
            Z.of_nat (length pushed) + 1 - Z.of_nat position < Capacity) as [|Hlt] by lia; [lia|].
    symmetry in He. apply residue_inj in He; lia.
  - replace (Z.of_nat (length pushed) + 1) with (Z.of_nat position + 1 * Capacity) by lia.
    by rewrite Z.mod_add by lia.
Qed.

Lemma load_published_spec r pushed popped position loaded :
  ring_ok r pushed popped -> published r !! position = Some loaded ->
  (seen_published r <= position)%nat ->
  (position <= length pushed)%nat /\ ((local_tail r =? loaded) = (length popped =? position)%nat).
Proof.
  intros [] Hl Hs. pose proof capacity_range. rewrite ring_published0 in Hl.
  apply lookup_indices in Hl as [Hle ->]. split; [done|]. rewrite ring_local_tail0.
  apply eq_true_iff_eq. rewrite Z.eqb_eq, Nat.eqb_eq. split; [intros He|by intros ->].
  apply residue_inj in He; lia.
Qed.

Lemma write_slot_ok r pushed popped v :
  ring_ok r pushed popped -> producer r = ProducerWrites v -> ring_ok (write_slot r v) pushed popped.
Proof.
  intros [] Hp. pose proof capacity_range. rewrite Hp in *. unfold write_slot.
  assert (0 <= head r < alen (buffer_ r)) as Hh.
  { rewrite ring_head0, ring_buffer0. apply Z.mod_pos_bound. lia. }
  constructor; cbn; try done.
  - by autorewrite with arr.
  - intros i x Hi Hx. rewrite aget_aset_ne; [by apply ring_slots0|lia|apply Z.mod_pos_bound; lia|].
    rewrite ring_head0. intros He. apply lookup_lt_Some in Hx. symmetry in He. apply residue_inj in He; lia.
  - split; [lia|]. by rewrite <- ring_head0, aget_aset_eq.
Qed.

Lemma publish_ok r pushed popped v :
  ring_ok r pushed popped -> producer r = ProducerPublishes v ->
  ring_ok (publish Capacity r v).1 (pushed ++ [v]) popped.
Proof.
  intros [] Hp. pose proof capacity_range. rewrite Hp in *. destruct ring_producer0 as [Hroom Hv].
  unfold publish. constructor; cbn; rewrite ?length_app; cbn [length].
  - rewrite ring_published0, Nat.add_1_r, indices_S, ring_head0, successor_mod by lia.
    do 3 f_equal. lia.
  - done.
  - rewrite ring_head0, successor_mod by lia. f_equal. lia.
  - done.
  - rewrite take_app_le by lia. done.
  - done.
  - lia.
  - lia.
  - done.
  - intros i x Hi [Hx|[Hx Hx']]%lookup_app_Some; [by apply ring_slots0|].
    apply list_lookup_singleton_Some in Hx' as [Hz <-]. assert (i = length pushed) as -> by lia. done.
  - done.
  - destruct (consumer r); try done. destruct ring_consumer0 as [? Hl]. split; [done|].
    by apply lookup_app_l_Some.
Qed.

Lemma read_slot_ok r pushed popped :
  ring_ok r pushed popped -> consumer r = ConsumerReads -> ring_ok (read_slot r) pushed popped.
Proof.
  intros Hok Hc. destruct (Hok) as []. rewrite Hc in ring_consumer0. apply consumer_moves; [done|lia|].
  split; [done|]. destruct (lookup_lt_is_Some_2 pushed (length popped)) as [v Hv]; [lia|].
  rewrite Hv, ring_local_tail0. f_equal. symmetry. by apply ring_slots0.
Qed.

Lemma release_ok r pushed popped v :
  ring_ok r pushed popped -> consumer r = ConsumerReleases v ->
  ring_ok (release Capacity r v).1 pushed (popped ++ [v]).
Proof.
  intros [] Hc. pose proof capacity_range. rewrite Hc in *. destruct ring_consumer0 as [Hs Hv].
  unfold release. constructor; cbn; rewrite ?length_app; cbn [length]; try done; try lia.
  - rewrite ring_tail0, Nat.add_1_r, indices_S, ring_local_tail0, successor_mod by lia.
    do 3 f_equal. lia.
  - rewrite ring_local_tail0, successor_mod by lia. f_equal. lia.
  - rewrite Nat.add_1_r, (take_S_r _ _ v) by done. by rewrite <- ring_popped0.
  - intros i x Hi. apply ring_slots0. lia.
Qed.

(** The contract: a queue of at most [Capacity - 1] values that may refuse. *)
Inductive queue_step : list T -> Output (T := T) -> list T -> Prop :=
  | queue_push q v : Z.of_nat (length q) < Capacity - 1 -> queue_step q (PushReturned v Pushed) (q ++ [v])
  | queue_refuse q v result : result <> Pushed -> queue_step q (PushReturned v result) q
  | queue_pop q v : queue_step (v :: q) (PopReturned (Some v)) q
  | queue_nothing q : queue_step q (PopReturned None) q.

Inductive queue_steps : list T -> list (Output (T := T)) -> list T -> Prop :=
  | queue_done q : queue_steps q [] q
  | queue_next q o q' outs q'' :
      queue_step q o q' -> queue_steps q' outs q'' -> queue_steps q (o :: outs) q''.

Lemma queue_steps_app q outs q' outs' q'' :
  queue_steps q outs q' -> queue_steps q' outs' q'' -> queue_steps q (outs ++ outs') q''.
Proof. induction 1; [done|]. intros. econstructor; eauto. Qed.

Lemma queue_steps_one q o q' : queue_step q o q' -> queue_steps q [o] q'.
Proof. intros. econstructor; [done|constructor]. Qed.

(** What is in the ring. *)
Definition inside (pushed popped : list T) : list T := drop (length popped) pushed.

Lemma inside_length r pushed popped :
  ring_ok r pushed popped ->
  Z.of_nat (length (inside pushed popped)) = Z.of_nat (length pushed) - Z.of_nat (length popped).
Proof. intros Hok%popped_le. unfold inside. rewrite length_drop. lia. Qed.

(** One step: the invariant, the queue, and what was learnt. *)
Definition stepped (r' : t) (pushed popped : list T) (outs : list (Output (T := T))) : Prop :=
  let pushed' := pushed ++ pushed_of outs in
  let popped' := popped ++ popped_of outs in
  ring_ok r' pushed' popped' /\ queue_steps (inside pushed popped) outs (inside pushed' popped').

Lemma stepped_quiet r' pushed popped : ring_ok r' pushed popped -> stepped r' pushed popped [].
Proof. intros. unfold stepped. cbn. rewrite !app_nil_r. split; [done|constructor]. Qed.

Lemma stepped_idle r' pushed popped o :
  ring_ok r' pushed popped -> pushed_of [o] = [] -> popped_of [o] = [] ->
  queue_step (inside pushed popped) o (inside pushed popped) -> stepped r' pushed popped [o].
Proof.
  intros Hok H1 H2 Hq. unfold stepped. rewrite H1, H2, !app_nil_r. split; [done|].
  by apply queue_steps_one.
Qed.

Lemma push_failed_ok r pushed popped v policy dropped :
  ring_ok r pushed popped ->
  let '(r', outs) := push_failed r v policy dropped in stepped r' pushed popped outs.
Proof.
  intros Hok. pose proof (ring_seen_tail _ _ _ Hok).
  assert (forall p d, match p with ProducerIdle | ProducerLoads _ _ _ => True | _ => False end ->
    ring_ok (mk (buffer_ r) (published r) (head r) (tail r) (local_tail r) p (consumer r)
      (seen_tail r) (seen_published r) d) pushed popped) as Hm.
  { intros p d Hp. apply producer_moves; [done|lia|by destruct p]. }
  destruct policy; cbn.
  - apply stepped_idle; [by apply Hm|done..|by constructor].
  - apply stepped_quiet. by apply Hm.
  - apply stepped_idle; [|done..|by constructor]. by destruct dropped; apply Hm.
Qed.

Lemma load_tail_ok r pushed popped v policy dropped position r' outs :
  ring_ok r pushed popped -> load_tail Capacity r v policy dropped position = Some (r', outs) ->
  stepped r' pushed popped outs.
Proof.
  intros Hok. unfold load_tail. destruct (tail r !! position) as [loaded|] eqn:Hl; [|done].
  cbn [mbind option_bind]. destruct (Nat.ltb_spec position (seen_tail r)); [done|].
  destruct (load_tail_spec _ _ _ _ _ Hok Hl ltac:(lia)) as [Hpos Htest].
  assert (ring_ok (r <| seen_tail := position |>) pushed popped) as Hok1.
  { destruct (producer r) eqn:Hp.
    1,2: apply (producer_moves r); [done|lia|by rewrite Hp].
    all: destruct (Hok); rewrite Hp in *; constructor; cbn; try done; try lia.
    all: rewrite ?Hp; first [lia|split; [lia|tauto]]. }
  intros Hs. injection Hs as Hs. cbn [head] in Hs.
  change (head r <| seen_tail := position |>) with (head r) in Hs. rewrite Htest in Hs.
  destruct (Z.eqb_spec (Z.of_nat (length pushed) - Z.of_nat position) (Capacity - 1)).
  - pose proof (push_failed_ok _ _ _ v policy dropped Hok1) as Hf. by rewrite Hs in Hf.
  - injection Hs as <- <-. apply stepped_quiet. destruct (Hok).
    apply (producer_moves r pushed popped (ProducerWrites v) position (dropped_ r)); [done|lia|lia].
Qed.

Lemma load_published_ok r pushed popped position r' outs :
  ring_ok r pushed popped -> load_published r position = Some (r', outs) ->
  stepped r' pushed popped outs.
Proof.
  intros Hok. unfold load_published. destruct (published r !! position) as [loaded|] eqn:Hl; [|done].
  cbn [mbind option_bind]. destruct (Nat.ltb_spec position (seen_published r)); [done|].
  destruct (load_published_spec _ _ _ _ _ Hok Hl ltac:(lia)) as [Hpos Htest].
  change (local_tail r <| seen_published := position |>) with (local_tail r). rewrite Htest.
  destruct (Hok). destruct (Nat.eqb_spec (length popped) position) as [He|He]; intros [= <- <-].
  - apply stepped_idle; [|done..|constructor].
    apply (consumer_moves r pushed popped ConsumerIdle position); [done|lia|done].
  - apply stepped_quiet. apply (consumer_moves r pushed popped ConsumerReads position); [done|lia|lia].
Qed.

Lemma step_ok r pushed popped s r' outs :
  ring_ok r pushed popped -> step Capacity r s = Some (r', outs) -> stepped r' pushed popped outs.
Proof.
  intros Hok Hs. pose proof (popped_le _ _ _ Hok). pose proof (inside_length _ _ _ Hok).
  destruct (Hok). unfold step in Hs.
  destruct s; repeat match type of Hs with
    context [match ?x with _ => _ end] => destruct x eqn:? end; try discriminate Hs;
    try injection Hs as <- <-.
  - apply stepped_quiet. apply (producer_moves r); [done|lia|done].
  - by eapply load_tail_ok.
  - apply stepped_quiet. by apply write_slot_ok.
  - pose proof (publish_ok _ _ _ _ Hok ltac:(eassumption)) as Hp.
    unfold stepped, publish in *. cbn in *. rewrite app_nil_r. split; [done|].
    apply queue_steps_one. unfold inside. rewrite drop_app_le by done.
    constructor. unfold inside in *. rewrite H1. lia.
  - apply stepped_quiet. apply (consumer_moves r); [done|lia|done].
  - by eapply load_published_ok.
  - apply stepped_quiet. by apply read_slot_ok.
  - pose proof (release_ok _ _ _ _ Hok ltac:(eassumption)) as Hp.
    unfold stepped, release in *. cbn in *. rewrite app_nil_r. split; [done|].
    apply queue_steps_one. destruct ring_consumer0 as [_ Hv].
    unfold inside. rewrite length_app, (drop_S _ _ _ Hv), Nat.add_1_r. constructor.
Qed.

Lemma run_from r pushed popped schedule r' outs :
  ring_ok r pushed popped -> run Capacity r schedule = Some (r', outs) -> stepped r' pushed popped outs.
Proof.
  revert r pushed popped outs. induction schedule as [|s schedule IH]; intros r pushed popped outs Hok Hr;
    simpl in Hr; [simplify_eq; by apply stepped_quiet|].
  destruct (step Capacity r s) as [[r1 out]|] eqn:Hs; [|done]. cbn in Hr.
  destruct (run Capacity r1 schedule) as [[r2 outs']|] eqn:Hrun; [|done]. cbn in Hr. simplify_eq.
  destruct (step_ok _ _ _ _ _ _ Hok Hs) as [Hok1 Hq1]. destruct (IH _ _ _ _ Hok1 Hrun) as [Hok2 Hq2].
  unfold stepped, pushed_of, popped_of in *. rewrite !omap_app, !app_assoc. split; [done|].
  by eapply queue_steps_app.
Qed.

Lemma spsc_run_ok schedule r outs :
  run Capacity (make Capacity) schedule = Some (r, outs) ->
  ring_ok r (pushed_of outs) (popped_of outs) /\
  queue_steps [] outs (inside (pushed_of outs) (popped_of outs)).
Proof. apply (run_from _ [] [] schedule r outs make_ring_ok). Qed.
End facts.

(** ** The properties *)

Section properties.
Context {T : Type} `{Inhabited T} (Capacity : Z).
Implicit Types (r : t (T := T)) (outs : list (Output (T := T))).

(** C25: for every schedule, what the calls return is what a first-in first-out
    queue of at most [Capacity - 1] values, which may refuse, allows: the values
    popped are the first of the values pushed, in order, each once and
    unaltered, and never more than [Capacity - 1] are inside. *)
Theorem spsc_refines_queue schedule r outs :
  capacity_ok Capacity -> run Capacity (make Capacity) schedule = Some (r, outs) ->
  queue_steps Capacity [] outs (drop (length (popped_of outs)) (pushed_of outs)) /\
  popped_of outs = take (length (popped_of outs)) (pushed_of outs) /\
  Z.of_nat (length (pushed_of outs)) - Z.of_nat (length (popped_of outs)) <= Capacity - 1.
Proof.
  intros Hcap Hr. destruct (spsc_run_ok Capacity Hcap _ _ _ Hr) as [Hok Hq]. split; [exact Hq|].
  destruct Hok. split; [done|lia].
Qed.

(** C26: for every schedule the threads never race for a slot. When the producer
    is about to write a slot it has acquired the release of every earlier value
    of that slot; when the consumer is about to read one it has acquired its
    publication, and it is the oldest value inside; and they are never at the
    same slot. *)
Theorem spsc_no_race schedule r outs :
  capacity_ok Capacity -> run Capacity (make Capacity) schedule = Some (r, outs) ->
  (forall v i, producer r = ProducerWrites v -> (i < length (pushed_of outs))%nat ->
    Z.of_nat i mod Capacity = head r -> (i < seen_tail r)%nat) /\
  (consumer r = ConsumerReads ->
    (length (popped_of outs) < seen_published r)%nat /\
    pushed_of outs !! length (popped_of outs) = Some (buffer_ r).[local_tail r]) /\
  (forall v, producer r = ProducerWrites v -> consumer r = ConsumerReads -> head r <> local_tail r).
Proof.
  intros Hcap Hr. destruct (spsc_run_ok Capacity Hcap _ _ _ Hr) as [[] _]. pose proof (capacity_range Capacity Hcap).
  assert (forall v i, producer r = ProducerWrites v -> (i < length (pushed_of outs))%nat ->
    Z.of_nat i mod Capacity = head r -> (i < seen_tail r)%nat) as Hwrite.
  { intros v i Hp Hi Hm. rewrite Hp in ring_producer0. rewrite ring_head0 in Hm.
    destruct (Nat.lt_ge_cases i (seen_tail r)); [done|]. apply residue_inj in Hm; [lia|done|lia|lia]. }
  split_and!; [done| |].
  - intros Hc. rewrite Hc in ring_consumer0. split; [done|].
    destruct (lookup_lt_is_Some_2 (pushed_of outs) (length (popped_of outs))) as [v Hv]; [lia|].
    rewrite Hv, ring_local_tail0. f_equal. symmetry. by apply ring_slots0.
  - intros v Hp Hc He. rewrite Hc in ring_consumer0.
    assert (length (popped_of outs) < seen_tail r)%nat; [|lia].
    apply (Hwrite v); [done|lia|]. by rewrite He.
Qed.

(** A call that runs undisturbed and loads the newest values. *)
Definition push_alone r (v : T) (policy : FullPolicy) : list (Step (T := T)) :=
  [Push v policy true; LoadTail (length (tail r) - 1)] ++
  (if Z.of_nat (length (published r)) - Z.of_nat (length (tail r)) <? Capacity - 1
   then [WriteSlot; Publish] else []).
Definition pop_alone r : list (Step (T := T)) :=
  [Pop; LoadPublished (length (published r) - 1)] ++
  (if (length (tail r) <? length (published r))%nat then [ReadSlot; Release] else []).

Lemma run_cons r s schedule r1 out :
  step Capacity r s = Some (r1, out) ->
  run Capacity r (s :: schedule) = '(r2, outs) ← run Capacity r1 schedule; Some (r2, out ++ outs).
Proof. simpl. by intros ->. Qed.

Lemma step_load_tail r v policy dropped n loaded :
  producer r = ProducerLoads v policy dropped -> tail r !! n = Some loaded -> (seen_tail r <= n)%nat ->
  step Capacity r (LoadTail n) =
    Some (if successor Capacity (head r) =? loaded then push_failed (r <| seen_tail := n |>) v policy dropped
          else ((r <| seen_tail := n |>) <| producer := ProducerWrites v |>, [])).
Proof.
  intros Hp Hl Hs. unfold step, load_tail. rewrite Hp, Hl. cbn [mbind option_bind].
  by rewrite (proj2 (Nat.ltb_ge _ _)) by done.
Qed.

Lemma step_load_published r n loaded :
  consumer r = ConsumerLoads -> published r !! n = Some loaded -> (seen_published r <= n)%nat ->
  step Capacity r (LoadPublished n) =
    Some (if local_tail r =? loaded
          then ((r <| seen_published := n |>) <| consumer := ConsumerIdle |>, [PopReturned None])
          else ((r <| seen_published := n |>) <| consumer := ConsumerReads |>, [])).
Proof.
  intros Hp Hl Hs. unfold step, load_published. rewrite Hp, Hl. cbn [mbind option_bind].
  rewrite (proj2 (Nat.ltb_ge _ _)) by done. by destruct (producer r).
Qed.

Lemma push_alone_runs r pushed popped v :
  capacity_ok Capacity -> ring_ok Capacity r pushed popped -> producer r = ProducerIdle ->
  let full := Z.of_nat (length pushed) - Z.of_nat (length popped) = Capacity - 1 in
  (~ full -> forall policy, exists r', run Capacity r (push_alone r v policy) =
    Some (r', [PushReturned v Pushed])) /\
  (full -> exists r', run Capacity r (push_alone r v Reject) = Some (r', [PushReturned v Full])) /\
  (full -> exists r', run Capacity r (push_alone r v DropNewest) = Some (r', [PushReturned v Dropped]) /\
    dropped_ r' = incr (dropped_ r)).
Proof.
  intros Hcap Hok Hidle full. pose proof (popped_le _ _ _ _ Hok).
  assert (length (published r) = S (length pushed) /\ length (tail r) = S (length popped)) as [Hlp Hlt].
  { destruct Hok. rewrite ring_published0, ring_tail0. unfold indices. by rewrite !length_map, !length_seq. }
  assert (is_Some (tail r !! length popped)) as [tl Htl] by (apply lookup_lt_is_Some_2; lia).
  destruct (load_tail_spec Capacity Hcap _ _ _ _ _ Hok Htl ltac:(apply Hok)) as [_ Htest].
  assert (ring_room := ring_room _ _ _ _ Hok). pose proof (ring_seen_tail _ _ _ _ Hok).
  assert (forall policy,
    step Capacity r (Push v policy true) = Some (r <| producer := ProducerLoads v policy true |>, []) /\
    step Capacity (r <| producer := ProducerLoads v policy true |>) (LoadTail (length popped)) =
      Some (let r1 := (r <| producer := ProducerLoads v policy true |>) <| seen_tail := length popped |> in
            if Z.of_nat (length pushed) - Z.of_nat (length popped) =? Capacity - 1
            then push_failed r1 v policy true
            else (r1 <| producer := ProducerWrites v |>, []))) as Hsteps.
  { intros policy. split; [unfold step; by rewrite Hidle|].
    pose proof (step_load_tail (r <| producer := ProducerLoads v policy true |>) v policy true
      (length popped) tl eq_refl Htl ltac:(apply Hok)) as H2.
    change (head r <| producer := ProducerLoads v policy true |>) with (head r) in H2.
    by rewrite Htest in H2. }
  unfold push_alone. rewrite Hlp, Hlt. cbn [Nat.sub]. rewrite Nat.sub_0_r.
  replace (Z.of_nat (S (length pushed)) - Z.of_nat (S (length popped)))
    with (Z.of_nat (length pushed) - Z.of_nat (length popped)) by lia.
  split_and!; intros Hf; [intros policy| |].
  - destruct (Hsteps policy) as [Hs1 Hs2]. rewrite (proj2 (Z.eqb_neq _ _)) in Hs2 by done.
    rewrite (proj2 (Z.ltb_lt _ _)) by (destruct Hok; unfold full in Hf; lia).
    cbn [app]. rewrite (run_cons _ _ _ _ _ Hs1), (run_cons _ _ _ _ _ Hs2). by eexists.
  - destruct (Hsteps Reject) as [Hs1 Hs2]. unfold full in Hf. rewrite Hf, Z.eqb_refl in Hs2.
    rewrite (proj2 (Z.ltb_ge _ _)) by lia. cbn [app].
    rewrite (run_cons _ _ _ _ _ Hs1), (run_cons _ _ _ _ _ Hs2). by eexists.
  - destruct (Hsteps DropNewest) as [Hs1 Hs2]. unfold full in Hf. rewrite Hf, Z.eqb_refl in Hs2.
    rewrite (proj2 (Z.ltb_ge _ _)) by lia. cbn [app].
    rewrite (run_cons _ _ _ _ _ Hs1), (run_cons _ _ _ _ _ Hs2). by eexists.
Qed.

Lemma pop_alone_runs r pushed popped :
  capacity_ok Capacity -> ring_ok Capacity r pushed popped -> consumer r = ConsumerIdle ->
  exists r', run Capacity r (pop_alone r) = Some (r', [PopReturned (pushed !! length popped)]).
Proof.
  intros Hcap Hok Hidle. pose proof (popped_le _ _ _ _ Hok).
  assert (length (published r) = S (length pushed) /\ length (tail r) = S (length popped)) as [Hlp Hlt].
  { destruct Hok. rewrite ring_published0, ring_tail0. unfold indices. by rewrite !length_map, !length_seq. }
  assert (is_Some (published r !! length pushed)) as [pl Hpl] by (apply lookup_lt_is_Some_2; lia).
  destruct (load_published_spec Capacity Hcap _ _ _ _ _ Hok Hpl ltac:(apply Hok)) as [_ Htest].
  assert (step Capacity r Pop = Some (r <| consumer := ConsumerLoads |>, [])) as Hs1.
  { unfold step. rewrite Hidle. by destruct (producer r). }
  pose proof (step_load_published (r <| consumer := ConsumerLoads |>) (length pushed) pl eq_refl Hpl
    ltac:(apply Hok)) as Hs2.
  change (local_tail r <| consumer := ConsumerLoads |>) with (local_tail r) in Hs2. rewrite Htest in Hs2.
  unfold pop_alone. rewrite Hlp, Hlt. cbn [Nat.sub]. rewrite Nat.sub_0_r. revert Hs2.
  destruct (Nat.eqb_spec (length popped) (length pushed)) as [He|He]; intros Hs2.
  - rewrite (proj2 (Nat.ltb_ge _ _)) by lia. cbn [app].
    rewrite (run_cons _ _ _ _ _ Hs1), (run_cons _ _ _ _ _ Hs2).
    rewrite (lookup_ge_None_2 pushed) by lia. by eexists.
  - rewrite (proj2 (Nat.ltb_lt _ _)) by lia. cbn [app].
    rewrite (run_cons _ _ _ _ _ Hs1), (run_cons _ _ _ _ _ Hs2).
    destruct (lookup_lt_is_Some_2 pushed (length popped)) as [v Hv]; [lia|]. rewrite Hv.
    assert ((buffer_ r).[local_tail r] = v) as Hb.
    { rewrite (ring_local_tail _ _ _ _ Hok). by apply (ring_slots _ _ _ _ Hok). }
    set (r1 := (r <| consumer := ConsumerLoads |>) <| seen_published := length pushed |>
      <| consumer := ConsumerReads |>).
    assert (step Capacity r1 ReadSlot = Some (r1 <| consumer := ConsumerReleases v |>, [])) as Hs3.
    { rewrite <- Hb. unfold step. by destruct (producer r1). }
    assert (step Capacity (r1 <| consumer := ConsumerReleases v |>) Release =
      Some (release Capacity (r1 <| consumer := ConsumerReleases v |>) v)) as Hs4.
    { unfold step. cbn [producer consumer]. by destruct (producer r). }
    rewrite (run_cons _ _ _ _ _ Hs3). destruct (release _ _ _) as [r4 out] eqn:E.
    rewrite (run_cons _ _ _ _ _ Hs4). injection E as <- <-. by eexists.
Qed.

(** C27: no call waits for the other thread. In any reachable state an idle
    producer's [push] that loads the newest tail succeeds when there is room, and
    is refused or dropped only when the ring holds [Capacity - 1] values; an idle
    consumer's [try_pop] that loads the newest index returns the oldest value
    inside, or nothing only when the ring is empty. *)
Theorem spsc_progress schedule r outs v :
  capacity_ok Capacity -> run Capacity (make Capacity) schedule = Some (r, outs) ->
  let pushed := pushed_of outs in
  let popped := popped_of outs in
  let full := Z.of_nat (length pushed) - Z.of_nat (length popped) = Capacity - 1 in
  (producer r = ProducerIdle ->
    (~ full -> forall policy, exists r', run Capacity r (push_alone r v policy) =
      Some (r', [PushReturned v Pushed])) /\
    (full -> exists r', run Capacity r (push_alone r v Reject) = Some (r', [PushReturned v Full])) /\
    (full -> exists r', run Capacity r (push_alone r v DropNewest) = Some (r', [PushReturned v Dropped]) /\
      dropped_ r' = incr (dropped_ r))) /\
  (consumer r = ConsumerIdle ->
    exists r', run Capacity r (pop_alone r) = Some (r', [PopReturned (pushed !! length popped)])).
Proof.
  intros Hcap Hr pushed popped full. destruct (spsc_run_ok Capacity Hcap _ _ _ Hr) as [Hok _].
  split; intros Hidle; [by apply push_alone_runs|by apply (pop_alone_runs _ _ popped)].
Qed.
End properties.

Lemma small_capacity_ok : capacity_ok 2.
Proof. by exists 1. Qed.
Lemma four_capacity_ok : capacity_ok 4.
Proof. by exists 2. Qed.

(** A ring of two, which holds one value: a push, an empty pop, a value dropped,
    a pop, and a push refused because it loaded the tail before that pop. *)
Definition small_schedule : list (Step (T := Z)) :=
  [Push 7 Reject false; LoadTail 0; Pop; LoadPublished 0; WriteSlot; Publish; Pop;
   Push 8 DropNewest true; LoadTail 0; LoadPublished 1; ReadSlot; Push 9 Reject false; Release;
   LoadTail 0; Push 10 Spin false; LoadTail 0; LoadTail 1; WriteSlot; Publish].

Lemma spsc_refines_queue_witness :
  match run 2 (make 2) small_schedule with
  | Some (_, outs) =>
      (queue_steps 2 [] outs (drop (length (popped_of outs)) (pushed_of outs)) /\
       popped_of outs = take (length (popped_of outs)) (pushed_of outs) /\
       Z.of_nat (length (pushed_of outs)) - Z.of_nat (length (popped_of outs)) <= 2 - 1) /\
      outs = [PopReturned None; PushReturned 7 Pushed; PushReturned 8 Dropped; PopReturned (Some 7);
              PushReturned 9 Full; PushReturned 10 Pushed]
  | None => False
  end.
Proof.
  destruct (run 2 (make 2) small_schedule) as [[r outs]|] eqn:E; [|vm_compute in E; discriminate E].
  split; [apply (spsc_refines_queue 2 small_schedule r outs small_capacity_ok E)|].
  vm_compute in E. by injection E as <- <-.
Defined.

(** A reader at one slot while the writer is at the next. *)
Definition busy_schedule : list (Step (T := Z)) :=
  [Push 7 Reject false; LoadTail 0; WriteSlot; Publish; Pop; LoadPublished 1; Push 8 Reject false; LoadTail 0].

Lemma spsc_no_race_witness :
  match run 4 (make 4) busy_schedule with
  | Some (r, outs) =>
      ((forall v i, producer r = ProducerWrites v -> (i < length (pushed_of outs))%nat ->
         Z.of_nat i mod 4 = head r -> (i < seen_tail r)%nat) /\
       (consumer r = ConsumerReads ->
         (length (popped_of outs) < seen_published r)%nat /\
         pushed_of outs !! length (popped_of outs) = Some (buffer_ r).[local_tail r]) /\
       (forall v, producer r = ProducerWrites v -> consumer r = ConsumerReads -> head r <> local_tail r)) /\
      producer r = ProducerWrites 8 /\ consumer r = ConsumerReads
  | None => False
  end.
Proof.
  destruct (run 4 (make 4) busy_schedule) as [[r outs]|] eqn:E; [|vm_compute in E; discriminate E].
  split; [apply (spsc_no_race 4 busy_schedule r outs four_capacity_ok E)|].
  vm_compute in E. by injection E as <- <-.
Defined.

Lemma spsc_progress_witness :
  match run 2 (make 2) small_schedule with
  | Some (r, outs) =>
      let pushed := pushed_of outs in
      let popped := popped_of outs in
      let full := Z.of_nat (length pushed) - Z.of_nat (length popped) = 2 - 1 in
      ((producer r = ProducerIdle ->
        (~ full -> forall policy, exists r', run 2 r (push_alone 2 r 5 policy) =
          Some (r', [PushReturned 5 Pushed])) /\
        (full -> exists r', run 2 r (push_alone 2 r 5 Reject) = Some (r', [PushReturned 5 Full])) /\
        (full -> exists r', run 2 r (push_alone 2 r 5 DropNewest) = Some (r', [PushReturned 5 Dropped]) /\
          dropped_ r' = incr (dropped_ r))) /\
       (consumer r = ConsumerIdle ->
        exists r', run 2 r (pop_alone r) = Some (r', [PopReturned (pushed !! length popped)]))) /\
      producer r = ProducerIdle /\ full /\ consumer r = ConsumerIdle
  | None => False
  end.
Proof.
  destruct (run 2 (make 2) small_schedule) as [[r outs]|] eqn:E; [|vm_compute in E; discriminate E].
  cbn zeta. split; [apply (spsc_progress 2 small_schedule r outs 5 small_capacity_ok E)|].
  vm_compute in E. by injection E as <- <-.
Defined.
