(* ===== verification/ShmRing.v ===== *)
(** * components/include/qtrader/ShmRingProtocol.hpp

    The broadcast ring in shared memory: one process publishes numbered items,
    readers follow with a check of the slot's number before and after the copy.
    Readers write nothing shared, so one reader stands for any number of them.

    The two sides take turns at will, and copy an item byte by byte.  The atomic
    stores of the publisher form a timeline; an acquire load may return any
    store to its location that is not hidden by a later one the reader already
    knows of, and makes the reader know everything up to the store it returned.
    Plain bytes are read as they are in memory. *)

From S2P Require Import Prelude.

Module ShmRingProtocol.

Definition kMagic : Z := 0x575453484D524E47.
Definition kVersion : Z := 1.
Definition kNoSequence : Z := u64_max.
Definition kCapacity : Z := 8 * 1024.

Section ring.
(** [sizeof(DataItem)], which the vendored structures determine. *)
Context (item_bytes : Z).

(** ** Memory *)

(** [sizeof(SequenceHeader)]: 56 bytes, aligned to 64. *)
Definition header_bytes : Z := 64.

(** The plain fields of the header. *)
Record Header := mkHeader {
  magic : Z;
  version : Z;
  header_size : Z;
  capacity : Z;
  item_size : Z;
  pid : Z
}.

Definition fresh_header : Header := mkHeader kMagic kVersion header_bytes kCapacity item_bytes 0.

Definition valid (h : Header) : bool :=
  (magic h =? kMagic) && (version h =? kVersion) && (header_size h =? header_bytes) &&
  (capacity h =? kCapacity) && (item_size h =? item_bytes).

(** The atomics, and the stores the publisher makes to them. *)
Inductive Location := Epoch | Published | Sequence (slot : Z).

#[global] Instance location_eq_dec : EqDecision Location.
Proof. solve_decision. Defined.

Definition Store : Type := Location * Z.

Definition initial (l : Location) : Z := match l with Epoch => 0 | _ => kNoSequence end.

(** Some store to [l] at a position from [from] on and below [known]. *)
Definition overwritten (stores : list Store) (from known : nat) (l : Location) : bool :=
  bool_decide (Exists (fun s => fst s = l) (take (known - from) (drop from stores))).

(** An acquire load of [l] by a reader that knows [known] stores, returning the
    store at [choice], or the initial value. *)
Definition load (stores : list Store) (known : nat) (l : Location) (choice : option nat) :
    option (Z * nat) :=
  match choice with
  | None => if overwritten stores 0 known l then None else Some (initial l, known)
  | Some i =>
      '(l', v) ← stores !! i;
      if negb (bool_decide (l' = l)) || overwritten stores (S i) known l then None
      else Some (v, max known (S i))
  end.

(** ** The publisher *)

Inductive Writer :=
  | WriterIdle
  | WriterCopies (sequence : Z) (item : list Z) (copied : nat)
  | WriterStoresPublished (sequence : Z).

(** ** The reader *)

(** Where the reader is; [reading] tells an [attach] made by [try_read]. *)
Inductive ReaderAt :=
  | ReaderIdle
  | AttachLoadsEpoch (start_at_latest reading : bool)
  | AttachLoadsPublished (start_at_latest reading : bool)
  | RestartedLoadsEpoch
  | ReadLoadsPublished
  | ReadLoadsBefore
  | ReadCopies (before : Z) (copied : list Z)
  | ReadLoadsAfter (before : Z) (copied : list Z).

Record SequenceReader := mkReader {
  _next : Z;
  _epoch : Z;
  _dropped : Z;
  _initialized : bool;
  at_ : ReaderAt;
  known : nat
}.

#[global] Instance eta_reader : Eta SequenceReader := fun r =>
  mkReader (_next r) (_epoch r) (_dropped r) (_initialized r) (at_ r) (known r).

Definition fresh_reader : SequenceReader := mkReader 0 0 0 false ReaderIdle 0.

Record t := mk {
  header : Header;
  items : list (list Z);
  stores : list Store;
  writer : Writer;
  reader : SequenceReader
}.

#[global] Instance eta_ring : Eta t := fun r => mk (header r) (items r) (stores r) (writer r) (reader r).

Definition make : t :=
  mk fresh_header (replicate (Z.to_nat kCapacity) (replicate (Z.to_nat item_bytes) 0)) []
    WriterIdle fresh_reader.

(** [make_epoch], at [ticks] of the clock. *)
Definition make_epoch (ticks pid : Z) : Z := Z.lxor (u64 ticks) (u64 (Z.shiftl pid 32)).

Definition slot (sequence : Z) : Z := Z.land sequence (kCapacity - 1).

(** [oldest(published)] *)
Definition oldest (published : Z) : Z :=
  if kCapacity - 1 <=? published then published - (kCapacity - 1) else 0.

(** What the calls return; a successful [try_read] with [next_sequence() - 1]. *)
Inductive Output :=
  | Attached
  | RestartedReturned (restarted : bool)
  | ReadNothing
  | Read (sequence : Z) (item : list Z).

(** ** Steps *)

Inductive Step :=
  | StoreEpoch (epoch : Z)
  | Publish (sequence : Z) (item : list Z)
  | CopyIn
  | StoreSequence
  | StorePublished
  | Attach (start_at_latest : bool)
  | AskRestarted
  | TryRead
  | Load (choice : option nat)
  | CopyOut.

Definition store (r : t) (l : Location) (v : Z) : t := r <| stores ::= fun s => s ++ [(l, v)] |>.

(** One byte of [memcpy(&slot.item, &item, sizeof(item))]. *)
Definition copy_in (r : t) (sequence : Z) (item : list Z) (copied : nat) : t :=
  let i := slot sequence in
  let r := r <| items ::= fun a => a.[i <- <[copied := item !!! copied]> a.[i]] |> in
  r <| writer := WriterCopies sequence item (S copied) |>.

Definition writer_step (r : t) (s : Step) : option t :=
  match s, writer r with
  | StoreEpoch epoch, WriterIdle => Some (store r Epoch epoch)
  | Publish sequence item, WriterIdle => Some (r <| writer := WriterCopies sequence item 0 |>)
  | CopyIn, WriterCopies sequence item copied =>
      if (copied <? Z.to_nat item_bytes)%nat then Some (copy_in r sequence item copied) else None
  | StoreSequence, WriterCopies sequence _ copied =>
      if (copied <? Z.to_nat item_bytes)%nat then None
      else Some ((store r (Sequence (slot sequence)) sequence) <| writer := WriterStoresPublished sequence |>)
  | StorePublished, WriterStoresPublished sequence =>
      Some ((store r Published sequence) <| writer := WriterIdle |>)
  | _, _ => None
  end.

(** What follows a load of [attach], having returned [v]. *)
Definition attach_published (d : SequenceReader) (start_at_latest reading : bool) (v : Z) :
    SequenceReader * list Output :=
  let next :=
    if v =? kNoSequence then 0 else if start_at_latest then u64 (v + 1) else oldest v in
  let d := d <| _next := next |> <| _initialized := true |> in
  if reading then (d <| at_ := ReadLoadsPublished |>, []) else (d <| at_ := ReaderIdle |>, [Attached]).

(** What follows the loads of [try_read]. *)
Definition read_published (d : SequenceReader) (published : Z) : SequenceReader * list Output :=
  if (published =? kNoSequence) || (published <? _next d) then (d <| at_ := ReaderIdle |>, [ReadNothing])
  else
    let oldest_available := oldest published in
    let d :=
      if _next d <? oldest_available
      then d <| _dropped ::= fun n => u64 (n + u64 (oldest_available - _next d)) |>
             <| _next := oldest_available |>
      else d in
    (d <| at_ := ReadLoadsBefore |>, []).

Definition read_before (d : SequenceReader) (before : Z) : SequenceReader * list Output :=
  if negb (before =? _next d) then
    let d :=
      if (_next d <? before) && negb (before =? kNoSequence)
      then d <| _dropped ::= fun n => u64 (n + u64 (before - _next d)) |> <| _next := before |>
      else d in
    (d <| at_ := ReaderIdle |>, [ReadNothing])
  else (d <| at_ := ReadCopies before [] |>, []).

Definition read_after (d : SequenceReader) (before : Z) (copied : list Z) (after : Z) :
    SequenceReader * list Output :=
  if negb (after =? before) then
    let d := d <| _dropped ::= fun n =>
      u64 (n + (if _next d <? after then u64 (after - _next d) else 1)) |> in
    let d := d <| _next := if after =? kNoSequence then incr (_next d) else after |> in
    (d <| at_ := ReaderIdle |>, [ReadNothing])
  else
    let d := d <| _next ::= incr |> in
    (d <| at_ := ReaderIdle |>, [Read (u64 (_next d - 1)) copied]).

(** The location a reader at [a] loads next. *)
Definition loads (d : SequenceReader) : option Location :=
  match at_ d with
  | AttachLoadsEpoch _ _ | RestartedLoadsEpoch => Some Epoch
  | AttachLoadsPublished _ _ | ReadLoadsPublished => Some Published
  | ReadLoadsBefore | ReadLoadsAfter _ _ => Some (Sequence (slot (_next d)))
  | ReaderIdle | ReadCopies _ _ => None
  end.

Definition after_load (d : SequenceReader) (v : Z) : SequenceReader * list Output :=
  match at_ d with
  | AttachLoadsEpoch latest reading =>
      (d <| _epoch := v |> <| at_ := AttachLoadsPublished latest reading |>, [])
  | AttachLoadsPublished latest reading => attach_published d latest reading v
  | RestartedLoadsEpoch =>
      (d <| at_ := ReaderIdle |>, [RestartedReturned (negb (v =? _epoch d))])
  | ReadLoadsPublished => read_published d v
  | ReadLoadsBefore => read_before d v
  | ReadLoadsAfter before copied => read_after d before copied v
  | ReaderIdle | ReadCopies _ _ => (d, [])
  end.

Definition reader_step (memory : list (list Z)) (stores : list Store) (d : SequenceReader) (s : Step) :
    option (SequenceReader * list Output) :=
  match s, at_ d with
  | Attach latest, ReaderIdle => Some (d <| at_ := AttachLoadsEpoch latest false |>, [])
  | AskRestarted, ReaderIdle =>
      if _initialized d then Some (d <| at_ := RestartedLoadsEpoch |>, [])
      else Some (d, [RestartedReturned false])
  | TryRead, ReaderIdle =>
      Some (d <| at_ := if _initialized d then ReadLoadsPublished else AttachLoadsEpoch true true |>, [])
  | Load choice, _ =>
      l ← loads d;
      '(v, known') ← load stores (known d) l choice;
      Some (after_load (d <| known := known' |>) v)
  | CopyOut, ReadCopies before copied =>
      if (length copied <? Z.to_nat item_bytes)%nat
      then
        let byte := (memory.[slot (_next d)]) !!! length copied in
        let copied := copied ++ [byte] in
        Some (d <| at_ :=
          if (length copied <? Z.to_nat item_bytes)%nat then ReadCopies before copied
          else ReadLoadsAfter before copied |>, [])
      else Some (d <| at_ := ReadLoadsAfter before copied |>, [])
  | _, _ => None
  end.

(** [None] when the side is elsewhere or the load is not possible. *)
Definition step (r : t) (s : Step) : option (t * list Output) :=
  match s with
  | StoreEpoch _ | Publish _ _ | CopyIn | StoreSequence | StorePublished =>
      r ← writer_step r s; Some (r, [])
  | _ =>
      '(d, out) ← reader_step (items r) (stores r) (reader r) s;
      Some (r <| reader := d |>, out)
  end.

(** A schedule, and what the reader's calls returned meanwhile. *)
Fixpoint run (r : t) (schedule : list Step) : option (t * list Output) :=
  match schedule with
  | [] => Some (r, [])
  | s :: schedule' =>
      '(r, out) ← step r s;
      '(r, outs) ← run r schedule';
      Some (r, out ++ outs)
  end.

End ring.
End ShmRingProtocol.
