(* ===== verification/ShmFacts.v ===== *)
(** * The timeline and the slots of the shared-memory ring

    What holds whatever the schedule, as long as the publisher numbers its items
    consecutively: the timeline stores every number once and in order, each
    [published] behind its slot; a slot holds the item of its number until a
    publication reuses it.  [its] are the items whose publication began, the
    item numbered [k] at position [k]. *)

From S2P Require Import Prelude ShmRing.
Import ShmRingProtocol.

(** ** Slots *)

Lemma slot_mod v : slot v = v mod kCapacity.
Proof. unfold slot, kCapacity. change (8 * 1024) with (2 ^ 13). by apply land_mask. Qed.

Lemma slot_range v : 0 <= slot v < kCapacity.
Proof. rewrite slot_mod. by apply Z.mod_pos_bound. Qed.

Lemma slot_apart v w : v < w < v + kCapacity -> slot v <> slot w.
Proof. rewrite !slot_mod. unfold kCapacity. dlia. Qed.

(** Numbers that share a slot are a whole round apart. *)
Lemma slot_again v w : slot v = slot w -> v < w -> v + kCapacity <= w.
Proof. rewrite !slot_mod. unfold kCapacity. dlia. Qed.

Lemma oldest_spec v : 0 <= v -> oldest v = Z.max 0 (v - (kCapacity - 1)).
Proof. intros. unfold oldest, kCapacity. destruct (Z.leb_spec (8 * 1024 - 1) v); lia. Qed.

Lemma oldest_range v : 0 <= v -> 0 <= oldest v <= v.
Proof. intros. rewrite oldest_spec by done. unfold kCapacity. lia. Qed.

(** ** The timeline *)

(** [a] slot numbers and [p] values of [published] have been stored. *)
Record timeline (st : list Store) (a p : Z) : Prop := {
  tl_range : forall i l v, st !! i = Some (Sequence l, v) -> l = slot v /\ 0 <= v < a;
  tl_order : forall i j l l' v v', (i < j)%nat ->
    st !! i = Some (Sequence l, v) -> st !! j = Some (Sequence l', v') -> v < v';
  tl_all : forall v, 0 <= v < a -> exists i, st !! i = Some (Sequence (slot v), v);
  tl_below : forall j l v w, st !! j = Some (Sequence l, v) -> 0 <= w <= v ->
    exists i, (i <= j)%nat /\ st !! i = Some (Sequence (slot w), w);
  tl_published : forall j v, st !! j = Some (Published, v) ->
    0 <= v < p /\ exists i, (i < j)%nat /\ st !! i = Some (Sequence (slot v), v);
  tl_published_order : forall i j v v', (i < j)%nat ->
    st !! i = Some (Published, v) -> st !! j = Some (Published, v') -> v < v';
  tl_published_all : forall v, 0 <= v < p -> exists i, st !! i = Some (Published, v)
}.

Lemma timeline_nil : timeline [] 0 0.
Proof. constructor; try done; intros; lia. Qed.

Lemma lookup_snoc_older {A} (l : list A) x i y : l !! i = Some y -> (l ++ [x]) !! i = Some y.
Proof. intros Hi. rewrite lookup_app_l; [done|]. by apply lookup_lt_Some in Hi. Qed.

Lemma lookup_snoc_end {A} (l : list A) x : (l ++ [x]) !! length l = Some x.
Proof. rewrite lookup_app_r by done. by rewrite Nat.sub_diag. Qed.

Ltac snoc_cases H := apply lookup_snoc_Some in H as [[? H]|[? ?]]; simplify_eq.

Lemma timeline_epoch st a p e : timeline st a p -> timeline (st ++ [(Epoch, e)]) a p.
Proof.
  intros []. constructor.
  - intros i l v Hi. snoc_cases Hi. by eapply tl_range0.
  - intros i j l l' v v' Hij Hi Hj. snoc_cases Hi; snoc_cases Hj. by eapply (tl_order0 i j).
  - intros v Hv. destruct (tl_all0 v Hv) as [i Hi]. exists i. by apply lookup_snoc_older.
  - intros j l v w Hj Hw. snoc_cases Hj. destruct (tl_below0 j l v w Hj Hw) as (i & ? & ?).
    exists i. split; [done|]. by apply lookup_snoc_older.
  - intros j v Hj. snoc_cases Hj. destruct (tl_published0 j v Hj) as (? & i & ? & ?). split; [done|].
    exists i. split; [done|]. by apply lookup_snoc_older.
  - intros i j v v' Hij Hi Hj. snoc_cases Hi; snoc_cases Hj. by eapply (tl_published_order0 i j).
  - intros v Hv. destruct (tl_published_all0 v Hv) as [i Hi]. exists i. by apply lookup_snoc_older.
Qed.

Lemma timeline_sequence st a p :
  0 <= a -> timeline st a p -> timeline (st ++ [(Sequence (slot a), a)]) (a + 1) p.
Proof.
  intros Ha []. constructor.
  - intros i l v Hi. snoc_cases Hi; [|split; [done|lia]]. apply tl_range0 in Hi as [-> ?]. split; [done|lia].
  - intros i j l l' v v' Hij Hi Hj. snoc_cases Hi; snoc_cases Hj.
    + by eapply (tl_order0 i j).
    + apply tl_range0 in Hi as [_ ?]. lia.
    + lia.
    + lia.
  - intros v Hv. destruct (decide (v = a)) as [->|]; [exists (length st); apply lookup_snoc_end|].
    destruct (tl_all0 v ltac:(lia)) as [i Hi]. exists i. by apply lookup_snoc_older.
  - intros j l v w Hj Hw. snoc_cases Hj.
    + destruct (tl_below0 j l v w Hj Hw) as (i & ? & ?). exists i. split; [done|]. by apply lookup_snoc_older.
    + destruct (decide (w = v)) as [->|].
      { exists (length st). split; [done|]. apply lookup_snoc_end. }
      destruct (tl_all0 w ltac:(lia)) as [i Hi]. exists i. split; [|by apply lookup_snoc_older].
      apply lookup_lt_Some in Hi. lia.
  - intros j v Hj. snoc_cases Hj. destruct (tl_published0 j v Hj) as (? & i & ? & ?). split; [done|].
    exists i. split; [done|]. by apply lookup_snoc_older.
  - intros i j v v' Hij Hi Hj. snoc_cases Hi; snoc_cases Hj. by eapply (tl_published_order0 i j).
  - intros v Hv. destruct (tl_published_all0 v Hv) as [i Hi]. exists i. by apply lookup_snoc_older.
Qed.

Lemma timeline_publish st a p :
  0 <= p < a -> timeline st a p -> timeline (st ++ [(Published, p)]) a (p + 1).
Proof.
  intros Ha []. constructor.
  - intros i l v Hi. snoc_cases Hi. by eapply tl_range0.
  - intros i j l l' v v' Hij Hi Hj. snoc_cases Hi; snoc_cases Hj. by eapply (tl_order0 i j).
  - intros v Hv. destruct (tl_all0 v Hv) as [i Hi]. exists i. by apply lookup_snoc_older.
  - intros j l v w Hj Hw. snoc_cases Hj. destruct (tl_below0 j l v w Hj Hw) as (i & ? & ?).
    exists i. split; [done|]. by apply lookup_snoc_older.
  - intros j v Hj. snoc_cases Hj.
    + destruct (tl_published0 j v Hj) as (? & i & ? & ?). split; [lia|].
      exists i. split; [done|]. by apply lookup_snoc_older.
    + split; [lia|]. destruct (tl_all0 v ltac:(lia)) as [i Hi]. exists i.
      split; [by apply lookup_lt_Some in Hi|by apply lookup_snoc_older].
  - intros i j v v' Hij Hi Hj. snoc_cases Hi; snoc_cases Hj.
    + by eapply (tl_published_order0 i j).
    + apply tl_published0 in Hi as [? _]. lia.
    + lia.
    + lia.
  - intros v Hv. destruct (decide (v = p)) as [->|]; [exists (length st); apply lookup_snoc_end|].
    destruct (tl_published_all0 v ltac:(lia)) as [i Hi]. exists i. by apply lookup_snoc_older.
Qed.

(** ** Loads *)

Lemma overwritten_spec st from kn l :
  overwritten st from kn l = true <->
    exists i v, (from <= i < kn)%nat /\ st !! i = Some (l, v).
Proof.
  unfold overwritten. rewrite bool_decide_eq_true, Exists_exists. split.
  - intros ([l' v] & (i & Hi)%list_elem_of_lookup & <-). apply lookup_take_Some in Hi as [Hi ?].
    rewrite lookup_drop in Hi. exists (from + i)%nat, v. split; [lia|done].
  - intros (i & v & Hr & Hi). exists (l, v). split; [|done]. apply list_elem_of_lookup.
    exists (i - from)%nat. apply lookup_take_Some. rewrite lookup_drop. split; [|lia].
    by replace (from + (i - from))%nat with i by lia.
Qed.

Lemma overwritten_false st from kn l i v :
  overwritten st from kn l = false -> st !! i = Some (l, v) -> (i < kn)%nat -> (i < from)%nat.
Proof.
  intros Ho Hi Hk. destruct (decide (i < from)%nat) as [|Hn]; [done|].
  assert (overwritten st from kn l = true) as E; [|by rewrite E in Ho].
  apply overwritten_spec. exists i, v. split; [lia|done].
Qed.

Lemma load_some st kn l i v kn' :
  load st kn l (Some i) = Some (v, kn') ->
  st !! i = Some (l, v) /\ kn' = max kn (S i) /\ overwritten st (S i) kn l = false.
Proof.
  unfold load. destruct (st !! i) as [[l' w]|]; [|done]. cbn.
  destruct (bool_decide (l' = l)) eqn:E; [|done]. apply bool_decide_eq_true in E. cbn.
  destruct (overwritten st (S i) kn l); [done|]. intros [= <- <-]. by subst.
Qed.

(** A reader that knows of the store of [n] loads [n] or a later number. *)
Lemma load_sequence st a p kn n i choice v kn' :
  timeline st a p -> (i < kn)%nat -> st !! i = Some (Sequence (slot n), n) ->
  load st kn (Sequence (slot n)) choice = Some (v, kn') ->
  (kn <= kn')%nat /\ slot v = slot n /\ n <= v < a.
Proof.
  intros Htl Hi Hn. destruct choice as [j|]; cbn [load].
  - intros (Hj & -> & Ho)%load_some. split; [lia|].
    destruct (tl_range _ _ _ Htl _ _ _ Hj) as [E ?]. split; [done|].
    pose proof (overwritten_false _ _ _ _ _ _ Ho Hn Hi) as Hij.
    destruct (decide (i = j)) as [->|]; [simplify_eq; lia|].
    pose proof (tl_order _ _ _ Htl i j _ _ _ _ ltac:(lia) Hn Hj). lia.
  - destruct (overwritten st 0 kn _) eqn:Ho; [done|].
    pose proof (overwritten_false _ _ _ _ _ _ Ho Hn Hi). lia.
Qed.

(** A loaded [published] comes with the knowledge of every slot number up to it. *)
Lemma load_published st a p kn choice v kn' :
  timeline st a p -> load st kn Published choice = Some (v, kn') ->
  (kn <= kn')%nat /\
  (v = kNoSequence \/ 0 <= v < p /\
   forall n, 0 <= n <= v -> exists i, (i < kn')%nat /\ st !! i = Some (Sequence (slot n), n)).
Proof.
  intros Htl. destruct choice as [j|]; cbn [load].
  - intros (Hj & -> & Ho)%load_some. split; [lia|]. right.
    destruct (tl_published _ _ _ Htl _ _ Hj) as (Hv & i & Hij & Hi). split; [done|].
    intros n Hn. destruct (tl_below _ _ _ Htl i _ v n Hi Hn) as (k & ? & ?).
    exists k. split; [lia|done].
  - destruct (overwritten st 0 kn Published); [done|]. intros [= <- <-]. split; [done|by left].
Qed.

Lemma load_knows st kn l choice v kn' : load st kn l choice = Some (v, kn') -> (kn <= kn')%nat.
Proof.
  destruct choice as [i|]; [intros (_ & -> & _)%load_some; lia|]. cbn [load].
  destruct (overwritten st 0 kn l); [done|]. by intros [= _ <-].
Qed.

(** ** The publisher *)

Lemma alen_snoc (its : list (list Z)) item : alen (its ++ [item]) = alen its + 1.
Proof. unfold alen. rewrite length_app. cbn [length]. lia. Qed.

Lemma aget_snoc_older (its : list (list Z)) item v : 0 <= v < alen its -> (its ++ [item]).[v] = its.[v].
Proof. unfold alen, aget. intros. by rewrite lookup_total_app_l by lia. Qed.

Lemma aget_snoc_end (its : list (list Z)) item : (its ++ [item]).[alen its] = item.
Proof. unfold alen, aget. rewrite Nat2Z.id. by rewrite lookup_total_app_r, Nat.sub_diag by lia. Qed.

Section publisher.
Context (item_bytes : Z).
Let size : nat := Z.to_nat item_bytes.

(** How many slot numbers and how many values of [published] are stored. *)
Definition stored (w : Writer) (its : list (list Z)) : Z :=
  match w with WriterCopies _ _ _ => alen its - 1 | _ => alen its end.
Definition announced (w : Writer) (its : list (list Z)) : Z :=
  match w with WriterIdle => alen its | _ => alen its - 1 end.

(** What the publisher is about to store is the last item. *)
Definition writer_at (memory : list (list Z)) (w : Writer) (its : list (list Z)) : Prop :=
  match w with
  | WriterIdle => True
  | WriterCopies s item copied =>
      s = alen its - 1 /\ 0 <= s /\ item = its.[s] /\ (copied <= size)%nat /\
      take copied memory.[slot s] = take copied item
  | WriterStoresPublished s => s = alen its - 1 /\ 0 <= s
  end.

Record writer_ok (memory : list (list Z)) (st : list Store) (w : Writer) (its : list (list Z)) : Prop := {
  w_memory : alen memory = kCapacity /\ forall i, 0 <= i < kCapacity -> length memory.[i] = size;
  w_items : Forall (fun item => length item = size) its;
  w_at : writer_at memory w its;
  w_slots : forall v, 0 <= v < stored w its -> alen its <= v + kCapacity -> memory.[slot v] = its.[v];
  w_timeline : timeline st (stored w its) (announced w its)
}.

Lemma writer_ok_fresh :
  writer_ok (replicate (Z.to_nat kCapacity) (replicate size 0)) [] WriterIdle [].
Proof.
  constructor; [|done|done|intros v Hv; change (0 <= v < 0) in Hv; lia|apply timeline_nil]. split; [by rewrite alen_replicate|].
  intros i Hi. rewrite aget_replicate by (unfold kCapacity in *; lia). apply length_replicate.
Qed.

(** The items whose publication a step begins. *)
Definition begun (s : Step) : list (list Z) := match s with Publish _ item => [item] | _ => [] end.

(** A publication is numbered after the ones before it, and whole. *)
Definition numbered (its : list (list Z)) (s : Step) : Prop :=
  match s with Publish sequence item => sequence = alen its /\ length item = size | _ => True end.

Lemma writer_ok_epoch memory st its e :
  writer_ok memory st WriterIdle its -> writer_ok memory (st ++ [(Epoch, e)]) WriterIdle its.
Proof. intros []. constructor; auto. by apply timeline_epoch. Qed.

Lemma writer_ok_begin memory st its item :
  length item = size -> writer_ok memory st WriterIdle its ->
  writer_ok memory st (WriterCopies (alen its) item 0) (its ++ [item]).
Proof.
  intros Hl []. constructor; cbn [stored announced writer_at] in *; rewrite ?alen_snoc.
  - done.
  - apply Forall_app. by split; [|repeat constructor].
  - split_and!; [lia|unfold alen; lia|by rewrite aget_snoc_end|lia|done].
  - intros v Hv Hc. rewrite aget_snoc_older by lia. apply w_slots0; lia.
  - by replace (alen its + 1 - 1) with (alen its) by lia.
Qed.

Lemma take_S_insert (l item : list Z) c :
  (c < length l)%nat -> length item = length l -> take c l = take c item ->
  take (S c) (<[c := item !!! c]> l) = take (S c) item.
Proof.
  intros Hc Hl Ht.
  rewrite (take_S_r _ c (item !!! c)) by (by apply list_lookup_insert_eq).
  rewrite (take_S_r item c (item !!! c)) by (apply list_lookup_lookup_total_lt; lia).
  by rewrite take_insert_ge by lia; rewrite Ht.
Qed.

Lemma writer_ok_copy memory st its s item c :
  (c < size)%nat -> writer_ok memory st (WriterCopies s item c) its ->
  writer_ok (memory.[slot s <- <[c := item !!! c]> memory.[slot s]]) st (WriterCopies s item (S c)) its.
Proof.
  intros Hc []. cbn [stored announced writer_at] in *.
  destruct w_memory0 as [Hm Hsz]. destruct w_at0 as (Hs & Hs0 & Hitem & _ & Ht).
  pose proof (slot_range s) as Hr.
  assert (length item = size) as Hl.
  { rewrite Hitem. rewrite Forall_forall in w_items0. apply w_items0, aget_elem. lia. }
  constructor; cbn [stored announced writer_at]; auto.
  - rewrite alen_aset. split; [done|]. intros i Hi. rewrite aget_aset by lia.
    case_decide; [rewrite length_insert; auto|auto].
  - split_and!; auto. rewrite aget_aset_eq by lia.
    apply take_S_insert; rewrite ?Hsz by done; auto.
  - intros v Hv Hk. rewrite aget_aset_ne by (try apply slot_range; try lia; apply not_eq_sym, slot_apart; lia).
    by apply w_slots0.
Qed.

Lemma writer_ok_store memory st its s item c :
  ~ (c < size)%nat -> writer_ok memory st (WriterCopies s item c) its ->
  writer_ok memory (st ++ [(Sequence (slot s), s)]) (WriterStoresPublished s) its.
Proof.
  intros Hc []. cbn [stored announced writer_at] in *.
  destruct w_memory0 as [Hm Hsz]. destruct w_at0 as (Hs & Hs0 & Hitem & Hcs & Ht).
  pose proof (slot_range s) as Hr.
  assert (length item = size) as Hl.
  { rewrite Hitem. rewrite Forall_forall in w_items0. apply w_items0, aget_elem. lia. }
  constructor; cbn [stored announced writer_at]; auto.
  - intros v Hv Hk. destruct (decide (v = s)) as [->|]; [|apply w_slots0; lia].
    rewrite <- Hitem. rewrite !take_ge in Ht by (rewrite ?Hsz by done; lia). done.
  - pose proof (timeline_sequence st (alen its - 1) (alen its - 1) ltac:(lia) w_timeline0) as Htl.
    rewrite <- Hs in Htl at 1 2. by replace (alen its - 1 + 1) with (alen its) in Htl by lia.
Qed.

Lemma writer_ok_publish memory st its s :
  writer_ok memory st (WriterStoresPublished s) its ->
  writer_ok memory (st ++ [(Published, s)]) WriterIdle its.
Proof.
  intros []. cbn [stored announced writer_at] in *. destruct w_at0 as [Hs Hs0].
  constructor; cbn [stored announced writer_at]; auto.
  pose proof (timeline_publish st (alen its) (alen its - 1) ltac:(lia) w_timeline0) as Htl.
  rewrite <- Hs in Htl at 1. by replace (alen its - 1 + 1) with (alen its) in Htl by lia.
Qed.

Lemma writer_step_ok r r' s its :
  writer_ok (items r) (stores r) (writer r) its -> numbered its s ->
  writer_step item_bytes r s = Some r' ->
  writer_ok (items r') (stores r') (writer r') (its ++ begun s) /\ reader r' = reader r.
Proof.
  intros Hok Hn Hs.
  destruct s as [e|q item| | | |latest| | |choice|], (writer r) as [|q' item' c|q'] eqn:Ew;
    cbn [writer_step] in Hs; try rewrite Ew in Hs; try done; cbn [begun] in *; rewrite ?app_nil_r.
  - simplify_eq. split; [|done]. cbn. rewrite Ew. by apply writer_ok_epoch.
  - simplify_eq. split; [|done]. cbn in Hn. destruct Hn as [-> Hl]. by apply writer_ok_begin.
  - destruct (Nat.ltb_spec c (Z.to_nat item_bytes)); [|done]. simplify_eq. split; [|done].
    by apply writer_ok_copy.
  - destruct (Nat.ltb_spec c (Z.to_nat item_bytes)); [done|]. simplify_eq. split; [|done].
    apply (writer_ok_store _ _ _ _ item' c); [lia|done].
  - simplify_eq. split; [|done]. by apply writer_ok_publish.
Qed.
End publisher.
