(* ===== verification/ShmReader.v ===== *)
(** * The reader of the shared-memory ring, step by step

    [reader_ok]: what a reader that has attached knows of the timeline.  Every
    step keeps it and accounts for the numbers it moves past, as delivered or
    as dropped; a reader the publisher does not overtake copies whole items.

    Then the invariants along any schedule of a fresh queue, and the calls run
    without interruption: a publication always ends, a [try_read] that loads the
    newest stores has one way to go and ends as its checks say. *)

From S2P Require Import Prelude ShmRing ShmFacts.
Import ShmRingProtocol.

(** The successful reads among the outputs. *)
Definition reads (out : list Output) : list (Z * list Z) :=
  omap (fun o => match o with Read k item => Some (k, item) | _ => None end) out.

Lemma reads_app o1 o2 : reads (o1 ++ o2) = reads o1 ++ reads o2.
Proof. apply omap_app. Qed.

(** Numbers from [lo] on, increasing, below [hi]. *)
Fixpoint ascending (lo : Z) (ks : list Z) (hi : Z) : Prop :=
  match ks with [] => lo <= hi | k :: ks' => lo <= k /\ ascending (k + 1) ks' hi end.

Lemma ascending_app lo mid hi ks1 ks2 :
  ascending lo ks1 mid -> ascending mid ks2 hi -> ascending lo (ks1 ++ ks2) hi.
Proof.
  revert lo. induction ks1 as [|k ks1 IH]; intros lo; cbn.
  - intros Hlo. destruct ks2 as [|k ks2]; cbn; [lia|]. intros [? ?]. split; [lia|done].
  - intros [? ?] ?. split; [done|]. by apply IH.
Qed.

(** The items from [lo] on, below [hi], with their numbers. *)
Definition numbered_items (its : list (list Z)) (lo hi : Z) : list (Z * list Z) :=
  map (fun k => (k, its.[k])) (seqZ lo (hi - lo)).

Lemma numbered_items_nil its n n' : n' = n -> numbered_items its n n' = [].
Proof. intros ->. unfold numbered_items. by rewrite Z.sub_diag. Qed.

Lemma numbered_items_one its n : numbered_items its n (n + 1) = [(n, its.[n])].
Proof.
  unfold numbered_items. replace (n + 1 - n) with 1 by lia. by rewrite seqZ_cons by lia.
Qed.

Lemma numbered_items_app its lo mid hi :
  lo <= mid <= hi -> numbered_items its lo hi = numbered_items its lo mid ++ numbered_items its mid hi.
Proof.
  intros. unfold numbered_items. replace (hi - lo) with ((mid - lo) + (hi - mid)) by lia.
  rewrite seqZ_app, map_app by lia. by replace (lo + (mid - lo)) with mid by lia.
Qed.

Lemma take_snoc_total (item c : list Z) :
  (length c < length item)%nat -> c = take (length c) item ->
  c ++ [item !!! length c] = take (length (c ++ [item !!! length c])) item.
Proof.
  intros Hl Hc. rewrite length_app. cbn [length]. replace (length c + 1)%nat with (S (length c)) by lia.
  rewrite (take_S_r item (length c) (item !!! length c)) by (apply list_lookup_lookup_total_lt; lia).
  by rewrite <- Hc.
Qed.

(** The reader knows that the number it wants is stored. *)
Definition knows (st : list Store) (d : SequenceReader) : Prop :=
  exists i, (i < known d)%nat /\ st !! i = Some (Sequence (slot (_next d)), _next d).

Record reader_ok (st : list Store) (d : SequenceReader) (a : Z) : Prop := {
  r_next : 0 <= _next d <= a;
  r_dropped : 0 <= _dropped d <= _next d;
  r_initialized : _initialized d = true;
  r_at : match at_ d with
    | ReaderIdle | RestartedLoadsEpoch | ReadLoadsPublished => True
    | AttachLoadsEpoch _ _ | AttachLoadsPublished _ _ => False
    | ReadLoadsBefore => knows st d
    | ReadCopies before _ | ReadLoadsAfter before _ => before = _next d /\ knows st d
    end
}.

(** What a step of the reader passes: numbers delivered or dropped. *)
Definition accounted (d d' : SequenceReader) (out : list Output) : Prop :=
  Z.of_nat (length (reads out)) + (_dropped d' - _dropped d) = _next d' - _next d /\
  ascending (_next d) (map fst (reads out)) (_next d').

Lemma accounted_same d d' out :
  _next d' = _next d -> _dropped d' = _dropped d -> reads out = [] -> accounted d d' out.
Proof. intros Hn Hd Ho. unfold accounted. rewrite Hn, Hd, Ho. cbn. lia. Qed.

Definition is_attach (s : Step) : bool := match s with Attach _ => true | _ => false end.

Lemma knows_more st d kn :
  (known d <= kn)%nat -> knows st d -> knows st (d <| known := kn |>).
Proof. intros Hk (i & Hi & Hs). exists i. split; [unfold set_field; cbn; lia|done]. Qed.

Lemma reader_ok_more st st' d a a' :
  reader_ok st d a -> a <= a' -> st `prefix_of` st' -> reader_ok st' d a'.
Proof.
  intros [Hn Hd Hini Hat] Ha [st2 ->].
  assert (knows st d -> knows (st ++ st2) d) as Hk.
  { intros (i & Hi & Hs). exists i. split; [done|]. by apply lookup_app_l_Some. }
  constructor; [lia|done|done|]. destruct (at_ d); try done; try (by apply Hk). all: destruct Hat; auto.
Qed.

Section reader.
Context (item_bytes : Z).
Let size : nat := Z.to_nat item_bytes.

Lemma reader_load memory st d choice d' out :
  reader_step item_bytes memory st d (Load choice) = Some (d', out) ->
  exists l v kn, loads d = Some l /\ load st (known d) l choice = Some (v, kn) /\
    after_load (d <| known := kn |>) v = (d', out).
Proof.
  assert (reader_step item_bytes memory st d (Load choice) =
    (l ← loads d; '(v, kn) ← load st (known d) l choice; Some (after_load (d <| known := kn |>) v))) as ->
    by (cbn; by destruct (at_ d)).
  destruct (loads d) as [l|]; [|discriminate]. cbn.
  destruct (load st (known d) l choice) as [[v kn]|] eqn:El; [|discriminate]. cbn. intros [= Hs].
  by exists l, v, kn.
Qed.

Section step.
Context (st : list Store) (a p : Z).
Hypothesis Htl : timeline st a p.
Hypothesis Hpa : p <= a < 2 ^ 64 - 1.

Lemma read_published_ok d v :
  reader_ok st d a -> at_ d = ReadLoadsPublished ->
  (v = kNoSequence \/ 0 <= v < p /\
    forall n, 0 <= n <= v -> exists i, (i < known d)%nat /\ st !! i = Some (Sequence (slot n), n)) ->
  reader_ok st (read_published d v).1 a /\ accounted d (read_published d v).1 (read_published d v).2.
Proof.
  intros [Hn Hd Hini Hat] Hp Hv. unfold read_published.
  destruct (Z.eqb_spec v kNoSequence) as [E|E]; cbn [orb].
  { split; [by constructor; updates; cbn|by apply accounted_same]. }
  destruct Hv as [Hv|[Hv Hall]]; [done|].
  destruct (Z.ltb_spec v (_next d)).
  { split; [by constructor; updates; cbn|by apply accounted_same]. }
  assert (0 <= oldest v <= v) as Ho.
  { apply oldest_range. lia. }
  destruct (Z.ltb_spec (_next d) (oldest v)).
  - updates. rewrite (wrap_small 64 (oldest v - _next d)) by lia. rewrite wrap_small by lia.
    split; [|unfold accounted; cbn; lia]. constructor; cbn; [lia|lia|done|].
    apply (Hall (oldest v)). lia.
  - split; [|by apply accounted_same]. constructor; updates; cbn; [lia|lia|done|]. apply (Hall (_next d)). lia.
Qed.

Lemma read_before_ok d v :
  reader_ok st d a -> at_ d = ReadLoadsBefore -> _next d <= v < a ->
  reader_ok st (read_before d v).1 a /\ accounted d (read_before d v).1 (read_before d v).2.
Proof.
  intros [Hn Hd Hini Hat] Hp Hv. rewrite Hp in Hat. unfold read_before.
  destruct (Z.eqb_spec v (_next d)) as [->|Hne]; cbn [negb].
  { split; [|by apply accounted_same]. by constructor; updates; cbn. }
  destruct (Z.ltb_spec (_next d) v); [|lia]. destruct (Z.eqb_spec v kNoSequence); [unfold kNoSequence in *; lia|].
  cbn [andb negb]. updates. rewrite (wrap_small 64 (v - _next d)) by lia. rewrite wrap_small by lia.
  split; [|unfold accounted; cbn; lia]. constructor; cbn; [lia|lia|done|done].
Qed.

Lemma read_after_ok d before copied v :
  reader_ok st d a -> at_ d = ReadLoadsAfter before copied -> _next d <= v < a ->
  reader_ok st (read_after d before copied v).1 a /\
  accounted d (read_after d before copied v).1 (read_after d before copied v).2.
Proof.
  intros [Hn Hd Hini Hat] Hp Hv. rewrite Hp in Hat. destruct Hat as [-> _]. unfold read_after.
  destruct (Z.eqb_spec v (_next d)) as [->|Hne]; cbn [negb]; unfold incr.
  - updates. cbn. rewrite (wrap_small 64 (_next d + 1)) by lia. rewrite Z.add_simpl_r, wrap_small by lia.
    split; [|unfold accounted; cbn; lia]. constructor; cbn; [lia|lia|done|done].
  - destruct (Z.ltb_spec (_next d) v); [|lia].
    destruct (Z.eqb_spec v kNoSequence); [unfold kNoSequence in *; lia|].
    updates. rewrite (wrap_small 64 (v - _next d)) by lia. rewrite wrap_small by lia.
    split; [|unfold accounted; cbn; lia]. constructor; cbn; [lia|lia|done|done].
Qed.

Lemma reader_step_ok memory d s d' out :
  reader_ok st d a -> is_attach s = false -> reader_step item_bytes memory st d s = Some (d', out) ->
  reader_ok st d' a /\ accounted d d' out.
Proof.
  intros Hok Hatt Hs. pose proof Hok as [Hn Hd Hini Hat].
  destruct s as [| | | | |latest| | |choice|]; try done; cbn [reader_step] in Hs.
  - destruct (at_ d) eqn:E; try done. rewrite Hini in Hs. simplify_eq.
    split; [by constructor; updates; cbn|by apply accounted_same].
  - destruct (at_ d) eqn:E; try done. rewrite Hini in Hs. simplify_eq.
    split; [by constructor; updates; cbn|by apply accounted_same].
  - apply (reader_load memory) in Hs as (l & v & kn & Hl & El & Hs). pose proof (load_knows _ _ _ _ _ _ El) as Hk.
    unfold after_load in Hs. unfold loads in Hl. cbn in Hs.
    destruct (at_ d) as [|?|?| | | |before copied|before copied] eqn:E; try done; simplify_eq.
    + split; [by constructor; updates; cbn|by apply accounted_same].
    + destruct (load_published _ _ _ _ _ _ _ Htl El) as [_ Hv].
      destruct (read_published_ok (d <| known := kn |>) v) as [H1 H2];
        [by constructor; updates; cbn; rewrite ?E|by updates|done|].
      by rewrite Hs in H1, H2.
    + pose proof Hat as (i & Hi & Hst).
      destruct (load_sequence _ _ _ _ _ _ _ _ _ Htl Hi Hst El) as (_ & _ & Hv).
      destruct (read_before_ok (d <| known := kn |>) v) as [H1 H2];
        [constructor; updates; cbn; rewrite ?E; try done; by apply (knows_more st d kn)|by updates|done|].
      by rewrite Hs in H1, H2.
    + destruct Hat as [Hb Hkn]. pose proof Hkn as (i & Hi & Hst).
      destruct (load_sequence _ _ _ _ _ _ _ _ _ Htl Hi Hst El) as (_ & _ & Hv).
      destruct (read_after_ok (d <| known := kn |>) before copied v) as [H1 H2];
        [constructor; updates; cbn; rewrite ?E; try done; split; [done|by apply (knows_more st d kn)]|by updates|done|].
      by rewrite Hs in H1, H2.
  - destruct (at_ d) as [| | | | | |before copied|] eqn:E; try done.
    destruct (length copied <? Z.to_nat item_bytes)%nat; simplify_eq;
      (split; [|by apply accounted_same]); constructor; updates; cbn; try done.
    match goal with |- context [if ?c then _ else _] => by destruct c end.
Qed.
End step.


(** ** A reader the publisher does not overtake *)

(** Nothing dropped, and what is copied so far is the wanted item. *)
Definition steady (d : SequenceReader) (its : list (list Z)) : Prop :=
  _dropped d = 0 /\
  match at_ d with
  | ReadCopies _ copied => (length copied <= size)%nat /\ copied = take (length copied) its.[_next d]
  | ReadLoadsAfter _ copied => copied = its.[_next d]
  | _ => True
  end.

Section steady.
Context (memory : list (list Z)) (st : list Store) (w : Writer) (its : list (list Z)) (d : SequenceReader).
Hypothesis Hw : writer_ok item_bytes memory st w its.
Hypothesis Hd : reader_ok st d (stored w its).
Hypothesis Hs : steady d its.
Hypothesis Hbound : alen its < 2 ^ 64 - 1.
Hypothesis Hpace : alen its <= _next d + kCapacity.
Let a : Z := stored w its.

Let Ha : announced w its <= a <= alen its.
Proof. unfold a. destruct w; cbn; lia. Qed.

Let Htl : timeline st a (announced w its).
Proof. apply (w_timeline _ _ _ _ _ Hw). Qed.

Let known_below : knows st d -> 0 <= _next d < a.
Proof. intros (i & _ & Hi). by apply (tl_range _ _ _ Htl) in Hi as [_ ?]. Qed.

(** The wanted slot holds the wanted item. *)
Lemma wanted_slot : knows st d -> memory.[slot (_next d)] = its.[_next d] /\ length its.[_next d] = size.
Proof.
  intros Hk%known_below. split.
  - by apply (w_slots _ _ _ _ _ Hw).
  - pose proof (w_items _ _ _ _ _ Hw) as Hall. rewrite Forall_forall in Hall.
    apply Hall, aget_elem. lia.
Qed.

(** No later number can be in the wanted slot. *)
Let wanted_number v kn kn' choice :
  knows st d -> (known d <= kn)%nat ->
  load st kn (Sequence (slot (_next d))) choice = Some (v, kn') -> v = _next d.
Proof.
  intros (i & Hi & Hst) Hkn Hl.
  destruct (load_sequence st a _ kn (_next d) i choice v kn' Htl ltac:(lia) Hst Hl) as (_ & Hsl & Hv).
  destruct (decide (v = _next d)) as [|Hne]; [done|].
  pose proof (slot_again (_next d) v ltac:(done) ltac:(lia)). lia.
Qed.

Lemma steady_step s d' out :
  is_attach s = false -> reader_step item_bytes memory st d s = Some (d', out) ->
  steady d' its /\ reads out = numbered_items its (_next d) (_next d').
Proof.
  intros Hatt Hstep. destruct Hs as [Hdr Hcp]. pose proof Hd as [Hn _ Hini Hat].
  destruct s as [| | | | |latest| | |choice|]; try done.
  - cbn [reader_step] in Hstep. destruct (at_ d) eqn:E; try done. rewrite Hini in Hstep. simplify_eq.
    by rewrite numbered_items_nil.
  - cbn [reader_step] in Hstep. destruct (at_ d) eqn:E; try done. rewrite Hini in Hstep. simplify_eq.
    by rewrite numbered_items_nil.
  - apply reader_load in Hstep as (l & v & kn & Hl & El & Hv). unfold after_load in Hv.
    unfold loads in Hl. cbn in Hv.
    destruct (at_ d) as [|?|?| | | |before copied|before copied] eqn:E; try done; simplify_eq.
    + by rewrite numbered_items_nil.
    + unfold read_published in Hv. cbn in Hv.
      destruct (Z.eqb_spec v kNoSequence); cbn [orb] in Hv; [simplify_eq; by rewrite numbered_items_nil|].
      destruct (Z.ltb_spec v (_next d)); [simplify_eq; by rewrite numbered_items_nil|].
      destruct (load_published _ _ _ _ _ _ _ Htl El) as [_ [?|[Hp _]]]; [done|].
      rewrite oldest_spec in Hv by lia.
      destruct (Z.ltb_spec (_next d) (Z.max 0 (v - (kCapacity - 1)))); [lia|].
      simplify_eq. by rewrite numbered_items_nil.
    + pose proof (wanted_number v (known d) kn choice Hat ltac:(lia) El) as ->.
      unfold read_before in Hv. cbn in Hv. rewrite Z.eqb_refl in Hv. cbn in Hv. simplify_eq.
      rewrite numbered_items_nil by done. split; [|done]. split; [done|]. cbn. split; [lia|done].
    + destruct Hat as [-> Hk]. pose proof (wanted_number v (known d) kn choice Hk ltac:(lia) El) as ->.
      pose proof (known_below Hk).
      unfold read_after in Hv. cbn in Hv. rewrite Z.eqb_refl in Hv. cbn in Hv. unfold incr in Hv.
      rewrite (wrap_small 64 (_next d + 1)), Z.add_simpl_r, wrap_small in Hv by lia. simplify_eq.
      split; [by split|]. cbn. rewrite (wrap_small 64 (_next d + 1)), numbered_items_one by lia. done.
  - cbn [reader_step] in Hstep. destruct (at_ d) as [| | | | | |before copied|] eqn:E; try done.
    destruct Hat as [-> Hk]. destruct Hcp as [Hlen Hc]. destruct (wanted_slot Hk) as [Hm Hsz].
    fold size in Hstep. rewrite Hm in Hstep.
    destruct (Nat.ltb_spec (length copied) size) as [Hlt|Hge]; simplify_eq.
    + pose proof (take_snoc_total its.[_next d] copied ltac:(lia) Hc) as Hc'.
      split; [|by rewrite numbered_items_nil]. split; [done|]. updates. cbn [at_ _next].
      destruct (Nat.ltb_spec (length (copied ++ [its.[_next d] !!! length copied])) size) as [Hlt'|Hge'].
      * split; [lia|done].
      * rewrite Hc'. rewrite take_ge by lia. done.
    + split; [|by rewrite numbered_items_nil]. split; [done|]. cbn.
      rewrite Hc. rewrite take_ge by lia. done.
Qed.
End steady.
End reader.

(** * Whole schedules *)

Import ShmRingProtocol.

(** The items whose publication a schedule begins; each is numbered by its
    place among them. *)
Definition begun_all (schedule : list Step) : list (list Z) := schedule ≫= begun.

Fixpoint numbered_all (item_bytes : Z) (its : list (list Z)) (schedule : list Step) : Prop :=
  match schedule with
  | [] => True
  | s :: schedule' => numbered item_bytes its s /\ numbered_all item_bytes (its ++ begun s) schedule'
  end.

Definition no_attach (schedule : list Step) : Prop := Forall (fun s => is_attach s = false) schedule.

Section runs.
Context (item_bytes : Z).
Let size : nat := Z.to_nat item_bytes.
Abbreviation run := (run item_bytes).
Abbreviation step := (step item_bytes).

Lemma shm_run_app r s1 s2 r1 o1 :
  run r s1 = Some (r1, o1) -> run r (s1 ++ s2) = '(r2, o2) ← run r1 s2; Some (r2, o1 ++ o2).
Proof.
  revert r r1 o1. induction s1 as [|s s1 IH]; intros r r1 o1; cbn.
  - intros [= <- <-]. cbn. by destruct (run r s2) as [[]|].
  - destruct (step r s) as [[r' o]|]; [|done]. cbn.
    destruct (run r' s1) as [[r'' o']|] eqn:E; [|done]. cbn. intros [= <- <-].
    rewrite (IH _ _ _ E). destruct (run r'' s2) as [[? ?]|]; [|done]. cbn. by rewrite app_assoc.
Qed.

Lemma run_app_some r s1 s2 r1 o1 r2 o2 :
  run r s1 = Some (r1, o1) -> run r1 s2 = Some (r2, o2) -> run r (s1 ++ s2) = Some (r2, o1 ++ o2).
Proof. intros H1 H2. rewrite (shm_run_app _ _ _ _ _ H1). by rewrite H2. Qed.

Lemma run_app_inv r s1 s2 r2 o :
  run r (s1 ++ s2) = Some (r2, o) ->
  exists r1 o1 o2, run r s1 = Some (r1, o1) /\ run r1 s2 = Some (r2, o2) /\ o = o1 ++ o2.
Proof.
  revert r o. induction s1 as [|s s1 IH]; intros r o; cbn.
  - intros H. by exists r, [], o.
  - destruct (step r s) as [[r' o']|]; [|done]. cbn.
    destruct (run r' (s1 ++ s2)) as [[r'' o'']|] eqn:E; [|done]. cbn. intros [= <- <-].
    destruct (IH _ _ E) as (r1 & o1 & o2 & -> & H2 & ->). cbn.
    exists r1, (o' ++ o1), o2. by rewrite app_assoc.
Qed.

(** ** The invariant *)

Definition ring_ok (r : t) (its : list (list Z)) : Prop :=
  writer_ok item_bytes (items r) (stores r) (writer r) its /\
  reader_ok (stores r) (reader r) (stored (writer r) its).

Lemma writer_step_grows r s r' its :
  writer_step item_bytes r s = Some r' ->
  stores r `prefix_of` stores r' /\ stored (writer r) its <= stored (writer r') (its ++ begun s).
Proof.
  intros Hs. destruct s, (writer r) eqn:E; cbn [writer_step] in Hs; try rewrite E in Hs; try done;
    cbn [begun]; rewrite ?app_nil_r.
  - simplify_eq. cbn. rewrite E. split; [by eexists|cbn; lia].
  - simplify_eq. cbn. rewrite alen_snoc. split; [reflexivity|lia].
  - destruct (_ <? _)%nat; simplify_eq. cbn. split; [reflexivity|lia].
  - destruct (_ <? _)%nat; simplify_eq. cbn. split; [by eexists|lia].
  - simplify_eq. cbn. split; [by eexists|lia].
Qed.

Lemma step_cases r s r' out :
  step r s = Some (r', out) ->
  (writer_step item_bytes r s = Some r' /\ out = []) \/
  (exists d, reader_step item_bytes (items r) (stores r) (reader r) s = Some (d, out) /\
     r' = r <| reader := d |> /\ begun s = []).
Proof.
  unfold ShmRingProtocol.step. intros Hs.
  destruct s; try (left; destruct (writer_step item_bytes r _); cbn in Hs; by simplify_eq);
    right; destruct (reader_step _ _ _ _ _) as [[d o]|] eqn:E; cbn in Hs; simplify_eq; by exists d.
Qed.

Lemma stored_range w its : announced w its <= stored w its <= alen its.
Proof. destruct w; cbn; lia. Qed.

Lemma shm_step_ok r s r' out its :
  ring_ok r its -> numbered item_bytes its s -> is_attach s = false ->
  alen (its ++ begun s) < 2 ^ 64 - 1 -> step r s = Some (r', out) ->
  ring_ok r' (its ++ begun s) /\ accounted (reader r) (reader r') out.
Proof.
  intros [Hw Hd] Hn Ha Hb [[Hs ->]|(d & Hs & -> & Hbg)]%step_cases.
  - destruct (writer_step_ok item_bytes r r' s its Hw Hn Hs) as [Hw' Hr].
    destruct (writer_step_grows r s r' its Hs) as [Hpre Hst]. rewrite <- Hr in Hd |- *.
    split; [split; [done|]|by apply accounted_same].
    by eapply reader_ok_more.
  - rewrite Hbg, app_nil_r in *. pose proof (stored_range (writer r) its).
    destruct (reader_step_ok item_bytes (stores r) (stored (writer r) its) (announced (writer r) its)
      (w_timeline _ _ _ _ _ Hw) ltac:(lia) (items r) (reader r) s d out Hd Ha Hs) as [Hd' Hacc].
    by split.
Qed.

Lemma accounted_app d d' d'' o1 o2 :
  accounted d d' o1 -> accounted d' d'' o2 -> accounted d d'' (o1 ++ o2).
Proof.
  unfold accounted. rewrite reads_app, length_app, map_app. intros [? ?] [? ?].
  split; [lia|]. by apply (ascending_app _ (_next d')).
Qed.

Lemma shm_run_ok r schedule r' out its :
  ring_ok r its -> numbered_all item_bytes its schedule -> no_attach schedule ->
  alen (its ++ begun_all schedule) < 2 ^ 64 - 1 -> run r schedule = Some (r', out) ->
  ring_ok r' (its ++ begun_all schedule) /\ accounted (reader r) (reader r') out.
Proof.
  revert r its out. induction schedule as [|s schedule IH]; intros r its out Hok Hn Ha Hb Hr.
  - cbn in Hr. simplify_eq. unfold begun_all. cbn. rewrite app_nil_r. split; [done|by apply accounted_same].
  - cbn in Hr. destruct (step r s) as [[r1 o1]|] eqn:E; [|done]. cbn in Hr.
    destruct (run r1 schedule) as [[r2 o2]|] eqn:E2; [|done]. cbn in Hr. simplify_eq.
    cbn in Hn. destruct Hn as [Hn Hns]. apply Forall_cons in Ha as [Ha Has].
    unfold begun_all in *. cbn [mbind list_bind] in *. rewrite app_assoc in *.
    destruct (shm_step_ok r s r1 o1 its) as [Hok1 Hacc]; try done.
    { unfold alen in *. rewrite (length_app (its ++ begun s)) in Hb. lia. }
    destruct (IH r1 _ o2 Hok1 Hns Has Hb E2) as [Hok2 Hacc2].
    split; [done|]. by apply (accounted_app _ (reader r1)).
Qed.

(** ** A fresh queue with a reader attached *)

Definition opening (epoch : Z) : list Step :=
  [StoreEpoch epoch; Attach false; Load (Some 0%nat); Load None].

Definition opened (epoch : Z) : t :=
  (make item_bytes) <| stores := [(Epoch, epoch)] |> <| reader := mkReader 0 epoch 0 true ReaderIdle 1 |>.

Lemma run_opening epoch : run (make item_bytes) (opening epoch) = Some (opened epoch, [Attached]).
Proof. reflexivity. Qed.

Lemma ring_opened_ok epoch : ring_ok (opened epoch) [].
Proof.
  split.
  - apply (writer_ok_epoch item_bytes _ []). apply writer_ok_fresh.
  - constructor; cbn; try done; unfold alen; cbn; lia.
Qed.

Lemma run_opened epoch schedule r out :
  run (make item_bytes) (opening epoch ++ schedule) = Some (r, out) ->
  exists out', run (opened epoch) schedule = Some (r, out') /\ out = Attached :: out'.
Proof.
  rewrite (shm_run_app _ _ _ _ _ (run_opening epoch)).
  destruct (run (opened epoch) schedule) as [[r' o]|]; [|done]. cbn. intros [= <- <-]. by exists o.
Qed.

(** ** A publisher that waits for the reader *)

(** No publication begins while the reader still wants the number whose slot
    it reuses. *)
Fixpoint paced (r : t) (schedule : list Step) : Prop :=
  match schedule with
  | [] => True
  | s :: schedule' =>
      match s with Publish q _ => q < _next (reader r) + kCapacity | _ => True end /\
      match step r s with Some (r', _) => paced r' schedule' | None => True end
  end.

Definition paced_ok (r : t) (its : list (list Z)) : Prop :=
  ring_ok r its /\ steady item_bytes (reader r) its /\ alen its <= _next (reader r) + kCapacity.


(** What the reader holds stays right when later items begin. *)
Lemma steady_more d st its more w :
  reader_ok st d (stored w its) -> timeline st (stored w its) (announced w its) ->
  steady item_bytes d its -> steady item_bytes d (its ++ more).
Proof.
  intros [Hn _ _ Hat] Htl [Hd Hc]. split; [done|]. pose proof (stored_range w its).
  assert (knows st d -> (its ++ more).[_next d] = its.[_next d]) as Hk.
  { intros (i & _ & Hi). apply (tl_range _ _ _ Htl) in Hi as [_ ?].
    unfold aget, alen in *. by rewrite lookup_total_app_l by lia. }
  destruct (at_ d); try done; destruct Hat as [_ Hat]; by rewrite (Hk Hat).
Qed.

Lemma numbered_items_more its more lo hi :
  0 <= lo -> hi <= alen its -> numbered_items (its ++ more) lo hi = numbered_items its lo hi.
Proof.
  intros Hlo Hhi. unfold numbered_items. apply map_ext_in. intros k Hk%list_elem_of_In%elem_of_seqZ.
  f_equal. unfold aget, alen in *. by rewrite lookup_total_app_l by lia.
Qed.

Lemma paced_step r s r' out its :
  paced_ok r its -> numbered item_bytes its s -> is_attach s = false ->
  alen (its ++ begun s) < 2 ^ 64 - 1 ->
  match s with Publish q _ => q < _next (reader r) + kCapacity | _ => True end ->
  step r s = Some (r', out) ->
  paced_ok r' (its ++ begun s) /\
  reads out = numbered_items (its ++ begun s) (_next (reader r)) (_next (reader r')) /\
  _next (reader r) <= _next (reader r').
Proof.
  intros (Hok & Hs & Hp) Hn Ha Hb Hpace Hst.
  destruct (shm_step_ok r s r' out its Hok Hn Ha Hb Hst) as [Hok' [Hacc Hasc]].
  pose proof Hok as [Hw Hd]. pose proof (w_timeline _ _ _ _ _ Hw) as Htl.
  destruct (step_cases r s r' out Hst) as [[Hws ->]|(d & Hrs & -> & Hbg)].
  - destruct (writer_step_ok item_bytes r r' s its Hw Hn Hws) as [_ Hr].
    rewrite Hr in *. rewrite numbered_items_nil by done. split; [|split; [done|lia]].
    split; [done|]. rewrite Hr. split; [by apply (steady_more _ (stores r) _ _ (writer r))|].
    destruct s; cbn [begun] in *; rewrite ?app_nil_r, ?alen_snoc; try lia.
    cbn in Hn. lia.
  - rewrite Hbg, app_nil_r in *.
    destruct (steady_step item_bytes (items r) (stores r) (writer r) its (reader r) Hw Hd Hs Hb Hp
      s d out Ha Hrs) as [Hs' Ho].
    assert (_next (reader r) <= _next d) as Hle.
    { destruct Hs as [H0 _], Hs' as [H0' _]. cbn in Hacc. rewrite H0, H0' in Hacc. lia. }
    split; [|by split]. split; [done|]. cbn. split; [done|lia].
Qed.

Lemma paced_run r schedule r' out its :
  paced_ok r its -> numbered_all item_bytes its schedule -> no_attach schedule ->
  alen (its ++ begun_all schedule) < 2 ^ 64 - 1 -> paced r schedule ->
  run r schedule = Some (r', out) ->
  paced_ok r' (its ++ begun_all schedule) /\
  reads out = numbered_items (its ++ begun_all schedule) (_next (reader r)) (_next (reader r')) /\
  _next (reader r) <= _next (reader r').
Proof.
  revert r its out. induction schedule as [|s schedule IH]; intros r its out Hok Hn Ha Hb Hp Hr.
  - cbn in Hr. simplify_eq. unfold begun_all. cbn. rewrite app_nil_r, numbered_items_nil by done.
    split_and!; [done|done|lia].
  - cbn in Hr. destruct (step r s) as [[r1 o1]|] eqn:E; [|done]. cbn in Hr.
    destruct (run r1 schedule) as [[r2 o2]|] eqn:E2; [|done]. cbn in Hr. simplify_eq.
    cbn in Hn, Hp. destruct Hn as [Hn Hns]. apply Forall_cons in Ha as [Ha Has].
    rewrite E in Hp. destruct Hp as [Hp Hps].
    unfold begun_all in *. cbn [mbind list_bind] in *. rewrite app_assoc in *.
    assert (alen (its ++ begun s) < 2 ^ 64 - 1) as Hb1.
    { unfold alen in *. rewrite (length_app (its ++ begun s)) in Hb. lia. }
    destruct (paced_step r s r1 o1 its Hok Hn Ha Hb1 Hp E) as (Hok1 & Ho1 & Hle1).
    destruct (IH r1 _ o2 Hok1 Hns Has Hb Hps E2) as (Hok2 & Ho2 & Hle2).
    pose proof Hok1 as ((Hw1 & [Hn1 _ _ _]) & _). pose proof Hok as ((_ & [Hn0 _ _ _]) & _).
    pose proof (stored_range (writer r1) (its ++ begun s)).
    split_and!; [done| |lia]. rewrite reads_app, Ho1, Ho2.
    rewrite (numbered_items_app _ (_next (reader r)) (_next (reader r1)) (_next (reader r'))) by lia.
    by rewrite (numbered_items_more (its ++ begun s) _ (_next (reader r)) (_next (reader r1))) by lia.
Qed.

Lemma opened_paced epoch : paced_ok (opened epoch) [].
Proof. split; [apply ring_opened_ok|]. split; [by split|]. unfold alen, kCapacity. cbn. lia. Qed.

(** ** Calls without interruption *)

Definition publish_calls (q : Z) (item : list Z) : list Step :=
  Publish q item :: replicate size CopyIn ++ [StoreSequence; StorePublished].

Lemma copy_in_all r q item c n :
  writer r = WriterCopies q item c -> (c + n <= size)%nat ->
  exists r', run r (replicate n CopyIn) = Some (r', []) /\
    writer r' = WriterCopies q item (c + n) /\ reader r' = reader r /\ stores r' = stores r /\
    forall its, writer_ok item_bytes (items r) (stores r) (writer r) its ->
      writer_ok item_bytes (items r') (stores r') (writer r') its.
Proof.
  revert r c. induction n as [|n IH]; intros r c Hw Hc.
  - exists r. by rewrite Nat.add_0_r.
  - cbn [replicate ShmRingProtocol.run]. unfold ShmRingProtocol.step. cbn [writer_step]. rewrite Hw.
    fold size. destruct (Nat.ltb_spec c size); [|lia]. cbn.
    destruct (IH (copy_in r q item c) (S c)) as (r' & -> & Hw' & Hr' & Hst' & Hok'); [done|lia|].
    exists r'. cbn. split_and!; [done|by rewrite Hw', Nat.add_succ_comm|done|done|].
    intros its Hok. apply Hok'. by apply writer_ok_copy.
Qed.

(** A publication up to its copy: the slot holds the item, no number is stored. *)
Lemma overwrite_runs r its item :
  writer_ok item_bytes (items r) (stores r) (writer r) its -> writer r = WriterIdle -> length item = size ->
  exists r', run r (Publish (alen its) item :: replicate size CopyIn) = Some (r', []) /\
    (items r').[slot (alen its)] = item /\ stores r' = stores r /\ reader r' = reader r.
Proof.
  intros Hok Hw Hl. set (r1 := r <| writer := WriterCopies (alen its) item 0 |>).
  destruct (copy_in_all r1 (alen its) item 0 size eq_refl ltac:(lia)) as (r2 & H2 & Hw2 & Hr2 & Hst2 & Hok2).
  exists r2. split_and!; [|..|done|done].
  - change (?a :: ?b) with ([a] ++ b). apply (run_app_some _ _ _ r1 [] _ []); [|done].
    cbn. rewrite Hw. done.
  - rewrite Hw in Hok. pose proof (Hok2 _ (writer_ok_begin item_bytes _ _ _ _ Hl Hok)) as Hw2ok.
    rewrite Hw2 in Hw2ok. destruct (w_at _ _ _ _ _ Hw2ok) as (_ & _ & _ & _ & Ht).
    destruct (w_memory _ _ _ _ _ Hw2ok) as [_ Hsz]. fold size in Hsz. cbn [Nat.add] in Ht.
    rewrite !take_ge in Ht by (rewrite ?Hsz by apply slot_range; lia). done.
Qed.

Lemma publish_runs r q item :
  writer r = WriterIdle ->
  exists r', run r (publish_calls q item) = Some (r', []) /\ writer r' = WriterIdle /\ reader r' = reader r.
Proof.
  intros Hw. set (r1 := r <| writer := WriterCopies q item 0 |>).
  destruct (copy_in_all r1 q item 0 size eq_refl ltac:(lia)) as (r2 & H2 & Hw2 & Hr2 & _ & _).
  set (r3 := (store r2 (Sequence (slot q)) q) <| writer := WriterStoresPublished q |>).
  set (r4 := (store r3 Published q) <| writer := WriterIdle |>).
  exists r4. split; [|done]. unfold publish_calls. change (?a :: ?b) with ([a] ++ b).
  apply (run_app_some _ _ _ r1 [] _ []).
  { cbn. rewrite Hw. done. }
  apply (run_app_some _ _ _ r2 [] _ []); [done|].
  cbn -[Nat.ltb]. rewrite Hw2. cbn -[Nat.ltb]. fold size. by rewrite Nat.ltb_irrefl.
Qed.

Lemma copy_out_all r before c n :
  at_ (reader r) = ReadCopies before c -> (0 < n)%nat -> (length c + n = size)%nat ->
  length (items r).[slot (_next (reader r))] = size ->
  run r (replicate n CopyOut) =
    Some (r <| reader := (reader r) <| at_ :=
      ReadLoadsAfter before (c ++ drop (length c) (items r).[slot (_next (reader r))]) |> |>, []).
Proof.
  revert r c. induction n as [|n IH]; intros r c Hat Hn Hc Hl; [lia|].
  set (it := (items r).[slot (_next (reader r))]) in *.
  cbn [replicate ShmRingProtocol.run]. unfold ShmRingProtocol.step at 1. cbn [reader_step]. rewrite Hat.
  fold size it. destruct (Nat.ltb_spec (length c) size); [|lia].
  assert (drop (length c) it = (it !!! length c) :: drop (S (length c)) it) as Hdrop.
  { apply drop_S. apply list_lookup_lookup_total_lt. lia. }
  assert (length (c ++ [it !!! length c]) = S (length c)) as Hlc by (rewrite length_app; cbn; lia).
  cbv zeta. rewrite Hlc.
  destruct (Nat.ltb_spec (S (length c)) size) as [Hlt|Hge].
  - cbn [mbind option_bind fst snd].
    rewrite (IH _ (c ++ [it !!! length c])); [|done|lia|lia|done]. cbn. rewrite Hlc, Hdrop.
    fold it. by rewrite <- app_assoc.
  - assert (n = 0%nat) as -> by lia. cbn. rewrite Hdrop. rewrite (drop_ge it) by lia. done.
Qed.

(** A load of the newest store to a location is always possible. *)
Lemma load_newest st kn l i v :
  st !! i = Some (l, v) -> (forall j w, (i < j)%nat -> st !! j <> Some (l, w)) ->
  load st kn l (Some i) = Some (v, max kn (S i)).
Proof.
  intros Hi Hnew. unfold load. rewrite Hi. cbn. rewrite bool_decide_true by done. cbn.
  destruct (overwritten st (S i) kn l) eqn:E; [|done].
  apply overwritten_spec in E as (j & w & Hj & Hw). destruct (Hnew j w); [lia|done].
Qed.

(** The index of the last store to [l]. *)
Fixpoint newest (st : list Store) (l : Location) : option nat :=
  match st with
  | [] => None
  | s :: st' =>
      match newest st' l with
      | Some i => Some (S i)
      | None => if bool_decide (fst s = l) then Some 0%nat else None
      end
  end.

Lemma newest_none st l : (forall i v, st !! i <> Some (l, v)) -> newest st l = None.
Proof.
  induction st as [|[l' v] st IH]; intros Hno; [done|]. cbn.
  rewrite IH by (intros i w; exact (Hno (S i) w)). rewrite bool_decide_false; [done|].
  intros ->. by apply (Hno 0%nat v).
Qed.

Lemma newest_spec st l i v :
  st !! i = Some (l, v) -> (forall j w, (i < j)%nat -> st !! j <> Some (l, w)) -> newest st l = Some i.
Proof.
  revert i. induction st as [|s st IH]; intros i Hi Hnew; [done|]. cbn. destruct i as [|i]; cbn in Hi.
  - injection Hi as ->. rewrite newest_none; [by rewrite bool_decide_true|].
    intros i w. apply (Hnew (S i) w). lia.
  - rewrite (IH i Hi); [done|]. intros j w Hj. apply (Hnew (S j) w). lia.
Qed.

(** What the reader does next when nothing else happens and the memory answers
    with the newest store. *)
Definition undisturbed_step (r : t) : option Step :=
  match loads (reader r) with
  | Some l => Some (Load (newest (stores r) l))
  | None => match at_ (reader r) with ReadCopies _ _ => Some CopyOut | _ => None end
  end.

Fixpoint undisturbed (r : t) (steps : list Step) : Prop :=
  match steps with
  | [] => True
  | s :: steps' =>
      undisturbed_step r = Some s /\
      match step r s with Some (r', _) => undisturbed r' steps' | None => False end
  end.

(** A call of [try_read] and what follows it, with no step of the publisher and
    each load returning the newest store. *)
Definition undisturbed_try_read (r : t) (calls : list Step) : Prop :=
  match calls with
  | TryRead :: steps => match step r TryRead with Some (r', _) => undisturbed r' steps | None => False end
  | _ => False
  end.

Lemma undisturbed_app r s1 s2 r1 o1 :
  run r s1 = Some (r1, o1) -> undisturbed r s1 -> undisturbed r1 s2 -> undisturbed r (s1 ++ s2).
Proof.
  revert r o1. induction s1 as [|s s1 IH]; intros r o1; cbn; [by intros [= -> _]|].
  destruct (step r s) as [[r' o]|]; [|done]. cbn.
  destruct (run r' s1) as [[r'' o']|] eqn:E; [|done]. cbn. intros [= -> _] [Hs H1] H2. split; [done|].
  by apply (IH _ _ E).
Qed.

Lemma undisturbed_one r s r1 o : undisturbed_step r = Some s -> run r [s] = Some (r1, o) -> undisturbed r [s].
Proof. intros Hs. cbn. by destruct (step r s) as [[]|]. Qed.

Lemma undisturbed_try_read_app r s1 s2 r1 o1 :
  run r (TryRead :: s1) = Some (r1, o1) -> undisturbed_try_read r (TryRead :: s1) -> undisturbed r1 s2 ->
  undisturbed_try_read r (TryRead :: s1 ++ s2).
Proof.
  unfold undisturbed_try_read. cbn [ShmRingProtocol.run]. destruct (step r TryRead) as [[r' o]|]; [|done]. cbn.
  destruct (run r' s1) as [[r'' o']|] eqn:E; [|done]. cbn. intros [= -> _] H1 H2.
  by apply (undisturbed_app _ _ _ _ _ E).
Qed.

Lemma undisturbed_copies r n r1 o :
  run r (replicate n CopyOut) = Some (r1, o) -> undisturbed r (replicate n CopyOut).
Proof.
  revert r o. induction n as [|n IH]; intros r o; [done|]. cbn [replicate ShmRingProtocol.run].
  destruct (step r CopyOut) as [[r' o']|] eqn:E; [|done]. cbn [mbind option_bind].
  destruct (run r' (replicate n CopyOut)) as [[r'' o'']|] eqn:E2; [|done].
  intros [= -> _]. cbn [undisturbed]. rewrite E. split.
  - unfold undisturbed_step, loads. cbn -[Nat.ltb] in E. destruct (at_ (reader r)); done.
  - by apply (IH _ _ E2).
Qed.

(** From one finished call to all of them: the reader has no choice. *)
Lemma undisturbed_prefix r s1 s2 r1 o1 :
  run r s1 = Some (r1, o1) -> undisturbed r s1 -> at_ (reader r1) = ReaderIdle ->
  undisturbed r s2 -> s2 `prefix_of` s1.
Proof.
  revert r s2 o1. induction s1 as [|a s1 IH]; intros r s2 o1; cbn [ShmRingProtocol.run undisturbed].
  - intros [= -> _] _ Hat. destruct s2 as [|b s2]; [done|]. cbn. unfold undisturbed_step, loads. rewrite Hat. by intros [[=] _].
  - destruct (step r a) as [[r' o]|] eqn:E; [|done]. cbn.
    destruct (run r' s1) as [[r'' o']|] eqn:E2; [|done]. cbn. intros [= -> _] [Ha H1] Hat.
    destruct s2 as [|b s2]; [intros _; apply prefix_nil|]. cbn. intros [Hb H2].
    rewrite Ha in Hb. injection Hb as <-. rewrite E in H2. apply prefix_cons. by apply (IH _ _ _ E2).
Qed.

Lemma undisturbed_try_read_prefix r s1 s2 r1 o1 :
  run r s1 = Some (r1, o1) -> undisturbed_try_read r s1 -> at_ (reader r1) = ReaderIdle ->
  undisturbed_try_read r s2 -> s2 `prefix_of` s1.
Proof.
  unfold undisturbed_try_read. destruct s1 as [|[] s1]; try done. destruct s2 as [|[] s2]; try done.
  cbn [ShmRingProtocol.run]. destruct (step r TryRead) as [[r' o]|]; [|done]. cbn.
  destruct (run r' s1) as [[r'' o']|] eqn:E; [|done]. cbn. intros [= -> _] H1 Hat H2.
  apply prefix_cons. by apply (undisturbed_prefix _ _ _ _ _ E).
Qed.

(** A finished call cannot be carried on, so a finished call is the whole one. *)
Lemma undisturbed_try_read_all r s1 s2 r1 o1 r2 o2 :
  run r s1 = Some (r1, o1) -> undisturbed_try_read r s1 -> at_ (reader r1) = ReaderIdle ->
  run r s2 = Some (r2, o2) -> undisturbed_try_read r s2 -> at_ (reader r2) = ReaderIdle ->
  r2 = r1 /\ o2 = o1.
Proof.
  intros Hr1 H1 Hat1 Hr2 H2 Hat2.
  assert (s1 = s2) as ->.
  { apply (anti_symm prefix); [by apply (undisturbed_try_read_prefix _ _ _ _ _ Hr2)|].
    by apply (undisturbed_try_read_prefix _ _ _ _ _ Hr1). }
  rewrite Hr1 in Hr2. by injection Hr2.
Qed.

(** So what one finished call does, every finished call does. *)
Lemma undisturbed_try_read_determined r out next dropped :
  (exists calls r', run r calls = Some (r', out) /\ undisturbed_try_read r calls /\
    at_ (reader r') = ReaderIdle /\ _next (reader r') = next /\ _dropped (reader r') = dropped) ->
  (exists calls r' out', run r calls = Some (r', out') /\ undisturbed_try_read r calls /\
    at_ (reader r') = ReaderIdle /\
    forall started, undisturbed_try_read r started -> started `prefix_of` calls) /\
  forall calls r' out', run r calls = Some (r', out') -> undisturbed_try_read r calls ->
    at_ (reader r') = ReaderIdle ->
    out' = out /\ _next (reader r') = next /\ _dropped (reader r') = dropped.
Proof.
  intros (calls & r' & Hr & Hu & Hat & Hn & Hd). split.
  - exists calls, r', out. split_and!; [done|done|done|]. intros started.
    by apply (undisturbed_try_read_prefix _ _ _ _ _ Hr).
  - intros calls2 r2 out2 Hr2 Hu2 Hat2.
    by destruct (undisturbed_try_read_all _ _ _ _ _ _ _ Hr Hu Hat Hr2 Hu2 Hat2) as [-> ->].
Qed.

Section idle.
Context (r : t) (its : list (list Z)).
Hypothesis Hok : ring_ok r its.
Hypothesis Hidle : writer r = WriterIdle.
Let m : Z := alen its.

Let Htl : timeline (stores r) m m.
Proof. destruct Hok as [Hw _]. pose proof (w_timeline _ _ _ _ _ Hw) as H. by rewrite Hidle in H. Qed.

Lemma newest_published :
  0 < m -> exists i, stores r !! i = Some (Published, m - 1) /\
    (forall j w, (i < j)%nat -> stores r !! j <> Some (Published, w)).
Proof.
  intros Hm. destruct (tl_published_all _ _ _ Htl (m - 1) ltac:(lia)) as [i Hi].
  exists i. split; [done|]. intros j w Hij Hj.
  pose proof (tl_published_order _ _ _ Htl i j _ _ Hij Hi Hj).
  destruct (tl_published _ _ _ Htl j w Hj) as [? _]. lia.
Qed.

Lemma newest_sequence n :
  0 <= n < m -> m <= n + kCapacity -> exists i, stores r !! i = Some (Sequence (slot n), n) /\
    (forall j w, (i < j)%nat -> stores r !! j <> Some (Sequence (slot n), w)).
Proof.
  intros Hn Hm. destruct (tl_all _ _ _ Htl n Hn) as [i Hi].
  exists i. split; [done|]. intros j w Hij Hj.
  pose proof (tl_order _ _ _ Htl i j _ _ _ _ Hij Hi Hj).
  destruct (tl_range _ _ _ Htl _ _ _ Hj) as [Hs ?]. pose proof (slot_again n w Hs ltac:(lia)). lia.
Qed.

Lemma idle_slot n :
  0 <= n < m -> m <= n + kCapacity -> (items r).[slot n] = its.[n] /\ length its.[n] = size.
Proof.
  intros Hn Hm. destruct Hok as [Hw _]. split.
  - apply (w_slots _ _ _ _ _ Hw); rewrite ?Hidle; done.
  - pose proof (w_items _ _ _ _ _ Hw) as Hall. rewrite Forall_forall in Hall.
    apply Hall, aget_elem. fold m. lia.
Qed.

(** The first half of a [try_read] that finds something: the number it settles
    on, and the loads that lead to the copy. *)
Lemma try_read_starts :
  at_ (reader r) = ReaderIdle -> m < 2 ^ 64 - 1 -> _next (reader r) < m ->
  exists i j d, let n := Z.max (_next (reader r)) (m - kCapacity) in
    run r [TryRead; Load (Some i); Load (Some j)] = Some (r <| reader := d |>, []) /\
    _next d = n /\ _dropped d = _dropped (reader r) + (n - _next (reader r)) /\
    at_ d = ReadCopies n [] /\ (j < known d)%nat /\
    stores r !! j = Some (Sequence (slot n), n) /\
    (forall k w, (j < k)%nat -> stores r !! k <> Some (Sequence (slot n), w)) /\
    0 <= n < m /\ m <= n + kCapacity /\
    undisturbed_try_read r [TryRead; Load (Some i); Load (Some j)].
Proof.
  intros Hat Hm Hlt. destruct Hok as [_ [Hn Hd Hini _]]. rewrite Hidle in Hn. cbn in Hn. fold m in Hn.
  set (n := Z.max (_next (reader r)) (m - kCapacity)).
  assert (0 <= n < m /\ m <= n + kCapacity) as [Hnm Hnc] by (unfold n, kCapacity; lia).
  destruct (newest_published ltac:(lia)) as (i & Hi & Hinew).
  destruct (newest_sequence n Hnm Hnc) as (j & Hj & Hjnew).
  set (d := reader r) in *.
  set (d1 := d <| at_ := ReadLoadsPublished |>).
  set (d2 := d1 <| known := max (known d) (S i) |>).
  set (d3 := d2 <| _next := n |> <| _dropped := _dropped d + (n - _next d) |> <| at_ := ReadLoadsBefore |>).
  set (d4 := d3 <| known := max (known d3) (S j) |> <| at_ := ReadCopies n [] |>).
  assert (run r [TryRead] = Some (r <| reader := d1 |>, [])) as R1.
  { cbn. fold d. rewrite Hat, Hini. done. }
  assert (run (r <| reader := d1 |>) [Load (Some i)] = Some (r <| reader := d3 |>, [])) as R2.
  { cbn -[load]. rewrite (load_newest _ _ _ _ _ Hi Hinew). cbn. unfold read_published. cbn.
    destruct (Z.eqb_spec (m - 1) kNoSequence); [unfold kNoSequence in *; lia|].
    destruct (Z.ltb_spec (m - 1) (_next d)); [lia|]. cbn. rewrite oldest_spec by lia.
    destruct (Z.ltb_spec (_next d) (Z.max 0 (m - 1 - (kCapacity - 1)))) as [Hl|Hl].
    + assert (Z.max 0 (m - 1 - (kCapacity - 1)) = n) as -> by (unfold n, kCapacity in *; lia).
      unfold d3, d2, d1. updates. cbn [_next _dropped].
      rewrite (wrap_small 64 (n - _next d)), wrap_small by lia. done.
    + assert (n = _next d) as En by (unfold n, kCapacity in *; lia).
      unfold d3. rewrite En, Z.sub_diag, Z.add_0_r. unfold d2, d1. destruct r, reader. done. }
  assert (run (r <| reader := d3 |>) [Load (Some j)] = Some (r <| reader := d4 |>, [])) as R3.
  { cbn -[load slot n]. rewrite (load_newest _ _ _ _ _ Hj Hjnew). cbn.
    unfold read_before. cbn. rewrite Z.eqb_refl. done. }
  assert (undisturbed (r <| reader := d1 |>) [Load (Some i); Load (Some j)]) as Hu.
  { apply (undisturbed_app _ [Load (Some i)] [Load (Some j)] _ _ R2).
    - apply (undisturbed_one _ _ _ _) with (2 := R2). unfold undisturbed_step. cbn.
      by rewrite (newest_spec _ _ _ _ Hi Hinew).
    - apply (undisturbed_one _ _ _ _) with (2 := R3). unfold undisturbed_step. cbn -[slot n].
      by rewrite (newest_spec _ _ _ _ Hj Hjnew). }
  clearbody n. exists i, j, d4. cbn zeta.
  split; [|split_and!; try done; try (unfold d4; updates; cbn; lia)].
  - apply (run_app_some r [TryRead] [Load (Some i); Load (Some j)] _ [] _ [] R1).
    by apply (run_app_some _ [Load (Some i)] [Load (Some j)] _ [] _ [] R2).
  - unfold undisturbed_try_read. cbn. fold d. rewrite Hat, Hini. exact Hu.
Qed.

(** A whole [try_read] of the reader alone, on the newest stores. *)
Lemma try_read_finds :
  0 < item_bytes -> at_ (reader r) = ReaderIdle -> m < 2 ^ 64 - 1 -> _next (reader r) < m ->
  exists calls r', let n := Z.max (_next (reader r)) (m - kCapacity) in
    run r calls = Some (r', [Read n its.[n]]) /\ undisturbed_try_read r calls /\
    at_ (reader r') = ReaderIdle /\
    _next (reader r') = n + 1 /\ _dropped (reader r') = _dropped (reader r) + (n - _next (reader r)).
Proof.
  intros Hsz Hat Hm Hlt.
  destruct (try_read_starts Hat Hm Hlt) as (i & j & d & Hr & Hn & Hd & Hatd & Hj & Hst & Hnew & Hnm & Hnc & Hu).
  set (n := Z.max (_next (reader r)) (m - kCapacity)) in *.
  destruct (idle_slot n Hnm Hnc) as [Hs Hl].
  set (r1 := r <| reader := d |>) in *. set (d2 := d <| at_ := ReadLoadsAfter n its.[n] |>).
  set (d3 := d2 <| known := max (known d2) (S j) |> <| _next ::= incr |> <| at_ := ReaderIdle |>).
  assert (run r1 (replicate size CopyOut) = Some (r1 <| reader := d2 |>, [])) as Hc.
  { unfold size. rewrite (copy_out_all r1 n [] (Z.to_nat item_bytes) Hatd); cbn [reader r1]; rewrite ?Hn.
    - unfold r1, d2. updates. cbn -[slot]. by rewrite Hn, Hs.
    - lia.
    - done.
    - unfold r1. updates. cbn -[slot]. by rewrite Hn, Hs. }
  assert (run (r1 <| reader := d2 |>) [Load (Some j)] =
    Some (r <| reader := d3 |>, [Read n its.[n]])) as Hlast.
  { cbn -[load slot]. rewrite Hn, (load_newest _ _ _ _ _ Hst Hnew). cbn. unfold read_after. cbn.
    rewrite Z.eqb_refl. cbn. rewrite Hn. unfold incr. rewrite (wrap_small 64 (n + 1)), wrap_small by lia.
    replace (n + 1 - 1) with n by lia. done. }
  assert (undisturbed r1 (replicate size CopyOut ++ [Load (Some j)])) as Hu2.
  { apply (undisturbed_app _ _ _ _ _ Hc); [by apply (undisturbed_copies _ _ _ _ Hc)|].
    apply (undisturbed_one _ _ _ _) with (2 := Hlast). unfold undisturbed_step. cbn -[slot].
    by rewrite Hn, (newest_spec _ _ _ _ Hst Hnew). }
  exists (TryRead :: [Load (Some i); Load (Some j)] ++ replicate size CopyOut ++ [Load (Some j)]), (r <| reader := d3 |>).
  cbn zeta. split_and!.
  - change (TryRead :: ?a ++ ?b) with ((TryRead :: a) ++ b).
    apply (run_app_some _ _ _ r1 [] _ _); [exact Hr|]. by apply (run_app_some _ _ _ (r1 <| reader := d2 |>) [] _ _).
  - by apply (undisturbed_try_read_app _ _ _ _ _ Hr Hu).
  - done.
  - unfold d3, d2. updates. cbn. rewrite Hn. unfold incr. rewrite wrap_small; lia.
  - unfold d3, d2. updates. cbn. done.
Qed.

(** A [try_read] that has nothing to read ends with its first load. *)
Lemma try_read_ends :
  at_ (reader r) = ReaderIdle -> m < 2 ^ 64 - 1 -> m <= _next (reader r) ->
  exists calls r',
    run r calls = Some (r', [ReadNothing]) /\ undisturbed_try_read r calls /\
    at_ (reader r') = ReaderIdle /\
    _next (reader r') = _next (reader r) /\ _dropped (reader r') = _dropped (reader r).
Proof.
  intros Hat Hm Hle. destruct Hok as [_ [_ _ Hini _]].
  set (r1 := r <| reader ::= fun d => d <| at_ := ReadLoadsPublished |> |>).
  assert (run r [TryRead] = Some (r1, [])) as R1 by (cbn; by rewrite Hat, Hini).
  assert (exists d, run r1 [Load (newest (stores r) Published)] = Some (r <| reader := d |>, [ReadNothing]) /\
    at_ d = ReaderIdle /\ _next d = _next (reader r) /\ _dropped d = _dropped (reader r)) as (d & R2 & Hd).
  { destruct (Z_le_gt_dec m 0) as [H0|H0].
    - assert (forall i v, stores r !! i <> Some (Published, v)) as Hnone.
      { intros i v Hi. destruct (tl_published _ _ _ Htl i v Hi). lia. }
      exists ((reader r1) <| at_ := ReaderIdle |>). rewrite (newest_none _ _ Hnone). split; [|done].
      cbn -[load]. unfold load. destruct (overwritten _ _ _ _) eqn:E; [|done].
      apply overwritten_spec in E as (i & v & _ & Hi). by destruct (Hnone i v).
    - destruct (newest_published ltac:(lia)) as (i & Hi & Hnew).
      exists ((reader r1) <| known := max (known (reader r)) (S i) |> <| at_ := ReaderIdle |>).
      rewrite (newest_spec _ _ _ _ Hi Hnew). split; [|done].
      cbn -[load]. rewrite (load_newest _ _ _ _ _ Hi Hnew). cbn. unfold read_published. cbn.
      destruct (Z.ltb_spec (m - 1) (_next (reader r))); [|lia]. by rewrite orb_true_r. }
  exists [TryRead; Load (newest (stores r) Published)], (r <| reader := d |>). split; [|split; [|exact Hd]].
  - by apply (run_app_some r [TryRead] [_] r1 [] _ [ReadNothing]).
  - assert (undisturbed r1 [Load (newest (stores r) Published)]) as Hu by by apply (undisturbed_one _ _ _ _) with (2 := R2).
    unfold undisturbed_try_read. cbn. rewrite Hat, Hini. exact Hu.
Qed.
End idle.
End runs.
