(* ===== verification/ShmProperties.v ===== *)
(** * Properties of the shared-memory ring

    For every schedule of a fresh queue with an attached reader: the reader
    accounts for every number it passes; a reader the publisher waits for gets
    every item, whole; every [try_read] that runs undisturbed and loads the
    newest stores finds the oldest item that is left.  A reader a full round behind can be handed an item nobody published:
    the publisher does not mark a slot before it overwrites it. *)

From S2P Require Import Prelude ShmRing ShmFacts ShmReader.
Import ShmRingProtocol.

(** ** A schedule with a torn read *)

(** The numbers [0 .. n - 1] are published, every byte zero. *)
Fixpoint publish_many (item_bytes : Z) (n : nat) : list Step :=
  match n with
  | O => []
  | S n' => publish_many item_bytes n' ++
      publish_calls item_bytes (Z.of_nat n') (replicate (Z.to_nat item_bytes) 0)
  end.

Section torn.
Context (item_bytes : Z).
Hypothesis Hsize : 2 <= item_bytes.
Let size : nat := Z.to_nat item_bytes.
Let zeros : list Z := replicate size 0.
Let ones : list Z := replicate size 1.

Lemma publish_calls_begun q item :
  begun_all (publish_calls item_bytes q item) = [item] /\ no_attach (publish_calls item_bytes q item).
Proof.
  unfold publish_calls, begun_all, no_attach. cbn [mbind list_bind begun]. rewrite bind_app.
  assert (forall n, replicate n CopyIn ≫= begun = [] /\
    Forall (fun s => is_attach s = false) (replicate n CopyIn)) as Hc.
  { induction n as [|n [IH1 IH2]]; [done|]. cbn. by split; [|constructor]. }
  destruct (Hc (Z.to_nat item_bytes)) as [-> Hn]. split; [done|]. constructor; [done|].
  apply Forall_app. by split; [|repeat constructor].
Qed.

Lemma copy_in_numbered its n :
  numbered_all item_bytes its (replicate n CopyIn ++ [StoreSequence; StorePublished]).
Proof.
  revert its. induction n as [|n IH]; intros its; [by cbn|]. cbn. split; [done|]. rewrite app_nil_r. apply IH.
Qed.

Lemma publish_calls_numbered its item :
  length item = size -> numbered_all item_bytes its (publish_calls item_bytes (alen its) item).
Proof. intros Hl. unfold publish_calls. split; [done|]. apply copy_in_numbered. Qed.

Lemma numbered_all_app its s1 s2 :
  numbered_all item_bytes its s1 -> numbered_all item_bytes (its ++ begun_all s1) s2 ->
  numbered_all item_bytes its (s1 ++ s2).
Proof.
  revert its. induction s1 as [|s s1 IH]; intros its; unfold begun_all; cbn.
  - by rewrite app_nil_r.
  - intros [H1 H2] H3. split; [done|]. apply IH; [done|]. by rewrite <- app_assoc.
Qed.

Lemma publish_many_ok epoch n :
  exists r, run item_bytes (opened item_bytes epoch) (publish_many item_bytes n) = Some (r, []) /\
    writer r = WriterIdle /\ reader r = reader (opened item_bytes epoch) /\
    begun_all (publish_many item_bytes n) = replicate n zeros /\
    no_attach (publish_many item_bytes n) /\ numbered_all item_bytes [] (publish_many item_bytes n).
Proof.
  induction n as [|n (r & Hr & Hw & Hd & Hb & Hna & Hnum)].
  { exists (opened item_bytes epoch). split_and!; try done. constructor. }
  destruct (publish_runs item_bytes r (Z.of_nat n) zeros Hw) as (r' & Hr' & Hw' & Hd').
  destruct (publish_calls_begun (Z.of_nat n) zeros) as [Hb1 Hna1].
  exists r'. cbn [publish_many]. fold size zeros. split_and!.
  - by apply (run_app_some item_bytes _ _ _ r [] _ []).
  - done.
  - congruence.
  - unfold begun_all in *. rewrite bind_app, Hb, Hb1. by rewrite replicate_S_end.
  - by apply Forall_app.
  - apply numbered_all_app; [done|]. rewrite Hb. cbn [app].
    replace (Z.of_nat n) with (alen (replicate n zeros)) by (by rewrite alen_replicate).
    apply publish_calls_numbered. apply length_replicate.
Qed.

(** Every slot has been filled once and the reader has read nothing yet. *)
Lemma round_behind epoch n :
  Z.of_nat n = kCapacity ->
  exists r, run item_bytes (opened item_bytes epoch) (publish_many item_bytes n) = Some (r, []) /\
    ring_ok item_bytes r (replicate n zeros) /\
    writer r = WriterIdle /\ reader r = reader (opened item_bytes epoch).
Proof.
  intros Hn. destruct (publish_many_ok epoch n) as (r & Hr & Hw & Hd & Hb & Hna & Hnum).
  exists r. split; [exact Hr|]. split; [|by split].
  destruct (shm_run_ok item_bytes _ _ r [] [] (ring_opened_ok item_bytes epoch) Hnum Hna) as [Hok _]; [|exact Hr|].
  - cbn [app]. rewrite Hb, alen_replicate, Hn. unfold kCapacity. lia.
  - cbn [app] in Hok. by rewrite Hb in Hok.
Qed.

(** From there on: the reader copies a byte, the publisher overwrites the slot,
    the reader copies the rest. *)
Lemma overwritten_read r its :
  ring_ok item_bytes r its -> writer r = WriterIdle -> at_ (reader r) = ReaderIdle ->
  alen its = kCapacity -> _next (reader r) = 0 -> its.[0] = zeros ->
  exists schedule r', run item_bytes r schedule = Some (r', [Read 0 (0 :: drop 1 ones)]) /\
    begun_all schedule = [ones] /\ no_attach schedule /\ numbered_all item_bytes its schedule.
Proof.
  intros Hok Hw Hat Hm Hn H0.
  destruct (try_read_starts item_bytes r its Hok Hw Hat) as (i & j & d & Hstart & Hnd & _ & Hatd & Hj & Hst & Hnew & _);
    [rewrite Hm; unfold kCapacity; lia|rewrite Hm, Hn; unfold kCapacity; lia|].
  rewrite Hm, Hn, Z.sub_diag in *. change (Z.max 0 0) with 0 in *.
  destruct (idle_slot item_bytes r its Hok Hw 0) as [Hslot Hlen];
    [rewrite Hm; unfold kCapacity; lia|rewrite Hm; lia|].
  set (r1 := r <| reader := d |>) in *.
  set (r2 := r1 <| reader := d <| at_ := ReadCopies 0 [0] |> |>).
  assert (run item_bytes r1 [CopyOut] = Some (r2, [])) as Hcopy.
  { cbn -[Nat.ltb slot]. rewrite Hatd. cbn -[Nat.ltb slot]. rewrite Hnd, Hslot, H0.
    destruct (Nat.ltb_spec 0 (Z.to_nat item_bytes)); [|lia]. cbn -[Nat.ltb slot].
    destruct (Nat.ltb_spec 1 (Z.to_nat item_bytes)); [|lia].
    unfold zeros. replace (replicate size 0 !!! 0%nat) with 0; [done|].
    symmetry. apply lookup_total_replicate_2. unfold size. lia. }
  destruct (overwrite_runs item_bytes r2 its ones) as (r3 & Hpub & Hones & Hst3 & Hr3);
    [apply Hok|done|apply length_replicate|].
  rewrite Hm in Hpub, Hones. change (slot kCapacity) with (slot 0) in Hones.
  assert (run item_bytes r3 (replicate (size - 1) CopyOut) = Some (r3 <| reader :=
    (reader r3) <| at_ := ReadLoadsAfter 0 (0 :: drop 1 ones) |> |>, [])) as Hrest.
  { assert (at_ (reader r3) = ReadCopies 0 [0]) as Hat3 by (by rewrite Hr3).
    assert (_next (reader r3) = 0) as Hn3 by (rewrite Hr3; exact Hnd).
    pose proof (copy_out_all item_bytes r3 0 [0] (size - 1) Hat3 ltac:(unfold size; lia)
      ltac:(cbn [length]; unfold size; lia)) as Hall.
    rewrite Hn3, Hones in Hall. apply Hall. apply length_replicate. }
  set (r4 := r3 <| reader := _ |>) in Hrest.
  set (r5 := r4 <| reader := d <| at_ := ReadCopies 0 [0] |> <| at_ := ReadLoadsAfter 0 (0 :: drop 1 ones) |>
    <| known := max (known d) (S j) |> <| _next ::= incr |> <| at_ := ReaderIdle |> |>).
  assert (run item_bytes r4 [Load (Some j)] = Some (r5, [Read 0 (0 :: drop 1 ones)])) as Hlast.
  { cbn -[load slot drop]. rewrite Hr3. cbn -[load slot drop]. rewrite Hnd, Hst3. cbn -[load slot drop].
    rewrite (load_newest item_bytes _ _ _ _ _ Hst Hnew). cbn -[drop]. unfold read_after. cbn -[drop]. rewrite Hnd. done. }
  exists ([TryRead; Load (Some i); Load (Some j)] ++ [CopyOut] ++
    (Publish kCapacity ones :: replicate size CopyIn) ++ replicate (size - 1) CopyOut ++ [Load (Some j)]), r5.
  split_and!.
  - by repeat (eapply (run_app_some item_bytes _ _ _ _ []); [eassumption|]).
  - unfold begun_all. rewrite !bind_app. cbn.
    assert (forall s n, begun s = [] -> replicate n s ≫= begun = []) as Hrep.
    { intros s n Hs. induction n as [|n IH]; [done|]. cbn. by rewrite Hs. }
    by rewrite !Hrep.
  - unfold no_attach. repeat (apply Forall_cons; split; [done|]).
    rewrite !Forall_app. split_and!; try (by apply Forall_replicate); repeat constructor.
  - assert (forall its s n rest, numbered item_bytes its s -> begun s = [] ->
      numbered_all item_bytes its rest -> numbered_all item_bytes its (replicate n s ++ rest)) as Hrep.
    { intros l s n rest Hs Hb Hrest'. induction n as [|n IH]; [done|]. cbn. rewrite Hb, app_nil_r. done. }
    cbn. rewrite !app_nil_r. repeat (split; [done|]). split; [by split; [rewrite Hm|apply length_replicate]|].
    apply Hrep; [done|done|]. apply Hrep; [done|done|]. by cbn.
Qed.
End torn.

(** ** The properties *)

(** The publisher waits before it overwrites a slot the reader still wants:
    reader and publisher are never at the same slot. *)
Definition collide (r : t) : Prop :=
  match at_ (reader r), writer r with
  | ReadCopies _ _, WriterCopies q _ _ => slot q = slot (_next (reader r))
  | _, _ => False
  end.

Lemma paced_apart item_bytes r its : paced_ok item_bytes r its -> ~ collide r.
Proof.
  intros ([Hw [Hn _ _ Hat]] & _ & Hp). unfold collide.
  destruct (at_ (reader r)) as [| | | | | |before c|]; try (by intros []).
  destruct (writer r) as [|q item c'|] eqn:Ew; try (by intros []).
  destruct (w_at _ _ _ _ _ Hw) as (Hq & _). cbn [stored] in *. destruct Hat as [_ (i & _ & Hi)].
  apply (tl_range _ _ _ (w_timeline _ _ _ _ _ Hw)) in Hi as [_ Hr]. cbn [stored] in Hr.
  apply not_eq_sym, slot_apart. lia.
Qed.

(** C31: whatever the schedule, the numbers a reader delivers increase, and
    together with the numbers it counts as dropped they are all the numbers it
    has passed, none beyond what the publisher began. *)
Theorem reader_accounts_for_numbers item_bytes epoch schedule r out :
  run item_bytes (make item_bytes) (opening epoch ++ schedule) = Some (r, out) ->
  numbered_all item_bytes [] schedule -> no_attach schedule ->
  alen (begun_all schedule) < 2 ^ 64 - 1 ->
  ascending 0 (map fst (reads out)) (_next (reader r)) /\
  Z.of_nat (length (reads out)) + _dropped (reader r) = _next (reader r) /\
  _next (reader r) <= alen (begun_all schedule).
Proof.
  intros (o & Hr & ->)%run_opened Hn Ha Hb.
  destruct (shm_run_ok item_bytes _ schedule r o [] (ring_opened_ok item_bytes epoch) Hn Ha Hb Hr)
    as [[_ [Hnx _ _ _]] [Hacc Hasc]].
  change (reads (Attached :: o)) with (reads o). cbn in Hacc, Hasc. pose proof (stored_range item_bytes (writer r) (begun_all schedule)). cbn [app] in Hnx.
  split; [done|]. lia.
Qed.

(** One byte per item; the reader sees item 0, the publisher goes on. *)
Definition demo_schedule : list Step :=
  [Publish 0 [7]; CopyIn; StoreSequence; StorePublished; TryRead; Load (Some 2%nat); Load (Some 1%nat);
   Publish 1 [8]; CopyOut; CopyIn; Load (Some 1%nat); TryRead; Load (Some 2%nat)].

Lemma reader_accounts_for_numbers_witness :
  match run 1 (make 1) (opening 5 ++ demo_schedule) with
  | Some (r, out) =>
      out = [Attached; Read 0 [7]; ReadNothing] /\ ascending 0 (map fst (reads out)) (_next (reader r)) /\
      Z.of_nat (length (reads out)) + _dropped (reader r) = _next (reader r) /\ _next (reader r) <= 2
  | None => False
  end.
Proof.
  destruct (run 1 (make 1) (opening 5 ++ demo_schedule)) as [[r out]|] eqn:E; [|vm_compute in E; discriminate E].
  split; [vm_compute in E; by injection E|].
  apply (reader_accounts_for_numbers 1 5 demo_schedule r out E); [repeat split|repeat constructor|done].
Defined.

(** C30: if no publication begins while the reader still wants the number whose
    slot it reuses, the reader drops nothing, its successful reads are exactly
    the published items from number 0 on, in order and unaltered, and it never
    copies a slot the publisher is writing. *)
Theorem awaited_reader_gets_every_item item_bytes epoch schedule r out :
  run item_bytes (make item_bytes) (opening epoch ++ schedule) = Some (r, out) ->
  numbered_all item_bytes [] schedule -> no_attach schedule ->
  alen (begun_all schedule) < 2 ^ 64 - 1 -> paced item_bytes (opened item_bytes epoch) schedule ->
  reads out = numbered_items (begun_all schedule) 0 (_next (reader r)) /\
  _dropped (reader r) = 0 /\ ~ collide r.
Proof.
  intros (o & Hr & ->)%run_opened Hn Ha Hb Hp.
  destruct (paced_run item_bytes _ schedule r o [] (opened_paced item_bytes epoch) Hn Ha Hb Hp Hr)
    as (Hok & Ho & _). cbn [app] in *.
  split; [done|]. pose proof Hok as (_ & [Hd _] & _). split; [done|]. by apply (paced_apart item_bytes r _ Hok).
Qed.

Lemma awaited_reader_gets_every_item_witness :
  match run 1 (make 1) (opening 5 ++ demo_schedule) with
  | Some (r, out) =>
      reads out = numbered_items (begun_all demo_schedule) 0 1 /\ _dropped (reader r) = 0 /\ ~ collide r
  | None => False
  end.
Proof.
  destruct (run 1 (make 1) (opening 5 ++ demo_schedule)) as [[r out]|] eqn:E; [|vm_compute in E; discriminate E].
  assert (_next (reader r) = 1) as <- by (vm_compute in E; by injection E as <- <-).
  apply (awaited_reader_gets_every_item 1 5 demo_schedule r out E); [repeat split|repeat constructor|done|].
  vm_compute. repeat split.
Defined.

(** C32: after any schedule that leaves publisher and reader idle, call a
    [try_read] undisturbed when the publisher makes no step until it returns and
    each of its loads returns the newest store. Such a call exists, and any other
    is a beginning of it. Each one that has returned has answered [false] when
    the reader had read everything published, moving nothing; else it has
    succeeded with the oldest item at or behind the reader's position that is
    still in the ring, counting exactly the items in between as dropped. *)
Theorem undisturbed_read_finds_oldest item_bytes epoch schedule r out :
  0 < item_bytes ->
  run item_bytes (make item_bytes) (opening epoch ++ schedule) = Some (r, out) ->
  numbered_all item_bytes [] schedule -> no_attach schedule ->
  alen (begun_all schedule) < 2 ^ 64 - 1 ->
  writer r = WriterIdle -> at_ (reader r) = ReaderIdle ->
  let its := begun_all schedule in
  let next := _next (reader r) in
  let found := Z.max next (alen its - kCapacity) in
  (exists calls r' out', run item_bytes r calls = Some (r', out') /\ undisturbed_try_read item_bytes r calls /\
    at_ (reader r') = ReaderIdle /\
    forall started, undisturbed_try_read item_bytes r started -> started `prefix_of` calls) /\
  forall calls r' out', run item_bytes r calls = Some (r', out') -> undisturbed_try_read item_bytes r calls ->
    at_ (reader r') = ReaderIdle ->
    out' = (if next <? alen its then [Read found its.[found]] else [ReadNothing]) /\
    _next (reader r') = (if next <? alen its then found + 1 else next) /\
    _dropped (reader r') = _dropped (reader r) + (if next <? alen its then found - next else 0).
Proof.
  intros Hsz (o & Hr & ->)%run_opened Hn Ha Hb Hw Hat its next found.
  destruct (shm_run_ok item_bytes _ schedule r o [] (ring_opened_ok item_bytes epoch) Hn Ha Hb Hr) as [Hok _].
  cbn [app] in Hok. fold its in Hok, Hb.
  apply (undisturbed_try_read_determined item_bytes r
    (if next <? alen its then [Read found its.[found]] else [ReadNothing])). destruct (Z.ltb_spec next (alen its)) as [Hlt|Hle].
  - exact (try_read_finds item_bytes r its Hok Hw Hsz Hat Hb Hlt).
  - rewrite Z.add_0_r. exact (try_read_ends item_bytes r its Hok Hw Hat Hb Hle).
Qed.

(** Item 1 was published after the reader had found nothing new: its number is
    store 3 of the timeline, the published position store 4. *)
Lemma undisturbed_read_finds_oldest_witness :
  match run 1 (make 1) (opening 5 ++ demo_schedule ++ [StoreSequence; StorePublished]) with
  | Some (r, out) =>
      undisturbed_try_read 1 r [TryRead; Load (Some 4%nat); Load (Some 3%nat); CopyOut; Load (Some 3%nat)] /\
      forall r' out',
        run 1 r [TryRead; Load (Some 4%nat); Load (Some 3%nat); CopyOut; Load (Some 3%nat)] = Some (r', out') ->
        out' = [Read 1 [8]] /\ _next (reader r') = 2 /\ _dropped (reader r') = 0
  | None => False
  end.
Proof.
  destruct (run 1 (make 1) (opening 5 ++ demo_schedule ++ [StoreSequence; StorePublished]))
    as [[r out]|] eqn:E; [|vm_compute in E; discriminate E].
  assert (_next (reader r) = 1 /\ _dropped (reader r) = 0 /\ writer r = WriterIdle /\ at_ (reader r) = ReaderIdle)
    as (Hx & Hd & Hw & Hat) by (vm_compute in E; by injection E as <- <-).
  destruct (undisturbed_read_finds_oldest 1 5 _ r out eq_refl E) as [_ Hall];
    [repeat split|repeat constructor|done|done|done|].
  rewrite Hx, Hd in Hall.
  assert (undisturbed_try_read 1 r [TryRead; Load (Some 4%nat); Load (Some 3%nat); CopyOut; Load (Some 3%nat)]) as Hu
    by (vm_compute in E; injection E as <- <-; vm_compute; repeat split).
  split; [exact Hu|]. intros r' out' Hr. apply (Hall _ _ _ Hr Hu).
  vm_compute in E. injection E as <- <-. vm_compute in Hr. by injection Hr as <- <-.
Defined.

(** C33: the number of a slot is not taken back before the slot is overwritten:
    with a reader a full round behind, there is a schedule in which [try_read]
    succeeds with an item that was never published, half of it old and half of
    it new. *)
Theorem torn_read_is_delivered item_bytes epoch :
  2 <= item_bytes ->
  exists schedule r out k item,
    run item_bytes (make item_bytes) (opening epoch ++ schedule) = Some (r, out) /\
    numbered_all item_bytes [] schedule /\ no_attach schedule /\
    alen (begun_all schedule) < 2 ^ 64 - 1 /\
    Read k item ∈ out /\ item ∉ begun_all schedule.
Proof.
  intros Hsz. set (size := Z.to_nat item_bytes).
  assert (exists n, Z.of_nat n = kCapacity) as [n Hk].
  { exists (Z.to_nat kCapacity). apply Z2Nat.id. unfold kCapacity. lia. }
  destruct (publish_many_ok item_bytes epoch n) as (r0 & Hr0 & _ & _ & Hb0 & Hna0 & Hnum0).
  destruct (round_behind item_bytes epoch n Hk) as (r & Hr & Hok & Hw & Hd).
  rewrite Hr0 in Hr. injection Hr as ->. fold size in Hb0, Hok.
  destruct (overwritten_read item_bytes Hsz r _ Hok Hw) as (schedule & r' & Hr' & Hb & Hna & Hnum).
  { by rewrite Hd. }
  { by rewrite alen_replicate. }
  { by rewrite Hd. }
  { unfold aget. apply lookup_total_replicate_2. unfold kCapacity in Hk. lia. }
  assert (begun_all (publish_many item_bytes n ++ schedule) =
    replicate n (replicate size 0) ++ [replicate size 1]) as Hall.
  { unfold begun_all in *. by rewrite bind_app, Hb0, Hb. }
  exists (publish_many item_bytes n ++ schedule), r', ([Attached] ++ [] ++ [Read 0 (0 :: drop 1 (replicate size 1))]),
    0, (0 :: drop 1 (replicate size 1)).
  split; [|split; [|split; [|split; [|split]]]].
  - apply (run_app_some _ _ _ _ _ _ _ _ (run_opening item_bytes epoch)). by apply (run_app_some _ _ _ _ r).
  - apply numbered_all_app; [done|]. by rewrite Hb0.
  - by apply Forall_app.
  - rewrite Hall. unfold alen in *. rewrite length_app, length_replicate. cbn. unfold kCapacity in Hk. lia.
  - apply list_elem_of_In. right. by left.
  - rewrite Hall. destruct size as [|[|k]] eqn:Ek; [lia|lia|]. cbn [replicate drop].
    intros [[[=] _]%elem_of_replicate|[=]%list_elem_of_singleton]%elem_of_app.
Qed.

Lemma torn_read_is_delivered_witness :
  exists schedule r out k item,
    run 8 (make 8) (opening 1 ++ schedule) = Some (r, out) /\
    numbered_all 8 [] schedule /\ no_attach schedule /\
    alen (begun_all schedule) < 2 ^ 64 - 1 /\ Read k item ∈ out /\ item ∉ begun_all schedule.
Proof. exact (torn_read_is_delivered 8 1 ltac:(lia)). Defined.
