(* ===== verification/Binary64.v ===== *)
(** * IEEE 754 binary64, as the C++ [double] of the WonderTrader structures

    Prices become doubles in those structures and come back as integers in the
    replay tool.  The arithmetic is the specification of the standard library
    ([SpecFloat], 53 bits of mantissa, exponents up to 1024); here are the
    operations the code uses and the error bound that makes the round trip of
    a price exact. *)

From Stdlib Require SpecFloat.
From S2P Require Import Prelude.

Module Double.
Import SpecFloat.

Definition t : Type := spec_float.

Definition of_Z (x : Z) : t := binary_normalize 53 1024 x 0 false.
Definition mul (x y : t) : t := SFmul 53 1024 x y.
Definition div (x y : t) : t := SFdiv 53 1024 x y.
Definition add (x y : t) : t := SFadd 53 1024 x y.
Definition sub (x y : t) : t := SFsub 53 1024 x y.
(** [x <= y]; false when one is not a number. *)
Definition leb (x y : t) : bool := SFleb x y.

(** [x < y] *)
Definition ltb (x y : t) : bool := SFltb x y.

(** [std::ceil], as the integer it is; 0 for what is not a number. *)
Definition ceil (x : t) : Z :=
  match x with
  | S754_finite s m e =>
      if 0 <=? e then cond_Zopp s (Z.pos m * 2 ^ e)
      else - (- cond_Zopp s (Z.pos m) / 2 ^ (- e))
  | _ => 0
  end.

(** [std::llround]: to the nearest integer, halves away from zero.  What it
    gives for an infinity or a NaN is unspecified in C++. *)
Definition llround (x : t) : Z :=
  match x with
  | S754_finite s m e =>
      cond_Zopp s (if 0 <=? e then Z.pos m * 2 ^ e else (Z.pos m + 2 ^ (- e - 1)) / 2 ^ (- e))
  | S754_zero _ => 0
  | S754_infinity _ | S754_nan => - 2 ^ 63
  end.

(** The 64 bits of the representation; every NaN the arithmetic makes is the
    quiet one. *)
Definition bits (x : t) : Z :=
  match x with
  | S754_zero s => if s then 2 ^ 63 else 0
  | S754_infinity s => (if s then 2 ^ 63 else 0) + 2047 * 2 ^ 52
  | S754_nan => 4095 * 2 ^ 51
  | S754_finite s m e =>
      (if s then 2 ^ 63 else 0) +
      (if Z.pos m <? 2 ^ 52 then Z.pos m else (e + 1075) * 2 ^ 52 + (Z.pos m - 2 ^ 52))
  end.

(** ** Rounding *)

Lemma digits_log2 m : 0 < m -> Zdigits2 m = Z.log2 m + 1.
Proof.
  destruct m as [|p|]; [lia| |lia]. intros _. cbn [Zdigits2].
  change (Z.pos (Pos.size p) = Z.log2 (Z.pos p) + 1). destruct p; cbn; lia.
Qed.

Lemma shr_1_half r : 0 <= shr_m r -> shr_m (shr_1 r) = shr_m r / 2.
Proof.
  destruct r as [m b c]. cbn [shr_m]. intros Hm.
  destruct m as [|[p|p|]|]; cbn [shr_1 shr_m]; [done|dlia|dlia|done|lia].
Qed.

Lemma iter_shr (n : positive) r :
  0 <= shr_m r -> shr_m (iter_pos shr_1 n r) = shr_m r / 2 ^ Z.pos n.
Proof.
  revert r. induction n as [n IH|n IH|]; intros r Hr; cbn [iter_pos].
  - pose proof (shr_1_half r Hr) as H1. assert (0 <= shr_m r / 2) by dlia.
    rewrite IH, IH, H1 by (rewrite ?IH, ?H1; try lia; apply Z.div_pos; lia).
    rewrite !Z.div_div by lia. f_equal.
    rewrite <- Z.pow_add_r by lia. rewrite <- (Z.pow_1_r 2) at 1. rewrite <- Z.pow_add_r by lia.
    f_equal. lia.
  - rewrite IH, IH by (rewrite ?IH; try lia; apply Z.div_pos; lia).
    rewrite Z.div_div by lia. f_equal. rewrite <- Z.pow_add_r by lia. f_equal. lia.
  - by apply shr_1_half.
Qed.

Lemma fexp_normal x : -1021 <= x -> fexp 53 1024 x = x - 53.
Proof. unfold fexp, emin. lia. Qed.

(** Shifting a mantissa of at least 53 bits leaves exactly 53. *)
Lemma shr_fexp_spec m e l :
  2 ^ 52 <= m -> -1074 <= e ->
  let n := Z.log2 m - 52 in
  (shr_m (shr_fexp 53 1024 m e l).1 = m / 2 ^ n) /\ (shr_fexp 53 1024 m e l).2 = e + n.
Proof.
  intros Hm He n. assert (52 <= Z.log2 m) by (apply Z.log2_le_pow2; lia).
  assert (shr_m (shr_record_of_loc m l) = m) as Hr by (by destruct l as [|[]]).
  unfold shr_fexp. rewrite digits_log2, fexp_normal by lia.
  replace (Z.log2 m + 1 + e - 53 - e) with n by lia. unfold shr.
  destruct n as [|k|k] eqn:Hn; [|rewrite <- Hn in *|lia]; cbn [fst snd].
  - by rewrite Hr, Z.pow_0_r, Z.div_1_r, Z.add_0_r.
  - rewrite iter_shr by (rewrite Hr; lia). by rewrite Hr, <- Hn.
Qed.

Lemma mantissa_range m n : 2 ^ 52 <= m -> n = Z.log2 m - 52 -> 2 ^ 52 <= m / 2 ^ n < 2 ^ 53.
Proof.
  intros Hm ->. destruct (Z.log2_spec m) as [Hl Hh]; [lia|].
  assert (52 <= Z.log2 m) by (apply Z.log2_le_pow2; lia).
  split.
  - apply Z.div_le_lower_bound; [by apply Z.pow_pos_nonneg; lia|].
    rewrite <- Z.pow_add_r by lia. by replace (_ + _) with (Z.log2 m) by lia.
  - apply Z.div_lt_upper_bound; [by apply Z.pow_pos_nonneg; lia|].
    rewrite <- Z.pow_add_r by lia. by replace (_ + _) with (Z.succ (Z.log2 m)) by lia.
Qed.

Lemma round_nearest_near m l : m <= round_nearest_even m l <= m + 1.
Proof. destruct l as [|[]]; cbn; repeat case_match; lia. Qed.

(** The rounding error is at most a unit of the last place kept. *)
Lemma binary_round_spec m e l :
  2 ^ 52 <= m < 2 ^ 107 -> -1074 <= e <= 900 ->
  let n := Z.log2 m - 52 in
  exists M E, binary_round_aux 53 1024 false m e l = S754_finite false M E /\
    2 ^ 52 <= Z.pos M < 2 ^ 53 /\ e + n <= E <= e + n + 1 /\
    Z.abs (Z.pos M * 2 ^ (E - e) - m) <= 2 ^ n.
Proof.
  intros Hm He n. assert (52 <= Z.log2 m < 107) by
    (split; [apply Z.log2_le_pow2; lia|apply Z.log2_lt_pow2; lia]).
  unfold binary_round_aux.
  destruct (shr_fexp_spec m e l) as [H1 H2]; [lia..|]. fold n in H1, H2.
  destruct (shr_fexp 53 1024 m e l) as [r1 e1]. cbn [fst snd] in H1, H2.
  pose proof (mantissa_range m n ltac:(lia) eq_refl) as Hq.
  pose proof (round_nearest_near (shr_m r1) (loc_of_shr_record r1)) as Hnear.
  rewrite H1 in *. set (q := m / 2 ^ n) in *.
  set (v := round_nearest_even q (loc_of_shr_record r1)) in *.
  assert (0 < 2 ^ n) by (apply Z.pow_pos_nonneg; lia).
  assert (q * 2 ^ n <= m < q * 2 ^ n + 2 ^ n) as Hdiv.
  { unfold q. pose proof (Z.mod_pos_bound m (2 ^ n)). pose proof (Z.div_mod m (2 ^ n)). lia. }
  destruct (shr_fexp_spec v e1 loc_Exact) as [H3 H4]; [lia..|].
  destruct (shr_fexp 53 1024 v e1 loc_Exact) as [r2 e2]. cbn [fst snd] in H3, H4.
  pose proof (mantissa_range v _ ltac:(lia) eq_refl) as Hw. rewrite <- H3 in Hw.
  destruct (shr_m r2) as [|M|]; [lia| |lia].
  assert (Z.log2 v = 52 \/ v = 2 ^ 53) as Hv.
  { destruct (decide (v = 2 ^ 53)); [by right|left].
    apply Z.log2_unique; [lia|]. change (Z.succ 52) with 53. lia. }
  exists M, e2. rewrite (proj2 (Z.leb_le _ _)).
  - split; [done|]. split; [done|].
    destruct Hv as [Hv|Hv].
    + rewrite Hv in H3, H4. change (52 - 52) with 0 in H3, H4. rewrite Z.div_1_r in H3.
      split; [lia|]. rewrite H3. replace (e2 - e) with n by lia.
      clear -Hnear Hdiv. nia.
    + rewrite Hv in H3, H4. change (Z.log2 (2 ^ 53) - 52) with 1 in H3, H4.
      change (2 ^ 53 / 2 ^ 1) with (2 ^ 52) in H3. split; [lia|]. rewrite H3.
      replace (e2 - e) with (Z.succ n) by lia. rewrite Z.pow_succ_r by lia.
      replace (2 ^ 52 * (2 * 2 ^ n)) with (v * 2 ^ n) by (rewrite Hv; lia).
      clear -Hnear Hdiv. nia.
  - destruct Hv as [Hv|Hv]; rewrite Hv in H4; [|change (Z.log2 (2 ^ 53)) with 53 in H4]; lia.
Qed.

(** ** Conversions of integers *)

Lemma round_exact m e :
  2 ^ 52 <= Z.pos m < 2 ^ 53 -> -1074 <= e <= 900 ->
  binary_round_aux 53 1024 false (Z.pos m) e loc_Exact = S754_finite false m e.
Proof.
  intros Hm He. assert (Z.log2 (Z.pos m) = 52) as Hl by
    (apply Z.log2_unique; [lia|]; change (Z.succ 52) with 53; lia).
  unfold binary_round_aux, shr_fexp.
  rewrite !digits_log2, Hl, fexp_normal by lia. replace (52 + 1 + e - 53 - e) with 0 by lia.
  cbn [shr shr_record_of_loc loc_of_shr_record round_nearest_even shr_m].
  rewrite digits_log2, Hl, fexp_normal by lia. replace (52 + 1 + e - 53 - e) with 0 by lia.
  cbn [shr shr_record_of_loc shr_m]. by rewrite (proj2 (Z.leb_le _ _)) by lia.
Qed.

Lemma iter_xO d m : Z.pos (Pos.iter xO m d) = Z.pos m * 2 ^ Z.pos d.
Proof.
  induction d as [|d IH] using Pos.peano_ind; [cbn; lia|].
  rewrite Pos.iter_succ. change (Z.pos (xO (Pos.iter xO m d))) with (2 * Z.pos (Pos.iter xO m d)).
  rewrite IH. rewrite Pos2Z.inj_succ, Z.pow_succ_r by lia. lia.
Qed.

(** A 32-bit integer is a double. *)
Lemma of_Z_spec p :
  0 < p < 2 ^ 32 ->
  exists m, of_Z p = S754_finite false m (Z.log2 p - 52) /\ Z.pos m = p * 2 ^ (52 - Z.log2 p) /\
    2 ^ 52 <= Z.pos m < 2 ^ 53.
Proof.
  intros Hp. destruct p as [|p|]; [lia| |lia].
  assert (0 <= Z.log2 (Z.pos p) < 32) by
    (split; [apply Z.log2_nonneg|apply Z.log2_lt_pow2; lia]).
  unfold of_Z, binary_normalize, binary_round, shl_align.
  change (Z.pos (digits2_pos p)) with (Zdigits2 (Z.pos p)). rewrite digits_log2, fexp_normal by lia.
  replace (Z.log2 (Z.pos p) + 1 + 0 - 53 - 0) with (- (52 - Z.log2 (Z.pos p))) by lia.
  destruct (52 - Z.log2 (Z.pos p)) as [|d|] eqn:Hd; [lia| |lia]. cbn [Z.opp].
  exists (Pos.iter xO p d). pose proof (iter_xO d p) as Hm.
  assert (2 ^ 52 <= Z.pos (Pos.iter xO p d) < 2 ^ 53) as Hr.
  { rewrite Hm, <- Hd. destruct (Z.log2_spec (Z.pos p)) as [Hl Hh]; [lia|].
    assert (2 ^ 52 = 2 ^ Z.log2 (Z.pos p) * 2 ^ (52 - Z.log2 (Z.pos p))) as H52
      by (rewrite <- Z.pow_add_r by lia; f_equal; lia).
    assert (2 ^ 53 = 2 ^ Z.succ (Z.log2 (Z.pos p)) * 2 ^ (52 - Z.log2 (Z.pos p))) as H53
      by (rewrite <- Z.pow_add_r by lia; f_equal; lia).
    rewrite H52, H53. assert (0 < 2 ^ (52 - Z.log2 (Z.pos p))) by (apply Z.pow_pos_nonneg; lia).
    split; [apply Z.mul_le_mono_nonneg_r; lia|apply Z.mul_lt_mono_pos_r; lia]. }
  change (- Z.pos d) with (Z.neg d). cbv beta iota zeta.
  change (PosDef.Pos.iter xO p d) with (Pos.iter xO p d).
  rewrite round_exact by lia. split; [f_equal; lia|]. by split.
Qed.

(** ** The price of a message

    [static_cast<double>(ticks) / 10000.0] and back, as the replay tool does. *)

Definition of_ticks (ticks : Z) : t := div (of_Z ticks) (of_Z 10000).
Definition to_ticks (x : t) : Z := llround (mul x (of_Z 10000)).

Lemma divide_round p :
  0 < p < 2 ^ 32 ->
  exists M E, of_ticks p = S754_finite false M E /\ 2 ^ 52 <= Z.pos M < 2 ^ 53 /\
    Z.log2 p - 66 <= E <= Z.log2 p - 64 /\
    Z.abs (Z.pos M * 2 ^ (E - Z.log2 p + 66) * 10000 * 2 ^ 39 - p * 2 ^ (105 - Z.log2 p)) <=
      3 * 10000 * 2 ^ 39.
Proof.
  intros Hp. destruct (of_Z_spec p Hp) as (m & Hm & Hv & Hr).
  set (k := Z.log2 p) in *.
  assert (0 <= k < 32) by (split; [apply Z.log2_nonneg|apply Z.log2_lt_pow2; lia]).
  assert (Z.log2 (Z.pos m) = 52) as Hl by
    (apply Z.log2_unique; [lia|]; change (Z.succ 52) with 53; lia).
  unfold of_ticks, div. rewrite Hm.
  change (of_Z 10000) with (S754_finite false 5497558138880000 (-39)).
  cbn [SFdiv]. unfold SFdiv_core_binary. rewrite !digits_log2, Hl by lia.
  change (Z.log2 5497558138880000) with 52. rewrite fexp_normal by lia.
  replace (Z.min (52 + 1 + (k - 52) - (52 + 1 + -39) - 53) (k - 52 - -39)) with (k - 66) by lia.
  replace (k - 52 - -39 - (k - 66)) with 53 by lia.
  rewrite Z.shiftl_mul_pow2 by lia.
  destruct (Z.div_eucl (Z.pos m * 2 ^ 53) 5497558138880000) as [q r] eqn:Hqr.
  pose proof (Z_div_mod (Z.pos m * 2 ^ 53) 5497558138880000 eq_refl) as Hd. rewrite Hqr in Hd.
  destruct Hd as [Hd Hrem]. cbn [xorb].
  destruct (binary_round_spec q (k - 66) (new_location 5497558138880000 r)) as (M & E & -> & HM & HE & Herr);
    [lia..|].
  exists M, E. split; [done|]. split; [done|].
  assert (52 <= Z.log2 q < 54) by (split; [apply Z.log2_le_pow2; lia|apply Z.log2_lt_pow2; lia]).
  split; [lia|]. replace (E - (k - 66)) with (E - k + 66) in Herr by lia.
  assert (2 ^ (Z.log2 q - 52) <= 2) as H2 by (change 2 with (2 ^ 1) at 2; apply Z.pow_le_mono_r; lia).
  assert (p * 2 ^ (105 - k) = Z.pos m * 2 ^ 53) as ->.
  { rewrite Hv, <- Z.mul_assoc, <- Z.pow_add_r by lia. do 2 f_equal. lia. }
  generalize dependent (Z.pos M * 2 ^ (E - k + 66)). intros Q HQ.
  change (10000 * 2 ^ 39) with 5497558138880000. lia.
Qed.

Lemma llround_near M E p :
  E < 0 -> Z.abs (2 * (Z.pos M - p * 2 ^ (- E))) < 2 ^ (- E) -> llround (S754_finite false M E) = p.
Proof.
  intros HE Hp. unfold llround, cond_Zopp. rewrite (proj2 (Z.leb_gt _ _)) by done.
  symmetry. assert (2 ^ (- E) = 2 * 2 ^ (- E - 1)) as H2.
  { rewrite <- Z.pow_succ_r by lia. f_equal. lia. }
  apply Z.div_unique with (Z.pos M + 2 ^ (- E - 1) - 2 ^ (- E) * p); [|lia].
  left. assert (0 < 2 ^ (- E - 1)) by (apply Z.pow_pos_nonneg; lia). lia.
Qed.

Lemma multiply_near p M E :
  0 < p < 2 ^ 32 -> 2 ^ 52 <= Z.pos M < 2 ^ 53 -> Z.log2 p - 66 <= E <= Z.log2 p - 64 ->
  Z.abs (Z.pos M * 2 ^ (E - Z.log2 p + 66) * 10000 * 2 ^ 39 - p * 2 ^ (105 - Z.log2 p)) <=
    3 * 10000 * 2 ^ 39 ->
  exists M' E', mul (S754_finite false M E) (of_Z 10000) = S754_finite false M' E' /\
    Z.log2 p - 105 <= E' < 0 /\
    Z.abs (Z.pos M' * 2 ^ (E' - Z.log2 p + 105) - p * 2 ^ (105 - Z.log2 p)) <= 2 ^ 56.
Proof.
  intros Hp HM HE Hnear. set (k := Z.log2 p) in *.
  assert (0 <= k < 32) by (split; [apply Z.log2_nonneg|apply Z.log2_lt_pow2; lia]).
  unfold mul. change (of_Z 10000) with (S754_finite false 5497558138880000 (-39)). cbn [SFmul xorb].
  change (Z.add E (-39)) with (E + -39).
  set (m := Z.pos (PosDef.Pos.mul M 5497558138880000)).
  assert (m = Z.pos M * 5497558138880000) as Hm by done.
  destruct (binary_round_spec m (E + -39) loc_Exact) as (M' & E' & -> & HM' & HE' & Herr);
    [rewrite Hm; lia|lia|].
  assert (104 <= Z.log2 m < 106) by
    (rewrite Hm; split; [apply Z.log2_le_pow2; lia|apply Z.log2_lt_pow2; lia]).
  exists M', E'. split; [done|]. split; [lia|].
  assert (2 ^ (Z.log2 m - 52) <= 2 ^ 53) by (apply Z.pow_le_mono_r; lia).
  assert (0 < 2 ^ (E - k + 66) <= 2 ^ 2) by
    (split; [apply Z.pow_pos_nonneg; lia|apply Z.pow_le_mono_r; lia]).
  replace (E' - k + 105) with ((E' - (E + -39)) + (E - k + 66)) by lia.
  rewrite Z.pow_add_r by lia. rewrite Hm in Herr, H1.
  clear -Hnear Herr H1 H2.
  revert Hnear Herr H1 H2. generalize (2 ^ (E' - (E + -39))) as A, (2 ^ (E - k + 66)) as B.
  generalize (2 ^ (Z.log2 (Z.pos M * 5497558138880000) - 52)) as C, (p * 2 ^ (105 - k)) as P. intros P C A B Hnear Herr HC HB.
  assert (Z.abs (Z.pos M' * A * B - Z.pos M * 5497558138880000 * B) <= 2 ^ 53 * 2 ^ 2).
  { rewrite <- Z.mul_sub_distr_r, Z.abs_mul. apply Z.mul_le_mono_nonneg; lia. }
  rewrite Z.mul_assoc. lia.
Qed.

(** Every 32-bit price survives the double. *)
Lemma ticks_round_trip p : 0 <= p < 2 ^ 32 -> to_ticks (of_ticks p) = p.
Proof.
  intros Hp. destruct (decide (p = 0)) as [->|Hne]; [reflexivity|].
  assert (0 < p < 2 ^ 32) as Hp' by lia.
  destruct (divide_round p Hp') as (M & E & -> & HM & HE & Hnear).
  destruct (multiply_near p M E Hp' HM HE Hnear) as (M' & E' & Hmul & HE' & Herr).
  unfold to_ticks. rewrite Hmul. apply llround_near; [lia|].
  assert (0 <= Z.log2 p < 32) by (split; [apply Z.log2_nonneg|apply Z.log2_lt_pow2; lia]).
  set (k := Z.log2 p) in *.
  assert (2 ^ (105 - k) = 2 ^ (E' - k + 105) * 2 ^ (- E')) as Hs by
    (rewrite <- Z.pow_add_r by lia; f_equal; lia).
  assert (2 ^ 74 <= 2 ^ (105 - k)) by (apply Z.pow_le_mono_r; lia).
  assert (0 < 2 ^ (E' - k + 105)) by (apply Z.pow_pos_nonneg; lia).
  rewrite Hs in *. revert Herr H0 H1.
  generalize (2 ^ (E' - k + 105)) as A, (2 ^ (- E')) as B. intros A B Herr H0 H1. clear -Herr H0 H1.
  replace (Z.pos M' * A - p * (A * B)) with (A * (Z.pos M' - p * B)) in Herr by lia.
  rewrite Z.abs_mul, (Z.abs_eq A) in Herr by lia. rewrite Z.abs_mul. change (Z.abs 2) with 2.
  apply (Z.mul_lt_mono_pos_l A); [done|]. lia.
Qed.

End Double.
