(* ===== verification/WtsTypes.v ===== *)
(** * third_party/wondertrader/WTSStruct.h (order details and transactions)

    The structures the WonderTrader adapter publishes.  A character array is
    the list of its bytes, a price is a double. *)

From Stdlib Require Import Ascii.
From S2P Require Import Prelude Itch50 Binary64.
Import itch50.

Definition MAX_EXCHANGE_LENGTH : Z := 16.
Definition MAX_INSTRUMENT_LENGTH : Z := 32.

(** The character constants the structures hold. *)
Definition BDT_Buy : Z := chr "B".
Definition BDT_Sell : Z := chr "S".
Definition BDT_Unknown : Z := chr " ".
Definition TT_Match : Z := chr "M".
Definition TT_Cancel : Z := chr "C".
Definition ODT_AnyPrice : Z := chr "1".
Definition ODT_LimitPrice : Z := chr "2".

Module WTSOrdDtlStruct.
Record t := mk {
  exchg : list Z;
  code : list Z;
  trading_date : Z;
  action_date : Z;
  action_time : Z;
  index : Z;
  price : Double.t;
  volume : Z;
  side : Z;
  otype : Z
}.
End WTSOrdDtlStruct.

Module WTSTransStruct.
(** [index], [askorder] and [bidorder] are signed. *)
Record t := mk {
  exchg : list Z;
  code : list Z;
  trading_date : Z;
  action_date : Z;
  action_time : Z;
  index : Z;
  ttype : Z;
  side : Z;
  price : Double.t;
  volume : Z;
  askorder : Z;
  bidorder : Z
}.
End WTSTransStruct.

(** A call of a sink. *)
Inductive WtsCall :=
  | on_order_detail (event : WTSOrdDtlStruct.t)
  | on_transaction (event : WTSTransStruct.t).
