(* ===== verification/Level2.v ===== *)
(** * src/Level2Pipeline.cpp

    The three threads of the Level-2 pipeline: [main] publishes the events into
    the shared-memory ring, a reader follows it and hands them on through the
    SPSC ring, a consumer enters them into an order book.  The threads take
    turns at will; the rings move by their own steps ([ShmRing], [SpscRing]).
    The atomics between the threads are modification orders as in [SpscRing];
    the clock is an argument of the steps that read it. *)

From S2P Require Import Prelude BookTypes DenseBook PriceTimeBook Binary64 WtsTypes SpscRing ShmRing.

Module Level2Pipeline.

(** ** The book *)

(** What the consumer uses of a book: [WT_DENSE_ORDERBOOK] chooses which. *)
Class OrderBook (B : Type) := {
  submit : B -> OrderRequest.t -> list SinkEvent -> B * bool * list SinkEvent;
  best_ask : B -> Z
}.

#[global] Instance reference_book : OrderBook PriceTimeOrderBook.t :=
  {| submit := PriceTimeOrderBook.submit; best_ask := PriceTimeOrderBook.best_ask |}.
#[global] Instance dense_book : OrderBook DensePriceOrderBook.t :=
  {| submit := DensePriceOrderBook.submit; best_ask := DensePriceOrderBook.best_ask |}.

(** ** Data *)

Module BookEvent.
Record t := mk {
  id : Z;
  price : Z;
  quantity : Z;
  source_ns : Z;
  shm_ns : Z;
  side : Side;
  type : OrderType
}.
End BookEvent.

#[global] Instance book_event_inhabited : Inhabited BookEvent.t :=
  populate (BookEvent.mk 0 0 0 0 0 Buy Limit).

Module StageSample.
Record t := mk { shm : Z; spsc : Z; book_strategy : Z; end_to_end : Z }.
End StageSample.

Module PipelineSink.
Record t := mk { trades : Z; updates : Z; volume : Z }.
#[global] Instance eta_sink : Eta t := fun s => mk (trades s) (updates s) (volume s).
End PipelineSink.
Import PipelineSink.

Definition sink_call (s : PipelineSink.t) (e : SinkEvent) : PipelineSink.t :=
  match e with
  | on_trade trade => s <| trades ::= incr |> <| volume ::= fun v => u64 (v + Trade.quantity trade) |>
  | on_order _ => s <| updates ::= incr |>
  end.

(** The object representation of a [DataItem] of type [OrderDetail], and the
    order read back from such bytes. *)
Class DataItem := {
  data_item : WTSOrdDtlStruct.t -> list Z;
  order : list Z -> WTSOrdDtlStruct.t
}.

(** ** The source *)

(** An element of [load_events] without a file, at [i]. *)
Definition generated_event (i : Z) : WTSOrdDtlStruct.t :=
  let even := Z.land i 1 =? 0 in
  WTSOrdDtlStruct.mk (replicate (Z.to_nat MAX_EXCHANGE_LENGTH) 0)
    (replicate (Z.to_nat MAX_INSTRUMENT_LENGTH) 0) 0 0 0
    (u64 (i + 1))
    (if even then Double.sub (Double.of_Z 99) (Double.of_Z (Z.land i 7))
     else Double.add (Double.of_Z 101) (Double.of_Z (Z.land i 7)))
    (u32 (1 + Z.land i 15))
    (if even then BDT_Buy else BDT_Sell)
    ODT_LimitPrice.

Definition generated_events (count : nat) : list WTSOrdDtlStruct.t :=
  map (fun i => generated_event (Z.of_nat i)) (seq 0 count).

Module PriceWindow.
Record t := mk { minimum : Z; tick_size : Z; levels : Z }.
End PriceWindow.

(** [static_cast<int64_t>(std::llround(event.price * 10000.0))] *)
Definition ticks (event : WTSOrdDtlStruct.t) : Z := Double.to_ticks (WTSOrdDtlStruct.price event).

(** The loop of [infer_price_window]: minimum, maximum, first, tick. *)
Definition window_step (w : Z * Z * Z * Z) (event : WTSOrdDtlStruct.t) : Z * Z * Z * Z :=
  let '(minimum, maximum, first, tick) := w in
  if Double.leb (WTSOrdDtlStruct.price event) (Double.of_Z 0) then w
  else
    let price := ticks event in
    let minimum := Z.min minimum price in
    let maximum := Z.max maximum price in
    if first =? 0 then (minimum, maximum, price, tick)
    else (minimum, maximum, first, Z.gcd tick (Z.abs (price - first))).

(** [None] is the [abort]. *)
Definition infer_price_window (events : list WTSOrdDtlStruct.t) : option PriceWindow.t :=
  let '(minimum, maximum, first, tick) := foldl window_step (i64_max, 0, 0, 0) events in
  if minimum =? i64_max then Some (PriceWindow.mk 1 1 1)
  else
    let tick := if tick =? 0 then 1 else tick in
    let levels := Z.quot (maximum - minimum) tick + 1 in
    if u32_max <? levels then None else Some (PriceWindow.mk minimum tick levels).

Definition book_capacity (size : Z) : Z := size + size / 1024 + 64.

(** ** The threads *)

(** Where [main] is in its loop. *)
Inductive Publisher :=
  | PublisherStarts
  | PublisherWaits
  | PublisherStamps
  | Publishes
  | PublisherPaced
  | PublisherDone.

(** Where the [shm_reader] thread is. *)
Inductive Reader :=
  | ReaderAttaches
  | ReaderAttaching
  | ReaderWaits
  | ReaderLoops
  | ReaderReads
  | ReaderHas (sequence : Z) (item : list Z)
  | ReaderPushes (sequence : Z) (event : BookEvent.t)
  | ReaderStores (sequence : Z)
  | ReaderDone.

(** Where the [consumer] thread is. *)
Inductive Consumer :=
  | ConsumerWaits
  | ConsumerLoops
  | ConsumerPops
  | ConsumerHas (event : BookEvent.t)
  | ConsumerStores
  | ConsumerDone.

Section pipeline.
Context {B : Type} `{OrderBook B} `{DataItem} (item_bytes : Z).
Context (source : list WTSOrdDtlStruct.t) (paced : bool).

(** [hftbench::SpscRing<BookEvent, 65536>] *)
Definition spsc_capacity : Z := 65536.

(** What the consumer alone works on. *)
Record Books := mkBooks {
  book : B;
  sink : PipelineSink.t;
  simulated_orders : Z;
  received : Z;
  refused : bool
}.

#[global] Instance eta_books : Eta Books := fun b =>
  mkBooks (book b) (sink b) (simulated_orders b) (received b) (refused b).

Record t := mk {
  shm : ShmRingProtocol.t;
  spsc : SpscRing.t (T := BookEvent.t);
  source_time : list Z;
  samples : list StageSample.t;
  shm_consumed : list Z;
  completed : list Z;
  start : bool;
  failed : bool;
  publisher : Publisher;
  sequence : Z;
  seen_consumed : nat;
  seen_completed : nat;
  reader : Reader;
  consumer : Consumer;
  books : Books
}.

#[global] Instance eta_pipeline : Eta t := fun p =>
  mk (shm p) (spsc p) (source_time p) (samples p) (shm_consumed p) (completed p) (start p) (failed p)
    (publisher p) (sequence p) (seen_consumed p) (seen_completed p) (reader p) (consumer p) (books p).

Definition size : Z := alen source.

(** [Mapping], the rings and the counters; the threads know the epoch, stored
    before they were created. *)
Definition make (epoch : Z) (empty : B) : t :=
  mk ((ShmRingProtocol.store (ShmRingProtocol.make item_bytes) ShmRingProtocol.Epoch epoch)
        <| ShmRingProtocol.reader ::= fun d => d <| ShmRingProtocol.known := 1%nat |> |>)
    (SpscRing.make spsc_capacity)
    (replicate (length source) 0) [] [0] [0] false false
    PublisherStarts 0 0 0 ReaderAttaches ConsumerWaits
    (mkBooks empty (PipelineSink.mk 0 0 0) 0 0 false).

(** A load of an atomic that may not go back behind [seen]. *)
Definition load (order : list Z) (seen position : nat) : option Z :=
  if (position <? seen)%nat then None else order !! position.

(** *** [main] *)

Inductive PublisherStep :=
  | Start
  | LoadConsumed (position : nat)
  | Stamp (now : Z)
  | PublishStep (s : ShmRingProtocol.Step)
  | LoadCompleted (position : nat).

(** The head of the loop over [sequence]. *)
Definition next_sequence (p : t) : t :=
  p <| publisher := if sequence p <? size then PublisherWaits else PublisherDone |>.

Definition publish_step (p : t) (s : ShmRingProtocol.Step) : option t :=
  match s with
  | ShmRingProtocol.CopyIn | ShmRingProtocol.StoreSequence | ShmRingProtocol.StorePublished =>
      '(shm', _) ← ShmRingProtocol.step item_bytes (shm p) s;
      let p := p <| shm := shm' |> in
      Some match s with
      | ShmRingProtocol.StorePublished =>
          if paced then p <| publisher := PublisherPaced |>
          else next_sequence (p <| sequence ::= fun n => n + 1 |>)
      | _ => p
      end
  | _ => None
  end.

Definition publisher_step (p : t) (s : PublisherStep) : option t :=
  match s, publisher p with
  | Start, PublisherStarts => Some (next_sequence (p <| start := true |>))
  | LoadConsumed position, PublisherWaits =>
      consumed ← load (shm_consumed p) (seen_consumed p) position;
      let p := p <| seen_consumed := position |> in
      Some (if u64 (consumed + ShmRingProtocol.kCapacity - 1) <=? sequence p then p
            else p <| publisher := PublisherStamps |>)
  | Stamp now, PublisherStamps =>
      event ← source !! Z.to_nat (sequence p);
      let p := p <| source_time ::= fun a => a.[sequence p <- now] |> in
      '(shm', _) ← ShmRingProtocol.step item_bytes (shm p)
        (ShmRingProtocol.Publish (sequence p) (data_item event));
      Some (p <| shm := shm' |> <| publisher := Publishes |>)
  | PublishStep s, Publishes => publish_step p s
  | LoadCompleted position, PublisherPaced =>
      done ← load (completed p) (seen_completed p) position;
      let p := p <| seen_completed := position |> in
      Some (if negb (done =? sequence p + 1) then p
            else next_sequence (p <| sequence ::= fun n => n + 1 |>))
  | _, _ => None
  end.

(** *** [shm_reader] *)

Inductive ReaderStep :=
  | ReaderGoes
  | ReaderShm (s : ShmRingProtocol.Step)
  | MakeEvent (now : Z)
  | PushStep (s : SpscRing.Step (T := BookEvent.t)).

Definition make_event (o : WTSOrdDtlStruct.t) (source_ns now : Z) : BookEvent.t :=
  BookEvent.mk (WTSOrdDtlStruct.index o) (ticks o) (WTSOrdDtlStruct.volume o) source_ns now
    (if WTSOrdDtlStruct.side o =? BDT_Buy then Buy else Sell)
    (if WTSOrdDtlStruct.otype o =? ODT_AnyPrice then Market else Limit).

(** A step of a call on the shared-memory ring. *)
Definition reader_shm (p : t) (s : ShmRingProtocol.Step) : option t :=
  '(shm', out) ← ShmRingProtocol.step item_bytes (shm p) s;
  let p := p <| shm := shm' |> in
  Some match out with
  | [ShmRingProtocol.Attached] => p <| reader := ReaderWaits |>
  | [ShmRingProtocol.ReadNothing] => p <| reader := ReaderLoops |>
  | [ShmRingProtocol.Read n item] => p <| reader := ReaderHas n item |>
  | _ => p
  end.

(** [while (!spsc.try_push(event)) yield]; [reader.next_sequence()] is [_next]. *)
Definition push_step (p : t) (n : Z) (s : SpscRing.Step (T := BookEvent.t)) : option t :=
  '(spsc', out) ← SpscRing.step spsc_capacity (spsc p) s;
  let p := p <| spsc := spsc' |> in
  Some match out with
  | [SpscRing.PushReturned _ Pushed] => p <| reader := ReaderStores n |>
  | _ => p
  end.

Definition reader_step (p : t) (s : ReaderStep) : option t :=
  let d := ShmRingProtocol.reader (shm p) in
  match s, reader p with
  | ReaderGoes, ReaderAttaches =>
      reader_shm (p <| reader := ReaderAttaching |>) (ShmRingProtocol.Attach false)
  | ReaderGoes, ReaderWaits =>
      if start p then Some (p <| reader := ReaderLoops |>) else Some p
  | ReaderGoes, ReaderLoops =>
      if ShmRingProtocol._next d <? size
      then reader_shm (p <| reader := ReaderReads |>) ShmRingProtocol.TryRead
      else
        let p := if negb (ShmRingProtocol._dropped d =? 0) then p <| failed := true |> else p in
        Some (p <| reader := ReaderDone |>)
  | ReaderShm s, (ReaderAttaching | ReaderReads) =>
      match s with
      | ShmRingProtocol.Load _ | ShmRingProtocol.CopyOut => reader_shm p s
      | _ => None
      end
  | MakeEvent now, ReaderHas n item =>
      Some (p <| reader := ReaderPushes n (make_event (order item) (source_time p).[n] now) |>)
  | PushStep s, ReaderPushes n event =>
      match s with
      | SpscRing.Push _ _ _ => push_step p n (SpscRing.Push event Reject false)
      | SpscRing.LoadTail _ | SpscRing.WriteSlot | SpscRing.Publish => push_step p n s
      | _ => None
      end
  | ReaderGoes, ReaderStores n =>
      Some (p <| shm_consumed ::= fun l => l ++ [n + 1] |> <| reader := ReaderLoops |>)
  | _, _ => None
  end.

(** *** [consumer] *)

Inductive ConsumerStep :=
  | ConsumerGoes
  | PopStep (s : SpscRing.Step (T := BookEvent.t))
  | Process (book_begin finish : Z).

Definition request (e : BookEvent.t) : OrderRequest.t :=
  OrderRequest.mk (BookEvent.id e) (BookEvent.side e) (BookEvent.type e) (BookEvent.price e)
    (BookEvent.quantity e).

Definition submit_to (b : Books) (r : OrderRequest.t) : Books :=
  let '(book', accepted, out) := submit (book b) r [] in
  let b := b <| book := book' |> <| sink ::= fun s => foldl sink_call s out |> in
  if accepted then b else b <| refused := true |>.

(** What the consumer does with an event. *)
Definition process (b : Books) (e : BookEvent.t) : Books :=
  let b := submit_to b (request e) in
  let b :=
    if (Z.land (received b) 1023 =? 1023) && negb (best_ask (book b) =? 0) then
      let strategy_id := u64 (2 ^ 63 + received b) in
      (submit_to b (OrderRequest.mk strategy_id Buy Market 0 1)) <| simulated_orders ::= incr |>
    else b in
  b <| received ::= fun n => n + 1 |>.

Definition sample (e : BookEvent.t) (book_begin finish : Z) : StageSample.t :=
  StageSample.mk (u64 (BookEvent.shm_ns e - BookEvent.source_ns e)) (u64 (book_begin - BookEvent.shm_ns e))
    (u64 (finish - book_begin)) (u64 (finish - BookEvent.source_ns e)).

Definition pop_step (p : t) (s : SpscRing.Step (T := BookEvent.t)) : option t :=
  '(spsc', out) ← SpscRing.step spsc_capacity (spsc p) s;
  let p := p <| spsc := spsc' |> in
  Some match out with
  | [SpscRing.PopReturned None] => p <| consumer := ConsumerLoops |>
  | [SpscRing.PopReturned (Some e)] => p <| consumer := ConsumerHas e |>
  | _ => p
  end.

Definition consumer_step (p : t) (s : ConsumerStep) : option t :=
  match s, consumer p with
  | ConsumerGoes, ConsumerWaits =>
      if start p then Some (p <| consumer := ConsumerLoops |>) else Some p
  | ConsumerGoes, ConsumerLoops =>
      if received (books p) <? size
      then pop_step (p <| consumer := ConsumerPops |>) SpscRing.Pop
      else Some (p <| consumer := ConsumerDone |>)
  | PopStep s, ConsumerPops =>
      match s with
      | SpscRing.LoadPublished _ | SpscRing.ReadSlot | SpscRing.Release => pop_step p s
      | _ => None
      end
  | Process book_begin finish, ConsumerHas e =>
      let b := process (books p) e in
      let p := p <| books := b |> <| samples ::= fun l => l ++ [sample e book_begin finish] |> in
      let p := if refused b then p <| failed := true |> else p in
      Some (p <| consumer := ConsumerStores |>)
  | ConsumerGoes, ConsumerStores =>
      Some (p <| completed ::= fun l => l ++ [received (books p)] |> <| consumer := ConsumerLoops |>)
  | _, _ => None
  end.

(** ** Schedules *)

Inductive Step :=
  | MainStep (s : PublisherStep)
  | ReaderThread (s : ReaderStep)
  | ConsumerThread (s : ConsumerStep).

(** [None] when the thread is elsewhere or a load is not possible. *)
Definition step (p : t) (s : Step) : option t :=
  match s with
  | MainStep s => publisher_step p s
  | ReaderThread s => reader_step p s
  | ConsumerThread s => consumer_step p s
  end.

Fixpoint run (p : t) (schedule : list Step) : option t :=
  match schedule with
  | [] => Some p
  | s :: schedule' => p ← step p s; run p schedule'
  end.

(** The threads are joined. *)
Definition finished (p : t) : Prop :=
  publisher p = PublisherDone /\ reader p = ReaderDone /\ consumer p = ConsumerDone.

(** What [main] returns then; [generated] when no file was given. *)
Definition exit_code (generated : bool) (p : t) : Z :=
  let b := books p in
  let wrong := generated &&
    (negb (simulated_orders b =? size / 1024) || negb (volume (sink b) =? simulated_orders b) ||
     negb (trades (sink b) =? simulated_orders b)) in
  let unfinished := negb (List.last (completed p) 0 =? size) || negb (List.last (shm_consumed p) 0 =? size) in
  if failed p || wrong || unfinished then 2 else 0.

End pipeline.
End Level2Pipeline.
