(* ===== verification/Level2Book.v ===== *)
(** * The consumer of the Level-2 pipeline and its book

    What the consumer relies on of a book, proved of both books; and the
    generated events of the benchmark entered one after the other: nothing is
    refused and every simulated order trades one share.

    [infer_price_window] finds a window on whose grid every priced event lies. *)

From S2P Require Import Prelude BookTypes DenseBook BookFacts DenseFeed DenseQueries.
From S2P Require Import DenseExchange DenseProperties PriceTimeBook PriceTimeFacts.
From S2P Require Import PriceTimeExchange PriceTimeProperties Binary64 WtsTypes Level2.
Import Level2Pipeline.

(** ** The interface *)

(** A book that [holds] resting orders takes every valid order while there is
    room, as price-time matching does; [priced] limit prices are valid. *)
Class BookLaws {B : Type} `{OrderBook B} (capacity : Z) (priced : Z -> Prop)
    (holds : B -> list Resting -> Prop) : Prop := {
  submit_settles b m (r : OrderRequest.t) :
    holds b m -> OrderRequest.id r <> 0 -> OrderRequest.id r <> u64_max ->
    0 < OrderRequest.quantity r < 2 ^ 64 -> OrderRequest.price r < 2 ^ 63 ->
    (OrderRequest.type r = Limit -> priced (OrderRequest.price r)) ->
    BookSpec.lookup m (OrderRequest.id r) = None -> Z.of_nat (length m) < capacity ->
    let spec := BookSpec.settle m (OrderRequest.id r) (OrderRequest.side r) (OrderRequest.type r)
      (OrderRequest.price r) (OrderRequest.quantity r) in
    exists b', submit b r [] = (b', true, spec.2) /\ holds b' spec.1;
  best_ask_reads b m : holds b m -> best_ask b = default 0 (BookSpec.best_price m Sell)
}.

#[global] Instance reference_laws cap :
  BookLaws cap (fun p => 0 < p)
    (fun b m => PriceTimeFacts.represents b m /\ PriceTimeOrderBook._capacity b = cap).
Proof.
  constructor.
  - intros b m r [Hr Hc] Hid Hmax Hq Hp Hl Hnew Hroom. cbn zeta.
    destruct (pt_submit_represents b m r [] Hr ltac:(lia)) as (Hr' & Hc' & Hok & Hout).
    unfold PriceTimeExchange.submit_spec, PriceTimeExchange.can_submit in *.
    destruct (Z.eqb_spec (OrderRequest.id r) 0), (Z.eqb_spec (OrderRequest.quantity r) 0); try lia.
    rewrite bool_decide_true in * by done. rewrite Hc in *.
    destruct (Z.ltb_spec (Z.of_nat (length m)) cap); [|lia].
    assert (negb (is_limit (OrderRequest.type r)) || (0 <? OrderRequest.price r) = true) as Hlim.
    { destruct (OrderRequest.type r); [|done]. apply Z.ltb_lt. by apply Hl. }
    rewrite Hlim in *. cbn [negb andb] in *.
    destruct (BookSpec.settle _ _ _ _ _ _) as [m' ev]. cbn [accepted fst snd] in *.
    change (submit b r []) with (PriceTimeOrderBook.submit b r []).
    destruct (PriceTimeOrderBook.submit b r []) as [[b' ok] out]. cbn in *. subst. by exists b'.
  - intros b m [Hr _]. apply (pt_best_represents b m Sell Hr).
Qed.

#[global] Instance dense_laws (b0 : DensePriceOrderBook.t) :
  BookLaws (DensePriceOrderBook._order_capacity b0)
    (fun p => is_Some (DensePriceOrderBook.price_index b0 p))
    (fun b m => DenseFeed.represents b m /\ geometry b = geometry b0).
Proof.
  constructor.
  - intros b m r [Hr Hg] Hid Hmax Hq Hp Hl Hnew Hroom. cbn zeta.
    destruct (submit_represents b m r [] Hr ltac:(lia) Hp) as ([Hr' Hg'] & Hok & Hout).
    assert (DensePriceOrderBook._order_capacity b = DensePriceOrderBook._order_capacity b0 /\
      forall p, DensePriceOrderBook.price_index b p = DensePriceOrderBook.price_index b0 p) as [Hcap Hidx].
    { unfold geometry in Hg. injection Hg as -> Hm Ht Hlc. split; [done|]. intros p.
      unfold DensePriceOrderBook.price_index. by rewrite Hm, Ht, Hlc. }
    unfold DenseExchange.submit_spec, DenseExchange.can_submit, DensePriceOrderBook.valid_id in *.
    destruct (Z.eqb_spec (OrderRequest.id r) 0), (Z.eqb_spec (OrderRequest.id r) u64_max),
      (Z.eqb_spec (OrderRequest.quantity r) 0); try lia.
    rewrite (bool_decide_true (BookSpec.lookup _ _ = None)) in * by done. rewrite Hcap in *.
    destruct (Z.ltb_spec (Z.of_nat (length m)) (DensePriceOrderBook._order_capacity b0)); [|lia].
    assert (negb (is_limit (OrderRequest.type r)) ||
      bool_decide (is_Some (DensePriceOrderBook.price_index b (OrderRequest.price r))) = true) as Hlim.
    { destruct (OrderRequest.type r); [|done]. apply bool_decide_eq_true. rewrite Hidx. by apply Hl. }
    rewrite Hlim in *. cbn [negb andb orb] in *.
    destruct (BookSpec.settle _ _ _ _ _ _) as [m' ev]. cbn [accepted fst snd] in *.
    change (submit b r []) with (DensePriceOrderBook.submit b r []).
    destruct (DensePriceOrderBook.submit b r []) as [[b' ok] out]. cbn in *. subst.
    exists b'. split_and!; [done|done|congruence].
  - intros b m [Hr _]. destruct (represents_observed b m Hr). done.
Qed.

(** ** The generated events *)

Definition generated_ticks (i : Z) : Z :=
  if Z.land i 1 =? 0 then (99 - Z.land i 7) * 10000 else (101 + Z.land i 7) * 10000.

Lemma land_7 i : 0 <= i -> Z.land i 7 = i mod 8 /\ Z.land i 1 = i mod 2 /\ Z.land i 15 = i mod 16.
Proof. intros. split_and!; [apply (land_mask i 3)|apply (land_mask i 1)|apply (land_mask i 4)]; lia. Qed.

(** The eight prices of either side. *)
Lemma eighths (P : Z -> Prop) j :
  0 <= j < 8 -> P 0 -> P 1 -> P 2 -> P 3 -> P 4 -> P 5 -> P 6 -> P 7 -> P j.
Proof.
  intros Hj. assert (j = 0 \/ j = 1 \/ j = 2 \/ j = 3 \/ j = 4 \/ j = 5 \/ j = 6 \/ j = 7) as Hc by lia.
  by intros; repeat destruct Hc as [->|Hc]; subst.
Qed.

Lemma generated_price i :
  0 <= i ->
  WTSOrdDtlStruct.price (generated_event i) = WTSOrdDtlStruct.price (generated_event (i mod 8)) /\
  generated_ticks i = generated_ticks (i mod 8).
Proof.
  intros Hi. unfold generated_event, generated_ticks. cbn [WTSOrdDtlStruct.price].
  pose proof (Z.mod_pos_bound i 8 ltac:(lia)).
  destruct (land_7 i Hi) as (-> & -> & _), (land_7 (i mod 8) ltac:(lia)) as (-> & -> & _).
  rewrite Z.mod_mod by lia. by assert ((i mod 8) mod 2 = i mod 2) as -> by dlia.
Qed.

Lemma ticks_generated i : 0 <= i -> ticks (generated_event i) = generated_ticks i.
Proof.
  intros Hi. unfold ticks. destruct (generated_price i Hi) as [-> ->].
  apply (eighths (fun j => Double.to_ticks (WTSOrdDtlStruct.price (generated_event j)) = generated_ticks j));
    [apply Z.mod_pos_bound; lia|by vm_compute..].
Qed.

Lemma generated_positive i :
  0 <= i -> Double.leb (WTSOrdDtlStruct.price (generated_event i)) (Double.of_Z 0) = false.
Proof.
  intros Hi. destruct (generated_price i Hi) as [-> _].
  apply (eighths (fun j => Double.leb (WTSOrdDtlStruct.price (generated_event j)) (Double.of_Z 0) = false));
    [apply Z.mod_pos_bound; lia|by vm_compute..].
Qed.

(** The request made of a generated event. *)
Lemma generated_request i source_ns now :
  0 <= i < 2 ^ 63 ->
  request (make_event (generated_event i) source_ns now) =
    OrderRequest.mk (i + 1) (if Z.land i 1 =? 0 then Buy else Sell) Limit (generated_ticks i) (1 + i mod 16).
Proof.
  intros Hi. unfold request, make_event. cbn [BookEvent.id BookEvent.side BookEvent.type BookEvent.price
    BookEvent.quantity].
  rewrite ticks_generated by lia. unfold generated_event. cbn -[generated_ticks wrap].
  destruct (land_7 i ltac:(lia)) as (_ & _ & ->).
  rewrite (wrap_small 64) by lia. rewrite (wrap_small 32) by dlia. by destruct (Z.land i 1 =? 0).
Qed.

Lemma generated_prices i : 0 <= i ->
  920000 <= generated_ticks i <= 1080000 /\
  (if Z.land i 1 =? 0 then generated_ticks i <= 990000 else 1010000 <= generated_ticks i).
Proof.
  intros Hi. unfold generated_ticks. destruct (land_7 i Hi) as (-> & _).
  pose proof (Z.mod_pos_bound i 8). destruct (_ =? 0); lia.
Qed.

(** The resting orders after [n] generated events. *)
Record generated_book (n : Z) (m : list Resting) : Prop := {
  g_ids : forall o, o ∈ m -> 1 <= rest_id o <= n;
  g_prices : forall o, o ∈ m ->
    match rest_side o with Buy => rest_price o <= 990000 | Sell => 1010000 <= rest_price o end;
  g_live : forall o, o ∈ m -> 0 < rest_remaining o;
  g_count : Z.of_nat (length m) <= n
}.

(** A limit order that meets no other side rests. *)
Lemma settle_rests m k side price q :
  q <> 0 -> counterparty side Limit price m q = None ->
  BookSpec.settle m k side Limit price q =
    (BookSpec.add m k side price q, [on_order (OrderUpdate.mk k New q)]).
Proof.
  intros Hq Hc. unfold BookSpec.settle, BookSpec.match_order. rewrite rounds_idle by done.
  destruct (Z.eqb_spec q 0); [done|]. by rewrite Z.eqb_refl.
Qed.

Lemma generated_rests n m i q :
  generated_book n m -> 0 <= i -> q <> 0 ->
  counterparty (if Z.land i 1 =? 0 then Buy else Sell) Limit (generated_ticks i) m q = None.
Proof.
  intros [_ Hp _ _] Hi Hq. unfold counterparty. destruct (Z.eqb_spec q 0); [done|].
  destruct (BookSpec.best_order m _) as [o|] eqn:E; [|done]. apply best_order_elem in E as [Ho Hs].
  specialize (Hp o Ho). rewrite Hs in Hp. destruct (generated_prices i Hi) as [_ Hr].
  unfold BookSpec.crosses. destruct (Z.land i 1 =? 0); cbn in *.
  - destruct (Z.leb_spec (rest_price o) (generated_ticks i)); [lia|done].
  - destruct (Z.leb_spec (generated_ticks i) (rest_price o)); [lia|done].
Qed.

(** A market order of one share trades it with the best ask. *)
Lemma settle_takes_one m k maker :
  BookSpec.best_order m Sell = Some maker -> 0 < rest_remaining maker ->
  BookSpec.settle m k Buy Market 0 1 =
    (BookSpec.reduce m (rest_id maker) 1,
     [on_trade (Trade.mk (rest_id maker) k (rest_price maker) 1);
      on_order (OrderUpdate.mk (rest_id maker) (if rest_remaining maker - 1 =? 0 then Filled else PartiallyFilled)
        (rest_remaining maker - 1)); on_order (OrderUpdate.mk k Filled 0)]).
Proof.
  intros Hb Hr. unfold BookSpec.settle. rewrite match_order_step.
  assert (counterparty Buy Market 0 m 1 = Some maker) as -> by (unfold counterparty; cbn [opposite]; by rewrite Hb).
  unfold round_events, round_quantity. rewrite Z.min_l by lia.
  unfold BookSpec.match_order. change (1 - 1) with 0. by rewrite rounds_idle.
Qed.

Lemma generated_add n m i :
  generated_book n m -> 0 <= i -> n = i ->
  generated_book (n + 1) (BookSpec.add m (i + 1) (if Z.land i 1 =? 0 then Buy else Sell) (generated_ticks i)
    (1 + i mod 16)).
Proof.
  intros [] Hi ->. destruct (generated_prices i Hi) as [_ Hp]. unfold BookSpec.add.
  constructor; [intros o [Ho| ->%list_elem_of_singleton]%elem_of_app..|]; cbn -[generated_ticks]; try (by apply g_prices0); try (by apply g_live0).
  - specialize (g_ids0 o Ho). lia.
  - lia.
  - revert Hp. by destruct (Z.land i 1 =? 0).
  - dlia.
  - rewrite length_app. cbn. lia.
Qed.

Lemma generated_reduce n m k : generated_book n m -> generated_book n (BookSpec.reduce m k 1).
Proof.
  intros []. assert (forall o, o ∈ BookSpec.reduce m k 1 -> exists o', o' ∈ m /\ rest_id o = rest_id o' /\
    rest_side o = rest_side o' /\ rest_price o = rest_price o' /\ 0 < rest_remaining o) as Hin.
  { intros o (o' & Ho' & Hr)%list_elem_of_omap. specialize (g_live0 o' Ho').
    unfold BookSpec.reduce_order in Hr. repeat case_decide; simplify_eq; (eexists; split; [exact Ho'|]); split_and!; try done.
    cbn. lia. }
  constructor; [intros o (o' & Ho' & Eid & Es & Ep & Hl)%Hin; rewrite ?Eid, ?Es, ?Ep..|]; auto.
  { by apply g_prices0. }
  pose proof (reduce_length m k 1). lia.
Qed.

Lemma generated_fresh n m k : generated_book n m -> n < k -> BookSpec.lookup m k = None.
Proof. intros [Hid _ _ _] Hk. apply lookup_none. intros o Ho. specialize (Hid o Ho). lia. Qed.

(** ** The consumer on the generated events *)

Section consumer.
Context {B : Type} `{OrderBook B} (capacity : Z) (priced : Z -> Prop) (holds : B -> list Resting -> Prop).
Context `{!BookLaws capacity priced holds} (count : Z).
Hypothesis Hpriced : forall i, 0 <= i < count -> priced (generated_ticks i).

(** After [n] events: nothing refused, one share traded by every simulated order. *)
Definition generated_books (n : Z) (b : Books (B := B)) (m : list Resting) : Prop :=
  holds (book b) m /\ generated_book n m /\ received b = n /\ refused b = false /\
  simulated_orders b = n / 1024 /\ PipelineSink.trades (sink b) = n / 1024 /\
  PipelineSink.volume (sink b) = n / 1024.

(** A limit order that rests. *)
Lemma submit_rests b m i source_ns now :
  generated_books i b m -> 0 <= i < count -> i < capacity -> i < 2 ^ 63 - 1 ->
  let b' := submit_to b (request (make_event (generated_event i) source_ns now)) in
  let m' := BookSpec.add m (i + 1) (if Z.land i 1 =? 0 then Buy else Sell) (generated_ticks i) (1 + i mod 16) in
  holds (book b') m' /\ refused b' = false /\ received b' = i /\ simulated_orders b' = i / 1024 /\
  PipelineSink.trades (sink b') = i / 1024 /\ PipelineSink.volume (sink b') = i / 1024.
Proof.
  intros (Hh & Hm & Hn & Href & Hs & Ht & Hv) Hi Hcap Hb. cbn zeta. rewrite generated_request by lia.
  destruct (generated_prices i ltac:(lia)) as [Hp _].
  assert (0 < 1 + i mod 16 < 2 ^ 64) as Hq by dlia.
  pose proof (submit_settles (book b) m (OrderRequest.mk (i + 1) (if Z.land i 1 =? 0 then Buy else Sell) Limit
    (generated_ticks i) (1 + i mod 16)) Hh) as Hsub. cbn -[generated_ticks] in Hsub.
  destruct Hsub as (b' & Hsub & Hh'); try lia.
  - intros _. apply Hpriced. lia.
  - apply (generated_fresh i); [done|lia].
  - pose proof (g_count _ _ Hm). lia.
  - rewrite settle_rests in Hsub, Hh' by first [lia|apply (generated_rests i); [done|lia|lia]].
    unfold submit_to. rewrite Hsub. cbn. by split_and!.
Qed.

(** The simulated market order trades one share. *)
Lemma submit_takes b m n k maker :
  holds (book b) m -> generated_book n m -> BookSpec.best_order m Sell = Some maker ->
  n < k < 2 ^ 64 - 1 -> 0 <= n -> Z.of_nat (length m) < capacity ->
  let b' := submit_to b (OrderRequest.mk k Buy Market 0 1) in
  holds (book b') (BookSpec.reduce m (rest_id maker) 1) /\ refused b' = refused b /\
  received b' = received b /\ simulated_orders b' = simulated_orders b /\
  PipelineSink.trades (sink b') = incr (PipelineSink.trades (sink b)) /\
  PipelineSink.volume (sink b') = u64 (PipelineSink.volume (sink b) + 1).
Proof.
  intros Hh Hm Hbest Hk Hn Hroom. cbn zeta. pose proof (best_order_elem _ _ _ Hbest) as [Hin _].
  pose proof (submit_settles (book b) m (OrderRequest.mk k Buy Market 0 1) Hh) as Hsub. cbn in Hsub.
  destruct Hsub as (b' & Hsub & Hh'); try lia; try done.
  - by apply (generated_fresh n); [|lia].
  - rewrite (settle_takes_one m k maker Hbest (g_live _ _ Hm _ Hin)) in Hsub, Hh'.
    unfold submit_to. rewrite Hsub. cbn. by split_and!.
Qed.

Lemma process_generated b m i source_ns now :
  generated_books i b m -> 0 <= i < count -> i + 1 < capacity -> i < 2 ^ 63 - 1 ->
  exists m', generated_books (i + 1) (process b (make_event (generated_event i) source_ns now)) m'.
Proof.
  intros Hb Hi Hcap Hmax. pose proof (submit_rests b m i source_ns now Hb Hi ltac:(lia) Hmax) as Hsub.
  destruct Hb as (_ & Hm & _). cbn zeta in Hsub. unfold process.
  set (b1 := submit_to b _) in *. set (m1 := BookSpec.add m _ _ _ _) in *.
  destruct Hsub as (Hh1 & Hr1 & Hn1 & Hs1 & Ht1 & Hv1).
  assert (generated_book (i + 1) m1) as Hm1 by (apply generated_add; [done|lia|done]).
  assert (Z.land i 1023 = i mod 1024) as Hmask by (apply (land_mask i 10); lia).
  rewrite Hn1, Hmask.
  destruct (Z.eqb_spec (i mod 1024) 1023) as [Hmod|Hmod]; cbn [andb].
  - assert (BookSpec.best_order m1 Sell <> None) as Hask.
    { apply (best_order_some _ _ (mkResting (i + 1) Sell (generated_ticks i) (1 + i mod 16))); [|done].
      apply elem_of_app. right. destruct (land_7 i ltac:(lia)) as (_ & Hone & _). rewrite Hone.
      assert (i mod 2 = 1) as -> by dlia. by left. }
    destruct (BookSpec.best_order m1 Sell) as [maker|] eqn:Hbest; [|done].
    pose proof (best_order_elem _ _ _ Hbest) as [Hin Hside].
    assert (best_ask (book b1) <> 0) as Hne.
    { rewrite (best_ask_reads _ _ Hh1). unfold BookSpec.best_price. rewrite Hbest. cbn.
      pose proof (g_prices _ _ Hm1 maker Hin) as Hp. rewrite Hside in Hp. lia. }
    destruct (Z.eqb_spec (best_ask (book b1)) 0); [done|]. cbn [negb].
    rewrite (wrap_small 64 (2 ^ 63 + i)) by lia.
    destruct (submit_takes b1 m1 (i + 1) (2 ^ 63 + i) maker Hh1 Hm1 Hbest) as (Hh2 & Hr2 & Hn2 & Hs2 & Ht2 & Hv2);
      [lia|lia| |].
    { pose proof (g_count _ _ Hm1). lia. }
    exists (BookSpec.reduce m1 (rest_id maker) 1). unfold generated_books. cbn.
    rewrite Hr2, Hn2, Hs2, Ht2, Hv2, Hn1, Hs1, Ht1, Hv1. unfold incr.
    rewrite !wrap_small by dlia. split_and!; try done; [by apply generated_reduce|dlia..].
  - exists m1. unfold generated_books. cbn. rewrite Hn1. split_and!; try done; dlia.
Qed.

(** Nothing is refused, whatever the number of events. *)
Lemma generated_run b0 n :
  generated_books 0 b0 [] -> Z.of_nat n <= count -> Z.of_nat n < capacity -> Z.of_nat n < 2 ^ 63 ->
  exists m, generated_books (Z.of_nat n)
    (foldl process b0 (map (fun o => make_event o 0 0) (generated_events n))) m.
Proof.
  intros Hb0. induction n as [|n IH]; intros Hl Hc Hm; [by exists []|].
  destruct (IH ltac:(lia) ltac:(lia) ltac:(lia)) as (m & Hb). unfold generated_events.
  rewrite seq_S, !map_app, foldl_app. cbn [map foldl Nat.add].
  destruct (process_generated _ m (Z.of_nat n) 0 0 Hb) as (m' & Hm'); try lia.
  exists m'. by replace (Z.of_nat (S n)) with (Z.of_nat n + 1) by lia.
Qed.
End consumer.

(** * The price window *)

Import Level2Pipeline.

Section window.
Context (events : list WTSOrdDtlStruct.t).

(** An event with a price above zero. *)
Definition is_priced (e : WTSOrdDtlStruct.t) : bool :=
  negb (Double.leb (WTSOrdDtlStruct.price e) (Double.of_Z 0)).

(** Prices are at least a tick, and below the largest 64-bit integer. *)
Definition prices_ok : Prop := forall e, e ∈ events -> is_priced e = true -> 0 < ticks e < i64_max.

(** What the loop keeps: extremes and a common step of the prices [ps] seen. *)
Definition window_ok (ps : list Z) (w : Z * Z * Z * Z) : Prop :=
  let '(minimum, maximum, first, tick) := w in
  match ps with
  | [] => w = (i64_max, 0, 0, 0)
  | _ => first ∈ ps /\ minimum ∈ ps /\ maximum ∈ ps /\ 0 <= tick /\
      forall p, p ∈ ps -> minimum <= p <= maximum /\ (tick | p - first)
  end.

Lemma window_step_ok ps w e :
  window_ok ps w -> (forall p, p ∈ ps -> 0 < p < i64_max) -> (is_priced e = true -> 0 < ticks e < i64_max) ->
  window_ok (ps ++ (if is_priced e then [ticks e] else [])) (window_step w e).
Proof.
  intros Hw Hps He. destruct w as [[[minimum maximum] first] tick]. unfold window_step.
  unfold is_priced in *. destruct (Double.leb _ _); cbn [negb] in *; [by rewrite app_nil_r|].
  specialize (He eq_refl). set (p := ticks e) in *. destruct ps as [|q ps]; unfold window_ok in Hw.
  - injection Hw as -> -> -> ->. cbn [app window_ok Z.eqb].
    assert (Z.min i64_max p = p /\ Z.max 0 p = p) as [-> ->] by lia.
    split_and!; try (by left); try done.
    intros r ->%list_elem_of_singleton. rewrite Z.sub_diag. split; [lia|apply Z.divide_0_r].
  - destruct Hw as (Hf & Hmin & Hmax & Ht & Hall).
    destruct (Z.eqb_spec first 0) as [->|]; [specialize (Hps 0 Hf); lia|].
    destruct (Hall first Hf) as [Hfr _]. set (qs := q :: ps) in *.
    assert (forall x, x ∈ qs -> x ∈ qs ++ [p]) as Hin by (intros; apply elem_of_app; by left).
    assert (p ∈ qs ++ [p]) as Hp by (apply elem_of_app; right; by left).
    change (first ∈ qs ++ [p] /\ Z.min minimum p ∈ qs ++ [p] /\ Z.max maximum p ∈ qs ++ [p] /\
      0 <= Z.gcd tick (Z.abs (p - first)) /\ forall x, x ∈ qs ++ [p] ->
        Z.min minimum p <= x <= Z.max maximum p /\ (Z.gcd tick (Z.abs (p - first)) | x - first)).
    split_and!.
    + auto.
    + destruct (Z.min_spec minimum p) as [[_ ->]|[_ ->]]; auto.
    + destruct (Z.max_spec maximum p) as [[_ ->]|[_ ->]]; auto.
    + apply Z.gcd_nonneg.
    + intros x [Hx| ->%list_elem_of_singleton]%elem_of_app.
      * destruct (Hall x Hx) as [? Hd]. split; [lia|]. etransitivity; [apply Z.gcd_divide_l|done].
      * split; [lia|]. apply Z.divide_abs_r. apply Z.gcd_divide_r.
Qed.

Definition priced_ticks : list Z := map ticks (filter (fun e => is_priced e = true) events).

Lemma priced_ticks_elem e : e ∈ events -> is_priced e = true -> ticks e ∈ priced_ticks.
Proof. intros. unfold priced_ticks. apply list_elem_of_fmap_2. by apply list_elem_of_filter. Qed.

Lemma window_loop_ok : prices_ok -> window_ok priced_ticks (foldl window_step (i64_max, 0, 0, 0) events).
Proof.
  unfold priced_ticks, prices_ok. intros Hp. induction events as [|e es IH] using rev_ind; [done|].
  rewrite foldl_app, filter_app, map_app. cbn [foldl].
  assert (map ticks (filter (fun e => is_priced e = true) [e]) = if is_priced e then [ticks e] else []) as ->.
  { rewrite filter_cons. by destruct (is_priced e) eqn:E; case_decide. }
  apply window_step_ok.
  - apply IH. intros e' He'. apply Hp. apply elem_of_app. by left.
  - intros p (e' & -> & [Hpr He']%list_elem_of_filter)%list_elem_of_fmap. apply Hp; [|done].
    apply elem_of_app. by left.
  - apply Hp. apply elem_of_app. right. by left.
Qed.

(** The window is within the prices, and every price is on its grid. *)
Lemma inferred_window w :
  prices_ok -> infer_price_window events = Some w -> priced_ticks <> [] ->
  0 < PriceWindow.tick_size w /\ PriceWindow.minimum w ∈ priced_ticks /\
  (exists maximum, maximum ∈ priced_ticks /\
    PriceWindow.levels w = (maximum - PriceWindow.minimum w) / PriceWindow.tick_size w + 1) /\
  forall p, p ∈ priced_ticks -> exists k,
    p = PriceWindow.minimum w + k * PriceWindow.tick_size w /\ 0 <= k < PriceWindow.levels w.
Proof.
  intros Hp Hw Hne. pose proof (window_loop_ok Hp) as Hok. unfold infer_price_window in Hw.
  destruct (foldl window_step _ events) as [[[minimum maximum] first] tick]. unfold window_ok in Hok.
  assert (forall p, p ∈ priced_ticks -> 0 < p < i64_max) as Hall.
  { intros p (e & -> & [Hpr He]%list_elem_of_filter)%list_elem_of_fmap. by apply Hp. }
  destruct priced_ticks as [|q ps] eqn:E; [done|]. rewrite <- E in *. clear Hne.
  destruct Hok as (Hf & Hmin & Hmax & Ht & Hd).
  pose proof (Hall _ Hmin) as Hminr. destruct (Z.eqb_spec minimum i64_max); [lia|].
  set (tick' := if tick =? 0 then 1 else tick) in *.
  assert (0 < tick' /\ forall p, p ∈ priced_ticks -> (tick' | p - minimum)) as [Hpos Hdiv].
  { unfold tick'. destruct (Z.eqb_spec tick 0) as [Et|]; (split; [lia|]); intros p Hpin.
    - apply Z.divide_1_l.
    - destruct (Hd p Hpin) as [_ [a Ha]], (Hd minimum Hmin) as [_ [b Hb]]. exists (a - b). lia. }
  pose proof (Hd _ Hmax) as [Hmaxr _]. rewrite Z.quot_div_nonneg in Hw by lia.
  destruct (_ <? _); [done|]. injection Hw as <-. cbn [PriceWindow.tick_size PriceWindow.minimum PriceWindow.levels].
  split_and!; [done|done|by exists maximum|].
  intros p Hpin. destruct (Hdiv p Hpin) as [k Hk]. exists k. destruct (Hd p Hpin) as [Hr _].
  split; [lia|]. assert (0 <= k) by nia. assert (k <= (maximum - minimum) / tick'); [|lia].
  apply Z.div_le_lower_bound; lia.
Qed.
End window.
