(* ===== verification/Level2Facts.v ===== *)
(** * The three threads of the Level-2 pipeline, step by step

    The invariant that joins the two rings: the publisher never begins a number
    whose slot the reader still wants, because what it loads of [shm_consumed]
    is at most what the reader has handed on; so the reader is [paced_ok], and
    what goes into the SPSC ring is the source from its first event on. *)

From S2P Require Import Prelude BookTypes Binary64 WtsTypes SpscRing.
From S2P Require Import ShmRing ShmFacts ShmReader Level2.
Import Level2Pipeline.

Module Shm := ShmRingProtocol.
Module Spsc := SpscRing.

Lemma spsc_capacity_ok : capacity_ok spsc_capacity.
Proof. exists 16. split; [lia|done]. Qed.

Section facts.
Context {B : Type} `{OrderBook B} `{DataItem} (item_bytes : Z).
Context (source : list WTSOrdDtlStruct.t) (paced : bool).
Abbreviation size := (size source).
Abbreviation t := (t (B := B)).
Implicit Types (p : t) (pushed popped : list BookEvent.t).

(** The bytes of an item give the order back. *)
Definition items_ok : Prop :=
  Forall (fun o => length (data_item o) = Z.to_nat item_bytes /\ order (data_item o) = o) source.
Hypothesis Hitems : items_ok.
Hypothesis Hsize : size < 2 ^ 63.

(** ** The invariant *)

(** The publications begun. *)
Definition begun_count p : Z :=
  match publisher p with Publishes | PublisherPaced => sequence p + 1 | _ => sequence p end.
Definition published_items p : list (list Z) :=
  map data_item (take (Z.to_nat (begun_count p)) source).

Definition publisher_at p pushed : Prop :=
  0 <= sequence p /\ begun_count p <= size /\ begun_count p <= alen pushed + Shm.kCapacity - 1 /\
  match publisher p with
  | PublisherStarts => sequence p = 0
  | PublisherWaits => sequence p < size
  | PublisherStamps => sequence p < size /\ sequence p < alen pushed + Shm.kCapacity - 1
  | PublisherDone => sequence p = size
  | Publishes | PublisherPaced => True
  end /\
  match publisher p with
  | Publishes => Shm.writer (shm p) <> Shm.WriterIdle
  | _ => Shm.writer (shm p) = Shm.WriterIdle
  end.

(** The event made of the [i]th order, at some time. *)
Definition event_of (times : list Z) (i : nat) (e : BookEvent.t) : Prop :=
  exists o, source !! i = Some o /\ e = make_event o times.[Z.of_nat i] (BookEvent.shm_ns e).

(** The reader of [r] has attached, and everything below [n] is read. *)
Definition following (r : Shm.t) (its : list (list Z)) (n : Z) : Prop :=
  paced_ok item_bytes r its /\ Shm._next (Shm.reader r) = n.
Definition reading (a : Shm.ReaderAt) : Prop :=
  match a with
  | Shm.ReadLoadsPublished | Shm.ReadLoadsBefore | Shm.ReadCopies _ _ | Shm.ReadLoadsAfter _ _ => True
  | _ => False
  end.

(** Where the reader is, [follow] saying what it has read. *)
Definition reader_place (rd : Reader) (d : Shm.SequenceReader) (times : list Z) (follow : Z -> Prop) pushed :
    Prop :=
  let n := alen pushed in
  match rd with
  | ReaderAttaches => pushed = [] /\ Shm._dropped d = 0 /\ Shm._next d = 0 /\ Shm.at_ d = Shm.ReaderIdle
  | ReaderAttaching => pushed = [] /\ Shm._dropped d = 0 /\ Shm._next d = 0 /\
      (Shm.at_ d = Shm.AttachLoadsEpoch false false \/ Shm.at_ d = Shm.AttachLoadsPublished false false)
  | ReaderWaits | ReaderLoops => follow n /\ Shm.at_ d = Shm.ReaderIdle
  | ReaderReads => follow n /\ reading (Shm.at_ d)
  | ReaderHas k item => follow (n + 1) /\ Shm.at_ d = Shm.ReaderIdle /\ k = n /\
      (exists o, source !! length pushed = Some o /\ item = data_item o)
  | ReaderPushes k e => follow (n + 1) /\ Shm.at_ d = Shm.ReaderIdle /\ k = n /\
      event_of times (length pushed) e
  | ReaderStores k => follow n /\ Shm.at_ d = Shm.ReaderIdle /\ k + 1 = n
  | ReaderDone => follow n /\ Shm.at_ d = Shm.ReaderIdle /\ n = size
  end.

Definition reader_at p pushed : Prop :=
  reader_place (reader p) (Shm.reader (shm p)) (source_time p) (following (shm p) (published_items p)) pushed.

Lemma reader_place_mono rd d times times' (follow follow' : Z -> Prop) pushed :
  (forall n, follow n -> follow' n) ->
  (forall e, follow (alen pushed + 1) -> event_of times (length pushed) e -> event_of times' (length pushed) e) ->
  reader_place rd d times follow pushed -> reader_place rd d times' follow' pushed.
Proof. intros Hf He. destruct rd; cbn; intuition eauto. Qed.

Definition consumed_at p pushed : Prop :=
  Forall (fun v => 0 <= v <= alen pushed) (shm_consumed p) /\
  match reader p with
  | ReaderStores _ => True
  | _ => List.last (shm_consumed p) 0 = alen pushed
  end.

Definition producer_at p : Prop :=
  match reader p with
  | ReaderPushes _ e =>
      match Spsc.producer (spsc p) with
      | Spsc.ProducerIdle => True
      | Spsc.ProducerLoads v policy dropped => v = e /\ policy = Reject /\ dropped = false
      | Spsc.ProducerWrites v | Spsc.ProducerPublishes v => v = e
      end
  | _ => Spsc.producer (spsc p) = Spsc.ProducerIdle
  end.

Definition stages_add_up (s : StageSample.t) : Prop :=
  u64 (StageSample.shm s + StageSample.spsc s + StageSample.book_strategy s) = StageSample.end_to_end s.

Definition consumer_at (empty : B) p popped : Prop :=
  let b0 := mkBooks empty (PipelineSink.mk 0 0 0) 0 0 false in
  failed p = refused (books p) /\
  Forall stages_add_up (samples p) /\ alen (samples p) = received (books p) /\
  match consumer p with
  | ConsumerHas e => exists old, popped = old ++ [e] /\ books p = foldl process b0 old
  | _ => books p = foldl process b0 popped
  end /\
  match consumer p with
  | ConsumerStores => True
  | ConsumerDone => List.last (completed p) 0 = size /\ received (books p) = size
  | _ => List.last (completed p) 0 = received (books p)
  end.

Record inv (empty : B) p pushed popped : Prop := {
  i_publisher : publisher_at p pushed;
  i_writer : writer_ok item_bytes (Shm.items (shm p)) (Shm.stores (shm p)) (Shm.writer (shm p))
    (published_items p);
  i_reader : reader_at p pushed;
  i_consumed : consumed_at p pushed;
  i_times : alen (source_time p) = size;
  i_pushed : forall i e, pushed !! i = Some e -> event_of (source_time p) i e;
  i_spsc : SpscRing.ring_ok spsc_capacity (spsc p) pushed popped;
  i_producer : producer_at p;
  i_consumer : consumer_at empty p popped
}.

Lemma received_process b e : received (process b e) = received b + 1.
Proof.
  unfold process, submit_to. repeat case_match; reflexivity.
Qed.

Lemma received_foldl es b : received (foldl process b es) = received b + alen es.
Proof.
  unfold alen. revert b. induction es as [|e es IH]; intros b; cbn [foldl length]; [lia|].
  rewrite IH, received_process. lia.
Qed.

Lemma refused_process b e : refused b = true -> refused (process b e) = true.
Proof. intros Hr. unfold process, submit_to. repeat case_match; done. Qed.

Lemma inv_make epoch empty :
  inv empty (make item_bytes source epoch empty) [] [].
Proof.
  pose proof (Zle_0_nat (length source)).
  constructor; try done.
  - apply (writer_ok_epoch item_bytes _ []). apply writer_ok_fresh.
  - split; [|done]. by repeat constructor.
  - cbn. by rewrite alen_replicate.
Qed.

Lemma published_length p : 0 <= begun_count p <= size -> alen (published_items p) = begun_count p.
Proof.
  unfold published_items, alen, Level2Pipeline.size, alen. intros Hb.
  rewrite length_map, length_take. lia.
Qed.

Lemma begun_range p pushed : publisher_at p pushed -> 0 <= begun_count p <= size.
Proof. intros (? & ? & _). unfold begun_count in *. repeat case_match; lia. Qed.

(** What the reader has passed has been published. *)
Lemma following_bound p pushed n :
  publisher_at p pushed -> following (shm p) (published_items p) n -> 0 <= n <= begun_count p.
Proof.
  intros Hp [((_ & [Hn _ _ _]) & _) <-]. pose proof (begun_range _ _ Hp) as Hb.
  pose proof (stored_range item_bytes (Shm.writer (shm p)) (published_items p)).
  rewrite (published_length p Hb) in *. lia.
Qed.

(** ** The publisher *)

Definition writer_only (s : Shm.Step) : Prop :=
  match s with Shm.Publish _ _ | Shm.CopyIn | Shm.StoreSequence | Shm.StorePublished => True | _ => False end.

(** A step of a publication, whether or not the reader has attached. *)
Lemma publication_step r s r' out its :
  writer_ok item_bytes (Shm.items r) (Shm.stores r) (Shm.writer r) its -> numbered item_bytes its s ->
  alen (its ++ begun s) < 2 ^ 64 - 1 -> writer_only s ->
  match s with Shm.Publish q _ => q < Shm._next (Shm.reader r) + Shm.kCapacity | _ => True end ->
  Shm.step item_bytes r s = Some (r', out) ->
  writer_ok item_bytes (Shm.items r') (Shm.stores r') (Shm.writer r') (its ++ begun s) /\
  Shm.reader r' = Shm.reader r /\
  (Shm.writer r' = Shm.WriterIdle <-> s = Shm.StorePublished) /\
  (forall n, following r its n -> following r' (its ++ begun s) n).
Proof.
  intros Hw Hn Hb Hs Hp Hst. destruct (step_cases item_bytes r s r' out Hst) as [[Hws ->]|(d & Hr & _)];
    [|destruct s; try done; by destruct (Shm.at_ (Shm.reader r))].
  destruct (writer_step_ok item_bytes r r' s its Hw Hn Hws) as [Hw' Hr']. split_and!; [done|done| |].
  - destruct s, (Shm.writer r) eqn:E; try done; cbn [Shm.writer_step] in Hws; rewrite E in Hws; try done.
    all: try (destruct (_ <? _)%nat; try done); injection Hws as <-; done.
  - intros n [Hok <-]. split; [|by rewrite Hr'].
    by destruct (paced_step item_bytes r s r' [] its Hok Hn ltac:(by destruct s) Hb Hp Hst) as [? _].
Qed.

Lemma pushed_read p pushed :
  publisher_at p pushed -> reader_at p pushed ->
  alen pushed <= Shm._next (Shm.reader (shm p)) /\ alen pushed <= begun_count p.
Proof.
  intros Hp Hr. pose proof (begun_range _ _ Hp). unfold reader_at, reader_place in Hr.
  destruct (reader p); (destruct Hr as [Hf Hr]).
  1,2: subst; destruct Hr as (_ & -> & _); unfold alen; cbn; lia.
  all: pose proof (following_bound p pushed _ Hp Hf); destruct Hf as [_ ->]; lia.
Qed.

(** A step that leaves the other threads' parts alone. *)
Lemma inv_publisher empty p p' pushed popped :
  inv empty p pushed popped -> publisher_at p' pushed ->
  writer_ok item_bytes (Shm.items (shm p')) (Shm.stores (shm p')) (Shm.writer (shm p')) (published_items p') ->
  Shm.reader (shm p') = Shm.reader (shm p) ->
  (forall n, following (shm p) (published_items p) n -> following (shm p') (published_items p') n) ->
  alen (source_time p') = size ->
  (forall i e, Z.of_nat i < begun_count p -> event_of (source_time p) i e -> event_of (source_time p') i e) ->
  (spsc p', samples p', shm_consumed p', completed p', failed p', reader p', consumer p', books p') =
    (spsc p, samples p, shm_consumed p, completed p, failed p, reader p, consumer p, books p) ->
  inv empty p' pushed popped.
Proof.
  intros [] Hp Hw Hr Hf Ht He Hsame. injection Hsame as Es Esa Ec Eco Efa Er Econ Eb.
  destruct (pushed_read p pushed i_publisher0 i_reader0) as [_ Hpb].
  constructor; try done.
  - unfold reader_at. rewrite Er, Hr. apply (reader_place_mono _ _ (source_time p) _
      (following (shm p) (published_items p))); [done| |done].
    intros e Hn. apply He. apply (following_bound p pushed _ i_publisher0) in Hn. unfold alen in Hn. lia.
  - unfold consumed_at. by rewrite Er, Ec.
  - intros i e Hi. apply He; [|by apply i_pushed0]. apply lookup_lt_Some in Hi. unfold alen in Hpb. lia.
  - by rewrite Es.
  - unfold producer_at. by rewrite Er, Es.
  - unfold consumer_at. by rewrite Eco, Efa, Econ, Eb, Esa.
Qed.

Lemma inv_publisher_quiet empty p p' pushed popped :
  inv empty p pushed popped -> publisher_at p' pushed ->
  begun_count p' = begun_count p -> shm p' = shm p -> source_time p' = source_time p ->
  (spsc p', samples p', shm_consumed p', completed p', failed p', reader p', consumer p', books p') =
    (spsc p, samples p, shm_consumed p, completed p, failed p, reader p, consumer p, books p) ->
  inv empty p' pushed popped.
Proof.
  intros Hi Hp Hb Hs Ht Hsame.
  assert (published_items p' = published_items p) as Hpub by (unfold published_items; by rewrite Hb).
  apply (inv_publisher empty p p'); try done; rewrite ?Hpub, ?Hs, ?Ht; try done; apply Hi.
Qed.

Lemma next_sequence_at p pushed :
  0 <= sequence p <= size -> sequence p <= alen pushed + Shm.kCapacity - 1 ->
  Shm.writer (shm p) = Shm.WriterIdle ->
  publisher_at (next_sequence source p) pushed /\ begun_count (next_sequence source p) = sequence p.
Proof.
  intros Hs Hc Hw. unfold next_sequence. destruct (Z.ltb_spec (sequence p) size);
    unfold publisher_at, begun_count; cbn; split_and!; try done; lia.
Qed.

(** The publication of the next event begins. *)
Lemma published_next p p' event :
  0 <= sequence p -> begun_count p = sequence p -> begun_count p' = sequence p + 1 ->
  source !! Z.to_nat (sequence p) = Some event ->
  published_items p' = published_items p ++ [data_item event].
Proof.
  intros Hs Hb Hb' He. unfold published_items. rewrite Hb, Hb', Z2Nat.inj_add, Nat.add_1_r by lia.
  by rewrite (take_S_r _ _ _ He), map_app.
Qed.

Lemma event_of_stamp times k now i e :
  0 <= k < alen times -> Z.of_nat i < k -> event_of times i e -> event_of times.[k <- now] i e.
Proof.
  intros Hk Hi (o & Ho & ->). exists o. split; [done|]. by rewrite aget_aset_ne by lia.
Qed.

Lemma stamp_ok empty p now p' pushed popped :
  inv empty p pushed popped -> publisher p = PublisherStamps ->
  publisher_step item_bytes source paced p (Stamp now) = Some p' -> inv empty p' pushed popped.
Proof.
  intros Hi E Hs. pose proof (i_publisher _ _ _ _ Hi) as Hp. pose proof (i_times _ _ _ _ Hi) as Ht.
  pose proof (i_writer _ _ _ _ Hi) as Hw. destruct (pushed_read _ _ Hp (i_reader _ _ _ _ Hi)) as [Hread _].
  destruct Hp as (Hs0 & Hb & _ & Hat & Hbusy). rewrite E in Hat, Hbusy.
  assert (begun_count p = sequence p) as Hbc by (unfold begun_count; by rewrite E).
  cbn [publisher_step] in Hs. rewrite E in Hs.
  destruct (source !! Z.to_nat (sequence p)) as [event|] eqn:He; [|done]. cbn [mbind option_bind] in Hs.
  destruct (Shm.step item_bytes _ _) as [[shm' out]|] eqn:Hst; [|done]. cbn [mbind option_bind] in Hs.
  change (Shm.step item_bytes (shm p) (Shm.Publish (sequence p) (data_item event)) = Some (shm', out)) in Hst.
  assert (alen (published_items p) = sequence p) as Hlen by (rewrite published_length; lia).
  assert (length (data_item event) = Z.to_nat item_bytes) as Hitem.
  { unfold items_ok in Hitems. rewrite Forall_forall in Hitems. apply Hitems. by eapply list_elem_of_lookup_2. }
  assert (alen (published_items p ++ [data_item event]) < 2 ^ 64 - 1) as Hlen'
    by (rewrite alen_snoc; lia).
  destruct (publication_step (shm p) (Shm.Publish (sequence p) (data_item event)) shm' out
    (published_items p) Hw (conj (eq_sym Hlen) Hitem) Hlen' I
    ltac:(cbn; lia) Hst) as (Hw' & Hr' & Hidle & Hf).
  cbn [begun] in *. injection Hs as <-.
  assert (published_items (p <| source_time ::= fun a => a.[sequence p <- now] |> <| shm := shm' |>
    <| publisher := Publishes |>) = published_items p ++ [data_item event]) as Hpub
    by (apply published_next; done).
  apply (inv_publisher empty p); rewrite ?Hpub; cbn [shm source_time]; try done.
  - unfold publisher_at, begun_count. cbn. split_and!; try done; try lia. by intros ?%Hidle.
  - updates. cbn [source_time]. by rewrite alen_aset.
  - intros i e Hie. apply event_of_stamp; lia.
Qed.

Lemma publish_step_ok empty p st p' pushed popped :
  inv empty p pushed popped -> publisher p = Publishes ->
  publish_step item_bytes source paced p st = Some p' -> inv empty p' pushed popped.
Proof.
  intros Hi E Hs. pose proof (i_publisher _ _ _ _ Hi) as Hp. pose proof (i_writer _ _ _ _ Hi) as Hw.
  destruct Hp as (Hs0 & Hb & Hc & _ & _).
  assert (begun_count p = sequence p + 1) as Hbc by (unfold begun_count; by rewrite E).
  assert (exists shm', (exists out, Shm.step item_bytes (shm p) st = Some (shm', out)) /\ writer_only st /\
    begun st = [] /\ numbered item_bytes (published_items p) st /\
    match st with Shm.Publish q _ => q < Shm._next (Shm.reader (shm p)) + Shm.kCapacity | _ => True end /\
    p' = match st with
      | Shm.StorePublished =>
          if paced then p <| shm := shm' |> <| publisher := PublisherPaced |>
          else next_sequence source (p <| shm := shm' |> <| sequence ::= fun n => n + 1 |>)
      | _ => p <| shm := shm' |>
      end) as (shm' & (out & Hst) & Hwo & Hbg & Hnum & Hpace & ->).
  { unfold publish_step in Hs. destruct st; try done; destruct (Shm.step _ _ _) as [[shm' out]|]; try done;
      injection Hs as <-; exists shm'; (split; [by exists out|]); split_and!; done. }
  assert (alen (published_items p ++ begun st) < 2 ^ 64 - 1) as Hlen
    by (rewrite Hbg, app_nil_r, published_length by lia; lia).
  destruct (publication_step (shm p) st shm' out (published_items p) Hw Hnum Hlen Hwo Hpace Hst)
    as (Hw' & Hr' & Hidle & Hf).
  rewrite Hbg, app_nil_r in *.
  assert (st <> Shm.StorePublished -> inv empty (p <| shm := shm' |>) pushed popped) as Hgoes.
  { intros Hne. apply (inv_publisher empty p); try done; [|apply Hi].
    unfold publisher_at, begun_count in *. cbn. rewrite E in *. split_and!; try done; try lia.
    by intros ?%Hidle. }
  destruct st; try done; try (by apply Hgoes).
  assert (Shm.writer shm' = Shm.WriterIdle) as Hwi by (by apply Hidle).
  assert (forall q, begun_count q = begun_count p -> publisher_at q pushed -> shm q = shm' ->
    source_time q = source_time p ->
    (spsc q, samples q, shm_consumed q, completed q, failed q, reader q, consumer q, books q) =
      (spsc p, samples p, shm_consumed p, completed p, failed p, reader p, consumer p, books p) ->
    inv empty q pushed popped) as Hq.
  { intros q Hqb Hqp Hqs Hqt Hsame. assert (published_items q = published_items p) as Hpub
      by (unfold published_items; by rewrite Hqb).
    apply (inv_publisher empty p); rewrite ?Hqs, ?Hpub, ?Hqt; try done. apply Hi. }
  destruct paced.
  - apply Hq; try done. unfold publisher_at, begun_count in *. cbn. split_and!; try done; lia.
  - destruct (next_sequence_at (p <| shm := shm' |> <| sequence ::= fun n => n + 1 |>) pushed)
      as [Hat Hbq]; [cbn; lia|cbn; lia|done|].
    apply Hq; try done. by rewrite Hbq, Hbc.
Qed.

Lemma publisher_step_ok empty p s p' pushed popped :
  inv empty p pushed popped -> publisher_step item_bytes source paced p s = Some p' ->
  inv empty p' pushed popped.
Proof.
  intros Hi Hs. pose proof (i_publisher _ _ _ _ Hi) as Hp.
  destruct s as [|position|now|st|position], (publisher p) eqn:E; cbn [publisher_step] in Hs; rewrite E in Hs; try done.
  - injection Hs as <-. destruct Hp as (Hs0 & Hb & Hc & Hat & Hbusy). rewrite E in Hat, Hbusy.
    unfold begun_count in Hb, Hc. rewrite E in Hb, Hc.
    destruct (next_sequence_at (p <| start := true |>) pushed) as [Hq Hbq]; [cbn; lia|done|done|].
    apply (inv_publisher_quiet empty p); try done. rewrite Hbq. unfold begun_count. by rewrite E.
  - destruct (load _ _ position) as [v|] eqn:El; [|done]. injection Hs as <-.
    assert (0 <= v <= alen pushed) as Hv.
    { destruct (i_consumed _ _ _ _ Hi) as [Hall _]. rewrite Forall_forall in Hall. apply Hall.
      unfold load in El. destruct (position <? _)%nat; [done|]. by eapply list_elem_of_lookup_2. }
    destruct (pushed_read _ _ Hp (i_reader _ _ _ _ Hi)) as [_ Hpb].
    destruct Hp as (Hs0 & Hb & Hc & Hat & Hbusy). rewrite E in Hat, Hbusy.
    unfold begun_count in Hb, Hc, Hpb. rewrite E in Hb, Hc, Hpb.
    rewrite wrap_small by (unfold Shm.kCapacity; lia).
    change (sequence p <| seen_consumed := position |>) with (sequence p).
    destruct (Z.leb_spec (v + Shm.kCapacity - 1) (sequence p)) as [Hle|Hlt];
      apply (inv_publisher_quiet empty p); try done; try (unfold begun_count; cbn; by rewrite E);
      unfold publisher_at, begun_count; cbn; rewrite ?E; split_and!; try done; lia.
  - apply (stamp_ok empty p now); try done. cbn [publisher_step]. by rewrite E.
  - by apply (publish_step_ok empty p st).
  - destruct (load _ _ position) as [v|] eqn:El; [|done]. injection Hs as <-.
    destruct Hp as (Hs0 & Hb & Hc & Hat & Hbusy). rewrite E in Hbusy.
    unfold begun_count in Hb, Hc. rewrite E in Hb, Hc.
    destruct (negb _); [|destruct (next_sequence_at (p <| seen_completed := position |>
      <| sequence ::= fun n => n + 1 |>) pushed) as [Hq Hbq]; [cbn; lia|cbn; lia|done|]].
    + apply (inv_publisher_quiet empty p); try done. unfold publisher_at, begun_count. cbn. rewrite E.
      split_and!; try done; lia.
    + apply (inv_publisher_quiet empty p); try done. rewrite Hbq. unfold begun_count. by rewrite E.
Qed.
End facts.
