(* ===== verification/Level2Threads.v ===== *)
(** * The reader and the consumer of the Level-2 pipeline, step by step

    Every step of either thread keeps the invariant of [Level2Facts]; then so
    does every schedule. *)

From S2P Require Import Prelude BookTypes Binary64 WtsTypes SpscRing.
From S2P Require Import ShmRing ShmFacts ShmReader Level2 Level2Facts.
Import Level2Pipeline.

(** ** Calls on the rings, seen from outside *)

Section calls.
Context (item_bytes : Z).

(** A [try_read] in progress: it goes on, gives up, or returns. *)
Lemma reading_step memory stores d s d' out :
  reading (Shm.at_ d) ->
  match s with Shm.Load _ | Shm.CopyOut => True | _ => False end ->
  Shm.reader_step item_bytes memory stores d s = Some (d', out) ->
  (out = [] /\ reading (Shm.at_ d')) \/
  (Shm.at_ d' = Shm.ReaderIdle /\ (out = [Shm.ReadNothing] \/ exists k item, out = [Shm.Read k item])).
Proof.
  intros Hr Hs Hst. destruct s; try done.
  - apply reader_load in Hst as (l & v & kn & Hl & _ & Hv). unfold Shm.loads in Hl. unfold Shm.after_load in Hv. cbn in Hv.
    destruct (Shm.at_ d) as [| | | | | |before copied|before copied]; try done.
    + unfold Shm.read_published in Hv. destruct (_ || _); injection Hv as <- <-; [right|left]; cbn; eauto.
    + unfold Shm.read_before in Hv. destruct (negb _); injection Hv as <- <-; [right|left]; cbn; eauto.
    + unfold Shm.read_after in Hv. destruct (negb _); injection Hv as <- <-; right; cbn; eauto.
  - cbn [Shm.reader_step] in Hst. destruct (Shm.at_ d); try done. left.
    split; [by case_match; simplify_eq|]. case_match; simplify_eq; cbn; [by case_match|done].
Qed.

Lemma numbered_items_length its lo hi : length (numbered_items its lo hi) = Z.to_nat (hi - lo).
Proof. unfold numbered_items. by rewrite length_map, length_seqZ. Qed.

Lemma reader_shm_step r s r' out :
  Shm.step item_bytes r s = Some (r', out) ->
  match s with Shm.Attach _ | Shm.TryRead | Shm.Load _ | Shm.CopyOut => True | _ => False end ->
  exists d, Shm.reader_step item_bytes (Shm.items r) (Shm.stores r) (Shm.reader r) s = Some (d, out) /\
    r' = r <| Shm.reader := d |>.
Proof.
  intros Hst Hs. unfold Shm.step in Hst. destruct s; try done;
    destruct (Shm.reader_step _ _ _ _ _) as [[d o]|]; try done; injection Hst as <- <-; by exists d.
Qed.
End calls.

Section spsc.
Context {T : Type} `{Inhabited T} (Capacity : Z).
Implicit Types (r : Spsc.t (T := T)).

(** The producer is idle, or pushing [v] with [try_push]. *)
Definition pushes r (v : T) : Prop :=
  match Spsc.producer r with
  | Spsc.ProducerIdle => True
  | Spsc.ProducerLoads w policy dropped => w = v /\ policy = Reject /\ dropped = false
  | Spsc.ProducerWrites w | Spsc.ProducerPublishes w => w = v
  end.

Lemma try_push_step r v s r' out :
  pushes r v ->
  match s with
  | Spsc.Push w policy dropped => w = v /\ policy = Reject /\ dropped = false
  | Spsc.LoadTail _ | Spsc.WriteSlot | Spsc.Publish => True
  | _ => False
  end ->
  Spsc.step Capacity r s = Some (r', out) ->
  (out = [] /\ pushes r' v) \/
  (Spsc.producer r' = Spsc.ProducerIdle /\
    (out = [Spsc.PushReturned v Full] \/ out = [Spsc.PushReturned v Pushed])).
Proof.
  intros Hp Hs Hst. unfold Spsc.step in Hst. unfold pushes in *.
  destruct s; try done; destruct (Spsc.producer r) eqn:E; try done.
  - injection Hst as <- <-. by left.
  - destruct Hp as (-> & -> & ->). unfold Spsc.load_tail in Hst.
    destruct (Spsc.tail r !! position); [|done]. cbn [mbind option_bind] in Hst.
    destruct (_ <? _)%nat; [done|]. destruct (_ =? _); injection Hst as <- <-; [right|left]; cbn; auto.
  - injection Hst as <- <-. left. by cbn.
  - injection Hst as <- <-. right. cbn. subst. auto.
Qed.

Lemma try_pop_step r s r' out :
  match s with Spsc.Pop | Spsc.LoadPublished _ | Spsc.ReadSlot | Spsc.Release => True | _ => False end ->
  Spsc.step Capacity r s = Some (r', out) ->
  Spsc.producer r' = Spsc.producer r /\
  (out = [] \/ out = [Spsc.PopReturned None] \/ exists v, out = [Spsc.PopReturned (Some v)]).
Proof.
  intros Hs Hst. unfold Spsc.step in Hst.
  destruct s; try done; destruct (Spsc.consumer r) eqn:E; try done.
  - injection Hst as <- <-. auto.
  - unfold Spsc.load_published in Hst.
    destruct (Spsc.published r !! position); [|done]. cbn [mbind option_bind] in Hst.
    destruct (_ <? _)%nat; [done|]. destruct (_ =? _); injection Hst as <- <-; auto.
  - injection Hst as <- <-. auto.
  - injection Hst as <- <-. split; [done|]. eauto.
Qed.
End spsc.

Section threads.
Context {B : Type} `{OrderBook B} `{DataItem} (item_bytes : Z).
Context (source : list WTSOrdDtlStruct.t) (paced : bool).
Abbreviation size := (size source).
Abbreviation t := (t (B := B)).
Implicit Types (p : t) (pushed popped : list BookEvent.t).
Hypothesis Hitems : items_ok item_bytes source.
Hypothesis Hsize : size < 2 ^ 63.
Abbreviation inv := (inv item_bytes source).
Abbreviation published_items := (published_items source).
Abbreviation following := (following item_bytes).

(** ** The reader *)

(** What a step of a [try_read] does to what has been read. *)
Lemma follow_step r s r' out its n :
  following r its n -> alen its < 2 ^ 64 - 1 ->
  match s with Shm.TryRead | Shm.Load _ | Shm.CopyOut => True | _ => False end ->
  Shm.step item_bytes r s = Some (r', out) ->
  exists n', following r' its n' /\ n <= n' /\ reads out = numbered_items its n n'.
Proof.
  intros [Hok <-] Hb Hs Hst. assert (begun s = []) as Hbg by (by destruct s).
  destruct (paced_step item_bytes r s r' out its Hok) as (Hok' & Ho & Hle); try done; try (by destruct s).
  { by rewrite Hbg, app_nil_r. }
  rewrite Hbg, app_nil_r in *. by exists (Shm._next (Shm.reader r')).
Qed.

(** A step of the reader that leaves the other threads' parts alone. *)
Lemma inv_reader empty p p' pushed pushed' popped :
  inv empty p pushed popped ->
  (Shm.items (shm p'), Shm.stores (shm p'), Shm.writer (shm p')) =
    (Shm.items (shm p), Shm.stores (shm p), Shm.writer (shm p)) ->
  reader_at item_bytes source p' pushed' -> consumed_at p' pushed' -> producer_at p' ->
  alen pushed <= alen pushed' ->
  (forall i e, pushed' !! i = Some e -> event_of source (source_time p) i e) ->
  SpscRing.ring_ok spsc_capacity (spsc p') pushed' popped ->
  (publisher p', sequence p', source_time p', samples p', completed p', failed p', consumer p', books p') =
    (publisher p, sequence p, source_time p, samples p, completed p, failed p, consumer p, books p) ->
  inv empty p' pushed' popped.
Proof.
  intros [] Hshm Hr Hc Hpr Hle He Hsp Hsame.
  injection Hsame as Ep Es Et Esa Eco Efa Econ Eb. injection Hshm as Ei Est Ew.
  assert (published_items p' = published_items p) as Hpub
    by (unfold Level2Facts.published_items, begun_count; by rewrite Ep, Es).
  constructor; try done.
  - unfold publisher_at, begun_count in *. rewrite Ep, Es, Ew. destruct i_publisher as (? & ? & ? & Hat & ?).
    split_and!; try done; [lia|]. destruct (publisher p); try done; lia.
  - by rewrite Hpub, Ei, Est, Ew.
  - by rewrite Et.
  - by rewrite Et.
  - unfold consumer_at in *. by rewrite Eco, Efa, Econ, Eb, Esa.
Qed.

(** A step of the reader outside the SPSC ring. *)
Lemma inv_reader_shm empty p shm' rd pushed popped :
  inv empty p pushed popped ->
  (exists d, shm' = (shm p) <| Shm.reader := d |>) ->
  reader_at item_bytes source (p <| shm := shm' |> <| reader := rd |>) pushed ->
  match reader p, rd with ReaderStores _, _ => False | _, (ReaderPushes _ _ | ReaderStores _) => False
    | ReaderPushes _ _, _ => False | _, _ => True end ->
  inv empty (p <| shm := shm' |> <| reader := rd |>) pushed popped.
Proof.
  intros Hi (d & ->) Hr Hm. apply (inv_reader empty p _ pushed); try done; try apply Hi.
  - pose proof (i_consumed _ _ _ _ _ _ Hi) as [Hc Hl]. split; [done|]. cbn.
    destruct (reader p), rd; done.
  - pose proof (i_producer _ _ _ _ _ _ Hi) as Hp. unfold producer_at in *. cbn. destruct (reader p), rd; done.
Qed.

Lemma same_shm p rd :
  p <| reader := rd |> = p <| shm := (shm p) <| Shm.reader := Shm.reader (shm p) |> |> <| reader := rd |>.
Proof. by destruct p as [[]]. Qed.

Lemma published_bound empty p pushed popped :
  inv empty p pushed popped -> alen (published_items p) = begun_count p /\ 0 <= begun_count p <= size.
Proof.
  intros Hi. pose proof (begun_range _ _ _ (i_publisher _ _ _ _ _ _ Hi)). split; [|done].
  by apply published_length.
Qed.

Lemma attach_ok empty p pushed popped p' :
  inv empty p pushed popped -> reader p = ReaderAttaches ->
  reader_step item_bytes source p ReaderGoes = Some p' -> inv empty p' pushed popped.
Proof.
  intros Hi E Hs. pose proof (i_reader _ _ _ _ _ _ Hi) as Hr. unfold reader_at in Hr.
  cbn [reader_step] in Hs. rewrite E in Hs, Hr. destruct Hr as (-> & Hdr & Hnx & Hat).
  unfold reader_shm in Hs. destruct (Shm.step _ _ _) as [[shm' out]|] eqn:Hst; [|done].
  cbn [mbind option_bind] in Hs.
  apply reader_shm_step in Hst as (d & Hst & ->); [|done]. cbn in Hst. rewrite Hat in Hst.
  injection Hst as <- <-. injection Hs as <-.
  change (inv empty (p <| shm := (shm p) <| Shm.reader := (Shm.reader (shm p))
    <| Shm.at_ := Shm.AttachLoadsEpoch false false |> |> |> <| reader := ReaderAttaching |>) [] popped).
  apply inv_reader_shm; [done|by eexists| |by rewrite E].
  unfold reader_at, reader_place. cbn. auto.
Qed.

(** The reader starts at number zero: with nothing consumed the publisher has
    not filled the ring, and [oldest] is zero. *)
Lemma attaching_ok empty p pushed popped s p' :
  inv empty p pushed popped -> reader p = ReaderAttaching ->
  reader_step item_bytes source p (ReaderShm s) = Some p' -> inv empty p' pushed popped.
Proof.
  intros Hi E Hs. pose proof (i_reader _ _ _ _ _ _ Hi) as Hr. unfold reader_at in Hr.
  destruct (published_bound _ _ _ _ Hi) as [Hlen Hb].
  assert (match s with Shm.Load _ | Shm.CopyOut => True | _ => False end /\ reader_shm item_bytes p s = Some p')
    as [Hsc Hs'] by (cbn [reader_step] in Hs; rewrite E in Hs; by destruct s).
  clear Hs. rewrite E in Hr. destruct Hr as (-> & Hdr & Hnx & Hat).
  unfold reader_shm in Hs'. destruct (Shm.step _ _ _) as [[shm' out]|] eqn:Hst; [|done].
  cbn [mbind option_bind] in Hs'.
  apply reader_shm_step in Hst as (d & Hst & ->); [|by destruct s].
  destruct s; try done; [|by cbn in Hst; destruct Hat as [Hat|Hat]; rewrite Hat in Hst].
  apply reader_load in Hst as (l & v & kn & Hl & El & Hv). unfold Shm.after_load in Hv. cbn in Hv.
  unfold Shm.loads in Hl.
  destruct Hat as [Hat|Hat]; rewrite Hat in Hv, Hl.
  - injection Hv as <- <-. injection Hs' as <-.
    match goal with |- inv _ (?q <| shm := ?x |>) _ _ =>
      replace (q <| shm := x |>) with (q <| shm := x |> <| reader := ReaderAttaching |>)
        by (destruct q; cbn in *; by subst) end.
    apply inv_reader_shm; [done|by eexists| |by rewrite E].
    unfold reader_at, reader_place. cbn. auto.
  - injection Hl as <-.
    pose proof (w_timeline _ _ _ _ _ (i_writer _ _ _ _ _ _ Hi)) as Htl.
    pose proof (stored_range item_bytes (Shm.writer (shm p)) (published_items p)) as Hst.
    destruct (i_publisher _ _ _ _ _ _ Hi) as (_ & _ & Hpace & _). change (alen []) with 0 in Hpace.
    assert ((if v =? Shm.kNoSequence then 0 else Shm.oldest v) = 0) as Hzero.
    { destruct (Z.eqb_spec v Shm.kNoSequence); [done|].
      destruct (load_published _ _ _ _ _ _ _ Htl El) as [_ [?|[Hv0 _]]]; [done|].
      rewrite oldest_spec by lia. unfold Shm.kCapacity in *. lia. }
    unfold Shm.attach_published in Hv. rewrite Hzero in Hv. injection Hv as <- <-. injection Hs' as <-.
    apply inv_reader_shm; [done|by eexists| |by rewrite E].
    unfold reader_at, reader_place. cbn. split; [|done]. split; [|done].
    pose proof (i_writer _ _ _ _ _ _ Hi) as Hw.
    split_and!; [split; [exact Hw|]|by split|change (alen (published_items p) <= 0 + Shm.kCapacity); lia].
    constructor; cbn; try done; [|lia].
    change (0 <= 0 <= stored (Shm.writer (shm p)) (published_items p)).
    rewrite Hlen in *. destruct (Shm.writer (shm p)) eqn:Ew; cbn in Hst |- *; rewrite ?Hlen in *; try lia.
    destruct (w_at _ _ _ _ _ Hw) as (-> & ? & _). lia.
Qed.

Lemma reads_ok empty p pushed popped s p' :
  inv empty p pushed popped -> reader p = ReaderReads ->
  reader_step item_bytes source p (ReaderShm s) = Some p' -> inv empty p' pushed popped.
Proof.
  intros Hi E Hs. pose proof (i_reader _ _ _ _ _ _ Hi) as Hr. unfold reader_at in Hr.
  destruct (published_bound _ _ _ _ Hi) as [Hlen Hb].
  assert (match s with Shm.Load _ | Shm.CopyOut => True | _ => False end /\ reader_shm item_bytes p s = Some p')
    as [Hsc Hs'] by (cbn [reader_step] in Hs; rewrite E in Hs; by destruct s).
  clear Hs. rewrite E in Hr. destruct Hr as [Hf Hrd].
  unfold reader_shm in Hs'. destruct (Shm.step _ _ _) as [[shm' out]|] eqn:Hst; [|done].
  cbn [mbind option_bind] in Hs'.
  destruct (follow_step (shm p) s shm' out _ _ Hf ltac:(lia) ltac:(by destruct s) Hst) as (n' & Hf' & Hle & Ho).
  apply reader_shm_step in Hst as (d & Hst & ->); [|by destruct s].
  pose proof (numbered_items_length (published_items p) (alen pushed) n') as Hcount. rewrite <- Ho in Hcount.
  assert (forall rd, publisher_at source (p <| shm := (shm p) <| Shm.reader := d |> |> <| reader := rd |>) pushed)
    as Hpub by (intros rd; exact (i_publisher _ _ _ _ _ _ Hi)).
  destruct (reading_step item_bytes _ _ _ _ _ _ Hrd Hsc Hst) as [[-> Hrd']|[Hidle [->|(k & item & ->)]]];
    cbn in Hcount; injection Hs' as <-.
  - match goal with |- inv _ (?q <| shm := ?x |>) _ _ =>
      replace (q <| shm := x |>) with (q <| shm := x |> <| reader := ReaderReads |>)
        by (destruct q; cbn in *; by subst) end.
    apply inv_reader_shm; [done|by eexists| |by rewrite E].
    unfold reader_at, reader_place. cbn. split; [|done]. by replace (alen pushed) with n' by lia.
  - apply inv_reader_shm; [done|by eexists| |by rewrite E].
    unfold reader_at, reader_place. cbn. split; [|done]. by replace (alen pushed) with n' by lia.
  - assert (n' = alen pushed + 1) as -> by lia. rewrite numbered_items_one in Ho. injection Ho as -> ->.
    apply inv_reader_shm; [done|by eexists| |by rewrite E].
    unfold reader_at, reader_place. cbn. split_and!; try done.
    pose proof (following_bound _ _ _ _ _ (Hpub ReaderReads) Hf') as Hlt. cbn in Hlt.
    change (0 <= alen pushed + 1 <= begun_count p) in Hlt.
    unfold alen in *. unfold Level2Pipeline.size, alen in *.
    destruct (lookup_lt_is_Some_2 source (length pushed)) as [o Ho]; [lia|]. exists o. split; [done|].
    unfold Level2Facts.published_items, aget. rewrite Nat2Z.id.
    apply list_lookup_total_correct, list_lookup_fmap_Some. exists o. split; [done|].
    rewrite lookup_take_lt by lia. exact Ho.
Qed.

(** The head of the reader's loop. *)
Lemma loop_ok empty p pushed popped p' :
  inv empty p pushed popped -> reader p = ReaderLoops ->
  reader_step item_bytes source p ReaderGoes = Some p' -> inv empty p' pushed popped.
Proof.
  intros Hi E Hs. pose proof (i_reader _ _ _ _ _ _ Hi) as Hr. unfold reader_at in Hr.
  destruct (published_bound _ _ _ _ Hi) as [Hlen Hb].
  cbn [reader_step] in Hs. rewrite E in Hs, Hr. destruct Hr as [Hf Hat].
  pose proof (following_bound _ _ _ _ _ (i_publisher _ _ _ _ _ _ Hi) Hf) as Hbound.
  assert (Shm._next (Shm.reader (shm p)) = alen pushed) as Hnx by (by destruct Hf).
  destruct (Z.ltb_spec (Shm._next (Shm.reader (shm p))) size) as [Hlt|Hge].
  - unfold reader_shm in Hs. destruct (Shm.step _ _ _) as [[shm' out]|] eqn:Hst; [|done].
    cbn [mbind option_bind] in Hs.
    change (Shm.step item_bytes (shm p) Shm.TryRead = Some (shm', out)) in Hst.
    destruct (follow_step (shm p) Shm.TryRead shm' out _ _ Hf ltac:(lia) I Hst) as (n' & Hf' & _ & Ho).
    apply reader_shm_step in Hst as (d & Hst & ->); [|done]. cbn [Shm.reader_step] in Hst. rewrite Hat in Hst.
    destruct Hf as [[[_ [_ _ Hini _]] _] _]. rewrite Hini in Hst. injection Hst as <- <-. injection Hs as <-.
    change (inv empty (p <| shm := (shm p) <| Shm.reader := (Shm.reader (shm p))
      <| Shm.at_ := Shm.ReadLoadsPublished |> |> |> <| reader := ReaderReads |>) pushed popped).
    apply inv_reader_shm; [done|by eexists| |by rewrite E].
    unfold reader_at, reader_place. cbn. split; [|done]. destruct Hf' as [Hok Hn']. split; [exact Hok|].
    cbn in Hn' |- *. lia.
  - destruct Hf as [[Hok [[Hd Hc] Hp]] _]. rewrite Hd in Hs. injection Hs as <-.
    rewrite same_shm. apply inv_reader_shm; [done|by eexists| |by rewrite E].
    unfold reader_at, reader_place. cbn. split_and!; [|done|lia]. split; [by split|done].
Qed.

Lemma make_event_ok empty p pushed popped n item now p' :
  inv empty p pushed popped -> reader p = ReaderHas n item ->
  reader_step item_bytes source p (MakeEvent now) = Some p' -> inv empty p' pushed popped.
Proof.
  intros Hi E Hs. pose proof (i_reader _ _ _ _ _ _ Hi) as Hr. unfold reader_at in Hr.
  cbn [reader_step] in Hs. rewrite E in Hs, Hr. destruct Hr as (Hf & Hat & -> & o & Ho & ->).
  injection Hs as <-. apply (inv_reader empty p _ pushed); try done; try apply Hi.
  - unfold reader_at, reader_place. cbn. split_and!; try done. exists o. split; [done|].
    unfold items_ok in Hitems. rewrite Forall_forall in Hitems.
    destruct (Hitems o) as [_ ->]; [by eapply list_elem_of_lookup_2|]. done.
  - pose proof (i_consumed _ _ _ _ _ _ Hi) as [Hc Hl]. rewrite E in Hl. by split.
  - pose proof (i_producer _ _ _ _ _ _ Hi) as Hp. unfold producer_at in *. rewrite E in Hp. cbn. by rewrite Hp.
Qed.

Lemma push_ok empty p pushed popped n e s p' :
  inv empty p pushed popped -> reader p = ReaderPushes n e ->
  reader_step item_bytes source p (PushStep s) = Some p' ->
  exists pushed', inv empty p' pushed' popped.
Proof.
  intros Hi E Hs. pose proof (i_reader _ _ _ _ _ _ Hi) as Hr. unfold reader_at in Hr.
  pose proof (i_producer _ _ _ _ _ _ Hi) as Hp. unfold producer_at in Hp. rewrite E in Hr, Hp.
  destruct (i_consumed _ _ _ _ _ _ Hi) as [Hc Hl]. rewrite E in Hl.
  assert (exists s', match s' with
    | Spsc.Push w policy dropped => w = e /\ policy = Reject /\ dropped = false
    | Spsc.LoadTail _ | Spsc.WriteSlot | Spsc.Publish => True
    | _ => False end /\ push_step p n s' = Some p') as (s' & Hs' & Hstep).
  { cbn [reader_step] in Hs. rewrite E in Hs. destruct s as [w policy dropped|pos| | | |pos| |]; try done;
      [exists (Spsc.Push e Reject false)|exists (Spsc.LoadTail pos)|exists Spsc.WriteSlot|exists Spsc.Publish]; done. }
  clear Hs. unfold push_step in Hstep. destruct (Spsc.step _ _ _) as [[spsc' out]|] eqn:Hst; [|done].
  cbn [mbind option_bind] in Hstep.
  destruct (SpscRing.step_ok spsc_capacity spsc_capacity_ok _ _ _ _ _ _ (i_spsc _ _ _ _ _ _ Hi) Hst) as [Hok _].
  destruct Hr as (Hf & Hat & -> & He).
  destruct (try_push_step spsc_capacity _ e s' _ _ Hp Hs' Hst) as [[-> Hp']|[Hidle [->| ->]]];
    injection Hstep as <-; cbn in Hok; rewrite ?app_nil_r in Hok.
  - exists pushed. apply (inv_reader empty p _ pushed); try done; try apply Hi.
    unfold producer_at. cbn. by rewrite E.
  - exists pushed. apply (inv_reader empty p _ pushed); try done; try apply Hi.
    unfold producer_at. cbn. by rewrite E, Hidle.
  - assert (alen (pushed ++ [e]) = alen pushed + 1) as Hlen by (unfold alen; rewrite length_app; cbn; lia).
    exists (pushed ++ [e]). apply (inv_reader empty p _ pushed); try done; try lia.
    + unfold reader_at, reader_place. cbn. by rewrite Hlen.
    + split; [|done]. cbn. eapply Forall_impl; [exact Hc|]. cbn. lia.
    + intros i x [Hx|[Hi' Hx]]%lookup_app_Some; [by apply (i_pushed _ _ _ _ _ _ Hi)|].
      apply list_lookup_singleton_Some in Hx as [Hz <-]. by replace i with (length pushed) by lia.
Qed.

Lemma l2_reader_step_ok empty p pushed popped s p' :
  inv empty p pushed popped -> reader_step item_bytes source p s = Some p' ->
  exists pushed', inv empty p' pushed' popped.
Proof.
  intros Hi Hs. pose proof (i_reader _ _ _ _ _ _ Hi) as Hr. unfold reader_at in Hr.
  destruct s as [|s|now|s].
  - destruct (reader p) eqn:E; cbn [reader_step] in Hs; rewrite E in Hs; try done.
    + exists pushed. apply (attach_ok empty p); try done. cbn [reader_step]. by rewrite E.
    + exists pushed. destruct (start p); injection Hs as <-; [|done].
      rewrite same_shm. apply inv_reader_shm; [done|by eexists| |by rewrite E]. exact Hr.
    + exists pushed. apply (loop_ok empty p); try done. cbn [reader_step]. by rewrite E.
    + injection Hs as <-. destruct Hr as (Hf & Hat & Hn). exists pushed.
      apply (inv_reader empty p _ pushed); try done; try apply Hi.
      * destruct (i_consumed _ _ _ _ _ _ Hi) as [Hc Hl]. split; cbn.
        -- apply Forall_app. split; [done|]. constructor; [|done]. unfold alen in *. lia.
        -- rewrite List.last_last. lia.
      * pose proof (i_producer _ _ _ _ _ _ Hi) as Hp. unfold producer_at in *. by rewrite E in Hp.
  - exists pushed. destruct (reader p) eqn:E; cbn [reader_step] in Hs; rewrite E in Hs; try done.
    + apply (attaching_ok empty p pushed popped s); try done. cbn [reader_step]. by rewrite E.
    + apply (reads_ok empty p pushed popped s); try done. cbn [reader_step]. by rewrite E.
  - exists pushed. destruct (reader p) as [| | | | |n item| | |] eqn:E; cbn [reader_step] in Hs; rewrite E in Hs; try done.
    apply (make_event_ok empty p pushed popped n item now); try done. cbn [reader_step]. by rewrite E.
  - destruct (reader p) as [| | | | | |n e| |] eqn:E; cbn [reader_step] in Hs; rewrite E in Hs; try done.
    apply (push_ok empty p pushed popped n e s); try done. cbn [reader_step]. by rewrite E.
Qed.

(** ** The consumer *)

(** A step of the consumer: the other threads' parts stay. *)
Lemma inv_consumer empty p p' pushed popped popped' :
  inv empty p pushed popped ->
  consumer_at source empty p' popped' ->
  SpscRing.ring_ok spsc_capacity (spsc p') pushed popped' ->
  Spsc.producer (spsc p') = Spsc.producer (spsc p) ->
  (shm p', source_time p', shm_consumed p', publisher p', sequence p', reader p') =
    (shm p, source_time p, shm_consumed p, publisher p, sequence p, reader p) ->
  inv empty p' pushed popped'.
Proof.
  intros [] Hc Hs Hp Hsame. injection Hsame as Eshm Et Ec Ep Es Er.
  assert (published_items p' = published_items p) as Hpub
    by (unfold Level2Facts.published_items, begun_count; by rewrite Ep, Es).
  constructor; try done.
  - unfold publisher_at, begun_count in *. by rewrite Ep, Es, Eshm.
  - by rewrite Hpub, Eshm.
  - unfold reader_at. by rewrite Er, Eshm, Et, Hpub.
  - unfold consumed_at. by rewrite Ec, Er.
  - by rewrite Et.
  - by rewrite Et.
  - unfold producer_at. by rewrite Er, Hp.
Qed.

Lemma popped_range empty p pushed popped :
  inv empty p pushed popped -> alen popped <= alen pushed <= size.
Proof.
  intros Hi. pose proof (popped_le _ _ _ _ (i_spsc _ _ _ _ _ _ Hi)) as Hle.
  destruct (pushed_read item_bytes source p pushed (i_publisher _ _ _ _ _ _ Hi) (i_reader _ _ _ _ _ _ Hi)) as [_ Hb].
  destruct (published_bound _ _ _ _ Hi) as [_ ?]. unfold alen in *. lia.
Qed.

Lemma pop_ok empty p pushed popped s p' :
  inv empty p pushed popped ->
  match s with Spsc.Pop => consumer p = ConsumerLoops | _ => consumer p = ConsumerPops end ->
  match s with Spsc.Pop | Spsc.LoadPublished _ | Spsc.ReadSlot | Spsc.Release => True | _ => False end ->
  pop_step (p <| consumer := ConsumerPops |>) s = Some p' ->
  exists popped', inv empty p' pushed popped'.
Proof.
  intros Hi E Hs Hstep. pose proof (i_consumer _ _ _ _ _ _ Hi) as (Hf & Hsa & Hl & Hbk & Hco).
  unfold pop_step in Hstep. destruct (Spsc.step _ _ _) as [[spsc' out]|] eqn:Hst; [|done].
  change (Spsc.step spsc_capacity (spsc p) s = Some (spsc', out)) in Hst. cbn [mbind option_bind] in Hstep.
  destruct (SpscRing.step_ok spsc_capacity spsc_capacity_ok _ _ _ _ _ _ (i_spsc _ _ _ _ _ _ Hi) Hst) as [Hok _].
  assert (books p = foldl process (mkBooks empty (PipelineSink.mk 0 0 0) 0 0 false) popped /\
    List.last (completed p) 0 = received (books p)) as [Hb Hc] by (destruct s; rewrite E in Hbk, Hco; done).
  destruct (try_pop_step spsc_capacity _ s _ _ Hs Hst) as [Hp [->|[->|[v ->]]]];
    injection Hstep as <-; cbn in Hok; rewrite ?app_nil_r in Hok.
  - exists popped. by apply (inv_consumer empty p _ pushed popped).
  - exists popped. by apply (inv_consumer empty p _ pushed popped).
  - exists (popped ++ [v]). apply (inv_consumer empty p _ pushed popped); try done.
    unfold consumer_at. cbn. split_and!; try done. by exists popped.
Qed.

Lemma sample_adds_up e book_begin finish : stages_add_up (sample e book_begin finish).
Proof.
  unfold stages_add_up, sample. cbn. unfold wrap.
  rewrite Zplus_mod_idemp_r, <- Z.add_assoc, Zplus_mod_idemp_l, Z.add_assoc, (Z.add_comm _ (_ mod _)).
  rewrite <- Z.add_assoc, Zplus_mod_idemp_l. f_equal. lia.
Qed.

Lemma consumer_step_ok empty p pushed popped s p' :
  inv empty p pushed popped -> consumer_step source p s = Some p' ->
  exists popped', inv empty p' pushed popped'.
Proof.
  intros Hi Hs. pose proof (i_consumer _ _ _ _ _ _ Hi) as (Hf & Hsa & Hl & Hbk & Hco).
  pose proof (i_spsc _ _ _ _ _ _ Hi) as Hspsc.
  destruct s as [|s|book_begin finish], (consumer p) eqn:E; cbn [consumer_step] in Hs; rewrite E in Hs; try done.
  - exists popped. destruct (start p); injection Hs as <-; [|done].
    apply (inv_consumer empty p _ pushed popped); try done.
  - destruct (Z.ltb_spec (received (books p)) size) as [Hlt|Hge].
    + by apply (pop_ok empty p pushed popped Spsc.Pop).
    + exists popped. injection Hs as <-. apply (inv_consumer empty p _ pushed popped); try done.
      pose proof (popped_range _ _ _ _ Hi). assert (received (books p) = alen popped) as Hrec
        by (rewrite Hbk, received_foldl; done).
      unfold consumer_at. cbn. split_and!; try done; lia.
  - exists popped. injection Hs as <-. apply (inv_consumer empty p _ pushed popped); try done.
    unfold consumer_at. cbn. split_and!; try done. by rewrite List.last_last.
  - assert (pop_step (p <| consumer := ConsumerPops |>) s = Some p') as Hpop; [|by destruct s; try done;
      eapply (fun H1 H2 => pop_ok empty p _ _ _ _ Hi H1 H2 Hpop)].
    destruct s; try done;
      replace (p <| consumer := ConsumerPops |>) with p by (destruct p; cbn in *; by subst); exact Hs.
  - destruct Hbk as (old & -> & Hbk). exists (old ++ [event]).
    remember (process (books p) event) as b eqn:Eb.
    assert (foldl process (mkBooks empty (PipelineSink.mk 0 0 0) 0 0 false) (old ++ [event]) = b) as Hfold
      by (by rewrite foldl_app, <- Hbk, Eb).
    assert (refused b = refused b || failed p) as Hrb.
    { destruct (refused b) eqn:Er; [done|]. rewrite Hf. destruct (refused (books p)) eqn:Er'; [|done].
      by rewrite Eb, refused_process in Er. }
    assert (p' = p <| books := b |> <| samples ::= fun l => l ++ [sample event book_begin finish] |>
      <| failed := refused b || failed p |> <| consumer := ConsumerStores |>) as ->.
    { destruct (refused b); injection Hs as <-; by destruct p. }
    apply (inv_consumer empty p _ pushed (old ++ [event])); try done.
    unfold consumer_at. cbn -[foldl]. split_and!; try done.
    + apply Forall_app. split; [done|]. constructor; [apply sample_adds_up|done].
    + rewrite Eb, received_process, <- Hl. unfold alen. rewrite length_app. cbn. lia.
Qed.

(** ** Schedules *)

Lemma l2_step_ok empty p pushed popped s p' :
  inv empty p pushed popped -> step item_bytes source paced p s = Some p' ->
  exists pushed' popped', inv empty p' pushed' popped'.
Proof.
  intros Hi Hs. destruct s as [s|s|s]; cbn [step] in Hs.
  - exists pushed, popped. by apply (publisher_step_ok item_bytes source paced Hitems Hsize empty p s).
  - destruct (l2_reader_step_ok empty p pushed popped s p' Hi Hs) as [pushed' ?]. by exists pushed', popped.
  - destruct (consumer_step_ok empty p pushed popped s p' Hi Hs) as [popped' ?]. by exists pushed, popped'.
Qed.

Lemma l2_run_ok empty p pushed popped schedule p' :
  inv empty p pushed popped -> run item_bytes source paced p schedule = Some p' ->
  exists pushed' popped', inv empty p' pushed' popped'.
Proof.
  revert p pushed popped. induction schedule as [|s schedule IH]; intros p pushed popped Hi Hr; cbn in Hr.
  - injection Hr as <-. by exists pushed, popped.
  - destruct (step item_bytes source paced p s) as [p1|] eqn:Es; [|done].
    destruct (l2_step_ok _ _ _ _ _ _ Hi Es) as (pushed1 & popped1 & Hi1). by apply (IH p1 pushed1 popped1).
Qed.
End threads.
