(* ===== verification/Level2Properties.v ===== *)
(** * Properties of the Level-2 pipeline

    For every interleaving of the three threads: the consumer enters the source
    into its book in order, nothing is dropped on the way, and the result does
    not depend on the schedule; the run over generated events validates itself. *)

From S2P Require Import Prelude BookTypes Binary64 WtsTypes SpscRing.
From S2P Require Import DenseBook DenseFeed DenseQueries PriceTimeBook PriceTimeFacts.
From S2P Require Import ShmRing ShmFacts ShmReader Level2 Level2Book Level2Facts Level2Threads.
Import Level2Pipeline.

(** ** The sequential run *)

Section sequential.
Context {B : Type} `{OrderBook B}.

Definition fresh_books (empty : B) : Books := mkBooks empty (PipelineSink.mk 0 0 0) 0 0 false.

(** The orders entered one after the other, by one thread. *)
Definition sequential (empty : B) (orders : list WTSOrdDtlStruct.t) : Books :=
  foldl process (fresh_books empty) (map (fun o => make_event o 0 0) orders).

Lemma process_request (b : Books (B := B)) e e' : request e = request e' -> process b e = process b e'.
Proof. intros He. unfold process. by rewrite He. Qed.

(** The times an event carries do not matter to the book. *)
Lemma foldl_events times source es b :
  (forall i e, es !! i = Some e -> event_of source times i e) ->
  foldl process b es = foldl process b (map (fun o => make_event o 0 0) (take (length es) source)).
Proof.
  revert b. induction es as [|e es IH] using rev_ind; intros b Hev; [done|].
  rewrite foldl_app, length_app. cbn [foldl length].
  destruct (Hev (length es) e) as (o & Ho & ->); [by rewrite lookup_app_r, Nat.sub_diag by lia|].
  rewrite Nat.add_1_r, (take_S_r _ _ _ Ho), map_app, foldl_app. cbn [map foldl].
  rewrite IH; [by apply process_request|]. intros i e' Hi. apply Hev. by apply lookup_app_l_Some.
Qed.
End sequential.

Section properties.
Context {B : Type} `{OrderBook B} `{DataItem} (item_bytes : Z).
Context (source : list WTSOrdDtlStruct.t) (paced : bool).
Abbreviation size := (size source).

(** What an invariant state says of the books. *)
Lemma inv_books empty (p : t (B := B)) pushed popped :
  inv item_bytes source empty p pushed popped -> size < 2 ^ 63 ->
  books p = sequential empty (take (Z.to_nat (received (books p))) source) /\ 0 <= received (books p) <= size.
Proof.
  intros Hi Hsize. pose proof (popped_range item_bytes source _ _ _ _ Hi) as Hr.
  assert (forall i e, popped !! i = Some e -> event_of source (source_time p) i e) as Hev.
  { intros i e He. apply (i_pushed _ _ _ _ _ _ Hi). rewrite (ring_popped _ _ _ _ (i_spsc _ _ _ _ _ _ Hi)) in He.
    by apply lookup_take_Some in He as [? _]. }
  destruct (i_consumer _ _ _ _ _ _ Hi) as (_ & _ & _ & Hb & _). fold (fresh_books empty) in Hb.
  assert (exists old, books p = foldl process (fresh_books empty) old /\
    (forall i e, old !! i = Some e -> event_of source (source_time p) i e) /\ alen old <= alen popped)
    as (old & Hold & Hevo & Hle).
  { destruct (consumer p); try (by exists popped). destruct Hb as (old & -> & Hb). exists old. split_and!; [done| |].
    - intros i e He. apply Hev. by apply lookup_app_l_Some.
    - unfold alen. rewrite length_app. lia. }
  assert (received (books p) = alen old) as Hrec by (rewrite Hold, received_foldl; done).
  split; [|unfold alen in *; lia]. unfold sequential. rewrite Hrec. unfold alen at 1. rewrite Nat2Z.id.
  rewrite Hold at 1. by apply (foldl_events (source_time p)).
Qed.

(** C8: for every interleaving of the three threads and every value their
    loads may return, the reader drops nothing, and the consumer's book, sink
    and counters are those of entering the first events of the source one after
    the other; every stage sample adds up to its end-to-end time; a finished
    run has entered the whole source, each event once. *)
Theorem every_schedule_books_the_source epoch empty schedule p :
  items_ok item_bytes source -> size < 2 ^ 63 ->
  run item_bytes source paced (make item_bytes source epoch empty) schedule = Some p ->
  let b := books p in
  b = sequential empty (take (Z.to_nat (received b)) source) /\ 0 <= received b <= size /\
  Shm._dropped (Shm.reader (shm p)) = 0 /\ failed p = refused b /\
  alen (samples p) = received b /\ Forall stages_add_up (samples p) /\
  (finished p -> b = sequential empty source /\ received b = size /\
    List.last (completed p) 0 = size /\ List.last (shm_consumed p) 0 = size).
Proof.
  intros Hitems Hsize Hr.
  destruct (l2_run_ok item_bytes source paced Hitems Hsize empty _ [] [] _ _ (inv_make item_bytes source epoch empty) Hr)
    as (pushed & popped & Hi).
  destruct (inv_books empty p pushed popped Hi Hsize) as [Hb Hrange].
  destruct (i_consumer _ _ _ _ _ _ Hi) as (Hf & Hsa & Hl & _ & Hco).
  cbn zeta. split_and!; try done; try lia.
  - pose proof (i_reader _ _ _ _ _ _ Hi) as Hrd. unfold reader_at, reader_place in Hrd.
    destruct (reader p); destruct Hrd as [Hfo Hrd]; try (by destruct Hrd);
      by destruct Hfo as [(_ & [Hd _] & _) _].
  - intros (_ & Hrdone & Hcdone). rewrite Hcdone in Hco. destruct Hco as [Hlast Hrec].
    pose proof (i_reader _ _ _ _ _ _ Hi) as Hrd. destruct (i_consumed _ _ _ _ _ _ Hi) as [_ Hcl].
    unfold reader_at in Hrd. rewrite Hrdone in Hrd, Hcl. destruct Hrd as (_ & _ & Hn).
    split_and!; [|done|done|congruence].
    rewrite Hb, Hrec. unfold Level2Pipeline.size, alen. by rewrite Nat2Z.id, firstn_all.
Qed.
End properties.

(** ** Generated events *)

Section generated.
Context {B : Type} `{OrderBook B} `{DataItem} (item_bytes : Z) (paced : bool) (n : nat).
Context (capacity : Z) (priced : Z -> Prop) (holds : B -> list Resting -> Prop).
Context `{!BookLaws capacity priced holds}.

(** Whatever the book, as long as it keeps its promises. *)
Lemma generated_exit epoch empty schedule p :
  items_ok item_bytes (generated_events n) -> Z.of_nat n < 2 ^ 63 -> Z.of_nat n < capacity ->
  holds empty [] -> (forall i, 0 <= i < Z.of_nat n -> priced (generated_ticks i)) ->
  run item_bytes (generated_events n) paced (make item_bytes (generated_events n) epoch empty) schedule = Some p ->
  finished p -> exit_code (generated_events n) true p = 0.
Proof.
  intros Hitems Hn Hcap Hh Hpr Hr Hfin.
  assert (Level2Pipeline.size (generated_events n) = Z.of_nat n) as Hsize.
  { unfold Level2Pipeline.size, alen, generated_events. by rewrite length_map, length_seq. }
  destruct (l2_run_ok item_bytes (generated_events n) paced Hitems ltac:(lia) empty _ [] [] _ _
    (inv_make item_bytes (generated_events n) epoch empty) Hr) as (pushed & popped & Hi).
  destruct (inv_books _ _ _ _ _ _ Hi ltac:(lia)) as [Hb _].
  destruct (i_consumer _ _ _ _ _ _ Hi) as (Hf & _ & _ & _ & Hco). destruct Hfin as (_ & Hrd & Hcd).
  rewrite Hcd in Hco. destruct Hco as [Hlast Hrec].
  destruct (i_consumed _ _ _ _ _ _ Hi) as [_ Hcl]. pose proof (i_reader _ _ _ _ _ _ Hi) as Hread.
  unfold reader_at in Hread. rewrite Hrd in Hcl, Hread. destruct Hread as (_ & _ & Hpn).
  rewrite Hrec, Hsize, Nat2Z.id, take_ge in Hb by (unfold generated_events; rewrite length_map, length_seq; lia).
  destruct (generated_run capacity priced holds (Z.of_nat n) Hpr (fresh_books empty) n) as (m & Hg); [|done|done|done|].
  { split_and!; try done. constructor; [intros o Ho; by apply elem_of_nil in Ho..|done]. }
  fold (sequential empty (generated_events n)) in Hg. rewrite <- Hb in Hg.
  destruct Hg as (_ & _ & _ & Href & Hs & Ht & Hv).
  unfold exit_code. rewrite Hf, Href, Hs, Ht, Hv, Hlast, Hcl, Hpn, Hsize, !Z.eqb_refl. done.
Qed.
End generated.

(** The window inferred from generated events prices them all. *)
Lemma generated_window n w :
  infer_price_window (generated_events n) = Some w -> (0 < n)%nat ->
  0 < PriceWindow.tick_size w /\ 0 < PriceWindow.minimum w /\ 0 <= PriceWindow.levels w <= 200000 /\
  forall i, 0 <= i < Z.of_nat n -> exists k,
    generated_ticks i = PriceWindow.minimum w + k * PriceWindow.tick_size w /\ 0 <= k < PriceWindow.levels w.
Proof.
  intros Hw Hn.
  assert (forall e, e ∈ generated_events n -> exists i, 0 <= i < Z.of_nat n /\ e = generated_event i) as Hgen.
  { intros e (i & -> & Hi%elem_of_seq)%list_elem_of_fmap. exists (Z.of_nat i). split; [lia|done]. }
  assert (forall i, 0 <= i < Z.of_nat n -> generated_event i ∈ generated_events n) as Hgen'.
  { intros i Hi. unfold generated_events. rewrite <- (Z2Nat.id i) by lia.
    apply (list_elem_of_fmap_2 (fun k => generated_event (Z.of_nat k))). apply elem_of_seq. lia. }
  assert (forall e, e ∈ generated_events n -> is_priced e = true) as Hpr.
  { intros e (i & Hi & ->)%Hgen. unfold is_priced. by rewrite generated_positive by lia. }
  assert (prices_ok (generated_events n)) as Hok.
  { intros e (i & Hi & ->)%Hgen _. rewrite ticks_generated by lia. pose proof (generated_prices i). lia. }
  assert (forall p, p ∈ priced_ticks (generated_events n) -> exists i, 0 <= i < Z.of_nat n /\ p = generated_ticks i)
    as Hticks.
  { intros p (e & -> & [_ (i & Hi & ->)%Hgen]%list_elem_of_filter)%list_elem_of_fmap. exists i.
    split; [done|]. by rewrite ticks_generated by lia. }
  assert (forall i, 0 <= i < Z.of_nat n -> generated_ticks i ∈ priced_ticks (generated_events n)) as Hticks'.
  { intros i Hi. rewrite <- ticks_generated by lia. apply priced_ticks_elem; auto. }
  destruct (inferred_window (generated_events n) w Hok Hw) as (Ht & Hmin & (maximum & Hmax & Hlev) & Hgrid).
  { intros Hnil. specialize (Hticks' 0 ltac:(lia)). rewrite Hnil in Hticks'. by apply elem_of_nil in Hticks'. }
  apply Hticks in Hmin as (i & Hi & Hmin), Hmax as (j & Hj & Hmax).
  pose proof (generated_prices i ltac:(lia)) as [? _]. pose proof (generated_prices j ltac:(lia)) as [? _].
  split_and!; [done|lia| | |].
  - destruct (Hgrid (generated_ticks i)) as (k & _ & ?); [by apply Hticks'|lia].
  - rewrite Hlev. assert ((maximum - PriceWindow.minimum w) / PriceWindow.tick_size w <= 160000); [|lia].
    apply Z.div_le_upper_bound; nia.
  - intros l Hl. apply Hgrid. auto.
Qed.

(** C9: when no file is given, whatever the schedule, with or without pacing,
    for either book and any number of generated events, a finished run
    validates itself: no order was refused, every 1024th event brought a
    simulated order that traded exactly one share, and [main] returns 0. *)
Theorem generated_run_passes `{DataItem} item_bytes paced n epoch schedule :
  let source := generated_events n in
  let capacity := book_capacity (Level2Pipeline.size source) in
  items_ok item_bytes source -> (0 < n)%nat -> Z.of_nat n < 2 ^ 63 ->
  (forall p, run item_bytes source paced (make item_bytes source epoch (PriceTimeOrderBook.make capacity))
      schedule = Some p -> finished p -> exit_code source true p = 0) /\
  (forall w b p, infer_price_window source = Some w -> capacity < 2 ^ 32 ->
    DensePriceOrderBook.make capacity (PriceWindow.minimum w) (PriceWindow.tick_size w) (PriceWindow.levels w) =
      Some b ->
    run item_bytes source paced (make item_bytes source epoch b) schedule = Some p -> finished p ->
    exit_code source true p = 0).
Proof.
  intros source capacity Hitems Hn Hmax.
  assert (Level2Pipeline.size source = Z.of_nat n) as Hsize.
  { unfold Level2Pipeline.size, alen, source, generated_events. by rewrite length_map, length_seq. }
  assert (Z.of_nat n < capacity < 2 ^ 64) as Hcap by (unfold capacity, book_capacity; rewrite Hsize; dlia).
  split.
  - intros p. apply (generated_exit item_bytes paced n capacity _ _ epoch _ schedule p Hitems); try done; try lia.
    + apply PriceTimeFacts.pt_make_represents. lia.
    + intros i Hi. pose proof (generated_prices i). lia.
  - intros w b p Hw Hc32 Hb.
    destruct (generated_window n w Hw Hn) as (Ht & Hmin & Hlev & Hgrid).
    destruct (DenseQueries.make_represents capacity (PriceWindow.minimum w) (PriceWindow.tick_size w)
      (PriceWindow.levels w)) as (b' & Hb' & Hr & Hgeo); [lia|lia|lia|].
    rewrite Hb in Hb'. injection Hb' as <-.
    unfold geometry in Hgeo. injection Hgeo as Hbc Hbm Hbt Hbl.
    pose proof (dense_laws b) as Hlaws. rewrite Hbc in Hlaws.
    apply (generated_exit item_bytes paced n capacity
      (fun q => is_Some (DensePriceOrderBook.price_index b q))
      (fun b1 m => DenseFeed.represents b1 m /\ geometry b1 = geometry b) epoch b schedule p Hitems);
      try done; try lia.
    intros i Hi. destruct (Hgrid i ltac:(lia)) as (k & Hk & Hkr). exists k.
    pose proof (generated_prices i ltac:(lia)) as [? _].
    apply price_index_spec; rewrite ?Hbl, ?Hbm, ?Hbt; [lia|lia|].
    split_and!; try lia. unfold DensePriceOrderBook.level_price. rewrite Hbm, Hbt. lia.
Qed.

(** ** A run *)

(** Items of one byte, enough for a few generated events. *)
Definition demo_item : DataItem :=
  {| data_item o := [WTSOrdDtlStruct.index o]; order bytes := generated_event (hd 0 bytes - 1) |}.

(** One event through all three threads, which take turns. *)
Definition demo_threads : list Step :=
  [MainStep Start; ReaderThread ReaderGoes; ReaderThread (ReaderShm (Shm.Load (Some 0%nat)));
   ConsumerThread ConsumerGoes; MainStep (LoadConsumed 0); MainStep (Stamp 10);
   ReaderThread (ReaderShm (Shm.Load None)); MainStep (PublishStep Shm.CopyIn); ReaderThread ReaderGoes;
   MainStep (PublishStep Shm.StoreSequence); ReaderThread ReaderGoes;
   ReaderThread (ReaderShm (Shm.Load None)); MainStep (PublishStep Shm.StorePublished);
   ReaderThread ReaderGoes; ReaderThread (ReaderShm (Shm.Load (Some 2%nat)));
   ConsumerThread ConsumerGoes; ReaderThread (ReaderShm (Shm.Load (Some 1%nat)));
   ReaderThread (ReaderShm Shm.CopyOut); ConsumerThread (PopStep (Spsc.LoadPublished 0));
   ReaderThread (ReaderShm (Shm.Load (Some 1%nat))); ReaderThread (MakeEvent 20);
   ReaderThread (PushStep (Spsc.Push inhabitant Reject false)); ReaderThread (PushStep (Spsc.LoadTail 0));
   ReaderThread (PushStep Spsc.WriteSlot); ReaderThread (PushStep Spsc.Publish); ReaderThread ReaderGoes;
   ConsumerThread ConsumerGoes; ConsumerThread (PopStep (Spsc.LoadPublished 1));
   ConsumerThread (PopStep Spsc.ReadSlot); ReaderThread ReaderGoes; ConsumerThread (PopStep Spsc.Release);
   ConsumerThread (Process 30 45); ConsumerThread ConsumerGoes; ConsumerThread ConsumerGoes].

Abbreviation demo_run :=
  (run (H0 := demo_item) 1 (generated_events 1) false
    (make 1 (generated_events 1) 7 (PriceTimeOrderBook.make (book_capacity 1))) demo_threads).

Lemma demo_items_ok n : (n <= 2)%nat -> items_ok (H0 := demo_item) 1 (generated_events n).
Proof. intros Hn. destruct n as [|[|[|n]]]; [repeat constructor..|lia]. Qed.

Lemma every_schedule_books_the_source_witness :
  match demo_run with
  | Some p => finished p /\
      books p = sequential (PriceTimeOrderBook.make (book_capacity 1)) (generated_events 1) /\
      samples p = [StageSample.mk 10 10 15 35]
  | None => False
  end.
Proof.
  assert (from_option (fun p => (publisher p, reader p, consumer p, samples p))
    (PublisherStarts, ReaderAttaches, ConsumerWaits, []) demo_run =
    (PublisherDone, ReaderDone, ConsumerDone, [StageSample.mk 10 10 15 35])) as Hend by (vm_compute; reflexivity).
  destruct demo_run as [p|] eqn:E; [|discriminate Hend]. cbn in Hend. injection Hend as Hp Hr Hc Hs.
  pose proof (every_schedule_books_the_source (H0 := demo_item) 1 (generated_events 1) false 7
    (PriceTimeOrderBook.make (book_capacity 1)) demo_threads p (demo_items_ok 1 ltac:(lia)) eq_refl E)
    as (_ & _ & _ & _ & _ & _ & Hend).
  assert (finished p) as Hfin by (by split_and!). split; [exact Hfin|]. split; [by destruct (Hend Hfin)|done].
Defined.

Lemma generated_run_passes_witness :
  match demo_run with Some p => exit_code (generated_events 1) true p = 0 | None => False end.
Proof.
  assert (from_option (fun p => (publisher p, reader p, consumer p)) (PublisherStarts, ReaderAttaches, ConsumerWaits)
    demo_run = (PublisherDone, ReaderDone, ConsumerDone)) as Hend by (vm_compute; reflexivity).
  destruct demo_run as [p|] eqn:E; [|discriminate Hend]. cbn in Hend. injection Hend as Hp Hr Hc.
  destruct (generated_run_passes (H := demo_item) 1 false 1 7 demo_threads (demo_items_ok 1 ltac:(lia))
    ltac:(lia) eq_refl) as [Hpass _].
  apply (Hpass p E). by split_and!.
Defined.
