(* ===== verification/WtsAdapter.v ===== *)
(** * include/qtrader/NasdaqItchWtsAdapter.hpp

    The reference adapter: one instrument's messages become WonderTrader order
    details and transactions.  Its maps are the standard library's, so that
    nothing is ever full; what it publishes is the sequence of calls made on
    the sink. *)

From Stdlib Require Import Ascii.
From S2P Require Import Prelude Itch50 Binary64 WtsTypes.
Import itch50.

Definition kWtsTradeBust : Z := chr "B".

Module WtsAdapterStats.
Record t := mk {
  order_details : Z;
  transactions : Z;
  matches : Z;
  cancels : Z;
  trade_busts : Z;
  duplicate_matches_suppressed : Z;
  non_printable_suppressed : Z;
  broken_trades_without_output : Z;
  unknown_broken_trades : Z;
  errors : Z;
  peak_active_orders : Z
}.
#[global] Instance eta_wts_stats : Eta t := fun s =>
  mk (order_details s) (transactions s) (matches s) (cancels s) (trade_busts s)
    (duplicate_matches_suppressed s) (non_printable_suppressed s)
    (broken_trades_without_output s) (unknown_broken_trades s) (errors s) (peak_active_orders s).
Definition zero : t := mk 0 0 0 0 0 0 0 0 0 0 0.
End WtsAdapterStats.
Import (hints) WtsAdapterStats.

Module WtsOrder.
Record t := mk { price : Z; remaining : Z; side : Z }.
#[global] Instance eta_wts_order : Eta t := fun o => mk (price o) (remaining o) (side o).
End WtsOrder.
Import (hints) WtsOrder.

Module WtsMatch.
Record t := mk { price : Z; volume : Z; order_id : Z; side : Z; emitted : bool }.
End WtsMatch.

Module PsxWtsAdapter.

Record t := mk {
  trading_date_ : Z;
  locator_ : Z;
  symbol_ : list Z;
  event_sequence_ : Z;
  orders_ : gmap Z WtsOrder.t;
  matches_ : gmap Z WtsMatch.t;
  stats_ : WtsAdapterStats.t
}.
#[global] Instance eta_wts_adapter : Eta t := fun a =>
  mk (trading_date_ a) (locator_ a) (symbol_ a) (event_sequence_ a) (orders_ a) (matches_ a) (stats_ a).

(** The text cut to the destination, whose last byte stays zero. *)
Definition copy_text (Size : Z) (source : list Z) : list Z :=
  let count := Z.min (alen source) (Size - 1) in
  take (Z.to_nat count) source ++ replicate (Z.to_nat (Size - count)) 0.

(** [std::string_view] of a zero-terminated text. *)
Fixpoint string_view (text : list Z) : list Z :=
  match text with
  | [] => []
  | c :: text' => if c =? 0 then [] else c :: string_view text'
  end.

(** The constructor; [reserve] and [max_load_factor] have no effect on a map. *)
Definition make (trading_date locator : Z) (symbol : list Z) : t :=
  mk trading_date locator (copy_text 9 symbol) 0 ∅ ∅ WtsAdapterStats.zero.

Definition stats (a : t) : WtsAdapterStats.t := stats_ a.
Definition active_orders (a : t) : Z := Z.of_nat (size (orders_ a)).

(** HHMMSSmmm *)
Definition action_time (timestamp_ns : Z) : Z :=
  let milliseconds := timestamp_ns / 1000000 in
  let hours := milliseconds / 3600000 in
  let minutes := (milliseconds / 60000) mod 60 in
  let seconds := (milliseconds / 1000) mod 60 in
  let millis := milliseconds mod 1000 in
  u32 (u64 (u64 (hours * 10000000) + minutes * 100000 + seconds * 1000 + millis)).

(** [++stats_.field] *)
Definition count (a : t) (f : WtsAdapterStats.t -> WtsAdapterStats.t) : t := a <| stats_ ::= f |>.

Definition error (a : t) : t := count a (fun s => s <| WtsAdapterStats.errors ::= incr |>).

(** "PSX", cut to its array. *)
Definition exchange : list Z := copy_text MAX_EXCHANGE_LENGTH [chr "P"; chr "S"; chr "X"].
Definition code (a : t) : list Z := copy_text MAX_INSTRUMENT_LENGTH (string_view (symbol_ a)).

Definition emit_order (a : t) (message : list Z) (order_id : Z) (order : WtsOrder.t) : t * list WtsCall :=
  let output := WTSOrdDtlStruct.mk exchange (code a) (trading_date_ a) (trading_date_ a)
    (action_time (read_u48 (message +! 5))) order_id (Double.of_ticks (WtsOrder.price order))
    (WtsOrder.remaining order) (WtsOrder.side order) ODT_LimitPrice in
  (count a (fun s => s <| WtsAdapterStats.order_details ::= incr |>), [on_order_detail output]).

Definition emit_transaction (a : t) (message : list Z) (index type side price volume order_id : Z) :
    t * list WtsCall :=
  if (volume =? 0) || (i64_max <? order_id) then (error a, [])
  else
    let output := WTSTransStruct.mk exchange (code a) (trading_date_ a) (trading_date_ a)
      (action_time (read_u48 (message +! 5))) index type side (Double.of_ticks price) volume
      (if side =? BDT_Sell then i64_of_u64 order_id else 0)
      (if side =? BDT_Buy then i64_of_u64 order_id else 0) in
    let a := count a (fun s => s <| WtsAdapterStats.transactions ::= incr |>) in
    (if type =? TT_Cancel then count a (fun s => s <| WtsAdapterStats.cancels ::= incr |>)
     else if type =? TT_Match then count a (fun s => s <| WtsAdapterStats.matches ::= incr |>)
     else if type =? kWtsTradeBust then count a (fun s => s <| WtsAdapterStats.trade_busts ::= incr |>)
     else a, [on_transaction output]).

(** [orders_.emplace] and [matches_.emplace]: a key already there stays. *)
Definition emplace {V} (m : gmap Z V) (key : Z) (value : V) : gmap Z V * bool :=
  match m !! key with
  | Some _ => (m, false)
  | None => (<[key := value]> m, true)
  end.

Definition add (a : t) (message : list Z) : t * list WtsCall :=
  let order_id := read_u64 (message +! 11) in
  let shares := read_u32 (message +! 20) in
  let price := read_u32 (message +! 32) in
  let side := byte_at message 19 in
  if (order_id =? 0) || (shares =? 0) || (price =? 0) ||
     (negb (side =? BDT_Buy) && negb (side =? BDT_Sell))
  then (error a, [])
  else
    let order := WtsOrder.mk price shares side in
    let '(orders, inserted) := emplace (orders_ a) order_id order in
    let a := a <| orders_ := orders |> in
    if negb inserted then (error a, [])
    else
      let a := count a (fun s => s <| WtsAdapterStats.peak_active_orders ::=
        fun n => Z.max n (u64 (active_orders a)) |>) in
      emit_order a message order_id order.

(** [found->second.remaining -= shares; if (… == 0) orders_.erase(found);] *)
Definition take_shares (a : t) (order_id : Z) (found : WtsOrder.t) (shares : Z) : t :=
  let left := u32 (WtsOrder.remaining found - shares) in
  let a := a <| orders_ ::= <[order_id := found <| WtsOrder.remaining := left |>]> |> in
  if left =? 0 then a <| orders_ ::= delete order_id |> else a.

Definition execute (a : t) (message : list Z) : t * list WtsCall :=
  let order_id := read_u64 (message +! 11) in
  let shares := read_u32 (message +! 19) in
  match orders_ a !! order_id with
  | None => (error a, [])
  | Some found =>
      if (shares =? 0) || (WtsOrder.remaining found <? shares) then (error a, [])
      else
        let match_number := read_u64 (message +! 23) in
        let with_price := byte_at message 0 =? chr "C" in
        let execution_price :=
          if with_price then read_u32 (message +! 32) else WtsOrder.price found in
        let printable := negb with_price || (byte_at message 31 =? chr "Y") in
        let '(matches, first_match) := emplace (matches_ a) match_number
          (WtsMatch.mk execution_price shares order_id (WtsOrder.side found) printable) in
        let a := a <| matches_ := matches |> in
        let '(a, calls) :=
          if negb printable
          then (count a (fun s => s <| WtsAdapterStats.non_printable_suppressed ::= incr |>), [])
          else if first_match then
            if i64_max <? match_number then (error a, [])
            else emit_transaction a message (i64_of_u64 match_number) TT_Match (WtsOrder.side found)
              execution_price shares order_id
          else (count a (fun s => s <| WtsAdapterStats.duplicate_matches_suppressed ::= incr |>), []) in
        (take_shares a order_id found shares, calls)
  end.

Definition cancel_partial (a : t) (message : list Z) : t * list WtsCall :=
  let order_id := read_u64 (message +! 11) in
  let shares := read_u32 (message +! 19) in
  match orders_ a !! order_id with
  | None => (error a, [])
  | Some found =>
      if (shares =? 0) || (WtsOrder.remaining found <? shares) then (error a, [])
      else
        let '(a, calls) := emit_transaction a message (i64_of_u64 (event_sequence_ a)) TT_Cancel
          (WtsOrder.side found) (WtsOrder.price found) shares order_id in
        (take_shares a order_id found shares, calls)
  end.

Definition cancel_all (a : t) (message : list Z) : t * list WtsCall :=
  let order_id := read_u64 (message +! 11) in
  match orders_ a !! order_id with
  | None => (error a, [])
  | Some found =>
      let '(a, calls) := emit_transaction a message (i64_of_u64 (event_sequence_ a)) TT_Cancel
        (WtsOrder.side found) (WtsOrder.price found) (WtsOrder.remaining found) order_id in
      (a <| orders_ ::= delete order_id |>, calls)
  end.

Definition replace (a : t) (message : list Z) : t * list WtsCall :=
  let old_order_id := read_u64 (message +! 11) in
  let new_order_id := read_u64 (message +! 19) in
  let shares := read_u32 (message +! 27) in
  let price := read_u32 (message +! 31) in
  match orders_ a !! old_order_id with
  | None => (error a, [])
  | Some old_order =>
      if (new_order_id =? 0) || (shares =? 0) || (price =? 0) ||
         bool_decide (is_Some (orders_ a !! new_order_id))
      then (error a, [])
      else
        let '(a, cancelled) := emit_transaction a message (i64_of_u64 (event_sequence_ a)) TT_Cancel
          (WtsOrder.side old_order) (WtsOrder.price old_order) (WtsOrder.remaining old_order)
          old_order_id in
        let a := a <| orders_ ::= delete old_order_id |> in
        let replacement := WtsOrder.mk price shares (WtsOrder.side old_order) in
        let '(orders, inserted) := emplace (orders_ a) new_order_id replacement in
        let a := a <| orders_ := orders |> in
        if negb inserted then (error a, cancelled)
        else
          let '(a, entered) := emit_order a message new_order_id replacement in
          (a, cancelled ++ entered)
  end.

Definition non_cross_trade (a : t) (message : list Z) : t * list WtsCall :=
  let match_number := read_u64 (message +! 36) in
  let mt := WtsMatch.mk (read_u32 (message +! 32)) (read_u32 (message +! 20)) (read_u64 (message +! 11))
    (byte_at message 19) true in
  let '(matches, first_match) := emplace (matches_ a) match_number mt in
  let a := a <| matches_ := matches |> in
  if negb first_match
  then (count a (fun s => s <| WtsAdapterStats.duplicate_matches_suppressed ::= incr |>), [])
  else if i64_max <? match_number then (error a, [])
  else emit_transaction a message (i64_of_u64 match_number) TT_Match (WtsMatch.side mt)
    (WtsMatch.price mt) (WtsMatch.volume mt) (WtsMatch.order_id mt).

Definition cross_trade (a : t) (message : list Z) : t * list WtsCall :=
  let shares64 := read_u64 (message +! 11) in
  let match_number := read_u64 (message +! 31) in
  if (shares64 =? 0) || (u32_max <? shares64) || (i64_max <? match_number) then (error a, [])
  else
    let mt := WtsMatch.mk (read_u32 (message +! 27)) (u32 shares64) 0 BDT_Unknown true in
    let '(matches, first_match) := emplace (matches_ a) match_number mt in
    let a := a <| matches_ := matches |> in
    if negb first_match
    then (count a (fun s => s <| WtsAdapterStats.duplicate_matches_suppressed ::= incr |>), [])
    else emit_transaction a message (i64_of_u64 match_number) TT_Match (WtsMatch.side mt)
      (WtsMatch.price mt) (WtsMatch.volume mt) (WtsMatch.order_id mt).

Definition broken_trade (a : t) (message : list Z) : t * list WtsCall :=
  let match_number := read_u64 (message +! 11) in
  match matches_ a !! match_number with
  | None => (count a (fun s => s <| WtsAdapterStats.unknown_broken_trades ::= incr |>), [])
  | Some mt =>
      let '(a, calls) :=
        if WtsMatch.emitted mt
        then emit_transaction a message (i64_of_u64 match_number) kWtsTradeBust (WtsMatch.side mt)
          (WtsMatch.price mt) (WtsMatch.volume mt) (WtsMatch.order_id mt)
        else (count a (fun s => s <| WtsAdapterStats.broken_trades_without_output ::= incr |>), []) in
      (a <| matches_ ::= delete match_number |>, calls)
  end.

Definition on_message (a : t) (message : list Z) (size : Z) : t * list WtsCall :=
  if (size <? 11) || negb (read_u16 (message +! 1) =? locator_ a) then (a, [])
  else
    let a := a <| event_sequence_ ::= incr |> in
    let type := byte_at message 0 in
    let expected := expected_message_size type in
    if (expected =? 0) || negb (size =? expected) then (error a, [])
    else if (type =? chr "A") || (type =? chr "F") then add a message
    else if (type =? chr "E") || (type =? chr "C") then execute a message
    else if type =? chr "X" then cancel_partial a message
    else if type =? chr "D" then cancel_all a message
    else if type =? chr "U" then replace a message
    else if type =? chr "P" then non_cross_trade a message
    else if type =? chr "Q" then cross_trade a message
    else if type =? chr "B" then broken_trade a message
    else (a, []).

End PsxWtsAdapter.
