(* ===== verification/WtsProperties.v ===== *)
(** * Properties of the WonderTrader adapter

    What a consumer of its transactions may rely on: a trade is published once,
    and a bust takes back a trade that was published and not yet taken back.
    Times of day keep their order. *)

From Stdlib Require Import Ascii.
From S2P Require Import Prelude Itch50 Binary64 WtsTypes WtsAdapter Samples.
Import itch50 PsxWtsAdapter.
Import (hints) WtsAdapterStats WtsOrder.

#[global] Instance double_eq_dec : EqDecision Double.t.
Proof. unfold Double.t. solve_decision. Defined.

(** ** The consumer's book of trades *)

Record Trade := mk_trade {
  trade_side : Z;
  trade_price : Double.t;
  trade_volume : Z;
  trade_ask : Z;
  trade_bid : Z
}.

#[global] Instance trade_eq_dec : EqDecision Trade.
Proof. solve_decision. Defined.

Definition trade_of (e : WTSTransStruct.t) : Trade :=
  mk_trade (WTSTransStruct.side e) (WTSTransStruct.price e) (WTSTransStruct.volume e)
    (WTSTransStruct.askorder e) (WTSTransStruct.bidorder e).

(** The trades that stand; [None] once a trade is repeated or a bust has
    nothing to take back. *)
Definition settle (open : gmap Z Trade) (call : WtsCall) : option (gmap Z Trade) :=
  match call with
  | on_order_detail _ => Some open
  | on_transaction e =>
      let n := WTSTransStruct.index e in
      if WTSTransStruct.ttype e =? TT_Match then
        if bool_decide (open !! n = None) then Some (<[n := trade_of e]> open) else None
      else if WTSTransStruct.ttype e =? kWtsTradeBust then
        if bool_decide (open !! n = Some (trade_of e)) then Some (delete n open) else None
      else Some open
  end.

Fixpoint settle_all (open : gmap Z Trade) (calls : list WtsCall) : option (gmap Z Trade) :=
  match calls with
  | [] => Some open
  | call :: calls' => match settle open call with Some open' => settle_all open' calls' | None => None end
  end.

Lemma settle_all_app open calls calls' open' :
  settle_all open calls = Some open' -> settle_all open (calls ++ calls') = settle_all open' calls'.
Proof.
  revert open. induction calls as [|c calls IH]; intros open; cbn; [by intros [= ->]|].
  destruct (settle open c); [apply IH|done].
Qed.

(** A whole feed: the messages of a file, with their sizes. *)
Fixpoint run (a : t) (messages : list (list Z)) : t * list WtsCall :=
  match messages with
  | [] => (a, [])
  | message :: messages' =>
      let '(a, calls) := on_message a message (alen message) in
      let '(a, calls') := run a messages' in
      (a, calls ++ calls')
  end.

(** ** The adapter's side *)

Definition match_trade (m : WtsMatch.t) : Trade :=
  mk_trade (WtsMatch.side m) (Double.of_ticks (WtsMatch.price m)) (WtsMatch.volume m)
    (if WtsMatch.side m =? BDT_Sell then i64_of_u64 (WtsMatch.order_id m) else 0)
    (if WtsMatch.side m =? BDT_Buy then i64_of_u64 (WtsMatch.order_id m) else 0).

(** Whether [emit_transaction] publishes the match. *)
Definition publishable (n : Z) (m : WtsMatch.t) : bool :=
  WtsMatch.emitted m && (n <=? i64_max) && negb (WtsMatch.volume m =? 0) &&
  (WtsMatch.order_id m <=? i64_max).

Definition standing (n : Z) (m : WtsMatch.t) : option Trade :=
  if publishable n m then Some (match_trade m) else None.

(** The consumer's trades are the adapter's published matches. *)
Definition settled (a : t) (open : gmap Z Trade) : Prop :=
  forall n, open !! n = (m ← matches_ a !! n; standing n m).

Definition settles (open : gmap Z Trade) (step : t * list WtsCall) : Prop :=
  exists open', settle_all open step.2 = Some open' /\ settled step.1 open'.

Lemma settled_matches a a' open : matches_ a' = matches_ a -> settled a open -> settled a' open.
Proof. intros Hm Hs n. by rewrite Hm. Qed.

Lemma settles_nothing a a' open : settled a open -> matches_ a' = matches_ a -> settles open (a', []).
Proof. intros Hs Hm. exists open. split; [done|]. by eapply settled_matches. Qed.

Lemma emit_transaction_matches a message i ty s p v id :
  matches_ (emit_transaction a message i ty s p v id).1 = matches_ a.
Proof. unfold emit_transaction. repeat case_match; done. Qed.

(** What [emit_transaction] publishes. *)
Lemma emit_transaction_calls a message i ty s p v id :
  (emit_transaction a message i ty s p v id).2 =
  if (v =? 0) || (i64_max <? id) then []
  else [on_transaction (WTSTransStruct.mk exchange (code a) (trading_date_ a) (trading_date_ a)
    (action_time (read_u48 (message +! 5))) i ty s (Double.of_ticks p) v
    (if s =? BDT_Sell then i64_of_u64 id else 0) (if s =? BDT_Buy then i64_of_u64 id else 0))].
Proof. unfold emit_transaction. by repeat case_match. Qed.

Lemma i64_small n : n <= i64_max -> i64_of_u64 n = n.
Proof. intros. unfold i64_of_u64. split_if; lia. Qed.

(** Cancellations leave the trades alone. *)
Lemma emit_cancel_settles a open message i s p v id calls a' :
  settled a open -> emit_transaction a message i TT_Cancel s p v id = (a', calls) ->
  settle_all open calls = Some open /\ settled a' open.
Proof.
  intros Hs He. split.
  - unfold emit_transaction in He. case_match; by simplify_eq.
  - eapply settled_matches; [|done]. pose proof (emit_transaction_matches a message i TT_Cancel s p v id).
    by rewrite He in *.
Qed.

Lemma take_shares_matches a id o q : matches_ (take_shares a id o q) = matches_ a.
Proof. unfold take_shares. by case_match. Qed.

Lemma emplace_some {V} (m m' : gmap Z V) k v :
  emplace m k v = (m', false) -> m' = m /\ is_Some (m !! k).
Proof. unfold emplace. case_match; intros; by simplify_eq. Qed.

Lemma emplace_none {V} (m m' : gmap Z V) k v :
  emplace m k v = (m', true) -> m' = <[k := v]> m /\ m !! k = None.
Proof. unfold emplace. case_match; intros; by simplify_eq. Qed.

(** A new match that is not published leaves the consumer where it was. *)
Lemma settled_silent a a' open n m :
  settled a open -> matches_ a !! n = None -> matches_ a' = <[n := m]> (matches_ a) ->
  publishable n m = false -> settled a' open.
Proof.
  intros Hs Hn Hm Hp k. rewrite Hm. destruct (decide (k = n)) as [->|].
  - rewrite lookup_insert_eq, Hs, Hn. cbn. unfold standing. by rewrite Hp.
  - by rewrite lookup_insert_ne, Hs.
Qed.

Lemma emit_match_settles a1 a open message n m :
  settled a1 open -> matches_ a1 !! n = None -> matches_ a = <[n := m]> (matches_ a1) ->
  0 <= n <= i64_max -> 0 <= WtsMatch.order_id m -> WtsMatch.emitted m = true ->
  settles open (emit_transaction a message (i64_of_u64 n) TT_Match (WtsMatch.side m) (WtsMatch.price m)
    (WtsMatch.volume m) (WtsMatch.order_id m)).
Proof.
  intros Hs Hn Hm Hr Hid He. unfold settles. rewrite emit_transaction_calls.
  match goal with |- exists _, _ /\ settled ?a2 _ =>
    assert (matches_ a2 = <[n := m]> (matches_ a1)) as Hm2 by (by rewrite emit_transaction_matches);
    generalize dependent a2 end. intros a2 Hm2.
  destruct (_ || _) eqn:Hc.
  - exists open. split; [done|]. eapply (settled_silent a1); [exact Hs|exact Hn|exact Hm2|]. unfold publishable.
    apply orb_true_iff in Hc as [Hv|Hl%Z.ltb_lt]; [by rewrite Hv, ?andb_false_r|].
    rewrite (proj2 (Z.leb_gt (WtsMatch.order_id m) i64_max)) by lia. apply andb_false_r.
  - apply orb_false_iff in Hc as [Hv Hl%Z.ltb_ge]. cbn [settle_all].
    unfold settle. cbn. rewrite (i64_small n), bool_decide_true by (by rewrite ?Hs, ?Hn || lia).
    eexists. split; [done|]. intros k. rewrite Hm2. destruct (decide (k = n)) as [->|].
    + rewrite !lookup_insert_eq. cbn. unfold standing, publishable.
      rewrite He, Hv, !(proj2 (Z.leb_le _ _)) by lia. done.
    + by rewrite !lookup_insert_ne, Hs.
Qed.

(** ** The handlers *)

Section handlers.
Context (a : t) (open : gmap Z Trade) (message : list Z).
Hypothesis Hsettled : settled a open.
Hypothesis Hbytes : Forall is_byte message.

Lemma message_u64 i : 0 <= read_u64 (message +! i) < 2 ^ 64.
Proof. rewrite read_u64_be by by apply advance_bytes. apply (be_value_bound _ 8). by apply advance_bytes. Qed.

Ltac nothing := by apply (settles_nothing a).

Lemma add_settles : settles open (add a message).
Proof.
  unfold add. case_match; [nothing|]. destruct (emplace _ _ _) as [orders []]; [|nothing].
  eexists. by split.
Qed.

Lemma cancel_settles a' calls id i s p v a1 :
  emit_transaction a message i TT_Cancel s p v id = (a', calls) -> matches_ a1 = matches_ a' ->
  settles open (a1, calls).
Proof.
  intros He Hm. destruct (emit_cancel_settles _ _ _ _ _ _ _ _ _ _ Hsettled He) as [Hc Hs].
  exists open. split; [done|]. by eapply settled_matches.
Qed.

Lemma cancel_partial_settles : settles open (cancel_partial a message).
Proof.
  unfold cancel_partial. case_match; [|nothing]. case_match; [nothing|].
  destruct (emit_transaction _ _ _ _ _ _ _ _) as [a' calls] eqn:He.
  eapply cancel_settles; [done|]. apply take_shares_matches.
Qed.

Lemma cancel_all_settles : settles open (cancel_all a message).
Proof.
  unfold cancel_all. case_match; [|nothing].
  destruct (emit_transaction _ _ _ _ _ _ _ _) as [a' calls] eqn:He. by eapply cancel_settles.
Qed.

Lemma replace_settles : settles open (replace a message).
Proof.
  unfold replace. case_match; [|nothing]. case_match; [nothing|].
  destruct (emit_transaction _ _ _ _ _ _ _ _) as [a' calls] eqn:He.
  destruct (emplace _ _ _) as [orders []]; cbn [negb emit_order]; [|by eapply cancel_settles].
  destruct (emit_cancel_settles _ _ _ _ _ _ _ _ _ _ Hsettled He) as [Hc Hs].
  exists open. split; [cbn [snd]; by rewrite (settle_all_app _ _ _ _ Hc)|]. by eapply settled_matches.
Qed.

Lemma execute_settles : settles open (execute a message).
Proof.
  pose proof (message_u64 11). pose proof (message_u64 23).
  unfold execute. destruct (orders_ a !! _) as [found|]; [|nothing]. case_match; [nothing|].
  destruct (emplace _ _ _) as [matches []] eqn:Hem; cbn zeta;
    revert Hem; set (printable := negb (byte_at message 0 =? chr "C") || _); intros Hem.
  - apply emplace_none in Hem as [-> Hnone]. destruct printable; cbn [negb].
    2: {
      exists open. split; [done|]. cbn [fst]. eapply (settled_silent a); [exact Hsettled|exact Hnone| |].
      - by rewrite take_shares_matches.
      - done. }
    destruct (Z.ltb_spec i64_max (read_u64 (message +! 23))).
    + exists open. split; [done|].
      eapply (settled_silent a); [exact Hsettled|exact Hnone|by cbn [fst]; rewrite take_shares_matches|].
      unfold publishable. rewrite (proj2 (Z.leb_gt _ _)) by lia. by rewrite andb_false_r.
    + match goal with |- context [<[?k := ?m]> (matches_ a)] =>
          pose proof (emit_match_settles a (a <| matches_ := <[k := m]> (matches_ a) |>) open message k m
            Hsettled Hnone eq_refl ltac:(lia) ltac:(cbn; lia) eq_refl) as (open' & Ho & Hs) end.
      cbn [WtsMatch.side WtsMatch.price WtsMatch.volume WtsMatch.order_id] in Ho, Hs.
      destruct (emit_transaction _ _ _ _ _ _ _ _) as [a' calls]. exists open'.
      split; [done|]. eapply settled_matches; [|done]. apply take_shares_matches.
  - apply emplace_some in Hem as [-> _]. destruct (negb printable); apply (settles_nothing a); try done;
      by rewrite take_shares_matches.
Qed.

Lemma non_cross_trade_settles : settles open (non_cross_trade a message).
Proof.
  pose proof (message_u64 11). pose proof (message_u64 36). unfold non_cross_trade.
  destruct (emplace _ _ _) as [matches []] eqn:Hem; cbn [negb].
  - apply emplace_none in Hem as [-> Hnone].
    destruct (Z.ltb_spec i64_max (read_u64 (message +! 36))).
    + exists open. split; [done|]. eapply (settled_silent a); [exact Hsettled|exact Hnone|done|].
      unfold publishable. rewrite (proj2 (Z.leb_gt _ _)) by lia. by rewrite andb_false_r.
    + by apply (emit_match_settles a); cbn; [| | |lia|lia|].
  - apply emplace_some in Hem as [-> _]. nothing.
Qed.

Lemma cross_trade_settles : settles open (cross_trade a message).
Proof.
  pose proof (message_u64 31). unfold cross_trade.
  destruct (_ || _ || _) eqn:Hc; [nothing|]. apply orb_false_iff in Hc as [_ Hn%Z.ltb_ge].
  destruct (emplace _ _ _) as [matches []] eqn:Hem; cbn [negb].
  - apply emplace_none in Hem as [-> Hnone]. by apply (emit_match_settles a); cbn; [| | |lia|lia|].
  - apply emplace_some in Hem as [-> _]. nothing.
Qed.

Lemma broken_trade_settles :
  read_u64 (message +! 11) <= i64_max -> settles open (broken_trade a message).
Proof.
  pose proof (message_u64 11). intros Hn. unfold broken_trade.
  destruct (matches_ a !! read_u64 (message +! 11)) as [m|] eqn:Hm; [|nothing].
  set (n := read_u64 (message +! 11)) in *.
  assert (forall a', matches_ a' = matches_ a -> standing n m = None ->
    settled (a' <| matches_ ::= delete n |>) open) as Hsilent.
  { intros a' Ha Hst k. cbn. rewrite Ha. destruct (decide (k = n)) as [->|].
    - rewrite lookup_delete_eq, Hsettled, Hm. exact Hst.
    - by rewrite lookup_delete_ne, Hsettled. }
  unfold standing, publishable in Hsilent. destruct (WtsMatch.emitted m) eqn:He.
  - rewrite (proj2 (Z.leb_le _ _) Hn) in Hsilent. cbn [andb] in Hsilent.
    pose proof (emit_transaction_calls a message (i64_of_u64 n) kWtsTradeBust (WtsMatch.side m)
      (WtsMatch.price m) (WtsMatch.volume m) (WtsMatch.order_id m)) as Hcalls.
    pose proof (emit_transaction_matches a message (i64_of_u64 n) kWtsTradeBust (WtsMatch.side m)
      (WtsMatch.price m) (WtsMatch.volume m) (WtsMatch.order_id m)) as Hsame.
    destruct (emit_transaction _ _ _ _ _ _ _ _) as [a' calls]. cbn [fst snd] in Hcalls, Hsame. subst calls.
    destruct (_ || _) eqn:Hc.
    + exists open. split; [done|]. apply Hsilent; [done|].
      apply orb_true_iff in Hc as [Hv|Hl%Z.ltb_lt]; [by rewrite Hv|].
      rewrite (proj2 (Z.leb_gt (WtsMatch.order_id m) i64_max)) by lia. by rewrite andb_false_r.
    + apply orb_false_iff in Hc as [Hv Hl%Z.ltb_ge]. eexists. split.
      * cbn [snd settle_all]. unfold settle. cbn. change (kWtsTradeBust =? TT_Match) with false. change (kWtsTradeBust =? kWtsTradeBust) with true.
        rewrite (i64_small n) by done. cbv iota. rewrite bool_decide_true; [done|].
        rewrite Hsettled, Hm. cbn. unfold standing, publishable.
        by rewrite He, Hv, !(proj2 (Z.leb_le _ _)) by lia.
      * intros k. cbn. rewrite Hsame. destruct (decide (k = n)) as [->|].
        -- by rewrite !lookup_delete_eq.
        -- by rewrite !lookup_delete_ne, Hsettled.
  - exists open. split; [done|]. by apply Hsilent.
Qed.

(** A bust names a match whose number fits the signed index. *)
Definition bust_fits : Prop := byte_at message 0 = chr "B" -> read_u64 (message +! 11) <= i64_max.

End handlers.

Lemma on_message_settles a open message size :
  settled a open -> Forall is_byte message -> bust_fits message -> settles open (on_message a message size).
Proof.
  intros Hs Hb Hf. unfold on_message. case_match; [by apply (settles_nothing a)|].
  set (a1 := a <| event_sequence_ ::= incr |>).
  assert (settled a1 open) as Hs1 by done. clearbody a1.
  case_match; [by apply (settles_nothing a1)|].
  case_match; [by apply add_settles|]. case_match; [by apply execute_settles|].
  case_match; [by apply cancel_partial_settles|]. case_match; [by apply cancel_all_settles|].
  case_match; [by apply replace_settles|]. case_match; [by apply non_cross_trade_settles|].
  case_match; [by apply cross_trade_settles|].
  destruct (Z.eqb_spec (byte_at message 0) (chr "B")) as [He|]; [|by apply (settles_nothing a1)].
  by apply broken_trade_settles, Hf.
Qed.

Lemma run_settles messages a open :
  settled a open -> Forall (fun m => Forall is_byte m /\ bust_fits m) messages ->
  settles open (run a messages).
Proof.
  intros Hs Hm. revert a open Hs. induction Hm as [|m ms [Hb Hf] Hms IH]; intros a open Hs; cbn [run].
  - by apply (settles_nothing a).
  - destruct (on_message_settles a open m (alen m) Hs Hb Hf) as (open1 & Hc1 & Hs1).
    destruct (on_message a m (alen m)) as [a1 c1]. destruct (IH a1 open1 Hs1) as (open2 & Hc2 & Hs2).
    destruct (run a1 ms) as [a2 c2]. exists open2. split; [|done].
    cbn [snd]. by rewrite (settle_all_app _ _ _ _ Hc1).
Qed.

(** C29: Whatever an instrument's messages are, as long as no broken trade
    names a match number beyond the signed range: a trade is published once, a
    bust takes back, field for field, a trade published and still standing, and
    the trades that stand are matches the adapter still knows. *)
Theorem busts_take_back_trades trading_date locator symbol messages :
  Forall (fun m => Forall is_byte m /\ bust_fits m) messages ->
  let '(a, calls) := run (make trading_date locator symbol) messages in
  exists standing, settle_all ∅ calls = Some standing /\ dom standing ⊆ dom (matches_ a).
Proof.
  intros Hm. destruct (run_settles messages (make trading_date locator symbol) ∅) as (open & Ho & Hs);
    [done|done|]. destruct (run _ _) as [a calls]. exists open. split; [done|].
  intros n [tr Htr]%elem_of_dom. rewrite (Hs n) in Htr. apply elem_of_dom.
  apply bind_Some in Htr as (m & Hmm & _). by exists m.
Qed.

Definition broken_message (match_id : Z) : list Z :=
  [66; 0; 7; 0; 0; 0; 0; 0; 0; 0; 9] ++ be_bytes 8 match_id.

Definition busted_trade : list (list Z) :=
  [add_message 1; execute_message 1 5; cancel_message 1; execute_message 1 5; broken_message 5;
   broken_message 5].

Lemma busts_take_back_trades_witness :
  length (run (make 20190530 7 [65]) busted_trade).2 = 4%nat /\
  let '(a, calls) := run (make 20190530 7 [65]) busted_trade in
  exists standing, settle_all ∅ calls = Some standing /\ dom standing ⊆ dom (matches_ a).
Proof.
  split; [vm_compute; reflexivity|]. apply busts_take_back_trades.
  unfold busted_trade. repeat (apply List.Forall_cons;
    [split; [by apply bytes_ok|intros _; vm_compute; discriminate]|]). by apply List.Forall_nil.
Defined.

(** Beyond that range the adapter publishes a bust of a trade it counted as an
    error and never published, under a negative index. *)
Lemma bust_of_unpublished_trade :
  let messages := [add_message 1; execute_message 1 (2 ^ 63); broken_message (2 ^ 63)] in
  let '(a, calls) := run (make 20190530 7 [65]) messages in
  settle_all ∅ calls = None /\ WtsAdapterStats.matches (stats a) = 0 /\
  WtsAdapterStats.trade_busts (stats a) = 1.
Proof. vm_compute. done. Qed.

(** ** Times of day *)

Lemma action_time_fields t :
  0 <= t < 2 ^ 48 ->
  exists h m s u, 0 <= h <= 78 /\ 0 <= m < 60 /\ 0 <= s < 60 /\ 0 <= u < 1000 /\
    t / 1000000 = 3600000 * h + 60000 * m + 1000 * s + u /\
    action_time t = 10000000 * h + 100000 * m + 1000 * s + u.
Proof.
  intros Ht. unfold action_time. set (ms := t / 1000000).
  assert (0 <= ms < 281474977) by (subst ms; dlia). clearbody ms.
  exists (ms / 3600000), ((ms / 60000) mod 60), ((ms / 1000) mod 60), (ms mod 1000).
  assert (ms / 60000 = 60 * (ms / 3600000) + (ms / 60000) mod 60).
  { replace 3600000 with (60000 * 60) by done. rewrite <- Z.div_div by lia. dlia. }
  assert (ms / 1000 = 60 * (ms / 60000) + (ms / 1000) mod 60).
  { replace 60000 with (1000 * 60) by done. rewrite <- Z.div_div by lia. dlia. }
  assert (0 <= ms / 3600000 <= 78) by dlia.
  assert (0 <= (ms / 60000) mod 60 < 60) by (apply Z.mod_pos_bound; lia).
  assert (0 <= (ms / 1000) mod 60 < 60) by (apply Z.mod_pos_bound; lia).
  assert (0 <= ms mod 1000 < 1000) by (apply Z.mod_pos_bound; lia).
  assert (ms = 1000 * (ms / 1000) + ms mod 1000) by (apply Z.div_mod; lia).
  split_and!; try lia. rewrite (wrap_small 64 (_ * _)) by lia.
  rewrite (wrap_small 64) by lia. rewrite wrap_small; lia.
Qed.

(** The published times of two messages are ordered as their timestamps
    are, and equal only within the same millisecond. *)
Theorem action_time_keeps_order t1 t2 :
  0 <= t1 <= t2 -> t2 < 2 ^ 48 ->
  action_time t1 <= action_time t2 /\ (action_time t1 = action_time t2 <-> t1 / 1000000 = t2 / 1000000).
Proof.
  intros H1 H2. destruct (action_time_fields t1) as (h1 & m1 & s1 & u1 & ? & ? & ? & ? & Hm1 & ->); [lia|].
  destruct (action_time_fields t2) as (h2 & m2 & s2 & u2 & ? & ? & ? & ? & Hm2 & ->); [lia|].
  assert (t1 / 1000000 <= t2 / 1000000) by (apply Z.div_le_mono; lia). lia.
Qed.

(** 09:30:00.000 and one millisecond more. *)
Lemma action_time_keeps_order_witness :
  action_time 34200000000000 = 93000000 /\
  action_time 34200000000000 <= action_time 34200001000000 /\
  (action_time 34200000000000 = action_time 34200001000000 <->
   34200000000000 / 1000000 = 34200001000000 / 1000000).
Proof. split; [reflexivity|]. apply (action_time_keeps_order 34200000000000 34200001000000); lia. Defined.
