(* ===== verification/Fingerprint.v ===== *)
(** * include/qtrader/WtsEventFingerprint.hpp

    The 64-bit fingerprint of a stream of WonderTrader events.  Every field is
    mixed in, byte arrays eight bytes at a time.

    Its theorems: mixing is injective in the state and in the word mixed in, so
    that two streams that differ in one word never share a digest; and the words
    of an event determine it. *)

From Stdlib Require SpecFloat.
From S2P Require Import Prelude Itch50 Samples Binary64 WtsTypes.
Module WtsEventFingerprint.

Record t := mk { state_ : Z; count_ : Z }.
#[global] Instance eta_fingerprint : Eta t := fun f => mk (state_ f) (count_ f).

Definition make : t := mk 0x6a09e667f3bcc909 0.
Definition reset (f : t) : t := mk 0x6a09e667f3bcc909 0.

Definition rotate_left (value amount : Z) : Z :=
  Z.lor (u64 (Z.shiftl value amount)) (Z.shiftr value (64 - amount)).

Definition avalanche (value : Z) : Z :=
  let value := Z.lxor value (Z.shiftr value 30) in
  let value := u64 (value * 0xbf58476d1ce4e5b9) in
  let value := Z.lxor value (Z.shiftr value 27) in
  let value := u64 (value * 0x94d049bb133111eb) in
  Z.lxor value (Z.shiftr value 31).

Definition mix (f : t) (value : Z) : t :=
  let f := f <| state_ ::= fun s =>
    Z.lxor s (avalanche (u64 (u64 (value + 0x9e3779b97f4a7c15) + count_ f))) |> in
  f <| state_ ::= fun s => u64 (u64 (rotate_left s 27 * 0x3c79ac492ba7b653) + 0x1c69b3f74ac4ae35) |>.

(** The loop over the remaining bytes. *)
Fixpoint mix_bytes_loop (f : t) (bytes : list Z) (word shift : Z) : t * Z * Z :=
  match bytes with
  | [] => (f, word, shift)
  | b :: bytes' =>
      let word := Z.lor word (u64 (Z.shiftl b shift)) in
      let shift := shift + 8 in
      if shift =? 64 then mix_bytes_loop (mix f word) bytes' 0 0
      else mix_bytes_loop f bytes' word shift
  end.

Definition mix_bytes (f : t) (bytes : list Z) : t :=
  let '(f, word, shift) := mix_bytes_loop f bytes 0 0 in
  if negb (shift =? 0) then mix f (Z.lxor word (u64 (Z.shiftl (alen bytes) 56))) else f.

(** [mix(++count_)] *)
Definition mix_count (f : t) : t :=
  let f := f <| count_ ::= incr |> in mix f (count_ f).

Definition add_order (f : t) (value : WTSOrdDtlStruct.t) : t :=
  let f := mix f 0x4f524445525f4454 in
  let f := mix_bytes f (WTSOrdDtlStruct.exchg value) in
  let f := mix_bytes f (WTSOrdDtlStruct.code value) in
  let f := mix f (WTSOrdDtlStruct.trading_date value) in
  let f := mix f (WTSOrdDtlStruct.action_date value) in
  let f := mix f (WTSOrdDtlStruct.action_time value) in
  let f := mix f (WTSOrdDtlStruct.index value) in
  let f := mix f (Double.bits (WTSOrdDtlStruct.price value)) in
  let f := mix f (WTSOrdDtlStruct.volume value) in
  let f := mix f (WTSOrdDtlStruct.side value) in
  let f := mix f (WTSOrdDtlStruct.otype value) in
  mix_count f.

Definition add_transaction (f : t) (value : WTSTransStruct.t) : t :=
  let f := mix f 0x5452414e535f4454 in
  let f := mix_bytes f (WTSTransStruct.exchg value) in
  let f := mix_bytes f (WTSTransStruct.code value) in
  let f := mix f (WTSTransStruct.trading_date value) in
  let f := mix f (WTSTransStruct.action_date value) in
  let f := mix f (WTSTransStruct.action_time value) in
  let f := mix f (u64 (WTSTransStruct.index value)) in
  let f := mix f (WTSTransStruct.ttype value) in
  let f := mix f (WTSTransStruct.side value) in
  let f := mix f (Double.bits (WTSTransStruct.price value)) in
  let f := mix f (WTSTransStruct.volume value) in
  let f := mix f (u64 (WTSTransStruct.askorder value)) in
  let f := mix f (u64 (WTSTransStruct.bidorder value)) in
  mix_count f.

Definition add (f : t) (event : WtsCall) : t :=
  match event with
  | on_order_detail value => add_order f value
  | on_transaction value => add_transaction f value
  end.

Definition digest (f : t) : Z := avalanche (state_ f).
Definition count (f : t) : Z := count_ f.

End WtsEventFingerprint.

(** * Properties *)

Import WtsEventFingerprint.

(** ** 64-bit words *)

Definition word (x : Z) : Prop := 0 <= x < 2 ^ 64.

Lemma word_u64 x : word (u64 x).
Proof. apply wrap_bounds. lia. Qed.

Lemma word_lxor x y : word x -> word y -> word (Z.lxor x y).
Proof.
  unfold word. intros Hx Hy. assert (0 <= Z.lxor x y) by (apply Z.lxor_nonneg; lia). split; [done|].
  destruct (decide (Z.lxor x y = 0)) as [->|]; [lia|]. apply Z.log2_lt_pow2; [lia|].
  eapply Z.le_lt_trans; [apply Z.log2_lxor; lia|].
  assert (forall z, 0 <= z < 2 ^ 64 -> Z.log2 z < 64) as Hl.
  { intros z Hz. destruct (decide (z = 0)) as [->|]; [done|]. apply Z.log2_lt_pow2; lia. }
  apply Z.max_lub_lt; by apply Hl.
Qed.

Lemma word_shiftr x k : 0 <= k -> word x -> word (Z.shiftr x k).
Proof.
  unfold word. intros Hk Hx. rewrite Z.shiftr_div_pow2 by done.
  assert (0 < 2 ^ k) by (by apply Z.pow_pos_nonneg). split; [apply Z.div_pos; lia|].
  apply Z.div_lt_upper_bound; [done|]. nia.
Qed.

#[local] Hint Resolve word_u64 word_lxor : qtrader.

(** A right shift xored in can be undone: the top bits are untouched. *)
Lemma xorshift_inj k x y :
  0 < k -> 0 <= x -> 0 <= y ->
  Z.lxor x (Z.shiftr x k) = Z.lxor y (Z.shiftr y k) -> x = y.
Proof.
  intros Hk Hx Hy Heq. apply Z.lxor_eq.
  assert (Z.shiftr (Z.lxor x y) k = Z.lxor x y) as Hz.
  { rewrite Z.shiftr_lxor. apply Z.bits_inj'. intros n _.
    apply (f_equal (fun z => Z.testbit z n)) in Heq. rewrite !Z.lxor_spec in *.
    by destruct (Z.testbit x n), (Z.testbit y n), (Z.testbit (Z.shiftr x k) n), (Z.testbit (Z.shiftr y k) n). }
  assert (0 <= Z.lxor x y) by (by apply Z.lxor_nonneg).
  destruct (decide (Z.lxor x y = 0)) as [|Hne]; [done|].
  rewrite Z.shiftr_div_pow2 in Hz by lia.
  assert (Z.lxor x y / 2 ^ k < Z.lxor x y); [|lia].
  apply Z.div_lt; [lia|]. apply Z.pow_gt_1; lia.
Qed.

(** Multiplication by an odd constant is undone by its inverse. *)
Lemma odd_mul_inj c inverse x y :
  u64 (c * inverse) = 1 -> word x -> word y -> u64 (x * c) = u64 (y * c) -> x = y.
Proof.
  unfold word, wrap. intros Hc Hx Hy Heq.
  assert (forall z, 0 <= z < 2 ^ 64 -> ((z * c) mod 2 ^ 64 * inverse) mod 2 ^ 64 = z) as Hinv.
  { intros z Hz. rewrite Zmult_mod_idemp_l, <- Z.mul_assoc, <- Zmult_mod_idemp_r, Hc, Z.mul_1_r.
    by apply Z.mod_small. }
  by rewrite <- (Hinv x Hx), <- (Hinv y Hy), Heq.
Qed.

Lemma add_inj c x y : word x -> word y -> u64 (x + c) = u64 (y + c) -> x = y.
Proof.
  unfold word, wrap. intros Hx Hy Heq.
  assert (forall z, 0 <= z < 2 ^ 64 -> ((z + c) mod 2 ^ 64 - c) mod 2 ^ 64 = z) as Hinv.
  { intros z Hz. rewrite Zminus_mod_idemp_l. replace (z + c - c) with z by lia. by apply Z.mod_small. }
  by rewrite <- (Hinv x Hx), <- (Hinv y Hy), Heq.
Qed.

Lemma rotate_left_split x k :
  word x -> 0 <= k <= 64 -> rotate_left x k = (x mod 2 ^ (64 - k)) * 2 ^ k + x / 2 ^ (64 - k).
Proof.
  intros Hx Hk. unfold rotate_left. rewrite Z.shiftl_mul_pow2, Z.shiftr_div_pow2 by lia.
  assert (u64 (x * 2 ^ k) = (x mod 2 ^ (64 - k)) * 2 ^ k) as ->.
  { unfold wrap. replace (2 ^ 64) with (2 ^ (64 - k) * 2 ^ k)
      by (rewrite <- Z.pow_add_r by lia; f_equal; lia).
    by rewrite Z.mul_mod_distr_r by (apply Z.pow_nonzero; lia). }
  apply (itch50.lor_disjoint _ _ k); [lia|by rewrite Z.mod_mul by (apply Z.pow_nonzero; lia)|].
  unfold word in Hx. split; [apply Z.div_pos; [lia|apply Z.pow_pos_nonneg; lia]|].
  apply Z.div_lt_upper_bound; [apply Z.pow_pos_nonneg; lia|].
  rewrite <- Z.pow_add_r by lia. replace (64 - k + k) with 64 by lia. lia.
Qed.

Lemma rotate_left_inj x y k :
  word x -> word y -> 0 <= k <= 64 -> rotate_left x k = rotate_left y k -> x = y.
Proof.
  intros Hx Hy Hk. rewrite !rotate_left_split by done. unfold word in *. intros Heq.
  assert (0 < 2 ^ (64 - k)) by (apply Z.pow_pos_nonneg; lia).
  assert (0 < 2 ^ k) by (apply Z.pow_pos_nonneg; lia).
  assert (forall z, 0 <= z < 2 ^ 64 -> 0 <= z / 2 ^ (64 - k) < 2 ^ k) as Hdiv.
  { intros z Hz. split; [apply Z.div_pos; lia|]. apply Z.div_lt_upper_bound; [done|].
    rewrite <- Z.pow_add_r by lia. replace (64 - k + k) with 64 by lia. lia. }
  pose proof (Hdiv x Hx). pose proof (Hdiv y Hy).
  assert (x mod 2 ^ (64 - k) = y mod 2 ^ (64 - k) /\ x / 2 ^ (64 - k) = y / 2 ^ (64 - k)) as [Hm Hq].
  { apply (Z.div_mod_unique (2 ^ k)); [by left|by left|lia]. }
  rewrite (Z.div_mod x (2 ^ (64 - k))), (Z.div_mod y (2 ^ (64 - k))) by lia. by rewrite Hm, Hq.
Qed.

Lemma rotate_left_word x : word x -> word (rotate_left x 27).
Proof.
  intros Hx. rewrite rotate_left_split by done. unfold word in *.
  pose proof (Z.mod_pos_bound x (2 ^ (64 - 27)) ltac:(done)).
  assert (0 <= x / 2 ^ (64 - 27) < 2 ^ 27) by
    (split; [apply Z.div_pos; lia|apply Z.div_lt_upper_bound; lia]). lia.
Qed.

(** ** Mixing *)

Lemma avalanche_word x : word x -> word (avalanche x).
Proof. intros. unfold avalanche. apply word_lxor; [apply word_u64|]. apply word_shiftr; [lia|apply word_u64]. Qed.

Lemma avalanche_inj x y : word x -> word y -> avalanche x = avalanche y -> x = y.
Proof.
  intros Hx Hy Heq. unfold avalanche in Heq.
  assert (forall z k, 0 <= k -> word z -> word (Z.lxor z (Z.shiftr z k))) as Hw.
  { intros. apply word_lxor; [done|]. by apply word_shiftr. }
  apply xorshift_inj in Heq; [|lia|apply word_u64..].
  apply (odd_mul_inj _ 3573116690164977347) in Heq; [|done|apply Hw; [lia|apply word_u64]..].
  apply xorshift_inj in Heq; [|lia|apply word_u64..].
  apply (odd_mul_inj _ 10871156337175269513) in Heq; [|done|by apply Hw..].
  apply xorshift_inj in Heq; [done|lia|apply Hx|apply Hy].
Qed.

Record fingerprint_ok (f : t) : Prop := {
  ok_state : word (state_ f);
  ok_count : word (count_ f)
}.

Lemma mix_ok f v : fingerprint_ok f -> fingerprint_ok (mix f v).
Proof. intros []. constructor; cbn; [apply word_u64|done]. Qed.

(** One round, as a function of the state and the word. *)
Lemma mix_inj f g v w :
  fingerprint_ok f -> fingerprint_ok g -> count_ f = count_ g -> word v -> word w ->
  state_ (mix f v) = state_ (mix g w) ->
  Z.lxor (state_ f) (avalanche (u64 (u64 (v + 0x9e3779b97f4a7c15) + count_ f))) =
  Z.lxor (state_ g) (avalanche (u64 (u64 (w + 0x9e3779b97f4a7c15) + count_ f))).
Proof.
  intros Hf Hg Hc Hv Hw. unfold mix. updates. cbn [state_ count_]. rewrite <- Hc. intros Heq.
  assert (forall f v, fingerprint_ok f -> word (Z.lxor (state_ f)
    (avalanche (u64 (u64 (v + 0x9e3779b97f4a7c15) + count_ f))))) as Hx.
  { intros. apply word_lxor; [by apply ok_state|apply avalanche_word, word_u64]. }
  apply add_inj in Heq; [|apply word_u64..].
  apply (odd_mul_inj _ 13879073591979277787) in Heq; [|done|apply rotate_left_word..];
    [|by apply Hx|rewrite Hc; by apply Hx].
  apply rotate_left_inj in Heq; [done|by apply Hx|rewrite Hc; by apply Hx|lia].
Qed.

Lemma mix_state_inj f g v :
  fingerprint_ok f -> fingerprint_ok g -> count_ f = count_ g -> word v ->
  state_ (mix f v) = state_ (mix g v) -> state_ f = state_ g.
Proof.
  intros Hf Hg Hc Hv Heq. apply mix_inj in Heq; [|done..].
  set (a := avalanche _) in Heq. rewrite <- (Z.lxor_0_r (state_ f)), <- (Z.lxor_0_r (state_ g)).
  rewrite <- (Z.lxor_nilpotent a). rewrite <- !Z.lxor_assoc. by rewrite Heq.
Qed.

Lemma mix_value_inj f g v w :
  fingerprint_ok f -> fingerprint_ok g -> count_ f = count_ g -> state_ f = state_ g -> word v -> word w ->
  state_ (mix f v) = state_ (mix g w) -> v = w.
Proof.
  intros Hf Hg Hc Hs Hv Hw Heq. apply mix_inj in Heq; [|done..]. rewrite Hs in Heq.
  apply (f_equal (Z.lxor (state_ g))) in Heq. rewrite <- !Z.lxor_assoc, !Z.lxor_nilpotent, !Z.lxor_0_l in Heq.
  apply avalanche_inj in Heq; [|apply word_u64..]. apply add_inj in Heq; [|apply word_u64..].
  by apply add_inj in Heq.
Qed.

(** ** The words of an event *)

(** The words a byte array is mixed as, and what is left of the last. *)
Fixpoint words_loop (bytes : list Z) (w shift : Z) : list Z * (Z * Z) :=
  match bytes with
  | [] => ([], (w, shift))
  | b :: bytes' =>
      let w := Z.lor w (u64 (Z.shiftl b shift)) in
      if shift + 8 =? 64 then let '(ws, rest) := words_loop bytes' 0 0 in (w :: ws, rest)
      else words_loop bytes' w (shift + 8)
  end.

Definition byte_words (bytes : list Z) : list Z :=
  let '(ws, (w, shift)) := words_loop bytes 0 0 in
  ws ++ if shift =? 0 then [] else [Z.lxor w (u64 (Z.shiftl (alen bytes) 56))].

Definition order_words (e : WTSOrdDtlStruct.t) : list Z :=
  [0x4f524445525f4454] ++ byte_words (WTSOrdDtlStruct.exchg e) ++ byte_words (WTSOrdDtlStruct.code e) ++
  [WTSOrdDtlStruct.trading_date e; WTSOrdDtlStruct.action_date e; WTSOrdDtlStruct.action_time e;
   WTSOrdDtlStruct.index e; Double.bits (WTSOrdDtlStruct.price e); WTSOrdDtlStruct.volume e;
   WTSOrdDtlStruct.side e; WTSOrdDtlStruct.otype e].

Definition transaction_words (e : WTSTransStruct.t) : list Z :=
  [0x5452414e535f4454] ++ byte_words (WTSTransStruct.exchg e) ++ byte_words (WTSTransStruct.code e) ++
  [WTSTransStruct.trading_date e; WTSTransStruct.action_date e; WTSTransStruct.action_time e;
   u64 (WTSTransStruct.index e); WTSTransStruct.ttype e; WTSTransStruct.side e;
   Double.bits (WTSTransStruct.price e); WTSTransStruct.volume e; u64 (WTSTransStruct.askorder e);
   u64 (WTSTransStruct.bidorder e)].

Definition event_words (e : WtsCall) : list Z :=
  match e with on_order_detail o => order_words o | on_transaction tr => transaction_words tr end.

Lemma mix_bytes_loop_words bytes f w shift :
  mix_bytes_loop f bytes w shift =
    let '(ws, (w', shift')) := words_loop bytes w shift in (fold_left mix ws f, w', shift').
Proof.
  revert f w shift. induction bytes as [|b bytes IH]; intros f w shift; cbn [mix_bytes_loop words_loop]; [done|].
  cbn zeta. destruct (_ =? _); [|apply IH].
  rewrite IH. by destruct (words_loop bytes 0 0) as [ws [w' shift']].
Qed.

Lemma mix_bytes_words f bytes : mix_bytes f bytes = fold_left mix (byte_words bytes) f.
Proof.
  unfold mix_bytes, byte_words. rewrite mix_bytes_loop_words.
  destruct (words_loop bytes 0 0) as [ws [w shift]]. rewrite fold_left_app. by destruct (_ =? _).
Qed.

(** [add] mixes the words of the event, then the new count. *)
Lemma add_words f e : add f e = mix_count (fold_left mix (event_words e) f).
Proof.
  destruct e; cbn [add event_words]; unfold add_order, add_transaction, order_words, transaction_words;
    rewrite !fold_left_app; cbn [fold_left]; by rewrite !mix_bytes_words.
Qed.

(** ** What the words say *)

Definition bytes_of (n : Z) (l : list Z) : Prop := alen l = n /\ Forall itch50.is_byte l.
Definition is_u32 (x : Z) : Prop := 0 <= x < 2 ^ 32.
Definition is_i64 (x : Z) : Prop := - 2 ^ 63 <= x < 2 ^ 63.
Definition is_double (x : Double.t) : Prop := SpecFloat.valid_binary 53 1024 x = true.

Record order_fields_ok (e : WTSOrdDtlStruct.t) : Prop := {
  order_exchg : bytes_of MAX_EXCHANGE_LENGTH (WTSOrdDtlStruct.exchg e);
  order_code : bytes_of MAX_INSTRUMENT_LENGTH (WTSOrdDtlStruct.code e);
  order_numbers : Forall is_u32 [WTSOrdDtlStruct.trading_date e; WTSOrdDtlStruct.action_date e;
    WTSOrdDtlStruct.action_time e; WTSOrdDtlStruct.volume e; WTSOrdDtlStruct.side e; WTSOrdDtlStruct.otype e];
  order_index : word (WTSOrdDtlStruct.index e);
  order_price : is_double (WTSOrdDtlStruct.price e)
}.

Record transaction_fields_ok (e : WTSTransStruct.t) : Prop := {
  transaction_exchg : bytes_of MAX_EXCHANGE_LENGTH (WTSTransStruct.exchg e);
  transaction_code : bytes_of MAX_INSTRUMENT_LENGTH (WTSTransStruct.code e);
  transaction_numbers : Forall is_u32 [WTSTransStruct.trading_date e; WTSTransStruct.action_date e;
    WTSTransStruct.action_time e; WTSTransStruct.ttype e; WTSTransStruct.side e; WTSTransStruct.volume e];
  transaction_signed : Forall is_i64 [WTSTransStruct.index e; WTSTransStruct.askorder e;
    WTSTransStruct.bidorder e];
  transaction_price : is_double (WTSTransStruct.price e)
}.

Definition event_ok (e : WtsCall) : Prop :=
  match e with on_order_detail o => order_fields_ok o | on_transaction tr => transaction_fields_ok tr end.

(** *** Doubles *)

Lemma bounded_cases m e :
  SpecFloat.bounded 53 1024 m e = true ->
  (Z.pos m < 2 ^ 52 /\ e = -1074) \/ (2 ^ 52 <= Z.pos m < 2 ^ 53 /\ -1074 <= e <= 971).
Proof.
  unfold SpecFloat.bounded, SpecFloat.canonical_mantissa. rewrite andb_true_iff, Z.eqb_eq, Z.leb_le.
  change (Z.pos (SpecFloat.digits2_pos m)) with (SpecFloat.Zdigits2 (Z.pos m)).
  rewrite Double.digits_log2 by lia. unfold SpecFloat.fexp, SpecFloat.emin. intros [He Hle].
  assert (Z.log2 (Z.pos m) <= 52) by lia.
  assert (Z.pos m < 2 ^ 53) as Hm by (apply Z.log2_lt_pow2; lia).
  destruct (Z.lt_ge_cases (Z.pos m) (2 ^ 52)) as [Hlt|Hge].
  - left. assert (Z.log2 (Z.pos m) < 52) by (apply Z.log2_lt_pow2; lia). lia.
  - right. lia.
Qed.

Lemma bits_inj x y : is_double x -> is_double y -> Double.bits x = Double.bits y -> x = y.
Proof.
  unfold is_double. intros Hx Hy.
  destruct x as [sx|sx| |sx mx ex], y as [sy|sy| |sy my ey]; cbn [SpecFloat.valid_binary] in Hx, Hy;
    try (apply bounded_cases in Hx); try (apply bounded_cases in Hy); unfold Double.bits; intros Heq.
  all: repeat match type of Heq with
    | context [Z.pos ?m <? 2 ^ 52] => destruct (Z.ltb_spec (Z.pos m) (2 ^ 52)) end.
  all: try (destruct sx); try (destruct sy); try done; try (exfalso; lia).
  all: f_equal; lia.
Qed.

Lemma bits_word x : is_double x -> word (Double.bits x).
Proof.
  unfold is_double, word. intros Hx. destruct x as [s|s| |s m e]; cbn [SpecFloat.valid_binary] in Hx.
  1,2: by destruct s.
  1: done.
  apply bounded_cases in Hx. unfold Double.bits.
  destruct (Z.ltb_spec (Z.pos m) (2 ^ 52)), s; lia.
Qed.

(** *** Byte arrays *)

(** Eight bytes make a word: the partial word is below [2^shift]. *)
Lemma push_byte w b shift :
  0 <= shift <= 56 -> 0 <= w < 2 ^ shift -> itch50.is_byte b ->
  Z.lor w (u64 (Z.shiftl b shift)) = w + b * 2 ^ shift /\ 0 <= w + b * 2 ^ shift < 2 ^ (shift + 8).
Proof.
  unfold itch50.is_byte. intros Hs Hw Hb. rewrite Z.shiftl_mul_pow2 by lia.
  assert (0 < 2 ^ shift) by (apply Z.pow_pos_nonneg; lia).
  assert (0 <= w + b * 2 ^ shift < 2 ^ (shift + 8)) as Hr.
  { rewrite Z.pow_add_r by lia. change (2 ^ 8) with 256. nia. }
  split; [|done]. assert (2 ^ (shift + 8) <= 2 ^ 64) by (apply Z.pow_le_mono_r; lia).
  rewrite wrap_small by nia. rewrite Z.lor_comm.
  rewrite (itch50.lor_disjoint _ _ shift); [lia|lia|by rewrite Z.mod_mul by lia|done].
Qed.

Lemma words_loop_inj l1 l2 w1 w2 k :
  length l1 = length l2 -> Forall itch50.is_byte l1 -> Forall itch50.is_byte l2 ->
  0 <= k < 8 -> 0 <= w1 < 2 ^ (8 * k) -> 0 <= w2 < 2 ^ (8 * k) ->
  words_loop l1 w1 (8 * k) = words_loop l2 w2 (8 * k) -> l1 = l2 /\ w1 = w2.
Proof.
  revert l2 w1 w2 k. induction l1 as [|b1 l1 IH]; intros [|b2 l2] w1 w2 k Hlen Hb1 Hb2 Hk Hw1 Hw2 Heq;
    [|done|done|]; [by injection Heq as ->|].
  apply Forall_cons in Hb1 as [Hb1 Hl1]. apply Forall_cons in Hb2 as [Hb2 Hl2]. injection Hlen as Hlen.
  cbn [words_loop] in Heq.
  destruct (push_byte w1 b1 (8 * k)) as [E1 R1]; [lia|done|done|].
  destruct (push_byte w2 b2 (8 * k)) as [E2 R2]; [lia|done|done|]. rewrite E1, E2 in Heq.
  assert (l1 = l2 /\ w1 + b1 * 2 ^ (8 * k) = w2 + b2 * 2 ^ (8 * k)) as [-> Hsum].
  { destruct (Z.eqb_spec (8 * k + 8) 64) as [Hz|Hz].
    - destruct (words_loop l1 0 0) as [ws1 r1] eqn:Ew1, (words_loop l2 0 0) as [ws2 r2] eqn:Ew2.
      injection Heq as Hw Hws Hr. split; [|done].
      apply (IH l2 0 0 0); [done|done|done|lia|done|done|]. change (8 * 0) with 0. by rewrite Ew1, Ew2, Hws, Hr.
    - replace (8 * k + 8) with (8 * (k + 1)) in * by lia.
      apply IH in Heq; [done|done|done|done|lia|done|done]. }
  assert (0 < 2 ^ (8 * k)) by (apply Z.pow_pos_nonneg; lia).
  destruct (Z.div_mod_unique (2 ^ (8 * k)) b1 b2 w1 w2) as [-> ->]; [by left|by left|lia|done].
Qed.

(** Whole words leave nothing over. *)
Lemma words_loop_rest l w k :
  Forall itch50.is_byte l -> 0 <= k < 8 -> 0 <= w < 2 ^ (8 * k) -> (k + alen l) mod 8 = 0 ->
  (words_loop l w (8 * k)).2 = (0, 0).
Proof.
  revert w k. induction l as [|b l IH]; intros w k Hb Hk Hw Hm; cbn [words_loop].
  - unfold alen in Hm. cbn in Hm. assert (k = 0) as -> by (rewrite Z.add_0_r, Z.mod_small in Hm; lia).
    cbn in *. by replace w with 0 by lia.
  - apply Forall_cons in Hb as [Hb Hl]. destruct (push_byte w b (8 * k)) as [E R]; [lia|done|done|]. rewrite E.
    assert (alen (b :: l) = alen l + 1) as Hal by (unfold alen; cbn; lia). rewrite Hal in Hm.
    destruct (Z.eqb_spec (8 * k + 8) 64).
    + assert (k = 7) as -> by lia. specialize (IH 0 0 Hl ltac:(lia) ltac:(done)).
      change (8 * 0) with 0 in IH. destruct (words_loop l 0 0). apply IH. revert Hm. dlia.
    + replace (8 * k + 8) with (8 * (k + 1)) in * by lia. apply IH; [done|lia|done|].
      by replace (k + 1 + alen l) with (k + (alen l + 1)) by lia.
Qed.

Lemma byte_words_whole l :
  Forall itch50.is_byte l -> alen l mod 8 = 0 ->
  byte_words l = (words_loop l 0 0).1 /\ (words_loop l 0 0).2 = (0, 0).
Proof.
  intros Hb Hm. pose proof (words_loop_rest l 0 0 Hb ltac:(lia) ltac:(done) Hm) as Hr.
  change (8 * 0) with 0 in Hr. unfold byte_words. destruct (words_loop l 0 0) as [ws [w s]].
  cbn [snd] in Hr. injection Hr as -> ->. cbn. by rewrite app_nil_r.
Qed.

Lemma byte_words_inj n l1 l2 :
  n mod 8 = 0 -> bytes_of n l1 -> bytes_of n l2 -> byte_words l1 = byte_words l2 -> l1 = l2.
Proof.
  intros Hn [Hl1 Hb1] [Hl2 Hb2]. destruct (byte_words_whole l1) as [-> Hr1]; [done|by rewrite Hl1|].
  destruct (byte_words_whole l2) as [-> Hr2]; [done|by rewrite Hl2|]. intros Heq.
  apply (words_loop_inj l1 l2 0 0 0); [unfold alen in *; lia|done|done|lia|done|done|].
  change (8 * 0) with 0.
  destruct (words_loop l1 0 0), (words_loop l2 0 0). cbn in *. congruence.
Qed.

Lemma words_loop_words l w k :
  Forall itch50.is_byte l -> 0 <= k < 8 -> 0 <= w < 2 ^ (8 * k) ->
  Forall word (words_loop l w (8 * k)).1 /\
  length (words_loop l w (8 * k)).1 = Z.to_nat ((k + alen l) / 8).
Proof.
  revert w k. induction l as [|b l IH]; intros w k Hb Hk Hw; cbn [words_loop].
  - unfold alen. cbn. split; [constructor|]. rewrite Z.add_0_r, Z.div_small; [done|lia].
  - apply Forall_cons in Hb as [Hb Hl]. destruct (push_byte w b (8 * k)) as [E R]; [lia|done|done|]. rewrite E.
    assert (alen (b :: l) = alen l + 1) as Hal by (unfold alen; cbn; lia). rewrite Hal.
    destruct (Z.eqb_spec (8 * k + 8) 64) as [Hz|Hz].
    + destruct (IH 0 0 Hl) as [Hf Hn]; [lia|done|]. change (8 * 0) with 0 in Hf, Hn.
      destruct (words_loop l 0 0) as [ws r]. cbn [fst length] in *. split.
      * constructor; [unfold word; by rewrite <- Hz|done].
      * rewrite Hn. assert (0 <= alen l) by (unfold alen; lia). assert (k = 7) as -> by lia. dlia.
    + replace (8 * k + 8) with (8 * (k + 1)) in * by lia.
      replace (k + (alen l + 1)) with (k + 1 + alen l) by lia. apply IH; [done|lia|done].
Qed.

Lemma byte_words_ok n l :
  n mod 8 = 0 -> bytes_of n l -> Forall word (byte_words l) /\ length (byte_words l) = Z.to_nat (n / 8).
Proof.
  intros Hn [Hl Hb]. destruct (byte_words_whole l) as [-> _]; [done|by rewrite Hl|].
  destruct (words_loop_words l 0 0) as [Hf Hlen]; [done|lia|done|]. change (8 * 0) with 0 in Hf, Hlen.
  split; [done|]. by rewrite Hlen, Hl.
Qed.

(** *** Events *)

Lemma u32_word x : is_u32 x -> word x.
Proof. unfold is_u32, word. lia. Qed.

Lemma u32_words l : Forall is_u32 l -> Forall word l.
Proof. intros. eapply Forall_impl; [done|]. apply u32_word. Qed.

Lemma u64_i64_inj x y : is_i64 x -> is_i64 y -> u64 x = u64 y -> x = y.
Proof. unfold is_i64, wrap. intros. dlia. Qed.

Lemma exchange_words : MAX_EXCHANGE_LENGTH mod 8 = 0 /\ MAX_INSTRUMENT_LENGTH mod 8 = 0.
Proof. done. Qed.

Ltac split_words :=
  repeat match goal with
  | H : Forall _ (_ :: _) |- _ => apply Forall_cons in H as [? H]
  end.

Lemma event_words_ok e : event_ok e -> Forall word (event_words e).
Proof.
  destruct e as [e|e]; intros []; cbn [event_words];
    [unfold order_words|unfold transaction_words]; split_words.
  - repeat (apply Forall_app; split); [repeat constructor; done|by eapply (byte_words_ok MAX_EXCHANGE_LENGTH)
      |by eapply (byte_words_ok MAX_INSTRUMENT_LENGTH)|].
    repeat (apply Forall_cons_2; [first [done|by apply u32_word|by apply bits_word]|]). apply Forall_nil_2.
  - repeat (apply Forall_app; split); [repeat constructor; done|by eapply (byte_words_ok MAX_EXCHANGE_LENGTH)
      |by eapply (byte_words_ok MAX_INSTRUMENT_LENGTH)|].
    repeat (apply Forall_cons_2; [first [apply word_u64|by apply u32_word|by apply bits_word]|]). apply Forall_nil_2.
Qed.

(** The arrays of two events take the same number of words. *)
Lemma arrays_inj x1 c1 x2 c2 l1 l2 :
  bytes_of MAX_EXCHANGE_LENGTH x1 -> bytes_of MAX_INSTRUMENT_LENGTH c1 ->
  bytes_of MAX_EXCHANGE_LENGTH x2 -> bytes_of MAX_INSTRUMENT_LENGTH c2 ->
  byte_words x1 ++ byte_words c1 ++ l1 = byte_words x2 ++ byte_words c2 ++ l2 ->
  x1 = x2 /\ c1 = c2 /\ l1 = l2.
Proof.
  intros Hx1 Hc1 Hx2 Hc2 Heq.
  destruct (byte_words_ok MAX_EXCHANGE_LENGTH x1) as [_ L1]; [done..|].
  destruct (byte_words_ok MAX_EXCHANGE_LENGTH x2) as [_ L2]; [done..|].
  destruct (byte_words_ok MAX_INSTRUMENT_LENGTH c1) as [_ L3]; [done..|].
  destruct (byte_words_ok MAX_INSTRUMENT_LENGTH c2) as [_ L4]; [done..|].
  apply app_inj_1 in Heq as [Ex Heq]; [|congruence]. apply app_inj_1 in Heq as [Ec Heq]; [|congruence].
  split_and!; [by eapply byte_words_inj; [|exact Hx1|exact Hx2|]|by eapply byte_words_inj; [|exact Hc1|exact Hc2|]|done].
Qed.

Lemma event_words_inj a b : event_ok a -> event_ok b -> event_words a = event_words b -> a = b.
Proof.
  destruct a as [a|a], b as [b|b]; intros [] []; cbn [event_words];
    unfold order_words, transaction_words; intros Heq; [|by injection Heq..|].
  all: apply (f_equal (drop 1)) in Heq; cbn [drop app] in Heq; apply arrays_inj in Heq as (Hx & Hc & Heq);
    [|done..]; split_words; injection Heq; intros; destruct a, b; cbn in *; subst; f_equal; f_equal;
    try done; first [by apply bits_inj|by apply u64_i64_inj].
Qed.

(** ** Streams *)

Definition run (events : list WtsCall) : t := fold_left add events make.

Record diverged (f g : t) : Prop := {
  diverged_left : fingerprint_ok f;
  diverged_right : fingerprint_ok g;
  diverged_count : count_ f = count_ g;
  diverged_state : state_ f <> state_ g
}.

Lemma mix_words_ok words f :
  fingerprint_ok f -> fingerprint_ok (fold_left mix words f) /\ count_ (fold_left mix words f) = count_ f.
Proof.
  revert f. induction words as [|w words IH]; intros f Hf; cbn [fold_left]; [done|].
  destruct (IH (mix f w)) as [Hok Hc]; [by apply mix_ok|]. by rewrite Hc.
Qed.

Lemma mix_diverged f g v : word v -> diverged f g -> diverged (mix f v) (mix g v).
Proof.
  intros Hv []. constructor; [by apply mix_ok..|done|]. contradict diverged_state0. by eapply mix_state_inj.
Qed.

Lemma mix_words_diverged words f g :
  Forall word words -> diverged f g -> diverged (fold_left mix words f) (fold_left mix words g).
Proof.
  intros Hw. revert f g. induction Hw as [|w words Hw _ IH]; intros f g Hd; cbn [fold_left]; [done|].
  apply IH. by apply mix_diverged.
Qed.

Lemma mix_count_diverged f g : diverged f g -> diverged (mix_count f) (mix_count g).
Proof.
  intros [[Hsf Hcf] [Hsg Hcg] Hc Hs]. unfold mix_count. updates. cbn [count_ state_]. rewrite Hc.
  apply mix_diverged; [apply word_u64|].
  constructor; cbn; [constructor; cbn; [done|apply word_u64]..|done|done].
Qed.

Lemma add_diverged f g e : event_ok e -> diverged f g -> diverged (add f e) (add g e).
Proof.
  intros He Hd. rewrite !add_words. apply mix_count_diverged, mix_words_diverged; [by apply event_words_ok|done].
Qed.

Lemma add_ok f e : fingerprint_ok f -> fingerprint_ok (add f e).
Proof.
  intros Hf. rewrite add_words. destruct (mix_words_ok (event_words e) f Hf) as [[Hs Hc] _].
  unfold mix_count. apply mix_ok. constructor; cbn; [done|apply word_u64].
Qed.

Lemma run_fingerprint_ok events f : fingerprint_ok f -> fingerprint_ok (fold_left add events f).
Proof. revert f. induction events as [|e events IH]; intros f Hf; cbn; [done|]. by apply IH, add_ok. Qed.

Lemma make_fingerprint_ok : fingerprint_ok make.
Proof. by constructor. Qed.

Lemma add_count f e : count_ (add f e) = incr (count_ f).
Proof.
  rewrite add_words. unfold mix_count. cbn. f_equal. revert f.
  induction (event_words e) as [|w words IH]; intros f; cbn; [done|]. by rewrite IH.
Qed.

Lemma run_count events f :
  word (count_ f) -> count_ (fold_left add events f) = u64 (count_ f + alen events).
Proof.
  revert f. induction events as [|e events IH]; intros f Hf; cbn [fold_left].
  - unfold alen. cbn. rewrite Z.add_0_r. symmetry. by apply wrap_small.
  - rewrite IH; rewrite add_count; [|apply word_u64]. unfold incr. rewrite wrap_add_l. f_equal.
    unfold alen. cbn. lia.
Qed.

(** An event is mixed in as its words, and the words leave no field out: two
    well-formed events with the same words are the same event. *)
Theorem fingerprint_mixes_every_field f a b :
  event_ok a -> event_ok b ->
  add f a = mix_count (fold_left mix (event_words a) f) /\ (event_words a = event_words b -> a = b).
Proof. intros Ha Hb. split; [apply add_words|by apply event_words_inj]. Qed.

(** Two streams of well-formed events that differ in one event, there in one
    mixed word (one field, or eight bytes of a name), never have the same digest;
    and the count is the number of events. *)
Theorem fingerprint_detects_change before after a b first rest v w :
  Forall event_ok (a :: b :: before ++ after) ->
  event_words a = first ++ v :: rest -> event_words b = first ++ w :: rest -> v <> w ->
  digest (run (before ++ a :: after)) <> digest (run (before ++ b :: after)) /\
  count (run (before ++ a :: after)) = u64 (alen (before ++ a :: after)).
Proof.
  intros Hok Ha Hb Hne. apply Forall_cons in Hok as [Hoa Hok]. apply Forall_cons in Hok as [Hob Hok].
  apply Forall_app in Hok as [Hob1 Haft].
  pose proof (event_words_ok a Hoa) as Hwa. pose proof (event_words_ok b Hob) as Hwb.
  rewrite Ha in Hwa. rewrite Hb in Hwb. apply Forall_app in Hwa as [Hfirst Hwa].
  apply Forall_app in Hwb as [_ Hwb]. apply Forall_cons in Hwa as [Hv Hrest]. apply Forall_cons in Hwb as [Hw _].
  split.
  - unfold run. rewrite !fold_left_app. cbn [fold_left].
    pose proof (run_fingerprint_ok before make make_fingerprint_ok) as Hf.
    generalize dependent (fold_left add before make). intros f Hf.
    assert (diverged (add f a) (add f b)) as Hd.
    { rewrite !add_words, Ha, Hb, !fold_left_app. cbn [fold_left].
      destruct (mix_words_ok first f Hf) as [Hf1 _]. set (f1 := fold_left mix first f) in *.
      apply mix_count_diverged, mix_words_diverged; [done|].
      constructor; [by apply mix_ok..|done|]. contradict Hne. by eapply (mix_value_inj f1 f1). }
    generalize dependent (add f a). generalize dependent (add f b). clear -Haft. intros g f.
    revert f g. induction Haft as [|e after He _ IH]; intros f g Hd; cbn [fold_left].
    + intros Heq. destruct Hd as [[] [] _ Hs]. by apply Hs, avalanche_inj.
    + apply IH. by apply add_diverged.
  - unfold count, run. rewrite run_count; [done|apply make_fingerprint_ok].
Qed.

Definition sample_event (volume : Z) : WtsCall :=
  on_order_detail (WTSOrdDtlStruct.mk ([80; 83; 88] ++ replicate 13 0) ([65] ++ replicate 31 0)
    20190530 20190530 93000000 1 (Double.of_ticks 101) volume 66 50).

Lemma sample_event_ok volume : is_u32 volume -> event_ok (sample_event volume).
Proof.
  intros Hv. constructor; cbn -[Double.of_ticks]; [split; [done|by apply bytes_ok]..| |done|by vm_compute].
  repeat (apply Forall_cons_2; [by unfold is_u32 in *|]). apply Forall_nil_2.
Qed.

Lemma fingerprint_mixes_every_field_witness :
  add make (sample_event 10) = mix_count (fold_left mix (event_words (sample_event 10)) make) /\
  (event_words (sample_event 10) = event_words (sample_event 11) -> sample_event 10 = sample_event 11).
Proof. by apply (fingerprint_mixes_every_field make (sample_event 10) (sample_event 11)); apply sample_event_ok. Defined.

Lemma fingerprint_detects_change_witness :
  digest (run [sample_event 1; sample_event 10; sample_event 3]) <>
  digest (run [sample_event 1; sample_event 11; sample_event 3]) /\
  count (run [sample_event 1; sample_event 10; sample_event 3]) = u64 3.
Proof.
  apply (fingerprint_detects_change [sample_event 1] [sample_event 3] (sample_event 10) (sample_event 11)
    (take 12 (event_words (sample_event 10))) (drop 13 (event_words (sample_event 10))) 10 11);
    [|by vm_compute|by vm_compute|done].
  repeat (apply Forall_cons_2; [by apply sample_event_ok|]). apply Forall_nil_2.
Defined.
