(* ===== verification/Replay.v ===== *)
(** * tools/NasdaqItchUftDifferentialReplay.cpp

    The tool that replays one instrument of a historical file through both
    adapters and compares what they publish, event by event.  The candidate
    publishes on a real engine with one strategy, whose callbacks compare; the
    sink of the reference stores what is expected. *)

From Stdlib Require Import Ascii.
From S2P Require Import Prelude Itch50 Binary64 WtsTypes WtsAdapter UftTypes UftAdapter Engine HistoricalFile.
Import itch50.

(** [length] bytes of the symbol field, less its trailing spaces. *)
Fixpoint trim_loop (bytes : list Z) (length : nat) : nat :=
  match length with
  | O => O
  | S length' => if byte_at bytes (Z.of_nat length') =? chr " " then trim_loop bytes length' else length
  end.

Definition trimmed_symbol (bytes : list Z) : list Z := take (trim_loop bytes 8) bytes.

Definition action_time (timestamp_ns : Z) : Z :=
  let milliseconds := timestamp_ns / 1000000 in
  u32 (u64 (u64 (milliseconds / 3600000 * 10000000) + (milliseconds / 60000) mod 60 * 100000 +
    (milliseconds / 1000) mod 60 * 1000 + milliseconds mod 1000)).

Definition uft_side (side : Z) : UftSide.t :=
  if side =? BDT_Buy then UftSide.Buy
  else if side =? BDT_Sell then UftSide.Sell else UftSide.Unknown.

Module Comparison.

Record t := mk {
  expected_order : WTSOrdDtlStruct.t;
  expected_transaction : WTSTransStruct.t;
  have_order : bool;
  have_transaction : bool;
  compared_orders : Z;
  compared_transactions : Z;
  mismatches : Z;
  ordering_errors : Z
}.
#[global] Instance eta_comparison : Eta t := fun c =>
  mk (expected_order c) (expected_transaction c) (have_order c) (have_transaction c)
    (compared_orders c) (compared_transactions c) (mismatches c) (ordering_errors c).

Definition make : t :=
  mk (WTSOrdDtlStruct.mk (replicate 16 0) (replicate 32 0) 0 0 0 0 (Double.of_Z 0) 0 0 0)
    (WTSTransStruct.mk (replicate 16 0) (replicate 32 0) 0 0 0 0 0 0 (Double.of_Z 0) 0 0 0)
    false false 0 0 0 0.

Definition ordering_error (c : t) : t := c <| ordering_errors ::= incr |>.

Definition on_order_detail (c : t) (event : WTSOrdDtlStruct.t) : t :=
  let c := if have_order c then ordering_error c else c in
  (c <| expected_order := event |>) <| have_order := true |>.

Definition on_transaction (c : t) (event : WTSTransStruct.t) : t :=
  let c := if have_transaction c then ordering_error c else c in
  (c <| expected_transaction := event |>) <| have_transaction := true |>.

(** A call the reference makes on its sink. *)
Definition observe (c : t) (call : WtsCall) : t :=
  match call with
  | WtsTypes.on_order_detail event => on_order_detail c event
  | WtsTypes.on_transaction event => on_transaction c event
  end.

(** [a != b] on the types compared. *)
Definition order_differs (expected : WTSOrdDtlStruct.t) (event : UftOrderDetail.t) : bool :=
  let expected_ticks := Double.to_ticks (WTSOrdDtlStruct.price expected) in
  negb (UftOrderDetail.order_id event =? WTSOrdDtlStruct.index expected) ||
  negb (UftOrderDetail.price_ticks event =? expected_ticks) ||
  negb (UftOrderDetail.quantity event =? WTSOrdDtlStruct.volume expected) ||
  negb (bool_decide (UftOrderDetail.side event = uft_side (WTSOrdDtlStruct.side expected))) ||
  match UftOrderDetail.order_type event with UftOrderType.Limit => false | _ => true end ||
  negb (action_time (UftOrderDetail.exchange_time_ns event) =? WTSOrdDtlStruct.action_time expected).

Definition compare_order (c : t) (event : UftOrderDetail.t) : t :=
  let c := c <| compared_orders ::= incr |> in
  if negb (have_order c) then ordering_error c
  else
    let c := if order_differs (expected_order c) event then c <| mismatches ::= incr |> else c in
    c <| have_order := false |>.

Definition expected_type (ttype : Z) : UftTransactionType.t :=
  if ttype =? TT_Match then UftTransactionType.Trade
  else if ttype =? kWtsTradeBust then UftTransactionType.TradeBust else UftTransactionType.Cancel.

Definition transaction_differs (expected : WTSTransStruct.t) (event : UftTransaction.t) : bool :=
  let expected_ticks := Double.to_ticks (WTSTransStruct.price expected) in
  negb (UftTransaction.transaction_id event =? u64 (WTSTransStruct.index expected)) ||
  negb (UftTransaction.price_ticks event =? expected_ticks) ||
  negb (UftTransaction.quantity event =? WTSTransStruct.volume expected) ||
  negb (bool_decide (UftTransaction.side event = uft_side (WTSTransStruct.side expected))) ||
  negb (bool_decide (UftTransaction.transaction_type event = expected_type (WTSTransStruct.ttype expected))) ||
  negb (UftTransaction.ask_order_id event =? u64 (WTSTransStruct.askorder expected)) ||
  negb (UftTransaction.bid_order_id event =? u64 (WTSTransStruct.bidorder expected)) ||
  negb (action_time (UftTransaction.exchange_time_ns event) =? WTSTransStruct.action_time expected).

Definition compare_transaction (c : t) (event : UftTransaction.t) : t :=
  let c := c <| compared_transactions ::= incr |> in
  if negb (have_transaction c) then ordering_error c
  else
    let c := if transaction_differs (expected_transaction c) event then c <| mismatches ::= incr |> else c in
    c <| have_transaction := false |>.

Definition finish_message (c : t) : t :=
  let c := if have_order c || have_transaction c then ordering_error c else c in
  (c <| have_order := false |>) <| have_transaction := false |>.

(** A callback of the strategy. *)
Definition deliver (c : t) (d : Delivery) : t :=
  match d with
  | OrderDetailTo _ event => compare_order c event
  | TransactionTo _ event => compare_transaction c event
  | _ => c
  end.

End Comparison.
Import (hints) Comparison.

Module DifferentialReplay.
Definition strategy_init : InitProgram :=
  Subscribe 1 Channel.OrderDetail (fun _ => Subscribe 1 Channel.Transaction (fun _ => Return)).
Definition callbacks : UftStrategyCallbacks.t :=
  UftStrategyCallbacks.mk (Some strategy_init) false false true true.

(** "PSX.TARGET" *)
Definition target_code : list Z :=
  [chr "P"; chr "S"; chr "X"; chr "."; chr "T"; chr "A"; chr "R"; chr "G"; chr "E"; chr "T"; 0].

(** The engine, started; [None] when a registration or the start fails. *)
Definition setup : option UftMarketDataEngine.t :=
  let '(e, ok) := UftMarketDataEngine.register_instrument 2 (UftMarketDataEngine.make 2 2) 1
    (Some target_code) 1 20000000 1 in
  if negb ok then None
  else
    let '(e, ok) := UftMarketDataEngine.register_strategy 2 e 1 (Some 1) callbacks in
    if negb ok then None
    else
      let '(e, ok) := UftMarketDataEngine.start 2 2 1 e in
      if negb ok then None else Some e.

(** Publishing runs the strategy's callbacks on the comparison.  The engine
    has no book channel. *)
#[global] Instance compared_engine : MarketDataEngine (UftMarketDataEngine.t * Comparison.t) := {|
  publish_order_detail '(e, c) event :=
    let '(deliveries, n) := UftMarketDataEngine.publish_order_detail 2 e event in
    ((e, fold_left Comparison.deliver deliveries c), n);
  publish_transaction '(e, c) event :=
    let '(deliveries, n) := UftMarketDataEngine.publish_transaction 2 e event in
    ((e, fold_left Comparison.deliver deliveries c), n);
  publish_book_update := None
|}.

Record t := mk {
  comparison : Comparison.t;
  engine : UftMarketDataEngine.t;
  adapters : option (PsxWtsAdapter.t * NasdaqItchUftAdapter.t);
  locator : Z;
  target_messages : Z
}.
#[global] Instance eta_replay : Eta t := fun s =>
  mk (comparison s) (engine s) (adapters s) (locator s) (target_messages s).

Section run.
Context (symbol : list Z) (trading_date order_capacity match_capacity : Z).

(** The stock directory message of the symbol (re)creates both adapters;
    [None] when the candidate's constructor throws. *)
Definition create (s : t) (message : list Z) (size : Z) : option t :=
  if (byte_at message 0 =? chr "R") && (size =? 39) &&
     bool_decide (trimmed_symbol (message +! 11) = symbol)
  then
    let located := read_u16 (message +! 1) in
    candidate ← NasdaqItchUftAdapter.make 1 located order_capacity match_capacity;
    Some (s <| locator := located |>
            <| adapters := Some (PsxWtsAdapter.make trading_date located symbol, candidate) |>)
  else Some s.

(** One call of the scanner's callback. *)
Definition visit (s : t) (delivered : list Z * Z) : option t :=
  let '(message, size) := delivered in
  s ← create s message size;
  match adapters s with
  | Some (reference, candidate) =>
      if (11 <=? size) && (read_u16 (message +! 1) =? locator s) then
        let '(reference, calls) := PsxWtsAdapter.on_message reference message size in
        let expected := fold_left Comparison.observe calls (comparison s) in
        let '(candidate, (engine, compared)) :=
          NasdaqItchUftAdapter.on_message candidate (Some message) size (engine s, expected) in
        Some (mk (Comparison.finish_message compared) engine (Some (reference, candidate)) (locator s)
          (incr (target_messages s)))
      else Some s
  | None => Some s
  end.

Fixpoint visit_all (s : t) (delivered : list (list Z * Z)) : option t :=
  match delivered with
  | [] => Some s
  | d :: delivered' => s ← visit s d; visit_all s delivered'
  end.

Definition counts_equal (o : WtsAdapterStats.t) (n : UftAdapterStats.t) : bool :=
  (WtsAdapterStats.order_details o =? UftAdapterStats.order_details n) &&
  (WtsAdapterStats.transactions o =? UftAdapterStats.transactions n) &&
  (WtsAdapterStats.matches o =? UftAdapterStats.matches n) &&
  (WtsAdapterStats.cancels o =? UftAdapterStats.cancels n) &&
  (WtsAdapterStats.trade_busts o =? UftAdapterStats.trade_busts n) &&
  (WtsAdapterStats.duplicate_matches_suppressed o =? UftAdapterStats.duplicate_matches_suppressed n) &&
  (WtsAdapterStats.non_printable_suppressed o =? UftAdapterStats.non_printable_suppressed n) &&
  (WtsAdapterStats.broken_trades_without_output o =? UftAdapterStats.broken_trades_without_output n) &&
  (WtsAdapterStats.unknown_broken_trades o =? UftAdapterStats.unknown_broken_trades n) &&
  (WtsAdapterStats.errors o =? UftAdapterStats.malformed_or_missing_orders n).

(** The exit code once the file has been replayed. *)
Definition verdict (s : t) (reference : PsxWtsAdapter.t) (candidate : NasdaqItchUftAdapter.t) : Z :=
  let new_stats := NasdaqItchUftAdapter.stats candidate in
  if counts_equal (PsxWtsAdapter.stats reference) new_stats &&
     (Comparison.mismatches (comparison s) =? 0) && (Comparison.ordering_errors (comparison s) =? 0) &&
     (UftAdapterStats.capacity_exhaustions new_stats =? 0) &&
     (NasdaqItchUftAdapter.active_orders candidate =? 0)
  then 0 else 3.

(** The exit code of the program; an exception makes it 1.  [None]: the fuel of
    the scan ran out. *)
Definition run {F} `{PosixFile F} (fuel : nat) (opened : option F) : option Z :=
  match setup with
  | None => Some 1
  | Some engine =>
      '(delivered, ending) ← scan_historical_file fuel opened;
      Some match visit_all (mk Comparison.make engine None 0 0) delivered, ending with
           | Some s, inl _ =>
               match adapters s with
               | Some (reference, candidate) => verdict s reference candidate
               | None => 1
               end
           | _, _ => 1
           end
  end.
End run.
End DifferentialReplay.
