(* ===== verification/ReplayFacts.v ===== *)
(** * Two adapters side by side

    The relation the differential replay keeps between the reference and the
    candidate, message by message. *)

From Stdlib Require Import Ascii.
From S2P Require Import Prelude OpenAddressing FixedHashTable Itch50 Binary64 WtsTypes WtsAdapter.
From S2P Require Import UftTypes UftAdapter UftAdapterFacts Recorder Engine HistoricalFile Replay.
Import itch50.
Import (hints) WtsAdapterStats WtsOrder UftAdapterStats Comparison DifferentialReplay.

(** ** The comparison *)

(** Nothing has gone wrong and these events are expected. *)
Record awaits (c : Comparison.t) (o : option WTSOrdDtlStruct.t) (tr : option WTSTransStruct.t) : Prop := {
  awaits_mismatches : Comparison.mismatches c = 0;
  awaits_ordering : Comparison.ordering_errors c = 0;
  awaits_order : match o with
    | Some e => Comparison.have_order c = true /\ Comparison.expected_order c = e
    | None => Comparison.have_order c = false end;
  awaits_transaction : match tr with
    | Some e => Comparison.have_transaction c = true /\ Comparison.expected_transaction c = e
    | None => Comparison.have_transaction c = false end
}.

Lemma observe_order c tr e : awaits c None tr -> awaits (Comparison.on_order_detail c e) (Some e) tr.
Proof. intros []. unfold Comparison.on_order_detail. rewrite awaits_order0. by constructor. Qed.

Lemma observe_transaction c o e : awaits c o None -> awaits (Comparison.on_transaction c e) o (Some e).
Proof. intros []. unfold Comparison.on_transaction. rewrite awaits_transaction0. by constructor. Qed.

Lemma compare_order_ok c e tr event :
  awaits c (Some e) tr -> Comparison.order_differs e event = false ->
  awaits (Comparison.compare_order c event) None tr.
Proof.
  intros [Hm Ho [Hh He] Ht] Hd. unfold Comparison.compare_order. updates. cbn. rewrite Hh. cbn.
  rewrite He, Hd. by constructor.
Qed.

Lemma compare_transaction_ok c e o event :
  awaits c o (Some e) -> Comparison.transaction_differs e event = false ->
  awaits (Comparison.compare_transaction c event) o None.
Proof.
  intros [Hm Ho Hor [Hh He]] Hd. unfold Comparison.compare_transaction. updates. cbn. rewrite Hh. cbn.
  rewrite He, Hd. by constructor.
Qed.

Lemma comparison_finish_ok c : awaits c None None -> awaits (Comparison.finish_message c) None None.
Proof. intros [? ? Ho Ht]. unfold Comparison.finish_message. rewrite Ho, Ht. by constructor. Qed.

(** ** The engine *)

Definition ready : UftMarketDataEngine.t :=
  match DifferentialReplay.setup with Some e => e | None => UftMarketDataEngine.make 2 2 end.

Lemma setup_ready : DifferentialReplay.setup = Some ready.
Proof. by vm_compute. Qed.

Lemma ready_order e :
  UftOrderDetail.instrument_id e = 1 ->
  UftMarketDataEngine.publish_order_detail 2 ready e = ([OrderDetailTo 1 e], 1).
Proof. destruct e. cbn. intros ->. by vm_compute. Qed.

Lemma ready_transaction e :
  UftTransaction.instrument_id e = 1 ->
  UftMarketDataEngine.publish_transaction 2 ready e = ([TransactionTo 1 e], 1).
Proof. destruct e. cbn. intros ->. by vm_compute. Qed.

(** ** The counters both keep *)

Definition reference_counts (s : WtsAdapterStats.t) : list Z := [
  WtsAdapterStats.order_details s; WtsAdapterStats.transactions s; WtsAdapterStats.matches s;
  WtsAdapterStats.cancels s; WtsAdapterStats.trade_busts s;
  WtsAdapterStats.duplicate_matches_suppressed s; WtsAdapterStats.non_printable_suppressed s;
  WtsAdapterStats.broken_trades_without_output s; WtsAdapterStats.unknown_broken_trades s;
  WtsAdapterStats.errors s].

Definition candidate_counts (s : UftAdapterStats.t) : list Z := [
  UftAdapterStats.order_details s; UftAdapterStats.transactions s; UftAdapterStats.matches s;
  UftAdapterStats.cancels s; UftAdapterStats.trade_busts s;
  UftAdapterStats.duplicate_matches_suppressed s; UftAdapterStats.non_printable_suppressed s;
  UftAdapterStats.broken_trades_without_output s; UftAdapterStats.unknown_broken_trades s;
  UftAdapterStats.malformed_or_missing_orders s].

Lemma counts_equal_lists o n :
  reference_counts o = candidate_counts n -> DifferentialReplay.counts_equal o n = true.
Proof. intros [= ? ? ? ? ? ? ? ? ? ?]. unfold DifferentialReplay.counts_equal. rewrite !andb_true_iff, !Z.eqb_eq. by split_and!. Qed.

(** [++] of the counters at these positions. *)
Definition bump (ks : list nat) (l : list Z) : list Z := fold_left (fun l i => alter incr i l) ks l.

(** Only counters change, these by one. *)
Definition reference_counted (ks : list nat) (r r' : PsxWtsAdapter.t) : Prop :=
  exists s, r' = (r <| PsxWtsAdapter.stats_ := s |>) /\
    reference_counts s = bump ks (reference_counts (PsxWtsAdapter.stats_ r)) /\
    WtsAdapterStats.peak_active_orders s = WtsAdapterStats.peak_active_orders (PsxWtsAdapter.stats_ r).

Record candidate_counted (ks : list nat) (b b' : NasdaqItchUftAdapter.t) : Prop := {
  counted_tables : same_tables b b';
  counted_counts : candidate_counts (NasdaqItchUftAdapter.stats_ b') =
    bump ks (candidate_counts (NasdaqItchUftAdapter.stats_ b));
  counted_capacity : UftAdapterStats.capacity_exhaustions (NasdaqItchUftAdapter.stats_ b') =
    UftAdapterStats.capacity_exhaustions (NasdaqItchUftAdapter.stats_ b);
  counted_peak : UftAdapterStats.peak_active_orders (NasdaqItchUftAdapter.stats_ b') =
    UftAdapterStats.peak_active_orders (NasdaqItchUftAdapter.stats_ b)
}.

Lemma reference_error r : reference_counted [9%nat] r (PsxWtsAdapter.error r).
Proof. eexists. split; [reflexivity|done]. Qed.

Lemma candidate_malformed b : candidate_counted [9%nat] b (NasdaqItchUftAdapter.malformed b).
Proof. constructor; [apply malformed_tables|done..]. Qed.

(** ** The relation *)

Definition uft_order (o : WtsOrder.t) : Order.t :=
  Order.mk (WtsOrder.price o) (WtsOrder.remaining o) (uft_side (WtsOrder.side o)).

Definition uft_match (m : WtsMatch.t) : Match.t :=
  Match.mk (WtsMatch.price m) (WtsMatch.volume m) (WtsMatch.order_id m) (uft_side (WtsMatch.side m))
    (WtsMatch.emitted m).

Record order_ok (id : Z) (o : WtsOrder.t) : Prop := {
  ok_id : 0 < id <= i64_max;
  ok_price : 0 < WtsOrder.price o < 2 ^ 32;
  ok_remaining : 0 < WtsOrder.remaining o < 2 ^ 32;
  ok_side : WtsOrder.side o = BDT_Buy \/ WtsOrder.side o = BDT_Sell
}.

Record match_ok (n : Z) (m : WtsMatch.t) : Prop := {
  ok_number : 0 < n <= i64_max;
  ok_match_price : 0 < WtsMatch.price m < 2 ^ 32;
  ok_volume : 0 < WtsMatch.volume m < 2 ^ 32;
  ok_order_id : 0 <= WtsMatch.order_id m <= i64_max
}.

Definition matches_view (b : NasdaqItchUftAdapter.t) : gmap Z Match.t :=
  FixedHashTable.view (NasdaqItchUftAdapter.matches_ b).

(** A table has room for that many more keys. *)
Definition has_room {V} `{Inhabited V} (room : Z) (tab : FixedHashTable.t V) : Prop :=
  FixedHashTable.size tab + room <= FixedHashTable.maximum_entries_ tab.

Record agrees (room : Z) (r : PsxWtsAdapter.t) (b : NasdaqItchUftAdapter.t) : Prop := {
  agrees_orders : orders_view b = uft_order <$> PsxWtsAdapter.orders_ r;
  agrees_matches : matches_view b = uft_match <$> PsxWtsAdapter.matches_ r;
  agrees_sequence : NasdaqItchUftAdapter.source_sequence_ b = PsxWtsAdapter.event_sequence_ r;
  agrees_sequence_range : 0 <= PsxWtsAdapter.event_sequence_ r < 2 ^ 64;
  agrees_locator : NasdaqItchUftAdapter.locator_ b = PsxWtsAdapter.locator_ r;
  agrees_wf : adapter_wf b;
  agrees_orders_ok : map_Forall order_ok (PsxWtsAdapter.orders_ r);
  agrees_matches_ok : map_Forall match_ok (PsxWtsAdapter.matches_ r);
  agrees_order_room : has_room room (NasdaqItchUftAdapter.orders_ b);
  agrees_match_room : has_room room (NasdaqItchUftAdapter.matches_ b);
  agrees_counts : reference_counts (PsxWtsAdapter.stats_ r) =
    candidate_counts (NasdaqItchUftAdapter.stats_ b);
  agrees_peak : WtsAdapterStats.peak_active_orders (PsxWtsAdapter.stats_ r) =
    UftAdapterStats.peak_active_orders (NasdaqItchUftAdapter.stats_ b);
  agrees_capacity : UftAdapterStats.capacity_exhaustions (NasdaqItchUftAdapter.stats_ b) = 0
}.

Lemma agrees_less room room' r b : room' <= room -> agrees room r b -> agrees room' r b.
Proof. intros Hle []. constructor; try done; unfold has_room in *; lia. Qed.

Lemma agrees_counted room ks r r' b b' :
  agrees room r b -> reference_counted ks r r' -> candidate_counted ks b b' -> agrees room r' b'.
Proof.
  intros [] (s & -> & Hs & Hpeak) [Ht Hc Hcap Hpeak']. pose proof Ht as (Hi & Hl & Hq & Ho & Hm).
  constructor; cbn; try done; unfold orders_view, matches_view in *; rewrite ?Hi, ?Hl, ?Hq, ?Ho, ?Hm; try done.
  - by eapply adapter_wf_tables.
  - by rewrite Hs, Hc, agrees_counts0.
  - by rewrite Hpeak, Hpeak', agrees_peak0.
  - by rewrite Hcap.
Qed.

(** Both count the same orders. *)
Lemma agrees_active room r b :
  agrees room r b ->
  PsxWtsAdapter.active_orders r = NasdaqItchUftAdapter.active_orders b /\
  0 <= NasdaqItchUftAdapter.active_orders b <= 2 ^ 62.
Proof.
  intros Ha. unfold NasdaqItchUftAdapter.active_orders, PsxWtsAdapter.active_orders, FixedHashTable.size.
  pose proof (adapter_orders _ (agrees_wf _ _ _ Ha)) as Hwf. pose proof (FixedHashTable.wf_bound _ Hwf).
  destruct (FixedHashTable.wf_capacity _ Hwf) as (e & He & Hcap & _).
  pose proof (FixedHashTable.wf_maximum _ Hwf) as [_ Hmax]. rewrite Hcap in Hmax.
  assert (2 ^ e <= 2 ^ 63) by (apply Z.pow_le_mono_r; lia).
  rewrite (FixedHashTable.wf_size _ Hwf) in *. split; [|lia].
  change (FixedHashTable.view (NasdaqItchUftAdapter.orders_ b)) with (orders_view b).
  by rewrite (agrees_orders _ _ _ Ha), map_size_fmap.
Qed.

(** ** Publications *)

Definition order_output (r : PsxWtsAdapter.t) (message : list Z) (id : Z) (o : WtsOrder.t) : WTSOrdDtlStruct.t :=
  WTSOrdDtlStruct.mk PsxWtsAdapter.exchange (PsxWtsAdapter.code r) (PsxWtsAdapter.trading_date_ r)
    (PsxWtsAdapter.trading_date_ r) (PsxWtsAdapter.action_time (read_u48 (message +! 5))) id
    (Double.of_ticks (WtsOrder.price o)) (WtsOrder.remaining o) (WtsOrder.side o) ODT_LimitPrice.

Definition transaction_output (r : PsxWtsAdapter.t) (message : list Z) (index type side price volume id : Z) :
    WTSTransStruct.t :=
  WTSTransStruct.mk PsxWtsAdapter.exchange (PsxWtsAdapter.code r) (PsxWtsAdapter.trading_date_ r)
    (PsxWtsAdapter.trading_date_ r) (PsxWtsAdapter.action_time (read_u48 (message +! 5))) index type side
    (Double.of_ticks price) volume (if side =? BDT_Sell then i64_of_u64 id else 0)
    (if side =? BDT_Buy then i64_of_u64 id else 0).

Lemma reference_emit_order r message id o :
  exists r', PsxWtsAdapter.emit_order r message id o = (r', [on_order_detail (order_output r message id o)]) /\
    reference_counted [0%nat] r r'.
Proof. eexists. split; [reflexivity|]. eexists. split; [reflexivity|done]. Qed.

(** The counter of a transaction's type. *)
Definition type_counter (type : Z) : nat :=
  if type =? TT_Cancel then 3%nat else if type =? TT_Match then 2%nat else 4%nat.

Definition known_type (type : Z) : Prop := type = TT_Match \/ type = TT_Cancel \/ type = kWtsTradeBust.

Lemma reference_emit_transaction r message i ty s p v id :
  v <> 0 -> id <= i64_max -> known_type ty ->
  exists r', PsxWtsAdapter.emit_transaction r message i ty s p v id =
      (r', [on_transaction (transaction_output r message i ty s p v id)]) /\
    reference_counted [1%nat; type_counter ty] r r'.
Proof.
  intros Hv%Z.eqb_neq Hid%Z.ltb_ge Hty. unfold PsxWtsAdapter.emit_transaction. rewrite Hv, Hid. cbn [orb].
  destruct Hty as [->|[->| ->]]; (eexists; split; [reflexivity|]; eexists; split; [reflexivity|done]).
Qed.

Definition order_event (b : NasdaqItchUftAdapter.t) (message : list Z) (id : Z) (o : Order.t) : UftOrderDetail.t :=
  UftOrderDetail.mk (NasdaqItchUftAdapter.source_sequence_ b) (read_u48 (message +! 5)) id
    (Order.price_ticks o) (Order.remaining o) (NasdaqItchUftAdapter.instrument_id_ b) (Order.side o)
    UftOrderType.Limit.

Definition transaction_event (b : NasdaqItchUftAdapter.t) (message : list Z) (n : Z)
    (ty : UftTransactionType.t) (s : UftSide.t) (p q id : Z) : UftTransaction.t :=
  UftTransaction.mk (NasdaqItchUftAdapter.source_sequence_ b) (read_u48 (message +! 5)) n
    (if decide (s = UftSide.Sell) then id else 0) (if decide (s = UftSide.Buy) then id else 0)
    p q (NasdaqItchUftAdapter.instrument_id_ b) s ty.

Lemma candidate_emit_order b message id o :
  exists b', (forall past, NasdaqItchUftAdapter.emit_order b (mkRecorder past) message id o =
      (b', mkRecorder (past ++ [OrderPublished (order_event b message id o)]))) /\
    candidate_counted [0%nat] b b'.
Proof.
  unfold NasdaqItchUftAdapter.emit_order. cbn [publish_order_detail recorder_engine Z.eqb].
  eexists. split; [intros past; reflexivity|]. constructor; [by split_and!|done..].
Qed.

Lemma candidate_emit_book b (e : Recorder) message act id nid mid p q s pr :
  NasdaqItchUftAdapter.emit_book b e message act id nid mid p q s pr = (b, e).
Proof. done. Qed.

Lemma candidate_emit_transaction b message n ty s p q id :
  q <> 0 -> known_type ty ->
  exists b', (forall past, NasdaqItchUftAdapter.emit_transaction b (mkRecorder past) message n
        (Comparison.expected_type ty) s p q id =
      (b', mkRecorder (past ++
        [TransactionPublished (transaction_event b message n (Comparison.expected_type ty) s p q id)]))) /\
    candidate_counted [1%nat; type_counter ty] b b'.
Proof.
  intros Hq%Z.eqb_neq Hty. unfold NasdaqItchUftAdapter.emit_transaction. rewrite Hq.
  cbn [publish_transaction recorder_engine Z.eqb].
  destruct Hty as [->|[->| ->]];
    (eexists; split; [intros past; reflexivity|]; constructor; [by split_and!|done..]).
Qed.

(** ** The events agree *)

Lemma u64_of_i64 n : 0 <= n < 2 ^ 64 -> u64 (i64_of_u64 n) = n.
Proof. intros. unfold i64_of_u64, wrap. split_if; dlia. Qed.

Lemma same_action_time t : action_time t = PsxWtsAdapter.action_time t.
Proof. reflexivity. Qed.

(** The same event, as either adapter publishes it. *)
Inductive corresponds : WtsCall -> Published -> Prop :=
  | orders_correspond e event :
      WTSOrdDtlStruct.otype e = ODT_LimitPrice -> Comparison.order_differs e event = false ->
      corresponds (on_order_detail e) (OrderPublished event)
  | transactions_correspond e event :
      known_type (WTSTransStruct.ttype e) -> Comparison.transaction_differs e event = false ->
      corresponds (on_transaction e) (TransactionPublished event).

Lemma order_events_agree r b message id o :
  order_ok id o ->
  Comparison.order_differs (order_output r message id o) (order_event b message id (uft_order o)) = false.
Proof.
  intros [Hid Hp Hq Hs]. unfold Comparison.order_differs, order_output, order_event. cbn.
  rewrite same_action_time, Double.ticks_round_trip by lia. by rewrite !Z.eqb_refl, bool_decide_true.
Qed.

Lemma transaction_events_agree r b message n ty s p v id :
  0 <= n < 2 ^ 64 -> 0 <= p < 2 ^ 32 -> 0 <= id <= i64_max ->
  Comparison.transaction_differs (transaction_output r message (i64_of_u64 n) ty s p v id)
    (transaction_event b message n (Comparison.expected_type ty) (uft_side s) p v id) = false.
Proof.
  intros Hn Hp Hid. unfold Comparison.transaction_differs, transaction_output, transaction_event. cbn.
  rewrite same_action_time, Double.ticks_round_trip, u64_of_i64, !bool_decide_true by done. rewrite !Z.eqb_refl.
  assert (i64_of_u64 id = id) as -> by (unfold i64_of_u64; split_if; lia).
  unfold uft_side. change BDT_Sell with 83. change BDT_Buy with 66.
  destruct (Z.eqb_spec s 66) as [->|]; [|destruct (Z.eqb_spec s 83) as [->|]];
    cbn; rewrite !wrap_small by lia; repeat case_decide; try done; by rewrite !Z.eqb_refl.
Qed.

(** A message makes at most one call of each kind, the order last. *)
Definition brief (calls : list WtsCall) : Prop :=
  match calls with
  | [] => True
  | first :: rest =>
      match rest with
      | [] => True
      | [second] =>
          match first, second with on_transaction _, on_order_detail _ => True | _, _ => False end
      | _ => False
      end
  end.

Definition compare (c : Comparison.t) (p : Published) : Comparison.t :=
  match p with
  | OrderPublished event => Comparison.compare_order c event
  | TransactionPublished event => Comparison.compare_transaction c event
  end.

(** The comparison finds events that correspond the same. *)
Lemma comparison_passes c calls events :
  awaits c None None -> Forall2 corresponds calls events -> brief calls ->
  awaits (fold_left compare events (fold_left Comparison.observe calls c)) None None.
Proof.
  intros Hc Hf Hb.
  destruct Hf as [|? ? ? ? [e x _ Hx|e x _ Hx] Hf]; [done|..];
    destruct Hf as [|? ? ? ? [e' x' _ Hx'|e' x' _ Hx'] Hf]; cbn [fold_left Comparison.observe compare];
    [by eapply compare_order_ok; [apply observe_order|]| | |
     by eapply compare_transaction_ok; [apply observe_transaction|]| |];
    destruct Hf; try done. cbn [fold_left].
  eapply compare_order_ok; [|done]. by eapply compare_transaction_ok; [apply observe_order, observe_transaction|].
Qed.

(** What the candidate publishes on the tool's engine is compared at once. *)
Lemma candidate_compares b m size c :
  sound 1 b ->
  let '(b', published) := NasdaqItchUftAdapter.on_message b m size (mkRecorder []) in
  NasdaqItchUftAdapter.on_message b m size (ready, c) = (b', (ready, fold_left compare (recorded published) c)) /\
  sound 1 b'.
Proof.
  intros Hb.
  set (R := fun (s1 : UftMarketDataEngine.t * Comparison.t) (s2 : Recorder) =>
    s1 = (ready, fold_left compare (recorded s2) c)).
  assert (agree R 1 (NasdaqItchUftAdapter.on_message b m size (ready, c))
    (NasdaqItchUftAdapter.on_message b m size (mkRecorder []))) as H.
  { apply agree_message; try done; intros e1 e2 event -> Hi;
      cbn [publish_order_detail publish_transaction DifferentialReplay.compared_engine recorder_engine].
    - rewrite ready_order by done. eexists _, _. split_and!; [done|done|]. unfold R. cbn [recorded].
      by rewrite fold_left_app.
    - rewrite ready_transaction by done. eexists _, _. split_and!; [done|done|]. unfold R. cbn [recorded].
      by rewrite fold_left_app. }
  destruct (NasdaqItchUftAdapter.on_message b m size (ready, c)) as [b1 e1].
  destruct (NasdaqItchUftAdapter.on_message b m size (mkRecorder [])) as [b2 e2].
  destruct H as (Hb12 & He & Hs). cbn [fst snd] in *. unfold R in He. by subst.
Qed.

(** ** Changes of the tables *)

Section tables.
Context (room : Z) (r : PsxWtsAdapter.t) (b : NasdaqItchUftAdapter.t).
Hypothesis Hagrees : agrees room r b.

Lemma agreed_order id : orders_view b !! id = uft_order <$> PsxWtsAdapter.orders_ r !! id.
Proof. by rewrite (agrees_orders _ _ _ Hagrees), lookup_fmap. Qed.

Lemma agreed_match n : matches_view b !! n = uft_match <$> PsxWtsAdapter.matches_ r !! n.
Proof. by rewrite (agrees_matches _ _ _ Hagrees), lookup_fmap. Qed.

Lemma find_agreed_order id :
  FixedHashTable.find (NasdaqItchUftAdapter.orders_ b) id = uft_order <$> PsxWtsAdapter.orders_ r !! id.
Proof. rewrite find_order by apply Hagrees. apply agreed_order. Qed.

Lemma find_agreed_match n :
  FixedHashTable.find (NasdaqItchUftAdapter.matches_ b) n = uft_match <$> PsxWtsAdapter.matches_ r !! n.
Proof. rewrite FixedHashTable.table_find_spec by apply Hagrees. apply agreed_match. Qed.

Lemma uft_order_wf id o : order_ok id o -> order_wf (uft_order o).
Proof.
  intros [? ? ? Hs]. constructor; cbn; [|done|done].
  destruct Hs as [Hs|Hs]; rewrite Hs; done.
Qed.

(** What an insertion reports when there is room. *)
Lemma insert_with_room {V} `{Inhabited V} (tab tab' : FixedHashTable.t V) k v res :
  FixedHashTable.wf tab -> has_room room tab -> 0 < room -> FixedHashTable.insert tab k v = (tab', res) ->
  FixedHashTable.wf tab' /\ has_room (room - 1) tab' /\
  res = (if decide (k = 0) then FixedHashTable.InvalidKey
         else if decide (is_Some (FixedHashTable.view tab !! k)) then FixedHashTable.Duplicate else FixedHashTable.Inserted) /\
  FixedHashTable.view tab' =
    (if decide (res = FixedHashTable.Inserted) then <[k := v]> (FixedHashTable.view tab) else FixedHashTable.view tab).
Proof.
  intros Hwf Hroom Hpos Hi. unfold has_room, FixedHashTable.size in *.
  destruct (FixedHashTable.table_insert_wf_view _ _ _ _ _ Hwf Hi) as (Hwf' & Hmax & Hres & Hv).
  rewrite (FixedHashTable.wf_size _ Hwf) in Hroom.
  assert (res = if decide (k = 0) then FixedHashTable.InvalidKey
    else if decide (is_Some (FixedHashTable.view tab !! k)) then FixedHashTable.Duplicate else FixedHashTable.Inserted) as Hres'.
  { rewrite Hres. unfold FixedHashTable.insert_result. repeat case_decide; done || lia. }
  split_and!; [done| |done|done].
  rewrite (FixedHashTable.wf_size _ Hwf'), Hmax, Hv. destruct (decide (res = FixedHashTable.Inserted)); [|lia].
  rewrite map_size_insert. destruct (FixedHashTable.view tab !! k) eqn:E; cbn; lia.
Qed.

Lemma insert_order_agrees id o tab res :
  0 < room -> order_ok id o ->
  FixedHashTable.insert (NasdaqItchUftAdapter.orders_ b) id (uft_order o) = (tab, res) ->
  (res = FixedHashTable.Inserted /\ PsxWtsAdapter.orders_ r !! id = None /\
   agrees (room - 1) (r <| PsxWtsAdapter.orders_ := <[id := o]> (PsxWtsAdapter.orders_ r) |>)
     (b <| NasdaqItchUftAdapter.orders_ := tab |>)) \/
  (res = FixedHashTable.Duplicate /\ is_Some (PsxWtsAdapter.orders_ r !! id) /\
   agrees (room - 1) r (b <| NasdaqItchUftAdapter.orders_ := tab |>)).
Proof.
  intros Hpos Hok Hi. pose proof (uft_order_wf _ _ Hok) as Howf.
  destruct (insert_with_room _ _ _ _ _ (adapter_orders _ (agrees_wf _ _ _ Hagrees))
    (agrees_order_room _ _ _ Hagrees) Hpos Hi) as (Hwf & Hroom & Hres & Hv).
  destruct (insert_order_wf _ _ _ _ _ (agrees_wf _ _ _ Hagrees) Howf Hi) as (Hwf' & _ & _).
  change (FixedHashTable.view (NasdaqItchUftAdapter.orders_ b)) with (orders_view b) in Hres, Hv.
  rewrite agreed_order in Hres. destruct Hok as [Hid Hp Hr Hs].
  rewrite decide_False in Hres by lia. destruct Hagrees.
  destruct (PsxWtsAdapter.orders_ r !! id) as [o0|] eqn:E; cbn [fmap option_fmap option_map] in Hres.
  - right. rewrite decide_True in Hres by by eexists. subst res. split_and!; [done|by eexists|].
    constructor; cbn; try done; [|unfold has_room in *; lia]. unfold orders_view in *. cbn. by rewrite Hv.
  - left. rewrite decide_False in Hres by by intros [? ?]. subst res. split_and!; [done|done|].
    constructor; cbn; try done; [|by apply map_Forall_insert_2|unfold has_room in *; lia].
    unfold orders_view in *. cbn. rewrite Hv, fmap_insert. by f_equal.
Qed.

Lemma insert_match_agrees n m tab res :
  0 < room -> match_ok n m ->
  FixedHashTable.insert (NasdaqItchUftAdapter.matches_ b) n (uft_match m) = (tab, res) ->
  (res = FixedHashTable.Inserted /\ PsxWtsAdapter.matches_ r !! n = None /\
   agrees (room - 1) (r <| PsxWtsAdapter.matches_ := <[n := m]> (PsxWtsAdapter.matches_ r) |>)
     (b <| NasdaqItchUftAdapter.matches_ := tab |>)) \/
  (res = FixedHashTable.Duplicate /\ is_Some (PsxWtsAdapter.matches_ r !! n) /\
   agrees (room - 1) r (b <| NasdaqItchUftAdapter.matches_ := tab |>)).
Proof.
  intros Hpos Hok Hi.
  destruct (insert_with_room _ _ _ _ _ (adapter_matches _ (agrees_wf _ _ _ Hagrees))
    (agrees_match_room _ _ _ Hagrees) Hpos Hi) as (Hwf & Hroom & Hres & Hv).
  assert (0 <= Match.quantity (uft_match m)) as Hq0 by (destruct Hok; change (0 <= WtsMatch.volume m); lia).
  pose proof (insert_match_wf _ _ _ _ _ (agrees_wf _ _ _ Hagrees) Hq0 Hi) as Hwf'.
  change (FixedHashTable.view (NasdaqItchUftAdapter.matches_ b)) with (matches_view b) in Hres, Hv.
  rewrite agreed_match in Hres. destruct Hok as [Hn Hp Hq Hid].
  rewrite decide_False in Hres by lia. destruct Hagrees.
  destruct (PsxWtsAdapter.matches_ r !! n) as [m0|] eqn:E; cbn [fmap option_fmap option_map] in Hres.
  - right. rewrite decide_True in Hres by by eexists. subst res. split_and!; [done|by eexists|].
    constructor; cbn; try done; [|unfold has_room in *; lia]. unfold matches_view in *. cbn. by rewrite Hv.
  - left. rewrite decide_False in Hres by by intros [? ?]. subst res. split_and!; [done|done|].
    constructor; cbn; try done; [|by apply map_Forall_insert_2|unfold has_room in *; lia].
    unfold matches_view in *. cbn. rewrite Hv, fmap_insert. by f_equal.
Qed.

Lemma erase_room {V} `{Inhabited V} (tab : FixedHashTable.t V) k :
  FixedHashTable.wf tab -> has_room room tab -> has_room room (FixedHashTable.erase tab k).1.
Proof.
  intros Hwf Hroom. destruct (FixedHashTable.erase tab k) as [tab' ok] eqn:He. cbn.
  destruct (FixedHashTable.table_erase_wf_view _ _ _ _ Hwf He) as (Hwf' & Hmax & _ & Hv).
  unfold has_room, FixedHashTable.size in *. rewrite Hmax, (FixedHashTable.wf_size _ Hwf'), Hv.
  rewrite (FixedHashTable.wf_size _ Hwf) in Hroom. rewrite map_size_delete. case_match; cbn; lia.
Qed.

Lemma erase_order_agrees id :
  agrees room (r <| PsxWtsAdapter.orders_ ::= delete id |>)
    (b <| NasdaqItchUftAdapter.orders_ ::= fun tab => (FixedHashTable.erase tab id).1 |>).
Proof.
  destruct (erase_order_wf b id (agrees_wf _ _ _ Hagrees)) as [Hwf Hv].
  pose proof (erase_room _ id (adapter_orders _ (agrees_wf _ _ _ Hagrees)) (agrees_order_room _ _ _ Hagrees)).
  destruct Hagrees. constructor; cbn; try done; [|by apply map_Forall_delete].
  revert Hv. unfold orders_view in *. updates. cbn. intros ->. by rewrite agrees_orders0, fmap_delete.
Qed.

Lemma erase_match_agrees n :
  agrees room (r <| PsxWtsAdapter.matches_ ::= delete n |>)
    (b <| NasdaqItchUftAdapter.matches_ ::= fun tab => (FixedHashTable.erase tab n).1 |>).
Proof.
  pose proof (erase_match_wf b n (agrees_wf _ _ _ Hagrees)) as Hwf.
  pose proof (erase_room _ n (adapter_matches _ (agrees_wf _ _ _ Hagrees)) (agrees_match_room _ _ _ Hagrees)).
  destruct (FixedHashTable.erase (NasdaqItchUftAdapter.matches_ b) n) as [tab ok] eqn:He.
  destruct (FixedHashTable.table_erase_wf_view _ _ _ _ (adapter_matches _ (agrees_wf _ _ _ Hagrees)) He)
    as (_ & _ & _ & Hv).
  destruct Hagrees. constructor; cbn; try done; [|by apply map_Forall_delete|by rewrite He].
  unfold matches_view in *.
  match goal with |- ?x = _ => change x with
    (FixedHashTable.view (FixedHashTable.erase (NasdaqItchUftAdapter.matches_ b) n).1) end.
  rewrite He. cbn [fst]. by rewrite Hv, agrees_matches0, fmap_delete.
Qed.

Lemma take_shares_orders id o q :
  PsxWtsAdapter.orders_ r !! id = Some o -> 0 < q <= WtsOrder.remaining o ->
  PsxWtsAdapter.orders_ (PsxWtsAdapter.take_shares r id o q) =
    if decide (WtsOrder.remaining o = q) then delete id (PsxWtsAdapter.orders_ r)
    else <[id := o <| WtsOrder.remaining := WtsOrder.remaining o - q |>]> (PsxWtsAdapter.orders_ r).
Proof.
  intros Ho Hq. pose proof (ok_remaining _ _ (agrees_orders_ok _ _ _ Hagrees _ _ Ho)) as Hr. cbn in Hr.
  unfold PsxWtsAdapter.take_shares. rewrite wrap_small by lia.
  destruct (Z.eqb_spec (WtsOrder.remaining o - q) 0) as [Hz|Hz]; updates; cbn.
  - rewrite decide_True by lia. by rewrite delete_insert_eq.
  - by rewrite decide_False by lia.
Qed.

Lemma take_room id q :
  FixedHashTable.maximum_entries_ (NasdaqItchUftAdapter.orders_ (NasdaqItchUftAdapter.take b id q)) =
    FixedHashTable.maximum_entries_ (NasdaqItchUftAdapter.orders_ b).
Proof.
  unfold NasdaqItchUftAdapter.take. case_match; [|done].
  assert (forall o, FixedHashTable.maximum_entries_ (FixedHashTable.assign (NasdaqItchUftAdapter.orders_ b) id o) =
    FixedHashTable.maximum_entries_ (NasdaqItchUftAdapter.orders_ b)) as Ha.
  { intros. unfold FixedHashTable.assign. by case_match. }
  case_match; updates; cbn; [|done]. unfold FixedHashTable.erase. case_match; cbn; by rewrite Ha.
Qed.

Lemma take_agrees id o q :
  PsxWtsAdapter.orders_ r !! id = Some o -> 0 < q <= WtsOrder.remaining o ->
  agrees room (PsxWtsAdapter.take_shares r id o q) (NasdaqItchUftAdapter.take b id q).
Proof.
  intros Ho Hq. pose proof (agrees_orders_ok _ _ _ Hagrees _ _ Ho) as Hok. cbn in Hok.
  assert (orders_view b !! id = Some (uft_order o)) as Hv by (by rewrite agreed_order, Ho).
  destruct (take_spec b id q _ (agrees_wf _ _ _ Hagrees) Hv Hq) as [Hwf Htake].
  destruct (take_others b id q) as (Hi & Hl & Hseq & Hm).
  pose proof (take_room id q) as Hmax. pose proof (take_shares_orders id o q Ho Hq) as Hor.
  assert (NasdaqItchUftAdapter.stats_ (NasdaqItchUftAdapter.take b id q) = NasdaqItchUftAdapter.stats_ b) as Hst.
  { unfold NasdaqItchUftAdapter.take. destruct (FixedHashTable.find _ _); [|done]. by destruct (_ =? 0). }
  set (r' := PsxWtsAdapter.take_shares r id o q) in *. set (b' := NasdaqItchUftAdapter.take b id q) in *.
  assert (PsxWtsAdapter.matches_ r' = PsxWtsAdapter.matches_ r /\
    PsxWtsAdapter.event_sequence_ r' = PsxWtsAdapter.event_sequence_ r /\
    PsxWtsAdapter.locator_ r' = PsxWtsAdapter.locator_ r /\ PsxWtsAdapter.stats_ r' = PsxWtsAdapter.stats_ r)
    as (Hm' & Hs' & Hl' & Hst').
  { unfold r', PsxWtsAdapter.take_shares. by destruct (_ =? 0). }
  assert (orders_view b' = uft_order <$> PsxWtsAdapter.orders_ r') as Hview.
  { rewrite Htake, Hor, (agrees_orders _ _ _ Hagrees). unfold take_order. cbn [Order.remaining uft_order].
    case_decide; [by rewrite fmap_delete|by rewrite fmap_insert]. }
  assert (has_room room (NasdaqItchUftAdapter.orders_ b')) as Hroom.
  { pose proof (agrees_order_room _ _ _ Hagrees) as Hr. unfold has_room, FixedHashTable.size in *.
    rewrite Hmax, (FixedHashTable.wf_size _ (adapter_orders _ Hwf)).
    rewrite (FixedHashTable.wf_size _ (adapter_orders _ (agrees_wf _ _ _ Hagrees))) in Hr.
    change (FixedHashTable.view (NasdaqItchUftAdapter.orders_ b')) with (orders_view b').
    change (FixedHashTable.view (NasdaqItchUftAdapter.orders_ b)) with (orders_view b) in Hr.
    rewrite Htake. destruct (take_order _ _); [rewrite map_size_insert_Some by (by eexists)|
      rewrite map_size_delete_Some by (by eexists)]; lia. }
  assert (map_Forall order_ok (PsxWtsAdapter.orders_ r')) as Hall.
  { rewrite Hor. case_decide; [by apply map_Forall_delete, Hagrees|].
    apply map_Forall_insert_2; [|apply Hagrees]. destruct Hok. constructor; cbn; done || lia. }
  clearbody r' b'. destruct Hagrees.
  constructor; unfold matches_view; rewrite ?Hm, ?Hm', ?Hseq, ?Hs', ?Hl, ?Hl', ?Hi, ?Hst, ?Hst'; done.
Qed.
End tables.

(** New adapters agree. *)
Lemma make_agrees symbol trading_date iid locator order_capacity match_capacity room :
  1 <= order_capacity <= 2 ^ 62 -> 1 <= match_capacity <= 2 ^ 62 ->
  room <= order_capacity -> room <= match_capacity ->
  exists b, NasdaqItchUftAdapter.make iid locator order_capacity match_capacity = Some b /\
    agrees room (PsxWtsAdapter.make trading_date locator symbol) b /\ sound iid b /\
    FixedHashTable.maximum_entries_ (NasdaqItchUftAdapter.orders_ b) = order_capacity /\
    FixedHashTable.maximum_entries_ (NasdaqItchUftAdapter.matches_ b) = match_capacity.
Proof.
  intros Horders Hmatches Ho Hm. unfold NasdaqItchUftAdapter.make.
  destruct (FixedHashTable.table_make_ok (V := Order.t) order_capacity Horders) as (to & Hto & Hwo & Hvo & Hmo).
  destruct (FixedHashTable.table_make_ok (V := Match.t) match_capacity Hmatches) as (tm & Htm & Hwm & Hvm & Hmm).
  rewrite Hto, Htm. cbn [mbind option_bind]. eexists. split; [done|]. split_and!; [|done..].
  constructor; cbn; try done.
  - constructor; [exact Hwo|exact Hwm|..]; intros k o; cbn [NasdaqItchUftAdapter.orders_ NasdaqItchUftAdapter.matches_];
      rewrite ?Hvo, ?Hvm; by rewrite lookup_empty.
  - unfold has_room, FixedHashTable.size. rewrite (FixedHashTable.wf_size _ Hwo), Hvo, Hmo.
    rewrite map_size_empty. lia.
  - unfold has_room, FixedHashTable.size. rewrite (FixedHashTable.wf_size _ Hwm), Hvm, Hmm.
    rewrite map_size_empty. lia.
Qed.
