(* ===== verification/ReplaySteps.v ===== *)
(** * One message through both adapters

    Handler by handler: on a regular message, both adapters publish the same
    events and stay in agreement, errors included. *)

From Stdlib Require Import Ascii.
From S2P Require Import Prelude OpenAddressing FixedHashTable Itch50 Binary64 WtsTypes WtsAdapter.
From S2P Require Import UftTypes UftAdapter UftAdapterFacts Recorder Engine HistoricalFile Replay ReplayFacts.
Import itch50.
Import (hints) WtsAdapterStats WtsOrder UftAdapterStats Comparison DifferentialReplay.

(** What the two adapters are not meant to agree on is left out: numbers
    beyond the signed range (which only the reference refuses), the match
    number 0, trades of nothing, at no price or of an unknown side, and cross
    trades of more than 32 bits (which only one of them refuses). *)
Definition fits (n : Z) : bool := n <=? i64_max.
Definition numbered (n : Z) : bool := (0 <? n) && fits n.

Definition regular (m : list Z) : bool :=
  let type := byte_at m 0 in
  if (type =? chr "A") || (type =? chr "F") then fits (read_u64 (m +! 11))
  else if (type =? chr "E") || (type =? chr "C") then
    numbered (read_u64 (m +! 23)) &&
    (negb (type =? chr "C") ||
     (0 <? read_u32 (m +! 32)) && ((byte_at m 31 =? chr "Y") || (byte_at m 31 =? chr "N")))
  else if type =? chr "U" then fits (read_u64 (m +! 19))
  else if type =? chr "P" then
    numbered (read_u64 (m +! 36)) && (0 <? read_u32 (m +! 20)) && (0 <? read_u32 (m +! 32)) &&
    ((byte_at m 19 =? chr "B") || (byte_at m 19 =? chr "S")) && fits (read_u64 (m +! 11))
  else if type =? chr "Q" then
    numbered (read_u64 (m +! 31)) && (0 <? read_u64 (m +! 11)) && (read_u64 (m +! 11) <=? u32_max) &&
    (0 <? read_u32 (m +! 27))
  else true.

(** Both stay in agreement, and what the candidate publishes is what the
    reference calls, in order. *)
Definition in_step (room : Z) (reference : PsxWtsAdapter.t * list WtsCall)
    (candidate : Recorder -> NasdaqItchUftAdapter.t * Recorder) : Prop :=
  exists b events, (forall past, candidate (mkRecorder past) = (b, mkRecorder (past ++ events))) /\
    agrees room reference.1 b /\ Forall2 corresponds reference.2 events /\ brief reference.2.

Lemma in_step_quiet room r b : agrees room r b -> in_step room (r, []) (fun e => (b, e)).
Proof. intros. exists b, []. split_and!; [|done..]. intros. by rewrite app_nil_r. Qed.

(** Both publish one event. *)
Lemma in_step_one room r b call event f :
  (forall past, f (mkRecorder past) = (b, mkRecorder (past ++ [event]))) -> agrees room r b ->
  corresponds call event -> in_step room (r, [call]) f.
Proof.
  intros Hf Ha Hc. exists b, [event]. split; [exact Hf|]. split; [exact Ha|]. split; [|exact I].
  by apply Forall2_cons_2; [|apply Forall2_nil_2].
Qed.

(** Both count and publish nothing. *)
Lemma in_step_counted room ks r r' b b' :
  agrees room r b -> reference_counted ks r r' -> candidate_counted ks b b' ->
  in_step room (r', []) (fun e => (b', e)).
Proof. intros. apply in_step_quiet. by eapply agrees_counted. Qed.

Lemma in_step_error room room' r b b' :
  agrees room r b -> room' <= room -> candidate_counted [9%nat] b b' ->
  in_step room' (PsxWtsAdapter.error r, []) (fun e => (b', e)).
Proof. intros. eapply in_step_counted; [by eapply agrees_less|apply reference_error|done]. Qed.

Lemma side_same s : NasdaqItchUftAdapter.side_of s = uft_side s.
Proof. reflexivity. Qed.

Lemma side_known s :
  NasdaqItchUftAdapter.is_unknown (uft_side s) = negb (s =? BDT_Buy) && negb (s =? BDT_Sell).
Proof. unfold uft_side. by destruct (s =? BDT_Buy), (s =? BDT_Sell). Qed.

Section step.
Context (room : Z) (r : PsxWtsAdapter.t) (b : NasdaqItchUftAdapter.t) (message : list Z).
Hypothesis Hagrees : agrees room r b.
Hypothesis Hroom : 0 < room.
Hypothesis Hbytes : Forall is_byte message.

Lemma u32_field i : 0 <= read_u32 (message +! i) < 2 ^ 32.
Proof. by apply read_u32_range, advance_bytes. Qed.

Lemma u64_field i : 0 <= read_u64 (message +! i) < 2 ^ 64.
Proof. by apply read_u64_range, advance_bytes. Qed.

Ltac fields := pose proof u32_field; pose proof u64_field.

(** The candidate refuses as the reference does. *)
Ltac refused := eapply in_step_error; [exact Hagrees|lia|];
  first [apply candidate_malformed|constructor; [by split_and!|done..]].

Lemma add_step :
  read_u64 (message +! 11) <= i64_max ->
  in_step (room - 1) (PsxWtsAdapter.add r message) (fun e => NasdaqItchUftAdapter.add b e message).
Proof.
  intros Hfits. unfold PsxWtsAdapter.add, NasdaqItchUftAdapter.add. rewrite side_same, side_known.
  pose proof (u64_field 11) as Hid. pose proof (u32_field 20) as Hq. pose proof (u32_field 32) as Hp.
  set (id := read_u64 (message +! 11)) in *. set (q := read_u32 (message +! 20)) in *.
  set (p := read_u32 (message +! 32)) in *. set (s := byte_at message 19).
  destruct (negb (s =? BDT_Buy) && negb (s =? BDT_Sell)) eqn:Hs; [rewrite orb_true_r; refused|].
  destruct (Z.eqb_spec q 0) as [|Hq0]; [rewrite orb_true_r; refused|].
  destruct (Z.eqb_spec p 0) as [|Hp0]; [rewrite orb_true_r; refused|]. cbn [orb].
  destruct (Z.eqb_spec id 0) as [Hz|Hz]; cbn [orb].
  { unfold FixedHashTable.insert. rewrite Hz. cbn [Z.eqb NasdaqItchUftAdapter.count_insert_failure]. refused. }
  set (o := WtsOrder.mk p q s). change (Order.mk p q (uft_side s)) with (uft_order o).
  assert (order_ok id o) as Hok.
  { constructor; cbn; [lia..|]. destruct (Z.eqb_spec s BDT_Buy), (Z.eqb_spec s BDT_Sell); auto; done. }
  destruct (FixedHashTable.insert _ id _) as [tab res] eqn:Hi. unfold PsxWtsAdapter.emplace.
  destruct (insert_order_agrees _ _ _ Hagrees _ _ _ _ Hroom Hok Hi) as [(-> & -> & Ha)|(-> & [o' ->] & Ha)]; cbn [negb].
  - set (r1 := r <| PsxWtsAdapter.orders_ := _ |>) in *. set (b1 := b <| NasdaqItchUftAdapter.orders_ := tab |>) in *.
    set (r2 := PsxWtsAdapter.count r1 _). set (b2 := NasdaqItchUftAdapter.count b1 _).
    assert (agrees (room - 1) r2 b2) as Ha2.
    { destruct (agrees_active _ _ _ Ha) as [Hact Hrange]. destruct Ha. constructor; cbn; try done.
      - by destruct agrees_wf.
      - rewrite Hact, wrap_small by lia. by f_equal. }
    clearbody r2 b2.
    destruct (reference_emit_order r2 message id o) as (r3 & -> & Hr3).
    destruct (candidate_emit_order b2 message id (uft_order o)) as (b3 & Hb & Hb3).
    eapply in_step_one; [intros past; rewrite Hb; apply candidate_emit_book|by eapply agrees_counted|].
    constructor; [done|by apply order_events_agree].
  - eapply (in_step_counted _ [9%nat]); [exact Ha| |].
    + eexists. split; [reflexivity|done].
    + constructor; [by split_and!|done..].
Qed.

(** A transaction both publish. *)
Lemma transaction_step room' r1 b1 n ty s p v id :
  agrees room' r1 b1 -> known_type ty ->
  0 <= n < 2 ^ 64 -> 0 <= p < 2 ^ 32 -> 0 <= id <= i64_max -> v <> 0 ->
  exists r2 call b2 event,
    PsxWtsAdapter.emit_transaction r1 message (i64_of_u64 n) ty s p v id = (r2, [call]) /\
    (forall past, NasdaqItchUftAdapter.emit_transaction b1 (mkRecorder past) message n
        (Comparison.expected_type ty) (uft_side s) p v id = (b2, mkRecorder (past ++ [event]))) /\
    agrees room' r2 b2 /\ PsxWtsAdapter.orders_ r2 = PsxWtsAdapter.orders_ r1 /\ corresponds call event.
Proof.
  intros Ha Hty Hn Hp Hid Hv.
  destruct (reference_emit_transaction r1 message (i64_of_u64 n) ty s p v id) as (r2 & Hr & Hrc); [done|lia|done|].
  destruct (candidate_emit_transaction b1 message n ty (uft_side s) p v id) as (b2 & Hb & Hbc); [done|done|].
  eexists r2, _, b2, _. split; [exact Hr|]. split; [exact Hb|]. split_and!.
  - by eapply agrees_counted.
  - by destruct Hrc as (? & -> & _).
  - constructor; [exact Hty|by apply transaction_events_agree].
Qed.

(** The order both know under an id. *)
Lemma known_order id o : PsxWtsAdapter.orders_ r !! id = Some o -> order_ok id o.
Proof. exact (agrees_orders_ok _ _ _ Hagrees id o). Qed.

Lemma reducible q n : (q =? 0) || (n <? q) = false -> 0 <= q -> 0 < q <= n.
Proof. rewrite orb_false_iff, Z.eqb_neq, Z.ltb_ge. lia. Qed.

Ltac cancellation :=
  change UftTransactionType.Cancel with (Comparison.expected_type TT_Cancel);
  rewrite (agrees_sequence _ _ _ Hagrees).

Lemma cancel_partial_step :
  in_step (room - 1) (PsxWtsAdapter.cancel_partial r message)
    (fun e => NasdaqItchUftAdapter.cancel_partial b e message).
Proof.
  unfold PsxWtsAdapter.cancel_partial, NasdaqItchUftAdapter.cancel_partial.
  rewrite (find_agreed_order _ _ _ Hagrees). pose proof (u32_field 19) as Hq.
  destruct (PsxWtsAdapter.orders_ r !! _) as [o|] eqn:Ho; [|refused].
  cbn [fmap option_fmap option_map uft_order Order.remaining Order.side Order.price_ticks].
  destruct (_ || _) eqn:Hc; [refused|]. apply reducible in Hc; [|lia].
  destruct (known_order _ _ Ho) as [Hid Hp Hr Hs]. cancellation.
  destruct (transaction_step room r b (PsxWtsAdapter.event_sequence_ r) TT_Cancel (WtsOrder.side o)
    (WtsOrder.price o) (read_u32 (message +! 19)) (read_u64 (message +! 11)))
    as (r2 & call & b2 & event & -> & Hb & Ha & Hor & Hcall); [done|by right; left|apply Hagrees|lia..|].
  eapply in_step_one; [intros past; rewrite Hb, candidate_emit_book; reflexivity| |exact Hcall].
  eapply agrees_less; [|apply take_agrees]; [|exact Ha|by rewrite Hor|done]. lia.
Qed.

Lemma cancel_all_step :
  in_step (room - 1) (PsxWtsAdapter.cancel_all r message)
    (fun e => NasdaqItchUftAdapter.cancel_all b e message).
Proof.
  unfold PsxWtsAdapter.cancel_all, NasdaqItchUftAdapter.cancel_all.
  rewrite (find_agreed_order _ _ _ Hagrees).
  destruct (PsxWtsAdapter.orders_ r !! _) as [o|] eqn:Ho; [|refused].
  cbn [fmap option_fmap option_map uft_order Order.remaining Order.side Order.price_ticks].
  destruct (known_order _ _ Ho) as [Hid Hp Hr Hs]. cancellation.
  destruct (transaction_step room r b (PsxWtsAdapter.event_sequence_ r) TT_Cancel (WtsOrder.side o)
    (WtsOrder.price o) (WtsOrder.remaining o) (read_u64 (message +! 11)))
    as (r2 & call & b2 & event & -> & Hb & Ha & Hor & Hcall); [done|by right; left|apply Hagrees|lia..|].
  eapply in_step_one; [intros past; rewrite Hb, candidate_emit_book; reflexivity| |exact Hcall].
  eapply agrees_less; [|by apply erase_order_agrees]. lia.
Qed.

Lemma replace_step :
  read_u64 (message +! 19) <= i64_max ->
  in_step (room - 1) (PsxWtsAdapter.replace r message)
    (fun e => NasdaqItchUftAdapter.replace b e message).
Proof.
  intros Hfits. unfold PsxWtsAdapter.replace, NasdaqItchUftAdapter.replace.
  rewrite !(find_agreed_order _ _ _ Hagrees).
  pose proof (u64_field 19) as Hnew. pose proof (u32_field 27) as Hq. pose proof (u32_field 31) as Hp.
  set (old := read_u64 (message +! 11)). set (new := read_u64 (message +! 19)) in *.
  set (q := read_u32 (message +! 27)) in *. set (p := read_u32 (message +! 31)) in *.
  destruct (PsxWtsAdapter.orders_ r !! old) as [o|] eqn:Ho; [|refused].
  cbn [fmap option_fmap option_map uft_order Order.remaining Order.side Order.price_ticks].
  rewrite (bool_decide_ext _ _ (fmap_is_Some uft_order (PsxWtsAdapter.orders_ r !! new))).
  destruct (_ || _) eqn:Hc; [refused|].
  rewrite !orb_false_iff, !Z.eqb_neq, bool_decide_eq_false, <- eq_None_not_Some in Hc.
  destruct Hc as (((Hn0 & Hq0) & Hp0) & Hnone). destruct (known_order _ _ Ho) as [Hid Hpo Hr Hs].
  set (o' := WtsOrder.mk p q (WtsOrder.side o)).
  change (Order.mk p q (uft_side (WtsOrder.side o))) with (uft_order o').
  assert (order_ok new o') as Hok by (constructor; cbn; [lia..|done]).
  pose proof (erase_order_agrees _ _ _ Hagrees old) as Ha1.
  set (r1 := r <| PsxWtsAdapter.orders_ ::= delete old |>) in *.
  set (b1 := b <| NasdaqItchUftAdapter.orders_ ::= _ |>) in *.
  destruct (FixedHashTable.insert _ new _) as [tab res] eqn:Hi.
  assert (PsxWtsAdapter.orders_ r1 !! new = None) as Hnone1.
  { cbn. destruct (decide (new = old)) as [->|]; [by rewrite lookup_delete_eq|by rewrite lookup_delete_ne]. }
  destruct (insert_order_agrees _ _ _ Ha1 _ _ _ _ Hroom Hok Hi) as [(-> & _ & Ha2)|(_ & [? Hx] & _)];
    [|congruence].
  set (b2 := b1 <| NasdaqItchUftAdapter.orders_ := tab |>) in *.
  destruct (reference_emit_transaction r message (i64_of_u64 (PsxWtsAdapter.event_sequence_ r)) TT_Cancel
    (WtsOrder.side o) (WtsOrder.price o) (WtsOrder.remaining o) old) as (r3 & -> & s & -> & Hcounts & Hpeak);
    [lia|lia|by right; left|].
  destruct (candidate_emit_transaction b2 message (PsxWtsAdapter.event_sequence_ r) TT_Cancel
    (uft_side (WtsOrder.side o)) (WtsOrder.price o) (WtsOrder.remaining o) old) as (b3 & Hb3 & Hbc3);
    [lia|by right; left|].
  set (r4 := r1 <| PsxWtsAdapter.orders_ := <[new := o']> (PsxWtsAdapter.orders_ r1) |>) in *.
  assert (agrees (room - 1) (r4 <| PsxWtsAdapter.stats_ := s |>) b3) as Ha3.
  { eapply agrees_counted; [exact Ha2| |exact Hbc3]. eexists. split; [reflexivity|by split]. }
  unfold PsxWtsAdapter.emplace. updates. cbn [PsxWtsAdapter.orders_]. cbn in Hnone1. rewrite Hnone1. cbn [negb].
  change (PsxWtsAdapter.mk _ _ _ _ _ _ _) with (r4 <| PsxWtsAdapter.stats_ := s |>).
  destruct (reference_emit_order (r4 <| PsxWtsAdapter.stats_ := s |>) message new o') as (r5 & -> & Hr5).
  destruct (candidate_emit_order b3 message new (uft_order o')) as (b4 & Hb4 & Hbc4).
  change (NasdaqItchUftAdapter.source_sequence_ b2) with (NasdaqItchUftAdapter.source_sequence_ b).
  eexists b4, [_; _]. split_and!.
  - intros past. cancellation. rewrite Hb3, Hb4, candidate_emit_book. by rewrite <- app_assoc.
  - by eapply agrees_counted.
  - constructor; [|constructor; [|constructor]].
    + constructor; [by right; left|]. apply transaction_events_agree; [apply Hagrees|lia|lia].
    + constructor; [done|by apply order_events_agree].
  - done.
Qed.

(** A counter both bump. *)
Lemma in_step_count room' ks r1 b1 s b2 :
  agrees room' r1 b1 -> reference_counts s = bump ks (reference_counts (PsxWtsAdapter.stats_ r1)) ->
  WtsAdapterStats.peak_active_orders s = WtsAdapterStats.peak_active_orders (PsxWtsAdapter.stats_ r1) ->
  candidate_counted ks b1 b2 -> in_step room' (r1 <| PsxWtsAdapter.stats_ := s |>, []) (fun e => (b2, e)).
Proof. intros Ha Hs Hp Hb. eapply in_step_counted; [exact Ha| |exact Hb]. by exists s. Qed.

Lemma numbered_range n : numbered n = true -> 0 < n <= i64_max.
Proof. unfold numbered, fits. rewrite andb_true_iff, Z.ltb_lt, Z.leb_le. done. Qed.

(** A trade report: new, it is published; known, it is counted. *)
Lemma publish_match_step n m :
  match_ok n m -> WtsMatch.emitted m = true ->
  in_step (room - 1)
    (let '(matches, first_match) := PsxWtsAdapter.emplace (PsxWtsAdapter.matches_ r) n m in
     let r := r <| PsxWtsAdapter.matches_ := matches |> in
     if negb first_match
     then (PsxWtsAdapter.count r (fun s =>
       s <| WtsAdapterStats.duplicate_matches_suppressed ::= incr |>), [])
     else PsxWtsAdapter.emit_transaction r message (i64_of_u64 n) TT_Match (WtsMatch.side m)
       (WtsMatch.price m) (WtsMatch.volume m) (WtsMatch.order_id m))
    (fun e => NasdaqItchUftAdapter.publish_match b e message n (uft_match m)).
Proof.
  intros Hok He. unfold NasdaqItchUftAdapter.publish_match, PsxWtsAdapter.emplace.
  destruct (FixedHashTable.insert _ n _) as [tab res] eqn:Hi.
  destruct (insert_match_agrees _ _ _ Hagrees _ _ _ _ Hroom Hok Hi) as [(-> & -> & Ha)|(-> & [m' ->] & Ha)]; cbn [negb].
  - destruct Hok as [Hn Hp Hq Hid].
    destruct (transaction_step _ _ _ n TT_Match (WtsMatch.side m) (WtsMatch.price m) (WtsMatch.volume m)
      (WtsMatch.order_id m) Ha) as (r2 & call & b2 & event & -> & Hb & Ha2 & _ & Hcall); [by left|lia..|].
    eapply in_step_one; [|exact Ha2|exact Hcall]. intros past. rewrite candidate_emit_book. apply Hb.
  - eapply (in_step_counted _ [5%nat]); [exact Ha| |].
    + eexists. split; [reflexivity|done].
    + constructor; [by split_and!|done..].
Qed.

Lemma non_cross_trade_step :
  numbered (read_u64 (message +! 36)) = true -> 0 < read_u32 (message +! 20) -> 0 < read_u32 (message +! 32) ->
  byte_at message 19 = BDT_Buy \/ byte_at message 19 = BDT_Sell -> read_u64 (message +! 11) <= i64_max ->
  in_step (room - 1) (PsxWtsAdapter.non_cross_trade r message)
    (fun e => NasdaqItchUftAdapter.non_cross_trade b e message).
Proof.
  intros Hn%numbered_range Hq Hp Hs Hid. unfold PsxWtsAdapter.non_cross_trade, NasdaqItchUftAdapter.non_cross_trade.
  pose proof (u32_field 20). pose proof (u32_field 32). pose proof (u64_field 11).
  rewrite side_same. cbn [Match.quantity Match.price_ticks Match.side].
  rewrite (proj2 (Z.eqb_neq _ _)), (proj2 (Z.leb_gt _ _)) by lia.
  assert (NasdaqItchUftAdapter.is_unknown (uft_side (byte_at message 19)) = false) as Hk.
  { rewrite side_known. by destruct Hs as [-> | ->]. }
  rewrite Hk. cbn [orb]. rewrite (proj2 (Z.ltb_ge _ _)) by lia.
  set (m := WtsMatch.mk (read_u32 (message +! 32)) (read_u32 (message +! 20)) (read_u64 (message +! 11))
    (byte_at message 19) true).
  apply (publish_match_step _ m); [|done]. constructor; cbn; lia.
Qed.

Lemma cross_trade_step :
  numbered (read_u64 (message +! 31)) = true -> 0 < read_u64 (message +! 11) <= u32_max ->
  0 < read_u32 (message +! 27) ->
  in_step (room - 1) (PsxWtsAdapter.cross_trade r message)
    (fun e => NasdaqItchUftAdapter.cross_trade b e message).
Proof.
  intros Hn%numbered_range Hq Hp. unfold PsxWtsAdapter.cross_trade, NasdaqItchUftAdapter.cross_trade.
  pose proof (u32_field 27).
  cbn [Match.quantity Match.price_ticks].
  rewrite (proj2 (Z.eqb_neq _ _)), (proj2 (Z.leb_gt _ _)) by lia. rewrite !(proj2 (Z.ltb_ge _ _)) by lia.
  cbn [orb]. rewrite wrap_small by lia.
  set (m := WtsMatch.mk (read_u32 (message +! 27)) (read_u64 (message +! 11)) 0 BDT_Unknown true).
  apply (publish_match_step _ m); [|done]. constructor; cbn; lia.
Qed.

Lemma broken_trade_step :
  in_step (room - 1) (PsxWtsAdapter.broken_trade r message)
    (fun e => NasdaqItchUftAdapter.broken_trade b e message).
Proof.
  unfold PsxWtsAdapter.broken_trade, NasdaqItchUftAdapter.broken_trade.
  rewrite (find_agreed_match _ _ _ Hagrees). set (n := read_u64 (message +! 11)).
  destruct (PsxWtsAdapter.matches_ r !! n) as [m|] eqn:Hm; cbn [fmap option_fmap option_map].
  2: { eapply (in_step_count _ [8%nat] r b); [eapply agrees_less; [|done]; lia|done|done|].
       constructor; [by split_and!|done..]. }
  destruct (agrees_matches_ok _ _ _ Hagrees _ _ Hm) as [Hn Hp Hq Hid].
  cbn [uft_match Match.side Match.price_ticks Match.quantity Match.order_id Match.emitted].
  destruct (WtsMatch.emitted m).
  - destruct (transaction_step _ _ _ n kWtsTradeBust (WtsMatch.side m) (WtsMatch.price m) (WtsMatch.volume m)
      (WtsMatch.order_id m) Hagrees) as (r2 & call & b2 & event & -> & Hb & Ha2 & _ & Hcall); [by right; right|lia..|].
    change UftTransactionType.TradeBust with (Comparison.expected_type kWtsTradeBust).
    eapply in_step_one; [intros past; rewrite candidate_emit_book, Hb; reflexivity| |exact Hcall].
    eapply agrees_less; [|by apply erase_match_agrees]. lia.
  - apply in_step_quiet. eapply agrees_less; [|apply erase_match_agrees]; [|].
    2: { eapply (agrees_counted _ [7%nat]); [exact Hagrees| |].
         - eexists. split; [reflexivity|done].
         - constructor; [by split_and!|done..]. }
    lia.
Qed.

(** The tail of an execution, once the match is known or new. *)
Lemma execute_step :
  numbered (read_u64 (message +! 23)) = true ->
  (byte_at message 0 = chr "C" -> 0 < read_u32 (message +! 32) /\
    (byte_at message 31 = chr "Y" \/ byte_at message 31 = chr "N")) ->
  in_step (room - 1) (PsxWtsAdapter.execute r message) (fun e => NasdaqItchUftAdapter.execute b e message).
Proof.
  intros Hn%numbered_range Hc. unfold PsxWtsAdapter.execute, NasdaqItchUftAdapter.execute.
  rewrite (find_agreed_order _ _ _ Hagrees). pose proof (u32_field 19) as Hq. pose proof (u32_field 32) as Hp32.
  set (id := read_u64 (message +! 11)). set (n := read_u64 (message +! 23)) in *.
  set (q := read_u32 (message +! 19)) in *.
  destruct (PsxWtsAdapter.orders_ r !! id) as [o|] eqn:Ho; [|refused].
  cbn [fmap option_fmap option_map uft_order Order.remaining Order.side Order.price_ticks].
  destruct (_ || _) eqn:Hred; [refused|]. apply reducible in Hred; [|lia].
  destruct (known_order _ _ Ho) as [Hid Hp Hr Hs].
  set (price := if byte_at message 0 =? chr "C" then _ else _).
  set (printable := negb (byte_at message 0 =? chr "C") || _).
  assert (0 < price < 2 ^ 32) as Hprice.
  { unfold price. destruct (Z.eqb_spec (byte_at message 0) (chr "C")); [|done]. destruct Hc; [done|lia]. }
  assert ((byte_at message 0 =? chr "C") && negb (byte_at message 31 =? chr "Y") &&
    negb (byte_at message 31 =? chr "N") = false) as ->.
  { destruct (Z.eqb_spec (byte_at message 0) (chr "C")); [|done]. destruct Hc as [_ [-> | ->]]; done. }
  rewrite (proj2 (Z.leb_gt _ _)) by lia. cbn [orb]. cbn zeta.
  set (m := WtsMatch.mk price q id (WtsOrder.side o) printable).
  change (Match.mk price q id (uft_side (WtsOrder.side o)) printable) with (uft_match m).
  assert (match_ok n m) as Hok by (constructor; cbn; lia).
  destruct (FixedHashTable.insert _ n _) as [tab res] eqn:Hi. unfold PsxWtsAdapter.emplace.
  rewrite (proj2 (Z.ltb_ge i64_max n)) by lia.
  destruct (insert_match_agrees _ _ _ Hagrees _ _ _ _ Hroom Hok Hi) as [(-> & -> & Ha)|(-> & [m' ->] & Ha)];
    destruct printable; cbn [negb].
  - destruct (transaction_step _ _ _ n TT_Match (WtsOrder.side o) price q id Ha)
      as (r2 & call & b2 & event & -> & Hb & Ha2 & Hor & Hcall); [by left|lia..|].
    change UftTransactionType.Trade with (Comparison.expected_type TT_Match).
    eapply in_step_one; [intros past; rewrite Hb, candidate_emit_book; reflexivity| |exact Hcall].
    apply take_agrees; [exact Ha2|by rewrite Hor|done].
  - apply in_step_quiet, take_agrees; [|done|done].
    eapply (agrees_counted _ [6%nat]); [exact Ha| |].
    + eexists. split; [reflexivity|done].
    + constructor; [by split_and!|done..].
  - apply in_step_quiet, take_agrees; [|done|done].
    eapply (agrees_counted _ [5%nat]); [exact Ha| |].
    + eexists. split; [reflexivity|done].
    + constructor; [by split_and!|done..].
  - apply in_step_quiet, take_agrees; [|done|done].
    eapply (agrees_counted _ [6%nat]); [exact Ha| |].
    + eexists. split; [reflexivity|done].
    + constructor; [by split_and!|done..].
Qed.
End step.

Lemma fits_le n : fits n = true -> n <= i64_max.
Proof. apply Z.leb_le. Qed.

(** The event counters of both adapters advance together. *)
Lemma sequence_agrees room r b :
  agrees room r b ->
  agrees room (r <| PsxWtsAdapter.event_sequence_ ::= incr |>)
    (b <| NasdaqItchUftAdapter.source_sequence_ ::= incr |>).
Proof.
  intros Ha. pose proof (agrees_sequence _ _ _ Ha) as Hseq. pose proof (agrees_wf _ _ _ Ha) as Hwf.
  destruct Ha. constructor; cbn; try done.
  - by rewrite Hseq.
  - apply wrap_bounds. lia.
  - destruct Hwf. by constructor.
Qed.

Lemma on_message_step room r b message size :
  agrees room r b -> 0 < room -> Forall is_byte message -> regular message = true ->
  in_step (room - 1) (PsxWtsAdapter.on_message r message size)
    (fun e => NasdaqItchUftAdapter.on_message b (Some message) size e).
Proof.
  intros Ha Hroom Hb Hreg. unfold PsxWtsAdapter.on_message, NasdaqItchUftAdapter.on_message.
  rewrite (agrees_locator _ _ _ Ha).
  destruct ((size <? 11) || _) eqn:Hpre;
    [apply in_step_quiet; eapply agrees_less; [|done]; lia|].
  apply orb_false_iff in Hpre as [Hsz%Z.ltb_ge _].
  apply sequence_agrees in Ha. revert Ha.
  generalize (r <| PsxWtsAdapter.event_sequence_ ::= incr |>) as r1,
    (b <| NasdaqItchUftAdapter.source_sequence_ ::= incr |>) as b1.
  intros r1 b1 Ha. cbn zeta.
  destruct (Z.eqb_spec size (expected_message_size (byte_at message 0))) as [He|He]; cbn [negb].
  2: { rewrite orb_true_r. eapply in_step_error; [exact Ha|lia|apply candidate_malformed]. }
  rewrite (proj2 (Z.eqb_neq _ 0)) by lia. cbn [orb]. clear He Hsz. unfold regular in Hreg. cbn zeta in Hreg.
  destruct ((byte_at message 0 =? chr "A") || _); [by apply add_step; try done; apply fits_le|].
  destruct ((byte_at message 0 =? chr "E") || _) eqn:Hec.
  { apply andb_true_iff in Hreg as [Hn Hreg]. apply execute_step; try done.
    intros He. rewrite He, Z.eqb_refl in Hreg. cbn [negb orb] in Hreg.
    rewrite andb_true_iff, orb_true_iff, Z.ltb_lt, !Z.eqb_eq in Hreg. done. }
  destruct (byte_at message 0 =? chr "X") eqn:HX.
  { by apply cancel_partial_step. }
  destruct (byte_at message 0 =? chr "D") eqn:HD.
  { by apply cancel_all_step. }
  destruct (byte_at message 0 =? chr "U").
  { apply replace_step; try done. by apply fits_le. }
  destruct (byte_at message 0 =? chr "P").
  { rewrite !andb_true_iff, orb_true_iff, !Z.ltb_lt, !Z.eqb_eq in Hreg.
    destruct Hreg as ((((? & ?) & ?) & ?) & ?). apply non_cross_trade_step; try done. by apply fits_le. }
  destruct (byte_at message 0 =? chr "Q").
  { rewrite !andb_true_iff, !Z.ltb_lt, Z.leb_le in Hreg.
    destruct Hreg as (((? & ?) & ?) & ?). by apply cross_trade_step. }
  destruct (byte_at message 0 =? chr "B"); [by apply broken_trade_step|].
  apply in_step_quiet. eapply agrees_less; [|done]. lia.
Qed.
