(* ===== verification/Within.v ===== *)
(** * Reading within a message

    Both adapters, the order tracker and the symbol field read only the bytes of
    the message they are given: what the scanner's buffer holds behind it does
    not matter. *)

From Stdlib Require Import Ascii.
From S2P Require Import Prelude Itch50 WtsAdapter UftTypes UftAdapter Engine OrderLifecycle Replay.
Import itch50.

(** ** The adapters read nothing beyond a message *)

Ltac within :=
  rewrite ?(read_u48_take _ _ 5), ?(read_u64_take _ _ 11), ?(read_u64_take _ _ 19), ?(read_u64_take _ _ 23),
    ?(read_u64_take _ _ 31), ?(read_u64_take _ _ 36), ?(read_u32_take _ _ 19), ?(read_u32_take _ _ 20),
    ?(read_u32_take _ _ 27), ?(read_u32_take _ _ 31), ?(read_u32_take _ _ 32), ?(byte_at_take _ _ 0),
    ?(byte_at_take _ _ 19), ?(byte_at_take _ _ 31) by lia.

(** The switch of both adapters: each handler gets messages of its size. *)
Lemma switch_within {A} (t size : Z) (ad ex ca de re nc cr br ad' ex' ca' de' re' nc' cr' br' none : A) :
  size = expected_message_size t ->
  (36 <= size -> ad = ad') -> (31 <= size -> (t = chr "C" -> 36 <= size) -> ex = ex') ->
  (23 <= size -> ca = ca') -> (19 <= size -> de = de') -> (35 <= size -> re = re') ->
  (44 <= size -> nc = nc') -> (40 <= size -> cr = cr') -> (19 <= size -> br = br') ->
  (if (t =? chr "A") || (t =? chr "F") then ad
   else if (t =? chr "E") || (t =? chr "C") then ex
   else if t =? chr "X" then ca else if t =? chr "D" then de else if t =? chr "U" then re
   else if t =? chr "P" then nc else if t =? chr "Q" then cr else if t =? chr "B" then br else none) =
  (if (t =? chr "A") || (t =? chr "F") then ad'
   else if (t =? chr "E") || (t =? chr "C") then ex'
   else if t =? chr "X" then ca' else if t =? chr "D" then de' else if t =? chr "U" then re'
   else if t =? chr "P" then nc' else if t =? chr "Q" then cr' else if t =? chr "B" then br' else none).
Proof.
  intros Hs Ha Hex Hca Hde Hre Hnc Hcr Hbr.
  destruct (Z.eqb_spec t (chr "A")) as [->|_]; [apply Ha; rewrite Hs; by vm_compute|].
  destruct (Z.eqb_spec t (chr "F")) as [->|_]; [apply Ha; rewrite Hs; by vm_compute|].
  destruct (Z.eqb_spec t (chr "E")) as [->|_]; [apply Hex; [rewrite Hs; by vm_compute|done]|].
  destruct (Z.eqb_spec t (chr "C")) as [->|_]; [apply Hex; intros; rewrite Hs; by vm_compute|]. cbn [orb].
  destruct (Z.eqb_spec t (chr "X")) as [->|_]; [apply Hca; rewrite Hs; by vm_compute|].
  destruct (Z.eqb_spec t (chr "D")) as [->|_]; [apply Hde; rewrite Hs; by vm_compute|].
  destruct (Z.eqb_spec t (chr "U")) as [->|_]; [apply Hre; rewrite Hs; by vm_compute|].
  destruct (Z.eqb_spec t (chr "P")) as [->|_]; [apply Hnc; rewrite Hs; by vm_compute|].
  destruct (Z.eqb_spec t (chr "Q")) as [->|_]; [apply Hcr; rewrite Hs; by vm_compute|].
  destruct (Z.eqb_spec t (chr "B")) as [->|_]; [apply Hbr; rewrite Hs; by vm_compute|done].
Qed.

(** A handler of messages of at least [least] bytes. *)
Definition reads_within {A} (least : Z) (handler : list Z -> A) : Prop :=
  forall m size, least <= size -> handler (take (Z.to_nat size) m) = handler m.

Section reference.
Context (r : PsxWtsAdapter.t).
Import PsxWtsAdapter.

Ltac handler f := intros m size ?; unfold f, emit_transaction, emit_order; by within.

Lemma add_within : reads_within 36 (add r).
Proof. handler add. Qed.
Lemma cancel_partial_within : reads_within 23 (cancel_partial r).
Proof. handler cancel_partial. Qed.
Lemma cancel_all_within : reads_within 19 (cancel_all r).
Proof. handler cancel_all. Qed.
Lemma replace_within : reads_within 35 (replace r).
Proof. handler replace. Qed.
Lemma non_cross_trade_within : reads_within 44 (non_cross_trade r).
Proof. handler non_cross_trade. Qed.
Lemma cross_trade_within : reads_within 40 (cross_trade r).
Proof. handler cross_trade. Qed.
Lemma broken_trade_within : reads_within 19 (broken_trade r).
Proof. handler broken_trade. Qed.

Lemma execute_within m size :
  31 <= size -> (byte_at m 0 = chr "C" -> 36 <= size) ->
  execute r (take (Z.to_nat size) m) = execute r m.
Proof.
  intros Hs Hc. unfold execute, emit_transaction. rewrite byte_at_take by lia.
  destruct (Z.eqb_spec (byte_at m 0) (chr "C")) as [He|_]; [specialize (Hc He); by within|].
  cbn [negb orb]. by rewrite read_u48_take, !read_u64_take, read_u32_take by lia.
Qed.

End reference.

Lemma reference_within r m size :
  PsxWtsAdapter.on_message r (take (Z.to_nat size) m) size = PsxWtsAdapter.on_message r m size.
Proof.
  unfold PsxWtsAdapter.on_message. destruct (Z.ltb_spec size 11) as [|Hsz]; [done|]. cbn [orb].
  rewrite read_u16_take, byte_at_take by lia. destruct (negb _); [done|].
  destruct (Z.eqb_spec size (expected_message_size (byte_at m 0))) as [He|]; [|by rewrite orb_true_r].
  destruct (_ || _); [done|]. cbn [negb].
  apply (switch_within _ _ _ _ _ _ _ _ _ _ _ _ _ _ _ _ _ _ _ He); intros.
  - by apply add_within.
  - by apply execute_within.
  - by apply cancel_partial_within.
  - by apply cancel_all_within.
  - by apply replace_within.
  - by apply non_cross_trade_within.
  - by apply cross_trade_within.
  - by apply broken_trade_within.
Qed.

Section candidate.
Context {E : Type} `{MarketDataEngine E} (b : NasdaqItchUftAdapter.t) (e : E).
Import NasdaqItchUftAdapter.

Ltac handler f :=
  intros m size ?; unfold f, publish_match, emit_transaction, emit_order, emit_book; by within.

Lemma candidate_add_within : reads_within 36 (add b e).
Proof. handler @add. Qed.
Lemma candidate_cancel_partial_within : reads_within 23 (cancel_partial b e).
Proof. handler @cancel_partial. Qed.
Lemma candidate_cancel_all_within : reads_within 19 (cancel_all b e).
Proof. handler @cancel_all. Qed.
Lemma candidate_replace_within : reads_within 35 (replace b e).
Proof. handler @replace. Qed.
Lemma candidate_non_cross_trade_within : reads_within 44 (non_cross_trade b e).
Proof. handler @non_cross_trade. Qed.
Lemma candidate_cross_trade_within : reads_within 40 (cross_trade b e).
Proof. handler @cross_trade. Qed.
Lemma candidate_broken_trade_within : reads_within 19 (broken_trade b e).
Proof. handler @broken_trade. Qed.

Lemma candidate_execute_within m size :
  31 <= size -> (byte_at m 0 = chr "C" -> 36 <= size) ->
  execute b e (firstn (Z.to_nat size) m) = execute b e m.
Proof.
  intros Hs Hc. unfold execute, emit_transaction, emit_book. rewrite byte_at_take by lia.
  destruct (Z.eqb_spec (byte_at m 0) (chr "C")) as [He|_]; [specialize (Hc He); by within|].
  cbn [negb andb orb]. by rewrite read_u48_take, !read_u64_take, read_u32_take by lia.
Qed.

End candidate.

Lemma candidate_within {E} `{MarketDataEngine E} b (e : E) m size :
  NasdaqItchUftAdapter.on_message b (Some (take (Z.to_nat size) m)) size e =
  NasdaqItchUftAdapter.on_message b (Some m) size e.
Proof.
  unfold NasdaqItchUftAdapter.on_message. destruct (Z.ltb_spec size 11) as [|Hsz]; [done|]. cbn [orb].
  rewrite read_u16_take, byte_at_take by lia. destruct (negb _); [done|].
  destruct (Z.eqb_spec size (expected_message_size (byte_at m 0))) as [He|]; [|done]. cbn [negb].
  apply (switch_within _ _ _ _ _ _ _ _ _ _ _ _ _ _ _ _ _ _ _ He); intros.
  - by apply candidate_add_within.
  - by apply candidate_execute_within.
  - by apply candidate_cancel_partial_within.
  - by apply candidate_cancel_all_within.
  - by apply candidate_replace_within.
  - by apply candidate_non_cross_trade_within.
  - by apply candidate_cross_trade_within.
  - by apply candidate_broken_trade_within.
Qed.

(** ** The order tracker *)

Section tracker.
Context (s : OrderLifecycle.t).
Import OrderLifecycle.

Ltac handler f := intros m size ?; unfold f, check_locate; rewrite ?read_u16_take by lia; by within.

Lemma tracker_add_within : reads_within 36 (add s).
Proof. handler add. Qed.
Lemma tracker_reduce_within kind : reads_within 23 (fun m => reduce s m (read_u32 (m +! 19)) kind).
Proof. handler reduce. Qed.
Lemma tracker_erase_within : reads_within 19 (erase s).
Proof. handler erase. Qed.
Lemma tracker_replace_within : reads_within 35 (replace s).
Proof. handler replace. Qed.
End tracker.

Lemma tracker_within s m size :
  0 <= size ->
  OrderLifecycle.on_message s (take (Z.to_nat size) m) size = OrderLifecycle.on_message s m size.
Proof.
  intros Hs. unfold OrderLifecycle.on_message. destruct (Z.eqb_spec size 0) as [|Hz]; [done|].
  rewrite byte_at_take by lia.
  destruct (Z.eqb_spec size (expected_message_size (byte_at m 0))) as [He|]; [|by repeat case_match].
  pose proof (tracker_reduce_within s) as Hreduce.
  set (t := byte_at m 0) in *. clearbody t.
  destruct (Z.eqb_spec t (chr "A")) as [->|_]; [apply tracker_add_within; rewrite He; by vm_compute|].
  destruct (Z.eqb_spec t (chr "F")) as [->|_]; [apply tracker_add_within; rewrite He; by vm_compute|].
  destruct (Z.eqb_spec t (chr "E")) as [->|_]; [apply Hreduce; rewrite He; by vm_compute|].
  destruct (Z.eqb_spec t (chr "C")) as [->|_]; [apply Hreduce; rewrite He; by vm_compute|]. cbn [orb].
  destruct (Z.eqb_spec t (chr "X")) as [->|_]; [apply Hreduce; rewrite He; by vm_compute|].
  destruct (Z.eqb_spec t (chr "D")) as [->|_]; [apply tracker_erase_within; rewrite He; by vm_compute|].
  destruct (Z.eqb_spec t (chr "U")) as [->|_]; [apply tracker_replace_within; rewrite He; by vm_compute|done].
Qed.

(** ** The symbol field *)

Lemma trim_loop_ext n p q :
  (forall i, 0 <= i < Z.of_nat n -> byte_at p i = byte_at q i) -> trim_loop p n = trim_loop q n.
Proof.
  induction n as [|n IH]; intros Heq; cbn [trim_loop]; [done|].
  rewrite Heq by lia. case_match; [|done]. apply IH. intros. apply Heq. lia.
Qed.

Lemma trim_loop_le n p : (trim_loop p n <= n)%nat.
Proof. induction n as [|n IH]; cbn; [done|]. case_match; lia. Qed.

Lemma trimmed_within m size :
  19 <= size -> trimmed_symbol (take (Z.to_nat size) m +! 11) = trimmed_symbol (m +! 11).
Proof.
  intros Hs. unfold trimmed_symbol.
  rewrite (trim_loop_ext 8 (take (Z.to_nat size) m +! 11) (m +! 11)).
  - pose proof (trim_loop_le 8 (m +! 11)). unfold advance in *. rewrite skipn_firstn_comm, take_take.
    f_equal. lia.
  - intros i Hi. apply byte_at_take_advance; lia.
Qed.

(** Whether a record is the stock directory message of the symbol. *)
Definition names_symbol (symbol m : list Z) : bool :=
  (byte_at m 0 =? chr "R") && (alen m =? 39) && bool_decide (trimmed_symbol (m +! 11) = symbol).
