(* ===== verification/ReplayProperties.v ===== *)
(** * Properties of the differential replay

    On any well-framed file of regular messages both adapters publish the same
    events, and the tool says so. *)

From Stdlib Require Import Ascii.
From S2P Require Import Prelude OpenAddressing FixedHashTable Itch50 Samples Binary64 WtsTypes WtsAdapter.
From S2P Require Import UftTypes UftAdapter UftAdapterFacts Recorder Engine HistoricalFile FileProperties.
From S2P Require Import Replay ReplayFacts ReplaySteps Within.
Import itch50.
Import (hints) WtsAdapterStats WtsOrder UftAdapterStats Comparison DifferentialReplay.

(** ** The replay *)

Section replay.
Context (symbol : list Z) (trading_date order_capacity match_capacity : Z).

Abbreviation names_symbol := (names_symbol symbol).

Abbreviation create := (DifferentialReplay.create symbol trading_date order_capacity match_capacity).
Abbreviation visit := (DifferentialReplay.visit symbol trading_date order_capacity match_capacity).
Abbreviation visit_all := (DifferentialReplay.visit_all symbol trading_date order_capacity match_capacity).

Lemma create_within s m size : create s (take (Z.to_nat size) m) size = create s m size.
Proof.
  unfold DifferentialReplay.create. destruct (Z.eqb_spec size 39) as [->|]; [|by rewrite !andb_false_r].
  by rewrite byte_at_take, trimmed_within, read_u16_take by lia.
Qed.

Lemma visit_shown s d : visit s (shown d) = visit s d.
Proof.
  destruct d as [m size]. unfold shown, DifferentialReplay.visit. cbn [fst snd]. rewrite create_within.
  destruct (create s m size) as [s'|]; [|done]. cbn [mbind option_bind].
  destruct (DifferentialReplay.adapters s') as [[r b]|]; [|done].
  destruct (Z.leb_spec 11 size); [|done]. cbn [andb]. rewrite read_u16_take by lia.
  rewrite reference_within. destruct (PsxWtsAdapter.on_message r m size) as [r' calls].
  by rewrite candidate_within.
Qed.

Lemma visit_all_shown s calls : visit_all s (map shown calls) = visit_all s calls.
Proof.
  revert s. induction calls as [|d calls IH]; intros s; cbn [map DifferentialReplay.visit_all]; [done|].
  rewrite visit_shown. destruct (visit s d); [apply IH|done].
Qed.

(** Between two messages. *)
Record replaying (room : Z) (s : DifferentialReplay.t) : Prop := {
  replaying_comparison : awaits (DifferentialReplay.comparison s) None None;
  replaying_engine : DifferentialReplay.engine s = ready;
  replaying_adapters : match DifferentialReplay.adapters s with
    | Some (r, b) => agrees room r b /\ sound 1 b
    | None => True end
}.

Hypothesis Horders : 1 <= order_capacity <= 2 ^ 62.
Hypothesis Hmatches : 1 <= match_capacity <= 2 ^ 62.

Lemma create_replaying room s m :
  replaying room s -> room <= order_capacity -> room <= match_capacity ->
  exists s', create s m (alen m) = Some s' /\ replaying room s' /\
    (names_symbol m = true \/ is_Some (DifferentialReplay.adapters s) -> is_Some (DifferentialReplay.adapters s')).
Proof.
  intros Hs Ho Hm. unfold DifferentialReplay.create, Within.names_symbol.
  destruct (_ && bool_decide _); [|exists s; split_and!; [done|done|by intros [|]]].
  destruct (make_agrees symbol trading_date 1 (read_u16 (m +! 1)) order_capacity match_capacity room)
    as (b & -> & Ha & Hsound & _); try done. cbn [mbind option_bind].
  eexists. split; [done|]. split; [|by eexists]. destruct Hs. by constructor.
Qed.

Lemma visit_replaying room s m :
  replaying room s -> 0 < room <= order_capacity -> room <= match_capacity ->
  Forall is_byte m -> regular m = true ->
  exists s', visit s (sized m) = Some s' /\ replaying (room - 1) s' /\
    (names_symbol m = true \/ is_Some (DifferentialReplay.adapters s) -> is_Some (DifferentialReplay.adapters s')).
Proof.
  intros Hs Ho Hm Hb Hreg.
  destruct (create_replaying room s m Hs ltac:(lia) Hm) as (s1 & Hc & [Hcmp Heng Had] & Hsome).
  unfold sized, DifferentialReplay.visit. rewrite Hc. cbn [mbind option_bind].
  destruct (DifferentialReplay.adapters s1) as [[r b]|] eqn:Ea.
  2: { exists s1. split_and!; [done|constructor; by rewrite ?Ea|by rewrite Ea]. }
  destruct (_ && _).
  2: { exists s1. split_and!; [done| |by rewrite Ea]. constructor; rewrite ?Ea; [done|done|].
       destruct Had. split; [|done]. eapply agrees_less; [|done]. lia. }
  destruct Had as [Had Hsound].
  destruct (on_message_step room r b m (alen m) Had ltac:(lia) Hb Hreg) as (b' & events & Hpub & Ha & Hev & Hbrief).
  rewrite Heng. destruct (PsxWtsAdapter.on_message r m (alen m)) as [r' calls]. cbn [fst snd] in *.
  pose proof (candidate_compares b (Some m) (alen m) (fold_left Comparison.observe calls (DifferentialReplay.comparison s1))
    Hsound) as Hcand.
  rewrite (Hpub []) in Hcand. destruct Hcand as [-> Hsound']. eexists. split; [done|]. split; [|by eexists].
  constructor; cbn; [by apply comparison_finish_ok, comparison_passes|done|done].
Qed.

Lemma visit_all_replaying room s records :
  replaying room s -> alen records <= room <= order_capacity -> room <= match_capacity ->
  Forall (fun m => Forall is_byte m /\ regular m = true) records ->
  exists s', visit_all s (map sized records) = Some s' /\ replaying 0 s' /\
    (Exists (fun m => names_symbol m = true) records \/ is_Some (DifferentialReplay.adapters s) ->
     is_Some (DifferentialReplay.adapters s')).
Proof.
  intros Hs Ho Hm Hr. revert room s Hs Ho Hm. unfold alen.
  induction Hr as [|m records [Hb Hreg] Hr IH]; intros room s Hs Ho Hm; cbn [map DifferentialReplay.visit_all].
  - exists s. split_and!; [done| |by intros [?%Exists_nil|]]. destruct Hs as [H1 H2 H3]. constructor; [done|done|].
    case_match; [|done]. case_match. destruct H3 as [H3 Hsound]. split; [|done].
    eapply agrees_less; [|exact H3]. simpl in Ho. lia.
  - cbn [length] in Ho.
    destruct (visit_replaying room s m Hs ltac:(lia) Hm Hb Hreg) as (s1 & -> & Hs1 & Hsome). cbn [mbind option_bind].
    destruct (IH (room - 1) s1 Hs1 ltac:(lia) ltac:(lia)) as (s2 & -> & Hs2 & Hsome2).
    exists s2. split_and!; [done|done|]. intros [[?|?]%Exists_cons|?]; auto.
Qed.
End replay.

Lemma initial_replaying room :
  replaying room (DifferentialReplay.mk Comparison.make ready None 0 0).
Proof. by constructor. Qed.

(** The tool's judgement of what it has seen. *)
Lemma replaying_verdict room s r b :
  replaying room s -> DifferentialReplay.adapters s = Some (r, b) ->
  DifferentialReplay.verdict s r b = (if NasdaqItchUftAdapter.active_orders b =? 0 then 0 else 3) /\
  PsxWtsAdapter.active_orders r = NasdaqItchUftAdapter.active_orders b.
Proof.
  intros [Hc _ Ha] Had. rewrite Had in Ha. destruct Ha as [Ha _]. split; [|by destruct (agrees_active _ _ _ Ha)].
  unfold DifferentialReplay.verdict, NasdaqItchUftAdapter.stats, PsxWtsAdapter.stats.
  rewrite (counts_equal_lists _ _ (agrees_counts _ _ _ Ha)).
  rewrite (awaits_mismatches _ _ _ Hc), (awaits_ordering _ _ _ Hc).
  rewrite (agrees_capacity _ _ _ Ha). done.
Qed.

(** C28: the replay of a well-framed file of regular messages, with tables for
    as many orders and matches as it has messages, finds no difference between
    the two adapters: whatever chunks the reads return, both publish the same
    orders and transactions in the same order, field for field, prices through
    the double and back, and count alike; the exit code is 0, or 3 when orders
    are left. Only a failing read prevents it. *)
Theorem replay_finds_no_difference {F} `{PosixFileLaws F} fuel f symbol trading_date order_capacity
    match_capacity records :
  unread f = frame records -> Forall record_ok records -> alen (unread f) < 2 ^ 64 ->
  (enough f <= fuel)%nat ->
  Forall (fun m => regular m = true) records -> Exists (fun m => names_symbol symbol m = true) records ->
  alen records <= order_capacity <= 2 ^ 62 -> alen records <= match_capacity <= 2 ^ 62 ->
  exists calls ending, scan_historical_file fuel (Some f) = Some (calls, ending) /\
    let exit := DifferentialReplay.run symbol trading_date order_capacity match_capacity fuel (Some f) in
    (ending = inr read_failed /\ exit = Some 1) \/
    exists s r b,
      DifferentialReplay.visit_all symbol trading_date order_capacity match_capacity
        (DifferentialReplay.mk Comparison.make ready None 0 0) calls = Some s /\
      DifferentialReplay.adapters s = Some (r, b) /\
      Comparison.mismatches (DifferentialReplay.comparison s) = 0 /\
      Comparison.ordering_errors (DifferentialReplay.comparison s) = 0 /\
      DifferentialReplay.counts_equal (PsxWtsAdapter.stats r) (NasdaqItchUftAdapter.stats b) = true /\
      PsxWtsAdapter.active_orders r = NasdaqItchUftAdapter.active_orders b /\
      exit = Some (if NasdaqItchUftAdapter.active_orders b =? 0 then 0 else 3).
Proof.
  intros Hu Hrec Hlen Hfuel Hreg Hsym Ho Hm.
  assert (Forall is_byte (unread f)) as Hb by (rewrite Hu; by apply frame_bytes).
  destruct (scan_ok fuel f Hb Hlen Hfuel) as (calls & ending & Hscan & Hs).
  exists calls, ending. split; [done|]. unfold scanned in Hs. rewrite Hu, unframe_frame in Hs by done.
  cbn zeta. unfold DifferentialReplay.run. rewrite setup_ready, Hscan. cbn [mbind option_bind].
  assert (1 <= alen records) as Hone.
  { destruct Hsym; unfold alen; cbn; lia. }
  destruct Hs as [[-> Hpre]|[Hcalls ->]].
  - left. split; [done|]. by case_match.
  - right. rewrite <- visit_all_shown, Hcalls.
    destruct (visit_all_replaying symbol trading_date order_capacity match_capacity ltac:(lia) ltac:(lia)
      (alen records) _ records (initial_replaying _)) as (s & Hv & Hok & Hsome); [lia|lia| |].
    { eapply Forall_and; split; [|exact Hreg]. eapply Forall_impl; [exact Hrec|]. by intros m []. }
    destruct (Hsome (or_introl Hsym)) as [[r b] Hrb].
    destruct (replaying_verdict _ _ _ _ Hok Hrb) as [Hverdict Hact].
    exists s, r, b. rewrite Hv, Hrb. destruct Hok as [Hc _ Ha]. rewrite Hrb in Ha. destruct Ha as [Ha _].
    split_and!; try done; [apply Hc|apply Hc|by apply counts_equal_lists, Ha|].
    unfold finish. cbv beta iota zeta. by rewrite Hverdict.
Qed.

(** Trades, cancellations, a repeated match, a bust and an order that does not
    exist. *)
Definition replayed : list (list Z) := [
  foreign_message 9; directory_message; add_message 1; execute_message 1 5; execute_message 1 5;
  add_message 2; cancel_message 2; delete_message 8; replace_message 2 4; delete_message 4;
  cancel_message 1; delete_message 1].

Definition replayed_file : Script := mkScript (frame replayed) [Chunk 5; Signal; Chunk 40].

Lemma replayed_ok : Forall record_ok replayed.
Proof.
  unfold replayed. repeat (apply Forall_cons_2; [split; [by vm_compute|by apply bytes_ok]|]).
  apply Forall_nil_2.
Qed.

Lemma replay_finds_no_difference_witness :
  exists calls ending, scan_historical_file 800 (Some replayed_file) = Some (calls, ending) /\
    let exit := DifferentialReplay.run [65] 20190530 16 16 800 (Some replayed_file) in
    (ending = inr read_failed /\ exit = Some 1) \/
    exists s r b,
      DifferentialReplay.visit_all [65] 20190530 16 16
        (DifferentialReplay.mk Comparison.make ready None 0 0) calls = Some s /\
      DifferentialReplay.adapters s = Some (r, b) /\
      Comparison.mismatches (DifferentialReplay.comparison s) = 0 /\
      Comparison.ordering_errors (DifferentialReplay.comparison s) = 0 /\
      DifferentialReplay.counts_equal (PsxWtsAdapter.stats r) (NasdaqItchUftAdapter.stats b) = true /\
      PsxWtsAdapter.active_orders r = NasdaqItchUftAdapter.active_orders b /\
      exit = Some (if NasdaqItchUftAdapter.active_orders b =? 0 then 0 else 3).
Proof.
  apply (replay_finds_no_difference 800 replayed_file [65] 20190530 16 16 replayed);
    [reflexivity|exact replayed_ok|by vm_compute|apply Nat.leb_le; by vm_compute| | |by vm_compute|by vm_compute].
  - unfold replayed. repeat (apply Forall_cons_2; [by vm_compute|]). apply Forall_nil_2.
  - unfold replayed. apply Exists_cons. right. apply Exists_cons. left. by vm_compute.
Defined.

(** What the replay of these messages counts. *)
Lemma replayed_verdict :
  match DifferentialReplay.visit_all [65] 20190530 16 16
    (DifferentialReplay.mk Comparison.make ready None 0 0) (map sized replayed) with
  | Some s =>
      match DifferentialReplay.adapters s with
      | Some (r, b) =>
          DifferentialReplay.verdict s r b = 0 /\ NasdaqItchUftAdapter.active_orders b = 0 /\
          reference_counts (PsxWtsAdapter.stats r) = [3; 5; 1; 4; 0; 1; 0; 0; 0; 2]
      | None => False
      end
  | None => False
  end.
Proof. vm_compute. split_and!; reflexivity. Qed.
