(* ===== verification/MoldUdp64.v ===== *)
(** * include/qtrader/MoldUdp64.hpp

    The MoldUDP64 downstream packets: header, two-pass parser, sequence tracker
    and request packets.  A datagram is a nullable pointer to bytes and a size;
    the parser's callback is modelled by the sequence of blocks it is given. *)

From Stdlib Require Import Ascii.
From S2P Require Import Prelude Itch50.
Import itch50.

Module moldudp64.

Definition kSessionBytes : Z := 10.
Definition kHeaderBytes : Z := 20.
Definition kEndOfSession : Z := 65535.

Inductive PacketKind := data | heartbeat | end_of_session.
#[global] Instance packet_kind_eq_dec : EqDecision PacketKind.
Proof. solve_decision. Defined.

Module DownstreamHeader.
Record t := mk {
  session : list Z;
  first_sequence : Z;
  message_count : Z
}.
Definition empty : t := mk (replicate 10 0) 0 0.

Definition kind (h : t) : PacketKind :=
  if message_count h =? 0 then heartbeat
  else if message_count h =? kEndOfSession then end_of_session
  else data.
End DownstreamHeader.

Inductive ParseError :=
  | none
  | header_truncated
  | message_length_truncated
  | message_truncated
  | special_packet_has_payload
  | trailing_bytes
  | sequence_overflow.
#[global] Instance parse_error_eq_dec : EqDecision ParseError.
Proof. solve_decision. Defined.

Module ParseResult.
Record t := mk {
  header : DownstreamHeader.t;
  error : ParseError;
  bytes_consumed : Z;
  messages_visited : Z
}.
(** [operator bool] *)
Definition ok (r : t) : bool := bool_decide (error r = none).
End ParseResult.

(** One call of the parser's callback: [message] points into the datagram. *)
Record Block := mkBlock { block_sequence : Z; block_message : list Z; block_size : Z }.

Definition decode_header (packet : option (list Z)) (size : Z) : DownstreamHeader.t * bool :=
  match packet with
  | None => (DownstreamHeader.empty, false)
  | Some p =>
      if size <? kHeaderBytes then (DownstreamHeader.empty, false)
      else (DownstreamHeader.mk (take 10 p) (read_u64 (p +! 10)) (read_u16 (p +! 18)), true)
  end.

(** Pass one, over the remaining [n] messages: the error and the offset. *)
Fixpoint validate (p : list Z) (size : Z) (n : nat) (offset : Z) : ParseError * Z :=
  match n with
  | O => (none, offset)
  | S n' =>
      if u64 (size - offset) <? 2 then (message_length_truncated, offset)
      else
        let message_size := read_u16 (p +! offset) in
        let offset := u64 (offset + 2) in
        if u64 (size - offset) <? message_size then (message_truncated, offset)
        else validate p size n' (u64 (offset + message_size))
  end.

(** Pass two: the callbacks and the offset. *)
Fixpoint visit (p : list Z) (first : Z) (n : nat) (i offset : Z) : list Block * Z :=
  match n with
  | O => ([], offset)
  | S n' =>
      let message_size := read_u16 (p +! offset) in
      let offset := u64 (offset + 2) in
      let block := mkBlock (u64 (first + i)) (p +! offset) message_size in
      let '(blocks, offset) := visit p first n' (i + 1) (u64 (offset + message_size)) in
      (block :: blocks, offset)
  end.

Definition parse_downstream_packet (packet : option (list Z)) (size : Z) : ParseResult.t * list Block :=
  let '(header, decoded) := decode_header packet size in
  let result error consumed visited := ParseResult.mk header error consumed visited in
  match packet, decoded with
  | Some p, true =>
      let count := DownstreamHeader.message_count header in
      if (count =? 0) || (count =? kEndOfSession) then
        (result (if size =? kHeaderBytes then none else special_packet_has_payload) kHeaderBytes 0, [])
      else if u64_max - (count - 1) <? DownstreamHeader.first_sequence header then
        (result sequence_overflow kHeaderBytes 0, [])
      else
        let '(error, offset) := validate p size (Z.to_nat count) kHeaderBytes in
        if negb (bool_decide (error = none)) then (result error offset 0, [])
        else if negb (offset =? size) then (result trailing_bytes offset 0, [])
        else
          let '(blocks, offset) :=
            visit p (DownstreamHeader.first_sequence header) (Z.to_nat count) 0 kHeaderBytes in
          (result none offset (u16 (alen blocks)), blocks)
  | _, _ => (result header_truncated 0 0, [])
  end.

(** ** Sequence tracking *)

Module SequenceState.
Inductive t := in_order | overlap | duplicate | gap | session_mismatch | sequence_overflow.
#[global] Instance sequence_state_eq_dec : EqDecision t.
Proof. solve_decision. Defined.
End SequenceState.

Module SequenceDecision.
Record t := mk {
  state : SequenceState.t;
  skip_messages : Z;
  expected_sequence : Z;
  gap_messages : Z
}.
Definition may_process (d : t) : bool :=
  match state d with SequenceState.in_order | SequenceState.overlap => true | _ => false end.
End SequenceDecision.

Module SequenceTracker.
Record t := mk { session_ : list Z; next_sequence_ : Z; initialized_ : bool }.
#[global] Instance eta_tracker : Eta t := fun s =>
  mk (session_ s) (next_sequence_ s) (initialized_ s).

Definition fresh : t := mk (replicate 10 0) 0 false.

(** The decision of an initialised tracker of the header's session. *)
Definition decide_sequence (s : t) (h : DownstreamHeader.t) : SequenceDecision.t :=
  let next := next_sequence_ s in
  let first := DownstreamHeader.first_sequence h in
  let carries_data := bool_decide (DownstreamHeader.kind h = data) in
  let count := if carries_data then DownstreamHeader.message_count h else 0 in
  if negb (count =? 0) && (u64_max - count <? first)
  then SequenceDecision.mk SequenceState.sequence_overflow 0 next 0
  else
    let packet_end := u64 (first + count) in
    if next <? first then SequenceDecision.mk SequenceState.gap 0 next (u64 (first - next))
    else if negb carries_data then
      SequenceDecision.mk (if first =? next then SequenceState.in_order else SequenceState.duplicate)
        0 next 0
    else if packet_end <=? next then
      SequenceDecision.mk SequenceState.duplicate (DownstreamHeader.message_count h) next 0
    else if first <? next then
      SequenceDecision.mk SequenceState.overlap (u16 (next - first)) next 0
    else SequenceDecision.mk SequenceState.in_order 0 next 0.

Definition inspect (s : t) (h : DownstreamHeader.t) : t * SequenceDecision.t :=
  if negb (initialized_ s) then
    let s := mk (DownstreamHeader.session h) (DownstreamHeader.first_sequence h) true in
    (s, decide_sequence s h)
  else if negb (bool_decide (session_ s = DownstreamHeader.session h)) then
    (s, SequenceDecision.mk SequenceState.session_mismatch 0 (next_sequence_ s) 0)
  else (s, decide_sequence s h).

Definition commit (s : t) (h : DownstreamHeader.t) (d : SequenceDecision.t) : t :=
  if negb (SequenceDecision.may_process d) || negb (bool_decide (DownstreamHeader.kind h = data)) then s
  else s <| next_sequence_ :=
         u64 (DownstreamHeader.first_sequence h + DownstreamHeader.message_count h) |>.
End SequenceTracker.

(** ** Encoding *)

Definition encode_u16 (value : Z) : list Z := [u8 (Z.shiftr value 8); u8 value].
Definition encode_u64 (value : Z) : list Z :=
  map (fun i => u8 (Z.shiftr value (56 - i * 8))) (seqZ 0 8).

Definition make_request_packet (session : list Z) (first_sequence requested_message_count : Z) : list Z :=
  session ++ encode_u64 first_sequence ++ encode_u16 requested_message_count.

End moldudp64.
