(* ===== verification/MoldFacts.v ===== *)
(** * The MoldUDP64 parser against the wire format

    [datagram session first messages] is the wire format; the parser accepts
    exactly its values and visits exactly their messages, and it reads nothing
    beyond the datagram. *)

From Stdlib Require Import Ascii.
From S2P Require Import Prelude Itch50 MoldUdp64.
Import itch50 moldudp64.

(** ** The wire format *)

Definition encode_block (m : list Z) : list Z := be_bytes 2 (alen m) ++ m.
Definition encode_blocks (ms : list (list Z)) : list Z := concat (map encode_block ms).
Definition datagram (session : list Z) (first : Z) (ms : list (list Z)) : list Z :=
  session ++ be_bytes 8 first ++ be_bytes 2 (alen ms) ++ encode_blocks ms.

(** What a callback may read through its pointer. *)
Definition block_bytes (b : Block) : list Z := take (Z.to_nat (block_size b)) (block_message b).
Definition content (b : Block) : Z * list Z := (block_sequence b, block_bytes b).

Definition fits_u16 (m : list Z) : Prop := alen m < 2 ^ 16.

Lemma alen_app {A} (l k : list A) : alen (l ++ k) = alen l + alen k.
Proof. unfold alen. rewrite length_app. lia. Qed.

Lemma alen_nonneg {A} (l : list A) : 0 <= alen l.
Proof. unfold alen. lia. Qed.

Lemma alen_be_bytes n v : alen (be_bytes n v) = Z.of_nat n.
Proof. unfold alen. by rewrite length_be_bytes. Qed.

Lemma alen_cons {A} (x : A) l : alen (x :: l) = 1 + alen l.
Proof. unfold alen. simpl. lia. Qed.

Lemma alen_advance p n : 0 <= n <= alen p -> alen (p +! n) = alen p - n.
Proof. unfold alen, advance. rewrite length_drop. lia. Qed.

Lemma encode_blocks_cons m ms : encode_blocks (m :: ms) = be_bytes 2 (alen m) ++ m ++ encode_blocks ms.
Proof. unfold encode_blocks. cbn [map concat]. unfold encode_block at 1. by rewrite <- app_assoc. Qed.

Lemma take_alen_app {A} (l k : list A) : take (Z.to_nat (alen l)) (l ++ k) = l.
Proof. unfold alen. by rewrite Nat2Z.id, take_app_length. Qed.

(** ** One block *)

Lemma read_block_size p offset m rest :
  Forall is_byte p -> p +! offset = be_bytes 2 (alen m) ++ rest -> fits_u16 m ->
  read_u16 (p +! offset) = alen m.
Proof.
  intros Hp E Hm. unfold fits_u16 in Hm. rewrite read_u16_be by (by apply advance_bytes).
  rewrite E, be_value_bytes. apply Z.mod_small. pose proof (alen_nonneg m). change (256 ^ Z.of_nat 2) with (2 ^ 16).
  lia.
Qed.

Lemma advance_block p offset m rest :
  0 <= offset -> p +! offset = be_bytes 2 (alen m) ++ m ++ rest ->
  p +! (offset + 2) = m ++ rest /\ p +! (offset + 2 + alen m) = rest.
Proof.
  intros Ho E. assert (p +! (offset + 2) = m ++ rest) as E2.
  { rewrite <- advance_advance, E by lia. by apply advance_app. }
  split; [done|]. rewrite <- advance_advance, E2 by (pose proof (alen_nonneg m); lia). by apply advance_app.
Qed.

(** The bytes at an offset are a block when the size field fits. *)
Lemma block_at p size offset :
  Forall is_byte p -> 0 <= offset -> size <= alen p -> offset + 2 <= size ->
  offset + 2 + read_u16 (p +! offset) <= size ->
  exists m, alen m = read_u16 (p +! offset) /\ fits_u16 m /\
    p +! offset = be_bytes 2 (alen m) ++ m ++ (p +! (offset + 2 + alen m)).
Proof.
  intros Hp Ho Hs H2 Hm. set (n := read_u16 (p +! offset)) in *.
  assert (0 <= n < 2 ^ 16) as Hn.
  { unfold n. rewrite read_u16_be by (by apply advance_bytes).
    pose proof (be_value_bound (p +! offset) 2 (advance_bytes _ _ Hp)). change (256 ^ Z.of_nat 2) with (2 ^ 16) in *. lia. }
  exists (take (Z.to_nat n) (p +! (offset + 2))).
  assert (alen (take (Z.to_nat n) (p +! (offset + 2))) = n) as Hl.
  { unfold alen, advance in *. rewrite length_take, length_drop. lia. }
  split_and!; [done|unfold fits_u16; lia|]. rewrite Hl.
  assert (be_bytes 2 n = take 2 (p +! offset)) as ->.
  { unfold n. rewrite read_u16_be by (by apply advance_bytes). apply be_bytes_value; [by apply advance_bytes|].
    rewrite alen_advance by lia. lia. }
  assert (p +! (offset + 2) = drop 2 (p +! offset)) as E2 by (by rewrite <- advance_advance by lia).
  assert (p +! (offset + 2 + n) = drop (Z.to_nat n) (p +! (offset + 2))) as E3
    by (by rewrite <- advance_advance by lia).
  by rewrite E3, take_drop, E2, take_drop.
Qed.

(** ** The two passes *)

Section passes.
Context (p : list Z) (size : Z).
Hypothesis Hp : Forall is_byte p.
Hypothesis Hsize : size <= alen p /\ size < 2 ^ 64.

Lemma validate_blocks n offset offset' :
  0 <= offset <= size -> validate p size n offset = (none, offset') ->
  exists ms, length ms = n /\ Forall fits_u16 ms /\ offset' = offset + alen (encode_blocks ms) /\
    offset' <= size /\ p +! offset = encode_blocks ms ++ (p +! offset').
Proof.
  revert offset. induction n as [|n IH]; intros offset Ho; cbn [validate].
  { intros [= <-]. exists []. change (alen (encode_blocks [])) with 0. split_and!; try done; lia. }
  rewrite wrap_small by lia. destruct (Z.ltb_spec (size - offset) 2); [done|].
  rewrite (wrap_small 64 (offset + 2)) by lia. rewrite wrap_small by lia.
  destruct (Z.ltb_spec (size - (offset + 2)) (read_u16 (p +! offset))) as [|Hfit]; [done|].
  destruct (block_at p size offset) as (m & Hm & Hf & E); [done|lia..|].
  rewrite <- Hm in *. pose proof (alen_nonneg m). rewrite wrap_small by lia.
  intros Hv. destruct (IH (offset + 2 + alen m) ltac:(lia) Hv) as (ms & <- & Hfs & -> & Hle & E').
  exists (m :: ms). rewrite encode_blocks_cons, !alen_app, alen_be_bytes. split_and!; [done|by constructor|lia|lia|].
  rewrite E at 1. rewrite E' at 1. rewrite <- !app_assoc. do 4 (f_equal; try lia).
Qed.

Lemma validate_encoded ms offset rest :
  0 <= offset -> p +! offset = encode_blocks ms ++ rest -> Forall fits_u16 ms ->
  offset + alen (encode_blocks ms) <= size ->
  validate p size (length ms) offset = (none, offset + alen (encode_blocks ms)).
Proof.
  revert offset. induction ms as [|m ms IH]; intros offset Ho E Hf Hle; cbn [length validate].
  { change (alen (encode_blocks [])) with 0. f_equal. lia. }
  apply Forall_cons in Hf as [Hm Hf]. rewrite encode_blocks_cons, !alen_app, alen_be_bytes in *.
  pose proof (alen_nonneg m). pose proof (alen_nonneg (encode_blocks ms)).
  rewrite <- !app_assoc in E. destruct (advance_block _ _ _ _ Ho E) as [_ E2].
  rewrite (read_block_size p offset m (m ++ encode_blocks ms ++ rest) Hp E Hm).
  rewrite (wrap_small 64 (size - offset)) by lia. destruct (Z.ltb_spec (size - offset) 2); [lia|].
  rewrite (wrap_small 64 (offset + 2)), (wrap_small 64 (size - (offset + 2))) by lia.
  destruct (Z.ltb_spec (size - (offset + 2)) (alen m)); [lia|].
  rewrite wrap_small by lia. rewrite (IH (offset + 2 + alen m) ltac:(lia) E2 Hf) by lia. f_equal. lia.
Qed.

(** The callbacks of pass two, on encoded blocks. *)
Lemma visit_encoded ms first i offset rest :
  0 <= offset -> p +! offset = encode_blocks ms ++ rest -> Forall fits_u16 ms ->
  offset + alen (encode_blocks ms) <= size -> 0 <= first + i -> first + i + alen ms <= 2 ^ 64 ->
  map content (visit p first (length ms) i offset).1 = zip (seqZ (first + i) (alen ms)) ms /\
  (visit p first (length ms) i offset).2 = offset + alen (encode_blocks ms) /\
  Forall (fun b => alen (block_bytes b) = block_size b) (visit p first (length ms) i offset).1.
Proof.
  revert i offset. induction ms as [|m ms IH]; intros i offset Ho E Hf Hle Hi Hmax; cbn [length visit].
  { change (alen (encode_blocks [])) with 0. simpl. split_and!; [done|lia|done]. }
  apply Forall_cons in Hf as [Hm Hf]. rewrite encode_blocks_cons, !alen_app, alen_be_bytes in *.
  rewrite alen_cons in *. pose proof (alen_nonneg m). pose proof (alen_nonneg ms).
  pose proof (alen_nonneg (encode_blocks ms)).
  rewrite <- !app_assoc in E. destruct (advance_block _ _ _ _ Ho E) as [E1 E2].
  rewrite (read_block_size p offset m (m ++ encode_blocks ms ++ rest) Hp E Hm).
  rewrite (wrap_small 64 (offset + 2)), (wrap_small 64 (offset + 2 + alen m)), (wrap_small 64 (first + i)) by lia.
  destruct (IH (i + 1) (offset + 2 + alen m) ltac:(lia) E2 Hf ltac:(lia) ltac:(lia) ltac:(lia)) as (IH1 & IH2 & IH3).
  destruct (visit p first (length ms) (i + 1) (offset + 2 + alen m)) as [blocks offset'].
  cbn [fst snd] in *.
  assert (block_bytes (mkBlock (first + i) (p +! (offset + 2)) (alen m)) = m) as Hbytes.
  { unfold block_bytes. cbn [block_size block_message]. rewrite E1. apply take_alen_app. }
  split_and!; [|lia|constructor; [by rewrite Hbytes|done]]. cbn [map]. rewrite IH1. rewrite (seqZ_cons (first + i)) by lia.
  cbn [zip zip_with]. replace (Z.pred (1 + alen ms)) with (alen ms) by lia.
  replace (first + (i + 1)) with (Z.succ (first + i)) by lia. f_equal.
  unfold content. by rewrite Hbytes.
Qed.
End passes.

(** ** The header *)

Definition header_bytes (session : list Z) (first count : Z) : list Z :=
  session ++ be_bytes 8 first ++ be_bytes 2 count.

Lemma datagram_header session first ms :
  datagram session first ms = header_bytes session first (alen ms) ++ encode_blocks ms.
Proof. unfold datagram, header_bytes. by rewrite <- !app_assoc. Qed.

Lemma alen_header_bytes session first count : alen session = 10 -> alen (header_bytes session first count) = 20.
Proof. intros Hs. unfold header_bytes. rewrite !alen_app, Hs, !alen_be_bytes. done. Qed.

(** A buffer of twenty bytes starts with the header it decodes to. *)
Lemma header_at p :
  Forall is_byte p -> 20 <= alen p ->
  p = header_bytes (take 10 p) (read_u64 (p +! 10)) (read_u16 (p +! 18)) ++ (p +! 20).
Proof.
  intros Hp Hl. unfold header_bytes.
  rewrite read_u64_be, read_u16_be by (by apply advance_bytes).
  rewrite !be_bytes_value by (try (by apply advance_bytes); rewrite alen_advance; lia).
  unfold advance. rewrite <- !app_assoc. change (Z.to_nat 10) with 10%nat.
  change (Z.to_nat 18) with 18%nat. change (Z.to_nat 20) with 20%nat.
  rewrite <- (take_drop 10 p) at 1. f_equal. rewrite <- (take_drop 8 (drop 10 p)) at 1. f_equal.
  rewrite drop_drop. rewrite <- (take_drop 2 (drop _ p)) at 1. f_equal. by rewrite drop_drop.
Qed.

Lemma decode_header_bytes session first count rest size :
  alen session = 10 -> Forall is_byte session -> Forall is_byte rest ->
  0 <= first < 2 ^ 64 -> 0 <= count < 2 ^ 16 -> 20 <= size ->
  decode_header (Some (header_bytes session first count ++ rest)) size =
    (DownstreamHeader.mk session first count, true).
Proof.
  intros Hs Hb Hr Hf Hc Hsize. unfold decode_header, kHeaderBytes.
  destruct (Z.ltb_spec size 20); [lia|]. unfold header_bytes. rewrite <- !app_assoc.
  assert (Forall is_byte (be_bytes 2 count ++ rest)) by (apply Forall_app; split; [apply be_bytes_ok|done]).
  assert (Forall is_byte (be_bytes 8 first ++ be_bytes 2 count ++ rest))
    by (apply Forall_app; split; [apply be_bytes_ok|done]).
  assert (take 10 (session ++ be_bytes 8 first ++ be_bytes 2 count ++ rest) = session) as ->.
  { unfold alen in Hs. replace 10%nat with (length session) by lia. apply take_app_length. }
  replace 18 with (10 + 8) by lia. rewrite <- advance_advance, !advance_app by (done || lia).
  rewrite read_u64_be, read_u16_be, !be_value_bytes by done.
  rewrite !Z.mod_small; [done|lia|]. change (256 ^ Z.of_nat 8) with (2 ^ 64). lia.
Qed.

(** ** The parser *)

(** What a successful parse of a data packet means. *)
Record parsed_data (p : list Z) (size : Z) (r : ParseResult.t) (blocks : list Block)
    (session : list Z) (first : Z) (ms : list (list Z)) : Prop := {
  parsed_bytes : take (Z.to_nat size) p = datagram session first ms;
  parsed_header : ParseResult.header r = DownstreamHeader.mk session first (alen ms);
  parsed_session : alen session = 10;
  parsed_count : 1 <= alen ms < kEndOfSession;
  parsed_first : 0 <= first /\ first + alen ms <= 2 ^ 64;
  parsed_sizes : Forall fits_u16 ms;
  parsed_contents : map content blocks = zip (seqZ first (alen ms)) ms;
  parsed_consumed : ParseResult.bytes_consumed r = size;
  parsed_visited : ParseResult.messages_visited r = alen ms;
  parsed_whole : Forall (fun b => alen (block_bytes b) = block_size b) blocks
}.

Lemma visit_length p first n i offset : length (visit p first n i offset).1 = n.
Proof.
  revert i offset. induction n as [|n IH]; intros i offset; cbn [visit]; [done|].
  specialize (IH (i + 1) (u64 (u64 (offset + 2) + read_u16 (p +! offset)))).
  destruct (visit p first n _ _) as [blocks o]. simpl in *. by f_equal.
Qed.

(** The three ways a parse ends. *)
Lemma parse_cases p size r blocks :
  Forall is_byte p -> size <= alen p -> size < 2 ^ 64 ->
  parse_downstream_packet (Some p) size = (r, blocks) ->
  (ParseResult.error r <> none /\ blocks = []) \/
  (ParseResult.error r = none /\ DownstreamHeader.kind (ParseResult.header r) <> data /\ blocks = [] /\
   size = 20 /\ (decode_header (Some p) size).1 = ParseResult.header r) \/
  (ParseResult.error r = none /\ DownstreamHeader.kind (ParseResult.header r) = data /\
   exists session first ms, parsed_data p size r blocks session first ms).
Proof.
  intros Hp Hs Hmax. unfold parse_downstream_packet, decode_header, kHeaderBytes.
  destruct (Z.ltb_spec size 20); cbn [fst snd]; [intros [= <- <-]; by left|].
  set (session := take 10 p). set (first := read_u64 (p +! 10)). set (count := read_u16 (p +! 18)).
  cbn [DownstreamHeader.message_count DownstreamHeader.first_sequence].
  assert (0 <= count < 2 ^ 16) as Hcount by (by apply read_u16_range, advance_bytes).
  assert (0 <= first < 2 ^ 64) as Hfirst by (by apply read_u64_range, advance_bytes).
  destruct (_ || _) eqn:Hspecial.
  { intros [= <- <-]. destruct (Z.eqb_spec size 20); [right; left|by left].
    split_and!; try done. unfold DownstreamHeader.kind. cbn [ParseResult.header DownstreamHeader.message_count].
    destruct (count =? 0); [done|]. cbn in Hspecial. by rewrite Hspecial. }
  apply orb_false_iff in Hspecial as [Hc0%Z.eqb_neq Hc1%Z.eqb_neq].
  destruct (Z.ltb_spec (u64_max - (count - 1)) first) as [|Hroom]; [intros [= <- <-]; by left|].
  destruct (validate p size (Z.to_nat count) 20) as [error offset] eqn:Hv.
  destruct (decide (error = none)) as [->|]; [|rewrite bool_decide_false by done; intros [= <- <-]; by left].
  rewrite bool_decide_true by done. cbn [negb].
  destruct (Z.eqb_spec offset size) as [->|]; [cbn [negb]|intros [= <- <-]; by left].
  destruct (validate_blocks p size Hp ltac:(lia) _ 20 size ltac:(lia) Hv) as (ms & Hlen & Hf & Hoff & _ & E).
  assert (alen ms = count) as Hms by (unfold alen; lia).
  destruct (visit_encoded p size Hp ltac:(lia) ms first 0 20 (p +! size) ltac:(lia) E Hf ltac:(lia) ltac:(lia) ltac:(lia))
    as (Hvis & Hend & Hwhole). rewrite Z.add_0_r in Hvis.
  rewrite Hlen in *. destruct (visit p first (Z.to_nat count) 0 20) as [bs off] eqn:Ev.
  intros [= <- <-]. right. right. unfold kEndOfSession in *.
  split_and!; [done| |exists session, first, ms; constructor]; cbn in *; try done; try lia.
  - unfold DownstreamHeader.kind. cbn. unfold kEndOfSession.
    destruct (Z.eqb_spec count 0); [lia|]. by destruct (Z.eqb_spec count 65535).
  - rewrite datagram_header, Hms. rewrite (header_at p Hp) at 1 by lia. fold session first count. rewrite E.
    assert (alen session = 10) as Hses by (unfold session, alen in *; rewrite length_take; lia).
    rewrite app_assoc. rewrite <- (alen_header_bytes session first count Hses) in Hoff.
    rewrite <- alen_app in Hoff. rewrite Hoff. apply take_alen_app.
  - by rewrite Hms.
  - unfold session, alen in *. rewrite length_take. lia.
  - unfold kEndOfSession. lia.
  - pose proof (visit_length p first (Z.to_nat count) 0 20) as Hl. rewrite Ev in Hl. cbn in Hl.
    rewrite wrap_small; unfold alen in *; lia.
Qed.

(** Conversely every datagram is accepted, whatever follows it in the buffer. *)
Lemma parse_datagram session first ms rest size :
  alen session = 10 -> Forall is_byte session -> Forall (Forall is_byte) ms -> Forall is_byte rest ->
  1 <= alen ms < kEndOfSession -> 0 <= first -> first + alen ms <= 2 ^ 64 -> Forall fits_u16 ms ->
  size = alen (datagram session first ms) -> size < 2 ^ 64 ->
  let '(r, blocks) := parse_downstream_packet (Some (datagram session first ms ++ rest)) size in
  ParseResult.error r = none /\ parsed_data (datagram session first ms ++ rest) size r blocks session first ms.
Proof.
  intros Hses Hsb Hmb Hrb Hc Hf0 Hf1 Hfits Hsize Hmax. unfold kEndOfSession in Hc.
  set (p := datagram session first ms ++ rest).
  assert (Forall is_byte (encode_blocks ms)) as Hblocks.
  { clear -Hmb. induction Hmb as [|m ms Hm _ IH]; [constructor|]. rewrite encode_blocks_cons.
    rewrite !Forall_app. split_and!; [apply be_bytes_ok|done..]. }
  assert (Forall is_byte p) as Hp.
  { unfold p. rewrite datagram_header. unfold header_bytes. rewrite !Forall_app.
    split_and!; try done; apply be_bytes_ok. }
  assert (size = 20 + alen (encode_blocks ms)) as Hsz.
  { by rewrite Hsize, datagram_header, alen_app, alen_header_bytes. }
  pose proof (alen_nonneg (encode_blocks ms)). pose proof (alen_nonneg rest).
  assert (alen p = size + alen rest) as Hlen by (unfold p; rewrite alen_app; lia).
  assert (p = header_bytes session first (alen ms) ++ (encode_blocks ms ++ rest)) as Hph
    by (unfold p; by rewrite datagram_header, <- app_assoc).
  assert (p +! 20 = encode_blocks ms ++ rest) as E.
  { rewrite Hph. apply advance_app. by apply alen_header_bytes. }
  assert (decode_header (Some p) size = (DownstreamHeader.mk session first (alen ms), true)) as Hd.
  { rewrite Hph. apply decode_header_bytes; [done|done|by apply Forall_app|lia..]. }
  unfold parse_downstream_packet. rewrite Hd.
  cbn [DownstreamHeader.message_count DownstreamHeader.first_sequence]. unfold kEndOfSession.
  destruct (Z.eqb_spec (alen ms) 0); [lia|]. destruct (Z.eqb_spec (alen ms) 65535); [lia|]. cbn [orb].
  destruct (Z.ltb_spec (u64_max - (alen ms - 1)) first); [lia|].
  replace (Z.to_nat (alen ms)) with (length ms) by (unfold alen; lia). unfold kHeaderBytes.
  rewrite (validate_encoded p size Hp ltac:(lia) ms 20 rest ltac:(lia) E Hfits) by lia.
  rewrite bool_decide_true by done. cbn [negb].
  destruct (Z.eqb_spec (20 + alen (encode_blocks ms)) size); [cbn [negb]|lia].
  destruct (visit_encoded p size Hp ltac:(lia) ms first 0 20 rest ltac:(lia) E Hfits ltac:(lia) ltac:(lia) ltac:(lia))
    as (Hvis & Hend & Hwhole). rewrite Z.add_0_r in Hvis.
  pose proof (visit_length p first (length ms) 0 20) as Hl.
  destruct (visit p first (length ms) 0 20) as [bs off]. cbn [fst snd] in *.
  split; [done|]. constructor; cbn; try done.
  - rewrite Hsize. apply take_alen_app.
  - lia.
  - rewrite wrap_small; unfold alen in *; lia.
Qed.

(** ** Bytes beyond the datagram *)

Section beyond.
Context (p q : list Z).
Hypothesis Hp : Forall is_byte p.

Lemma read_u16_app offset :
  0 <= offset -> offset + 2 <= alen p -> read_u16 ((p ++ q) +! offset) = read_u16 (p +! offset).
Proof.
  intros Ho Hl. unfold read_u16. rewrite !byte_at_advance by lia. by rewrite !byte_at_app_l by lia.
Qed.

Lemma read_u64_app offset :
  0 <= offset -> offset + 8 <= alen p -> read_u64 ((p ++ q) +! offset) = read_u64 (p +! offset).
Proof.
  intros Ho Hl. unfold read_u64. rewrite !byte_at_advance by lia. by rewrite !byte_at_app_l by lia.
Qed.

Lemma validate_app n offset :
  alen p < 2 ^ 64 -> 0 <= offset <= alen p ->
  validate (p ++ q) (alen p) n offset = validate p (alen p) n offset.
Proof.
  intros Hmax. revert offset. induction n as [|n IH]; intros offset Ho; cbn [validate]; [done|].
  rewrite (wrap_small 64 (alen p - offset)) by lia.
  destruct (Z.ltb_spec (alen p - offset) 2); [done|]. rewrite read_u16_app by lia.
  pose proof (read_u16_range (p +! offset) (advance_bytes _ _ Hp)).
  rewrite (wrap_small 64 (offset + 2)), (wrap_small 64 (alen p - (offset + 2))) by lia.
  destruct (Z.ltb_spec (alen p - (offset + 2)) (read_u16 (p +! offset))); [done|].
  rewrite wrap_small by lia. apply IH. lia.
Qed.

Lemma decode_header_app : decode_header (Some (p ++ q)) (alen p) = decode_header (Some p) (alen p).
Proof.
  unfold decode_header, kHeaderBytes. destruct (Z.ltb_spec (alen p) 20); [done|].
  rewrite read_u64_app, read_u16_app by lia. rewrite take_app_le; [done|]. unfold alen in *. lia.
Qed.
End beyond.

Lemma decode_header_range p size h :
  Forall is_byte p -> decode_header (Some p) size = (h, true) ->
  20 <= size /\ 0 <= DownstreamHeader.message_count h < 2 ^ 16 /\
  0 <= DownstreamHeader.first_sequence h < 2 ^ 64.
Proof.
  intros Hp. unfold decode_header, kHeaderBytes. destruct (Z.ltb_spec size 20); [done|].
  intros [= <-]. cbn.
  pose proof (read_u16_range (p +! 18) (advance_bytes _ _ Hp)).
  pose proof (read_u64_range (p +! 10) (advance_bytes _ _ Hp)). lia.
Qed.

Lemma parse_app p q :
  Forall is_byte p -> Forall is_byte q -> alen p < 2 ^ 64 ->
  let '(r, blocks) := parse_downstream_packet (Some p) (alen p) in
  let '(r', blocks') := parse_downstream_packet (Some (p ++ q)) (alen p) in
  r' = r /\ map content blocks' = map content blocks /\
  Forall (fun b => alen (block_bytes b) = block_size b) blocks /\
  (ParseResult.ok r = false -> blocks' = []).
Proof.
  intros Hp Hq Hmax. unfold parse_downstream_packet. rewrite decode_header_app.
  destruct (decode_header (Some p) (alen p)) as [h ok] eqn:Hd. destruct ok; [|done].
  destruct (decode_header_range p (alen p) h Hp Hd) as (Hlen & Hc & Hf).
  destruct (_ || _); [done|]. destruct (Z.ltb_spec (u64_max - (DownstreamHeader.message_count h - 1))
    (DownstreamHeader.first_sequence h)) as [|Hroom]; [done|].
  unfold kHeaderBytes. rewrite validate_app by (done || lia).
  destruct (validate p (alen p) _ _) as [error offset] eqn:Hv.
  destruct (decide (error = none)) as [->|]; [|by rewrite bool_decide_false by done].
  rewrite bool_decide_true by done. cbn [negb].
  destruct (Z.eqb_spec offset (alen p)) as [->|]; [cbn [negb]|done].
  destruct (validate_blocks p (alen p) Hp ltac:(lia) _ 20 _ ltac:(lia) Hv) as (ms & Hn & Hfit & Hoff & _ & E).
  assert ((p ++ q) +! 20 = encode_blocks ms ++ ((p +! alen p) ++ q)) as E'.
  { unfold advance in *. rewrite drop_app_le by (unfold alen in *; lia). by rewrite E, app_assoc. }
  assert (Forall is_byte (p ++ q)) as Hpq by (by apply Forall_app).
  assert (alen (p ++ q) = alen p + alen q) as Hl by apply alen_app. pose proof (alen_nonneg q).
  assert (alen ms <= DownstreamHeader.message_count h) as Hms by (unfold alen; lia).
  destruct (visit_encoded p (alen p) Hp ltac:(lia) ms (DownstreamHeader.first_sequence h) 0 20 _
    ltac:(lia) E Hfit ltac:(lia) ltac:(lia) ltac:(lia)) as (V1 & V2 & V3).
  destruct (visit_encoded (p ++ q) (alen p) Hpq ltac:(lia) ms (DownstreamHeader.first_sequence h) 0 20 _
    ltac:(lia) E' Hfit ltac:(lia) ltac:(lia) ltac:(lia)) as (W1 & W2 & _).
  pose proof (visit_length p (DownstreamHeader.first_sequence h) (length ms) 0 20) as L1.
  pose proof (visit_length (p ++ q) (DownstreamHeader.first_sequence h) (length ms) 0 20) as L2.
  rewrite Hn in *.
  destruct (visit p _ _ _ _) as [bs off]. destruct (visit (p ++ q) _ _ _ _) as [bs' off'].
  cbn [fst snd] in *. assert (alen bs' = alen bs) as -> by (unfold alen; congruence).
  rewrite V2, W2, V1, W1. split_and!; done.
Qed.


(** The visited messages are byte strings. *)
Lemma visit_bytes p first n i offset :
  Forall is_byte p -> Forall (fun b => Forall is_byte (block_message b)) (visit p first n i offset).1.
Proof.
  intros Hp. revert i offset. induction n as [|n IH]; intros i offset; cbn [visit]; [constructor|].
  specialize (IH (i + 1) (u64 (u64 (offset + 2) + read_u16 (p +! offset)))).
  destruct (visit p first n _ _) as [blocks o]. constructor; [by apply advance_bytes|done].
Qed.

Lemma parse_bytes p size :
  Forall is_byte p -> Forall (fun b => Forall is_byte (block_message b)) (parse_downstream_packet (Some p) size).2.
Proof.
  intros Hp. unfold parse_downstream_packet. destruct (decode_header _ _) as [h [|]]; [|constructor].
  destruct (_ || _); [constructor|]. destruct (_ <? DownstreamHeader.first_sequence h); [constructor|].
  destruct (validate _ _ _ _) as [error offset]. destruct (negb _); [constructor|].
  destruct (negb _); [constructor|].
  pose proof (visit_bytes p (DownstreamHeader.first_sequence h)
    (Z.to_nat (DownstreamHeader.message_count h)) 0 kHeaderBytes Hp) as H.
  by destruct (visit _ _ _ _ _) as [blocks o].
Qed.
