(* ===== verification/MoldProperties.v ===== *)
(** * Properties of the MoldUDP64 layer

    The parser is exact on the wire format and never looks past the datagram;
    request packets decode to what was requested; the sequence tracker hands
    out every sequence number once, in order. *)

From Stdlib Require Import Ascii.
From S2P Require Import Prelude Itch50 MoldUdp64 MoldFacts.
Import itch50 moldudp64.

(** C19: the parser accepts exactly the wire format. A datagram of 1 to 65534
    messages is parsed, whatever bytes follow it in the receive buffer, and its
    callbacks carry its messages with consecutive sequence numbers; and whenever
    a buffer parses as data, the datagram is the encoding of what was visited. *)
Theorem parser_accepts_wire_format :
  (forall session first ms rest,
     alen session = 10 -> Forall is_byte session -> Forall (Forall is_byte) ms -> Forall is_byte rest ->
     1 <= alen ms < kEndOfSession -> 0 <= first -> first + alen ms <= 2 ^ 64 -> Forall fits_u16 ms ->
     alen (datagram session first ms) < 2 ^ 64 ->
     let '(r, blocks) := parse_downstream_packet (Some (datagram session first ms ++ rest))
                           (alen (datagram session first ms)) in
     ParseResult.error r = none /\
     ParseResult.header r = DownstreamHeader.mk session first (alen ms) /\
     map content blocks = zip (seqZ first (alen ms)) ms) /\
  (forall p size,
     Forall is_byte p -> size <= alen p -> size < 2 ^ 64 ->
     let '(r, blocks) := parse_downstream_packet (Some p) size in
     ParseResult.error r = none -> DownstreamHeader.kind (ParseResult.header r) = data ->
     exists session first ms,
       take (Z.to_nat size) p = datagram session first ms /\ 1 <= alen ms < kEndOfSession /\
       map content blocks = zip (seqZ first (alen ms)) ms).
Proof.
  split.
  - intros session first ms rest Hs Hsb Hmb Hrb Hc Hf0 Hf1 Hf Hmax.
    pose proof (parse_datagram session first ms rest _ Hs Hsb Hmb Hrb Hc Hf0 Hf1 Hf eq_refl Hmax) as H.
    destruct (parse_downstream_packet _ _) as [r blocks]. destruct H as [He Hp].
    split_and!; [done|apply Hp..].
  - intros p size Hp Hs Hmax. destruct (parse_downstream_packet _ _) as [r blocks] eqn:E.
    intros He Hk. destruct (parse_cases p size r blocks Hp Hs Hmax E) as [[? _]|[(_ & ? & _)|(_ & _ & H)]];
      [done..|]. destruct H as (session & first & ms & Hd). exists session, first, ms.
    split_and!; apply Hd.
Qed.

(** C20: the parser never looks past the datagram: with any bytes after it in
    the buffer the result and the visited messages are the same, every visited
    message lies inside the datagram, and a refused datagram visits nothing. *)
Theorem parser_stays_in_datagram p q :
  Forall is_byte p -> Forall is_byte q -> alen p < 2 ^ 64 ->
  let '(r, blocks) := parse_downstream_packet (Some p) (alen p) in
  let '(r', blocks') := parse_downstream_packet (Some (p ++ q)) (alen p) in
  r' = r /\ map content blocks' = map content blocks /\
  Forall (fun b => alen (block_bytes b) = block_size b) blocks /\
  (ParseResult.ok r = false -> blocks' = []).
Proof. apply parse_app. Qed.

(** *** Request packets *)

Lemma encode_u64_be v : encode_u64 v = be_bytes 8 v.
Proof.
  unfold encode_u64. change (seqZ 0 8) with [0; 1; 2; 3; 4; 5; 6; 7]. cbn [map be_bytes].
  rewrite !Z.shiftr_div_pow2 by lia. done.
Qed.

Lemma encode_u16_be v : encode_u16 v = be_bytes 2 v.
Proof. unfold encode_u16. cbn [be_bytes]. rewrite Z.shiftr_div_pow2 by lia. by rewrite Z.div_1_r. Qed.

(** A request packet is twenty bytes and decodes to the session, the first
    sequence number and the count it was made from. *)
Theorem request_packet_roundtrip session first count rest :
  alen session = kSessionBytes -> Forall is_byte session -> Forall is_byte rest ->
  0 <= first < 2 ^ 64 -> 0 <= count < 2 ^ 16 ->
  alen (make_request_packet session first count) = kHeaderBytes /\
  decode_header (Some (make_request_packet session first count ++ rest)) kHeaderBytes =
    (DownstreamHeader.mk session first count, true).
Proof.
  intros Hs Hb Hr Hf Hc. unfold make_request_packet. rewrite encode_u64_be, encode_u16_be. split.
  - by apply alen_header_bytes.
  - by apply decode_header_bytes.
Qed.

(** *** The tracker *)

Definition header_ok (h : DownstreamHeader.t) : Prop :=
  0 <= DownstreamHeader.first_sequence h < 2 ^ 64 /\ 0 <= DownstreamHeader.message_count h < 2 ^ 16.

Definition carries (h : DownstreamHeader.t) : bool := bool_decide (DownstreamHeader.kind h = data).

(** The header's messages continue the stream at [next]. *)
Definition continues (next : Z) (h : DownstreamHeader.t) : Prop :=
  carries h = true /\ DownstreamHeader.first_sequence h <= next <
    DownstreamHeader.first_sequence h + DownstreamHeader.message_count h /\
  DownstreamHeader.first_sequence h + DownstreamHeader.message_count h < 2 ^ 64.

Lemma carries_count h : carries h = true -> DownstreamHeader.message_count h <> 0.
Proof.
  unfold carries, DownstreamHeader.kind. by destruct (Z.eqb_spec (DownstreamHeader.message_count h) 0).
Qed.

Lemma decide_sequence_data s h :
  header_ok h -> 0 <= SequenceTracker.next_sequence_ s < 2 ^ 64 -> carries h = true ->
  let d := SequenceTracker.decide_sequence s h in
  let next := SequenceTracker.next_sequence_ s in
  let first := DownstreamHeader.first_sequence h in
  let last := first + DownstreamHeader.message_count h in
  (SequenceDecision.may_process d = true <-> continues next h) /\
  (SequenceDecision.may_process d = true -> SequenceDecision.skip_messages d = next - first) /\
  (SequenceDecision.state d = SequenceState.gap <-> last < 2 ^ 64 /\ next < first) /\
  (SequenceDecision.state d = SequenceState.duplicate <-> last < 2 ^ 64 /\ last <= next) /\
  (SequenceDecision.state d = SequenceState.sequence_overflow <-> 2 ^ 64 <= last).
Proof.
  intros [Hf Hc] Hn Hcar. unfold continues, SequenceTracker.decide_sequence. rewrite Hcar.
  pose proof (carries_count h Hcar). unfold carries in Hcar. rewrite Hcar.
  set (next := SequenceTracker.next_sequence_ s) in *. set (first := DownstreamHeader.first_sequence h) in *.
  set (count := DownstreamHeader.message_count h) in *.
  destruct (Z.eqb_spec count 0); [lia|]. cbn [negb andb].
  destruct (Z.ltb_spec (u64_max - count) first); [cbn; split_and!; try split; intros; try done; lia|].
  destruct (Z.ltb_spec next first); [cbn; split_and!; try split; intros; try done; lia|].
  rewrite wrap_small by lia.
  destruct (Z.leb_spec (first + count) next); [cbn; split_and!; try split; intros; try done; lia|].
  destruct (Z.ltb_spec first next); cbn; rewrite ?wrap_small by lia;
    split_and!; try split; intros; try done; lia.
Qed.

(** One header through [inspect] and [commit]: the sequence numbers of the
    messages a receiver processes, after skipping those already seen. *)
Definition tracker_step (s : SequenceTracker.t) (h : DownstreamHeader.t) :
    SequenceTracker.t * list Z :=
  let '(s, d) := SequenceTracker.inspect s h in
  (SequenceTracker.commit s h d,
   if SequenceDecision.may_process d && carries h
   then seqZ (DownstreamHeader.first_sequence h + SequenceDecision.skip_messages d)
          (DownstreamHeader.message_count h - SequenceDecision.skip_messages d)
   else []).

Fixpoint tracker_run (s : SequenceTracker.t) (hs : list DownstreamHeader.t) :
    SequenceTracker.t * list Z :=
  match hs with
  | [] => (s, [])
  | h :: hs' =>
      let '(s, now) := tracker_step s h in
      let '(s, later) := tracker_run s hs' in (s, now ++ later)
  end.

Definition tracker_next (s : SequenceTracker.t) : Z := SequenceTracker.next_sequence_ s.

Lemma decided_step s h :
  header_ok h -> 0 <= tracker_next s < 2 ^ 64 ->
  let d := SequenceTracker.decide_sequence s h in
  let s' := SequenceTracker.commit s h d in
  (if SequenceDecision.may_process d && carries h
   then seqZ (DownstreamHeader.first_sequence h + SequenceDecision.skip_messages d)
          (DownstreamHeader.message_count h - SequenceDecision.skip_messages d)
   else []) = seqZ (tracker_next s) (tracker_next s' - tracker_next s) /\
  tracker_next s <= tracker_next s' < 2 ^ 64 /\
  SequenceTracker.session_ s' = SequenceTracker.session_ s /\
  SequenceTracker.initialized_ s' = SequenceTracker.initialized_ s.
Proof.
  intros Hh Hn. cbv zeta. unfold tracker_next, SequenceTracker.commit in *. fold (carries h).
  destruct (carries h) eqn:Hc.
  2: { rewrite andb_false_r, orb_true_r, Z.sub_diag, seqZ_nil by lia. split_and!; done || lia. }
  destruct (decide_sequence_data s h Hh Hn Hc) as (Hp & Hs & _).
  destruct (SequenceDecision.may_process (SequenceTracker.decide_sequence s h)); cbn [negb andb orb].
  2: { rewrite Z.sub_diag, seqZ_nil by lia. split_and!; done || lia. }
  destruct (proj1 Hp eq_refl) as (_ & Hr & Hm). rewrite Hs by done. destruct Hh.
  updates. cbn. rewrite wrap_small by lia. split_and!; try done; try lia. f_equal; lia.
Qed.

Lemma tracker_step_initialized s h :
  header_ok h -> 0 <= tracker_next s < 2 ^ 64 -> SequenceTracker.initialized_ s = true ->
  let '(s', now) := tracker_step s h in
  now = seqZ (tracker_next s) (tracker_next s' - tracker_next s) /\
  tracker_next s <= tracker_next s' < 2 ^ 64 /\
  SequenceTracker.session_ s' = SequenceTracker.session_ s /\ SequenceTracker.initialized_ s' = true.
Proof.
  intros Hh Hn Hi. unfold tracker_step, SequenceTracker.inspect. rewrite Hi. cbn [negb].
  destruct (bool_decide _); cbn [negb].
  - destruct (decided_step s h Hh Hn) as (-> & ? & ? & ->). by rewrite Hi.
  - cbn. rewrite Z.sub_diag, seqZ_nil by lia. split_and!; done || lia.
Qed.

Lemma tracker_run_initialized s hs :
  Forall header_ok hs -> 0 <= tracker_next s < 2 ^ 64 -> SequenceTracker.initialized_ s = true ->
  let '(s', out) := tracker_run s hs in
  out = seqZ (tracker_next s) (tracker_next s' - tracker_next s) /\
  tracker_next s <= tracker_next s' < 2 ^ 64 /\ SequenceTracker.session_ s' = SequenceTracker.session_ s.
Proof.
  intros Hs. revert s. induction Hs as [|h hs Hh _ IH]; intros s Hn Hi; cbn [tracker_run].
  { rewrite Z.sub_diag, seqZ_nil by lia. split_and!; done || lia. }
  pose proof (tracker_step_initialized s h Hh Hn Hi) as H1. destruct (tracker_step s h) as [s1 now].
  destruct H1 as (-> & Hn1 & Hs1 & Hi1). specialize (IH s1 ltac:(lia) Hi1).
  destruct (tracker_run s1 hs) as [s2 later]. destruct IH as (-> & Hn2 & Hs2).
  split_and!; [|lia|lia|congruence].
  replace (tracker_next s2 - tracker_next s) with
    ((tracker_next s1 - tracker_next s) + (tracker_next s2 - tracker_next s1)) by lia.
  rewrite seqZ_app by lia. do 2 f_equal. lia.
Qed.

(** Over any series of headers the tracker, started by the first one,
    keeps its session, never goes back, and the messages it lets through are
    exactly those from the first sequence number up to [next_sequence], each
    once and in order. *)
Theorem tracker_hands_out_once h hs :
  header_ok h -> Forall header_ok hs ->
  let '(s, out) := tracker_run SequenceTracker.fresh (h :: hs) in
  SequenceTracker.session_ s = DownstreamHeader.session h /\
  DownstreamHeader.first_sequence h <= tracker_next s /\
  out = seqZ (DownstreamHeader.first_sequence h) (tracker_next s - DownstreamHeader.first_sequence h).
Proof.
  intros Hh Hs. set (s0 := SequenceTracker.mk (DownstreamHeader.session h) (DownstreamHeader.first_sequence h) true).
  assert (tracker_run SequenceTracker.fresh (h :: hs) = tracker_run s0 (h :: hs)) as ->.
  { cbn [tracker_run]. unfold tracker_step, SequenceTracker.inspect, s0. cbn. by rewrite bool_decide_true by done. }
  pose proof (tracker_run_initialized s0 (h :: hs) ltac:(by constructor)) as H.
  destruct (tracker_run s0 (h :: hs)) as [s out]. destruct Hh as [Hf Hc].
  destruct H as (-> & Hn & ->); [done|done|]. split_and!; [done|apply Hn|done].
Qed.

(** ** Witnesses *)

Definition session_a : list Z := [65; 66; 67; 68; 69; 70; 71; 72; 73; 74].

Lemma session_a_ok : Forall is_byte session_a.
Proof. repeat (constructor; [done|]); constructor. Qed.

Lemma parser_accepts_wire_format_witness :
  let '(r, blocks) := parse_downstream_packet (Some (datagram session_a 7 [[1; 2]; []; [3]] ++ [9]))
                        (alen (datagram session_a 7 [[1; 2]; []; [3]])) in
  ParseResult.error r = none /\
  ParseResult.header r = DownstreamHeader.mk session_a 7 (alen [[1; 2]; []; [3]]) /\
  map content blocks = zip (seqZ 7 (alen [[1; 2]; []; [3]])) [[1; 2]; []; [3]].
Proof.
  apply (proj1 parser_accepts_wire_format session_a 7 [[1; 2]; []; [3]] [9]);
    [done|exact session_a_ok|..|done|done|done| |done]; repeat (constructor; try done).
Defined.

Lemma parser_stays_in_datagram_witness :
  let p := datagram session_a 7 [[1; 2]; []; [3]] in
  let '(r, blocks) := parse_downstream_packet (Some p) (alen p) in
  let '(r', blocks') := parse_downstream_packet (Some (p ++ [8])) (alen p) in
  r' = r /\ map content blocks' = map content blocks /\
  Forall (fun b => alen (block_bytes b) = block_size b) blocks /\
  (ParseResult.ok r = false -> blocks' = []).
Proof.
  intros p. apply (parser_stays_in_datagram p [8]); [|repeat (constructor; try done)|done].
  repeat (constructor; [done|]); constructor.
Defined.

Lemma request_packet_roundtrip_witness :
  alen (make_request_packet session_a 300 2) = kHeaderBytes /\
  decode_header (Some (make_request_packet session_a 300 2 ++ [])) kHeaderBytes =
    (DownstreamHeader.mk session_a 300 2, true).
Proof. apply (request_packet_roundtrip session_a 300 2 []); [done|exact session_a_ok|done..]. Defined.

Lemma tracker_hands_out_once_witness :
  let h first count := DownstreamHeader.mk session_a first count in
  let '(s, out) := tracker_run SequenceTracker.fresh [h 5 2; h 9 1; h 6 3; h 5 2; h 9 1] in
  SequenceTracker.session_ s = DownstreamHeader.session (h 5 2) /\
  DownstreamHeader.first_sequence (h 5 2) <= tracker_next s /\
  out = seqZ (DownstreamHeader.first_sequence (h 5 2))
          (tracker_next s - DownstreamHeader.first_sequence (h 5 2)).
Proof.
  intros h. apply (tracker_hands_out_once (h 5 2) [h 9 1; h 6 3; h 5 2; h 9 1]); [done|].
  repeat (constructor; [done|]); constructor.
Defined.
