(* ===== verification/Recovery.v ===== *)
(** * include/qtrader/MoldUdp64Recovery.hpp

    The recovery layer of one MoldUDP64 channel: packets beyond a gap wait in a
    bounded window and are replayed when the gap closes.  The three callbacks
    are modelled by the sequence of calls made on them. *)

From Stdlib Require Import Ascii.
From S2P Require Import Prelude Itch50 MoldUdp64.
Import itch50 moldudp64.

Module RecoveryStatus.
Inductive t :=
  | processed
  | buffered_gap
  | duplicate
  | heartbeat
  | end_of_session
  | malformed
  | session_mismatch
  | datagram_too_large
  | reorder_window_full
  | sequence_overflow.
#[global] Instance recovery_status_eq_dec : EqDecision t.
Proof. solve_decision. Defined.
End RecoveryStatus.

Module RecoveryStats.
Record t := mk {
  datagrams : Z;
  messages : Z;
  buffered_datagrams : Z;
  recovered_datagrams : Z;
  duplicates : Z;
  gap_events : Z;
  rerequests : Z;
  requested_messages : Z;
  malformed : Z;
  session_mismatches : Z;
  capacity_errors : Z
}.
#[global] Instance eta_recovery_stats : Eta t := fun s =>
  mk (datagrams s) (messages s) (buffered_datagrams s) (recovered_datagrams s) (duplicates s)
    (gap_events s) (rerequests s) (requested_messages s) (malformed s) (session_mismatches s)
    (capacity_errors s).
Definition zero : t := mk 0 0 0 0 0 0 0 0 0 0 0.
End RecoveryStats.
Import (hints) RecoveryStats.

(** The calls on [on_message], [on_request] and [on_control]. *)
Inductive RecoveryEvent :=
  | OnMessage (sequence : Z) (message : list Z) (size : Z)
  | OnRequest (session : list Z) (first_sequence count : Z)
  | OnControl (kind : PacketKind) (sequence : Z).

Module Slot.
Record t := mk {
  bytes : list Z;
  first_sequence : Z;
  message_count : Z;
  size : Z;
  occupied : bool
}.
#[global] Instance eta_slot : Eta t := fun s =>
  mk (bytes s) (first_sequence s) (message_count s) (size s) (occupied s).
#[global] Instance slot_inhabited : Inhabited t := populate (mk [] 0 0 0 false).
End Slot.
Import (hints) Slot.

Module RecoveryWindow.

Record t := mk {
  slots_ : list Slot.t;
  tracker_ : SequenceTracker.t;
  stats_ : RecoveryStats.t;
  occupied_ : Z;
  gap_high_water_ : Z;
  pending_end_sequence_ : Z;
  has_pending_end_ : bool;
  request_outstanding_ : bool
}.

#[global] Instance eta_window : Eta t := fun w =>
  mk (slots_ w) (tracker_ w) (stats_ w) (occupied_ w) (gap_high_water_ w)
    (pending_end_sequence_ w) (has_pending_end_ w) (request_outstanding_ w).

(** [++stats_.field] *)
Definition count (w : t) (f : RecoveryStats.t -> RecoveryStats.t) : t := w <| stats_ ::= f |>.

Definition next_sequence (w : t) : Z := SequenceTracker.next_sequence_ (tracker_ w).
Definition buffered_datagrams (w : t) : Z := occupied_ w.
Definition stats (w : t) : RecoveryStats.t := stats_ w.

Section window.
Context (ReorderSlots MaxDatagramBytes : Z).

Definition make : t :=
  mk (replicate (Z.to_nat ReorderSlots)
       (Slot.mk (replicate (Z.to_nat MaxDatagramBytes) 0) 0 0 0 false))
    SequenceTracker.fresh RecoveryStats.zero 0 0 0 false false.

(** [std::memcpy(target, source, n)] at the start of an array. *)
Definition memcpy (target source : list Z) (n : Z) : list Z :=
  take (Z.to_nat n) source ++ drop (Z.to_nat n) target.

(** [None] is the null packet, which [parse_downstream_packet] refused. *)
Definition store (w : t) (packet : list Z) (size : Z) (header : DownstreamHeader.t) :
    t * RecoveryStatus.t :=
  let first := DownstreamHeader.first_sequence header in
  if (MaxDatagramBytes <? size) || (u16_max <? size) then
    (count w (fun s => s <| RecoveryStats.capacity_errors ::= incr |>),
     RecoveryStatus.datagram_too_large)
  else if existsb (fun s => Slot.occupied s && (Slot.first_sequence s =? first)) (slots_ w) then
    (count w (fun s => s <| RecoveryStats.duplicates ::= incr |>), RecoveryStatus.duplicate)
  else match list_find (fun s => Slot.occupied s = false) (slots_ w) with
  | Some (i, slot) =>
      let slot := Slot.mk (memcpy (Slot.bytes slot) packet size) first
        (DownstreamHeader.message_count header) (u16 size) true in
      (count (w <| slots_ ::= fun l => <[i := slot]> l |> <| occupied_ ::= incr |>)
         (fun s => s <| RecoveryStats.buffered_datagrams ::= incr |>),
       RecoveryStatus.buffered_gap)
  | None =>
      (count w (fun s => s <| RecoveryStats.capacity_errors ::= incr |>),
       RecoveryStatus.reorder_window_full)
  end.

(** The messages [process] passes on: [index++ < decision.skip_messages]. *)
Definition process (w : t) (packet : option (list Z)) (size : Z) (header : DownstreamHeader.t)
    (decision : SequenceDecision.t) : t * list RecoveryEvent :=
  let '(parsed, blocks) := parse_downstream_packet packet size in
  let passed := drop (Z.to_nat (SequenceDecision.skip_messages decision)) blocks in
  let events := map (fun b => OnMessage (block_sequence b) (block_message b) (block_size b)) passed in
  let w := count w (fun s => s <| RecoveryStats.messages ::= fun n => u64 (n + alen passed) |>) in
  if negb (ParseResult.ok parsed)
  then (count w (fun s => s <| RecoveryStats.malformed ::= incr |>), events)
  else (w <| tracker_ ::= fun tr => SequenceTracker.commit tr header decision |>, events).

(** Whether a slot holds the next expected message. *)
Definition holds (expected : Z) (s : Slot.t) : bool :=
  let end_ := u64 (Slot.first_sequence s + Slot.message_count s) in
  Slot.occupied s && (Slot.first_sequence s <=? expected) && (expected <? end_).

Fixpoint next_buffered_loop (l : list Slot.t) (expected : Z) (i : nat)
    (candidate : option (nat * Slot.t)) : option (nat * Slot.t) :=
  match l with
  | [] => candidate
  | s :: l' =>
      let better :=
        match candidate with
        | None => true
        | Some (_, c) => Slot.first_sequence c <? Slot.first_sequence s
        end in
      next_buffered_loop l' expected (S i) (if holds expected s && better then Some (i, s) else candidate)
  end.

Definition next_buffered_slot (w : t) : option (nat * Slot.t) :=
  next_buffered_loop (slots_ w) (next_sequence w) 0 None.

Definition earliest_step (next : Z) (earliest : Z) (s : Slot.t) : Z :=
  if negb (Slot.occupied s) || (Slot.first_sequence s <=? next) then earliest
  else if earliest =? 0 then Slot.first_sequence s else Z.min earliest (Slot.first_sequence s).

Definition earliest_future_sequence (w : t) : Z :=
  let earliest := foldl (earliest_step (next_sequence w)) (gap_high_water_ w) (slots_ w) in
  if has_pending_end_ w then
    (if earliest =? 0 then pending_end_sequence_ w else Z.min earliest (pending_end_sequence_ w))
  else earliest.

Definition issue_request (w : t) : t * list RecoveryEvent :=
  let expected := next_sequence w in
  let target := earliest_future_sequence w in
  if request_outstanding_ w || (target <=? expected) then (w, [])
  else
    let distance := u64 (target - expected) in
    let count_ := u16 (Z.min distance (kEndOfSession - 1)) in
    (count (w <| request_outstanding_ := true |>) (fun s =>
       s <| RecoveryStats.rerequests ::= incr |>
         <| RecoveryStats.requested_messages ::= fun n => u64 (n + count_) |>),
     [OnRequest (SequenceTracker.session_ (tracker_ w)) expected count_]).

Definition free_slot (w : t) (i : nat) : t :=
  w <| slots_ ::= fun l => alter (fun s => s <| Slot.occupied := false |>) i l |>
    <| occupied_ ::= fun n => u64 (n - 1) |>.

(** [while (auto* slot = next_buffered_slot())]; each round frees a slot, so one
    round more than there are slots is enough. *)
Fixpoint drain_loop (fuel : nat) (w : t) : t * list RecoveryEvent :=
  match fuel with
  | O => (w, [])
  | S fuel' =>
      match next_buffered_slot w with
      | None => (w, [])
      | Some (i, slot) =>
          let '(header, decoded) := decode_header (Some (Slot.bytes slot)) (Slot.size slot) in
          if negb decoded then
            drain_loop fuel' (free_slot (count w (fun s => s <| RecoveryStats.malformed ::= incr |>)) i)
          else
            let '(tracker, decision) := SequenceTracker.inspect (tracker_ w) header in
            let w := w <| tracker_ := tracker |> in
            if negb (SequenceDecision.may_process decision) then (w, [])
            else
              let '(w, events) :=
                process w (Some (Slot.bytes slot)) (Slot.size slot) header decision in
              let w := (count (free_slot w i)
                (fun s => s <| RecoveryStats.recovered_datagrams ::= incr |>))
                <| request_outstanding_ := false |> in
              let '(w, later) := drain_loop fuel' w in (w, events ++ later)
      end
  end.

Definition drain (w : t) : t * list RecoveryEvent :=
  let '(w, events) := drain_loop (S (length (slots_ w))) w in
  let '(w, control) :=
    if has_pending_end_ w && (pending_end_sequence_ w =? next_sequence w)
    then (w <| has_pending_end_ := false |>, [OnControl end_of_session (pending_end_sequence_ w)])
    else (w, []) in
  let w := if gap_high_water_ w <=? next_sequence w then w <| gap_high_water_ := 0 |> else w in
  let '(w, request) := issue_request w in
  (w, events ++ control ++ request).

Definition ingest (w : t) (packet : option (list Z)) (size : Z) :
    t * RecoveryStatus.t * list RecoveryEvent :=
  let w := count w (fun s => s <| RecoveryStats.datagrams ::= incr |>) in
  let '(validation, _) := parse_downstream_packet packet size in
  if negb (ParseResult.ok validation) then
    (count w (fun s => s <| RecoveryStats.malformed ::= incr |>), RecoveryStatus.malformed, [])
  else
    let header := ParseResult.header validation in
    let kind := DownstreamHeader.kind header in
    let '(tracker, decision) := SequenceTracker.inspect (tracker_ w) header in
    let w := w <| tracker_ := tracker |> in
    match SequenceDecision.state decision with
    | SequenceState.session_mismatch =>
        (count w (fun s => s <| RecoveryStats.session_mismatches ::= incr |>),
         RecoveryStatus.session_mismatch, [])
    | SequenceState.sequence_overflow =>
        (count w (fun s => s <| RecoveryStats.malformed ::= incr |>),
         RecoveryStatus.sequence_overflow, [])
    | SequenceState.duplicate =>
        (count w (fun s => s <| RecoveryStats.duplicates ::= incr |>), RecoveryStatus.duplicate, [])
    | SequenceState.gap =>
        let w := (count w (fun s => s <| RecoveryStats.gap_events ::= incr |>))
          <| gap_high_water_ ::= fun h => Z.max h (DownstreamHeader.first_sequence header) |> in
        let '(w, stored) :=
          match kind with
          | data => store w (default [] packet) size header
          | end_of_session =>
              (w <| pending_end_sequence_ := DownstreamHeader.first_sequence header |>
                 <| has_pending_end_ := true |>, RecoveryStatus.buffered_gap)
          | heartbeat => (w, RecoveryStatus.buffered_gap)
          end in
        if bool_decide (stored = RecoveryStatus.buffered_gap) then
          let '(w, request) := issue_request w in (w, RecoveryStatus.buffered_gap, request)
        else (w, stored, [])
    | SequenceState.in_order | SequenceState.overlap =>
        match kind with
        | heartbeat =>
            (w, RecoveryStatus.heartbeat, [OnControl kind (DownstreamHeader.first_sequence header)])
        | end_of_session =>
            (w, RecoveryStatus.end_of_session, [OnControl kind (DownstreamHeader.first_sequence header)])
        | data =>
            let '(w, events) := process w packet size header decision in
            let w := w <| request_outstanding_ := false |> in
            let '(w, drained) := drain w in
            (w, RecoveryStatus.processed, events ++ drained)
        end
    end.
End window.
End RecoveryWindow.
