(* ===== verification/RecoveryFacts.v ===== *)
(** * The recovery window keeps the stream

    [stream session s] is the message the sender published at sequence number
    [s] of a session.  Buffered slots hold packets of the stream ahead of the
    tracker; every step delivers the next messages of the stream and nothing
    else. *)

From Stdlib Require Import Ascii.
From S2P Require Import Prelude Itch50 MoldUdp64 MoldFacts MoldProperties Recovery.
Import itch50 moldudp64 RecoveryWindow.

(** ** What is delivered *)

Definition message_of (e : RecoveryEvent) : option (Z * list Z) :=
  match e with
  | OnMessage s m n => Some (s, take (Z.to_nat n) m)
  | _ => None
  end.

(** The messages passed on, as the receiver reads them. *)
Definition delivered (es : list RecoveryEvent) : list (Z * list Z) := omap message_of es.

(** The messages from [a] up to [b] of a stream. *)
Definition run_of (g : Z -> list Z) (a b : Z) : list (Z * list Z) :=
  map (fun s => (s, g s)) (seqZ a (b - a)).

Lemma run_of_nil g a : run_of g a a = [].
Proof. unfold run_of. by rewrite Z.sub_diag, seqZ_nil. Qed.

Lemma run_of_app g a b c : a <= b <= c -> run_of g a b ++ run_of g b c = run_of g a c.
Proof.
  intros H. unfold run_of. rewrite <- map_app. f_equal.
  replace (c - a) with ((b - a) + (c - b)) by lia. rewrite seqZ_app by lia. do 2 f_equal. lia.
Qed.

Lemma drop_run_of g a b n : 0 <= n <= b - a -> drop (Z.to_nat n) (run_of g a b) = run_of g (a + n) b.
Proof.
  intros H. rewrite <- (run_of_app g a (a + n) b) by lia. apply drop_app_length'.
  unfold run_of. rewrite length_map, length_seqZ. lia.
Qed.

Lemma zip_stream (g : Z -> list Z) f ms :
  (forall s m, (s, m) ∈ zip (seqZ f (alen ms)) ms -> m = g s) ->
  zip (seqZ f (alen ms)) ms = run_of g f (f + alen ms).
Proof.
  unfold run_of. replace (f + alen ms - f) with (alen ms) by lia.
  revert f. induction ms as [|m ms IH]; intros f Hs; [done|].
  rewrite alen_cons in *. pose proof (alen_nonneg ms). rewrite seqZ_cons in * by lia.
  replace (Z.pred (1 + alen ms)) with (alen ms) in * by lia. cbn [zip zip_with map] in *.
  rewrite IH by (intros; apply Hs; by right). by rewrite (Hs f m) by (by left).
Qed.

Lemma delivered_app es es' : delivered (es ++ es') = delivered es ++ delivered es'.
Proof. apply omap_app. Qed.

Lemma delivered_blocks bs :
  delivered (map (fun b => OnMessage (block_sequence b) (block_message b) (block_size b)) bs) =
    map content bs.
Proof. induction bs as [|b bs IH]; [done|]. unfold delivered in *. cbn [map].
  rewrite omap_cons_match. cbn [message_of]. by rewrite IH. Qed.

(** What a callback is given is a byte string. *)
Definition event_bytes (e : RecoveryEvent) : Prop :=
  match e with OnMessage _ m _ => Forall is_byte m | _ => True end.

Definition only_messages (es : list RecoveryEvent) : Prop :=
  Forall (fun e => event_bytes e /\ exists s m n, e = OnMessage s m n) es.

(** ** Packets of a stream *)

Section stream.
Context (stream : list Z -> Z -> list Z).

(** The data of the packet, if any, is the stream's. *)
Definition packet_ok (packet : option (list Z)) (size : Z) : Prop :=
  match packet with
  | None => True
  | Some p =>
      Forall is_byte p /\ size <= alen p /\ size < 2 ^ 64 /\
      let '(r, blocks) := parse_downstream_packet packet size in
      forall s m, (s, m) ∈ map content blocks ->
        m = stream (DownstreamHeader.session (ParseResult.header r)) s
  end.

(** A parsed data packet of header [h]. *)
Definition data_packet (packet : option (list Z)) (size : Z) (h : DownstreamHeader.t) : Prop :=
  exists r blocks, parse_downstream_packet packet size = (r, blocks) /\
    ParseResult.error r = none /\ ParseResult.header r = h /\ DownstreamHeader.kind h = data /\
    decode_header packet size = (h, true) /\ header_ok h /\
    Forall (fun b => Forall is_byte (block_message b)) blocks /\
    map content blocks = run_of (stream (DownstreamHeader.session h))
      (DownstreamHeader.first_sequence h)
      (DownstreamHeader.first_sequence h + DownstreamHeader.message_count h).

Lemma parse_decode packet size r blocks :
  parse_downstream_packet packet size = (r, blocks) -> ParseResult.error r = none ->
  decode_header packet size = (ParseResult.header r, true).
Proof.
  unfold parse_downstream_packet. destruct (decode_header packet size) as [h ok].
  intros H He. destruct packet as [p|]; [|by simplify_eq/=].
  destruct ok; [|by simplify_eq/=]. by repeat case_match; simplify_eq/=.
Qed.

Lemma parsed_header_ok packet size r blocks :
  packet_ok packet size -> parse_downstream_packet packet size = (r, blocks) ->
  ParseResult.error r = none -> header_ok (ParseResult.header r).
Proof.
  intros Hok Hp He. pose proof (parse_decode _ _ _ _ Hp He) as Hd.
  destruct packet as [p|]; [|done]. destruct Hok as (Hb & _).
  destruct (decode_header_range p size _ Hb Hd) as (_ & Hc & Hf). by split.
Qed.

Lemma packet_data packet size r blocks :
  packet_ok packet size -> parse_downstream_packet packet size = (r, blocks) ->
  ParseResult.error r = none -> DownstreamHeader.kind (ParseResult.header r) = data ->
  data_packet packet size (ParseResult.header r).
Proof.
  intros Hok Hp He Hk. pose proof (parsed_header_ok _ _ _ _ Hok Hp He) as Hh.
  pose proof (parse_decode _ _ _ _ Hp He) as Hd. destruct packet as [p|]; [|done].
  destruct Hok as (Hb & Hs & Hm & Hstream). rewrite Hp in Hstream.
  destruct (parse_cases p size r blocks Hb Hs Hm Hp) as [[? _]|[(_ & ? & _)|(_ & _ & Hdata)]]; [done..|].
  destruct Hdata as (session & first & ms & Hdata). exists r, blocks.
  rewrite (parsed_header _ _ _ _ _ _ _ Hdata) in *. cbn [DownstreamHeader.session
    DownstreamHeader.first_sequence DownstreamHeader.message_count] in *.
  pose proof (parse_bytes p size Hb) as Hbytes. rewrite Hp in Hbytes.
  split_and!; try done; try apply Hh. rewrite (parsed_contents _ _ _ _ _ _ _ Hdata) in *. by apply zip_stream.
Qed.

(** The copy of a packet in a slot is the same packet. *)
Lemma memcpy_packet target p size h :
  data_packet (Some p) size h -> Forall is_byte p -> Forall is_byte target ->
  0 <= size <= alen p -> size < 2 ^ 64 ->
  data_packet (Some (memcpy target p size)) size h.
Proof.
  intros (r & blocks & Hp & He & Hh & Hk & Hd & Hok & _ & Hc) Hb Ht Hs Hm.
  set (d := take (Z.to_nat size) p).
  assert (alen d = size) as Hl by (unfold d, alen in *; rewrite length_take; lia).
  assert (Forall is_byte d) as Hbd by (by apply Forall_take).
  pose proof (parse_app d (drop (Z.to_nat size) p) Hbd ltac:(by apply Forall_drop) ltac:(lia)) as H1.
  pose proof (parse_app d (drop (Z.to_nat size) target) Hbd ltac:(by apply Forall_drop) ltac:(lia)) as H2.
  unfold d in H1 at 3. rewrite take_drop, Hl, Hp in H1. rewrite Hl in H2.
  destruct (parse_downstream_packet (Some d) size) as [r0 blocks0].
  destruct H1 as (-> & Hc1 & _). fold d in H2.
  destruct (parse_downstream_packet (Some (d ++ _)) size) as [r2 blocks2] eqn:Hp2.
  destruct H2 as (-> & Hc2 & _). exists r0, blocks2. unfold memcpy. fold d. split_and!; try done; try apply Hok.
  - rewrite <- Hh. by apply (parse_decode _ _ _ _ Hp2).
  - pose proof (parse_bytes (d ++ drop (Z.to_nat size) target) size) as Hbytes. rewrite Hp2 in Hbytes.
    apply Hbytes, Forall_app. split; [done|by apply Forall_drop].
  - by rewrite Hc2, <- Hc1.
Qed.

(** ** The window *)

Context (ReorderSlots MaxDatagramBytes : Z).

Definition slot_header (session : list Z) (s : Slot.t) : DownstreamHeader.t :=
  DownstreamHeader.mk session (Slot.first_sequence s) (Slot.message_count s).

Record slot_ok (session : list Z) (s : Slot.t) : Prop := {
  slot_bytes : Forall is_byte (Slot.bytes s) /\ alen (Slot.bytes s) = Z.max 0 MaxDatagramBytes;
  slot_packet : Slot.occupied s = true ->
    data_packet (Some (Slot.bytes s)) (Slot.size s) (slot_header session s) /\
    Slot.first_sequence s + Slot.message_count s < 2 ^ 64
}.

Definition occupied_count (l : list Slot.t) : Z :=
  foldr (fun s n => (if Slot.occupied s then 1 else 0) + n) 0 l.

Lemma occupied_count_range l : 0 <= occupied_count l <= alen l.
Proof.
  unfold occupied_count. induction l as [|s l IH]; [done|]. rewrite alen_cons. cbn [foldr].
  case_match; lia.
Qed.

Lemma occupied_count_insert l i s s' :
  l !! i = Some s ->
  occupied_count (<[i := s']> l) =
    occupied_count l - (if Slot.occupied s then 1 else 0) + (if Slot.occupied s' then 1 else 0).
Proof.
  unfold occupied_count. revert i. induction l as [|x l IH]; intros i; [done|].
  destruct i as [|i]; simpl; [intros [= ->]; lia|]. intros Hi. rewrite (IH i Hi). lia.
Qed.

Record window_ok (w : t) : Prop := {
  win_initialized : SequenceTracker.initialized_ (tracker_ w) = true;
  win_next : 0 <= next_sequence w < 2 ^ 64;
  win_slots : Forall (slot_ok (SequenceTracker.session_ (tracker_ w))) (slots_ w);
  win_occupied : occupied_ w = occupied_count (slots_ w);
  win_length : alen (slots_ w) = Z.max 0 ReorderSlots;
  win_gap : 0 <= gap_high_water_ w < 2 ^ 64;
  win_pending : 0 <= pending_end_sequence_ w < 2 ^ 64
}.

Definition session_of (w : t) : list Z := SequenceTracker.session_ (tracker_ w).

(** Only counters, flags and the high-water marks differ. *)
Lemma window_ok_same w w' :
  tracker_ w' = tracker_ w -> slots_ w' = slots_ w -> occupied_ w' = occupied_ w ->
  0 <= gap_high_water_ w' < 2 ^ 64 -> 0 <= pending_end_sequence_ w' < 2 ^ 64 ->
  window_ok w -> window_ok w'.
Proof.
  intros Ht Hs Ho Hg Hp []. constructor; unfold next_sequence in *; rewrite ?Ht, ?Hs, ?Ho; done.
Qed.

(** ** Passing a packet on *)

Lemma process_delivers w packet size h :
  data_packet packet size h -> window_ok w -> DownstreamHeader.session h = session_of w ->
  continues (next_sequence w) h ->
  let '(w', es) := process w packet size h (SequenceTracker.decide_sequence (tracker_ w) h) in
  let last := DownstreamHeader.first_sequence h + DownstreamHeader.message_count h in
  delivered es = run_of (stream (session_of w)) (next_sequence w) last /\
  tracker_ w' = (tracker_ w) <| SequenceTracker.next_sequence_ := last |> /\
  w' = w <| tracker_ := tracker_ w' |> <| stats_ := stats_ w' |> /\
  only_messages es.
Proof.
  intros (r & blocks & Hp & He & Hh & Hk & Hd & Hok & Hbytes & Hc) Hw Hses Hcon.
  pose proof Hcon as (Hcar & Hr & Hmax).
  destruct (decide_sequence_data (tracker_ w) h Hok (win_next _ Hw) Hcar) as (Hmay & Hskip & _).
  pose proof (proj2 Hmay Hcon) as Hm. specialize (Hskip Hm).
  unfold process. rewrite Hp. unfold ParseResult.ok. rewrite bool_decide_true by done. cbn [negb].
  cbn [fst snd]. split_and!.
  - rewrite delivered_blocks, <- skipn_map.
    rewrite Hc, Hskip, Hses. fold (next_sequence w). rewrite drop_run_of by lia. f_equal. lia.
  - updates. cbn [tracker_ count]. unfold SequenceTracker.commit. rewrite Hm, Hk.
    rewrite bool_decide_true by done. cbn [negb orb]. by rewrite wrap_small by (destruct Hok; lia).
  - done.
  - apply Forall_forall. intros e (b & -> & Hb)%list_elem_of_fmap. split; [|by eexists _, _, _].
    rewrite Forall_forall in Hbytes. apply Hbytes. eapply elem_of_submseteq; [exact Hb|].
    apply sublist_submseteq, sublist_drop.
Qed.

(** ** Looking for the next packet *)

Lemma next_buffered_loop_spec l expected i candidate :
  match next_buffered_loop l expected i candidate with
  | Some (j, s) => candidate = Some (j, s) \/
      exists k, j = (i + k)%nat /\ l !! k = Some s /\ holds expected s = true
  | None => candidate = None /\ Forall (fun s => holds expected s = false) l
  end.
Proof.
  revert i candidate. induction l as [|s l IH]; intros i candidate; cbn [next_buffered_loop].
  { destruct candidate as [[j c]|]; [by left|done]. }
  match goal with |- context [next_buffered_loop l expected (S i) ?c] => set (candidate' := c) end.
  specialize (IH (S i) candidate').
  destruct (next_buffered_loop l expected (S i) candidate') as [[j x]|].
  - destruct IH as [Hc|(k & -> & Hk & Hh)]; [|right; exists (S k); split_and!; [lia|done..]].
    unfold candidate' in Hc. destruct (holds expected s) eqn:Hs; [|by left]. cbn [andb] in Hc.
    match type of Hc with (if ?b then _ else _) = _ => destruct b end; [|by left].
    injection Hc as <- <-. right. exists 0%nat. split_and!; [lia|done..].
  - destruct IH as [Hc Hl]. unfold candidate' in Hc.
    destruct (holds expected s) eqn:Hs; cbn [andb] in Hc; [|split; [done|by constructor]].
    exfalso. destruct candidate as [[j c]|]; [by destruct (_ <? _)|done].
Qed.

Lemma next_buffered_some w i s :
  next_buffered_slot w = Some (i, s) -> slots_ w !! i = Some s /\ holds (next_sequence w) s = true.
Proof.
  unfold next_buffered_slot. intros H.
  pose proof (next_buffered_loop_spec (slots_ w) (next_sequence w) 0 None) as Hs. rewrite H in Hs.
  destruct Hs as [|(k & -> & Hk)]; [done|]. done.
Qed.

Lemma next_buffered_none w :
  next_buffered_slot w = None -> Forall (fun s => holds (next_sequence w) s = false) (slots_ w).
Proof.
  unfold next_buffered_slot. intros H.
  pose proof (next_buffered_loop_spec (slots_ w) (next_sequence w) 0 None) as Hs. rewrite H in Hs.
  by destruct Hs.
Qed.

Lemma free_slot_ok w i s :
  window_ok w -> slots_ w !! i = Some s -> Slot.occupied s = true -> ReorderSlots < 2 ^ 64 ->
  window_ok (free_slot w i) /\ occupied_count (slots_ (free_slot w i)) = occupied_count (slots_ w) - 1.
Proof.
  intros Hw Hi Ho Hmax. set (s' := s <| Slot.occupied := false |>).
  assert (slots_ (free_slot w i) = <[i := s']> (slots_ w)) as Hs.
  { unfold free_slot. updates. cbn [slots_]. apply list_eq. intros k.
    destruct (decide (k = i)) as [->|].
    - rewrite list_lookup_alter_eq, Hi, list_lookup_insert_eq; [done|by eapply lookup_lt_Some].
    - by rewrite list_lookup_alter_ne, list_lookup_insert_ne. }
  pose proof (occupied_count_insert _ i s s' Hi) as Hcount. rewrite Ho in Hcount.
  change (Slot.occupied s') with false in Hcount. rewrite <- Hs in Hcount.
  pose proof (occupied_count_range (slots_ w)). pose proof (occupied_count_range (slots_ (free_slot w i))).
  split; [|lia]. destruct Hw. constructor; try done.
  - rewrite Hs. apply Forall_insert; [done|]. destruct (proj1 (Forall_lookup _ _) win_slots0 i s Hi) as [Hb _].
    by constructor.
  - change (occupied_ (free_slot w i)) with (u64 (occupied_ w - 1)). rewrite win_occupied0, Hcount.
    rewrite wrap_small by lia. lia.
  - rewrite Hs. unfold alen in *. by rewrite length_insert.
Qed.

(** ** Draining *)

(** What a step that delivers leaves alone. *)
Record step_frame (w w' : t) : Prop := {
  step_session : session_of w' = session_of w;
  step_next : next_sequence w <= next_sequence w';
  step_gap : gap_high_water_ w' = gap_high_water_ w;
  step_pending : pending_end_sequence_ w' = pending_end_sequence_ w;
  step_has_pending : has_pending_end_ w' = has_pending_end_ w
}.

Hypothesis Hslots : ReorderSlots < 2 ^ 64.

Lemma drain_round w i s :
  window_ok w -> next_buffered_slot w = Some (i, s) ->
  let h := slot_header (session_of w) s in
  let last := Slot.first_sequence s + Slot.message_count s in
  decode_header (Some (Slot.bytes s)) (Slot.size s) = (h, true) /\
  SequenceTracker.inspect (tracker_ w) h = (tracker_ w, SequenceTracker.decide_sequence (tracker_ w) h) /\
  SequenceDecision.may_process (SequenceTracker.decide_sequence (tracker_ w) h) = true /\
  next_sequence w < last /\
  let '(w1, es) := process w (Some (Slot.bytes s)) (Slot.size s) h
                     (SequenceTracker.decide_sequence (tracker_ w) h) in
  let w' := (count (free_slot w1 i) (fun st => st <| RecoveryStats.recovered_datagrams ::= incr |>))
              <| request_outstanding_ := false |> in
  window_ok w' /\ occupied_count (slots_ w') = occupied_count (slots_ w) - 1 /\ step_frame w w' /\
  next_sequence w' = last /\
  delivered es = run_of (stream (session_of w)) (next_sequence w) last /\ only_messages es.
Proof.
  intros Hw Hnb h last. destruct (next_buffered_some _ _ _ Hnb) as [Hi Hh].
  unfold holds in Hh. apply andb_true_iff in Hh as [[Hocc Hle%Z.leb_le]%andb_true_iff Hlt%Z.ltb_lt].
  destruct (slot_packet _ _ (proj1 (Forall_lookup _ _) (win_slots _ Hw) i s Hi) Hocc) as [Hp Hlast].
  fold (session_of w) in Hp. fold h in Hp.
  pose proof Hp as (r & blocks & _ & _ & _ & Hk & Hd & Hok & _). pose proof Hok as [Hf Hc]. cbn in Hf, Hc.
  rewrite wrap_small in Hlt by lia.
  assert (continues (next_sequence w) h) as Hcon.
  { split; [by apply bool_decide_eq_true|]. cbn. lia. }
  destruct (decide_sequence_data (tracker_ w) h Hok (win_next _ Hw) (proj1 Hcon)) as (Hmay & _).
  pose proof (process_delivers w _ _ h Hp Hw eq_refl Hcon) as Hproc.
  split_and!; [done| |by apply Hmay|done|].
  { unfold SequenceTracker.inspect. rewrite (win_initialized _ Hw). cbn [negb].
    by rewrite bool_decide_true by done. }
  destruct (process _ _ _ _ _) as [w1 es]. destruct Hproc as (Hdel & Htr & Hw1 & Hmsg).
  change (DownstreamHeader.first_sequence h + DownstreamHeader.message_count h) with last in *.
  assert (slots_ w1 = slots_ w) as Hs1 by (by rewrite Hw1).
  assert (window_ok w1) as Hok1.
  { rewrite Hw1. destruct Hw. constructor; unfold next_sequence in *; cbn; rewrite ?Htr; cbn; try done.
    unfold last. lia. }
  destruct (free_slot_ok w1 i s Hok1 ltac:(by rewrite Hs1) Hocc Hslots) as [Hok2 Hcount].
  assert (next_sequence w1 = last) as Hn by (unfold next_sequence; by rewrite Htr).
  split_and!; [|by rewrite <- Hs1| |exact Hn|done|done].
  - eapply window_ok_same; [..|exact Hok2]; try done; apply Hok2.
  - constructor; try (by rewrite Hw1); [|change (next_sequence w <= next_sequence w1); lia].
    change (session_of w1 = session_of w). unfold session_of. by rewrite Htr.
Qed.

Lemma drain_loop_ok fuel w :
  window_ok w -> occupied_count (slots_ w) < Z.of_nat fuel ->
  let '(w', es) := drain_loop fuel w in
  window_ok w' /\ step_frame w w' /\ next_buffered_slot w' = None /\
  delivered es = run_of (stream (session_of w)) (next_sequence w) (next_sequence w') /\ only_messages es.
Proof.
  revert w. induction fuel as [|fuel IH]; intros w Hw Hfuel; cbn [drain_loop].
  { pose proof (occupied_count_range (slots_ w)). lia. }
  destruct (next_buffered_slot w) as [[i s]|] eqn:Hnb.
  2: { rewrite run_of_nil. split_and!; try done. by constructor. }
  destruct (drain_round w i s Hw Hnb) as (-> & Hins & Hmay & Hlt & Hround). cbn [negb].
  rewrite Hins. replace (w <| tracker_ := tracker_ w |>) with w by (by destruct w).
  rewrite Hmay. cbn [negb].
  destruct (process _ _ _ _ _) as [w1 es]. destruct Hround as (Hok & Hcount & Hf & Hnext & Hdel & Hmsg).
  set (w2 := (count (free_slot w1 i) _) <| request_outstanding_ := false |>) in *. clearbody w2.
  specialize (IH w2 Hok ltac:(lia)). destruct (drain_loop fuel w2) as [w3 later].
  destruct IH as (Hok3 & Hf3 & Hnone & Hdel3 & Hmsg3). split_and!; [done| |done| |by apply Forall_app].
  - destruct Hf, Hf3. constructor; congruence || lia.
  - rewrite delivered_app, Hdel, Hdel3, (step_session _ _ Hf), Hnext. apply run_of_app.
    pose proof (step_next _ _ Hf3). lia.
Qed.

(** ** Requests *)

(** What may be asked for again: what is missing and not waiting in a slot. *)
Definition request_ok (w : t) (e : RecoveryEvent) : Prop :=
  match e with
  | OnRequest session first n =>
      session = session_of w /\ first = next_sequence w /\ 1 <= n < kEndOfSession /\
      Forall (fun s => Slot.occupied s = true -> next_sequence w < Slot.first_sequence s ->
        first + n <= Slot.first_sequence s) (slots_ w)
  | _ => True
  end.

Lemma earliest_step_cases next g s :
  let g' := earliest_step next g s in
  (g' = g /\ (Slot.occupied s = true -> Slot.first_sequence s <= next)) \/
  (Slot.occupied s = true /\ next < Slot.first_sequence s /\
   g' = (if g =? 0 then Slot.first_sequence s else Z.min g (Slot.first_sequence s))).
Proof.
  unfold earliest_step. destruct (Slot.occupied s); cbn [negb orb]; [|by left].
  destruct (Z.leb_spec (Slot.first_sequence s) next); [by left|by right].
Qed.

Lemma earliest_step_le next g l :
  0 <= next -> 0 <= g < 2 ^ 64 ->
  Forall (fun s => Slot.occupied s = true -> Slot.first_sequence s < 2 ^ 64) l ->
  let e := foldl (earliest_step next) g l in
  0 <= e < 2 ^ 64 /\ (0 < g -> 0 < e <= g) /\
  Forall (fun s => Slot.occupied s = true -> next < Slot.first_sequence s -> 0 < e <= Slot.first_sequence s) l.
Proof.
  intros Hn Hg Hl. cbv zeta. revert g Hg. induction Hl as [|s l Hs _ IH]; intros g Hg; cbn [foldl];
    [split_and!; lia || constructor|].
  destruct (earliest_step_cases next g s) as [[-> Hle]|(Ho & Hlt & ->)].
  - destruct (IH g Hg) as (? & ? & ?). split_and!; try done; try lia. constructor; [|done].
    intros Ho Hlt. specialize (Hle Ho). lia.
  - specialize (Hs Ho). set (g' := if g =? 0 then _ else _).
    assert (0 < g' <= Slot.first_sequence s /\ (0 < g -> g' <= g)) as [Hg' Hle].
    { unfold g'. destruct (Z.eqb_spec g 0); lia. }
    destruct (IH g' ltac:(lia)) as (? & Hb & ?). specialize (Hb ltac:(lia)).
    split_and!; try lia. constructor; [lia|done].
Qed.

Lemma issue_request_ok w :
  window_ok w ->
  let '(w', es) := issue_request w in
  window_ok w' /\ tracker_ w' = tracker_ w /\ slots_ w' = slots_ w /\ delivered es = [] /\
  Forall (request_ok w') es /\ Forall event_bytes es /\ (length es <= 1)%nat /\
  (es <> [] -> request_outstanding_ w = false /\ request_outstanding_ w' = true).
Proof.
  intros Hw. unfold issue_request. pose proof (win_next _ Hw) as Hn.
  destruct (_ || _) eqn:Hno; [split_and!; first [done | by constructor | by simpl; lia]|].
  apply orb_false_iff in Hno as [Hro Hlt%Z.leb_gt].
  set (target := earliest_future_sequence w) in *.
  assert (target < 2 ^ 64 /\ Forall (fun s => Slot.occupied s = true ->
    next_sequence w < Slot.first_sequence s -> target <= Slot.first_sequence s) (slots_ w)) as [Ht Hall].
  { unfold target, earliest_future_sequence.
    destruct (earliest_step_le (next_sequence w) (gap_high_water_ w) (slots_ w)) as (He & Hg & Hl);
      [lia|apply Hw| |].
    { eapply Forall_impl; [apply Hw|]. intros s Hs Ho. destruct (slot_packet _ _ Hs Ho) as [Hp _].
      destruct Hp as (_ & _ & _ & _ & _ & _ & _ & [Hf _] & _). apply Hf. }
    set (e := foldl _ _ _) in *. pose proof (win_pending _ Hw).
    destruct (has_pending_end_ w); [destruct (Z.eqb_spec e 0)|]; (split; [lia|]);
      (eapply Forall_impl; [exact Hl|]); intros s Hs Ho Hf; specialize (Hs Ho Hf); lia. }
  unfold kEndOfSession in *. rewrite (wrap_small 64 (target - next_sequence w)) by lia.
  rewrite wrap_small by lia. set (n := Z.min (target - next_sequence w) (65535 - 1)).
  split_and!; try (done || (simpl; lia)).
  3: { by repeat constructor. }
  { apply (window_ok_same w); try done; apply Hw. }
  constructor; [|done]. unfold request_ok, kEndOfSession.
  split; [done|]. split; [done|]. split; [unfold n; lia|].
  eapply Forall_impl; [exact Hall|]. intros s Hs Ho Hf. cbn in *. specialize (Hs Ho Hf). unfold n. lia.
Qed.

(** ** Buffering *)

(** No buffered packet holds the next message. *)
Definition settled (w : t) : Prop := Forall (fun s => holds (next_sequence w) s = false) (slots_ w).

Lemma store_ok w p size h :
  window_ok w -> settled w -> data_packet (Some p) size h -> Forall is_byte p -> size <= alen p ->
  size < 2 ^ 64 -> DownstreamHeader.session h = session_of w ->
  next_sequence w < DownstreamHeader.first_sequence h ->
  DownstreamHeader.first_sequence h + DownstreamHeader.message_count h < 2 ^ 64 ->
  let '(w', _) := store MaxDatagramBytes w p size h in
  window_ok w' /\ settled w' /\ tracker_ w' = tracker_ w.
Proof.
  intros Hw Hset Hp Hb Hs Hm Hses Hnext Hlast. unfold store.
  assert (20 <= size) as H20.
  { destruct Hp as (_ & _ & _ & _ & _ & _ & Hd & _). by destruct (decode_header_range p size h Hb Hd). }
  assert (forall f, window_ok (count w f) /\ settled (count w f) /\ tracker_ (count w f) = tracker_ w)
    as Hcount.
  { intros f. split_and!; try done. apply (window_ok_same w); try done; apply Hw. }
  destruct (_ || _) eqn:Hfit; [apply Hcount|].
  apply orb_false_iff in Hfit as [Hmax%Z.ltb_ge H16%Z.ltb_ge].
  destruct (existsb _ _); [apply Hcount|].
  destruct (list_find _ _) as [[i s]|] eqn:Hfind; [|apply Hcount].
  apply list_find_Some in Hfind as (Hi & Hfree & _).
  destruct (proj1 (Forall_lookup _ _) (win_slots _ Hw) i s Hi) as [[Hsb Hsl] _].
  rewrite wrap_small by lia. set (s' := Slot.mk _ _ _ _ _).
  pose proof (occupied_count_insert _ i s s' Hi) as Hoc. rewrite Hfree in Hoc.
  change (Slot.occupied s') with true in Hoc. cbv iota in Hoc.
  pose proof (occupied_count_range (<[i := s']> (slots_ w))) as Hrange.
  assert (alen (<[i := s']> (slots_ w)) = Z.max 0 ReorderSlots) as Hlen
    by (rewrite <- (win_length _ Hw); unfold alen; by rewrite length_insert).
  assert (slot_ok (session_of w) s') as Hs'.
  { constructor; cbn [Slot.bytes s'].
    - unfold memcpy. split; [apply Forall_app; split; [by apply Forall_take|by apply Forall_drop]|].
      unfold alen in *. rewrite length_app, length_take, length_drop. lia.
    - intros _. split; [|done]. cbn [Slot.size s'].
      replace (slot_header (session_of w) s') with h
        by (unfold slot_header; cbn; rewrite <- Hses; by destruct h).
      apply memcpy_packet; try done; lia. }
  pose proof (win_occupied _ Hw) as Hocc. split_and!; [|..|done].
  - destruct Hw. constructor; try done.
    + by apply Forall_insert.
    + change (incr (occupied_ w) = occupied_count (<[i := s']> (slots_ w))). unfold incr.
      pose proof (occupied_count_range (slots_ w)). rewrite Hocc, wrap_small; lia.
  - apply Forall_insert; [done|]. unfold holds. cbn [Slot.first_sequence s'].
    change (next_sequence _) with (next_sequence w).
    destruct (Z.leb_spec (DownstreamHeader.first_sequence h) (next_sequence w)); [lia|].
    by rewrite andb_false_r.
Qed.

(** ** The end of a processed packet *)

Lemma drain_ok w :
  window_ok w ->
  let '(w', es) := drain w in
  window_ok w' /\ settled w' /\ session_of w' = session_of w /\ next_sequence w <= next_sequence w' /\
  delivered es = run_of (stream (session_of w)) (next_sequence w) (next_sequence w') /\
  Forall (request_ok w') es /\ Forall event_bytes es.
Proof.
  intros Hw. unfold drain. pose proof (occupied_count_range (slots_ w)).
  pose proof (drain_loop_ok (S (length (slots_ w))) w Hw ltac:(unfold alen in *; lia)) as Hd.
  destruct (drain_loop _ w) as [w1 events]. destruct Hd as (Hw1 & Hf & Hnone & Hdel & Hmsg).
  match goal with |- context [let '(_, _) := (if ?b then ?u else ?v) in _] =>
    set (x := if b then u else v);
    assert (window_ok x.1 /\ tracker_ x.1 = tracker_ w1 /\ slots_ x.1 = slots_ w1 /\
      delivered x.2 = [] /\ Forall (fun e => exists k s, e = OnControl k s) x.2) as Hx;
    [|clearbody x; destruct x as [w2 control]; cbn [fst snd] in Hx] end.
  { unfold x. destruct (_ && _); cbn [fst snd]; [|split_and!; done || constructor]. split_and!; try done.
    - apply (window_ok_same w1); try done; apply Hw1.
    - repeat constructor. by eexists _, _. }
  destruct Hx as (Hw2 & Ht2 & Hs2 & Hdel2 & Hctl).
  match goal with |- context [issue_request ?x] => set (w3 := x) end.
  assert (window_ok w3 /\ tracker_ w3 = tracker_ w1 /\ slots_ w3 = slots_ w1) as (Hw3 & Ht3 & Hs3).
  { unfold w3. destruct (_ <=? _); [|done]. split_and!; try done.
    apply (window_ok_same w2); try done; apply Hw2. }
  pose proof (issue_request_ok w3 Hw3) as Hi. destruct (issue_request w3) as [w4 request].
  destruct Hi as (Hw4 & Ht4 & Hs4 & Hdel4 & Hreq & Hby & _).
  assert (next_sequence w4 = next_sequence w1) as Hn by (unfold next_sequence; congruence).
  assert (session_of w4 = session_of w1) as Hse by (unfold session_of; congruence).
  split_and!; [done| | |rewrite Hn; apply Hf| | |].
  - unfold settled. rewrite Hs4, Hs3, Hn. by apply next_buffered_none.
  - rewrite Hse. apply Hf.
  - by rewrite !delivered_app, Hdel, Hdel2, Hdel4, Hn, !app_nil_r.
  - rewrite !Forall_app. split_and!; [| |done].
    + eapply Forall_impl; [exact Hmsg|]. by intros e (_ & s & m & n & ->).
    + eapply Forall_impl; [exact Hctl|]. by intros e (k & s & ->).
  - rewrite !Forall_app. split_and!; [| |done].
    + eapply Forall_impl; [exact Hmsg|]. by intros e [? _].
    + eapply Forall_impl; [exact Hctl|]. by intros e (k & s & ->).
Qed.

(** ** One datagram *)

Record ingested (w w' : t) (es : list RecoveryEvent) : Prop := {
  ing_ok : window_ok w';
  ing_settled : settled w';
  ing_session : session_of w' = session_of w;
  ing_next : next_sequence w <= next_sequence w';
  ing_delivered : delivered es = run_of (stream (session_of w)) (next_sequence w) (next_sequence w');
  ing_requests : Forall (request_ok w') es;
  ing_bytes : Forall event_bytes es
}.

Lemma ingested_quiet w w' :
  window_ok w -> settled w -> tracker_ w' = tracker_ w -> slots_ w' = slots_ w ->
  occupied_ w' = occupied_ w -> 0 <= gap_high_water_ w' < 2 ^ 64 ->
  0 <= pending_end_sequence_ w' < 2 ^ 64 -> ingested w w' [].
Proof.
  intros Hw Hset Ht Hs Ho Hg Hp.
  assert (next_sequence w' = next_sequence w) as Hn by (unfold next_sequence; congruence).
  constructor; [by apply (window_ok_same w)| |by unfold session_of; rewrite Ht|lia| |done|done].
  - unfold settled. by rewrite Hs, Hn.
  - by rewrite Hn, run_of_nil.
Qed.

(** The gap branch, once the packet is buffered. *)
Lemma ingested_request w w1 :
  window_ok w1 -> settled w1 -> tracker_ w1 = tracker_ w ->
  let '(w', es) := issue_request w1 in ingested w w' es.
Proof.
  intros Hw1 Hset Ht. pose proof (issue_request_ok w1 Hw1) as Hi.
  destruct (issue_request w1) as [w' es]. destruct Hi as (Hw' & Ht' & Hs' & Hdel & Hreq & Hby & _).
  assert (tracker_ w' = tracker_ w) as Hte by congruence.
  assert (next_sequence w' = next_sequence w) as Hn by (unfold next_sequence; congruence).
  constructor; [done| |by unfold session_of; rewrite Hte|lia| |done|done].
  - unfold settled. rewrite Hs', Hn. unfold settled, next_sequence in *. by rewrite Ht in Hset.
  - by rewrite Hdel, Hn, run_of_nil.
Qed.

Lemma count_ok w f : window_ok w -> window_ok (count w f).
Proof. intros Hw. apply (window_ok_same w); try done; apply Hw. Qed.

Lemma ingested_count w f w' es : ingested (count w f) w' es -> ingested w w' es.
Proof. intros []. by constructor. Qed.

(** An in-sequence data packet is passed on, then the window drained. *)
Lemma ingested_data w packet size h :
  window_ok w -> data_packet packet size h -> DownstreamHeader.session h = session_of w ->
  continues (next_sequence w) h ->
  let '(w1, es1) := process w packet size h (SequenceTracker.decide_sequence (tracker_ w) h) in
  let '(w2, es2) := drain (w1 <| request_outstanding_ := false |>) in
  ingested w w2 (es1 ++ es2).
Proof.
  intros Hw Hp Hses Hcon. pose proof (process_delivers w packet size h Hp Hw Hses Hcon) as Hpr.
  destruct (process _ _ _ _ _) as [w1 es1]. destruct Hpr as (Hdel & Htr & Hw1 & Hmsg).
  set (last := DownstreamHeader.first_sequence h + DownstreamHeader.message_count h) in *.
  destruct Hcon as (_ & Hr & Hmax). destruct Hp as (_ & _ & _ & _ & _ & _ & _ & [Hf Hc] & _).
  assert (window_ok (w1 <| request_outstanding_ := false |>)) as Hok1.
  { rewrite Hw1. destruct Hw. constructor; unfold next_sequence in *; cbn; rewrite ?Htr; cbn; try done.
    unfold last. lia. }
  assert (next_sequence w1 = last) as Hn1 by (unfold next_sequence; by rewrite Htr).
  assert (session_of w1 = session_of w) as Hs1 by (unfold session_of; by rewrite Htr).
  pose proof (drain_ok _ Hok1) as Hd. destruct (drain _) as [w2 es2].
  destruct Hd as (Hw2 & Hset & Hs2 & Hn2 & Hdel2 & Hreq & Hby).
  change (next_sequence (w1 <| request_outstanding_ := false |>)) with (next_sequence w1) in *.
  change (session_of (w1 <| request_outstanding_ := false |>)) with (session_of w1) in *.
  constructor; [done|done|congruence|unfold last in *; lia| | |].
  - rewrite delivered_app, Hdel, Hdel2, Hs1, Hn1. apply run_of_app. unfold last in *. lia.
  - apply Forall_app. split; [|done]. eapply Forall_impl; [exact Hmsg|]. by intros e (_ & s & m & n & ->).
  - apply Forall_app. split; [|done]. eapply Forall_impl; [exact Hmsg|]. by intros e [? _].
Qed.

Lemma special_decision w h :
  header_ok h -> carries h = false ->
  SequenceDecision.state (SequenceTracker.decide_sequence (tracker_ w) h) =
    (if next_sequence w <? DownstreamHeader.first_sequence h then SequenceState.gap
     else if DownstreamHeader.first_sequence h =? next_sequence w then SequenceState.in_order
     else SequenceState.duplicate).
Proof.
  intros Hh Hc. unfold SequenceTracker.decide_sequence, carries, next_sequence in *. rewrite Hc.
  cbn [negb andb]. repeat case_match; done.
Qed.

(** An initialised, settled window takes any datagram. *)
Lemma ingest_ok w packet size :
  window_ok w -> settled w -> packet_ok packet size ->
  let '(w', _, es) := ingest MaxDatagramBytes w packet size in ingested w w' es.
Proof.
  intros Hw Hset Hpok. unfold ingest. set (w0 := count w _).
  assert (window_ok w0) as Hw0 by (by apply count_ok).
  assert (forall f, ingested w (count w0 f) []) as Hcount.
  { intros f. apply ingested_quiet; try done; apply Hw. }
  destruct (parse_downstream_packet packet size) as [r blocks] eqn:Hp.
  unfold ParseResult.ok. destruct (decide (ParseResult.error r = none)) as [He|];
    [rewrite bool_decide_true by done|rewrite bool_decide_false by done; apply (Hcount (fun s => s <| RecoveryStats.malformed ::= incr |>))].
  cbn [negb]. pose proof (parsed_header_ok _ _ _ _ Hpok Hp He) as Hh.
  set (h := ParseResult.header r) in *. unfold SequenceTracker.inspect.
  change (SequenceTracker.initialized_ (tracker_ w0)) with (SequenceTracker.initialized_ (tracker_ w)).
  rewrite (win_initialized _ Hw). cbn [negb].
  destruct (bool_decide_reflect (SequenceTracker.session_ (tracker_ w0) = DownstreamHeader.session h))
    as [Hses|]; cbn [negb]; change (w0 <| tracker_ := tracker_ w0 |>) with w0.
  2: { cbn [SequenceDecision.state]. apply Hcount. }
  symmetry in Hses. change (tracker_ w0) with (tracker_ w) in *.
  destruct (carries h) eqn:Hcar.
  - assert (DownstreamHeader.kind h = data) as Hk by (by apply bool_decide_eq_true in Hcar).
    rewrite Hk. pose proof (packet_data _ _ _ _ Hpok Hp He Hk) as Hdata. fold h in Hdata.
    destruct (decide_sequence_data (tracker_ w) h Hh (win_next _ Hw) Hcar) as (Hmay & _ & Hgap & _ & _).
    pose proof (ingested_data w0 packet size h Hw0 Hdata Hses) as Hing.
    change (tracker_ w0) with (tracker_ w) in Hing. change (next_sequence w0) with (next_sequence w) in Hing.
    set (d := SequenceTracker.decide_sequence (tracker_ w) h) in *.
    unfold SequenceDecision.may_process in Hmay.
    destruct (SequenceDecision.state d) eqn:Hd; try apply Hcount.
    1, 2: specialize (Hing (proj1 Hmay eq_refl)); destruct (process w0 packet size h d) as [w1 es1];
      destruct (drain _) as [w2 es2]; by eapply ingested_count.
    destruct (proj1 Hgap eq_refl) as [Hlast Hnext].
    destruct packet as [p|]; [|by destruct Hdata as (? & ? & ? & ? & ? & ? & ? & _)].
    destruct Hpok as (Hb & Hs & Hm & _).
    match goal with |- context [store _ ?x _ _ _] => set (w1 := x) end.
    assert (window_ok w1) as Hw1.
    { apply (window_ok_same w0); try done; [|apply Hw]. destruct Hh. pose proof (win_gap _ Hw).
      unfold w1. cbn. lia. }
    pose proof (store_ok w1 p size h Hw1 Hset Hdata Hb Hs Hm Hses Hnext Hlast) as Hstore.
    change (default [] (Some p)) with p. destruct (store _ w1 p size h) as [w2 st]. destruct Hstore as (Hw2 & Hset2 & Ht2).
    destruct (decide (st = RecoveryStatus.buffered_gap)) as [E|E];
      [rewrite bool_decide_true by done|rewrite bool_decide_false by done].
    + pose proof (ingested_request w w2 Hw2 Hset2 Ht2) as Hr. by destruct (issue_request w2).
    + assert (next_sequence w2 = next_sequence w) as Hn by (unfold next_sequence; by rewrite Ht2).
      constructor; [done|done|unfold session_of; by rewrite Ht2|lia|by rewrite Hn, run_of_nil|constructor..].
  - pose proof (special_decision w h Hh Hcar) as Hd. set (d := SequenceTracker.decide_sequence _ h) in *.
    rewrite Hd. destruct (Z.ltb_spec (next_sequence w) (DownstreamHeader.first_sequence h)).
    + set (w1 := (count w0 (fun s => s <| RecoveryStats.gap_events ::= incr |>))
        <| gap_high_water_ ::= fun g => Z.max g (DownstreamHeader.first_sequence h) |>). destruct Hh.
      assert (window_ok w1) as Hw1.
      { apply (window_ok_same w0); try done; [|apply Hw]. pose proof (win_gap _ Hw). unfold w1. cbn. lia. }
      destruct (DownstreamHeader.kind h) eqn:Hk.
      * exfalso. unfold carries in Hcar. apply bool_decide_eq_false in Hcar. done.
      * pose proof (ingested_request w w1 Hw1 Hset eq_refl) as Hr. cbn. by destruct (issue_request w1).
      * set (w2 := w1 <| pending_end_sequence_ := DownstreamHeader.first_sequence h |>
          <| has_pending_end_ := true |>).
        assert (window_ok w2) as Hw2 by (apply (window_ok_same w1); try done; apply Hw1).
        pose proof (ingested_request w w2 Hw2 Hset eq_refl) as Hr. cbn. by destruct (issue_request w2).
    + assert (forall k s, ingested w w0 [OnControl k s]) as Hctl.
      { intros k s. destruct (Hcount (fun x => x)) as [A1 A2 A3 A4 A5 A6 A7]. constructor; try done;
        by repeat constructor. }
      destruct (_ =? _); [|apply Hcount].
      destruct (DownstreamHeader.kind h) eqn:Hk; [|apply Hctl..].
      exfalso. unfold carries in Hcar. apply bool_decide_eq_false in Hcar. done.
Qed.
End stream.
