(* ===== verification/RecoveryProperties.v ===== *)
(** * Properties of the recovery window

    Whatever datagrams arrive in whatever order, the receiver gets the stream
    of the session from its first sequence number on, every message once, in
    order and unaltered; nothing that can be delivered stays buffered; requests
    name missing messages only.  The last section records the slots that stay
    occupied for good. *)

From Stdlib Require Import Ascii.
From S2P Require Import Prelude Itch50 MoldUdp64 MoldFacts MoldProperties Recovery RecoveryFacts.
Import itch50 moldudp64 RecoveryWindow.

(** ** Histories *)

Fixpoint recovery_run (MaxDatagramBytes : Z) (w : t) (packets : list (option (list Z) * Z)) :
    t * list RecoveryEvent :=
  match packets with
  | [] => (w, [])
  | (packet, size) :: packets' =>
      let '(w, _, now) := ingest MaxDatagramBytes w packet size in
      let '(w, later) := recovery_run MaxDatagramBytes w packets' in (w, now ++ later)
  end.

(** The header of a datagram that parses. *)
Definition valid_header (packet : option (list Z) * Z) : option DownstreamHeader.t :=
  let '(r, _) := parse_downstream_packet packet.1 packet.2 in
  if ParseResult.ok r then Some (ParseResult.header r) else None.

Section history.
Context (stream : list Z -> Z -> list Z) (ReorderSlots MaxDatagramBytes : Z).
Hypothesis Hslots : ReorderSlots < 2 ^ 64.

Local Abbreviation make := (make ReorderSlots MaxDatagramBytes).
Local Abbreviation ingest := (ingest MaxDatagramBytes).
Local Abbreviation run := (recovery_run MaxDatagramBytes).
Local Abbreviation window_ok := (window_ok stream ReorderSlots MaxDatagramBytes).
Local Abbreviation ingested := (ingested stream ReorderSlots MaxDatagramBytes).

Lemma run_ok w packets :
  window_ok w -> settled w -> Forall (fun p => packet_ok stream p.1 p.2) packets ->
  let '(w', es) := run w packets in
  window_ok w' /\ settled w' /\ session_of w' = session_of w /\ next_sequence w <= next_sequence w' /\
  delivered es = run_of (stream (session_of w)) (next_sequence w) (next_sequence w').
Proof.
  intros Hw Hset Hp. revert w Hw Hset. induction Hp as [|[packet size] packets Hok _ IH];
    intros w Hw Hset; cbn [recovery_run].
  { by rewrite run_of_nil. }
  pose proof (ingest_ok stream ReorderSlots MaxDatagramBytes Hslots w packet size Hw Hset Hok) as H1.
  destruct (ingest w packet size) as [[w1 st] now]. destruct H1 as [Hw1 Hset1 Hs1 Hn1 Hd1 _ _].
  specialize (IH w1 Hw1 Hset1). destruct (run w1 packets) as [w2 later].
  destruct IH as (Hw2 & Hset2 & Hs2 & Hn2 & Hd2).
  split_and!; [done|done|congruence|lia|]. rewrite delivered_app, Hd1, Hd2, Hs1. apply run_of_app. lia.
Qed.

(** A window that has seen no valid datagram, and the same window once its
    tracker is started by [h]. *)
Definition unstarted (w : t) : Prop := exists st, w = make <| stats_ := st |>.
Definition started_by (w : t) (h : DownstreamHeader.t) : t :=
  w <| tracker_ := SequenceTracker.mk (DownstreamHeader.session h) (DownstreamHeader.first_sequence h) true |>.

Lemma fresh_slots_free : Forall (fun s => Slot.occupied s = false) (slots_ make).
Proof. by apply Forall_replicate. Qed.

Lemma started_ok w h :
  unstarted w -> header_ok h -> window_ok (started_by w h) /\ settled (started_by w h).
Proof.
  intros [st ->] [Hf Hc]. split.
  - constructor; try done.
    + apply Forall_replicate. constructor; [|done]. split; [by apply Forall_replicate|].
      cbn. rewrite alen_replicate. lia.
    + cbn. induction (Z.to_nat ReorderSlots) as [|n IH]; [done|]. cbn. by rewrite <- IH.
    + cbn. rewrite alen_replicate. lia.
  - unfold settled. cbn [slots_ started_by]. eapply Forall_impl; [exact fresh_slots_free|].
    intros s Hs. unfold holds. by rewrite Hs.
Qed.

Lemma ingest_unstarted w packet size :
  unstarted w -> packet_ok stream packet size ->
  match valid_header (packet, size) with
  | None => exists st, ingest w packet size = (w <| stats_ := st |>, RecoveryStatus.malformed, [])
  | Some h => header_ok h /\ ingest w packet size = ingest (started_by w h) packet size
  end.
Proof.
  intros [st ->] Hok. unfold valid_header. cbn [fst snd].
  destruct (parse_downstream_packet packet size) as [r blocks] eqn:Hp.
  unfold RecoveryWindow.ingest. rewrite Hp. destruct (ParseResult.ok r) eqn:Hr; cbn [negb].
  - split; [|].
    + apply (parsed_header_ok stream packet size r blocks Hok Hp). by apply bool_decide_eq_true in Hr.
    + unfold SequenceTracker.inspect, started_by. cbn. by rewrite bool_decide_true by done.
  - by eexists.
Qed.

(** The first valid datagram starts the tracker; nothing is delivered before. *)
Lemma run_from_make w packets :
  unstarted w -> Forall (fun p => packet_ok stream p.1 p.2) packets ->
  let '(w', es) := run w packets in
  match head (omap valid_header packets) with
  | None => unstarted w' /\ es = []
  | Some h =>
      window_ok w' /\ settled w' /\ session_of w' = DownstreamHeader.session h /\
      DownstreamHeader.first_sequence h <= next_sequence w' /\
      delivered es = run_of (stream (DownstreamHeader.session h))
        (DownstreamHeader.first_sequence h) (next_sequence w')
  end.
Proof.
  intros Hu Hp. revert w Hu. induction Hp as [|[packet size] packets Hok Hrest IH]; intros w Hu; [done|].
  rewrite omap_cons_match.
  pose proof (ingest_unstarted w packet size Hu Hok) as Hi.
  destruct (valid_header (packet, size)) as [h|] eqn:Hv; cbn [head].
  - destruct Hi as [Hh Hi]. destruct (started_ok w h Hu Hh) as [Hw Hset].
    pose proof (run_ok (started_by w h) ((packet, size) :: packets) Hw Hset ltac:(by constructor)) as Hr.
    cbn [recovery_run] in *. rewrite Hi.
    destruct (ingest (started_by w h) packet size) as [[w1 st] now].
    destruct (run w1 packets) as [w2 later]. exact Hr.
  - destruct Hi as [st Hi]. cbn [recovery_run]. rewrite Hi.
    specialize (IH (w <| stats_ := st |>)). destruct (run _ packets) as [w2 later]. cbn [app].
    apply IH. destruct Hu as [st0 ->]. by exists st.
Qed.
End history.

(** C4: feed any datagrams, damaged, repeated, reordered or lost, to a fresh
    window. If the datagrams that parse carry the messages of their sessions'
    streams, then what is passed on is the stream of the first valid datagram's
    session, from that datagram's sequence number up to [next_sequence]: each
    message once, in order, unaltered and without a gap. *)
Theorem recovery_delivers_stream stream ReorderSlots MaxDatagramBytes packets :
  ReorderSlots < 2 ^ 64 -> Forall (fun p => packet_ok stream p.1 p.2) packets ->
  let '(w, es) := recovery_run MaxDatagramBytes (make ReorderSlots MaxDatagramBytes) packets in
  match head (omap valid_header packets) with
  | None => es = []
  | Some h =>
      DownstreamHeader.first_sequence h <= next_sequence w /\
      delivered es = run_of (stream (DownstreamHeader.session h))
        (DownstreamHeader.first_sequence h) (next_sequence w)
  end.
Proof.
  intros Hslots Hp.
  pose proof (run_from_make stream ReorderSlots MaxDatagramBytes Hslots _ packets
    ltac:(by exists RecoveryStats.zero) Hp) as H.
  destruct (recovery_run _ _ packets) as [w es].
  destruct (head _) as [h|]; [|by destruct H]. destruct H as (_ & _ & _ & ? & ?). done.
Qed.

(** C18: after any history and one more datagram, the window counts its
    occupied slots exactly, holds no packet that contains the next expected
    message (the draining loop ran to its end), and a retransmission request it
    made asks, for its own session and from the next expected message on, only
    for messages that no buffered packet holds. *)
Theorem recovery_settles stream ReorderSlots MaxDatagramBytes packets packet size :
  ReorderSlots < 2 ^ 64 -> Forall (fun p => packet_ok stream p.1 p.2) packets ->
  packet_ok stream packet size ->
  let w := (recovery_run MaxDatagramBytes (make ReorderSlots MaxDatagramBytes) packets).1 in
  let '(w', _, es) := ingest MaxDatagramBytes w packet size in
  buffered_datagrams w' = occupied_count (slots_ w') /\
  buffered_datagrams w' <= Z.max 0 ReorderSlots /\
  next_buffered_slot w' = None /\ Forall (request_ok w') es.
Proof.
  intros Hslots Hp Hlast w.
  pose proof (run_from_make stream ReorderSlots MaxDatagramBytes Hslots _ packets
    ltac:(by exists RecoveryStats.zero) Hp) as H.
  destruct (recovery_run _ _ packets) as [w0 es0]. cbn [fst] in w. subst w.
  assert (forall w1 st1 es1, ingested stream ReorderSlots MaxDatagramBytes w1 st1 es1 ->
    buffered_datagrams st1 = occupied_count (slots_ st1) /\
    buffered_datagrams st1 <= Z.max 0 ReorderSlots /\
    next_buffered_slot st1 = None /\ Forall (request_ok st1) es1) as Hdone.
  { intros w1 w2 es1 [Hw Hset _ _ _ Hr _]. pose proof (occupied_count_range (slots_ w2)).
    unfold buffered_datagrams. rewrite (win_occupied _ _ _ _ Hw).
    rewrite <- (win_length _ _ _ _ Hw). split_and!; [done|lia| |done].
    destruct (next_buffered_slot w2) as [[i s]|] eqn:Hn; [|done].
    destruct (next_buffered_some _ _ _ Hn) as [Hi Hh].
    pose proof (proj1 (Forall_lookup _ _) Hset i s Hi) as Hno. cbn in Hno. congruence. }
  assert (settled w0 /\ window_ok stream ReorderSlots MaxDatagramBytes w0 \/
    unstarted ReorderSlots MaxDatagramBytes w0) as [[Hset Hw]|Hu].
  { destruct (head _); [left; by destruct H as (? & ? & _)|right; by destruct H]. }
  - pose proof (ingest_ok stream ReorderSlots MaxDatagramBytes Hslots w0 packet size Hw Hset Hlast) as Hi.
    destruct (ingest _ w0 packet size) as [[w' st] es]. by apply (Hdone w0).
  - pose proof (ingest_unstarted stream ReorderSlots MaxDatagramBytes w0 packet size Hu Hlast) as Hi.
    destruct (valid_header _) as [h|].
    + destruct Hi as [Hh ->]. destruct (started_ok stream ReorderSlots MaxDatagramBytes w0 h Hu Hh) as [Hw Hset].
      pose proof (ingest_ok stream ReorderSlots MaxDatagramBytes Hslots _ packet size Hw Hset Hlast) as Hi.
      destruct (ingest _ (started_by w0 h) packet size) as [[w' st] es]. by apply (Hdone (started_by w0 h)).
    + destruct Hi as [st ->]. destruct Hu as [st0 ->].
      destruct (started_ok stream ReorderSlots MaxDatagramBytes (make ReorderSlots MaxDatagramBytes)
        DownstreamHeader.empty ltac:(by exists RecoveryStats.zero) ltac:(done)) as [Hw Hset].
      set (w1 := started_by _ _) in *.
      destruct (Hdone w1 w1 []) as (A & B & C & _); [by apply ingested_quiet; try done; apply Hw|].
      split_and!; [exact A|exact B| |constructor].
      pose proof (fresh_slots_free ReorderSlots MaxDatagramBytes) as Hfree.
      destruct (next_buffered_slot _) as [[i s]|] eqn:Hn; [|done].
      destruct (next_buffered_some _ _ _ Hn) as [Hi Hh].
      pose proof (proj1 (Forall_lookup _ _) Hfree i s Hi) as Hf. unfold holds in Hh. cbn in Hf. by rewrite Hf in Hh.
Qed.

(** ** Witnesses *)

Definition sample_stream (session : list Z) (s : Z) : list Z := [s].

Definition sample (first : Z) (n : nat) : option (list Z) * Z :=
  let p := datagram session_a first (map (fun s => [s]) (seqZ first (Z.of_nat n))) in (Some p, alen p).

Lemma sample_ok first n :
  match (sample first n).1 with
  | Some p => forallb (fun b => (0 <=? b) && (b <? 256)) p = true
  | None => False
  end ->
  (let '(r, blocks) := parse_downstream_packet (sample first n).1 (sample first n).2 in
   forallb (fun c => bool_decide (c.2 = [c.1])) (map content blocks) = true) ->
  (sample first n).2 < 2 ^ 64 ->
  packet_ok sample_stream (sample first n).1 (sample first n).2.
Proof.
  intros Hb Hs Hm. unfold packet_ok. cbn [fst sample] in *. split_and!; [|done|done|].
  - apply Forall_forall. intros b Hin%list_elem_of_In. rewrite forallb_forall in Hb.
    specialize (Hb b Hin). unfold is_byte. lia.
  - cbn [snd] in *. destruct (parse_downstream_packet _ _) as [r blocks]. intros s m Hin%list_elem_of_In.
    rewrite forallb_forall in Hs. specialize (Hs _ Hin). by apply bool_decide_eq_true in Hs.
Qed.

(** Message 2 is lost, 3 and 5 overtake it, 2-3 and 4 are sent again. *)
Definition lossy : list (option (list Z) * Z) :=
  [sample 1 1; sample 3 1; sample 5 1; (None, 0); sample 2 2; sample 4 1; sample 1 1].

Lemma lossy_ok : Forall (fun p => packet_ok sample_stream p.1 p.2) lossy.
Proof.
  unfold lossy.
  repeat (apply Forall_cons_2; [first [exact I | apply sample_ok; vm_compute; done]|]). apply Forall_nil_2.
Qed.

Lemma recovery_delivers_stream_witness :
  (let '(w, es) := recovery_run 64 (make 2 64) lossy in
   match head (omap valid_header lossy) with
   | None => es = []
   | Some h =>
       DownstreamHeader.first_sequence h <= next_sequence w /\
       delivered es = run_of (sample_stream (DownstreamHeader.session h))
         (DownstreamHeader.first_sequence h) (next_sequence w)
   end) /\
  delivered (recovery_run 64 (make 2 64) lossy).2 = [(1, [1]); (2, [2]); (3, [3]); (4, [4]); (5, [5])].
Proof.
  split; [|vm_compute; done].
  apply (recovery_delivers_stream sample_stream 2 64 lossy); [done|exact lossy_ok].
Defined.

Lemma recovery_settles_witness :
  let w := (recovery_run 64 (make 2 64) [sample 1 1]).1 in
  let '(w', _, es) := ingest 64 w (sample 3 1).1 (sample 3 1).2 in
  buffered_datagrams w' = occupied_count (slots_ w') /\ buffered_datagrams w' <= Z.max 0 2 /\
  next_buffered_slot w' = None /\ Forall (request_ok w') es.
Proof.
  intros w. apply (recovery_settles sample_stream 2 64 [sample 1 1]); [done| |].
  - apply Forall_cons_2; [|apply Forall_nil_2]. apply sample_ok; vm_compute; done.
  - apply sample_ok; vm_compute; done.
Defined.

(** ** Slots that are never freed *)

(** A buffered packet that a longer packet overtakes is behind the tracker
    for good: no later round selects it, so its slot stays occupied.  With one
    slot the window is then full although nothing is waiting. *)
Lemma overtaken_slot_is_kept :
  let w := (recovery_run 64 (make 1 64) [sample 1 1; sample 3 1; sample 2 2]).1 in
  next_sequence w = 4 /\ buffered_datagrams w = 1 /\
  map Slot.first_sequence (slots_ w) = [3] /\
  (ingest 64 w (sample 6 1).1 (sample 6 1).2).1.2 = RecoveryStatus.reorder_window_full.
Proof. vm_compute. done. Qed.
