(* ===== verification/MoldFeed.v ===== *)
(** * include/qtrader/UftBookMoldFeed.hpp

    The feed joins a recovery window to an order-book pipeline: datagrams go
    in, messages come out in sequence and are applied, every transport fault
    invalidates the book.  The pipeline is held by reference; the feed is the
    only caller modelled here. *)

From Stdlib Require Import Ascii.
From stdpp Require Import strings.
From S2P Require Import Prelude Itch50 MoldUdp64 Recovery Engine UftAdapter Pipeline.
Import moldudp64.

Module UftBookMoldFeed.

Record t := mk {
  pipeline_ : UftOrderBookPipeline.t;
  session_ : string;
  recovery_ : RecoveryWindow.t
}.

#[global] Instance eta_feed : Eta t := fun f => mk (pipeline_ f) (session_ f) (recovery_ f).

(** The bytes of a [std::string]. *)
Definition string_bytes (s : string) : list Z := map itch50.chr (String.list_ascii_of_string s).

Section feed.
Context (Slots PacketBytes : Z).

(** [None] is the thrown [invalid_argument]. *)
Definition make (pipeline : UftOrderBookPipeline.t) (session : string) : option t :=
  if negb (Z.of_nat (String.length session) =? kSessionBytes) ||
     negb (bool_decide (session = UftOrderBookPipeline.session pipeline))
  then None
  else
    let seed := make_request_packet (string_bytes session)
      (UftOrderBookPipeline.next_sequence pipeline) 0 in
    let '(recovery, _, _) :=
      RecoveryWindow.ingest PacketBytes (RecoveryWindow.make Slots PacketBytes) (Some seed) kHeaderBytes in
    Some (mk pipeline session recovery).

(** What the feed's callbacks do with one event of the recovery layer; requests
    are passed to the caller's [request]. *)
Definition on_event (session : string) (pc : UftOrderBookPipeline.t * list UftOrderBookPipeline.StrategyCall)
    (e : RecoveryEvent) : UftOrderBookPipeline.t * list UftOrderBookPipeline.StrategyCall :=
  let '(p, calls) := pc in
  match e with
  | OnMessage sequence message length =>
      let '(p, _, now) := UftOrderBookPipeline.ingest p session sequence (Some message) length in
      (p, calls ++ now)
  | OnRequest _ _ _ => (p, calls)
  | OnControl kind _ =>
      (match kind with end_of_session => UftOrderBookPipeline.invalidate p | _ => p end, calls)
  end.

Definition is_transport_fault (s : RecoveryStatus.t) : bool :=
  match s with
  | RecoveryStatus.malformed | RecoveryStatus.session_mismatch | RecoveryStatus.datagram_too_large
  | RecoveryStatus.reorder_window_full | RecoveryStatus.sequence_overflow => true
  | _ => false
  end.

(** The new feed, the status, the retransmission requests made and the calls of
    the strategy. *)
Definition ingest (f : t) (data_ : option (list Z)) (size : Z) :
    t * RecoveryStatus.t * list RecoveryEvent * list UftOrderBookPipeline.StrategyCall :=
  let '(parsed, _) := parse_downstream_packet data_ size in
  let invalid status := (f <| pipeline_ ::= UftOrderBookPipeline.invalidate |>, status, [], []) in
  if negb (ParseResult.ok parsed) then invalid RecoveryStatus.malformed
  else
    let h := ParseResult.header parsed in
    if negb (bool_decide (DownstreamHeader.session h = string_bytes (session_ f)))
    then invalid RecoveryStatus.session_mismatch
    else
      let p := pipeline_ f in
      let p :=
        if UftOrderBookPipeline.next_sequence p <? DownstreamHeader.first_sequence h then
          let last :=
            match DownstreamHeader.kind h with
            | data => u64 (DownstreamHeader.first_sequence h + DownstreamHeader.message_count h - 1)
            | _ => u64 (DownstreamHeader.first_sequence h - 1)
            end in
          UftOrderBookPipeline.note_gap p last
        else p in
      let '(recovery, result, events) := RecoveryWindow.ingest PacketBytes (recovery_ f) data_ size in
      let '(p, calls) := foldl (on_event (session_ f)) (p, []) events in
      let p := if is_transport_fault result then UftOrderBookPipeline.invalidate p else p in
      (mk p (session_ f) recovery, result,
       omap (fun e => match e with OnRequest _ _ _ => Some e | _ => None end) events, calls).
End feed.
End UftBookMoldFeed.
