(* ===== verification/MoldFeedProperties.v ===== *)
(** * Properties of the MoldUDP64 book feed

    The composition: whatever the network does to the datagrams of a session,
    an unfaulted book is the replay of the session's stream up to the next
    expected message. *)

From Stdlib Require Import Ascii.
From stdpp Require Import strings.
From S2P Require Import Prelude OpenAddressing FixedHashTable BookTypes DenseBook DenseQueues DenseFeed DenseProperties.
From S2P Require Import Itch50 UftTypes Engine UftAdapter UftAdapterFacts Pipeline PipelineFacts Samples PipelineProperties.
From S2P Require Import MoldUdp64 MoldFacts MoldProperties Recovery RecoveryFacts RecoveryProperties MoldFeed.
Import itch50 moldudp64.

Abbreviation pipeline := UftOrderBookPipeline.t.
Abbreviation is_live p := (UftOrderBookPipeline.state_ p <> Faulted).

Lemma run_of_cons g a b : a < b -> run_of g a b = (a, g a) :: run_of g (a + 1) b.
Proof.
  intros H. unfold run_of. rewrite seqZ_cons by lia. cbn [map]. do 2 f_equal.
  f_equal; lia.
Qed.

Section feed.
Context (stream : list Z -> Z -> list Z) (Slots PacketBytes : Z).
Hypothesis Hslots : Slots < 2 ^ 64.
Context (locator first : Z).

(** ** The feed's callbacks *)

Lemma message_step p taken session calls s m n :
  reached locator first p taken -> 0 <= s < 2 ^ 64 -> Forall is_byte m ->
  (is_live p -> UftOrderBookPipeline.next_ p = s) ->
  let p' := (UftBookMoldFeed.on_event session (p, calls) (OnMessage s m n)).1 in
  exists new, reached locator first p' (taken ++ new) /\
    (is_live p' -> is_live p /\ new = [(s, take (Z.to_nat n) m)] /\
       UftOrderBookPipeline.next_ p' = s + 1).
Proof.
  intros Hr Hs Hm Hnext. cbn [UftBookMoldFeed.on_event].
  pose proof (call_reached locator first p taken (IngestCall session s (Some m) n) Hr (conj Hs Hm)) as Hc.
  pose proof (ingest_spec p _ _ session s (Some m) n (reached_wf _ _ _ _ Hr) (conj Hs Hm)) as Hi.
  pose proof (call_faulted p (IngestCall session s (Some m) n)) as Hf.
  cbn [pipeline_call] in *.
  destruct (UftOrderBookPipeline.ingest p session s (Some m) n) as [[p' r] now]. cbn [fst].
  destruct Hc as (Hr' & _ & _). eexists. split; [exact Hr'|]. intros Hl.
  assert (is_live p) as Hlp. { intros E. by destruct (Hf E) as [? _]. }
  specialize (Hnext Hlp). destruct Hi as [Href|(bytes & [= <-] & _ & _ & Hadv)].
  - by destruct (Hl (ref_reason _ _ _ _ _ _ _ Href (eq_sym Hnext))).
  - pose proof (adv_next _ _ _ _ _ _ _ _ Hadv) as Hn. split_and!; [done| |done].
    by destruct (Z.eqb_spec (UftOrderBookPipeline.next_ p') (UftOrderBookPipeline.next_ p)); [lia|].
Qed.

Lemma events_step g es session p calls taken a b :
  reached locator first p taken -> Forall event_bytes es -> delivered es = run_of g a b ->
  0 <= a <= b -> b < 2 ^ 64 -> (is_live p -> UftOrderBookPipeline.next_ p = a) ->
  let p' := (foldl (UftBookMoldFeed.on_event session) (p, calls) es).1 in
  exists new, reached locator first p' (taken ++ new) /\
    (is_live p' -> is_live p /\ new = run_of g a b /\ UftOrderBookPipeline.next_ p' = b).
Proof.
  intros Hr Hb. revert p calls taken a Hr. induction Hb as [|e es He _ IH];
    intros p calls taken a Hr Hd Ha Hmax Hn; cbn [foldl].
  { cbn [fst]. exists []. rewrite app_nil_r. split; [done|]. intros Hl.
    destruct (Z.eq_dec a b) as [Eab|]; [|rewrite run_of_cons in Hd by lia; discriminate Hd].
    rewrite <- Eab, run_of_nil. split_and!; [exact Hl|done|exact (Hn Hl)]. }
  unfold delivered in Hd. rewrite omap_cons_match in Hd. destruct e as [s m n|ses f c|k s]; cbn [message_of] in Hd.
  - destruct (Z.eq_dec a b) as [->|]; [by rewrite run_of_nil in Hd|].
    rewrite run_of_cons in Hd by lia. injection Hd as -> Hm Hd.
    destruct (message_step p taken session calls a m n Hr ltac:(lia) He Hn) as (new & Hr1 & Hl1).
    destruct (UftBookMoldFeed.on_event session (p, calls) (OnMessage a m n)) as [p1 calls1]. cbn [fst] in *.
    destruct (IH p1 calls1 _ (a + 1) Hr1 Hd ltac:(lia) Hmax) as (new2 & Hr2 & Hl2); [intros Hl; by destruct (Hl1 Hl) as (_ & _ & ?)|].
    exists (new ++ new2). rewrite app_assoc. split; [done|]. intros Hl.
    destruct (Hl2 Hl) as (Hlp1 & -> & Hn2). destruct (Hl1 Hlp1) as (? & -> & _).
    split_and!; [done| |done]. rewrite (run_of_cons g a b) by lia. cbn [app]. by rewrite Hm.
  - by apply (IH p calls taken a).
  - set (p1 := match k with end_of_session => UftOrderBookPipeline.invalidate p | _ => p end).
    assert (reached locator first p1 taken /\ (is_live p1 -> is_live p) /\
      UftOrderBookPipeline.next_ p1 = UftOrderBookPipeline.next_ p) as (Hr1 & Hl1 & Hn1).
    { unfold p1. destruct k; [done..|]. split_and!; [|done..].
      pose proof (call_reached locator first p taken InvalidateCall Hr I) as [H _].
      by rewrite app_nil_r in H. }
    cbn [UftBookMoldFeed.on_event]. fold p1.
    destruct (IH p1 calls taken a Hr1 Hd Ha Hmax) as (new & Hr2 & Hl2);
      [intros Hl; rewrite Hn1; by apply Hn, Hl1|].
    exists new. split; [done|]. intros Hl. destruct (Hl2 Hl) as (? & ? & ?). split_and!; auto.
Qed.

(** ** The invariant of the feed *)

Record feed_ok (f : UftBookMoldFeed.t) (taken : list (Z * list Z)) : Prop := {
  feed_reached : reached locator first (UftBookMoldFeed.pipeline_ f) taken;
  feed_window : window_ok stream Slots PacketBytes (UftBookMoldFeed.recovery_ f);
  feed_settled : settled (UftBookMoldFeed.recovery_ f);
  feed_session : session_of (UftBookMoldFeed.recovery_ f) =
    UftBookMoldFeed.string_bytes (UftBookMoldFeed.session_ f);
  feed_live : is_live (UftBookMoldFeed.pipeline_ f) ->
    UftOrderBookPipeline.next_ (UftBookMoldFeed.pipeline_ f) =
      RecoveryWindow.next_sequence (UftBookMoldFeed.recovery_ f) /\
    taken = run_of (stream (UftBookMoldFeed.string_bytes (UftBookMoldFeed.session_ f))) first
      (RecoveryWindow.next_sequence (UftBookMoldFeed.recovery_ f))
}.

Lemma invalidated_ok f taken :
  feed_ok f taken ->
  feed_ok (f <| UftBookMoldFeed.pipeline_ ::= UftOrderBookPipeline.invalidate |>) taken.
Proof.
  intros [Hr Hw Hs Hse _]. constructor; try done.
  pose proof (call_reached locator first _ taken InvalidateCall Hr I) as [H _].
  by rewrite app_nil_r in H.
Qed.

Lemma feed_step f taken packet size :
  feed_ok f taken -> packet_ok stream packet size ->
  exists taken', feed_ok (UftBookMoldFeed.ingest PacketBytes f packet size).1.1.1 taken'.
Proof.
  intros Hf Hp. pose proof Hf as [Hr Hw Hset Hses Hlive]. unfold UftBookMoldFeed.ingest.
  destruct (parse_downstream_packet packet size) as [r blocks].
  destruct (ParseResult.ok r); cbn [negb]; [|by exists taken; apply invalidated_ok].
  destruct (bool_decide _); cbn [negb]; [|by exists taken; apply invalidated_ok].
  set (h := ParseResult.header r). match goal with |- context [UftOrderBookPipeline.note_gap _ ?x] => set (last := x) end.
  match goal with |- context [foldl _ (?x, []) _] => set (p0 := x) end.
  assert (reached locator first p0 taken /\ (is_live p0 -> is_live (UftBookMoldFeed.pipeline_ f)) /\
    UftOrderBookPipeline.next_ p0 = UftOrderBookPipeline.next_ (UftBookMoldFeed.pipeline_ f))
    as (Hr0 & Hl0 & Hn0).
  { unfold p0. destruct (_ <? _); [|done].
    pose proof (call_reached locator first _ taken (NoteGapCall last) Hr I) as [H _].
    rewrite app_nil_r in H. split_and!; [exact H| |].
    - unfold UftOrderBookPipeline.note_gap. destruct (_ || _) eqn:E; [done|].
      apply orb_false_iff in E as [E%bool_decide_eq_false _]. done.
    - unfold UftOrderBookPipeline.note_gap. by destruct (_ || _). }
  clearbody p0. pose proof (ingest_ok stream Slots PacketBytes Hslots _ packet size Hw Hset Hp) as Hi.
  destruct (RecoveryWindow.ingest _ _ _ _) as [[recovery result] events].
  destruct Hi as [Hw' Hset' Hses' Hnext Hdel _ Hby].
  pose proof (win_next _ _ _ _ Hw). pose proof (win_next _ _ _ _ Hw').
  destruct (events_step _ events (UftBookMoldFeed.session_ f) p0 [] taken _ _ Hr0 Hby Hdel)
    as (new & Hr1 & Hl1); [lia..|intros Hl; rewrite Hn0; by destruct (Hlive (Hl0 Hl))|].
  destruct (foldl _ _ events) as [p1 calls]. cbn [fst] in *. exists (taken ++ new).
  constructor; cbn; [|done|done|exact (eq_trans Hses' Hses)|].
  - destruct (UftBookMoldFeed.is_transport_fault result); [|done].
    pose proof (call_reached locator first p1 _ InvalidateCall Hr1 I) as [Hinv _].
    by rewrite app_nil_r in Hinv.
  - destruct (UftBookMoldFeed.is_transport_fault result); [done|]. intros Hl.
    pose proof (reached_next _ _ _ _ Hr). pose proof (Zle_0_nat (length taken)).
    destruct (Hl1 Hl) as (Hlp & -> & Hn). destruct (Hlive (Hl0 Hlp)) as [Hn' ->].
    split; [done|]. rewrite Hses. apply run_of_app. lia.
Qed.

(** ** Construction *)

Lemma string_bytes_ok s :
  Forall is_byte (UftBookMoldFeed.string_bytes s) /\
  alen (UftBookMoldFeed.string_bytes s) = Z.of_nat (String.length s).
Proof.
  unfold UftBookMoldFeed.string_bytes, alen. split.
  - apply Forall_forall. intros b (c & -> & _)%list_elem_of_fmap. unfold is_byte, chr.
    pose proof (nat_ascii_bounded c). lia.
  - rewrite length_map. f_equal. induction s as [|c s IH]; simpl; [done|]. by f_equal.
Qed.

Lemma feed_make_ok p session f :
  reached locator first p [] -> UftBookMoldFeed.make Slots PacketBytes p session = Some f ->
  feed_ok f [] /\ UftBookMoldFeed.session_ f = session.
Proof.
  intros Hr. unfold UftBookMoldFeed.make. destruct (_ || _) eqn:Hbad; [done|].
  apply orb_false_iff in Hbad as [Hlen%negb_false_iff%Z.eqb_eq _].
  destruct (string_bytes_ok session) as [Hb Hl]. rewrite Hlen in Hl.
  set (sess := UftBookMoldFeed.string_bytes session) in *.
  pose proof (reached_next _ _ _ _ Hr) as Hn. pose proof (wf_next _ _ _ (reached_wf _ _ _ _ Hr)) as Hrange.
  unfold UftOrderBookPipeline.next_sequence. set (next := UftOrderBookPipeline.next_ p) in *.
  set (seed := make_request_packet sess next 0).
  assert (alen seed = 20) as Hseed.
  { unfold seed, make_request_packet. rewrite encode_u64_be, encode_u16_be. by apply alen_header_bytes. }
  assert (decode_header (Some seed) 20 = (DownstreamHeader.mk sess next 0, true)) as Hd.
  { unfold seed, make_request_packet. rewrite encode_u64_be, encode_u16_be.
    pose proof (decode_header_bytes sess next 0 [] 20 Hl Hb ltac:(constructor)) as Hx.
    rewrite app_nil_r in Hx. apply Hx; lia. }
  assert (parse_downstream_packet (Some seed) 20 =
    (ParseResult.mk (DownstreamHeader.mk sess next 0) none 20 0, [])) as Hparse
    by (unfold parse_downstream_packet; by rewrite Hd).
  assert (packet_ok stream (Some seed) 20) as Hok.
  { unfold packet_ok. rewrite Hparse. split_and!; [|lia|done|by intros s m Hin%elem_of_nil].
    unfold seed, make_request_packet. rewrite encode_u64_be, encode_u16_be, !Forall_app.
    split_and!; [done|apply be_bytes_ok..]. }
  assert (unstarted Slots PacketBytes (RecoveryWindow.make Slots PacketBytes)) as Hu
    by (by exists RecoveryStats.zero).
  pose proof (ingest_unstarted stream Slots PacketBytes _ (Some seed) 20 Hu Hok) as Hi.
  unfold valid_header in Hi. cbn [fst snd] in Hi. rewrite Hparse in Hi.
  cbn [ParseResult.ok ParseResult.error ParseResult.header] in Hi.
  change (ParseResult.ok _) with true in Hi. cbv iota in Hi. destruct Hi as [Hh Hi].
  unfold kHeaderBytes. rewrite Hi.
  destruct (started_ok stream Slots PacketBytes _ _ Hu Hh) as [Hw Hset].
  set (w := started_by _ _) in *.
  assert (RecoveryWindow.ingest PacketBytes w (Some seed) 20 =
    (RecoveryWindow.count w (fun s => s <| RecoveryStats.datagrams ::= incr |>),
     RecoveryStatus.heartbeat, [OnControl heartbeat next])) as Hing.
  { unfold RecoveryWindow.ingest. rewrite Hparse. unfold SequenceTracker.inspect, w, started_by. cbn.
    rewrite bool_decide_true by done. cbn. unfold SequenceTracker.decide_sequence. cbn.
    change (ParseResult.ok _) with true. change (bool_decide (heartbeat = data)) with false.
    cbn. by rewrite Z.ltb_irrefl, Z.eqb_refl. }
  rewrite Hing. intros [= <-]. split; [|done]. constructor; try done.
  - apply (count_ok stream Slots PacketBytes w _ Hw).
  - intros _. cbn. fold next. split; [done|]. rewrite Hn. simpl. by rewrite Z.add_0_r, run_of_nil.
Qed.
End feed.

(** ** Histories *)

Fixpoint feed_run (PacketBytes : Z) (f : UftBookMoldFeed.t) (packets : list (option (list Z) * Z)) :
    UftBookMoldFeed.t :=
  match packets with
  | [] => f
  | (packet, size) :: packets' =>
      feed_run PacketBytes (UftBookMoldFeed.ingest PacketBytes f packet size).1.1.1 packets'
  end.

Lemma feed_session_kept PacketBytes f packet size :
  UftBookMoldFeed.session_ (UftBookMoldFeed.ingest PacketBytes f packet size).1.1.1 =
    UftBookMoldFeed.session_ f.
Proof.
  unfold UftBookMoldFeed.ingest. destruct (parse_downstream_packet _ _) as [r blocks].
  destruct (negb _); [done|]. destruct (negb _); [done|].
  destruct (RecoveryWindow.ingest _ _ _ _) as [[recovery result] events].
  by destruct (foldl _ _ _) as [p calls].
Qed.

Lemma feed_run_ok stream Slots PacketBytes locator first f taken packets :
  Slots < 2 ^ 64 -> feed_ok stream Slots PacketBytes locator first f taken ->
  Forall (fun p => packet_ok stream p.1 p.2) packets ->
  (exists taken', feed_ok stream Slots PacketBytes locator first (feed_run PacketBytes f packets) taken') /\
  UftBookMoldFeed.session_ (feed_run PacketBytes f packets) = UftBookMoldFeed.session_ f.
Proof.
  intros Hslots Hf Hp. revert f taken Hf. induction Hp as [|[packet size] packets Hok _ IH]; intros f taken Hf;
    cbn [feed_run]; [split; [by eexists|done]|].
  destruct (feed_step stream Slots PacketBytes Hslots locator first f taken packet size Hf Hok) as [taken' Hf'].
  destruct (IH _ _ Hf') as [? Hs]. split; [done|]. rewrite Hs. apply feed_session_kept.
Qed.

(** C2: a feed on a fresh pipeline, driven by any datagrams, lost, repeated,
    reordered or damaged: as long as the pipeline is not faulted its book is, to
    every query, the price-time replay of the session's stream from the first
    sequence number up to the next expected one, and transport and pipeline
    agree on what that is. *)
Theorem feed_book_replays_stream stream Slots PacketBytes session first locator max_orders max_matches
    minimum maximum tick p strategy callback f packets :
  fresh session first locator max_orders max_matches minimum maximum tick = Some p ->
  parameters_ok first max_orders max_matches maximum -> Slots < 2 ^ 64 ->
  UftBookMoldFeed.make Slots PacketBytes (UftOrderBookPipeline.start p strategy callback).1 session = Some f ->
  Forall (fun p => packet_ok stream p.1 p.2) packets ->
  let f' := feed_run PacketBytes f packets in
  let next := UftOrderBookPipeline.next_sequence (UftBookMoldFeed.pipeline_ f') in
  UftOrderBookPipeline.state (UftBookMoldFeed.pipeline_ f') <> Faulted ->
  next = RecoveryWindow.next_sequence (UftBookMoldFeed.recovery_ f') /\ first <= next /\
  observed (UftOrderBookPipeline.book (UftBookMoldFeed.pipeline_ f'))
    (book_after locator
      (map (stream (UftBookMoldFeed.string_bytes session)) (seqZ first (next - first)))).
Proof.
  intros Hm (Ho & Hmm & Hfi & Hmax) Hslots Hf Hp f' next Hl.
  pose proof (fresh_reached _ _ _ _ _ _ _ _ _ Hm Ho Hmm Hfi Hmax) as Hr.
  pose proof (call_reached locator first p [] (StartCall strategy callback) Hr I) as [Hr1 _]. cbn [app] in Hr1.
  destruct (feed_make_ok stream Slots PacketBytes locator first _ session f Hr1 Hf) as [Hok Hses].
  destruct (feed_run_ok stream Slots PacketBytes locator first f [] packets Hslots Hok Hp) as [[taken Hok'] Hs].
  fold f' in Hok', Hs. destruct (feed_live _ _ _ _ _ _ _ Hok' Hl) as [Hn Ht].
  pose proof (feed_reached _ _ _ _ _ _ _ Hok') as Hreach. rewrite Hs, Hses, <- Hn in Ht.
  fold next in Ht. pose proof (reached_next _ _ _ _ Hreach) as Hlen.
  change (next = first + Z.of_nat (length taken)) in Hlen.
  split_and!; [exact Hn|lia|]. unfold next. change (UftOrderBookPipeline.next_sequence _) with next.
  assert (map snd taken = map (stream (UftBookMoldFeed.string_bytes session)) (seqZ first (next - first))) as <-.
  { rewrite Ht. unfold run_of. rewrite map_map. done. }
  destruct (wf_book _ _ _ (reached_wf _ _ _ _ Hreach)) as [|[Hmir _]]; [done|].
  by apply represents_observed, Hmir.
Qed.

(** ** Witness: three messages in four datagrams, one late and one repeated *)

Definition order_stream (session : list Z) (s : Z) : list Z :=
  if s =? 1 then add_message 5 else if s =? 2 then add_message 6 else execute_message 5 9.

Definition one (s : Z) : option (list Z) * Z :=
  let p := datagram session_a s [order_stream session_a s] in (Some p, alen p).

Definition four_datagrams : list (option (list Z) * Z) := [one 1; one 3; one 2; one 1].

Lemma one_ok s :
  match (one s).1 with
  | Some p => forallb is_byteb p = true
  | None => False
  end ->
  (let '(r, blocks) := parse_downstream_packet (one s).1 (one s).2 in
   forallb (fun c => bool_decide (c.2 = order_stream [] c.1)) (map content blocks) = true) ->
  (one s).2 < 2 ^ 64 ->
  packet_ok order_stream (one s).1 (one s).2.
Proof.
  intros Hb Hs Hm. unfold packet_ok. cbn [fst one] in *. split_and!; [by apply bytes_ok|done|done|].
  cbn [snd] in *. destruct (parse_downstream_packet _ _) as [r blocks]. intros k m Hin%list_elem_of_In.
  rewrite forallb_forall in Hs. specialize (Hs _ Hin). by apply bool_decide_eq_true in Hs.
Qed.

Lemma four_datagrams_ok : Forall (fun p => packet_ok order_stream p.1 p.2) four_datagrams.
Proof.
  unfold four_datagrams.
  repeat (apply Forall_cons_2; [apply one_ok; vm_compute; done|]). apply Forall_nil_2.
Qed.

Definition sample_pipeline : option pipeline := fresh "ABCDEFGHIJ" 1 7 4 4 90 110 1.
Definition sample_feed (p : pipeline) : option UftBookMoldFeed.t :=
  UftBookMoldFeed.make 2 128 (UftOrderBookPipeline.start p (Some 1) (Some (fun _ => []))).1 "ABCDEFGHIJ".

Lemma feed_book_replays_stream_witness :
  match sample_pipeline ≫= sample_feed with
  | Some f =>
      let f' := feed_run 128 f four_datagrams in
      let next := UftOrderBookPipeline.next_sequence (UftBookMoldFeed.pipeline_ f') in
      next = 4 /\
      next = RecoveryWindow.next_sequence (UftBookMoldFeed.recovery_ f') /\ 1 <= next /\
      observed (UftOrderBookPipeline.book (UftBookMoldFeed.pipeline_ f'))
        (book_after 7
          (map (order_stream (UftBookMoldFeed.string_bytes "ABCDEFGHIJ")) (seqZ 1 (next - 1))))
  | None => False
  end.
Proof.
  destruct sample_pipeline as [p|] eqn:E; [|vm_compute in E; discriminate E].
  cbn [mbind option_bind]. destruct (sample_feed p) as [f|] eqn:F.
  - assert (UftOrderBookPipeline.state_ (UftBookMoldFeed.pipeline_ (feed_run 128 f four_datagrams)) = Live /\
      UftOrderBookPipeline.next_ (UftBookMoldFeed.pipeline_ (feed_run 128 f four_datagrams)) = 4) as [Hl Hn].
    { injection E as <-. vm_compute in F. injection F as <-. vm_compute. done. }
    split; [exact Hn|].
    apply (feed_book_replays_stream order_stream 2 128 "ABCDEFGHIJ" 1 7 4 4 90 110 1 p
      (Some 1) (Some (fun _ => [])) f four_datagrams);
      [exact E|by split_and!|done|exact F|exact four_datagrams_ok|].
    unfold UftOrderBookPipeline.state. by rewrite Hl.
  - injection E as <-. vm_compute in F. discriminate F.
Defined.
