(* ===== verification/Loopback.v ===== *)
(** * tools/NasdaqMoldUdpLoopback.cpp

    The loopback tool: [main] packs the messages of a historical file into
    MoldUDP64 datagrams and sends them to itself; a second thread receives,
    parses and counts them.  The two threads take turns at will.  The sockets
    are outside the repository: a network is any value with a [sendto] and a
    [recv] that behave as documented; it may lose, repeat and reorder
    datagrams. *)

From Stdlib Require Import Ascii.
From S2P Require Import Prelude Itch50 MoldUdp64 HistoricalFile.
Import itch50 moldudp64.

(** What [::sendto] returns: the bytes sent, [EINTR], or another error. *)
Inductive SendResult := Sent (bytes : Z) | SendInterrupted | SendFailed.

(** What [::recv] returns: a datagram, [EINTR], the timeout, or another error. *)
Inductive RecvResult := Received (b : list Z) | RecvInterrupted | TimedOut | RecvFailed.

Class Network (N : Type) := {
  sendto : N -> list Z -> N * SendResult;
  recv : N -> Z -> N * RecvResult
}.

(** The longest datagram UDP carries over IPv4. *)
Definition udp_limit : Z := 65507.

(** UDP: what is received was sent before, cut to the buffer; how often and in
    which order is left open. *)
Class NetworkLaws (N : Type) `{Network N} := {
  carried : N -> list (list Z);
  sendto_carried n d n' r :
    sendto n d = (n', r) ->
    carried n' = carried n ++ match r with Sent _ => [d] | _ => [] end;
  sendto_limit n d n' bytes : sendto n d = (n', Sent bytes) -> alen d <= udp_limit;
  recv_carried n capacity n' r :
    recv n capacity = (n', r) ->
    carried n' = carried n /\
    forall b, r = Received b -> exists d, d ∈ carried n /\ b = take (Z.to_nat capacity) d
}.

(** A loopback interface with room for everything: datagrams wait in order,
    each is received once, and a receiver times out only when none waits. *)
Class LosslessLaws (N : Type) `{Network N} := {
  waiting : N -> list (list Z);
  sendto_waiting n d n' r :
    sendto n d = (n', r) ->
    match r with
    | Sent bytes => bytes = alen d /\ alen d <= udp_limit /\ waiting n' = waiting n ++ [d]
    | _ => waiting n' = waiting n
    end;
  recv_waiting n capacity n' r :
    recv n capacity = (n', r) ->
    match r with
    | Received b => exists d, waiting n = d :: waiting n' /\ b = take (Z.to_nat capacity) d
    | TimedOut => waiting n = [] /\ waiting n' = []
    | _ => waiting n' = waiting n
    end
}.

Module NasdaqMoldUdpLoopback.

Definition kDatagramBytes : Z := 1400.

Module ReceiverStats.
Record t := mk {
  datagrams : Z;
  messages : Z;
  bytes : Z;
  malformed_packets : Z;
  malformed_itch : Z;
  gaps : Z;
  gap_messages : Z;
  duplicates : Z;
  session_mismatches : Z;
  end_of_session : bool
}.
#[global] Instance eta_receiver_stats : Eta t := fun s =>
  mk (datagrams s) (messages s) (bytes s) (malformed_packets s) (malformed_itch s) (gaps s)
    (gap_messages s) (duplicates s) (session_mismatches s) (end_of_session s).
Definition zero : t := mk 0 0 0 0 0 0 0 0 0 false.
End ReceiverStats.
Import (hints) ReceiverStats.

(** The exceptions that leave the [try] block of the sender. *)
Inductive LoopbackError :=
  | scan_failed (e : ScanError)
  | sendto_failed
  | end_sendto_failed.

(** ** [receive_packets] *)

(** What [receiver_error] holds. *)
Inductive ReceiveError := recv_failed.

Inductive ReceiverAt :=
  | Receiving
  | TimeoutSeen
  | ReceiverFinished
  | ReceiverThrew (e : ReceiveError).

Record Receiver := mkReceiver {
  stats : ReceiverStats.t;
  tracker : SequenceTracker.t;
  buffer : list Z;
  receiver_at : ReceiverAt
}.
#[global] Instance eta_receiver : Eta Receiver := fun r =>
  mkReceiver (stats r) (tracker r) (buffer r) (receiver_at r).

Definition kReceiveBytes : Z := 65536.

Definition new_receiver : Receiver :=
  mkReceiver ReceiverStats.zero SequenceTracker.fresh (replicate (Z.to_nat kReceiveBytes) 0) Receiving.

Definition note_decision (s : ReceiverStats.t) (d : SequenceDecision.t) : ReceiverStats.t :=
  match SequenceDecision.state d with
  | SequenceState.gap =>
      s <| ReceiverStats.gaps ::= incr |>
        <| ReceiverStats.gap_messages ::= fun n => u64 (n + SequenceDecision.gap_messages d) |>
  | SequenceState.duplicate => s <| ReceiverStats.duplicates ::= incr |>
  | SequenceState.session_mismatch => s <| ReceiverStats.session_mismatches ::= incr |>
  | _ => s
  end.

(** [expected == 0 || expected != size] *)
Definition wrong_size (b : Block) : bool :=
  let size := block_size b in
  let expected := if size =? 0 then 0 else expected_message_size (byte_at (block_message b) 0) in
  (expected =? 0) || negb (expected =? size).

(** The parser's callback, over [message_index], the statistics and the
    messages that were counted. *)
Definition on_block (d : SequenceDecision.t) (acc : Z * ReceiverStats.t * list Block) (b : Block) :
    Z * ReceiverStats.t * list Block :=
  let '(message_index, s, counted) := acc in
  let process := SequenceDecision.may_process d && (SequenceDecision.skip_messages d <=? message_index) in
  let message_index := u16 (message_index + 1) in
  if negb process then (message_index, s, counted)
  else
    let s := s <| ReceiverStats.messages ::= incr |> in
    let s := if wrong_size b then s <| ReceiverStats.malformed_itch ::= incr |> else s in
    (message_index, s, counted ++ [b]).

(** The body of the loop once [recv] gave a datagram, now in the buffer; with
    it the messages counted. *)
Definition receive_datagram (r : Receiver) (received : Z) : Receiver * list Block :=
  let s := (stats r) <| ReceiverStats.datagrams ::= incr |>
                     <| ReceiverStats.bytes ::= fun n => u64 (n + received) |> in
  let '(header, decoded) := decode_header (Some (buffer r)) received in
  if negb decoded then (r <| stats := s <| ReceiverStats.malformed_packets ::= incr |> |>, [])
  else
    let '(tracker', decision) := SequenceTracker.inspect (tracker r) header in
    let r := r <| tracker := tracker' |> in
    let '(result, blocks) := parse_downstream_packet (Some (buffer r)) received in
    let '(_, s, counted) := foldl (on_block decision) (0, note_decision s decision, []) blocks in
    if negb (ParseResult.ok result) then
      (r <| stats := s <| ReceiverStats.malformed_packets ::= incr |> |>, counted)
    else
      let r := r <| tracker := SequenceTracker.commit tracker' header decision |> in
      if bool_decide (DownstreamHeader.kind header = end_of_session) then
        (r <| stats := s <| ReceiverStats.end_of_session := true |> |>
           <| receiver_at := ReceiverFinished |>, counted)
      else (r <| stats := s |>, counted).

(** ** The sender *)

(** Where [main] is: in the scan, in a [sendto] of [send_datagram] with the
    message that waits for room, in the last [sendto], at the store of
    [sender_done], or past it. *)
Inductive SenderAt :=
  | Scanning
  | Sending (next : option (list Z * Z))
  | SendingEnd
  | Leaving (thrown : option LoopbackError)
  | SenderLeft (thrown : option LoopbackError).

Record Sender := mkSender {
  datagram : list Z;
  first_sequence : Z;
  count : Z;
  sent_messages : Z;
  sent_datagrams : Z;
  calls : list (list Z * Z);
  sender_at : SenderAt
}.
#[global] Instance eta_sender : Eta Sender := fun s =>
  mkSender (datagram s) (first_sequence s) (count s) (sent_messages s) (sent_datagrams s) (calls s)
    (sender_at s).

(** [{'P', 'S', 'X', '2', '0', '1', '9', '0', '7', '3'}] *)
Definition session : list Z := [80; 83; 88; 50; 48; 49; 57; 48; 55; 51].

(** [source] over the bytes of [a] from [offset] on. *)
Definition overwrite (a : list Z) (offset : nat) (source : list Z) : list Z :=
  take offset a ++ source ++ drop (offset + length source) a.

Definition new_sender (scan : list (list Z * Z)) : Sender :=
  mkSender (overwrite (replicate (Z.to_nat kHeaderBytes) 0) 0 session) 1 0 0 0 scan Scanning.

(** [datagram.resize(size)] *)
Definition resize (a : list Z) (size : Z) : list Z :=
  take (Z.to_nat size) a ++ replicate (Z.to_nat size - length a) 0.

(** The callback from [old_size] on. *)
Definition append (s : Sender) (message : list Z) (size : Z) : Sender :=
  let old_size := alen (datagram s) in
  let grown := resize (datagram s) (old_size + (size + 2)) in
  let prefixed := overwrite grown (Z.to_nat old_size) (encode_u16 size) in
  s <| datagram := overwrite prefixed (Z.to_nat (old_size + 2)) (take (Z.to_nat size) message) |>
    <| count ::= fun n => u16 (n + 1) |> <| sent_messages ::= incr |>.

(** What follows [send_datagram]: the rest of the callback, or the packet that
    ends the session. *)
Definition after_send (s : Sender) (next : option (list Z * Z)) : Sender :=
  match next with
  | Some (message, size) => (append s message size) <| sender_at := Scanning |>
  | None => s <| sender_at := SendingEnd |>
  end.

(** [send_datagram] up to the loop over [sendto]. *)
Definition send_datagram (s : Sender) (next : option (list Z * Z)) : Sender :=
  if count s =? 0 then after_send s next
  else
    s <| datagram ::= fun d => overwrite (overwrite d 10 (encode_u64 (first_sequence s))) 18
           (encode_u16 (count s)) |>
      <| sender_at := Sending next |>.

(** [send_datagram] after a [sendto] that sent everything. *)
Definition datagram_sent (s : Sender) : Sender :=
  s <| first_sequence ::= fun n => u64 (n + count s) |> <| sent_datagrams ::= incr |>
    <| count := 0 |> <| datagram ::= fun d => resize d kHeaderBytes |>.

(** The next callback of the scan, or its end; [ending] is how the scan ends
    when the callback does not throw. *)
Definition next_call (limit : Z) (ending : result FileScanResult.t) (s : Sender) : Sender :=
  match calls s with
  | [] =>
      match ending with
      | inl _ => send_datagram s None
      | inr e => s <| sender_at := Leaving (Some (scan_failed e)) |>
      end
  | (message, size) :: rest =>
      if limit <=? sent_messages s then send_datagram s None
      else
        let s := s <| calls := rest |> in
        if kDatagramBytes <? alen (datagram s) + (size + 2) then send_datagram s (Some (message, size))
        else append s message size
  end.

Definition end_packet (s : Sender) : list Z :=
  make_request_packet session (first_sequence s) kEndOfSession.

(** ** The two threads *)

Inductive Step := SenderStep | ReceiverStep.

Section loopback.
Context {N : Type} `{Network N} (limit : Z) (ending : result FileScanResult.t).

Record t := mk {
  net : N;
  sender : Sender;
  receiver : Receiver;
  sender_done : bool
}.
#[global] Instance eta_loopback : Eta t := fun p =>
  mk (net p) (sender p) (receiver p) (sender_done p).

Definition make (n : N) (scan : list (list Z * Z)) : t := mk n (new_sender scan) new_receiver false.

(** The sender's next step; [None] when it has left. *)
Definition sender_step (p : t) : option t :=
  let s := sender p in
  match sender_at s with
  | Scanning => Some (p <| sender := next_call limit ending s |>)
  | Sending next =>
      let '(n, r) := sendto (net p) (datagram s) in
      let p := p <| net := n |> in
      Some match r with
      | SendInterrupted => p
      | Sent bytes =>
          if bytes =? alen (datagram s) then p <| sender := after_send (datagram_sent s) next |>
          else p <| sender := s <| sender_at := Leaving (Some sendto_failed) |> |>
      | SendFailed => p <| sender := s <| sender_at := Leaving (Some sendto_failed) |> |>
      end
  | SendingEnd =>
      let '(n, r) := sendto (net p) (end_packet s) in
      let sent := match r with Sent bytes => bytes | _ => -1 end in
      let thrown := if sent =? alen (end_packet s) then None else Some end_sendto_failed in
      Some (p <| net := n |> <| sender := s <| sender_at := Leaving thrown |> |>)
  | Leaving thrown => Some (p <| sender_done := true |> <| sender := s <| sender_at := SenderLeft thrown |> |>)
  | SenderLeft _ => None
  end.

(** The receiver's next step and the messages it counts; [None] when it has
    ended. *)
Definition receiver_step (p : t) : option (t * list Block) :=
  let r := receiver p in
  match receiver_at r with
  | Receiving =>
      let '(n, result) := recv (net p) (alen (buffer r)) in
      let p := p <| net := n |> in
      Some match result with
      | Received b =>
          let '(r, counted) := receive_datagram (r <| buffer ::= fun a => overwrite a 0 b |>) (alen b) in
          (p <| receiver := r |>, counted)
      | RecvInterrupted => (p, [])
      | TimedOut => (p <| receiver := r <| receiver_at := TimeoutSeen |> |>, [])
      | RecvFailed => (p <| receiver := r <| receiver_at := ReceiverThrew recv_failed |> |>, [])
      end
  | TimeoutSeen =>
      let next := if sender_done p then ReceiverFinished else Receiving in
      Some (p <| receiver := r <| receiver_at := next |> |>, [])
  | ReceiverFinished | ReceiverThrew _ => None
  end.

Definition step (p : t) (who : Step) : option (t * list Block) :=
  match who with
  | SenderStep => p ← sender_step p; Some (p, [])
  | ReceiverStep => receiver_step p
  end.

(** A schedule: the state it leads to and all the messages counted. *)
Fixpoint run (p : t) (schedule : list Step) : option (t * list Block) :=
  match schedule with
  | [] => Some (p, [])
  | who :: schedule' =>
      '(p, now) ← step p who;
      '(p, later) ← run p schedule';
      Some (p, now ++ later)
  end.

(** What [main] returns once both threads have ended. *)
Definition exit_code (p : t) : option Z :=
  let s := stats (receiver p) in
  match sender_at (sender p), receiver_at (receiver p) with
  | SenderLeft (Some _), (ReceiverFinished | ReceiverThrew _) => Some 1
  | SenderLeft None, ReceiverThrew _ => Some 1
  | SenderLeft None, ReceiverFinished =>
      Some (if (ReceiverStats.messages s =? sent_messages (sender p)) &&
               (ReceiverStats.malformed_packets s =? 0) && (ReceiverStats.malformed_itch s =? 0) &&
               (ReceiverStats.gaps s =? 0) && ReceiverStats.end_of_session s
            then 0 else 1)
  | _, _ => None
  end.

End loopback.
End NasdaqMoldUdpLoopback.
