(* ===== verification/LoopbackSender.v ===== *)
(** * The sender of the loopback tool

    Each step of the sender keeps [sender_ok]: the messages of the scan split
    into those in the datagrams sent, those in the datagram being filled, and
    those still to come; what goes on the wire is the encoding of a chunk of
    them, and at the end the packet that ends the session. *)

From Stdlib Require Import Ascii.
From S2P Require Import Prelude Itch50 MoldUdp64 MoldFacts MoldProperties HistoricalFile FileProperties Loopback.
Import itch50 moldudp64 NasdaqMoldUdpLoopback.
Import (hints) NasdaqMoldUdpLoopback.

(** ** Writing into a vector *)

Lemma overwrite_app x y z source n :
  n = length x -> length source = length y -> overwrite (x ++ y ++ z) n source = x ++ source ++ z.
Proof.
  intros -> Hl. unfold overwrite. rewrite take_app_length, Hl. f_equal. f_equal.
  by rewrite drop_app_add, drop_app_length.
Qed.

Lemma overwrite_end x y source n :
  n = length x -> length source = length y -> overwrite (x ++ y) n source = x ++ source.
Proof. intros. rewrite <- (app_nil_r y), overwrite_app by done. by rewrite app_nil_r. Qed.

Lemma overwrite_start a source :
  (length source <= length a)%nat -> overwrite a 0 source = source ++ drop (length source) a.
Proof. intros. done. Qed.

Lemma resize_grow a n : 0 <= n -> resize a (alen a + n) = a ++ replicate (Z.to_nat n) 0.
Proof.
  intros Hn. unfold resize, alen. rewrite take_ge by lia. do 2 f_equal. lia.
Qed.

Lemma resize_shrink a b n : n = alen a -> resize (a ++ b) n = a.
Proof.
  intros ->. unfold resize. rewrite take_alen_app. unfold alen. rewrite Nat2Z.id, length_app.
  replace (length a - (length a + length b))%nat with O by lia. apply app_nil_r.
Qed.

(** The header fields are filled in before a datagram is sent. *)
Lemma put_header hdr rest first n :
  length hdr = 20%nat -> take 10 hdr = session ->
  overwrite (overwrite (hdr ++ rest) 10 (encode_u64 first)) 18 (encode_u16 n) =
    header_bytes session first n ++ rest.
Proof.
  intros Hl Hs. rewrite encode_u64_be, encode_u16_be. rewrite <- (take_drop 10 hdr), Hs.
  rewrite <- (take_drop 8 (drop 10 hdr)), drop_drop, <- !app_assoc.
  rewrite overwrite_app by (rewrite ?length_be_bytes, ?length_take, ?length_drop; try done; lia).
  rewrite app_assoc, overwrite_app; [unfold header_bytes; by rewrite <- !app_assoc|..].
  - by rewrite length_app, length_be_bytes.
  - rewrite length_be_bytes, length_drop. lia.
Qed.

(** ** Messages and packets *)

Definition call_message (c : list Z * Z) : list Z := take (Z.to_nat c.2) c.1.
Definition call_ok (c : list Z * Z) : Prop := record_ok (call_message c) /\ alen (call_message c) = c.2.

Lemma append_datagram s c :
  call_ok c -> datagram (append s c.1 c.2) = datagram s ++ encode_block (call_message c).
Proof.
  intros [[Hr _] Hl]. unfold append. cbn [datagram]. updates. cbn [datagram].
  rewrite resize_grow by lia.
  replace (Z.to_nat (c.2 + 2)) with (2 + Z.to_nat c.2)%nat by lia. rewrite replicate_add.
  rewrite overwrite_app by (unfold alen; rewrite ?encode_u16_be, ?length_be_bytes; try done; lia).
  rewrite app_assoc, overwrite_end.
  - unfold encode_block. by rewrite <- app_assoc, encode_u16_be, Hl.
  - rewrite encode_u16_be, length_app, length_be_bytes. unfold alen. lia.
  - rewrite length_replicate. unfold call_message, alen in *. lia.
Qed.

(** A message takes three bytes or more. *)
Lemma encode_blocks_size ms : Forall record_ok ms -> 3 * alen ms <= alen (encode_blocks ms).
Proof.
  induction 1 as [|m ms [Hm _] _ IH]; [done|].
  rewrite encode_blocks_cons, !alen_app, alen_be_bytes, alen_cons. lia.
Qed.

Lemma encode_blocks_snoc ms m : encode_blocks (ms ++ [m]) = encode_blocks ms ++ encode_block m.
Proof. unfold encode_blocks. rewrite map_app, concat_app. cbn. by rewrite app_nil_r. Qed.

(** The datagrams of consecutive chunks. *)
Fixpoint packed (first : Z) (chunks : list (list (list Z))) : list (list Z) :=
  match chunks with
  | [] => []
  | c :: chunks' => MoldFacts.datagram session first c :: packed (first + alen c) chunks'
  end.

Lemma packed_snoc first chunks c :
  packed first (chunks ++ [c]) = packed first chunks ++ [MoldFacts.datagram session (first + alen (concat chunks)) c].
Proof.
  revert first. induction chunks as [|c' chunks IH]; intros first; cbn [app packed concat].
  - change (alen (concat [])) with 0. by rewrite Z.add_0_r.
  - by rewrite IH, alen_app, Z.add_assoc.
Qed.

(** At most 460 messages fit. *)
Definition chunk_ok (c : list (list Z)) : Prop := c <> [] /\ alen c <= 460.

Section sender.
Context (limit : Z) (ending : result FileScanResult.t) (M : list (list Z)).

Definition awaiting (s : Sender) : list (list Z) :=
  match sender_at s with Sending (Some c) => [call_message c] | _ => [] end.

Definition thrown (s : Sender) : bool :=
  match sender_at s with Leaving (Some _) | SenderLeft (Some _) => true | _ => false end.

(** Past the last callback. *)
Definition finishing (s : Sender) : bool :=
  match sender_at s with Sending None | SendingEnd | Leaving None | SenderLeft None => true | _ => false end.

(** The packet that ends the session was sent. *)
Definition ended (s : Sender) : bool :=
  match sender_at s with Leaving None | SenderLeft None => true | _ => false end.

Definition position_ok (s : Sender) (pend : list (list Z)) : Prop :=
  match sender_at s with
  | Scanning => True
  | Sending next =>
      pend <> [] /\ datagram s = MoldFacts.datagram session (first_sequence s) pend /\
      match next with Some c => call_ok c /\ sent_messages s < limit | None => True end
  | SendingEnd | Leaving None | SenderLeft None => pend = []
  | _ => True
  end.

Record sender_ok (s : Sender) (chunks : list (list (list Z))) (pend : list (list Z)) : Prop := {
  so_messages : exists rest, M = concat chunks ++ pend ++ rest /\
    (thrown s = false -> rest = awaiting s ++ map call_message (calls s));
  so_records : Forall record_ok M;
  so_room : alen M < 2 ^ 63;
  so_calls : Forall call_ok (calls s);
  so_first : first_sequence s = 1 + alen (concat chunks);
  so_count : count s = alen pend;
  so_sent : sent_messages s = alen (concat chunks) + alen pend;
  so_limit : sent_messages s <= limit;
  so_datagram : exists hdr, length hdr = 20%nat /\ take 10 hdr = session /\
    datagram s = hdr ++ encode_blocks pend;
  so_position : position_ok s pend;
  so_small : 20 + alen (encode_blocks pend) <= kDatagramBytes \/ alen pend <= 1;
  so_chunks : Forall chunk_ok chunks;
  so_done : finishing s = true -> sent_messages s = limit \/ (calls s = [] /\ exists r, ending = inl r)
}.

Lemma pending_records s chunks pend : sender_ok s chunks pend -> Forall record_ok pend.
Proof.
  intros Hs. destruct (so_messages _ _ _ Hs) as (rest & E & _). pose proof (so_records _ _ _ Hs) as Hr.
  rewrite E, !Forall_app in Hr. apply Hr.
Qed.

Lemma pending_few s chunks pend : sender_ok s chunks pend -> alen pend <= 460.
Proof.
  intros Hs. pose proof (encode_blocks_size pend (pending_records _ _ _ Hs)).
  destruct (so_small _ _ _ Hs) as [Hsm|]; unfold kDatagramBytes in *; lia.
Qed.

Lemma sent_within s chunks pend : sender_ok s chunks pend -> sent_messages s <= alen M.
Proof.
  intros Hs. destruct (so_messages _ _ _ Hs) as (rest & -> & _). rewrite (so_sent _ _ _ Hs), !alen_app.
  pose proof (alen_nonneg rest). lia.
Qed.

(** *** The steps *)

Lemma new_sender_ok scan :
  M = map call_message scan -> Forall call_ok scan -> alen M < 2 ^ 63 -> 0 <= limit ->
  sender_ok (new_sender scan) [] [].
Proof.
  intros HM Hc Hm Hl. constructor; try done.
  - by exists (map call_message scan).
  - rewrite HM. apply Forall_forall. intros m (c & -> & Hin)%list_elem_of_fmap. rewrite Forall_forall in Hc. by apply Hc.
  - exists (overwrite (replicate (Z.to_nat kHeaderBytes) 0) 0 session). done.
  - by left.
Qed.

(** A message is appended: it was the next one, and there is room for it. *)
Lemma appended_ok s chunks pend c rest :
  sender_ok s chunks pend -> call_ok c -> sent_messages s < limit ->
  calls s = rest \/ calls s = c :: rest ->
  M = concat chunks ++ pend ++ call_message c :: map call_message rest ->
  pend = [] \/ alen (datagram s) + (c.2 + 2) <= kDatagramBytes ->
  sender_ok ((append (s <| calls := rest |>) c.1 c.2) <| sender_at := Scanning |>) chunks
    (pend ++ [call_message c]).
Proof.
  intros Hs Hc Hlim Hcalls HM Hroom. pose proof (pending_few _ _ _ Hs) as Hfew.
  pose proof (alen_nonneg pend). pose proof (so_sent _ _ _ Hs). pose proof (so_count _ _ _ Hs).
  pose proof (alen_nonneg (concat chunks)).
  assert (alen (concat chunks) + alen pend < alen M) as Hin.
  { rewrite HM, !alen_app, alen_cons. pose proof (alen_nonneg (map call_message rest)). lia. }
  pose proof (so_room _ _ _ Hs) as Hr63.
  constructor; cbn [sender_at calls first_sequence count sent_messages datagram append set_field] in *.
  - exists (map call_message rest). split; [by rewrite HM, <- !app_assoc|done].
  - apply Hs.
  - done.
  - pose proof (so_calls _ _ _ Hs) as Hcs. destruct Hcalls as [<-|E]; [done|].
    rewrite E in Hcs. by apply Forall_cons in Hcs as [_ Hcs].
  - apply Hs.
  - updates. cbn. rewrite alen_app. change (alen [call_message c]) with 1. rewrite wrap_small; lia.
  - updates. cbn. unfold incr. rewrite alen_app. change (alen [call_message c]) with 1.
    rewrite wrap_small; lia.
  - updates. cbn. unfold incr. rewrite wrap_small; lia.
  - destruct (so_datagram _ _ _ Hs) as (hdr & Hl & Hses & E). exists hdr. split_and!; [done..|].
    change (datagram (append (s <| calls := rest |>) c.1 c.2) = hdr ++ encode_blocks (pend ++ [call_message c])).
    rewrite append_datagram by done. cbn. updates. cbn. rewrite E, encode_blocks_snoc. by rewrite app_assoc.
  - done.
  - destruct Hroom as [->|Hroom]; [by right|left]. destruct (so_datagram _ _ _ Hs) as (hdr & Hl & _ & E).
    rewrite E, alen_app in Hroom. rewrite encode_blocks_snoc, alen_app. unfold encode_block.
    rewrite alen_app, alen_be_bytes. destruct Hc as [_ ->]. unfold alen in *. lia.
  - apply Hs.
  - done.
Qed.

(** [send_datagram] with nothing pending goes on, else fills in the header. *)
Lemma flush_ok s chunks pend next rest :
  sender_ok s chunks pend -> sender_at s = Scanning ->
  match next with
  | Some c => calls s = c :: rest /\ sent_messages s < limit
  | None => calls s = rest /\
      (sent_messages s = limit \/ (calls s = [] /\ exists r, ending = inl r))
  end ->
  exists pend', sender_ok (send_datagram (s <| calls := rest |>) next) chunks pend'.
Proof.
  intros Hs Hat Hnext. pose proof (pending_few _ _ _ Hs) as Hfew. pose proof (so_count _ _ _ Hs) as Hcount.
  destruct (so_messages _ _ _ Hs) as (left & HM & Hleft). unfold thrown, awaiting in Hleft. rewrite Hat in Hleft.
  rewrite (Hleft eq_refl) in HM. clear Hleft. cbn [app] in HM.
  assert (Forall call_ok rest /\ match next with Some c => call_ok c | None => True end) as [Hrest Hc].
  { pose proof (so_calls _ _ _ Hs) as Hcs. destruct next as [c|]; destruct Hnext as [E _]; rewrite E in Hcs; [|done].
    by apply Forall_cons in Hcs as [? ?]. }
  unfold send_datagram. change (count (s <| calls := rest |>)) with (count s). rewrite Hcount. destruct (Z.eqb_spec (alen pend) 0) as [Hp|Hp].
  - destruct pend as [|? ?]; [|unfold alen in Hp; simpl in Hp; lia].
    destruct next as [c|]; cbn [after_send]; [|exists []].
    + exists [call_message c]. destruct c as [m size]. destruct Hnext as [E Hlim].
      apply (appended_ok s chunks [] (m, size)); try done; [by right|by rewrite E in HM|by left].
    + destruct Hnext as [<- Hd]. destruct Hs as [? ? ? ? ? ? ? ? ? ? ? ? ?]. constructor; try done.
      * by exists (map call_message (calls s)).
  - exists pend. destruct (so_datagram _ _ _ Hs) as (hdr & Hl & Hses & Hd).
    pose proof (so_first _ _ _ Hs) as Hfirst.
    set (first := first_sequence s) in *.
    assert (overwrite (overwrite (datagram s) 10 (encode_u64 first)) 18 (encode_u16 (alen pend)) =
      header_bytes session first (alen pend) ++ encode_blocks pend) as Hput by (by rewrite Hd, put_header).
    assert (pend <> []) as Hne by (intros ->; done).
    set (s' := _ <| sender_at := Sending next |>).
    assert (datagram s' = header_bytes session first (alen pend) ++ encode_blocks pend) as Hput'
      by (by rewrite <- Hput).
    destruct Hs as [? ? ? ? ? ? ? ? ? ? ? ? ?]. constructor; try done; cbn [datagram count].
    + exists ((match next with Some c => [call_message c] | None => [] end) ++ map call_message rest).
      split; [|done]. rewrite HM. destruct next as [c|]; destruct Hnext as [-> _]; done.
    + exists (header_bytes session first (alen pend)). split_and!; [|done|done].
      pose proof (alen_header_bytes session first (alen pend) eq_refl). unfold alen in *. lia.
    + unfold position_ok. cbn. split_and!; [done| |].
      * change (datagram s' = MoldFacts.datagram session first pend). by rewrite Hput', datagram_header.
      * destruct next as [c|]; [|done]. by destruct Hnext.
    + unfold finishing. cbn. destruct next as [c|]; [done|]. intros _. by destruct Hnext as [<- ?].
Qed.

Lemma next_call_ok s chunks pend :
  sender_ok s chunks pend -> sender_at s = Scanning ->
  exists pend', sender_ok (next_call limit ending s) chunks pend'.
Proof.
  intros Hs Hat. assert (forall r, calls s = r -> s <| calls := r |> = s) as Hself by (intros r <-; by destruct s).
  unfold next_call. destruct (calls s) as [|[m size] rest] eqn:Hcalls.
  - destruct ending as [r|e] eqn:He.
    + rewrite <- (Hself []) by done. apply (flush_ok s chunks pend); [done|done|].
      split; [done|]. right. split; [done|]. by exists r.
    + exists pend. destruct Hs as [Hm Hrec Hroom Hcs Hf Hcount Hsent Hlim Hd Hp Hsm Hch Hdone].
      constructor; try done. destruct Hm as (left & HM & _). by exists left.
  - destruct (Z.leb_spec limit (sent_messages s)) as [Hl|Hl].
    + rewrite <- (Hself ((m, size) :: rest)) by done. apply (flush_ok s chunks pend); [done|done|].
      split; [done|]. left. pose proof (so_limit _ _ _ Hs). lia.
    + cbv zeta. change (datagram (s <| calls := rest |>)) with (datagram s).
      destruct (Z.ltb_spec kDatagramBytes (alen (datagram s) + (size + 2))).
      * apply (flush_ok s chunks pend); done.
      * exists (pend ++ [call_message (m, size)]).
        replace (append _ m size) with
          ((append (s <| calls := rest |>) (m, size).1 (m, size).2) <| sender_at := Scanning |>)
          by (destruct s; cbn in Hat; by subst).
        destruct (so_messages _ _ _ Hs) as (left & HM & Hleft). unfold thrown, awaiting in Hleft.
        rewrite Hat, Hcalls in Hleft. rewrite (Hleft eq_refl) in HM.
        apply (appended_ok s chunks pend (m, size)); try done; [|by right|by right].
        pose proof (so_calls _ _ _ Hs) as Hcs. rewrite Hcalls in Hcs. by apply Forall_cons in Hcs as [? _].
Qed.

(** A datagram went out whole. *)
Lemma sent_ok s chunks pend next :
  sender_ok s chunks pend -> sender_at s = Sending next ->
  exists pend', sender_ok (after_send (datagram_sent s) next) (chunks ++ [pend]) pend'.
Proof.
  intros Hs Hat. pose proof (pending_few _ _ _ Hs) as Hfew.
  destruct (so_messages _ _ _ Hs) as (left & HM & Hleft). unfold thrown, awaiting in Hleft. rewrite Hat in Hleft.
  rewrite (Hleft eq_refl) in HM. clear Hleft.
  pose proof (sent_within _ _ _ Hs) as Hin. pose proof (so_sent _ _ _ Hs) as Hsent.
  pose proof (so_position _ _ _ Hs) as Hpos. unfold position_ok in Hpos. rewrite Hat in Hpos.
  destruct Hpos as (Hne & _ & Hnext).
  assert (sender_ok ((datagram_sent s) <| sender_at := Scanning |>
            <| calls ::= fun cs => match next with Some c => c :: cs | None => cs end |>)
            (chunks ++ [pend]) []) as Hs'.
  { pose proof (alen_nonneg (concat chunks)). pose proof (alen_nonneg pend).
    destruct Hs as [_ Hrec Hroom Hcs Hf Hcount _ Hlim Hd Hp Hsm Hch Hdone].
    constructor; try done; unfold datagram_sent; updates; cbn [first_sequence count sent_messages datagram calls sender_at].
    - exists (map call_message (match next with Some c => c :: calls s | None => calls s end)).
      split; [|done]. rewrite HM, concat_app. cbn. rewrite app_nil_r, <- app_assoc. by destruct next.
    - destruct next; [apply Forall_cons_2; [apply Hnext|done]|done].
    - rewrite concat_app, alen_app. cbn [concat]. rewrite app_nil_r, Hf, Hcount, wrap_small; lia.
    - rewrite concat_app, alen_app. cbn [concat]. rewrite app_nil_r, Hsent.
      change (alen (@nil (list Z))) with 0. lia.
    - destruct Hd as (hdr & Hl & Hses & ->). exists hdr. split_and!; [done..|].
      rewrite resize_shrink by (unfold alen; rewrite Hl; done). cbn. by rewrite app_nil_r.
    - by left.
    - apply Forall_app. split; [done|]. apply Forall_singleton. by split. }
  destruct next as [[m size]|]; cbn [after_send].
  - exists ([] ++ [call_message (m, size)]).
    destruct (so_messages _ _ _ Hs') as (left' & HM' & Hleft).
    rewrite (Hleft eq_refl) in HM'. destruct Hnext as [Hc Hlim].
    match type of Hs' with sender_ok ?x _ _ =>
      apply (appended_ok x (chunks ++ [pend]) [] (m, size) (calls s) Hs') end; try done; [by right|by left].
  - exists []. destruct Hs' as [Hm' Hrec' Hroom' Hcs' Hf' Hcount' Hsent' Hlim' Hd' Hp' Hsm' Hch' _].
    constructor; try done. intros _. apply (so_done _ _ _ Hs). unfold finishing. by rewrite Hat.
Qed.

(** Steps that only move on, or throw. *)
Lemma moved_ok s chunks pend place :
  sender_ok s chunks pend ->
  match sender_at s, place with
  | SendingEnd, Leaving None => True
  | Leaving e, SenderLeft e' => e = e'
  | _, Leaving (Some _) => True
  | _, _ => False
  end ->
  sender_ok (s <| sender_at := place |>) chunks pend.
Proof.
  intros [Hm Hrec Hroom Hcs Hf Hcount Hsent Hlim Hd Hp Hsm Hch Hdone] Hplace.
  destruct Hm as (left & HM & Hleft). unfold thrown, awaiting, finishing, position_ok in *.
  constructor; try done; cbn [sender_at calls set_field].
  - exists left. split; [done|]. cbn. destruct (sender_at s) as [|?| |[?|]|[?|]], place as [|?| |[?|]|[?|]]; try done; by apply Hleft.
  - unfold position_ok. cbn. by destruct (sender_at s) as [|?| |[?|]|[?|]], place as [|?| |[?|]|[?|]].
  - unfold finishing. cbn. destruct (sender_at s) as [|?| |[?|]|[?|]], place as [|?| |[?|]|[?|]]; try done; by apply Hdone.
Qed.

(** What a datagram on its way out holds. *)
Lemma sending_datagram s chunks pend next :
  sender_ok s chunks pend -> sender_at s = Sending next ->
  datagram s = MoldFacts.datagram session (1 + alen (concat chunks)) pend /\ chunk_ok pend.
Proof.
  intros Hs Hat. pose proof (so_position _ _ _ Hs) as Hp. unfold position_ok in Hp. rewrite Hat in Hp.
  destruct Hp as (Hne & Hd & _). rewrite Hd, (so_first _ _ _ Hs). split; [done|].
  split; [done|]. by apply (pending_few _ _ _ Hs).
Qed.

End sender.
