(* ===== verification/LoopbackReceiver.v ===== *)
(** * The receiver of the loopback tool

    What one datagram of the sender does to the receiver: the messages counted
    are those of the datagram the tracker still expects, the statistics say
    what was counted and what was missing.

    Then the invariants of the two threads over any network, and over a lossless
    one. *)

From Stdlib Require Import Ascii.
From S2P Require Import Prelude Itch50 HistoricalFile FileProperties MoldUdp64 MoldFacts.
From S2P Require Import MoldProperties RecoveryFacts Loopback LoopbackSender.
Import itch50 moldudp64 NasdaqMoldUdpLoopback.
Import (hints) DownstreamHeader SequenceTracker ReceiverStats NasdaqMoldUdpLoopback.

(** ** The statistics of counted messages *)

Definition tally_one (s : ReceiverStats.t) (b : Block) : ReceiverStats.t :=
  let s := s <| ReceiverStats.messages ::= incr |> in
  if wrong_size b then s <| ReceiverStats.malformed_itch ::= incr |> else s.
Definition tally (s : ReceiverStats.t) (counted : list Block) : ReceiverStats.t := foldl tally_one s counted.

Definition wrong (counted : list Block) : list Block := filter (fun b => wrong_size b = true) counted.

Lemma wrong_app c c' : wrong (c ++ c') = wrong c ++ wrong c'.
Proof. apply filter_app. Qed.

Lemma tally_counts s c :
  0 <= ReceiverStats.messages s -> ReceiverStats.messages s + alen c < 2 ^ 64 ->
  0 <= ReceiverStats.malformed_itch s <= ReceiverStats.messages s ->
  ReceiverStats.messages (tally s c) = ReceiverStats.messages s + alen c /\
  ReceiverStats.malformed_itch (tally s c) = ReceiverStats.malformed_itch s + alen (wrong c).
Proof.
  unfold tally. revert s. induction c as [|b c IH]; intros s Hm Hmax Hw; cbn [foldl].
  { change (alen (wrong [])) with 0. change (alen (@nil Block)) with 0. lia. }
  rewrite alen_cons in *. pose proof (alen_nonneg c). unfold wrong in *. rewrite filter_cons. unfold tally_one at 2 4.
  destruct (wrong_size b) eqn:E; [rewrite decide_True by done|rewrite decide_False by done].
  - rewrite alen_cons. set (s' := _ <| ReceiverStats.malformed_itch ::= incr |>).
    assert (ReceiverStats.messages s' = ReceiverStats.messages s + 1) as E1 by (cbn; unfold incr; rewrite wrap_small; lia).
    assert (ReceiverStats.malformed_itch s' = ReceiverStats.malformed_itch s + 1) as E2
      by (cbn; unfold incr; rewrite wrap_small; lia).
    destruct (IH s') as [-> ->]; lia.
  - set (s' := s <| ReceiverStats.messages ::= incr |>).
    assert (ReceiverStats.messages s' = ReceiverStats.messages s + 1) as E1 by (cbn; unfold incr; rewrite wrap_small; lia).
    assert (ReceiverStats.malformed_itch s' = ReceiverStats.malformed_itch s) as E2 by done.
    destruct (IH s') as [-> ->]; lia.
Qed.

(** [tally] touches those two fields only. *)
Lemma tally_same {A} (f : ReceiverStats.t -> A) s c :
  (forall s b, f (tally_one s b) = f s) -> f (tally s c) = f s.
Proof.
  intros Hf. unfold tally. revert s. induction c as [|b c IH]; intros s; [done|]. cbn [foldl].
  by rewrite IH, Hf.
Qed.

Lemma tally_one_same {A} (f : ReceiverStats.t -> A) :
  (forall s g, f (s <| ReceiverStats.messages ::= g |>) = f s) ->
  (forall s g, f (s <| ReceiverStats.malformed_itch ::= g |>) = f s) ->
  forall s b, f (tally_one s b) = f s.
Proof. intros H1 H2 s b. unfold tally_one. destruct (wrong_size b); by rewrite ?H2, H1. Qed.

(** The callbacks of one datagram count what is not skipped. *)
Lemma on_blocks d i s acc blocks :
  0 <= i -> i + alen blocks < 2 ^ 16 ->
  let now := if SequenceDecision.may_process d
    then drop (Z.to_nat (SequenceDecision.skip_messages d - i)) blocks else [] in
  foldl (on_block d) (i, s, acc) blocks = (i + alen blocks, tally s now, acc ++ now).
Proof.
  cbn zeta. revert i s acc. induction blocks as [|b blocks IH]; intros i s acc Hi Hmax; cbn [foldl].
  { change (alen (@nil Block)) with 0. rewrite Z.add_0_r.
    by destruct (SequenceDecision.may_process d); rewrite ?drop_nil, app_nil_r. }
  rewrite alen_cons in *. pose proof (alen_nonneg blocks). unfold on_block at 2.
  rewrite (wrap_small 16) by lia. destruct (SequenceDecision.may_process d) eqn:Hd; cbn [andb negb].
  - destruct (Z.leb_spec (SequenceDecision.skip_messages d) i) as [Hs|Hs]; cbn [negb].
    + replace (Z.to_nat (SequenceDecision.skip_messages d - i)) with O by lia. rewrite drop_0.
      fold (tally_one s b). rewrite IH by lia.
      replace (Z.to_nat (SequenceDecision.skip_messages d - (i + 1))) with O by lia. rewrite drop_0.
      rewrite <- app_assoc. cbn [app]. f_equal. f_equal. lia.
    + rewrite IH by lia.
      replace (Z.to_nat (SequenceDecision.skip_messages d - i)) with
        (S (Z.to_nat (SequenceDecision.skip_messages d - (i + 1)))) by lia.
      cbn [drop]. f_equal. f_equal. lia.
  - rewrite IH by lia. f_equal. f_equal. lia.
Qed.

(** ** One datagram *)

Record receiver_wf (r : Receiver) : Prop := {
  wf_buffer : alen (buffer r) = kReceiveBytes;
  wf_bytes : Forall is_byte (buffer r);
  wf_tracker : SequenceTracker.initialized_ (tracker r) = true ->
    SequenceTracker.session_ (tracker r) = session /\ 0 <= tracker_next (tracker r) < 2 ^ 64
}.

(** The tracker once it has seen a header of the session. *)
Definition started (r : Receiver) (first : Z) : SequenceTracker.t :=
  if SequenceTracker.initialized_ (tracker r) then tracker r else SequenceTracker.mk session first true.

Lemma inspect_session r h :
  receiver_wf r -> DownstreamHeader.session h = session ->
  SequenceTracker.inspect (tracker r) h =
    (started r (DownstreamHeader.first_sequence h),
     SequenceTracker.decide_sequence (started r (DownstreamHeader.first_sequence h)) h).
Proof.
  intros Hr Hs. unfold SequenceTracker.inspect, started.
  destruct (SequenceTracker.initialized_ (tracker r)) eqn:E; cbn [negb]; [|by rewrite Hs].
  destruct (wf_tracker r Hr E) as [-> _]. by rewrite Hs, bool_decide_true by done.
Qed.

(** The buffer once a datagram was copied into it. *)
Definition filled (r : Receiver) (d : list Z) : Receiver := r <| buffer ::= fun a => overwrite a 0 d |>.

Lemma filled_wf r d :
  receiver_wf r -> Forall is_byte d -> alen d <= kReceiveBytes ->
  receiver_wf (filled r d) /\ exists rest, Forall is_byte rest /\ buffer (filled r d) = d ++ rest.
Proof.
  intros Hr Hd Hl. pose proof (wf_buffer r Hr) as Hb. pose proof (wf_bytes r Hr) as Hby.
  assert (Forall is_byte (drop (length d) (buffer r))) as Hrest by (by apply Forall_drop).
  assert (buffer (filled r d) = d ++ drop (length d) (buffer r)) as E.
  { unfold filled. updates. cbn. apply overwrite_start. unfold alen in *. lia. }
  split; [|by eexists]. constructor.
  - rewrite E, alen_app. unfold alen in *. rewrite length_drop. lia.
  - rewrite E. by apply Forall_app.
  - apply (wf_tracker r Hr).
Qed.

Definition whole (b : Block) : Prop := alen (block_bytes b) = block_size b.

(** The statistics before the callbacks. *)
Definition noted (r : Receiver) (size : Z) (d : SequenceDecision.t) : ReceiverStats.t :=
  note_decision ((stats r) <| ReceiverStats.datagrams ::= incr |>
                   <| ReceiverStats.bytes ::= fun n => u64 (n + size) |>) d.

Lemma session_bytes : Forall is_byte session.
Proof. repeat (apply Forall_cons_2; [done|]). apply Forall_nil_2. Qed.

Lemma blocks_bytes ms : Forall record_ok ms -> Forall is_byte (encode_blocks ms).
Proof.
  induction 1 as [|m ms [_ Hm] _ IH]; [apply Forall_nil_2|]. rewrite encode_blocks_cons, !Forall_app.
  split_and!; [apply be_bytes_ok|done..].
Qed.

Lemma header_bytes_ok first n : Forall is_byte (header_bytes session first n).
Proof. unfold header_bytes. rewrite !Forall_app. split_and!; [apply session_bytes|apply be_bytes_ok..]. Qed.

Lemma receive_data r first ms :
  receiver_wf r -> Forall record_ok ms -> 1 <= alen ms <= 460 -> 1 <= first -> first + alen ms < 2 ^ 64 ->
  alen (MoldFacts.datagram session first ms) <= udp_limit ->
  let h := DownstreamHeader.mk session first (alen ms) in
  let d := SequenceTracker.decide_sequence (started r first) h in
  exists counted,
    receive_datagram (filled r (MoldFacts.datagram session first ms)) (alen (MoldFacts.datagram session first ms)) =
      ((filled r (MoldFacts.datagram session first ms))
         <| tracker := SequenceTracker.commit (started r first) h d |>
         <| stats := tally (noted r (alen (MoldFacts.datagram session first ms)) d) counted |>, counted) /\
    map content counted =
      (if SequenceDecision.may_process d
       then drop (Z.to_nat (SequenceDecision.skip_messages d)) (zip (seqZ first (alen ms)) ms) else []) /\
    Forall whole counted.
Proof.
  intros Hr Hms Hn Hf Hmax Hudp h d. set (p := MoldFacts.datagram session first ms) in *.
  assert (Forall is_byte p) as Hpb.
  { unfold p. rewrite datagram_header. apply Forall_app. split; [apply header_bytes_ok|by apply blocks_bytes]. }
  destruct (filled_wf r p Hr Hpb ltac:(unfold udp_limit, kReceiveBytes in *; lia)) as (Hwf & rest & Hrest & Hbuf).
  assert (Forall (Forall is_byte) ms) as Hmb by (eapply Forall_impl; [exact Hms|]; by intros m [_ ?]).
  assert (Forall fits_u16 ms) as Hfit.
  { eapply Forall_impl; [exact Hms|]. intros m [? _]. unfold fits_u16. lia. }
  unfold udp_limit in Hudp.
  pose proof (parse_datagram session first ms rest (alen p) eq_refl session_bytes Hmb Hrest
    ltac:(unfold kEndOfSession; lia) ltac:(lia) ltac:(lia) Hfit eq_refl ltac:(lia)) as Hparse.
  assert (decode_header (Some (p ++ rest)) (alen p) = (h, true)) as Hdec.
  { unfold p. rewrite datagram_header, <- app_assoc. apply decode_header_bytes.
    - reflexivity.
    - apply session_bytes.
    - apply Forall_app. split; [by apply blocks_bytes|done].
    - lia.
    - lia.
    - rewrite alen_app, alen_header_bytes by done. pose proof (alen_nonneg (encode_blocks ms)). lia. }
  assert (DownstreamHeader.kind h = data) as Hkind.
  { unfold DownstreamHeader.kind, kEndOfSession. cbn [DownstreamHeader.message_count h].
    destruct (Z.eqb_spec (alen ms) 0); [lia|]. by destruct (Z.eqb_spec (alen ms) 65535); [lia|]. }
  unfold receive_datagram. rewrite Hbuf, Hdec. cbn [negb].
  change (tracker (filled r p)) with (tracker r). rewrite (inspect_session r h Hr eq_refl).
  change (DownstreamHeader.first_sequence h) with first. fold d.
  set (r1 := (filled r p) <| tracker := started r first |>).
  change (buffer r1) with (buffer (filled r p)). rewrite Hbuf. fold p in Hparse.
  destruct (parse_downstream_packet _ _) as [res blocks] eqn:Ep. destruct Hparse as [He Hp].
  assert (alen blocks = alen ms) as Hlen.
  { pose proof (parsed_contents _ _ _ _ _ _ _ Hp) as Hc. apply (f_equal length) in Hc.
    rewrite length_map, length_zip_with, length_seqZ in Hc. unfold alen in *. lia. }
  rewrite on_blocks by (rewrite ?Hlen; lia). rewrite Z.sub_0_r. cbn [app].
  unfold ParseResult.ok. rewrite He, bool_decide_true by done. cbn [negb]. rewrite Hkind, bool_decide_false by done.
  eexists. split; [reflexivity|]. split.
  - destruct (SequenceDecision.may_process d); [|done]. by rewrite <- skipn_map, (parsed_contents _ _ _ _ _ _ _ Hp).
  - destruct (SequenceDecision.may_process d); [|constructor]. apply Forall_drop.
    apply (parsed_whole _ _ _ _ _ _ _ Hp).
Qed.

(** The packet that ends the session. *)
Lemma receive_end r k :
  receiver_wf r -> 1 <= k < 2 ^ 64 ->
  let p := make_request_packet session k kEndOfSession in
  let h := DownstreamHeader.mk session k kEndOfSession in
  let d := SequenceTracker.decide_sequence (started r k) h in
  receive_datagram (filled r p) (alen p) =
    ((filled r p) <| tracker := started r k |>
       <| stats := (noted r (alen p) d) <| ReceiverStats.end_of_session := true |> |>
       <| receiver_at := ReceiverFinished |>, []) /\
  SequenceDecision.state d =
    if tracker_next (started r k) <? k then SequenceState.gap
    else if k =? tracker_next (started r k) then SequenceState.in_order else SequenceState.duplicate.
Proof.
  intros Hr Hk p h d. assert (p = header_bytes session k kEndOfSession) as Ep.
  { unfold p, make_request_packet. by rewrite encode_u64_be, encode_u16_be. }
  assert (alen p = 20) as Hlp by (rewrite Ep; by apply alen_header_bytes).
  assert (Forall is_byte p) as Hpb by (rewrite Ep; apply header_bytes_ok).
  destruct (filled_wf r p Hr Hpb ltac:(unfold kReceiveBytes in *; lia)) as (Hwf & rest & Hrest & Hbuf).
  assert (decode_header (Some (p ++ rest)) (alen p) = (h, true)) as Hdec.
  { rewrite Ep. apply decode_header_bytes; [reflexivity|apply session_bytes|exact Hrest|lia|done|].
    by rewrite alen_header_bytes. }
  split.
  2: { unfold d, SequenceTracker.decide_sequence, tracker_next.
    change (bool_decide (DownstreamHeader.kind h = data)) with false.
    change (DownstreamHeader.first_sequence h) with k. cbn [negb andb Z.eqb].
    destruct (SequenceTracker.next_sequence_ (started r k) <? k); [done|].
    by destruct (k =? SequenceTracker.next_sequence_ (started r k)). }
  unfold receive_datagram. rewrite Hbuf, Hdec. cbn [negb].
  change (tracker (filled r p)) with (tracker r). rewrite (inspect_session r h Hr eq_refl).
  change (DownstreamHeader.first_sequence h) with k. fold d.
  set (r1 := (filled r p) <| tracker := started r k |>).
  change (buffer r1) with (buffer (filled r p)). rewrite Hbuf.
  unfold parse_downstream_packet. rewrite Hdec, Hlp.
  change (DownstreamHeader.message_count h) with kEndOfSession. cbn [foldl Z.eqb kEndOfSession orb].
  unfold SequenceTracker.commit. change (DownstreamHeader.kind h) with end_of_session.
  rewrite orb_true_r. done.
Qed.

(** * The two threads *)

Import itch50 moldudp64 NasdaqMoldUdpLoopback.
Import (hints) DownstreamHeader SequenceTracker ReceiverStats NasdaqMoldUdpLoopback.

(** ** Packets of the messages [M] *)

Section messages.
Context (M : list (list Z)).
Hypothesis HM : Forall record_ok M.
Hypothesis Hroom : alen M < 2 ^ 63.

(** The message of a sequence number. *)
Definition numbered (s : Z) : list Z := default [] (M !! Z.to_nat (s - 1)).

(** The messages [ms] from sequence number [first] on. *)
Definition chunk_at (first : Z) (ms : list (list Z)) : Prop :=
  exists a b, M = a ++ ms ++ b /\ first = 1 + alen a.

Lemma chunk_numbered first ms :
  chunk_at first ms -> zip (seqZ first (alen ms)) ms = run_of numbered first (first + alen ms).
Proof.
  intros (a & b & E & ->). apply zip_stream. intros s m (i & Hi)%list_elem_of_lookup.
  apply lookup_zip_Some in Hi as [Hs Hm]. apply lookup_seqZ in Hs as [-> _].
  unfold numbered. rewrite E.
  replace (Z.to_nat (1 + alen a + Z.of_nat i - 1)) with (length a + i)%nat by (unfold alen; lia).
  rewrite lookup_app_r by lia. replace (length a + i - length a)%nat with i by lia.
  by rewrite (lookup_app_l_Some _ _ _ _ Hm).
Qed.

Lemma chunk_records first ms : chunk_at first ms -> Forall record_ok ms.
Proof. intros (a & b & E & _). rewrite E, !Forall_app in HM. apply HM. Qed.

Lemma chunk_end first ms : chunk_at first ms -> 1 <= first /\ first + alen ms <= 1 + alen M.
Proof.
  intros (a & b & E & ->). rewrite E, !alen_app. pose proof (alen_nonneg a). pose proof (alen_nonneg b). lia.
Qed.

Lemma length_run_of (g : Z -> list Z) a b : a <= b -> alen (run_of g a b) = b - a.
Proof. intros. unfold run_of, alen. rewrite length_map, length_seqZ. lia. Qed.

(** ** The receiver *)

Record counted_ok (r : Receiver) (counted : list Block) : Prop := {
  co_wf : receiver_wf r;
  co_whole : Forall whole counted;
  co_messages : ReceiverStats.messages (stats r) = alen counted;
  co_wrong : ReceiverStats.malformed_itch (stats r) = alen (wrong counted);
  co_fresh : SequenceTracker.initialized_ (tracker r) = false -> counted = [];
  co_run : SequenceTracker.initialized_ (tracker r) = true ->
    exists a, 1 <= a <= tracker_next (tracker r) /\ tracker_next (tracker r) <= 1 + alen M /\
      map content counted = run_of numbered a (tracker_next (tracker r))
}.

Lemma new_receiver_ok : counted_ok new_receiver [].
Proof.
  constructor; try done. constructor; [done|..|done].
  apply Forall_replicate. done.
Qed.

Lemma wrong_length c : 0 <= alen (wrong c) <= alen c.
Proof. unfold wrong, alen. pose proof (length_filter (fun b => wrong_size b = true) c). lia. Qed.

(** What was counted so far, and the tracker once started at [first]. *)
Lemma started_run r counted first :
  counted_ok r counted -> 1 <= first <= 1 + alen M ->
  let t := started r first in
  SequenceTracker.initialized_ t = true /\ SequenceTracker.session_ t = session /\
  exists a, 1 <= a <= tracker_next t /\ tracker_next t <= 1 + alen M /\
    map content counted = run_of numbered a (tracker_next t).
Proof.
  intros Hr Hf. unfold started. destruct (SequenceTracker.initialized_ (tracker r)) eqn:E; cbn zeta.
  - split_and!; [done|apply (wf_tracker _ (co_wf _ _ Hr) E)|by apply (co_run _ _ Hr)].
  - split_and!; [done..|]. exists first. unfold tracker_next. cbn.
    rewrite run_of_nil, (co_fresh _ _ Hr E). split_and!; done || lia.
Qed.

(** What the tracker makes of the header of a data datagram. *)
Lemma data_decided t first n :
  1 <= first -> 1 <= n <= 460 -> first + n < 2 ^ 64 -> 0 <= tracker_next t < 2 ^ 64 ->
  SequenceTracker.initialized_ t = true -> SequenceTracker.session_ t = session ->
  let h := DownstreamHeader.mk session first n in
  let d := SequenceTracker.decide_sequence t h in
  let t' := SequenceTracker.commit t h d in
  (SequenceDecision.may_process d = true <-> first <= tracker_next t < first + n) /\
  (SequenceDecision.may_process d = true -> SequenceDecision.skip_messages d = tracker_next t - first) /\
  (SequenceDecision.state d = SequenceState.gap -> tracker_next t < first) /\
  tracker_next t' = (if SequenceDecision.may_process d then first + n else tracker_next t) /\
  SequenceTracker.initialized_ t' = true /\ SequenceTracker.session_ t' = session.
Proof.
  intros Hf Hn Hend Ht Hti Hts h d t'.
  assert (header_ok h) as Hh by (split; cbn; lia).
  assert (DownstreamHeader.kind h = data) as Hkind.
  { unfold DownstreamHeader.kind, kEndOfSession. cbn [DownstreamHeader.message_count h].
    destruct (Z.eqb_spec n 0); [lia|]. by destruct (Z.eqb_spec n 65535); [lia|]. }
  assert (carries h = true) as Hcar by (unfold carries; by rewrite Hkind).
  destruct (decide_sequence_data t h Hh ltac:(unfold tracker_next in *; lia) Hcar) as (Hmay & Hskip & Hgap & _).
  fold (tracker_next t) in Hmay, Hskip, Hgap. fold d in Hmay, Hskip, Hgap. unfold continues in Hmay.
  cbn [h DownstreamHeader.first_sequence DownstreamHeader.message_count] in Hmay, Hskip, Hgap.
  assert (tracker_next t' = if SequenceDecision.may_process d then first + n else tracker_next t) as Hnext.
  { unfold t', tracker_next, SequenceTracker.commit. rewrite Hkind. change (bool_decide (data = data)) with true.
    cbn [negb]. rewrite orb_false_r. destruct (SequenceDecision.may_process d); cbn; [|done]. rewrite wrap_small; lia. }
  split_and!; [|done|by intros [_ ?]%Hgap|done|unfold t', SequenceTracker.commit; by destruct (_ || _)..].
  rewrite Hmay. split; [by intros (_ & ? & _)|by intros].
Qed.

(** Counting a datagram and its blocks leaves the other statistics alone. *)
Lemma noted_counts r size d :
  let s := noted r size d in
  ReceiverStats.messages s = ReceiverStats.messages (stats r) /\
  ReceiverStats.malformed_itch s = ReceiverStats.malformed_itch (stats r) /\
  ReceiverStats.end_of_session s = ReceiverStats.end_of_session (stats r) /\
  ReceiverStats.malformed_packets s = ReceiverStats.malformed_packets (stats r) /\
  (SequenceDecision.state d <> SequenceState.gap -> ReceiverStats.gaps s = ReceiverStats.gaps (stats r)).
Proof. unfold noted, note_decision. by destruct (SequenceDecision.state d). Qed.

Lemma tallied_rest s c :
  ReceiverStats.end_of_session (tally s c) = ReceiverStats.end_of_session s /\
  ReceiverStats.malformed_packets (tally s c) = ReceiverStats.malformed_packets s /\
  ReceiverStats.gaps (tally s c) = ReceiverStats.gaps s.
Proof. split_and!; by apply tally_same, tally_one_same. Qed.

(** One data datagram of the messages. *)
Lemma counted_data r counted first ms :
  counted_ok r counted -> chunk_at first ms -> chunk_ok ms ->
  alen (MoldFacts.datagram session first ms) <= udp_limit ->
  exists r' now,
    receive_datagram (filled r (MoldFacts.datagram session first ms)) (alen (MoldFacts.datagram session first ms)) =
      (r', now) /\
    counted_ok r' (counted ++ now) /\ receiver_at r' = receiver_at r /\
    SequenceTracker.initialized_ (tracker r') = true /\
    tracker_next (tracker r') <= Z.max (tracker_next (started r first)) (first + alen ms) /\
    ReceiverStats.end_of_session (stats r') = ReceiverStats.end_of_session (stats r) /\
    ReceiverStats.malformed_packets (stats r') = ReceiverStats.malformed_packets (stats r) /\
    (tracker_next (started r first) = first ->
     tracker_next (tracker r') = first + alen ms /\ alen now = alen ms /\
     ReceiverStats.gaps (stats r') = ReceiverStats.gaps (stats r)).
Proof.
  intros Hr Hchunk [Hne Hfew] Hudp. pose proof (chunk_end _ _ Hchunk) as [Hf1 Hend].
  assert (1 <= alen ms) as Hpos by (destruct ms; [done|rewrite alen_cons; pose proof (alen_nonneg ms); lia]).
  destruct (receive_data r first ms (co_wf _ _ Hr) (chunk_records _ _ Hchunk) ltac:(lia) Hf1 ltac:(lia) Hudp)
    as (now & Hrecv & Hnow & Hwhole). set (p := MoldFacts.datagram session first ms) in *.
  destruct (started_run r counted first Hr ltac:(lia)) as (Hti & Hts & a & Ha & Htn & Hrun).
  set (t := started r first) in *. set (h := DownstreamHeader.mk session first (alen ms)) in *.
  destruct (data_decided t first (alen ms) ltac:(lia) ltac:(lia) ltac:(lia) ltac:(lia) Hti Hts)
    as (Hmay & Hskip & Hgap & Hnext & Hti' & Hts').
  fold h in Hmay, Hskip, Hgap, Hnext, Hti', Hts'. set (d := SequenceTracker.decide_sequence t h) in *.
  set (t' := SequenceTracker.commit t h d) in *.
  assert (map content now = run_of numbered (tracker_next t) (tracker_next t')) as Hnow'.
  { rewrite Hnow, Hnext. destruct (SequenceDecision.may_process d); [|by rewrite run_of_nil].
    pose proof (proj1 Hmay eq_refl) as Hin. rewrite Hskip by done. rewrite chunk_numbered by done.
    rewrite drop_run_of by lia. f_equal. lia. }
  assert (tracker_next t <= tracker_next t' /\ tracker_next t' <= 1 + alen M /\
    tracker_next t' <= Z.max (tracker_next t) (first + alen ms)) as (Hle & Hbnd & Hmax).
  { rewrite Hnext. destruct (SequenceDecision.may_process d); [|lia].
    pose proof (proj1 Hmay eq_refl). lia. }
  assert (map content (counted ++ now) = run_of numbered a (tracker_next t')) as Hall.
  { rewrite map_app, Hrun, Hnow'. apply run_of_app. lia. }
  assert (alen counted + alen now = tracker_next t' - a) as Hlen.
  { rewrite <- alen_app. apply (f_equal alen) in Hall. rewrite length_run_of in Hall by lia.
    unfold alen in *. by rewrite length_map in Hall. }
  pose proof (alen_nonneg now). pose proof (alen_nonneg counted). pose proof (wrong_length counted).
  set (s1 := noted r (alen p) d) in *.
  destruct (noted_counts r (alen p) d) as (Hs1m & Hs1w & Hs1e & Hs1p & Hs1g). fold s1 in Hs1m, Hs1w, Hs1e, Hs1p, Hs1g.
  rewrite (co_messages _ _ Hr) in Hs1m. rewrite (co_wrong _ _ Hr) in Hs1w.
  destruct (tallied_rest s1 now) as (Hte & Htp & Htg).
  destruct (tally_counts s1 now) as [Htm Htw]; [lia|rewrite Hs1m; lia|lia|].
  pose proof (filled_wf r p (co_wf _ _ Hr)) as Hwf.
  destruct Hwf as [Hwf _]; [|unfold udp_limit, kReceiveBytes in *; lia|].
  { unfold p. rewrite datagram_header. apply Forall_app.
    split; [apply header_bytes_ok|by apply blocks_bytes, (chunk_records first)]. }
  eexists _, now. split; [exact Hrecv|]. split_and!.
  - constructor; cbn [stats tracker set_field].
    + constructor; [apply Hwf|apply Hwf|]. intros _. split; [exact Hts'|]. change (tracker _) with t' at 1.
      change (0 <= tracker_next t' < 2 ^ 64). lia.
    + apply Forall_app. split; [apply Hr|done].
    + change (ReceiverStats.messages (tally s1 now) = alen (counted ++ now)). rewrite Htm, alen_app. lia.
    + change (ReceiverStats.malformed_itch (tally s1 now) = alen (wrong (counted ++ now))).
      rewrite Htw, wrong_app, alen_app. lia.
    + intros E. change (SequenceTracker.initialized_ t' = false) in E. congruence.
    + intros _. exists a. change (1 <= a <= tracker_next t' /\ tracker_next t' <= 1 + alen M /\
        map content (counted ++ now) = run_of numbered a (tracker_next t')). split_and!; done || lia.
  - done.
  - exact Hti'.
  - exact Hmax.
  - by rewrite <- Hs1e, <- Hte.
  - by rewrite <- Hs1p, <- Htp.
  - intros E. assert (tracker_next t' = first + alen ms) as En by (rewrite Hnext, (proj2 Hmay); lia).
    split_and!; [done| |].
    + apply (f_equal alen) in Hnow'. rewrite length_run_of in Hnow' by lia. unfold alen at 1 in Hnow'.
      rewrite length_map in Hnow'. fold (alen now) in Hnow'. lia.
    + rewrite <- Hs1g, <- Htg; [done|]. intros G%Hgap. lia.
Qed.

(** The packet that ends the session. *)
Lemma counted_end r counted k :
  counted_ok r counted -> 1 <= k <= 1 + alen M ->
  let p := make_request_packet session k kEndOfSession in
  exists r',
    receive_datagram (filled r p) (alen p) = (r', []) /\ counted_ok r' counted /\
    receiver_at r' = ReceiverFinished /\ tracker r' = started r k /\
    ReceiverStats.end_of_session (stats r') = true /\
    ReceiverStats.malformed_packets (stats r') = ReceiverStats.malformed_packets (stats r) /\
    (tracker_next (started r k) = k -> ReceiverStats.gaps (stats r') = ReceiverStats.gaps (stats r)).
Proof.
  intros Hr Hk p. destruct (receive_end r k (co_wf _ _ Hr) ltac:(lia)) as [Hrecv Hstate]. fold p in Hrecv.
  destruct (started_run r counted k Hr Hk) as (Hti & Hts & Hrun).
  set (d := SequenceTracker.decide_sequence _ _) in *. set (t := started r k) in *.
  pose proof (filled_wf r p (co_wf _ _ Hr)) as Hwf. destruct Hwf as [Hwf _].
  { unfold p, make_request_packet. rewrite encode_u64_be, encode_u16_be. apply header_bytes_ok. }
  { done. }
  eexists. split; [exact Hrecv|]. split_and!; try done.
  - constructor.
    + constructor; [apply Hwf|apply Hwf|]. intros _. split; [exact Hts|].
      change (0 <= tracker_next t < 2 ^ 64). destruct Hrun as (a & ? & ? & _). lia.
    + apply Hr.
    + rewrite <- (co_messages _ _ Hr). cbn. unfold noted, note_decision. by destruct (SequenceDecision.state d).
    + rewrite <- (co_wrong _ _ Hr). cbn. unfold noted, note_decision. by destruct (SequenceDecision.state d).
    + intros E. change (SequenceTracker.initialized_ t = false) in E. congruence.
    + intros _. exact Hrun.
  - cbn. unfold noted, note_decision. by destruct (SequenceDecision.state d).
  - intros E. cbn. rewrite E in Hstate. rewrite Z.ltb_irrefl, Z.eqb_refl in Hstate.
    unfold noted, note_decision. by rewrite Hstate.
Qed.

End messages.
