(* ===== verification/LoopbackRuns.v ===== *)
(** * Whole schedules of the loopback tool

    The invariants of [LoopbackSender] and [LoopbackReceiver] along any schedule:
    over a network that may lose, repeat and reorder, and over a lossless one.

    Then the way to the end: a measure of what is left to do, and a schedule that
    brings it down from any state of a run. *)

From Stdlib Require Import Ascii.
From S2P Require Import Prelude Itch50 HistoricalFile FileProperties MoldUdp64 MoldFacts.
From S2P Require Import MoldProperties RecoveryFacts Loopback LoopbackSender LoopbackReceiver.
Import itch50 moldudp64 NasdaqMoldUdpLoopback.
Import (hints) DownstreamHeader SequenceTracker ReceiverStats NasdaqMoldUdpLoopback.

(** A message the size table accepts. *)
Definition itch_ok (m : list Z) : Prop := m <> [] /\ expected_message_size (byte_at m 0) = alen m.

Lemma wrong_size_spec b : whole b -> wrong_size b = false <-> itch_ok (block_bytes b).
Proof.
  unfold whole, wrong_size, itch_ok, block_bytes. intros Hw. set (m := take _ _) in *.
  pose proof (alen_nonneg m). destruct (Z.eqb_spec (block_size b) 0) as [E|E].
  { cbn. split; [done|]. intros [Hne _]. destruct m; [done|]. rewrite E, alen_cons in Hw. pose proof (alen_nonneg m). lia. }
  assert (byte_at m 0 = byte_at (block_message b) 0) as -> by (apply byte_at_take; lia).
  rewrite Hw. rewrite orb_false_iff, negb_false_iff, Z.eqb_eq, Z.eqb_neq. split.
  - intros [_ ->]. split; [|done]. intros Em. rewrite Em in Hw. unfold alen in Hw. simpl in Hw. lia.
  - intros [_ ->]. done.
Qed.

Lemma wrong_nil c : Forall whole c -> wrong c = [] <-> Forall itch_ok (map block_bytes c).
Proof.
  intros Hw. rewrite Forall_map. induction Hw as [|b c Hb _ IH]; [done|]. unfold wrong in *.
  rewrite filter_cons, Forall_cons, <- IH, <- wrong_size_spec by done. destruct (wrong_size b).
  - rewrite decide_True by done. by split; [|intros []].
  - rewrite decide_False by done. tauto.
Qed.

Lemma zip_snd (c : list Block) first ms :
  map content c = zip (seqZ first (alen ms)) ms -> map block_bytes c = ms.
Proof.
  intros E. apply (f_equal (map snd)) in E. rewrite map_map in E. cbn in E.
  change (map (fun x => block_bytes x) c) with (map block_bytes c) in E. rewrite E.
  change (map snd) with (fmap (M := list) (@snd Z (list Z))).
  apply snd_zip. rewrite length_seqZ. unfold alen. lia.
Qed.

Section runs.
Context (limit : Z) (ending : result FileScanResult.t) (M : list (list Z)).
Hypothesis HM : Forall record_ok M.
Hypothesis Hroom : alen M < 2 ^ 63.

Abbreviation sender_ok := (sender_ok limit ending M).
Abbreviation counted_ok := (counted_ok M).

(** The first [n] messages with their numbers. *)
Definition first_messages (n : Z) : list (Z * list Z) := zip (seqZ 1 n) (take (Z.to_nat n) M).

Lemma first_run n : 0 <= n <= alen M -> run_of (numbered M) 1 (1 + n) = first_messages n.
Proof.
  intros Hn. assert (alen (take (Z.to_nat n) M) = n) as Hl by (unfold alen in *; rewrite length_take; lia).
  unfold first_messages. rewrite <- Hl at 1 2. symmetry. apply chunk_numbered.
  exists [], (drop (Z.to_nat n) M). cbn. by rewrite take_drop.
Qed.

(** *** What the sender has put on the network *)

Definition genuine (n : Z) (d : list Z) : Prop :=
  alen d <= udp_limit /\
  ((exists first ms, d = MoldFacts.datagram session first ms /\ chunk_at M first ms /\ chunk_ok ms /\
      first + alen ms <= 1 + n) \/
   exists k, d = make_request_packet session k kEndOfSession /\ 1 <= k <= 1 + n).

Lemma genuine_mono n n' d : n <= n' -> genuine n d -> genuine n' d.
Proof.
  intros Hn [Hl [(first & ms & -> & Hc & Hk & Hle)|(k & -> & Hk)]]; (split; [done|]).
  - left. exists first, ms. split_and!; done || lia.
  - right. exists k. split; [done|lia].
Qed.

Lemma incr_up n : 0 <= n -> n + 1 < 2 ^ 64 -> n <= incr n.
Proof. intros. unfold incr. rewrite wrap_small; lia. Qed.

Lemma sent_range s chunks pend : sender_ok s chunks pend -> 0 <= sent_messages s < 2 ^ 63.
Proof.
  intros Hs. pose proof (sent_within _ _ _ _ _ _ Hs). rewrite (so_sent _ _ _ _ _ _ Hs) in *.
  pose proof (alen_nonneg (concat chunks)). pose proof (alen_nonneg pend). lia.
Qed.

Lemma after_send_sent s next :
  0 <= sent_messages s < 2 ^ 63 -> sent_messages s <= sent_messages (after_send s next).
Proof. intros Hs. destruct next as [[m size]|]; cbn; [apply incr_up; lia|lia]. Qed.

Lemma flush_sent s next :
  0 <= sent_messages s < 2 ^ 63 -> sent_messages s <= sent_messages (send_datagram s next).
Proof. intros Hs. unfold send_datagram. destruct (_ =? 0); [by apply after_send_sent|done]. Qed.

Lemma next_call_sent s :
  0 <= sent_messages s < 2 ^ 63 -> sent_messages s <= sent_messages (next_call limit ending s).
Proof.
  intros Hs. unfold next_call. destruct (calls s) as [|[m size] rest].
  - destruct ending; [by apply flush_sent|done].
  - destruct (limit <=? sent_messages s); [by apply flush_sent|]. cbv zeta. destruct (kDatagramBytes <? _).
    + set (s' := s <| calls := rest |>). change (sent_messages s) with (sent_messages s').
      by apply flush_sent.
    + cbn. apply incr_up; lia.
Qed.

Lemma sending_chunk s chunks pend next :
  sender_ok s chunks pend -> sender_at s = Sending next ->
  datagram s = MoldFacts.datagram session (1 + alen (concat chunks)) pend /\ chunk_ok pend /\
  chunk_at M (1 + alen (concat chunks)) pend /\ 1 + alen (concat chunks) + alen pend <= 1 + sent_messages s.
Proof.
  intros Hs Hat. destruct (sending_datagram _ _ _ _ _ _ _ Hs Hat) as [Hd Hk]. split_and!; [done|done| |].
  - destruct (so_messages _ _ _ _ _ _ Hs) as (rest & E & _). by exists (concat chunks), rest.
  - rewrite (so_sent _ _ _ _ _ _ Hs). lia.
Qed.

Lemma end_packet_range s chunks pend : sender_ok s chunks pend -> 1 <= first_sequence s <= 1 + sent_messages s.
Proof.
  intros Hs. rewrite (so_first _ _ _ _ _ _ Hs), (so_sent _ _ _ _ _ _ Hs).
  pose proof (alen_nonneg (concat chunks)). pose proof (alen_nonneg pend). lia.
Qed.

Lemma alen_request k n : alen (make_request_packet session k n) = 20.
Proof. unfold make_request_packet. rewrite encode_u64_be, encode_u16_be. by apply alen_header_bytes. Qed.

Lemma alen_end_packet s : alen (end_packet s) = 20.
Proof. unfold end_packet. by rewrite alen_request. Qed.

(** ** Any network *)

Section any_network.
Context {N : Type} `{NetworkLaws N}.

Record sound_ok (p : t (N := N)) (counted : list Block) : Prop := {
  sd_sender : exists chunks pend, sender_ok (sender p) chunks pend;
  sd_carried : Forall (genuine (sent_messages (sender p))) (carried (net p));
  sd_counted : counted_ok (receiver p) counted;
  sd_next : SequenceTracker.initialized_ (tracker (receiver p)) = true ->
    tracker_next (tracker (receiver p)) <= 1 + sent_messages (sender p)
}.

(** The sender got somewhere, and the network with it. *)
Lemma sound_sender (p : t) counted n s done chunks pend :
  sound_ok p counted -> sender_ok s chunks pend -> sent_messages (sender p) <= sent_messages s ->
  Forall (genuine (sent_messages s)) (carried n) ->
  sound_ok (mk n s (receiver p) done) counted.
Proof.
  intros [Hs Hc Hr Hn] Hs' Hle Hc'. constructor; cbn [sender net receiver]; [by exists chunks, pend|done|done|].
  intros E. specialize (Hn E). lia.
Qed.

Lemma sound_sender_step p counted p' :
  sound_ok p counted -> sender_step limit ending p = Some p' -> sound_ok p' counted.
Proof.
  intros Hp Hstep. destruct (sd_sender _ _ Hp) as (chunks & pend & Hs).
  pose proof (sent_range _ _ _ Hs) as Hrange. pose proof (sd_carried _ _ Hp) as Hcar.
  unfold sender_step in Hstep. destruct (sender_at (sender p)) as [|next| |e|e] eqn:Hat; [| | | |done].
  - simplify_eq. destruct (next_call_ok _ _ _ _ _ _ Hs Hat) as (pend' & Hs').
    pose proof (next_call_sent _ Hrange) as Hle. apply (sound_sender p counted _ _ _ chunks pend'); try done.
    eapply Forall_impl; [exact Hcar|]. intros d. by apply genuine_mono.
  - destruct (sendto (net p) (datagram (sender p))) as [n r] eqn:Hsend.
    pose proof (sendto_carried _ _ _ _ Hsend) as Hcar'. destruct (sending_chunk _ _ _ _ Hs Hat) as (Hd & Hk & Hch & Hle).
    assert (forall m, sent_messages (sender p) <= m -> Forall (genuine m) (carried n)) as Hgen.
    { intros m Hm. rewrite Hcar'. apply Forall_app. split.
      - eapply Forall_impl; [exact Hcar|]. intros d. by apply genuine_mono.
      - destruct r as [bytes| |]; [|constructor..]. apply Forall_singleton.
        split; [by eapply sendto_limit|]. left. eexists _, pend. split_and!; [exact Hd|done|done|lia]. }
    assert (forall e, sender_ok ((sender p) <| sender_at := Leaving (Some e) |>) chunks pend) as Hthrow.
    { intros e. apply moved_ok; [done|]. by rewrite Hat. }
    destruct r as [bytes| |]; [destruct (_ =? _)|..]; simplify_eq.
    + destruct (sent_ok _ _ _ _ _ _ _ Hs Hat) as (pend' & Hs').
      pose proof (after_send_sent (datagram_sent (sender p)) next Hrange) as Hle'.
      apply (sound_sender p counted _ _ _ (chunks ++ [pend]) pend'); try done. by apply Hgen.
    + apply (sound_sender p counted _ _ _ chunks pend); try done. by apply Hgen.
    + apply (sound_sender p counted _ _ _ chunks pend); try done. by apply Hgen.
    + apply (sound_sender p counted _ _ _ chunks pend); try done. by apply Hgen.
  - destruct (sendto (net p) (end_packet (sender p))) as [n r] eqn:Hsend. simplify_eq.
    pose proof (sendto_carried _ _ _ _ Hsend) as Hcar'. pose proof (end_packet_range _ _ _ Hs) as Hend.
    apply (sound_sender p counted _ _ _ chunks pend); try done.
    + apply moved_ok; [done|]. rewrite Hat. by repeat case_match.
    + change (carried _) with (carried n). rewrite Hcar'. apply Forall_app. split; [done|]. destruct r as [bytes| |]; [|constructor..].
      apply Forall_singleton. split; [by eapply sendto_limit|]. right. by exists (first_sequence (sender p)).
  - simplify_eq. apply (sound_sender p counted _ _ _ chunks pend); try done.
    apply moved_ok; [done|]. by rewrite Hat.
Qed.

(** What [recv] puts into the buffer is the datagram. *)
Lemma whole_datagram (r : Receiver) (d : list Z) :
  receiver_wf r -> alen d <= udp_limit -> take (Z.to_nat (alen (buffer r))) d = d.
Proof.
  intros Hr Hd. apply take_ge. rewrite (wf_buffer _ Hr). unfold udp_limit, kReceiveBytes, alen in *. lia.
Qed.

Lemma counted_moved r counted place :
  counted_ok r counted -> counted_ok (r <| receiver_at := place |>) counted.
Proof. intros [[] ]. by constructor. Qed.

Lemma sound_receiver_step p counted p' now :
  sound_ok p counted -> receiver_step p = Some (p', now) -> sound_ok p' (counted ++ now).
Proof.
  intros Hp Hstep. pose proof (sd_counted _ _ Hp) as Hr. destruct (sd_sender _ _ Hp) as (chunks & pend & Hs).
  pose proof (sent_within _ _ _ _ _ _ Hs) as Hwithin.
  unfold receiver_step in Hstep. destruct (receiver_at (receiver p)) eqn:Hat; [| |done..].
  2: { simplify_eq. rewrite app_nil_r. destruct Hp as [? ? ? ?]. constructor; try done. by apply counted_moved. }
  destruct (recv (net p) _) as [n result] eqn:Hrecv. pose proof (recv_carried _ _ _ _ Hrecv) as [Hcar Hgot].
  destruct result as [b| | |]; simplify_eq; rewrite ?app_nil_r.
  2, 3, 4: destruct Hp as [Hsd Hc ? ?]; (constructor; [done|change (carried _) with (carried n); by rewrite Hcar| |done]);
    (done || by apply counted_moved).
  destruct (Hgot b eq_refl) as (d & Hin & ->).
  pose proof (sd_carried _ _ Hp) as Hall. rewrite Forall_forall in Hall.
  destruct (Hall d Hin) as [Hlen Hd]. rewrite (whole_datagram _ _ (co_wf _ _ _ Hr) Hlen) in Hstep.
  change ((receiver p) <| buffer ::= fun a => overwrite a 0 d |>) with (filled (receiver p) d) in Hstep.
  destruct Hd as [(first & ms & -> & Hch & Hk & Hle)|(k & -> & Hk)].
  - destruct (counted_data M HM Hroom _ _ _ _ Hr Hch Hk Hlen) as (r' & now' & Hrd & Hr' & _ & _ & Hmax & _).
    rewrite Hrd in Hstep. simplify_eq. constructor; cbn [sender net receiver set_field].
    + by exists chunks, pend.
    + change (carried _) with (carried n). rewrite Hcar. apply Hp.
    + done.
    + intros _. change (tracker_next (tracker r') <= 1 + sent_messages (sender p)).
      unfold started in Hmax. pose proof (sd_next _ _ Hp) as Hn.
      pose proof (alen_nonneg ms). destruct (SequenceTracker.initialized_ (tracker (receiver p))).
      * specialize (Hn eq_refl). lia.
      * change (tracker_next (SequenceTracker.mk session first true)) with first in Hmax. lia.
  - destruct (counted_end M Hroom _ _ k Hr ltac:(lia)) as (r' & Hrd & Hr' & _ & Ht & _).
    rewrite Hrd in Hstep. simplify_eq. rewrite app_nil_r. constructor.
    + by exists chunks, pend.
    + change (carried _) with (carried n). rewrite Hcar. apply Hp.
    + done.
    + intros _. change (tracker_next (tracker r') <= 1 + sent_messages (sender p)). rewrite Ht.
      unfold started. pose proof (sd_next _ _ Hp) as Hn.
      destruct (SequenceTracker.initialized_ _); [by apply Hn|cbn; lia].
Qed.

Lemma sound_run p counted schedule p' now :
  sound_ok p counted -> run limit ending p schedule = Some (p', now) -> sound_ok p' (counted ++ now).
Proof.
  revert p counted now. induction schedule as [|who schedule IH]; intros p counted now Hp; cbn [run].
  { intros [= -> <-]. by rewrite app_nil_r. }
  destruct (step _ _ p who) as [[p1 now1]|] eqn:Hstep; [|done]. cbn.
  destruct (run _ _ p1 schedule) as [[p2 later]|] eqn:Hrun; [|done]. intros [= <- <-].
  rewrite app_assoc. apply (IH p1); [|done]. destruct who; cbn in Hstep.
  - destruct (sender_step _ _ p) as [p0|] eqn:Hs; [|done]. simplify_eq/=. rewrite app_nil_r.
    by eapply sound_sender_step.
  - by eapply sound_receiver_step.
Qed.

Lemma sound_start n scan :
  M = map call_message scan -> Forall call_ok scan -> 0 <= limit -> carried n = [] ->
  sound_ok (make n scan) [].
Proof.
  intros E Hc Hl Hn. constructor; cbn.
  - exists [], []. by apply new_sender_ok.
  - by rewrite Hn.
  - apply new_receiver_ok.
  - done.
Qed.

End any_network.
(** ** A lossless network *)

Section lossless_network.
Context {N : Type} `{LosslessLaws N}.

(** [done] was received, [todo] waits. *)
Record lossless_ok (p : t (N := N)) (counted : list Block) (chunks : list (list (list Z)))
    (pend : list (list Z)) (done todo : list (list (list Z))) : Prop := {
  ll_sender : sender_ok (sender p) chunks pend;
  ll_chunks : chunks = done ++ todo;
  ll_counted : counted_ok (receiver p) counted;
  ll_got : alen counted = alen (concat done);
  ll_next : SequenceTracker.initialized_ (tracker (receiver p)) = true ->
    tracker_next (tracker (receiver p)) = 1 + alen (concat done);
  ll_clean : ReceiverStats.gaps (stats (receiver p)) = 0 /\
    ReceiverStats.malformed_packets (stats (receiver p)) = 0;
  ll_limit : Forall (fun d : list Z => alen d <= udp_limit) (waiting (net p));
  ll_waiting :
    if ReceiverStats.end_of_session (stats (receiver p))
    then todo = [] /\ waiting (net p) = [] /\ ended (sender p) = true /\
      receiver_at (receiver p) = ReceiverFinished
    else waiting (net p) = packed (1 + alen (concat done)) todo ++
      (if ended (sender p) then [end_packet (sender p)] else [])
}.

Definition lossless (p : t (N := N)) (counted : list Block) : Prop :=
  exists chunks pend done todo, lossless_ok p counted chunks pend done todo.

Lemma ended_next_call s : sender_at s = Scanning -> ended (next_call limit ending s) = false.
Proof.
  intros Hat. unfold next_call, send_datagram, after_send.
  repeat case_match; unfold ended; cbn; by rewrite ?Hat.
Qed.

(** Nothing new waits. *)
Lemma lossless_quiet p counted chunks pend done todo n s pend' d :
  lossless_ok p counted chunks pend done todo -> sender_ok s chunks pend' ->
  ended s = ended (sender p) -> end_packet s = end_packet (sender p) \/ ended (sender p) = false ->
  waiting n = waiting (net p) ->
  lossless (mk n s (receiver p) d) counted.
Proof.
  intros [? ? ? ? ? ? Hl Hw] Hs He Hp Hn. exists chunks, pend', done, todo.
  constructor; cbn [sender receiver net]; try done; rewrite ?Hn; [done|].
  rewrite He. destruct (ReceiverStats.end_of_session _); [done|].
  destruct Hp as [->|E]; [done|]. by rewrite E in *.
Qed.

Lemma lossless_sender_step p counted p' :
  lossless p counted -> sender_step limit ending p = Some p' -> lossless p' counted.
Proof.
  intros (chunks & pend & done & todo & Hp) Hstep. pose proof (ll_sender _ _ _ _ _ _ Hp) as Hs.
  unfold sender_step in Hstep. destruct (sender_at (sender p)) as [|next| |e|e] eqn:Hat; [| | | |done].
  - simplify_eq. destruct (next_call_ok _ _ _ _ _ _ Hs Hat) as (pend' & Hs').
    assert (ended (sender p) = false) as He by (unfold ended; by rewrite Hat).
    apply (lossless_quiet _ _ _ _ _ _ _ _ pend' _ Hp); [done| |by right|done]. by rewrite He, ended_next_call.
  - assert (ended (sender p) = false) as He by (unfold ended; by rewrite Hat).
    destruct (sendto (net p) (datagram (sender p))) as [n r] eqn:Hsend.
    pose proof (sendto_waiting _ _ _ _ Hsend) as Hw.
    destruct (sending_chunk _ _ _ _ Hs Hat) as (Hd & _).
    destruct r as [bytes| |].
    + destruct Hw as (-> & Hlim & Hw). rewrite Z.eqb_refl in Hstep. simplify_eq.
      destruct (sent_ok _ _ _ _ _ _ _ Hs Hat) as (pend' & Hs').
      exists (chunks ++ [pend]), pend', done, (todo ++ [pend]).
      destruct Hp as [_ Hch Hc Hg Hn Hcl Hl Hwait]. constructor; try done.
      * by rewrite Hch, <- app_assoc.
      * change (Forall (fun d : list Z => alen d <= udp_limit) (waiting n)). rewrite Hw.
        apply Forall_app. split; [done|by apply Forall_singleton].
      * change (ReceiverStats.end_of_session (stats (receiver _))) with
          (ReceiverStats.end_of_session (stats (receiver p))).
        match goal with |- context [waiting ?x] => change x with n end.
        rewrite He in Hwait. destruct (ReceiverStats.end_of_session _); [by destruct Hwait as (_ & _ & ? & _)|].
        rewrite Hw, Hwait, app_nil_r, packed_snoc.
        assert (ended (after_send (datagram_sent (sender p)) next) = false) as He'.
        { destruct next as [[m size]|]; done. }
        match goal with |- context [ended ?x] => change x with (after_send (datagram_sent (sender p)) next) end.
        rewrite He', app_nil_r.
        do 2 f_equal. rewrite Hd, Hch, concat_app, alen_app. f_equal. lia.
    + simplify_eq. by apply (lossless_quiet _ _ _ _ _ _ _ _ pend _ Hp); [| |right|].
    + simplify_eq. apply (lossless_quiet _ _ _ _ _ _ _ _ pend _ Hp); [|by rewrite He|by right|done].
      apply moved_ok; [done|]. by rewrite Hat.
  - assert (ended (sender p) = false) as He by (unfold ended; by rewrite Hat).
    destruct (sendto (net p) (end_packet (sender p))) as [n r] eqn:Hsend.
    pose proof (sendto_waiting _ _ _ _ Hsend) as Hw.
    assert (forall place, place = Leaving None \/ place = Leaving (Some end_sendto_failed) ->
      sender_ok ((sender p) <| sender_at := place |>) chunks pend) as Hs'.
    { intros place Hplace. apply moved_ok; [done|]. rewrite Hat. by destruct Hplace as [-> | ->]. }
    destruct r as [bytes| |].
    + destruct Hw as (-> & Hlim & Hw). rewrite Z.eqb_refl in Hstep. simplify_eq.
      exists chunks, pend, done, todo.
      destruct Hp as [_ Hch Hc Hg Hn Hcl Hl Hwait]. constructor; try done.
      * apply Hs'. by left.
      * change (Forall (fun d : list Z => alen d <= udp_limit) (waiting n)). rewrite Hw.
        apply Forall_app. split; [done|by apply Forall_singleton].
      * change (ReceiverStats.end_of_session (stats (receiver _))) with
          (ReceiverStats.end_of_session (stats (receiver p))).
        match goal with |- context [waiting ?x] => change x with n end.
        rewrite He in Hwait. destruct (ReceiverStats.end_of_session _); [by destruct Hwait as (_ & _ & ? & _)|].
        rewrite Hw, Hwait, app_nil_r. done.
    + rewrite alen_end_packet in Hstep. simplify_eq/=.
      apply (lossless_quiet _ _ _ _ _ _ _ _ pend _ Hp); [apply Hs'; by right|by rewrite He|by right|done].
    + rewrite alen_end_packet in Hstep. simplify_eq/=.
      apply (lossless_quiet _ _ _ _ _ _ _ _ pend _ Hp); [apply Hs'; by right|by rewrite He|by right|done].
  - simplify_eq. apply (lossless_quiet _ _ _ _ _ _ _ _ pend _ Hp); [|unfold ended; by rewrite Hat|by left|done].
    apply moved_ok; [done|]. by rewrite Hat.
Qed.

(** The receiver moves on without a datagram. *)
Lemma lossless_idle p counted chunks pend done todo n place :
  lossless_ok p counted chunks pend done todo ->
  ReceiverStats.end_of_session (stats (receiver p)) = false -> waiting n = waiting (net p) ->
  lossless (p <| net := n |> <| receiver := (receiver p) <| receiver_at := place |> |>) counted.
Proof.
  intros [? ? ? ? ? ? Hl Hw] He Hn. exists chunks, pend, done, todo. constructor; try done.
  - by apply counted_moved.
  - match goal with |- context [waiting ?x] => change x with n end. by rewrite Hn.
  - change (ReceiverStats.end_of_session (stats (receiver _))) with (ReceiverStats.end_of_session (stats (receiver p))).
    rewrite He in *. match goal with |- context [waiting ?x] => change x with n end. by rewrite Hn.
Qed.

Lemma lossless_receiver_step p counted p' now :
  lossless p counted -> receiver_step p = Some (p', now) -> lossless p' (counted ++ now).
Proof.
  intros (chunks & pend & done & todo & Hp) Hstep. pose proof (ll_counted _ _ _ _ _ _ Hp) as Hr.
  pose proof (ll_sender _ _ _ _ _ _ Hp) as Hs. pose proof (ll_waiting _ _ _ _ _ _ Hp) as Hwait.
  assert (ReceiverStats.end_of_session (stats (receiver p)) = false) as Heos.
  { destruct (ReceiverStats.end_of_session _); [|done]. destruct Hwait as (_ & _ & _ & E).
    unfold receiver_step in Hstep. by rewrite E in Hstep. }
  rewrite Heos in Hwait. unfold receiver_step in Hstep. destruct (receiver_at (receiver p)) eqn:Hat; [| |done..].
  2: { simplify_eq. rewrite app_nil_r.
    by apply (lossless_idle _ _ _ _ _ _ (net p) _ Hp). }
  destruct (recv (net p) _) as [n result] eqn:Hrecv. pose proof (recv_waiting _ _ _ _ Hrecv) as Hgot.
  destruct result as [b| | |]; [|simplify_eq; rewrite app_nil_r..].
  2: { replace (p <| net := n |>) with
        (p <| net := n |> <| receiver := (receiver p) <| receiver_at := Receiving |> |>).
    - by apply (lossless_idle _ _ _ _ _ _ _ _ Hp).
    - destruct p as [? ? [] ?]. cbn in Hat. by subst. }
  2: { apply (lossless_idle _ _ _ _ _ _ _ _ Hp); [done|]. destruct Hgot as [-> ->]. done. }
  2: { by apply (lossless_idle _ _ _ _ _ _ _ _ Hp). }
  destruct Hgot as (d & Hw & ->). pose proof (ll_limit _ _ _ _ _ _ Hp) as Hlim. rewrite Hw in Hlim.
  apply Forall_cons in Hlim as [Hlen Hlim]. rewrite (whole_datagram _ _ (co_wf _ _ _ Hr) Hlen) in Hstep.
  change ((receiver p) <| buffer ::= fun a => overwrite a 0 d |>) with (filled (receiver p) d) in Hstep.
  destruct (so_messages _ _ _ _ _ _ Hs) as (rest & EM & _). rewrite (ll_chunks _ _ _ _ _ _ Hp) in EM.
  assert (tracker_next (started (receiver p) (1 + alen (concat done))) = 1 + alen (concat done)) as Hexp.
  { unfold started. pose proof (ll_next _ _ _ _ _ _ Hp) as Hn.
    destruct (SequenceTracker.initialized_ (tracker (receiver p))); [by apply Hn|done]. }
  destruct (ll_clean _ _ _ _ _ _ Hp) as [Hgaps Hmal]. rewrite Hw in Hwait.
  destruct todo as [|c todo].
  - destruct (ended (sender p)) eqn:Hended; [|done]. cbn [packed app] in Hwait. injection Hwait as -> Hw'.
    assert (first_sequence (sender p) = 1 + alen (concat done)) as Hfirst.
    { by rewrite (so_first _ _ _ _ _ _ Hs), (ll_chunks _ _ _ _ _ _ Hp), app_nil_r. }
    unfold end_packet in *. rewrite Hfirst in *.
    destruct (counted_end M Hroom _ _ (1 + alen (concat done)) Hr) as (r' & Hrd & Hr' & Hat' & Ht & He' & Hm' & Hg').
    { rewrite EM, !alen_app, app_nil_r. pose proof (alen_nonneg (concat done)). pose proof (alen_nonneg pend).
      pose proof (alen_nonneg rest). lia. }
    rewrite Hrd in Hstep. simplify_eq. rewrite app_nil_r. exists chunks, pend, done, [].
    destruct Hp as [_ Hch _ Hg _ _ _ _]. constructor; try done; cbn [receiver net sender set_field].
    + intros _. change (tracker_next (tracker r') = 1 + alen (concat done)). by rewrite Ht.
    + change (ReceiverStats.gaps (stats r') = 0 /\ ReceiverStats.malformed_packets (stats r') = 0).
      rewrite Hm', Hg'; done.
    + change (ReceiverStats.end_of_session (stats (receiver _))) with (ReceiverStats.end_of_session (stats r')).
      rewrite He'. done.
  - cbn [packed app] in Hwait. injection Hwait as -> Hw'.
    assert (chunk_at M (1 + alen (concat done)) c) as Hchunk.
    { exists (concat done), (concat todo ++ pend ++ rest). split; [|done].
      rewrite EM, concat_app. cbn. by rewrite <- !app_assoc. }
    assert (chunk_ok c) as Hck.
    { pose proof (so_chunks _ _ _ _ _ _ Hs) as Hcs. rewrite (ll_chunks _ _ _ _ _ _ Hp), Forall_app in Hcs.
      destruct Hcs as [_ Hcs]. by apply Forall_cons in Hcs as [? _]. }
    destruct (counted_data M HM Hroom _ _ _ _ Hr Hchunk Hck Hlen)
      as (r' & now' & Hrd & Hr' & Hat' & Hi' & _ & He' & Hm' & Hg').
    destruct (Hg' Hexp) as (Hnext' & Hnow & Hgaps'). rewrite Hrd in Hstep. simplify_eq.
    exists (done ++ c :: todo), pend, (done ++ [c]), todo.
    assert (alen (concat (done ++ [c])) = alen (concat done) + alen c) as Hdone.
    { rewrite concat_app, alen_app. cbn. by rewrite app_nil_r. }
    destruct Hp as [_ Hch _ Hg _ _ _ _]. constructor; try done; cbn [receiver net sender set_field].
    + by rewrite <- Hch.
    + by rewrite <- app_assoc.
    + rewrite alen_app, Hdone. lia.
    + intros _. change (tracker_next (tracker r') = 1 + alen (concat (done ++ [c]))). lia.
    + change (ReceiverStats.gaps (stats r') = 0 /\ ReceiverStats.malformed_packets (stats r') = 0).
      by rewrite Hm', Hgaps'.
    + change (ReceiverStats.end_of_session (stats (receiver _))) with (ReceiverStats.end_of_session (stats r')).
      rewrite He', Heos, Hdone. match goal with |- context [waiting ?x] => change x with n end. rewrite Hw', Z.add_assoc. done.
Qed.

Lemma lossless_run p counted schedule p' now :
  lossless p counted -> run limit ending p schedule = Some (p', now) -> lossless p' (counted ++ now).
Proof.
  revert p counted now. induction schedule as [|who schedule IH]; intros p counted now Hp; cbn [run].
  { intros [= -> <-]. by rewrite app_nil_r. }
  destruct (step _ _ p who) as [[p1 now1]|] eqn:Hstep; [|done]. cbn.
  destruct (run _ _ p1 schedule) as [[p2 later]|] eqn:Hrun; [|done]. intros [= <- <-].
  rewrite app_assoc. apply (IH p1); [|done]. destruct who; cbn in Hstep.
  - destruct (sender_step _ _ p) as [p0|] eqn:Hs; [|done]. simplify_eq/=. rewrite app_nil_r.
    by eapply lossless_sender_step.
  - by eapply lossless_receiver_step.
Qed.

Lemma lossless_start n scan :
  M = map call_message scan -> Forall call_ok scan -> 0 <= limit -> waiting n = [] ->
  lossless (make n scan) [].
Proof.
  intros E Hc Hl Hn. exists [], [], [], []. constructor; try done.
  - by apply new_sender_ok.
  - apply new_receiver_ok.
  - cbn. by rewrite Hn.
Qed.

End lossless_network.
End runs.

(** * Progress *)

Import itch50 moldudp64 NasdaqMoldUdpLoopback.
Import (hints) DownstreamHeader SequenceTracker ReceiverStats NasdaqMoldUdpLoopback.

(** A lossless network without signals and failures. *)
Class ReliableLaws (N : Type) `{LosslessLaws N} := {
  sendto_reliable n d : alen d <= udp_limit -> exists n', sendto n d = (n', Sent (alen d));
  recv_reliable n capacity :
    exists n', recv n capacity =
      (n', match waiting n with d :: _ => Received (take (Z.to_nat capacity) d) | [] => TimedOut end)
}.

(** Both threads are in their loops. *)
Definition under_way {N} (p : t (N := N)) : bool :=
  match sender_at (sender p), receiver_at (receiver p) with
  | (Scanning | Sending _ | SendingEnd), (Receiving | TimeoutSeen) => true
  | _, _ => false
  end.

(** Records that fit into a datagram. *)
Definition fits_datagram (m : list Z) : Prop := alen m <= udp_limit - 22.

(** Steps the sender has left. *)
Definition remaining (s : Sender) : nat :=
  match sender_at s with
  | Scanning => 2 * length (calls s) + 5
  | Sending (Some _) => 2 * length (calls s) + 6
  | Sending None => 4
  | SendingEnd => 3
  | Leaving _ => 2
  | SenderLeft _ => 0
  end.

Section progress.
Context (limit : Z) (ending : result FileScanResult.t) (M : list (list Z)).
Hypothesis HM : Forall record_ok M.
Hypothesis Hroom : alen M < 2 ^ 63.
Hypothesis Hfits : Forall fits_datagram M.
Context {N : Type} `{ReliableLaws N}.

Abbreviation sender_ok := (sender_ok limit ending M).
Abbreviation lossless := (lossless limit ending M (N := N)).
Abbreviation run := (run limit ending (N := N)).

(** The receiver does not touch the sender's state. *)
Lemma receiver_keeps p p' now :
  receiver_step (N := N) p = Some (p', now) ->
  sender p' = sender p /\ sender_done p' = sender_done p.
Proof.
  unfold receiver_step. intros Hstep. destruct (receiver_at (receiver p)); [|by simplify_eq|done..].
  by destruct (recv _ _) as [n [b| | |]]; [destruct (receive_datagram _ _)|..]; simplify_eq.
Qed.

(** [sender_done] is stored last. *)
Definition done_last (p : t (N := N)) : Prop :=
  sender_done p = true -> exists x, sender_at (sender p) = SenderLeft x.

Lemma done_last_run p schedule p' now : done_last p -> run p schedule = Some (p', now) -> done_last p'.
Proof.
  revert p now. induction schedule as [|who schedule IH]; intros p now Hp; cbn [Loopback.NasdaqMoldUdpLoopback.run].
  { by intros [= -> <-]. }
  destruct (step _ _ p who) as [[p1 now1]|] eqn:Hstep; [|done]. cbn.
  destruct (run p1 schedule) as [[p2 later]|] eqn:Hrun; [|done]. intros [= <- <-].
  apply (IH p1 later); [|done]. unfold done_last in *. destruct who; cbn in Hstep.
  - destruct (sender_step _ _ p) as [p0|] eqn:Hs; [|done]. simplify_eq/=. unfold sender_step in Hs.
    destruct (sender_at (sender p)) eqn:Hat; repeat case_match; simplify_eq/=; try (intros E; destruct (Hp E); congruence).
    intros _. by eexists.
  - apply receiver_keeps in Hstep as [-> ->]. exact Hp.
Qed.

(** *** The sender *)

Lemma datagram_fits s chunks pend next :
  sender_ok s chunks pend -> sender_at s = Sending next -> alen (datagram s) <= udp_limit.
Proof.
  intros Hs Hat. destruct (so_datagram _ _ _ _ _ _ Hs) as (hdr & Hl & _ & ->).
  rewrite alen_app. destruct (so_small _ _ _ _ _ _ Hs) as [Hsm|Hone].
  { unfold kDatagramBytes, udp_limit, alen in *. lia. }
  destruct pend as [|m [|m' pend]]; [| |rewrite !alen_cons in Hone; pose proof (alen_nonneg pend); lia].
  { unfold udp_limit, alen. simpl. lia. }
  destruct (so_messages _ _ _ _ _ _ Hs) as (rest & E & _). rewrite E, !Forall_app, Forall_singleton in Hfits.
  destruct Hfits as (_ & Hm & _). unfold fits_datagram in Hm. rewrite encode_blocks_cons, !alen_app, alen_be_bytes.
  change (alen (encode_blocks [])) with 0. unfold alen in *. lia.
Qed.

(** Where the sender may be: it throws only what the scan threw. *)
Definition sender_clean (s : Sender) : Prop :=
  match sender_at s with
  | Leaving (Some e) | SenderLeft (Some e) => exists e', e = scan_failed e' /\ ending = inr e'
  | _ => True
  end.

Lemma after_send_remaining s next :
  (remaining (after_send s next) <
    match next with Some _ => 2 * length (calls s) + 6 | None => 4 end)%nat /\
  sender_clean (after_send s next).
Proof. destruct next as [[m size]|]; split; try done; cbn; lia. Qed.

Lemma next_call_remaining s :
  sender_at s = Scanning ->
  (remaining (next_call limit ending s) < remaining s)%nat /\ sender_clean (next_call limit ending s).
Proof.
  intros Hat. unfold remaining at 2. rewrite Hat.
  assert (forall s0 next, (remaining (send_datagram s0 next) <
      match next with Some _ => 2 * length (calls s0) + 7 | None => 5 end)%nat /\
      sender_clean (send_datagram s0 next)) as Hflush.
  { intros s0 next. unfold send_datagram. pose proof (after_send_remaining s0 next).
    destruct (count s0 =? 0); [destruct next; intuition lia|]. destruct next; (split; [cbn; lia|done]). }
  unfold next_call. destruct (calls s) as [|[m size] rest] eqn:Hcalls.
  - destruct ending as [r|e] eqn:He.
    + destruct (Hflush s None). split; [simpl; lia|done].
    + split; [cbn; lia|]. by exists e.
  - destruct (limit <=? sent_messages s); [destruct (Hflush s None); split; [simpl; lia|done]|]. cbv zeta.
    destruct (kDatagramBytes <? _).
    + destruct (Hflush (s <| calls := rest |>) (Some (m, size))) as [Hr ?]. split; [|done].
      change (calls (s <| calls := rest |>)) with rest in Hr. cbn [length]. lia.
    + unfold remaining, sender_clean. cbn. rewrite Hat. split; [lia|done].
Qed.

Lemma sender_advances p counted :
  lossless p counted -> sender_clean (sender p) -> (forall x, sender_at (sender p) <> SenderLeft x) ->
  exists p', sender_step limit ending p = Some p' /\ lossless p' counted /\ receiver p' = receiver p /\
    (remaining (sender p') < remaining (sender p))%nat /\ sender_clean (sender p') /\
    (forall x, sender_at (sender p') = SenderLeft x -> sender_done p' = true).
Proof.
  intros Hp Hclean Hleft. destruct Hp as (chunks & pend & done & todo & Hll) eqn:E. clear E.
  pose proof (ll_sender _ _ _ _ _ _ _ _ _ Hll) as Hs.
  assert (exists p', sender_step limit ending p = Some p' /\ receiver p' = receiver p /\
    (remaining (sender p') < remaining (sender p))%nat /\ sender_clean (sender p') /\
    (forall x, sender_at (sender p') = SenderLeft x -> sender_done p' = true)) as (p' & Hstep & H').
  2: { exists p'. split; [done|]. split; [by eapply lossless_sender_step|done]. }
  unfold sender_step. destruct (sender_at (sender p)) as [|next| |x|x] eqn:Hat.
  - eexists. split; [reflexivity|]. split; [done|].
    destruct (next_call_remaining (sender p) Hat) as [Hr Hc]. split_and!; [done|done|].
    intros x. change (sender_at (next_call limit ending (sender p)) = SenderLeft x -> sender_done p = true).
    unfold next_call, send_datagram, after_send. repeat case_match; cbn; rewrite ?Hat; done.
  - destruct (sendto_reliable (net p) (datagram (sender p)) (datagram_fits _ _ _ _ Hs Hat)) as [n ->].
    rewrite Z.eqb_refl. eexists. split; [reflexivity|]. split; [done|].
    destruct (after_send_remaining (datagram_sent (sender p)) next) as [Hr Hc].
    split_and!; [|done|].
    + unfold remaining at 2. rewrite Hat. destruct next; done.
    + intros x. destruct next as [[m size]|]; done.
  - destruct (sendto_reliable (net p) (end_packet (sender p))) as [n ->]; [by rewrite alen_end_packet|].
    rewrite Z.eqb_refl. eexists. split; [reflexivity|]. split; [done|]. split_and!; [|done|done].
    unfold remaining at 2. rewrite Hat. cbn. lia.
  - eexists. split; [reflexivity|]. split; [done|]. split_and!; [|by unfold sender_clean in *; rewrite Hat in Hclean|done].
    unfold remaining at 2. rewrite Hat. cbn. lia.
  - by destruct (Hleft x).
Qed.

Lemma schedule_cons p who schedule p1 now p2 later :
  step limit ending p who = Some (p1, now) -> run p1 schedule = Some (p2, later) ->
  run p (who :: schedule) = Some (p2, now ++ later).
Proof. intros E1 E2. cbn. by rewrite E1; cbn; rewrite E2. Qed.

Lemma schedule_app p schedule p1 now schedule' p2 later :
  run p schedule = Some (p1, now) -> run p1 schedule' = Some (p2, later) ->
  run p (schedule ++ schedule') = Some (p2, now ++ later).
Proof.
  revert p now. induction schedule as [|who schedule IH]; intros p now; cbn [app].
  { by intros [= -> <-]. }
  cbn. destruct (step _ _ p who) as [[p0 now0]|]; [|done]. cbn.
  destruct (run p0 schedule) as [[p3 now3]|] eqn:E; [|done]. intros [= <- <-] E2. cbn.
  rewrite (IH p0 now3 E E2). cbn. by rewrite app_assoc.
Qed.

Lemma sender_finishes p counted :
  lossless p counted -> sender_clean (sender p) -> (forall x, sender_at (sender p) <> SenderLeft x) ->
  exists k p', run p (replicate k SenderStep) = Some (p', []) /\ lossless p' counted /\
    receiver p' = receiver p /\ sender_clean (sender p') /\ sender_done p' = true /\
    exists x, sender_at (sender p') = SenderLeft x.
Proof.
  remember (remaining (sender p)) as n eqn:Hn. revert p Hn. induction (lt_wf n) as [n _ IH].
  intros p -> Hp Hclean Hleft.
  destruct (sender_advances p counted Hp Hclean Hleft) as (p1 & Hstep & Hp1 & Hr1 & Hlt & Hc1 & Hd1).
  assert (step limit ending p SenderStep = Some (p1, [])) as Hs1 by (cbn; by rewrite Hstep).
  destruct (sender_at (sender p1)) as [| | | |x] eqn:Hat.
  5: { exists 1%nat, p1. split; [apply (schedule_cons _ _ [] _ _ _ _ Hs1 eq_refl)|].
    split_and!; try done; [by apply (Hd1 x)|by exists x]. }
  all: destruct (IH _ Hlt p1 eq_refl Hp1 Hc1 ltac:(intros x; by rewrite Hat)) as (k & p' & Hrun & Hp' & Hr' & H');
    exists (S k), p'; (split; [exact (schedule_cons _ _ _ _ _ _ _ Hs1 Hrun)|]); (split; [done|]);
    (split; [congruence|done]).
Qed.

(** *** The receiver *)

Lemma receive_datagram_at r size :
  let r' := (receive_datagram r size).1 in
  receiver_at r' = receiver_at r \/
  receiver_at r' = ReceiverFinished /\ ReceiverStats.end_of_session (stats r') = true.
Proof.
  unfold receive_datagram. repeat case_match; cbn; auto.
Qed.

(** The end packet, once sent, is waiting or was received. *)
Lemma waiting_end p counted :
  lossless p counted -> ReceiverStats.end_of_session (stats (receiver p)) = false ->
  ended (sender p) = true -> end_packet (sender p) ∈ waiting (net p).
Proof.
  intros (chunks & pend & done & todo & Hll) He Hend. pose proof (ll_waiting _ _ _ _ _ _ _ _ _ Hll) as Hw.
  rewrite He, Hend in Hw. rewrite Hw. apply elem_of_app. right. by apply list_elem_of_singleton.
Qed.

Lemma receiver_finishes p counted :
  lossless p counted -> sender_done p = true -> receiver_at (receiver p) = Receiving ->
  ReceiverStats.end_of_session (stats (receiver p)) = false ->
  exists k p' now, run p (replicate k ReceiverStep) = Some (p', now) /\ lossless p' (counted ++ now) /\
    receiver_at (receiver p') = ReceiverFinished /\ sender p' = sender p /\
    (ended (sender p) = true -> ReceiverStats.end_of_session (stats (receiver p')) = true).
Proof.
  remember (length (waiting (net p))) as n eqn:Hn. revert p counted Hn. induction n as [|n IH];
    intros p counted Hn Hp Hdone Hat He; destruct (recv_reliable (net p) (alen (buffer (receiver p)))) as [m Hrecv].
  - destruct (waiting (net p)) as [|d w] eqn:Hw; [|done].
    set (p1 := p <| net := m |> <| receiver := (receiver p) <| receiver_at := TimeoutSeen |> |>).
    assert (receiver_step p = Some (p1, [])) as E1 by (unfold receiver_step; by rewrite Hat, Hrecv).
    set (p2 := p1 <| receiver := (receiver p1) <| receiver_at := ReceiverFinished |> |>).
    assert (receiver_step p1 = Some (p2, [])) as E2.
    { unfold receiver_step. change (receiver_at (receiver p1)) with TimeoutSeen.
      change (sender_done p1) with (sender_done p). by rewrite Hdone. }
    exists 2%nat, p2, []. split; [exact (schedule_cons p ReceiverStep [ReceiverStep] p1 [] p2 [] E1
      (schedule_cons p1 ReceiverStep [] p2 [] p2 [] E2 eq_refl))|].
    split; [|split; [done|split; [done|]]].
    + rewrite app_nil_r. pose proof (lossless_receiver_step _ _ _ HM Hroom _ _ _ _ Hp E1) as Hp1.
      rewrite app_nil_r in Hp1. pose proof (lossless_receiver_step _ _ _ HM Hroom _ _ _ _ Hp1 E2) as Hp2.
      by rewrite app_nil_r in Hp2.
    + intros Hend. pose proof (waiting_end p counted Hp He Hend) as Hin. rewrite Hw in Hin. by apply elem_of_nil in Hin.
  - destruct (waiting (net p)) as [|d w] eqn:Hw; [done|]. cbn in Hn. injection Hn as Hn.
    pose proof (recv_waiting _ _ _ _ Hrecv) as (d' & Hw' & _). rewrite Hw in Hw'. injection Hw' as <- ->.
    destruct (receiver_step p) as [[p1 now]|] eqn:E1.
    2: { unfold receiver_step in E1. rewrite Hat, Hrecv in E1. by destruct (receive_datagram _ _). }
    pose proof (lossless_receiver_step _ _ _ HM Hroom _ _ _ _ Hp E1) as Hp1.
    assert (net p1 = m /\ sender p1 = sender p /\ sender_done p1 = sender_done p /\
      (receiver_at (receiver p1) = Receiving \/
       receiver_at (receiver p1) = ReceiverFinished /\ ReceiverStats.end_of_session (stats (receiver p1)) = true))
      as (Hn1 & Hs1 & Hd1 & Hat1).
    { unfold receiver_step in E1. rewrite Hat, Hrecv in E1.
      match type of E1 with context [receive_datagram ?r ?size] =>
        pose proof (receive_datagram_at r size) as Hr; destruct (receive_datagram r size) as [r' now'] end.
      injection E1 as <- <-. split_and!; try done. cbn in Hr. by rewrite Hat in Hr. }
    destruct (ReceiverStats.end_of_session (stats (receiver p1))) eqn:He1.
    + exists 1%nat, p1, (now ++ []). split; [exact (schedule_cons p ReceiverStep [] p1 now p1 [] E1 eq_refl)|].
      rewrite app_nil_r. split_and!; try done.
      destruct Hp1 as (? & ? & ? & ? & Hll). pose proof (ll_waiting _ _ _ _ _ _ _ _ _ Hll) as Hwait.
      rewrite He1 in Hwait. apply Hwait.
    + destruct Hat1 as [Hat1|[_ ?]]; [|done].
      destruct (IH p1 (counted ++ now)) as (k & p' & later & Hrun & Hp' & Hfin & Hs' & Hend');
        [by rewrite Hn1|done|congruence|done|done|].
      exists (S k), p', (now ++ later). split; [exact (schedule_cons p ReceiverStep _ p1 now p' later E1 Hrun)|].
      rewrite app_assoc. split_and!; try done; [congruence|]. by rewrite <- Hs1.
Qed.

(** Both threads, from any state in which both are under way. *)
Lemma both_finish p counted :
  lossless p counted -> done_last p -> under_way p = true ->
  exists schedule p' now, run p schedule = Some (p', now) /\ lossless p' (counted ++ now) /\
    receiver_at (receiver p') = ReceiverFinished /\ sender_clean (sender p') /\
    (exists x, sender_at (sender p') = SenderLeft x) /\
    (ended (sender p') = true -> ReceiverStats.end_of_session (stats (receiver p')) = true).
Proof.
  intros Hp Hlast Hway. unfold under_way in Hway.
  assert (exists s1 p1, run p s1 = Some (p1, []) /\ lossless p1 counted /\ sender p1 = sender p /\
    receiver_at (receiver p1) = Receiving) as (s1 & p1 & Hrun1 & Hp1 & Hs1 & Hat1).
  { destruct (receiver_at (receiver p)) eqn:Hat; [by exists [], p| |by destruct (sender_at (sender p))..].
    assert (sender_done p = false) as Hd.
    { destruct (sender_done p) eqn:E; [|done]. destruct (Hlast E) as (x & Ex). by rewrite Ex in Hway. }
    set (p1 := p <| receiver := (receiver p) <| receiver_at := Receiving |> |>).
    assert (receiver_step p = Some (p1, [])) as E1 by (unfold receiver_step; by rewrite Hat, Hd).
    exists [ReceiverStep], p1. split; [exact (schedule_cons p ReceiverStep [] p1 [] p1 [] E1 eq_refl)|].
    pose proof (lossless_receiver_step _ _ _ HM Hroom _ _ _ _ Hp E1) as Hp1. rewrite app_nil_r in Hp1. done. }
  destruct (sender_finishes p1 counted Hp1) as (k & p2 & Hrun2 & Hp2 & Hr2 & Hc2 & Hd2 & Hl2).
  { unfold sender_clean. rewrite Hs1. by destruct (sender_at (sender p)). }
  { intros x. rewrite Hs1. by destruct (sender_at (sender p)). }
  destruct (ReceiverStats.end_of_session (stats (receiver p2))) eqn:He2.
  - exfalso. destruct Hp2 as (? & ? & ? & ? & Hll). pose proof (ll_waiting _ _ _ _ _ _ _ _ _ Hll) as Hw.
    rewrite He2 in Hw. destruct Hw as (_ & _ & _ & Hw). congruence.
  - destruct (receiver_finishes p2 counted Hp2 Hd2 ltac:(congruence) He2)
      as (m & p3 & now & Hrun3 & Hp3 & Hfin & Hs3 & Hend).
    exists (s1 ++ replicate k SenderStep ++ replicate m ReceiverStep), p3, ([] ++ [] ++ now).
    split; [exact (schedule_app _ _ _ _ _ _ _ Hrun1 (schedule_app _ _ _ _ _ _ _ Hrun2 Hrun3))|]. cbn [app].
    rewrite Hs3. done.
Qed.

End progress.
