(* ===== verification/LoopbackProperties.v ===== *)
(** * Properties of the loopback tool

    A verdict of success is sound over any network: the receiver counted every
    message sent, once and in order.  Over a lossless network the verdict is
    success exactly when the messages are well formed, provided the receiver
    did not give up; it can give up with datagrams waiting, and a schedule on
    which it does is the last example.  Every run can be brought to its end. *)

From Stdlib Require Import Ascii.
From S2P Require Import Prelude Itch50 MoldUdp64 MoldFacts MoldProperties RecoveryFacts HistoricalFile FileProperties Loopback LoopbackSender LoopbackReceiver LoopbackRuns.
Import itch50 moldudp64 NasdaqMoldUdpLoopback.
Import (hints) DownstreamHeader SequenceTracker ReceiverStats NasdaqMoldUdpLoopback.

(** ** The messages of a scan *)

Lemma shown_call c r : record_ok r -> shown c = sized r -> call_message c = r /\ call_ok c.
Proof.
  intros Hr E. injection E as E1 E2. unfold call_ok, call_message. rewrite E1, E2. by split.
Qed.

Lemma prefix_take {A} (l k : list A) : l `prefix_of` k -> l = take (length l) k.
Proof. intros [m ->]. by rewrite take_app_length. Qed.

Lemma scanned_messages (calls : list (list Z * Z)) records :
  Forall record_ok records -> map shown calls `prefix_of` map sized records ->
  map call_message calls `prefix_of` records /\ Forall call_ok calls.
Proof.
  intros Hr Hp. revert records Hr Hp. induction calls as [|c calls IH]; intros records Hr Hp; cbn [map].
  { split; [apply prefix_nil|constructor]. }
  destruct records as [|r records]; [by apply prefix_nil_not in Hp|]. cbn [map] in Hp.
  pose proof (prefix_cons_inv_1 _ _ _ _ Hp) as E. apply prefix_cons_inv_2 in Hp.
  apply Forall_cons in Hr as [Hr Hrs]. destruct (shown_call c r Hr E) as [-> Hc].
  destruct (IH records Hrs Hp) as [Hm Hcs]. split; [by apply prefix_cons|by constructor].
Qed.

Lemma alen_zero {A} (l : list A) : alen l = 0 -> l = [].
Proof. destruct l; [done|]. rewrite alen_cons. pose proof (alen_nonneg l). lia. Qed.

(** A file of bytes [file] and what its scan does, by [scan_ok]: the calls made
    and how it ended. *)
Section tool.
Context {N : Type} (file : list Z) (limit : Z).
Hypothesis Hbytes : Forall is_byte file.
Hypothesis Hlength : alen file < 2 ^ 64.
Hypothesis Hlimit : 0 <= limit.
Context (scan : list (list Z * Z)) (ending : result FileScanResult.t).
Hypothesis Hscan : scanned (FileScanResult.mk 0 0) file scan ending.

(** The messages the callbacks are given, and how far they go. *)
Lemma scan_messages :
  let M := map call_message scan in
  Forall call_ok scan /\ Forall record_ok M /\ alen M < 2 ^ 63 /\
  M `prefix_of` (unframe file).1 /\
  ((exists r, ending = inl r) -> M = (unframe file).1 /\ (unframe file).2 = Clean).
Proof.
  intros M. pose proof Hscan as Hscanned. unfold scanned in Hscanned.
  destruct (unframe file) as [records e] eqn:E.
  destruct (unframe_records _ _ _ Hbytes E) as [Hrec Hlen].
  assert (map shown scan `prefix_of` map sized records) as Hpre.
  { destruct Hscanned as [[_ ?]|[-> _]]; [done|by exists []; rewrite app_nil_r]. }
  destruct (scanned_messages _ _ Hrec Hpre) as [Hm Hc]. fold M in Hm.
  assert (alen M <= alen records) as HlM by (apply prefix_length in Hm; unfold alen; lia).
  split_and!; [done| |lia|done|].
  - destruct Hm as [k Ek]. cbn in Ek. rewrite Ek in Hrec. by apply Forall_app in Hrec as [? _].
  - intros (r & Er). destruct Hscanned as [[? _]|[Ecalls Ee]]; [congruence|]. cbn. split.
    + apply (f_equal length) in Ecalls. rewrite !length_map in Ecalls.
      rewrite (prefix_take _ _ Hm). unfold M. rewrite length_map, Ecalls. by rewrite take_ge.
    + rewrite Er in Ee. by destruct e.
Qed.

(** How far the sender got, when it got to the end. *)
Lemma sender_total s chunks pend :
  sender_ok limit ending (map call_message scan) s chunks pend -> sender_at s = SenderLeft None ->
  pend = [] /\ alen (concat chunks) = sent_messages s /\ 0 <= sent_messages s <= alen (map call_message scan) /\
  (sent_messages s = limit \/
   sent_messages s = alen (map call_message scan) /\ exists r, ending = inl r).
Proof.
  intros Hs Hat. pose proof (so_position _ _ _ _ _ _ Hs) as Hp. unfold position_ok in Hp. rewrite Hat in Hp.
  subst pend. pose proof (so_sent _ _ _ _ _ _ Hs) as Hsent. change (alen (@nil (list Z))) with 0 in Hsent.
  pose proof (sent_within _ _ _ _ _ _ Hs). pose proof (alen_nonneg (concat chunks)).
  split_and!; [done|lia|lia|lia|]. pose proof (so_done _ _ _ _ _ _ Hs) as Hd. unfold finishing in Hd.
  rewrite Hat in Hd. destruct (Hd eq_refl) as [?|[Hcalls He]]; [by left|right]. split; [|done].
  destruct (so_messages _ _ _ _ _ _ Hs) as (rest & E & Hrest). unfold thrown, awaiting in Hrest. rewrite Hat in Hrest.
  rewrite (Hrest eq_refl), Hcalls in E. rewrite E, !alen_app. cbn.
  change (alen (@nil (list Z))) with 0. lia.
Qed.

Lemma take_prefix_eq {A} (l k : list A) n : l `prefix_of` k -> n <= alen l -> take (Z.to_nat n) l = take (Z.to_nat n) k.
Proof. intros [m ->] Hn. rewrite take_app_le; [done|]. unfold alen in *. lia. Qed.

(** C10: success is sound. Whatever the network lost, repeated or reordered and
    however the threads took turns, a run that returns 0 counted every message
    it sent, once, in order and unaltered; these are the records of the file up
    to the limit, or all of them and the file is well framed; each has the size
    of its type. *)
Theorem loopback_verdict_is_sound `{NetworkLaws N} (n : N) schedule p counted :
  carried n = [] -> run limit ending (make n scan) schedule = Some (p, counted) -> exit_code p = Some 0 ->
  let '(records, e) := unframe file in
  let k := sent_messages (sender p) in
  map content counted = zip (seqZ 1 k) (take (Z.to_nat k) records) /\
  Forall itch_ok (take (Z.to_nat k) records) /\
  (k = limit \/ k = alen records /\ e = Clean).
Proof.
  intros Hn Hrun Hexit. destruct scan_messages as (Hcalls & HM & Hroom & Hpre & Hclean).
  set (M := map call_message scan) in *.
  pose proof (sound_run limit ending M HM Hroom _ _ _ _ _
    (sound_start limit ending M Hroom n scan eq_refl Hcalls Hlimit Hn) Hrun) as [(chunks & pend & Hs) _ Hr Hnext].
  cbn [app] in Hr. unfold exit_code in Hexit.
  destruct (sender_at (sender p)) as [| | | |[?|]] eqn:Hat; try done; [by destruct (receiver_at _)|].
  destruct (receiver_at (receiver p)) eqn:Hrat; try done.
  destruct (_ && _) eqn:Hall; [|done]. rewrite !andb_true_iff, !Z.eqb_eq in Hall.
  destruct Hall as ((((Hm & _) & Hi) & _) & _). rewrite (co_messages _ _ _ Hr) in Hm.
  rewrite (co_wrong _ _ _ Hr) in Hi.
  destruct (sender_total _ _ _ Hs Hat) as (_ & _ & Hk & Htotal). fold M in Hk, Htotal. set (k := sent_messages (sender p)) in *.
  assert (map content counted = first_messages M k) as Hcont.
  { rewrite <- first_run by lia. destruct (SequenceTracker.initialized_ (tracker (receiver p))) eqn:Ei.
    - destruct (co_run _ _ _ Hr Ei) as (a & Ha & _ & Hc). specialize (Hnext eq_refl).
      pose proof (f_equal alen Hc) as Hl. rewrite length_run_of in Hl by lia. unfold alen at 1 in Hl.
      rewrite length_map in Hl. fold (alen counted) in Hl. rewrite Hc. f_equal; lia.
    - rewrite (co_fresh _ _ _ Hr Ei) in *. rewrite <- Hm. by rewrite run_of_nil. }
  destruct (unframe file) as [records e]. cbn [fst snd] in *.
  assert (take (Z.to_nat k) M = take (Z.to_nat k) records) as Ht by (apply take_prefix_eq; [done|lia]).
  rewrite <- Ht. split_and!; [done| |].
  - assert (wrong counted = []) as Hw%wrong_nil by (by apply alen_zero); [|apply Hr].
    unfold first_messages in Hcont. assert (alen (take (Z.to_nat k) M) = k) as Hl by (unfold alen in *; rewrite length_take; lia).
    rewrite <- Hl in Hcont at 1. by rewrite (zip_snd _ _ _ Hcont) in Hw.
  - destruct Htotal as [?|[-> He]]; [by left|right]. destruct (Hclean He) as [-> ->]. done.
Qed.

(** What the receiver has when it ends on a lossless network. *)
Lemma lossless_end `{LosslessLaws N} (p : t (N := N)) counted :
  lossless limit ending (map call_message scan) p counted ->
  sender_at (sender p) = SenderLeft None -> receiver_at (receiver p) = ReceiverFinished ->
  let M := map call_message scan in let k := sent_messages (sender p) in
  0 <= k <= alen M /\ (k = limit \/ k = alen M /\ exists r, ending = inl r) /\
  (if ReceiverStats.end_of_session (stats (receiver p))
   then map content counted = zip (seqZ 1 k) (take (Z.to_nat k) M) /\
     (exit_code p = Some 0 <-> Forall itch_ok (take (Z.to_nat k) M))
   else exit_code p = Some 1 /\ end_packet (sender p) ∈ waiting (net p)).
Proof.
  intros Hp Hat Hrat. cbn zeta. destruct scan_messages as (Hcalls & HM & Hroom & _ & _).
  set (M := map call_message scan) in *.
  pose proof Hp as (chunks & pend & done & todo & Hll). pose proof (ll_sender _ _ _ _ _ _ _ _ _ Hll) as Hs.
  destruct (sender_total _ _ _ Hs Hat) as (-> & Hsent & Hk & Htotal). fold M in Hk, Htotal.
  split; [done|]. split; [done|].
  set (k := sent_messages (sender p)) in *. destruct (ReceiverStats.end_of_session (stats (receiver p))) eqn:He.
  2: { split; [|apply (waiting_end limit ending M p counted Hp He); unfold ended; by rewrite Hat].
    unfold exit_code. rewrite Hat, Hrat, He. by rewrite andb_false_r. }
  pose proof (ll_waiting _ _ _ _ _ _ _ _ _ Hll) as Hw. rewrite He in Hw. destruct Hw as (-> & _).
  pose proof (ll_chunks _ _ _ _ _ _ _ _ _ Hll) as ->. rewrite app_nil_r in Hsent.
  pose proof (ll_counted _ _ _ _ _ _ _ _ _ Hll) as Hr. pose proof (ll_got _ _ _ _ _ _ _ _ _ Hll) as Hgot.
  destruct (ll_clean _ _ _ _ _ _ _ _ _ Hll) as [Hg Hm].
  assert (map content counted = first_messages M k) as Hcont.
  { rewrite <- first_run by lia. destruct (SequenceTracker.initialized_ (tracker (receiver p))) eqn:Ei.
    - destruct (co_run _ _ _ Hr Ei) as (a & Ha & _ & Hc).
      pose proof (ll_next _ _ _ _ _ _ _ _ _ Hll Ei) as Hnext.
      pose proof (f_equal alen Hc) as Hl. rewrite length_run_of in Hl by lia. unfold alen at 1 in Hl.
      rewrite length_map in Hl. fold (alen counted) in Hl. rewrite Hc. f_equal; lia.
    - rewrite (co_fresh _ _ _ Hr Ei) in *. change (alen (@nil Block)) with 0 in Hgot.
      replace k with 0 by lia. by rewrite run_of_nil. }
  split; [done|]. unfold first_messages in Hcont.
  assert (alen (take (Z.to_nat k) M) = k) as Hl by (unfold alen in *; rewrite length_take; lia).
  rewrite <- Hl in Hcont at 1. rewrite <- (zip_snd _ _ _ Hcont), <- wrong_nil by apply Hr.
  unfold exit_code. rewrite Hat, Hrat, He, Hg, Hm, (co_wrong _ _ _ Hr), (co_messages _ _ _ Hr).
  replace (alen counted) with k by lia. fold k. rewrite Z.eqb_refl. cbn [Z.eqb andb].
  rewrite !andb_true_r. destruct (Z.eqb_spec (alen (wrong counted)) 0) as [E|E].
  - split; [|done]. intros _. by apply alen_zero.
  - split; [done|]. intros Ew. by rewrite Ew in E.
Qed.

(** C11: over a lossless network, once both threads have ended normally, the
    receiver either saw the end of the session: then it counted exactly the
    messages sent, in order, and the tool returns 0 exactly when each has the
    size of its type; or it gave up, the tool returns 1, and the packet that ends
    the session is still waiting. *)
Theorem lossless_loopback_verdict `{LosslessLaws N} (n : N) schedule p counted :
  waiting n = [] -> run limit ending (make n scan) schedule = Some (p, counted) ->
  sender_at (sender p) = SenderLeft None -> receiver_at (receiver p) = ReceiverFinished ->
  let '(records, e) := unframe file in
  let k := sent_messages (sender p) in
  (k = limit \/ k = alen records /\ e = Clean) /\
  (if ReceiverStats.end_of_session (stats (receiver p))
   then map content counted = zip (seqZ 1 k) (take (Z.to_nat k) records) /\
     (exit_code p = Some 0 <-> Forall itch_ok (take (Z.to_nat k) records))
   else exit_code p = Some 1 /\ end_packet (sender p) ∈ waiting (net p)).
Proof.
  intros Hn Hrun Hat Hrat. destruct scan_messages as (Hcalls & HM & Hroom & Hpre & Hclean).
  pose proof (lossless_run limit ending _ HM Hroom _ _ _ _ _
    (lossless_start limit ending _ Hroom n scan eq_refl Hcalls Hlimit Hn) Hrun) as Hp.
  destruct (lossless_end p counted Hp Hat Hrat) as (Hk & Htotal & Hend).
  destruct (unframe file) as [records e]. cbn [fst snd] in *.
  rewrite (take_prefix_eq _ records) in Hend by (done || lia). split; [|done].
  destruct Htotal as [?|[-> He]]; [by left|right]. destruct (Hclean He) as [-> ->]. done.
Qed.

(** C12: no run of the tool is stuck. Over a network that sends and receives
    when it can, and with records that fit into a datagram, from every state in
    which both threads are in their loops some continuation ends the run; on a
    well-framed file of well-formed messages it ends with 0. *)
Theorem loopback_can_finish `{ReliableLaws N} (n : N) schedule p counted :
  Forall fits_datagram (unframe file).1 -> waiting n = [] ->
  run limit ending (make n scan) schedule = Some (p, counted) -> under_way p = true ->
  exists rest p' now, run limit ending p rest = Some (p', now) /\ is_Some (exit_code p') /\
    ((exists r, ending = inl r) -> Forall itch_ok (unframe file).1 -> exit_code p' = Some 0).
Proof.
  intros Hfits Hn Hrun Hway. destruct scan_messages as (Hcalls & HM & Hroom & Hpre & Hclean).
  assert (Forall fits_datagram (map call_message scan)) as HfitsM.
  { destruct Hpre as [k Ek]. rewrite Ek in Hfits. by apply Forall_app in Hfits as [? _]. }
  pose proof (lossless_run limit ending _ HM Hroom _ _ _ _ _
    (lossless_start limit ending _ Hroom n scan eq_refl Hcalls Hlimit Hn) Hrun) as Hp.
  destruct (both_finish limit ending _ HM Hroom HfitsM p counted Hp) as
    (rest & p' & now & Hrun' & Hp' & Hfin & Hc & (x & Hleft) & Hend).
  { by eapply done_last_run, Hrun. }
  { done. }
  exists rest, p', now. split; [done|]. unfold sender_clean in Hc. rewrite Hleft in Hc. destruct x as [x|].
  - split; [unfold exit_code; rewrite Hleft, Hfin; by eexists|]. intros [r Er] _.
    destruct Hc as (e & _ & Ee). congruence.
  - assert (ended (sender p') = true) as Hended by (unfold ended; by rewrite Hleft).
    destruct (lossless_end p' _ Hp' Hleft Hfin) as (Hk & _ & Hlast). rewrite (Hend Hended) in Hlast.
    destruct Hlast as [_ Hcode]. split; [unfold exit_code; rewrite Hleft, Hfin; by eexists|].
    intros He Hitch. apply Hcode. destruct (Hclean He) as [-> _]. by apply Forall_take.
Qed.

End tool.

(** ** Runs *)

(** A network that keeps everything sent, and hands out what its script says:
    the datagram at a position, or nothing yet. *)
Record Ether := mkEther { history : list (list Z); script : list (option nat) }.

#[global] Instance ether_network : Network Ether := {|
  sendto n d :=
    if alen d <=? udp_limit then (mkEther (history n ++ [d]) (script n), Sent (alen d)) else (n, SendFailed);
  recv n capacity :=
    match script n with
    | Some i :: script' =>
        match history n !! i with
        | Some d => (mkEther (history n) script', Received (take (Z.to_nat capacity) d))
        | None => (n, TimedOut)
        end
    | None :: script' => (mkEther (history n) script', TimedOut)
    | [] => (n, TimedOut)
    end
|}.

#[global] Instance ether_laws : NetworkLaws Ether.
Proof.
  refine {| carried := history |}.
  - intros n d n' r. cbn. destruct (_ <=? _); intros [= <- <-]; cbn; [done|by rewrite app_nil_r].
  - intros n d n' bytes. cbn. destruct (Z.leb_spec (alen d) udp_limit); [by intros [= <- <-]|done].
  - intros n capacity n' r. cbn. destruct (script n) as [|[i|] script'].
    + intros [= <- <-]. by split.
    + destruct (history n !! i) as [d|] eqn:E; intros [= <- <-]; (split; [done|]); [|done].
      intros b [= <-]. exists d. split; [by eapply list_elem_of_lookup_2|done].
    + intros [= <- <-]. by split.
Defined.

(** A loopback interface. *)
Record Link := mkLink { link_queue : list (list Z) }.

#[global] Instance link_network : Network Link := {|
  sendto n d :=
    if alen d <=? udp_limit then (mkLink (link_queue n ++ [d]), Sent (alen d)) else (n, SendFailed);
  recv n capacity :=
    match link_queue n with
    | d :: queue' => (mkLink queue', Received (take (Z.to_nat capacity) d))
    | [] => (n, TimedOut)
    end
|}.

#[global] Instance link_laws : LosslessLaws Link.
Proof.
  refine {| waiting := link_queue |}.
  - intros n d n' r. cbn. by destruct (Z.leb_spec (alen d) udp_limit); intros [= <- <-].
  - intros n capacity n' r. cbn. destruct (link_queue n) as [|d queue'] eqn:E; intros [= <- <-]; [by rewrite E|].
    by exists d.
Defined.

#[global] Instance link_reliable : ReliableLaws Link.
Proof.
  split.
  - intros n d Hd. cbn. rewrite (proj2 (Z.leb_le _ _) Hd). by eexists.
  - intros n capacity. cbn. destruct (link_queue n); by eexists.
Defined.

(** Two system events in a file. *)
Definition demo_message (code : Z) : list Z := 83 :: replicate 10 0 ++ [code].
Definition demo_file : list Z := frame [demo_message 79; demo_message 67].
Definition demo_calls : list (list Z * Z) := [(demo_message 79 ++ [0; 12], 12); (demo_message 67, 12)].
Definition demo_ending : result FileScanResult.t := inl (FileScanResult.mk 2 28).

Lemma demo_bytes : Forall is_byte demo_file.
Proof. repeat (apply Forall_cons_2; [done|]). apply Forall_nil_2. Qed.

Lemma demo_scanned : scanned (FileScanResult.mk 0 0) demo_file demo_calls demo_ending.
Proof. unfold scanned. vm_compute. by right. Qed.

(** The data arrives twice before the end of the session. *)
Definition repeated : Ether := mkEther [] [None; Some 0%nat; Some 0%nat; Some 1%nat].
Definition demo_schedule : list Step :=
  [ReceiverStep; ReceiverStep] ++ replicate 6 SenderStep ++ replicate 3 ReceiverStep.

Lemma loopback_verdict_is_sound_witness :
  match run 5 demo_ending (make repeated demo_calls) demo_schedule with
  | Some (p, counted) =>
      exit_code p = Some 0 /\
      map content counted = [(1, demo_message 79); (2, demo_message 67)]
  | None => False
  end.
Proof.
  assert (from_option (fun pc => (exit_code pc.1, sent_messages (sender pc.1))) (None, 0)
    (run 5 demo_ending (make repeated demo_calls) demo_schedule) = (Some 0, 2)) as Hend by (vm_compute; reflexivity).
  destruct (run 5 demo_ending (make repeated demo_calls) demo_schedule) as [[p counted]|] eqn:E; [|discriminate Hend].
  cbn [from_option fst] in Hend. injection Hend as Hexit Hsent. split; [exact Hexit|].
  pose proof (loopback_verdict_is_sound demo_file 5 demo_bytes eq_refl ltac:(done)
    demo_calls demo_ending demo_scanned repeated demo_schedule p counted eq_refl E Hexit) as Hs.
  rewrite Hsent in Hs. apply Hs.
Defined.

Lemma lossless_loopback_verdict_witness :
  match run 5 demo_ending (make (mkLink []) demo_calls) (replicate 6 SenderStep ++ replicate 2 ReceiverStep) with
  | Some (p, counted) => map content counted = [(1, demo_message 79); (2, demo_message 67)]
  | None => False
  end.
Proof.
  set (schedule := replicate 6 SenderStep ++ replicate 2 ReceiverStep).
  assert (from_option (fun pc => (sender_at (sender pc.1), receiver_at (receiver pc.1),
      ReceiverStats.end_of_session (stats (receiver pc.1)), sent_messages (sender pc.1)))
    (Scanning, Receiving, false, 0) (run 5 demo_ending (make (mkLink []) demo_calls) schedule) =
    (SenderLeft None, ReceiverFinished, true, 2)) as Hend by (vm_compute; reflexivity).
  destruct (run 5 demo_ending (make (mkLink []) demo_calls) schedule) as [[p counted]|] eqn:E; [|discriminate Hend].
  cbn [from_option fst] in Hend. injection Hend as Hs Hr He Hsent.
  pose proof (lossless_loopback_verdict demo_file 5 demo_bytes eq_refl ltac:(done)
    demo_calls demo_ending demo_scanned (mkLink []) schedule p counted eq_refl E Hs Hr) as Hv.
  destruct (unframe demo_file) as [records e] eqn:Eu. vm_compute in Eu. injection Eu as <- <-.
  rewrite He, Hsent in Hv. destruct Hv as (_ & Hc & _). exact Hc.
Defined.

Lemma loopback_can_finish_witness :
  exists rest p' now, run 5 demo_ending (make (mkLink []) demo_calls) rest = Some (p', now) /\
    is_Some (exit_code p') /\
    ((exists r, demo_ending = inl r) -> Forall itch_ok (unframe demo_file).1 -> exit_code p' = Some 0).
Proof.
  assert (waiting (mkLink []) = []) as Hw by reflexivity.
  assert (Forall fits_datagram (unframe demo_file).1) as Hfits.
  { destruct (unframe demo_file) as [records e] eqn:Eu. vm_compute in Eu. injection Eu as <- <-.
    repeat (apply Forall_cons_2; [done|]). apply Forall_nil_2. }
  apply (loopback_can_finish demo_file 5 demo_bytes eq_refl ltac:(done)
    demo_calls demo_ending demo_scanned (mkLink []) [] (make (mkLink []) demo_calls) [] Hfits Hw eq_refl eq_refl).
Defined.

(** The receiver gives up too early when its timeout comes just before the
    last datagrams: [recv] found nothing, then everything is sent and
    [sender_done] stored, and only then is it read.  Nothing was lost and the
    file is in order, yet the tool returns 1 and both datagrams still wait. *)
Theorem loopback_gives_up_early :
  from_option (fun pc => (exit_code pc.1, alen (link_queue (net pc.1)), length pc.2)) (None, 0, 0%nat)
    (run 5 demo_ending (make (mkLink []) demo_calls) (ReceiverStep :: replicate 6 SenderStep ++ [ReceiverStep])) =
    (Some 1, 2, 0%nat).
Proof. vm_compute. reflexivity. Qed.
