(* ===== verification/QUftOpaque.v ===== *)
(** * integration/wondertrader/ParserITCH/QUftOpaque.cpp

    The compiled seam between a host that cannot see the engine's templates and
    the UFT adapter: one engine, one instrument, one strategy, whose callbacks a
    bridge passes on to two function pointers of the host.  What the host's
    functions do is outside the repository; they are the calls made on them.

    Its theorems: [quft_create] succeeds exactly on arguments engine and adapter
    accept; a runner then passes every event of its adapter to the host, once, in
    order, and its statistics say so. *)

From Stdlib Require Import Ascii.
From S2P Require Import Prelude FixedHashTable Itch50 Samples UftTypes UftAdapter Engine.
From S2P Require Import UftAdapterFacts Recorder EngineProperties.
Import (hints) UftAdapterStats.

Module QUftOpaqueStats.
Record t := mk {
  order_details : Z;
  transactions : Z;
  matches : Z;
  cancels : Z;
  trade_busts : Z;
  duplicate_matches_suppressed : Z;
  non_printable_suppressed : Z;
  broken_trades_without_output : Z;
  unknown_broken_trades : Z;
  errors : Z;
  capacity_exhaustions : Z;
  peak_active_orders : Z;
  order_events_delivered : Z;
  transaction_events_delivered : Z;
  callback_deliveries : Z;
  undelivered_events : Z
}.
Definition zero : t := mk 0 0 0 0 0 0 0 0 0 0 0 0 0 0 0 0.
End QUftOpaqueStats.

(** A call of the host's [QUftOrderCallback] or [QUftTransactionCallback], with
    the [void*] it was registered with. *)
Inductive HostCall :=
  | OrderCallback (strategy : Z) (event : UftOrderDetail.t)
  | TransactionCallback (strategy : Z) (event : UftTransaction.t).

Module QUftOpaque.

Definition kInstrumentCapacity : Z := 16384.
Definition kStrategyCapacity : Z := 4096.
Definition kStrategiesPerInstrument : Z := 8.

(** [CallbackBridge]: its function pointers are never null once it is used. *)
Record CallbackBridge := mkBridge { strategy : Z; instrument_id : Z }.

(** [CallbackBridge::init] *)
Definition init (bridge : CallbackBridge) : InitProgram :=
  Subscribe (instrument_id bridge) Channel.OrderDetail (fun _ =>
    Subscribe (instrument_id bridge) Channel.Transaction (fun _ => Return)).

(** [CallbackBridge::order] and [CallbackBridge::transaction] *)
Definition bridged (bridge : CallbackBridge) (d : Delivery) : option HostCall :=
  match d with
  | OrderDetailTo _ event => Some (OrderCallback (strategy bridge) event)
  | TransactionTo _ event => Some (TransactionCallback (strategy bridge) event)
  | _ => None
  end.

Record t := mk {
  engine : UftMarketDataEngine.t;
  bridge : CallbackBridge;
  adapter : option NasdaqItchUftAdapter.t
}.
#[global] Instance eta_runner : Eta t := fun r => mk (engine r) (bridge r) (adapter r).

Definition callbacks (bridge : CallbackBridge) : UftStrategyCallbacks.t :=
  UftStrategyCallbacks.mk (Some (init bridge)) false false true true.

(** [None] is the null runner; the host's pointers may be null. *)
Definition quft_create (locator instrument_id strategy_id : Z) (standard_code : option (list Z))
    (maximum_active_orders maximum_unique_matches : Z) (strategy : option Z)
    (order_callback transaction_callback : bool) : option t :=
  match standard_code, strategy with
  | Some code, Some host =>
      if negb order_callback || negb transaction_callback then None
      else
        let bridge := mkBridge host instrument_id in
        let engine := UftMarketDataEngine.make kInstrumentCapacity kStrategyCapacity in
        let '(engine, ok) := UftMarketDataEngine.register_instrument kInstrumentCapacity engine instrument_id
          (Some code) 1 20000000 1 in
        if negb ok then None
        else
          let '(engine, ok) := UftMarketDataEngine.register_strategy kStrategyCapacity engine strategy_id
            (Some 0) (callbacks bridge) in
          if negb ok then None
          else
            let '(engine, ok) := UftMarketDataEngine.start kInstrumentCapacity kStrategyCapacity
              kStrategiesPerInstrument engine in
            if negb ok then None
            else
              adapter ← NasdaqItchUftAdapter.make instrument_id locator maximum_active_orders
                maximum_unique_matches;
              Some (mk engine bridge (Some adapter))
  | _, _ => None
  end.

(** The engine as the adapter sees it: a publication makes the host calls. *)
#[global] Instance bridged_engine :
    MarketDataEngine (UftMarketDataEngine.t * CallbackBridge * list HostCall) := {|
  publish_order_detail '(e, b, calls) event :=
    let '(deliveries, n) := UftMarketDataEngine.publish_order_detail kInstrumentCapacity e event in
    ((e, b, calls ++ omap (bridged b) deliveries), n);
  publish_transaction '(e, b, calls) event :=
    let '(deliveries, n) := UftMarketDataEngine.publish_transaction kInstrumentCapacity e event in
    ((e, b, calls ++ omap (bridged b) deliveries), n);
  publish_book_update := None
|}.

(** The host calls made; a null runner takes nothing. *)
Definition quft_message (runner : option t) (message : option (list Z)) (size : Z) :
    option t * list HostCall :=
  match runner with
  | Some r =>
      match adapter r with
      | Some a =>
          let '(a, (e, b, calls)) :=
            NasdaqItchUftAdapter.on_message a message size (engine r, bridge r, []) in
          (Some (mk e b (Some a)), calls)
      | None => (runner, [])
      end
  | None => (runner, [])
  end.

Definition quft_stats (runner : option t) : QUftOpaqueStats.t :=
  match runner ≫= adapter with
  | None => QUftOpaqueStats.zero
  | Some a =>
      let input := NasdaqItchUftAdapter.stats a in
      QUftOpaqueStats.mk (UftAdapterStats.order_details input) (UftAdapterStats.transactions input)
        (UftAdapterStats.matches input) (UftAdapterStats.cancels input) (UftAdapterStats.trade_busts input)
        (UftAdapterStats.duplicate_matches_suppressed input)
        (UftAdapterStats.non_printable_suppressed input)
        (UftAdapterStats.broken_trades_without_output input)
        (UftAdapterStats.unknown_broken_trades input)
        (UftAdapterStats.malformed_or_missing_orders input)
        (UftAdapterStats.capacity_exhaustions input) (UftAdapterStats.peak_active_orders input)
        (UftAdapterStats.order_events_delivered input)
        (UftAdapterStats.transaction_events_delivered input)
        (UftAdapterStats.callback_deliveries input) (UftAdapterStats.undelivered_events input)
  end.

Definition quft_active_orders (runner : option t) : Z :=
  match runner ≫= adapter with
  | None => 0
  | Some a => NasdaqItchUftAdapter.active_orders a
  end.

Definition quft_instrument_capacity : Z := kInstrumentCapacity.
Definition quft_strategy_capacity : Z := kStrategyCapacity.

End QUftOpaque.

(** * Properties *)

Import itch50 NasdaqItchUftAdapter.
Import (hints) UftAdapterStats QUftOpaque.

(** A recorded event as the host sees it. *)
Definition host_call (host : Z) (p : Published) : HostCall :=
  match p with
  | OrderPublished e => OrderCallback host e
  | TransactionPublished e => TransactionCallback host e
  end.

(** ** Creation *)

Section creation.
Context (I S Mx iid sid : Z) (code : list Z) (b : QUftOpaque.CallbackBridge).
Import UftMarketDataEngine.
Hypothesis Hiid : 0 <= iid < I.
Hypothesis Hsid : 0 <= sid < S.
Hypothesis HMx : 1 <= Mx.
Hypothesis Hcode : 1 <= code_length_loop 33 code 0 <= kMaximumStandardCode.
Hypothesis Hbridge : QUftOpaque.instrument_id b = iid.

(** The instrument's one subscriber on both channels. *)
Definition ready (e : UftMarketDataEngine.t) : Prop :=
  running_ e = true /\ InstrumentSlot.registered (instruments_ e).[iid] = true /\
  InstrumentSlot.order_details (instruments_ e).[iid] = [sid] /\
  InstrumentSlot.transactions (instruments_ e).[iid] = [sid].

Lemma init_idle e ids :
  (forall id, id ∈ ids -> StrategySlot.registered (strategies_ e).[id] = false) ->
  init_strategies I S Mx e ids = (e, true).
Proof.
  induction ids as [|id ids IH]; intros Hids; [done|]. cbn [init_strategies].
  rewrite (Hids id) by (by left). cbn [andb]. apply IH. intros. apply Hids. by right.
Qed.

Lemma init_app e ids ids' e1 :
  init_strategies I S Mx e ids = (e1, true) ->
  init_strategies I S Mx e (ids ++ ids') = init_strategies I S Mx e1 ids'.
Proof.
  revert e. induction ids as [|id ids IH]; intros e; cbn [init_strategies app]; [by intros [= ->]|].
  destruct (_ && _); [done|]. apply IH.
Qed.

(** The configuration before the start. *)
Definition slot (ods tr : list Z) (metadata : UftInstrumentMetadata.t) : InstrumentSlot.t :=
  InstrumentSlot.mk metadata ods tr true.

Lemma subscribed e metadata ch ods tr present :
  configuration_frozen_ e = true -> running_ e = false -> alen (instruments_ e) = I ->
  alen (strategies_ e) = S ->
  (instruments_ e).[iid] = slot ods tr metadata ->
  (strategies_ e).[sid] = StrategySlot.mk present (QUftOpaque.callbacks b) true true ->
  match ch with Channel.OrderDetail => ods | Channel.Transaction => tr end = [] ->
  let ods' := match ch with Channel.OrderDetail => [sid] | Channel.Transaction => ods end in
  let tr' := match ch with Channel.OrderDetail => tr | Channel.Transaction => [sid] end in
  context_subscribe I S Mx e sid iid ch =
    (e <| instruments_ := (instruments_ e).[iid <- slot ods' tr' metadata] |>, true).
Proof.
  intros Hf Hr Hli Hls Hi Hs Hempty. cbv zeta.
  unfold context_subscribe, subscribe. rewrite Hf, Hr. cbn [negb orb].
  destruct (Z.leb_spec S sid); [lia|]. destruct (Z.leb_spec I iid); [lia|]. cbn [orb].
  rewrite Hi, Hs. cbn [StrategySlot.registered InstrumentSlot.registered slot negb orb].
  assert (forall e1, strategies_ e1 = strategies_ e ->
    e1 <| strategies_ ::= fun a => a.[sid <- a.[sid] <| StrategySlot.configuration_ok ::= fun ok => ok && true |>] |> = e1)
    as Hsame.
  { intros e1 E. destruct e1 as [slots ss f r]. cbn in E. subst ss. updates. cbn. f_equal.
    rewrite Hs. cbn. rewrite <- Hs. apply aset_aget. }
  assert (append_subscription Mx [] sid true = ([sid], true)) as Happ.
  { unfold append_subscription. cbn [negb orb]. change (alen (@nil Z)) with 0.
    destruct (Z.eqb_spec 0 Mx); [lia|]. done. }
  destruct ch; cbn [InstrumentSlot.order_details InstrumentSlot.transactions StrategySlot.callbacks
    QUftOpaque.callbacks UftStrategyCallbacks.on_order_detail UftStrategyCallbacks.on_transaction slot];
    rewrite Hempty, Happ; f_equal; by rewrite Hsame.
Qed.

Lemma created_engine :
  exists e1 e2 e3,
    register_instrument I (make I S) iid (Some code) 1 20000000 1 = (e1, true) /\
    register_strategy S e1 sid (Some 0) (QUftOpaque.callbacks b) = (e2, true) /\
    start I S Mx e2 = (e3, true) /\ ready e3.
Proof.
  assert (forall A (x : A) `{Inhabited A} n i, 0 <= i < n -> (replicate (Z.to_nat n) x).[i] = x) as Hrep.
  { intros A x HA n i Hi. apply aget_replicate. lia. }
  assert (alen (replicate (Z.to_nat I) (@inhabitant _ InstrumentSlot.slot_inhabited)) = I) as HlI
    by (rewrite alen_replicate; lia).
  assert (alen (replicate (Z.to_nat S) (@inhabitant _ StrategySlot.strategy_inhabited)) = S) as HlS
    by (rewrite alen_replicate; lia).
  set (slots := replicate (Z.to_nat I) (@inhabitant _ InstrumentSlot.slot_inhabited)) in *.
  set (ss := replicate (Z.to_nat S) (@inhabitant _ StrategySlot.strategy_inhabited)) in *.
  assert (slots.[iid] = inhabitant) as Hslots by (apply (Hrep _ _ _ I); lia).
  assert (forall id, 0 <= id < S -> ss.[id] = inhabitant) as Hstrats by (intros; by apply (Hrep _ _ _ S)).
  assert (exists metadata, register_instrument I (make I S) iid (Some code) 1 20000000 1 =
    (mk (slots.[iid <- slot [] [] metadata]) ss false false, true)) as [metadata H1].
  { unfold register_instrument, make. fold slots ss. cbn [configuration_frozen_ instruments_ orb].
    destruct (Z.leb_spec I iid); [lia|]. cbn [orb Z.leb Z.ltb Z.compare].
    rewrite Hslots. cbn [InstrumentSlot.registered inhabitant].
    set (length := code_length_loop 33 code 0) in *.
    destruct (Z.eqb_spec length 0); [lia|]. destruct (Z.ltb_spec kMaximumStandardCode length); [lia|]. cbn [orb].
    eexists. reflexivity. }
  exists (mk (slots.[iid <- slot [] [] metadata]) ss false false). rewrite H1. unfold register_strategy. cbn [configuration_frozen_ strategies_].
  destruct (Z.leb_spec S sid); [lia|]. cbn [orb bool_decide].
  rewrite bool_decide_false by done. rewrite Hstrats by lia. cbn [StrategySlot.registered inhabitant].
  set (ss' := ss.[sid <- StrategySlot.mk (Some 0) (QUftOpaque.callbacks b) true true]).
  enough (exists e3, start I S Mx (mk (slots.[iid <- slot [] [] metadata]) ss' false false) = (e3, true) /\ ready e3)
    as (e3 & H3 & Hready) by (eexists _, e3; done).
  assert (alen ss' = S) as HlS' by (unfold ss'; by rewrite alen_aset).
  assert (ss'.[sid] = StrategySlot.mk (Some 0) (QUftOpaque.callbacks b) true true) as Hss
    by (unfold ss'; apply aget_aset_eq; lia).
  unfold start. cbn [configuration_frozen_ set_field].
  set (e := mk (slots.[iid <- slot [] [] metadata]) ss' true false).
  change (_ <| configuration_frozen_ := true |>) with e.
  replace (seqZ 0 S) with (seqZ 0 sid ++ sid :: seqZ (sid + 1) (S - sid - 1)).
  2: { replace (seqZ 0 S) with (seqZ 0 (sid + (1 + (S - sid - 1)))) by (f_equal; lia).
    rewrite seqZ_app by lia. rewrite (seqZ_cons (0 + sid)) by lia. rewrite Z.add_0_l.
    replace (Z.succ sid) with (sid + 1) by lia. by replace (Z.pred (1 + (S - sid - 1))) with (S - sid - 1) by lia. }
  assert (forall id, 0 <= id < S -> id <> sid -> StrategySlot.registered (ss'.[id]) = false) as Hother.
  { intros id Hid Hne. unfold ss'. rewrite aget_aset_ne by lia. by rewrite Hstrats. }
  rewrite (init_app e _ _ e).
  2: { apply init_idle. intros id Hid%elem_of_seqZ. apply Hother; lia. }
  cbn [init_strategies]. change (strategies_ e) with ss'. rewrite Hss.
  cbn [StrategySlot.registered StrategySlot.callbacks QUftOpaque.callbacks UftStrategyCallbacks.on_init].
  unfold QUftOpaque.init. rewrite Hbridge. cbn [run_init].
  rewrite (subscribed e metadata Channel.OrderDetail [] [] (Some 0)); try done;
    [|by rewrite <- HlI; apply alen_aset|by apply aget_aset_eq; lia].
  set (e' := e <| instruments_ := _ |>).
  rewrite (subscribed e' metadata Channel.Transaction [sid] [] (Some 0)); try done;
    [|cbn; by rewrite !alen_aset|apply aget_aset_eq; cbn; rewrite alen_aset; lia].
  set (e'' := e' <| instruments_ := _ |>).
  change (strategies_ e'') with ss'. rewrite Hss. cbn [StrategySlot.configuration_ok negb andb].
  rewrite init_idle.
  2: { intros id Hid%elem_of_seqZ. apply Hother; lia. }
  eexists. split; [reflexivity|].
  assert ((instruments_ (e'' <| running_ := true |>)).[iid] = slot [sid] [sid] metadata) as Hslot.
  { apply aget_aset_eq. cbn. rewrite !alen_aset. lia. }
  unfold ready. by rewrite Hslot.
Qed.

(** A publication of the instrument makes one host call. *)
Lemma runner_order e event calls :
  ready e -> UftOrderDetail.instrument_id event = iid ->
  UftMarketDataEngine.publish_order_detail I e event = ([OrderDetailTo sid event], 1) /\
  calls ++ omap (QUftOpaque.bridged b) [OrderDetailTo sid event] =
    calls ++ [OrderCallback (QUftOpaque.strategy b) event].
Proof.
  intros (Hr & Hg & Ho & _) Hi. split; [|done]. unfold UftMarketDataEngine.publish_order_detail.
  rewrite Hr, Hi. destruct (Z.leb_spec I iid); [lia|]. cbn [negb orb]. by rewrite Hg, Ho.
Qed.

Lemma runner_transaction e event calls :
  ready e -> UftTransaction.instrument_id event = iid ->
  UftMarketDataEngine.publish_transaction I e event = ([TransactionTo sid event], 1) /\
  calls ++ omap (QUftOpaque.bridged b) [TransactionTo sid event] =
    calls ++ [TransactionCallback (QUftOpaque.strategy b) event].
Proof.
  intros (Hr & Hg & _ & Ht) Hi. split; [|done]. unfold UftMarketDataEngine.publish_transaction.
  rewrite Hr, Hi. destruct (Z.leb_spec I iid); [lia|]. cbn [negb orb]. by rewrite Hg, Ht.
Qed.
End creation.

(** ** The runner *)

Import QUftOpaque.

Abbreviation code_length code := (UftMarketDataEngine.code_length_loop 33 code 0).

(** Everything a host hands over, one message after the other. *)
Fixpoint host_run (runner : option QUftOpaque.t) (ms : list (option (list Z) * Z)) :
    option QUftOpaque.t * list HostCall :=
  match ms with
  | [] => (runner, [])
  | (m, size) :: ms' =>
      let '(runner, calls) := quft_message runner m size in
      let '(runner, calls') := host_run runner ms' in (runner, calls ++ calls')
  end.

(** The adapter on its own. *)
Fixpoint feed (a : NasdaqItchUftAdapter.t) (r : Recorder) (ms : list (option (list Z) * Z)) :
    NasdaqItchUftAdapter.t * Recorder :=
  match ms with
  | [] => (a, r)
  | (m, size) :: ms' => let '(a, r) := on_message a m size r in feed a r ms'
  end.

Section runner.
Context (locator iid sid orders matches host : Z) (code : list Z).
Hypothesis Hiid : 0 <= iid.
Hypothesis Hsid : 0 <= sid.

Abbreviation create := (quft_create locator iid sid (Some code) orders matches (Some host) true true).

Lemma create_refused :
  kInstrumentCapacity <= iid \/ kStrategyCapacity <= sid \/ ~ (1 <= code_length code <= 31) -> create = None.
Proof.
  intros Hbad. unfold quft_create. cbn [negb orb].
  destruct (decide (kInstrumentCapacity <= iid \/ ~ (1 <= code_length code <= 31))) as [Hreg|Hreg].
  - assert ((UftMarketDataEngine.register_instrument kInstrumentCapacity
      (UftMarketDataEngine.make kInstrumentCapacity kStrategyCapacity) iid (Some code) 1 20000000 1).2 = false) as Hr.
    { unfold UftMarketDataEngine.register_instrument. cbn [UftMarketDataEngine.configuration_frozen_ UftMarketDataEngine.make orb].
      destruct (Z.leb_spec kInstrumentCapacity iid); [done|]. cbn [orb Z.leb Z.ltb Z.compare].
      destruct (InstrumentSlot.registered _); [done|]. destruct Hreg as [|Hreg]; [lia|].
      unfold kMaximumStandardCode. set (n := code_length code) in *.
      assert (0 <= n) as Hn.
      { unfold n. clear. assert (forall f k, 0 <= k -> 0 <= UftMarketDataEngine.code_length_loop f code k) as H; [|by apply H].
        induction f as [|f IH]; intros k Hk; [done|]. cbn [UftMarketDataEngine.code_length_loop].
        destruct (_ && _); [apply IH; lia|done]. }
      destruct (Z.eqb_spec n 0); [done|]. destruct (Z.ltb_spec 31 n); [done|]. lia. }
    destruct (UftMarketDataEngine.register_instrument _ _ _ _ _ _ _) as [e ok]. cbn in Hr. by subst ok.
  - destruct (UftMarketDataEngine.register_instrument _ _ _ _ _ _ _) as [e ok]. destruct ok; [|done]. cbn [negb].
    unfold UftMarketDataEngine.register_strategy.
    destruct (Z.leb_spec kStrategyCapacity sid); [by rewrite orb_true_r|]. exfalso.
    destruct Hbad as [?|[?|?]]; [by apply Hreg; left|lia|by apply Hreg; right].
Qed.

Lemma create_accepted :
  iid < kInstrumentCapacity -> sid < kStrategyCapacity -> 1 <= code_length code <= 31 ->
  exists e, ready iid sid e /\
    create = (a ← NasdaqItchUftAdapter.make iid locator orders matches; Some (mk e (mkBridge host iid) (Some a))).
Proof.
  intros Hi Hs Hc. unfold kInstrumentCapacity, kStrategyCapacity in Hi, Hs.
  destruct (created_engine 16384 4096 8 iid sid code (mkBridge host iid) ltac:(lia) ltac:(lia) ltac:(lia) Hc eq_refl)
    as (e1 & e2 & e3 & H1 & H2 & H3 & Hready).
  exists e3. split; [done|]. unfold quft_create. cbn [negb orb].
  unfold kInstrumentCapacity, kStrategyCapacity, kStrategiesPerInstrument. rewrite H1. cbn [negb].
  rewrite H2. cbn [negb]. by rewrite H3.
Qed.

(** The host's calls and the recorder's events, side by side. *)
Definition mirrored (start : list HostCall) (s1 : UftMarketDataEngine.t * CallbackBridge * list HostCall)
    (s2 : Recorder) : Prop :=
  let '(e, b, calls) := s1 in
  ready iid sid e /\ b = mkBridge host iid /\ start ++ calls = map (host_call host) (recorded s2).

Lemma message_mirrored start a e r message size :
  iid < kInstrumentCapacity -> sound iid a -> ready iid sid e ->
  start = map (host_call host) (recorded r) ->
  let '(a1, (e1, b1, calls)) := on_message a message size (e, mkBridge host iid, []) in
  let '(a2, r2) := on_message a message size r in
  a1 = a2 /\ sound iid a1 /\ ready iid sid e1 /\ b1 = mkBridge host iid /\
  start ++ calls = map (host_call host) (recorded r2).
Proof.
  intros Hi Ha He Hstart.
  pose proof (agree_message (mirrored start) iid) as Hagree.
  assert (agree (mirrored start) iid (on_message a message size (e, mkBridge host iid, []))
    (on_message a message size r)) as H.
  { apply Hagree; try done.
    - intros [[e0 b0] calls] r0 event (Hready & -> & Hcalls) Hev.
      destruct (runner_order kInstrumentCapacity iid sid (mkBridge host iid) ltac:(done) e0 event calls Hready Hev) as [Hp Hc].
      eexists _, _. cbn [publish_order_detail bridged_engine recorder_engine]. rewrite Hp, Hc.
      split_and!; [done|done|]. split_and!; [done|done|]. rewrite app_assoc, Hcalls. cbn. by rewrite map_app.
    - intros [[e0 b0] calls] r0 event (Hready & -> & Hcalls) Hev.
      destruct (runner_transaction kInstrumentCapacity iid sid (mkBridge host iid) ltac:(done) e0 event calls Hready Hev) as [Hp Hc].
      eexists _, _. cbn [publish_transaction bridged_engine recorder_engine]. rewrite Hp, Hc.
      split_and!; [done|done|]. split_and!; [done|done|]. rewrite app_assoc, Hcalls. cbn. by rewrite map_app.
    - split_and!; [done|done|]. by rewrite app_nil_r. }
  destruct (on_message a message size (e, mkBridge host iid, [])) as [a1 [[e1 b1] calls]].
  destruct (on_message a message size r) as [a2 r2].
  destruct H as (E & (Hr & Hb & Hc) & Hs). cbn in *. done.
Qed.

Lemma host_run_feeds a e r start ms :
  iid < kInstrumentCapacity -> sound iid a -> ready iid sid e -> start = map (host_call host) (recorded r) ->
  let '(runner, calls) := host_run (Some (mk e (mkBridge host iid) (Some a))) ms in
  let '(a', r') := feed a r ms in
  (exists e', runner = Some (mk e' (mkBridge host iid) (Some a'))) /\ sound iid a' /\
  start ++ calls = map (host_call host) (recorded r').
Proof.
  intros Hi. revert a e r start. induction ms as [|[m size] ms IH]; intros a e r start Ha He Hstart;
    cbn [host_run feed].
  { split_and!; [by exists e|done|by rewrite app_nil_r]. }
  unfold quft_message. cbn [adapter engine bridge].
  pose proof (message_mirrored start a e r m size Hi Ha He Hstart) as H.
  destruct (on_message a m size (e, mkBridge host iid, [])) as [a1 [[e1 b1] calls]].
  destruct (on_message a m size r) as [a2 r2]. destruct H as (-> & Ha1 & He1 & -> & Hc1).
  specialize (IH a2 e1 r2 (start ++ calls) Ha1 He1 Hc1).
  destruct (host_run _ ms) as [runner calls']. destruct (feed a2 r2 ms) as [a' r'].
  destruct IH as (He' & Ha' & Hc). split_and!; [done|done|]. by rewrite app_assoc.
Qed.

(** C34: the seam is transparent. A runner is created exactly on an instrument
    and a strategy within the engine's capacities, a code of 1 to 31 characters
    and table sizes the adapter accepts. Whatever messages the host then hands
    over, its callbacks are called once for each event the adapter publishes, in
    order, with the host's pointer. The statistics it can ask for are field by
    field those of the adapter fed with the same messages on an engine that
    delivers everything, where [errors] are the malformed or missing orders, and
    report every event as delivered and none as undelivered. *)
Theorem opaque_runner_is_transparent ms :
  (is_Some create <->
    iid < kInstrumentCapacity /\ sid < kStrategyCapacity /\ 1 <= code_length code <= 31 /\
    is_Some (NasdaqItchUftAdapter.make iid locator orders matches)) /\
  forall r, create = Some r ->
    exists a, NasdaqItchUftAdapter.make iid locator orders matches = Some a /\
    let '(runner, calls) := host_run (Some r) ms in
    let '(a', rec) := feed a (mkRecorder []) ms in
    calls = map (host_call host) (recorded rec) /\
    quft_active_orders runner = active_orders a' /\
    let s := quft_stats runner in
    QUftOpaqueStats.order_details s = UftAdapterStats.order_details (stats a') /\
    QUftOpaqueStats.transactions s = UftAdapterStats.transactions (stats a') /\
    QUftOpaqueStats.matches s = UftAdapterStats.matches (stats a') /\
    QUftOpaqueStats.cancels s = UftAdapterStats.cancels (stats a') /\
    QUftOpaqueStats.trade_busts s = UftAdapterStats.trade_busts (stats a') /\
    QUftOpaqueStats.duplicate_matches_suppressed s = UftAdapterStats.duplicate_matches_suppressed (stats a') /\
    QUftOpaqueStats.non_printable_suppressed s = UftAdapterStats.non_printable_suppressed (stats a') /\
    QUftOpaqueStats.broken_trades_without_output s = UftAdapterStats.broken_trades_without_output (stats a') /\
    QUftOpaqueStats.unknown_broken_trades s = UftAdapterStats.unknown_broken_trades (stats a') /\
    QUftOpaqueStats.errors s = UftAdapterStats.malformed_or_missing_orders (stats a') /\
    QUftOpaqueStats.capacity_exhaustions s = UftAdapterStats.capacity_exhaustions (stats a') /\
    QUftOpaqueStats.peak_active_orders s = UftAdapterStats.peak_active_orders (stats a') /\
    QUftOpaqueStats.order_events_delivered s = UftAdapterStats.order_details (stats a') /\
    QUftOpaqueStats.transaction_events_delivered s = UftAdapterStats.transactions (stats a') /\
    QUftOpaqueStats.undelivered_events s = 0 /\
    QUftOpaqueStats.callback_deliveries s =
      u64 (UftAdapterStats.order_details (stats a') + UftAdapterStats.transactions (stats a')).
Proof.
  assert (forall a, NasdaqItchUftAdapter.make iid locator orders matches = Some a -> sound iid a) as Hsound.
  { intros a Ha. unfold NasdaqItchUftAdapter.make in Ha.
    destruct (FixedHashTable.make orders); [|done]. destruct (FixedHashTable.make matches); [|done].
    by injection Ha as <-. }
  destruct (decide (iid < kInstrumentCapacity /\ sid < kStrategyCapacity /\ 1 <= code_length code <= 31)) as [H|H].
  - destruct H as (Hi & Hs & Hc). destruct (create_accepted Hi Hs Hc) as (e & He & ->).
    destruct (NasdaqItchUftAdapter.make _ _ _ _) as [a|] eqn:Ha.
    2: { split; [|by intros r [=]]. split; [by intros []%is_Some_None|by intros (_ & _ & _ & []%is_Some_None)]. }
    split; [split; [intros _; split_and!; try done; lia|by eexists]|]. intros r [= <-]. exists a. split; [done|].
    pose proof (host_run_feeds a e (mkRecorder []) [] ms Hi (Hsound a eq_refl) He eq_refl) as Hrun.
    destruct (host_run _ ms) as [runner calls]. destruct (feed a _ ms) as [a' rec].
    destruct Hrun as ((e' & ->) & [(H1 & H2 & H3 & H4) _] & Hcalls). cbn. by split_and!.
  - rewrite create_refused by (unfold kInstrumentCapacity, kStrategyCapacity in *; lia).
    split; [|by intros r [=]]. split; [by intros []%is_Some_None|]. intros (? & ? & ? & _). exfalso. by apply H.
Qed.
End runner.

(** An order and a cancellation reach the host. *)
Lemma opaque_runner_is_transparent_witness :
  exists r, quft_create 7 1 2 (Some [81; 0]) 8 8 (Some 5) true true = Some r /\
    map (fun c => match c with OrderCallback p _ => (p, true) | TransactionCallback p _ => (p, false) end)
      (host_run (Some r) [(Some (add_message 9), 36); (Some (cancel_message 9), 23)]).2 = [(5, true); (5, false)].
Proof.
  destruct (opaque_runner_is_transparent 7 1 2 8 8 5 [81; 0] ltac:(done) ltac:(done)
    [(Some (add_message 9), 36); (Some (cancel_message 9), 23)]) as [Hcreate Hrun].
  destruct (proj2 Hcreate) as [r Hr]; [split_and!; [done|done|done|done|by vm_compute; eexists]|].
  exists r. split; [exact Hr|]. destruct (Hrun r Hr) as (a & Ha & Hcalls). vm_compute in Ha. injection Ha as <-.
  destruct (host_run (Some r) _) as [runner calls]. cbn [snd]. revert Hcalls.
  match goal with |- context [feed ?x ?y ?z] => set (out := feed x y z) end.
  vm_compute in out. subst out. intros (-> & _). reflexivity.
Defined.
