(* ===== verification/Parser.v ===== *)
(** * integration/wondertrader/ParserITCH/ParserITCH.cpp

    The WonderTrader parser plugin: a host thread configures, connects and
    disconnects it; a worker thread replays a file to the host's listener.  The
    two take turns at will.  [_stopped] and [_connected] are modification orders,
    of which an acquire load returns any value not older than its thread knows;
    creating and joining the worker make everything before known.  The host
    framework is outside the repository: the listener is the sequence of calls
    made on it, and what the scan of a path does is a parameter.

    Its theorems hold for every schedule of host and worker: the listener sees
    whole sessions, each an opening, the replay of the file from its start, and a
    closing; after a disconnect nothing more.  A disconnect returns, and lets no
    further market data through once the worker sees it. *)

From Stdlib Require Import Ascii.
From S2P Require Import Prelude Itch50 Samples HistoricalFile WtsTypes WtsAdapter Replay.
Import itch50.

Module ParserITCH.

(** The events and levels of the framework the parser uses. *)
Inductive WTSParserEvent := WPE_Connect | WPE_Login | WPE_Logout | WPE_Close.
Inductive WTSLogLevel := LL_DEBUG | LL_INFO | LL_ERROR.

(** What ends a replay with an exception. *)
Inductive ReplayError := scan_threw (e : ScanError) | symbol_not_found | validation_failed.

(** The texts logged, with the numbers they print. *)
Inductive LogMessage :=
  | settings_required
  | replayed (target_messages : Z)
  | replay_complete (target_messages orders transactions : Z)
  | replay_stopped
  | replay_error (e : ReplayError).

(** A call of the host's [IParserSpi]. *)
Inductive SpiCall :=
  | handleEvent (event : WTSParserEvent) (code : Z)
  | handleParserLog (level : WTSLogLevel) (message : LogMessage)
  | handleOrderDetail (data : WTSOrdDtlStruct.t)
  | handleTransaction (data : WTSTransStruct.t).

(** What [init] reads of its [WTSVariant]. *)
Record Config := mkConfig { path : list Z; symbol : list Z; date : Z; gpsize : Z }.

(** ** [replay_loop] *)

(** The local variables of [replay_loop]; [output] is the listener its
    [WonderTraderSink] holds. *)
Record Replaying := mkReplaying {
  output : option Z;
  adapter : option PsxWtsAdapter.t;
  locator : Z;
  target_messages : Z
}.
#[global] Instance eta_replaying : Eta Replaying := fun r =>
  mkReplaying (output r) (adapter r) (locator r) (target_messages r).

(** [WonderTraderSink] *)
Definition on_call (call : WtsCall) : SpiCall :=
  match call with
  | on_order_detail value => handleOrderDetail value
  | on_transaction value => handleTransaction value
  end.

(** A call on a listener, if there is one. *)
Definition on (listener : option Z) (calls : list SpiCall) : list (Z * SpiCall) :=
  match listener with Some l => map (pair l) calls | None => [] end.

(** The callback of the scan after the test of [_stopped]; logs go to the
    parser's listener. *)
Definition replay_message (config : Config) (sink : option Z) (r : Replaying) (delivered : list Z * Z) :
    Replaying * list (Z * SpiCall) :=
  let '(message, size) := delivered in
  let r :=
    if (byte_at message 0 =? chr "R") && (size =? expected_message_size (chr "R")) &&
       bool_decide (trimmed_symbol (message +! 11) = symbol config)
    then
      let located := read_u16 (message +! 1) in
      (r <| locator := located |>)
         <| adapter := Some (PsxWtsAdapter.make (date config) located (symbol config)) |>
    else r in
  match adapter r with
  | Some a =>
      if (11 <=? size) && (read_u16 (message +! 1) =? locator r) then
        let '(a, calls) := PsxWtsAdapter.on_message a message size in
        let r := (r <| adapter := Some a |>) <| target_messages ::= incr |> in
        let logged :=
          if target_messages r mod gpsize config =? 0
          then [handleParserLog LL_DEBUG (replayed (target_messages r))] else [] in
        (r, on (output r) (map on_call calls) ++ on sink logged)
      else (r, [])
  | None => (r, [])
  end.

(** After a scan that returned: the completed replay or an exception. *)
Definition finish (r : Replaying) : ReplayError + LogMessage :=
  match adapter r with
  | None => inl symbol_not_found
  | Some a =>
      let stats := PsxWtsAdapter.stats a in
      if negb (WtsAdapterStats.errors stats =? 0) || negb (PsxWtsAdapter.active_orders a =? 0)
      then inl validation_failed
      else inr (replay_complete (target_messages r) (WtsAdapterStats.order_details stats)
        (WtsAdapterStats.transactions stats))
  end.

(** How the worker leaves the [try] block, and its last calls. *)
Inductive Outcome := Completed (message : LogMessage) | Stopped | Threw (e : ReplayError).

Definition last_calls (outcome : Outcome) : list SpiCall :=
  match outcome with
  | Completed message =>
      [handleParserLog LL_INFO message; handleEvent WPE_Logout 0; handleEvent WPE_Close 0]
  | Stopped =>
      [handleParserLog LL_INFO replay_stopped; handleEvent WPE_Logout 0; handleEvent WPE_Close 0]
  | Threw e => [handleParserLog LL_ERROR (replay_error e); handleEvent WPE_Close (-1)]
  end.

(** Where the worker is. *)
Inductive WorkerAt :=
  | WorkerStarts
  | WorkerScans (r : Replaying) (calls : list (list Z * Z)) (ending : result FileScanResult.t)
  | WorkerLeaves (outcome : Outcome)
  | WorkerStores
  | WorkerDone.

Record Worker := mkWorker { at_ : WorkerAt; seen_stopped : nat }.
#[global] Instance eta_worker : Eta Worker := fun w => mkWorker (at_ w) (seen_stopped w).

(** ** The parser *)

(** Where the host thread is: outside the parser, or in the join of [connect]
    or of [disconnect]. *)
Inductive HostAt := HostOutside | HostReconnects | HostDisconnects.

Record t := mk {
  config_ : Config;
  sink_ : option Z;
  stopped_ : list bool;
  connected_ : list bool;
  worker_ : option Worker;
  subscriptions_ : gset (list Z);
  seen_connected : nat;
  host : HostAt
}.
#[global] Instance eta_parser : Eta t := fun p =>
  mk (config_ p) (sink_ p) (stopped_ p) (connected_ p) (worker_ p) (subscriptions_ p) (seen_connected p) (host p).

(** The constructor. *)
Definition make : t := mk (mkConfig [] [] 0 100000) None [true] [false] None ∅ 0 HostOutside.

(** *** Calls of the host that do not wait *)

Definition log (p : t) (level : WTSLogLevel) (message : LogMessage) : list (Z * SpiCall) :=
  on (sink_ p) [handleParserLog level message].

Definition init (p : t) (config : option Config) : t * bool * list (Z * SpiCall) :=
  match config with
  | None => (p, false, [])
  | Some c =>
      let c := if gpsize c =? 0 then mkConfig (path c) (symbol c) (date c) 100000 else c in
      let p := p <| config_ := c |> in
      if bool_decide (path c = []) || bool_decide (symbol c = []) || (date c =? 0)
      then (p, false, log p LL_ERROR settings_required)
      else (p, true, [])
  end.

Definition subscribe (p : t) (symbols : gset (list Z)) : t := p <| subscriptions_ ::= fun s => s ∪ symbols |>.
Definition unsubscribe (p : t) (symbols : gset (list Z)) : t := p <| subscriptions_ ::= fun s => s ∖ symbols |>.
Definition registerSpi (p : t) (listener : option Z) : t := p <| sink_ := listener |>.

(** A load of an atomic that may not go back behind [seen]. *)
Definition load (order : list bool) (seen position : nat) : option bool :=
  if (position <? seen)%nat then None else order !! position.

(** *** Connecting and disconnecting *)

(** The last lines of [connect]: the new thread knows all that was stored. *)
Definition start_worker (p : t) : t :=
  let p := (p <| stopped_ ::= fun l => l ++ [false] |>) <| connected_ ::= fun l => l ++ [true] |> in
  p <| worker_ := Some (mkWorker WorkerStarts (length (stopped_ p) - 1)%nat) |>
    <| seen_connected := (length (connected_ p) - 1)%nat |> <| host := HostOutside |>.

(** [connect]: [position] is what the load of [_connected] returns, if there is
    a worker. *)
Definition connect (p : t) (position : nat) : option t :=
  match worker_ p with
  | Some _ =>
      connected ← load (connected_ p) (seen_connected p) position;
      let p := p <| seen_connected := position |> in
      Some (if connected : bool then p else p <| host := HostReconnects |>)
  | None => Some (start_worker p)
  end.

(** The end of [disconnect]. *)
Definition disconnected (p : t) : t :=
  let p := (p <| worker_ := None |>) <| connected_ ::= fun l => l ++ [false] |> in
  p <| seen_connected := (length (connected_ p) - 1)%nat |> <| host := HostOutside |>.

(** [disconnect] up to the join. *)
Definition disconnect (p : t) : t :=
  let p := p <| stopped_ ::= fun l => l ++ [true] |> in
  match worker_ p with
  | Some _ => p <| host := HostDisconnects |>
  | None => disconnected p
  end.

(** The join returns once the worker is done. *)
Definition join (p : t) : option t :=
  match worker_ p with
  | Some (mkWorker WorkerDone _) =>
      match host p with
      | HostReconnects => Some (start_worker (p <| worker_ := None |>))
      | HostDisconnects => Some (disconnected p)
      | HostOutside => None
      end
  | _ => None
  end.

(** *** The worker *)

(** What follows a scan that ended. *)
Definition outcome (r : Replaying) (ending : result FileScanResult.t) : Outcome :=
  match ending with
  | inr e => Threw (scan_threw e)
  | inl _ => match finish r with inl e => Threw e | inr message => Completed message end
  end.

(** The next call of the callback, or the end of the scan; [position] is what
    the load of [_stopped] returns. *)
Definition scan_step (p : t) (w : Worker) (r : Replaying) (calls : list (list Z * Z))
    (ending : result FileScanResult.t) (position : nat) : option (Worker * list (Z * SpiCall)) :=
  match calls with
  | [] => Some (w <| at_ := WorkerLeaves (outcome r ending) |>, [])
  | c :: rest =>
      stopped ← load (stopped_ p) (seen_stopped w) position;
      let w := w <| seen_stopped := position |> in
      if stopped : bool then Some (w <| at_ := WorkerLeaves Stopped |>, [])
      else
        let '(r, out) := replay_message (config_ p) (sink_ p) r c in
        Some (w <| at_ := WorkerScans r rest ending |>, out)
  end.

Section worker.
(** What [scan_historical_file] does on a path: the calls of its callback, and
    how it ends. *)
Context (scan : list Z -> list (list Z * Z) * result FileScanResult.t).

Definition worker_step (p : t) (position : nat) : option (t * list (Z * SpiCall)) :=
  w ← worker_ p;
  match at_ w with
  | WorkerStarts =>
      let r := mkReplaying (sink_ p) None 0 0 in
      let '(calls, ending) := scan (path (config_ p)) in
      Some (p <| worker_ := Some (w <| at_ := WorkerScans r calls ending |>) |>,
            on (sink_ p) [handleEvent WPE_Connect 0; handleEvent WPE_Login 0])
  | WorkerScans r calls ending =>
      '(w, out) ← scan_step p w r calls ending position;
      Some (p <| worker_ := Some w |>, out)
  | WorkerLeaves outcome =>
      Some (p <| worker_ := Some (w <| at_ := WorkerStores |>) |>, on (sink_ p) (last_calls outcome))
  | WorkerStores =>
      Some ((p <| connected_ ::= fun l => l ++ [false] |>)
               <| worker_ := Some (w <| at_ := WorkerDone |>) |>, [])
  | WorkerDone => None
  end.

(** ** Schedules *)

Inductive Step :=
  | Init (config : option Config)
  | RegisterSpi (listener : option Z)
  | Subscribe (symbols : gset (list Z))
  | Unsubscribe (symbols : gset (list Z))
  | IsConnected (position : nat)
  | Connect (position : nat)
  | Disconnect
  | Join
  | WorkerStep (position : nat).

Definition is_connected (p : t) (position : nat) : option (t * bool) :=
  connected ← load (connected_ p) (seen_connected p) position;
  Some (p <| seen_connected := position |>, connected).

(** The host is outside the parser when it calls it. *)
Definition step (p : t) (s : Step) : option (t * list (Z * SpiCall)) :=
  match s, host p with
  | WorkerStep position, _ => worker_step p position
  | Join, (HostReconnects | HostDisconnects) => p ← join p; Some (p, [])
  | Init config, HostOutside => let '(p, _, out) := init p config in Some (p, out)
  | RegisterSpi listener, HostOutside => Some (registerSpi p listener, [])
  | Subscribe symbols, HostOutside => Some (subscribe p symbols, [])
  | Unsubscribe symbols, HostOutside => Some (unsubscribe p symbols, [])
  | IsConnected position, HostOutside => '(p, _) ← is_connected p position; Some (p, [])
  | Connect position, HostOutside => p ← connect p position; Some (p, [])
  | Disconnect, HostOutside => Some (disconnect p, [])
  | _, _ => None
  end.

Fixpoint run (p : t) (schedule : list Step) : option (t * list (Z * SpiCall)) :=
  match schedule with
  | [] => Some (p, [])
  | s :: schedule' =>
      '(p, now) ← step p s;
      '(p, later) ← run p schedule';
      Some (p, now ++ later)
  end.

End worker.
End ParserITCH.

(** * Properties *)

Import itch50 ParserITCH.

(** ** Sessions *)

(** The replay of messages from a state of the worker. *)
Fixpoint replay_all (c : Config) (listener : option Z) (r : Replaying) (calls : list (list Z * Z)) :
    Replaying * list (Z * SpiCall) :=
  match calls with
  | [] => (r, [])
  | call :: calls' =>
      let '(r, out) := replay_message c listener r call in
      let '(r, out') := replay_all c listener r calls' in (r, out ++ out')
  end.

Lemma replay_all_app c listener r calls calls' :
  replay_all c listener r (calls ++ calls') =
    let '(r1, out1) := replay_all c listener r calls in
    let '(r2, out2) := replay_all c listener r1 calls' in (r2, out1 ++ out2).
Proof.
  revert r. induction calls as [|call calls IH]; intros r; cbn [app replay_all].
  { by destruct (replay_all c listener r calls'). }
  destruct (replay_message c listener r call) as [r1 out]. rewrite IH.
  destruct (replay_all c listener r1 calls) as [r2 out1].
  destruct (replay_all c listener r2 calls') as [r3 out2]. by rewrite app_assoc.
Qed.

Definition opening : list SpiCall := [handleEvent WPE_Connect 0; handleEvent WPE_Login 0].

Section sessions.
Context (scan : list Z -> list (list Z * Z) * result FileScanResult.t) (c : Config) (l : Z).

Definition fresh : Replaying := mkReplaying (Some l) None 0 0.

(** The calls of a session up to a point of the scan. *)
Definition begun (done : list (list Z * Z)) (r : Replaying) (trace : list (Z * SpiCall)) : Prop :=
  exists body, replay_all c (Some l) fresh done = (r, body) /\ trace = map (pair l) opening ++ body.

(** How a session that got as far as [done] may end. *)
Definition may_end (stop : Prop) (done : list (list Z * Z)) (r : Replaying) (o : Outcome) : Prop :=
  (exists rest, (scan (path c)).1 = done ++ rest) /\
  (o = Stopped /\ stop \/ done = (scan (path c)).1 /\ o = outcome r (scan (path c)).2).

(** A whole session; [stop]: it may be stopped. *)
Definition session (stop : Prop) (trace : list (Z * SpiCall)) : Prop :=
  exists done r o body, begun done r body /\ may_end stop done r o /\
    trace = body ++ map (pair l) (last_calls o).

(** ** The invariant *)

(** What the worker has done in its session. *)
Definition worker_ok (stop : Prop) (w : Worker) (current : list (Z * SpiCall)) : Prop :=
  match at_ w with
  | WorkerStarts => current = []
  | WorkerScans r rest ending =>
      ending = (scan (path c)).2 /\ exists done, (scan (path c)).1 = done ++ rest /\ begun done r current
  | WorkerLeaves o => exists done r, begun done r current /\ may_end stop done r o
  | WorkerStores | WorkerDone => session stop current
  end.

(** A worker may be told to stop only while the host disconnects. *)
Definition flag_ok (p : t) (w : Worker) : Prop :=
  (seen_stopped w < length (stopped_ p))%nat /\
  (host p = HostDisconnects -> last (stopped_ p) = Some true) /\
  (host p <> HostDisconnects -> forall i, (seen_stopped w <= i)%nat -> stopped_ p !! i <> Some true).

Definition active (w : Worker) : bool :=
  match at_ w with WorkerDone => false | _ => true end.

Record parser_ok (stop : Prop) (p : t) (sessions : list (list (Z * SpiCall)))
    (current : list (Z * SpiCall)) : Prop := {
  pk_config : config_ p = c;
  pk_sink : sink_ p = Some l;
  pk_sessions : Forall (session stop) sessions;
  pk_worker : match worker_ p with
    | None => current = [] /\ host p = HostOutside
    | Some w => worker_ok stop w current /\ flag_ok p w
    end;
  pk_stop : host p = HostDisconnects -> stop;
  pk_connected : last (connected_ p) = Some (from_option active false (worker_ p));
  pk_seen : (seen_connected p < length (connected_ p))%nat
}.

(** Steps that follow the configuration. *)
Definition runtime (s : Step) : Prop :=
  match s with Init _ | RegisterSpi _ => False | _ => True end.

Lemma flag_loaded order seen position b :
  load order seen position = Some b -> (seen <= position)%nat /\ order !! position = Some b.
Proof. unfold load. destruct (Nat.ltb_spec position seen); [done|]. by split. Qed.

(** A new session. *)
Lemma start_worker_ok stop p sessions current :
  config_ p = c -> sink_ p = Some l -> Forall (session stop) (sessions ++ [current]) \/ current = [] ->
  Forall (session stop) sessions ->
  parser_ok stop (start_worker p)
    (sessions ++ match current with [] => [] | _ => [current] end) [].
Proof.
  intros Hc Hs Hcur Hses. constructor; try done; cbn.
  - destruct current; [by rewrite app_nil_r|]. by destruct Hcur.
  - split; [done|]. split_and!; [cbn; rewrite length_app; cbn; lia|done|].
    intros _ i Hi. cbn in *. rewrite length_app in Hi. cbn in Hi. rewrite lookup_app_r by lia.
    destruct (i - length (stopped_ p))%nat as [|[|n]]; done.
  - by rewrite last_snoc.
  - rewrite length_app. cbn. lia.
Qed.

Lemma disconnected_ok stop p sessions :
  config_ p = c -> sink_ p = Some l -> Forall (session stop) sessions ->
  parser_ok stop (disconnected p) sessions [].
Proof.
  intros Hc Hs Hses. constructor; try done; cbn.
  - by rewrite last_snoc.
  - rewrite length_app. cbn. lia.
Qed.

(** *** The worker *)

Lemma begun_opening r0 : r0 = fresh -> begun [] r0 (map (pair l) opening).
Proof. intros ->. exists []. by rewrite app_nil_r. Qed.

Lemma begun_step done r trace call r' out :
  begun done r trace -> replay_message c (Some l) r call = (r', out) -> begun (done ++ [call]) r' (trace ++ out).
Proof.
  intros (body & Hb & ->) Hm. exists (body ++ out). rewrite replay_all_app, Hb. cbn [replay_all]. rewrite Hm.
  by rewrite !app_nil_r, <- app_assoc.
Qed.

Lemma worker_step_ok stop p sessions current position p' out :
  parser_ok stop p sessions current -> worker_step scan p position = Some (p', out) ->
  parser_ok stop p' sessions (current ++ out).
Proof.
  intros [Hc Hl Hses Hw Hstop Hcon Hseen] Hstep. unfold worker_step in Hstep.
  destruct (worker_ p) as [w|] eqn:Ew; [|done]. cbn in Hstep. destruct Hw as [Hw (Hf1 & Hf2 & Hf3)].
  unfold worker_ok in Hw. destruct (at_ w) as [|r rest ending|o| |] eqn:Hat; [| | | |done].
  all: assert (last (connected_ p) = Some true) as Hon by (rewrite Hcon; cbn; unfold active; by rewrite Hat).
  - destruct (scan (path (config_ p))) as [calls ending] eqn:Es. rewrite Hl in Hstep. injection Hstep as <- <-.
    rewrite Hc in Es. subst current. constructor; try done.
    + cbn. split; [|by split_and!]. unfold worker_ok. cbn. rewrite Es. split; [done|].
      exists []. split; [done|]. by apply begun_opening.
  - destruct Hw as (-> & done & Hscan & Hbegun). unfold scan_step in Hstep. destruct rest as [|call rest].
    + injection Hstep as <- <-. rewrite app_nil_r in *. constructor; try done.
      * cbn. split; [|by split_and!]. unfold worker_ok. cbn. exists done, r. split; [done|].
        split; [by exists []; rewrite app_nil_r|]. by right.
    + destruct (load _ _ _) as [b|] eqn:El; [|done]. apply flag_loaded in El as [Hpos El]. cbn in Hstep.
      pose proof (lookup_lt_Some _ _ _ El) as Hlt.
      assert (forall i, (position <= i)%nat -> (seen_stopped w <= i)%nat) as Hmono by lia.
      destruct b.
      * injection Hstep as <- <-. rewrite app_nil_r. constructor; try done.
        -- cbn. split; [|split_and!; [done|done|intros Hh i Hi; apply Hf3; [done|cbn in Hi; lia]]].
           unfold worker_ok. cbn. exists done, r. split; [done|]. split; [by exists (call :: rest)|].
           left. split; [done|]. apply Hstop. destruct (host p) eqn:Hh; [exfalso|exfalso|done];
             by apply (Hf3 ltac:(done) position).
      * rewrite Hc, Hl in Hstep. destruct (replay_message c (Some l) r call) as [r' out'] eqn:Em.
        injection Hstep as <- <-. constructor; try done.
        -- cbn. split; [|split_and!; [done|done|intros Hh i Hi; apply Hf3; [done|cbn in Hi; lia]]].
           unfold worker_ok. cbn. split; [done|]. exists (done ++ [call]). split; [by rewrite <- app_assoc|].
           by eapply begun_step.
  - rewrite Hl in Hstep. injection Hstep as <- <-. destruct Hw as (done & r & Hb & Hend). constructor; try done.
    + cbn. split; [|by split_and!]. unfold worker_ok. cbn. by exists done, r, o, current.
  - injection Hstep as <- <-. rewrite app_nil_r. constructor; try done; cbn.
    + by rewrite last_snoc.
    + rewrite length_app. cbn. lia.
Qed.

(** *** The host *)

Lemma last_position (order : list bool) b :
  last order = Some b -> order !! (length order - 1)%nat = Some b /\ (1 <= length order)%nat.
Proof.
  rewrite last_lookup. intros Hl. split; [by rewrite <- Nat.sub_1_r in Hl|].
  destruct order; [done|cbn; lia].
Qed.

(** A worker that is done has completed a session. *)
Lemma done_session stop p sessions current w :
  parser_ok stop p sessions current -> worker_ p = Some w -> at_ w = WorkerDone -> session stop current.
Proof.
  intros Hp Hw Hat. pose proof (pk_worker _ _ _ _ Hp) as Hok. rewrite Hw in Hok.
  destruct Hok as [Hok _]. unfold worker_ok in Hok. by rewrite Hat in Hok.
Qed.

Lemma session_mono (stop stop' : Prop) trace : (stop -> stop') -> session stop trace -> session stop' trace.
Proof.
  intros H (done & r & o & body & Hb & (Hrest & Hend) & E). exists done, r, o, body. split_and!; try done.
  split; [done|]. destruct Hend as [[? ?]|?]; [left; auto|by right].
Qed.

Lemma worker_ok_mono (stop stop' : Prop) w current :
  (stop -> stop') -> worker_ok stop w current -> worker_ok stop' w current.
Proof.
  intros H. unfold worker_ok. destruct (at_ w); try done; [|by apply session_mono..].
  intros (done & r & Hb & Hrest & Hend). exists done, r. split; [done|]. split; [done|].
  destruct Hend as [[? ?]|?]; [left; auto|by right].
Qed.

Lemma parser_ok_mono (stop stop' : Prop) p sessions current :
  (stop -> stop') -> parser_ok stop p sessions current -> parser_ok stop' p sessions current.
Proof.
  intros H [Hc Hl Hses Hw Hstop Hcon Hseen]. constructor; try done; [| |auto].
  - eapply Forall_impl; [exact Hses|]. intros trace. by apply session_mono.
  - destruct (worker_ p); [|done]. destruct Hw as [Hw Hf]. split; [by eapply worker_ok_mono|done].
Qed.

(** One step: it adds its calls to the session at hand, or closes the session
    and opens the next. *)
Lemma parser_step_ok stop p sessions current s p' out :
  parser_ok stop p sessions current -> runtime s -> (s = Disconnect -> stop) -> step scan p s = Some (p', out) ->
  exists sessions' current', parser_ok stop p' sessions' current' /\
    concat sessions' ++ current' = concat sessions ++ current ++ out.
Proof.
  intros Hp Hs Hd Hstep. pose proof Hp as [Hc Hl Hses Hw Hstop Hcon Hseen].
  assert (out = [] -> parser_ok stop p' sessions current -> exists sessions' current',
    parser_ok stop p' sessions' current' /\ concat sessions' ++ current' = concat sessions ++ current ++ out) as Hquiet.
  { intros -> H. exists sessions, current. by rewrite app_nil_r. }
  assert (forall order seen position b, load order seen position = Some b -> (position < length order)%nat) as Hload.
  { intros order seen position b [_ H]%flag_loaded. by eapply lookup_lt_Some. }
  unfold step in Hstep. destruct s as [config|listener|symbols|symbols|position|position| | |position];
    try done; destruct (host p) eqn:Hh; try done.
  all: try (injection Hstep as <- <-; apply Hquiet; [done|]; constructor; try done;
    cbn; rewrite Hh; done).
  - unfold is_connected in Hstep. destruct (load _ _ _) as [b|] eqn:El; [|done]. injection Hstep as <- <-.
    apply Hquiet; [done|]. constructor; cbn; rewrite ?Hh; try done. by eapply Hload.
  - unfold connect in Hstep. destruct (worker_ p) as [w|] eqn:Ew.
    + destruct (load _ _ _) as [b|] eqn:El; [|done]. injection Hstep as <- <-. apply Hquiet; [done|].
      destruct Hw as [Hw (H1 & H2 & H3)].
      assert (forall h, h <> HostDisconnects ->
        parser_ok stop (p <| seen_connected := position |> <| host := h |>) sessions current) as Hmoved.
      { intros h Hne. constructor; cbn; rewrite ?Ew; try done; [|by eapply Hload].
        split; [done|]. split_and!; [done|done|]. intros _ i Hi. apply H3; [by rewrite Hh|done]. }
      destruct b; [|by apply Hmoved].
      replace (p <| seen_connected := position |>) with (p <| seen_connected := position |> <| host := HostOutside |>)
        by (destruct p; cbn in Hh; by subst). by apply Hmoved.
    + injection Hstep as <- <-. destruct Hw as [-> _].
      exists sessions, []. split; [|by rewrite !app_nil_r].
      rewrite <- (app_nil_r sessions). by apply (start_worker_ok stop p sessions []); [..|right|].
  - injection Hstep as <- <-. apply Hquiet; [done|]. unfold disconnect. cbn [worker_ set_field].
    change (worker_ (p <| stopped_ ::= fun l => l ++ [true] |>)) with (worker_ p).
    destruct (worker_ p) as [w|] eqn:Ew.
    + destruct Hw as [Hw (H1 & H2 & H3)]. constructor; cbn; rewrite ?Ew; try done; [|by auto].
      split; [done|]. split_and!; cbn; [rewrite length_app; lia|by rewrite last_snoc|done].
    + destruct Hw as [-> _]. by apply disconnected_ok.
  - unfold join in Hstep. rewrite Hh in Hstep. destruct (worker_ p) as [[at_w seen]|] eqn:Ew; [|done].
    destruct at_w; try done. injection Hstep as <- <-.
    pose proof (done_session _ _ _ _ _ Hp Ew eq_refl) as Hdone.
    exists (sessions ++ [current]), []. split; [|rewrite concat_app; cbn; by rewrite !app_nil_r].
    assert (current <> []) as Hne.
    { destruct Hdone as (done & r & o & body & (b & _ & ->) & _ & ->). done. }
    pose proof (start_worker_ok stop (p <| worker_ := None |>) sessions current Hc Hl) as Hst.
    destruct current; [done|]. apply Hst; [|done]. left. apply Forall_app. by split; [|apply Forall_singleton].
  - unfold join in Hstep. rewrite Hh in Hstep. destruct (worker_ p) as [[at_w seen]|] eqn:Ew; [|done].
    destruct at_w; try done. injection Hstep as <- <-.
    pose proof (done_session _ _ _ _ _ Hp Ew eq_refl) as Hdone.
    exists (sessions ++ [current]), []. split; [|rewrite concat_app; cbn; by rewrite !app_nil_r].
    apply disconnected_ok; [done|done|]. apply Forall_app. by split; [|apply Forall_singleton].
  - exists sessions, (current ++ out). split; [|done]. by eapply worker_step_ok.
  - exists sessions, (current ++ out). split; [|done]. by eapply worker_step_ok.
  - exists sessions, (current ++ out). split; [|done]. by eapply worker_step_ok.
Qed.

Lemma parser_run_ok stop p sessions current schedule p' out :
  parser_ok stop p sessions current -> Forall runtime schedule -> (Disconnect ∈ schedule -> stop) ->
  run scan p schedule = Some (p', out) ->
  exists sessions' current', parser_ok stop p' sessions' current' /\
    concat sessions' ++ current' = concat sessions ++ current ++ out.
Proof.
  revert p sessions current out. induction schedule as [|s schedule IH]; intros p sessions current out Hp Hs Hd; cbn [run].
  { intros [= -> <-]. exists sessions, current. by rewrite app_nil_r. }
  apply Forall_cons in Hs as [Hs Hss].
  destruct (step scan p s) as [[p1 now]|] eqn:Hstep; [|done]. cbn.
  destruct (run scan p1 schedule) as [[p2 later]|] eqn:Hrun; [|done]. intros [= <- <-].
  destruct (parser_step_ok _ _ _ _ _ _ _ Hp Hs ltac:(intros ->; apply Hd; by left) Hstep)
    as (sessions1 & current1 & Hp1 & E1).
  destruct (IH p1 sessions1 current1 later Hp1 Hss ltac:(intros; apply Hd; by right) Hrun)
    as (sessions2 & current2 & Hp2 & E2).
  exists sessions2, current2. split; [done|]. by rewrite E2, app_assoc, E1, <- !app_assoc.
Qed.

(** A parser the host has configured. *)
Definition configured : t := (make <| config_ := c |>) <| sink_ := Some l |>.

Lemma configured_ok stop : parser_ok stop configured [] [].
Proof. constructor; try done. cbn. lia. Qed.

(** What was called so far is the beginning of a session. *)
Lemma current_session stop p sessions current w :
  parser_ok stop p sessions current -> worker_ p = Some w -> exists more, session True (current ++ more).
Proof.
  intros Hp Ew. pose proof (pk_worker _ _ _ _ Hp) as Hw. rewrite Ew in Hw. destruct Hw as [Hw _].
  assert (forall done rest r trace, (scan (path c)).1 = done ++ rest -> begun done r trace ->
    session True (trace ++ map (pair l) (last_calls Stopped))) as Hstop.
  { intros done rest r trace Hrest Hb. exists done, r, Stopped, trace. split; [done|].
    split; [|done]. split; [by exists rest|by left]. }
  unfold worker_ok in Hw. destruct (at_ w).
  - subst current. eexists. exact (Hstop [] _ fresh _ eq_refl (begun_opening _ eq_refl)).
  - destruct Hw as (_ & done & Hrest & Hb). eexists. exact (Hstop _ _ _ _ Hrest Hb).
  - destruct Hw as (done & r & Hb & Hrest & _). destruct Hrest as [rest Hrest]. eexists. exact (Hstop _ _ _ _ Hrest Hb).
  - exists []. rewrite app_nil_r. by eapply session_mono.
  - exists []. rewrite app_nil_r. by eapply session_mono.
Qed.

(** C35: the listener sees sessions. However the host connects, disconnects and
    asks, and whatever the loads of the two flags return, the calls made are
    whole sessions one after the other, and the beginning of one more while a
    worker exists: connect and login; the replay of the file from its start; then
    the result, logout and close, or the error and close. Without a disconnect
    every session reaches the end of the file. The parser is connected exactly
    while its worker is under way. *)
Theorem parser_calls_are_sessions schedule p trace :
  Forall runtime schedule -> run scan configured schedule = Some (p, trace) ->
  exists sessions current, trace = concat sessions ++ current /\
    Forall (session (Disconnect ∈ schedule)) sessions /\
    match worker_ p with
    | None => current = []
    | Some w => exists more, session True (current ++ more)
    end /\
    last (connected_ p) = Some (from_option active false (worker_ p)).
Proof.
  intros Hs Hrun. destruct (parser_run_ok (Disconnect ∈ schedule) configured [] [] schedule p trace) as
    (sessions & current & Hp & E); [apply configured_ok|done|done|done|].
  exists sessions, current. cbn in E. split_and!; [done|apply Hp| |apply Hp].
  destruct (worker_ p) as [w|] eqn:Ew; [by eapply current_session|].
  pose proof (pk_worker _ _ _ _ Hp) as Hw. rewrite Ew in Hw. apply Hw.
Qed.

(** *** Disconnecting *)

Definition no_market_data (call : Z * SpiCall) : Prop :=
  match call.2 with handleOrderDetail _ | handleTransaction _ => False | _ => True end.

Lemma last_calls_quiet listener o : Forall no_market_data (on listener (last_calls o)).
Proof. destruct listener; [|constructor]. destruct o; repeat constructor. Qed.

(** From the end of the replay on. *)
Lemma worker_leaves p o seen :
  worker_ p = Some (mkWorker (WorkerLeaves o) seen) -> host p = HostDisconnects ->
  exists p', run scan p [WorkerStep 0; WorkerStep 0; Join] = Some (p', on (sink_ p) (last_calls o)) /\
    worker_ p' = None /\ host p' = HostOutside /\ last (connected_ p') = Some false.
Proof.
  intros Hw Hh. destruct p as [c0 s0 st co w0 su sc h0]. cbn in Hw, Hh. subst w0 h0. cbn.
  eexists. split; [by rewrite app_nil_r|]. cbn. by rewrite last_snoc.
Qed.

Lemma worker_scans p r calls e seen :
  worker_ p = Some (mkWorker (WorkerScans r calls e) seen) -> host p = HostDisconnects ->
  (seen < length (stopped_ p))%nat -> last (stopped_ p) = Some true ->
  exists p' out, run scan p [WorkerStep (length (stopped_ p) - 1); WorkerStep 0; WorkerStep 0; Join] = Some (p', out) /\
    Forall no_market_data out /\ worker_ p' = None /\ host p' = HostOutside /\ last (connected_ p') = Some false.
Proof.
  intros Hw Hh Hseen Hlast. destruct (last_position _ _ Hlast) as [Hnewest Hlen].
  assert (exists o seen', worker_step scan p (length (stopped_ p) - 1) =
    Some (p <| worker_ := Some (mkWorker (WorkerLeaves o) seen') |>, [])) as (o & seen' & Hstep).
  { unfold worker_step. rewrite Hw. cbn. unfold scan_step. destruct calls as [|call rest]; cbn; [by eexists _, _|].
    unfold load. destruct (Nat.ltb_spec (length (stopped_ p) - 1) seen); [lia|]. rewrite Hnewest. cbn. by eexists _, _. }
  set (p1 := p <| worker_ := Some (mkWorker (WorkerLeaves o) seen') |>) in *.
  destruct (worker_leaves p1 o seen' eq_refl Hh) as (p' & Hrun & H').
  exists p', (on (sink_ p1) (last_calls o)). split; [|split; [apply last_calls_quiet|done]].
  change (run scan p (WorkerStep (length (stopped_ p) - 1) :: [WorkerStep 0; WorkerStep 0; Join])) with
    ('(p, now) ← step scan p (WorkerStep (length (stopped_ p) - 1));
     '(p, later) ← run scan p [WorkerStep 0; WorkerStep 0; Join]; Some (p, now ++ later)).
  assert (step scan p (WorkerStep (length (stopped_ p) - 1)) = Some (p1, [])) as -> by (by rewrite <- Hstep).
  cbn [mbind option_bind]. by rewrite Hrun.
Qed.

(** C36: a disconnect returns. While the host waits in it, at most four steps of
    the worker that load the newest flag bring the worker to its end, without any
    further market data, and the join returns: no worker is left and the parser is
    not connected. *)
Theorem disconnect_returns schedule p trace :
  Forall runtime schedule -> run scan configured schedule = Some (p, trace) -> host p = HostDisconnects ->
  exists positions p' out, (length positions <= 4)%nat /\
    run scan p (map WorkerStep positions ++ [Join]) = Some (p', out) /\ Forall no_market_data out /\
    worker_ p' = None /\ host p' = HostOutside /\ last (connected_ p') = Some false.
Proof.
  intros Hs Hrun Hh. destruct (parser_run_ok (Disconnect ∈ schedule) configured [] [] schedule p trace) as
    (sessions & current & Hp & _); [apply configured_ok|done|done|done|].
  pose proof (pk_worker _ _ _ _ Hp) as Hw. pose proof (pk_sink _ _ _ _ Hp) as Hl.
  pose proof (pk_connected _ _ _ _ Hp) as Hcon.
  destruct (worker_ p) as [[at_w seen]|] eqn:Ew; [|destruct Hw as [_ Hw]; congruence].
  destruct Hw as [_ (Hseen & Hlast & _)]. specialize (Hlast Hh). cbn in Hseen.
  destruct at_w as [|r calls e|o| |].
  - destruct (scan (path (config_ p))) as [calls ending] eqn:Es.
    set (p1 := p <| worker_ := Some (mkWorker (WorkerScans (mkReplaying (sink_ p) None 0 0) calls ending) seen) |>).
    assert (step scan p (WorkerStep 0) = Some (p1, on (sink_ p) opening)) as Hstep.
    { cbn. unfold worker_step. rewrite Ew. cbn. by rewrite Es. }
    destruct (worker_scans p1 _ calls ending seen eq_refl Hh Hseen Hlast) as (p' & out & Hr & Hq & H').
    change (stopped_ p1) with (stopped_ p) in Hr.
    exists [0%nat; (length (stopped_ p) - 1)%nat; 0%nat; 0%nat], p', (on (sink_ p) opening ++ out).
    split; [cbn; lia|]. split; [|split; [|done]].
    + cbn [map app]. change (run scan p (WorkerStep 0 :: ?x)) with
        ('(p, now) ← step scan p (WorkerStep 0); '(p, later) ← run scan p x; Some (p, now ++ later)).
      rewrite Hstep. cbn [mbind option_bind]. by rewrite Hr.
    + apply Forall_app. split; [|done]. rewrite Hl. repeat constructor.
  - destruct (worker_scans p r calls e seen Ew Hh Hseen Hlast) as (p' & out & Hr & Hq & H').
    exists [(length (stopped_ p) - 1)%nat; 0%nat; 0%nat], p', out. split; [cbn; lia|]. done.
  - destruct (worker_leaves p o seen Ew Hh) as (p' & Hr & H').
    exists [0%nat; 0%nat], p', (on (sink_ p) (last_calls o)). split; [cbn; lia|]. split; [done|].
    split; [apply last_calls_quiet|done].
  - exists [0%nat]. destruct p as [c0 s0 st co w0 su sc h0]. cbn in Ew, Hh. subst w0 h0. cbn.
    eexists _, _. split; [lia|]. split; [reflexivity|]. split; [constructor|]. cbn. by rewrite last_snoc.
  - exists []. destruct p as [c0 s0 st co w0 su sc h0]. cbn in Ew, Hh. subst w0 h0. cbn.
    eexists _, _. split; [lia|]. split; [reflexivity|]. split; [constructor|]. cbn. by rewrite last_snoc.
Qed.

End sessions.

(** ** A run *)

(** The instrument is announced, an order arrives and is deleted. *)
Definition demo_scan (p : list Z) : list (list Z * Z) * result FileScanResult.t :=
  (map (fun m => (m, Z.of_nat (length m))) [directory_message; add_message 5; delete_message 5],
   inl (FileScanResult.mk 3 102)).

Definition demo_config : Config := mkConfig [102] [65] 20190530 1.

(** A whole session; a second one, stopped after the announcement. *)
Definition demo_schedule : list Step :=
  [Subscribe {[ [65] ]}; Connect 0; IsConnected 1; WorkerStep 0; WorkerStep 1; WorkerStep 1; WorkerStep 1;
   WorkerStep 0; WorkerStep 0; WorkerStep 0; Connect 2; Join;
   WorkerStep 0; WorkerStep 2; Disconnect].

Abbreviation demo := (run demo_scan (configured demo_config 9) demo_schedule).
Abbreviation demo_state := (from_option fst (configured demo_config 9) demo).
Abbreviation demo_trace := (from_option snd [] demo).

Lemma demo_runs : is_Some demo.
Proof. apply not_eq_None_Some. by vm_compute. Qed.

Lemma demo_result : demo = Some (demo_state, demo_trace).
Proof. destruct demo_runs as [[p trace] ->]. done. Qed.

Lemma demo_runtime : Forall runtime demo_schedule.
Proof. repeat constructor. Qed.

Lemma parser_calls_are_sessions_witness :
  length demo_trace = 13%nat /\
  exists sessions current, demo_trace = concat sessions ++ current /\
    Forall (session demo_scan demo_config 9 (Disconnect ∈ demo_schedule)) sessions /\
    match worker_ demo_state with
    | None => current = []
    | Some w => exists more, session demo_scan demo_config 9 True (current ++ more)
    end /\
    last (connected_ demo_state) = Some (from_option active false (worker_ demo_state)).
Proof.
  split; [by vm_compute|].
  exact (parser_calls_are_sessions demo_scan demo_config 9 demo_schedule demo_state demo_trace
    demo_runtime demo_result).
Defined.

Lemma disconnect_returns_witness :
  exists positions p' out, (length positions <= 4)%nat /\
    run demo_scan demo_state (map WorkerStep positions ++ [Join]) = Some (p', out) /\ Forall no_market_data out /\
    worker_ p' = None /\ host p' = HostOutside /\ last (connected_ p') = Some false.
Proof.
  exact (disconnect_returns demo_scan demo_config 9 demo_schedule demo_state demo_trace
    demo_runtime demo_result ltac:(by vm_compute)).
Defined.
