(* ===== verification/Numerals.v ===== *)
(** * Decimal numerals

    The conversions of the C++ library the tools use: the insertion of an
    unsigned integer into a stream, padded on the left to the width set,
    [std::from_chars] to [std::uint64_t], and [std::strtoull].  Texts are lists
    of character codes. *)

From Stdlib Require Import Ascii.
From S2P Require Import Prelude Itch50.
Import itch50.

Definition digit (d : Z) : Z := chr "0" + d.

(** The digits of [n], least significant first. *)
Fixpoint digits_loop (fuel : nat) (n : Z) : list Z :=
  match fuel with
  | O => []
  | S fuel' => digit (n mod 10) :: if n <? 10 then [] else digits_loop fuel' (n / 10)
  end.

(** [out << n]: twenty digits are enough for 64 bits. *)
Definition to_text (n : Z) : list Z := rev (digits_loop 20 n).

(** [out << std::setfill('0') << std::setw(width) << n] *)
Definition to_padded_text (width : nat) (n : Z) : list Z :=
  replicate (width - length (to_text n)) (chr "0") ++ to_text n.

Definition is_digit (c : Z) : bool := (chr "0" <=? c) && (c <=? chr "9").

(** The value of the longest prefix of digits, and what follows it. *)
Fixpoint scan_digits (value : Z) (text : list Z) : Z * list Z :=
  match text with
  | c :: text' => if is_digit c then scan_digits (value * 10 + (c - chr "0")) text' else (value, text)
  | [] => (value, [])
  end.

(** [std::from_chars]: the value and what is left of the text, or an error: no
    digit, or a value beyond 64 bits. *)
Definition from_chars (text : list Z) : option (Z * list Z) :=
  match text with
  | c :: _ =>
      if is_digit c then
        let '(value, rest) := scan_digits 0 text in
        if value <=? u64_max then Some (value, rest) else None
      else None
  | [] => None
  end.

(** [std::isspace] *)
Definition is_space (c : Z) : bool := (c =? 32) || (9 <=? c) && (c <=? 13).

Fixpoint skip_spaces (text : list Z) : list Z :=
  match text with
  | c :: text' => if is_space c then skip_spaces text' else text
  | [] => []
  end.

(** [std::strtoull(text, &end, 10)]: the value and the text at [end]; [None] when
    no digit was found.  A sign negates the value, one beyond 64 bits becomes
    the largest. *)
Definition strtoull (text : list Z) : option (Z * list Z) :=
  let '(negative, digits) :=
    match skip_spaces text with
    | c :: rest => if c =? chr "-" then (true, rest) else if c =? chr "+" then (false, rest) else (false, c :: rest)
    | [] => (false, [])
    end in
  match digits with
  | c :: _ =>
      if is_digit c then
        let '(value, rest) := scan_digits 0 digits in
        Some (if u64_max <? value then u64_max else if negative then u64 (- value) else value, rest)
      else None
  | [] => None
  end.

(** ** Facts *)

(** The value of digits, least significant first. *)
Definition numeral (digits : list Z) : Z := foldr (fun c v => c - chr "0" + 10 * v) 0 digits.

Lemma digit_ok d : 0 <= d < 10 -> is_digit (digit d) = true /\ digit d - chr "0" = d.
Proof. intros. unfold is_digit, digit. change (chr "0") with 48. change (chr "9") with 57. lia. Qed.

Lemma is_digit_range c : is_digit c = true -> 0 <= c - chr "0" < 10.
Proof. unfold is_digit. change (chr "0") with 48. change (chr "9") with 57. lia. Qed.

Lemma digits_loop_ok fuel n :
  0 <= n < 10 ^ Z.of_nat fuel -> Forall (fun c => is_digit c = true) (digits_loop fuel n) /\
    numeral (digits_loop fuel n) = n /\ (fuel <> 0%nat -> digits_loop fuel n <> []).
Proof.
  revert n. induction fuel as [|fuel IH]; intros n Hn.
  { change (10 ^ Z.of_nat 0) with 1 in Hn. split_and!; [constructor|cbn; lia|done]. }
  cbn [digits_loop]. destruct (digit_ok (n mod 10) ltac:(dlia)) as [Hd Hv].
  destruct (Z.ltb_spec n 10).
  - split_and!; [by constructor| |done]. unfold numeral. cbn [foldr]. rewrite Hv. dlia.
  - rewrite Nat2Z.inj_succ, Z.pow_succ_r in Hn by lia.
    destruct (IH (n / 10)) as (IH1 & IH2 & _); [dlia|].
    split_and!; [by constructor| |done].
    unfold numeral in *. cbn [foldr]. rewrite IH2, Hv. dlia.
Qed.

Lemma scan_digits_ok digits value rest :
  Forall (fun c => is_digit c = true) digits -> 0 <= value ->
  scan_digits value (rev digits ++ rest) =
    scan_digits (value * 10 ^ Z.of_nat (length digits) + numeral digits) rest.
Proof.
  intros Hd. revert value rest. induction Hd as [|c digits Hc _ IH]; intros value rest Hv.
  { cbn [rev app length numeral foldr]. change (10 ^ Z.of_nat 0) with 1. by rewrite Z.mul_1_r, Z.add_0_r. }
  cbn [rev length]. rewrite <- app_assoc, IH by done. cbn [app scan_digits]. rewrite Hc. f_equal.
  unfold numeral. cbn [foldr]. rewrite Nat2Z.inj_succ, Z.pow_succ_r by lia.
  generalize (foldr (fun c v => c - chr "0" + 10 * v) 0 digits). intros v. lia.
Qed.

(** A printed number is digits that stand for it. *)
Lemma to_text_digits n :
  0 <= n <= u64_max ->
  exists c text, to_text n = c :: text /\ is_digit c = true /\ scan_digits 0 (to_text n) = (n, []).
Proof.
  intros Hn. destruct (digits_loop_ok 20 n) as (Hd & Hv & Hne); [change (10 ^ Z.of_nat 20) with (10 ^ 20); lia|].
  unfold to_text. pose proof (scan_digits_ok _ 0 [] Hd ltac:(done)) as Hs.
  rewrite app_nil_r, Hv in Hs. cbn [scan_digits] in Hs. rewrite Z.mul_0_l in Hs.
  destruct (rev (digits_loop 20 n)) as [|c text] eqn:E.
  - exfalso. apply Hne; [done|]. by apply (f_equal (@rev Z)) in E; rewrite rev_involutive in E.
  - exists c, text. split_and!; [done| |exact Hs]. apply Forall_rev in Hd.
    rewrite E in Hd. by apply Forall_cons in Hd as [? _].
Qed.

(** Reading a printed number gives it back. *)
Lemma from_chars_to_text n : 0 <= n <= u64_max -> from_chars (to_text n) = Some (n, []).
Proof.
  intros Hn. destruct (to_text_digits n Hn) as (c & text & E & Hc & Hs). unfold from_chars. rewrite E in *.
  rewrite Hc, Hs. by destruct (Z.leb_spec n u64_max); [|lia].
Qed.

Lemma strtoull_to_text n : 0 <= n <= u64_max -> strtoull (to_text n) = Some (n, []).
Proof.
  intros Hn. destruct (to_text_digits n Hn) as (c & text & E & Hc & Hs). unfold strtoull. rewrite E in *.
  pose proof (is_digit_range _ Hc) as Hr. change (chr "0") with 48 in Hr.
  assert (is_space c = false) as Hsp by (unfold is_space; lia).
  cbn [skip_spaces]. rewrite Hsp. change (chr "-") with 45. change (chr "+") with 43.
  rewrite (proj2 (Z.eqb_neq c 45)), (proj2 (Z.eqb_neq c 43)) by lia. rewrite Hc, Hs.
  by rewrite (proj2 (Z.ltb_ge _ _)) by lia.
Qed.

Lemma scan_digits_all value text v :
  scan_digits value text = (v, []) -> 0 <= value ->
  Forall (fun c => is_digit c = true) text /\ v = value * 10 ^ Z.of_nat (length text) + numeral (rev text).
Proof.
  revert value. induction text as [|c text IH]; intros value; cbn [scan_digits].
  { intros [= <-] _. split; [constructor|]. cbn. lia. }
  destruct (is_digit c) eqn:Hc; [|done]. intros Hs Hv. pose proof (is_digit_range _ Hc).
  destruct (IH _ Hs ltac:(lia)) as [Hd ->]. split; [by constructor|].
  cbn [length rev]. rewrite Nat2Z.inj_succ, Z.pow_succ_r by lia.
  assert (forall l, numeral (l ++ [c]) = numeral l + (c - chr "0") * 10 ^ Z.of_nat (length l)) as Happ.
  { unfold numeral. induction l as [|x l IHl]; [cbn; lia|]. cbn [app foldr length]. rewrite IHl.
    rewrite Nat2Z.inj_succ, Z.pow_succ_r by lia. lia. }
  rewrite Happ, length_rev. lia.
Qed.

Lemma numeral_nonneg digits : Forall (fun c => is_digit c = true) digits -> 0 <= numeral digits.
Proof.
  induction 1 as [|c digits Hc _ IH]; [done|]. apply is_digit_range in Hc. unfold numeral in *. cbn [foldr]. lia.
Qed.
