(* ===== verification/Inspect.v ===== *)
(** * tools/NasdaqItchInspect.cpp

    The inspection tool: it scans a historical file, counts what it holds by
    type and by stock locate, checks every size against the table, optionally
    tracks all orders, and turns the result into an exit code.  Arrays with one
    element per possible index are lists of that length; the text of the report
    is left out but for its two computed parts, the times and the busiest
    symbols.

    Its theorems: the counters are the statistics of the records of the file; the
    symbols listed are the busiest ones; the exit code says whether the file is
    well framed, its messages known and of their sizes, and its orders
    consistent. *)

From Stdlib Require Import Ascii.
From S2P Require Import Prelude Itch50 Samples OrderLifecycle HistoricalFile FileProperties.
From S2P Require Import Replay Within Numerals.
Import itch50.

Module NasdaqItchInspect.

Module Stats.
Record t := mk {
  type_counts : list Z;
  locator_counts : list Z;
  symbols : list (list Z);
  messages : Z;
  framed_bytes : Z;
  payload_bytes : Z;
  unknown_types : Z;
  size_mismatches : Z;
  timestamp_regressions : Z;
  first_timestamp : Z;
  last_timestamp : Z;
  previous_timestamp : Z;
  have_timestamp : bool
}.
#[global] Instance eta_stats : Eta t := fun s =>
  mk (type_counts s) (locator_counts s) (symbols s) (messages s) (framed_bytes s) (payload_bytes s)
    (unknown_types s) (size_mismatches s) (timestamp_regressions s) (first_timestamp s)
    (last_timestamp s) (previous_timestamp s) (have_timestamp s).

Definition zero : t :=
  mk (replicate (Z.to_nat 256) 0) (replicate (Z.to_nat 65536) 0) (replicate (Z.to_nat 65536) [])
    0 0 0 0 0 0 u64_max 0 0 false.
End Stats.
Import (hints) Stats.
Import Stats.

(** The loop is that of the replay tool, for a length of 8. *)
Definition trim_symbol (bytes : list Z) (length : nat) : list Z := take (trim_loop bytes length) bytes.

Definition format_timestamp (ns : Z) : list Z :=
  let kNsPerSecond := 1000000000 in
  let seconds := ns / kNsPerSecond in
  let nanos := ns mod kNsPerSecond in
  let hours := seconds / 3600 in
  let minutes := (seconds / 60) mod 60 in
  let secs := seconds mod 60 in
  to_padded_text 2 hours ++ [chr ":"] ++ to_padded_text 2 minutes ++ [chr ":"] ++
  to_padded_text 2 secs ++ [chr "."] ++ to_padded_text 9 nanos.

(** *** [account_message] *)

(** [++stats.messages] to the check of the size. *)
Definition account_type (s : Stats.t) (message : list Z) (size : Z) : Stats.t :=
  let type := byte_at message 0 in
  let s := s <| messages ::= incr |> in
  let s := s <| type_counts ::= fun a => a.[type <- incr a.[type]] |> in
  let s := s <| payload_bytes ::= fun n => u64 (n + size) |> in
  let expected := expected_message_size type in
  if expected =? 0 then s <| unknown_types ::= incr |>
  else if negb (expected =? size) then s <| size_mismatches ::= incr |>
  else s.

(** [if (size >= 11)] *)
Definition account_time (s : Stats.t) (message : list Z) (size : Z) : Stats.t :=
  if 11 <=? size then
    let locator := read_u16 (message +! 1) in
    let s := s <| locator_counts ::= fun a => a.[locator <- incr a.[locator]] |> in
    let timestamp := read_u48 (message +! 5) in
    let s := if have_timestamp s && (timestamp <? previous_timestamp s)
      then s <| timestamp_regressions ::= incr |> else s in
    let s := if negb (have_timestamp s)
      then s <| first_timestamp := timestamp |> <| have_timestamp := true |> else s in
    s <| previous_timestamp := timestamp |> <| last_timestamp := timestamp |>
  else s.

(** [if (type == 'R' && size == 39)] *)
Definition account_symbol (s : Stats.t) (message : list Z) (size : Z) : Stats.t :=
  if (byte_at message 0 =? chr "R") && (size =? 39)
  then s <| symbols ::= fun a => a.[read_u16 (message +! 1) <- trim_symbol (message +! 11) 8] |>
  else s.

Definition account_message (message : list Z) (size : Z) (s : Stats.t)
    (lifecycle : option OrderLifecycle.t) : Stats.t * option OrderLifecycle.t :=
  (account_symbol (account_time (account_type s message size) message size) message size,
   (fun l => OrderLifecycle.on_message l message size) <$> lifecycle).

(** The calls of the scan. *)
Fixpoint account_all (delivered : list (list Z * Z)) (s : Stats.t) (lifecycle : option OrderLifecycle.t) :
    Stats.t * option OrderLifecycle.t :=
  match delivered with
  | [] => (s, lifecycle)
  | (message, size) :: delivered' =>
      let '(s, lifecycle) := account_message message size s lifecycle in
      account_all delivered' s lifecycle
  end.

(** *** The busiest symbols, of [print_stats] *)

(** [std::greater<>] on pairs, or equal. *)
Definition busier (x y : Z * Z) : Prop := y.1 < x.1 \/ (y.1 = x.1 /\ y.2 <= x.2).
#[global] Instance busier_dec x y : Decision (busier x y).
Proof. unfold busier. apply _. Defined.

(** [active], in the order it is filled. *)
Definition active (s : Stats.t) : list (Z * Z) :=
  omap (fun locator =>
    if negb (bool_decide ((symbols s).[locator] = [])) && negb ((locator_counts s).[locator] =? 0)
    then Some ((locator_counts s).[locator], locator) else None)
    (seqZ 0 (alen (symbols s))).

(** [std::partial_sort] puts the greatest [top_count] elements first, in order. *)
Definition top_symbols (s : Stats.t) : list (list Z * Z * Z) :=
  map (fun '(count, locator) => ((symbols s).[locator], locator, count))
    (take (Nat.min 10 (length (active s))) (merge_sort busier (active s))).

(** *** [inspect] *)

Definition lifecycle_valid (lifecycle : option OrderLifecycle.t) : bool :=
  match lifecycle with
  | None => true
  | Some l =>
      let life := OrderLifecycle.stats l in
      (LifecycleStats.duplicate_order_ids life =? 0) && (LifecycleStats.missing_order_ids life =? 0) &&
      (LifecycleStats.over_reductions life =? 0) && (LifecycleStats.stock_locate_mismatches life =? 0) &&
      (LifecycleStats.invalid_adds life =? 0)
  end.

(** The exit code after the report. *)
Definition verdict (st_size : Z) (s : Stats.t) (lifecycle : option OrderLifecycle.t) : Z :=
  if negb (framed_bytes s =? u64 st_size) then 2
  else if (unknown_types s =? 0) && (size_mismatches s =? 0) && lifecycle_valid lifecycle then 0 else 3.

(** What [stat] tells of a path. *)
Record FileInfo := mkFileInfo { is_regular : bool; st_size : Z }.

Section inspect.
Context {F : Type} `{PosixFile F}.

(** The exit code, an exception making it 1; [None]: the fuel of the scan ran
    out. *)
Definition inspect (file_info : option FileInfo) (opened : option F) (validate_lifecycle : bool)
    (fuel : nat) : option Z :=
  match file_info with
  | None => Some 1
  | Some info =>
      if negb (is_regular info) then Some 1
      else
        let lifecycle := if validate_lifecycle then Some OrderLifecycle.make else None in
        '(delivered, ending) ← scan_historical_file fuel opened;
        Some match ending with
        | inr _ => 1
        | inl scan =>
            let '(s, lifecycle) := account_all delivered Stats.zero lifecycle in
            verdict (st_size info) (s <| framed_bytes := FileScanResult.framed_bytes scan |>) lifecycle
        end
  end.

(** --lifecycle *)
Definition lifecycle_option : list Z :=
  map chr ["-"; "-"; "l"; "i"; "f"; "e"; "c"; "y"; "c"; "l"; "e"]%char.

(** [arguments] follow the name of the program. *)
Definition main (stat : list Z -> option FileInfo) (open : list Z -> option F)
    (arguments : list (list Z)) (fuel : nat) : option Z :=
  match arguments with
  | [path] => inspect (stat path) (open path) false fuel
  | [path; option] =>
      if bool_decide (option = lifecycle_option) then inspect (stat path) (open path) true fuel else Some 64
  | _ => Some 64
  end.
End inspect.
End NasdaqItchInspect.

(** * Properties *)

Import itch50 NasdaqItchInspect.
Import (hints) Stats.

(** ** What the records say *)

(** How many records have a property. *)
Definition tally (p : list Z -> bool) (records : list (list Z)) : Z :=
  foldr (fun m n => (if p m then 1 else 0) + n) 0 records.

Definition of_type (type : Z) (m : list Z) : bool := byte_at m 0 =? type.
Definition stamped (m : list Z) : bool := 11 <=? alen m.
Definition of_locator (locator : Z) (m : list Z) : bool := stamped m && (read_u16 (m +! 1) =? locator).
Definition unknown (m : list Z) : bool := expected_message_size (byte_at m 0) =? 0.
Definition mismatched (m : list Z) : bool := negb (unknown m) && negb (expected_message_size (byte_at m 0) =? alen m).

Definition timestamps (records : list (list Z)) : list Z :=
  map (fun m => read_u48 (m +! 5)) (List.filter stamped records).

(** How often a timestamp is below the one before it. *)
Fixpoint regressions (ts : list Z) : Z :=
  match ts with
  | x :: (y :: _) as rest => (if y <? x then 1 else 0) + regressions rest
  | _ => 0
  end.

(** The last symbol announced for a locate. *)
Definition announces (locator : Z) (m : list Z) : bool :=
  (byte_at m 0 =? chr "R") && (alen m =? 39) && (read_u16 (m +! 1) =? locator).
Definition announced (locator : Z) (records : list (list Z)) : list Z :=
  foldl (fun symbol m => if announces locator m then trimmed_symbol (m +! 11) else symbol) [] records.

(** The bytes of the records without their framing. *)
Definition payload (records : list (list Z)) : Z := foldr (fun m n => alen m + n) 0 records.

(** The statistics of the records. *)
Record accounts (records : list (list Z)) (s : Stats.t) : Prop := {
  acc_messages : Stats.messages s = alen records;
  acc_types : alen (Stats.type_counts s) = 256;
  acc_type : forall t, 0 <= t < 256 -> (Stats.type_counts s).[t] = tally (of_type t) records;
  acc_locators : alen (Stats.locator_counts s) = 65536;
  acc_locator : forall l, 0 <= l < 65536 -> (Stats.locator_counts s).[l] = tally (of_locator l) records;
  acc_symbols : alen (Stats.symbols s) = 65536;
  acc_symbol : forall l, 0 <= l < 65536 -> (Stats.symbols s).[l] = announced l records;
  acc_payload : Stats.payload_bytes s = payload records;
  acc_unknown : Stats.unknown_types s = tally unknown records;
  acc_mismatches : Stats.size_mismatches s = tally mismatched records;
  acc_regressions : Stats.timestamp_regressions s = regressions (timestamps records);
  acc_first : Stats.first_timestamp s = default u64_max (head (timestamps records));
  acc_last : Stats.last_timestamp s = default 0 (last (timestamps records));
  acc_previous : Stats.previous_timestamp s = default 0 (last (timestamps records));
  acc_have : Stats.have_timestamp s = negb (bool_decide (timestamps records = []))
}.

(** ** Tallies *)

Lemma tally_snoc p records m : tally p (records ++ [m]) = (if p m then 1 else 0) + tally p records.
Proof. unfold tally. induction records as [|x records IH]; cbn [app foldr]; [lia|]. rewrite IH. lia. Qed.

Lemma tally_range p records : 0 <= tally p records <= alen records.
Proof. unfold tally, alen. induction records as [|x records IH]; cbn [foldr length]; [lia|]. case_match; lia. Qed.

(** A counter that follows a tally. *)
Lemma tally_step p records m n :
  n = tally p records -> alen records + 1 < 2 ^ 64 ->
  (if p m then incr n else n) = tally p (records ++ [m]).
Proof.
  intros -> Hl. rewrite tally_snoc. pose proof (tally_range p records).
  case_match; unfold incr; rewrite ?wrap_small; lia.
Qed.

Lemma regressions_snoc ts t :
  regressions (ts ++ [t]) =
    regressions ts + match last ts with Some p => if t <? p then 1 else 0 | None => 0 end.
Proof.
  induction ts as [|x ts IH]; [done|]. destruct ts as [|y ts]; [cbn; case_match; lia|].
  cbn [app regressions] in *. rewrite IH. rewrite last_cons_cons. lia.
Qed.

Lemma regressions_range ts : 0 <= regressions ts <= Z.of_nat (length ts).
Proof.
  induction ts as [|x [|y ts] IH]; [cbn; lia..|].
  assert (regressions (x :: y :: ts) = (if y <? x then 1 else 0) + regressions (y :: ts)) as -> by done.
  cbn [length] in *. case_match; lia.
Qed.

Lemma timestamps_snoc records m :
  timestamps (records ++ [m]) = timestamps records ++ if stamped m then [read_u48 (m +! 5)] else [].
Proof.
  unfold timestamps. rewrite List.filter_app, map_app. f_equal. cbn [List.filter]. by case_match.
Qed.

Lemma timestamps_length records : Z.of_nat (length (timestamps records)) <= alen records.
Proof.
  unfold timestamps, alen. rewrite length_map. induction records as [|x records IH]; cbn; [lia|].
  case_match; cbn; lia.
Qed.

Lemma payload_snoc records m :
  payload (records ++ [m]) = payload records + alen m.
Proof. unfold payload. induction records as [|x records IH]; cbn [app foldr]; [lia|]. rewrite IH. lia. Qed.

Lemma payload_framed records : payload records + 2 * alen records = framed records.
Proof. unfold payload, framed, alen. induction records as [|x records IH]; cbn [foldr length]; lia. Qed.

(** ** One record *)

Section one_record.
Context (records : list (list Z)) (m : list Z) (s : Stats.t).
Hypothesis Hs : accounts records s.
Hypothesis Hm : record_ok m.
Hypothesis Hlen : framed (records ++ [m]) < 2 ^ 64.

Lemma records_bound : alen records + 1 < 2 ^ 64 /\
  0 <= payload records + alen m < 2 ^ 64.
Proof.
  pose proof (payload_framed (records ++ [m])) as Hp. rewrite payload_snoc in Hp.
  assert (alen (records ++ [m]) = alen records + 1) as E by (unfold alen; rewrite length_app; cbn; lia).
  assert (0 <= payload records).
  { clear. unfold payload. induction records as [|x l IH]; cbn [foldr]; [lia|]. unfold alen in *. lia. }
  destruct Hm as [? _]. unfold alen in *. lia.
Qed.

Lemma byte_index i : 0 <= byte_at m i < 256.
Proof. apply byte_at_ok, Hm. Qed.

Lemma locator_index : 0 <= read_u16 (m +! 1) < 65536.
Proof. unfold read_u16. apply (wrap_bounds 16). lia. Qed.

(** An array of counters, of which one may be incremented. *)
Lemma array_step (p : Z -> list Z -> bool) (a : list Z) (touched : bool) (at_ n : Z) :
  alen a = n -> 0 <= at_ < n -> (forall i, 0 <= i < n -> a.[i] = tally (p i) records) ->
  (forall i, p i m = touched && (at_ =? i)) ->
  let a' := if touched then a.[at_ <- incr a.[at_]] else a in
  alen a' = n /\ forall i, 0 <= i < n -> a'.[i] = tally (p i) (records ++ [m]).
Proof.
  intros Hl Hat Ha Hp a'. unfold a'. split; [destruct touched; [by rewrite alen_aset|done]|].
  intros i Hi. pose proof (tally_step (p i) records m _ (Ha i Hi) (proj1 records_bound)) as Hstep.
  rewrite Hp in Hstep. destruct touched; cbn [andb] in Hstep; [|done].
  rewrite aget_aset by lia. destruct (Z.eqb_spec at_ i) as [->|]; [by rewrite decide_True|by rewrite decide_False].
Qed.

Lemma account_type_ok :
  let s' := account_type s m (alen m) in
  Stats.messages s' = alen (records ++ [m]) /\
  alen (Stats.type_counts s') = 256 /\
  (forall t, 0 <= t < 256 -> (Stats.type_counts s').[t] = tally (of_type t) (records ++ [m])) /\
  Stats.payload_bytes s' = payload (records ++ [m]) /\
  Stats.unknown_types s' = tally unknown (records ++ [m]) /\
  Stats.size_mismatches s' = tally mismatched (records ++ [m]).
Proof.
  destruct records_bound as [Hb Hp].
  pose proof (tally_step _ _ m _ (acc_unknown _ _ Hs) Hb) as Hu.
  pose proof (tally_step _ _ m _ (acc_mismatches _ _ Hs) Hb) as Hmm.
  destruct (array_step of_type (Stats.type_counts s) true (byte_at m 0) 256 (acc_types _ _ Hs)
    (byte_index 0) (acc_type _ _ Hs)) as [Hl Ht]; [done|].
  assert (incr (Stats.messages s) = alen (records ++ [m])) as Hn.
  { rewrite (acc_messages _ _ Hs). unfold incr. rewrite wrap_small by (unfold alen in *; lia).
    unfold alen. rewrite length_app. cbn. lia. }
  assert (u64 (Stats.payload_bytes s + alen m) = payload (records ++ [m])) as Hpay.
  { rewrite (acc_payload _ _ Hs), payload_snoc. by rewrite wrap_small. }
  unfold unknown, mismatched in *. unfold account_type, unknown in *.
  destruct (expected_message_size (byte_at m 0) =? 0); cbn [negb andb] in *;
    [|destruct (expected_message_size (byte_at m 0) =? alen m); cbn [negb] in *]; split_and!; done.
Qed.

Lemma account_time_ok s1 :
  Stats.locator_counts s1 = Stats.locator_counts s -> Stats.have_timestamp s1 = Stats.have_timestamp s ->
  Stats.timestamp_regressions s1 = Stats.timestamp_regressions s ->
  Stats.first_timestamp s1 = Stats.first_timestamp s -> Stats.last_timestamp s1 = Stats.last_timestamp s ->
  Stats.previous_timestamp s1 = Stats.previous_timestamp s ->
  let s' := account_time s1 m (alen m) in
  alen (Stats.locator_counts s') = 65536 /\
  (forall l, 0 <= l < 65536 -> (Stats.locator_counts s').[l] = tally (of_locator l) (records ++ [m])) /\
  Stats.timestamp_regressions s' = regressions (timestamps (records ++ [m])) /\
  Stats.first_timestamp s' = default u64_max (head (timestamps (records ++ [m]))) /\
  Stats.last_timestamp s' = default 0 (last (timestamps (records ++ [m]))) /\
  Stats.previous_timestamp s' = default 0 (last (timestamps (records ++ [m]))) /\
  Stats.have_timestamp s' = negb (bool_decide (timestamps (records ++ [m]) = [])).
Proof.
  destruct s1 as [tc lc sy me fb pb ut sm tr ft lt pt ht]. cbn. intros -> -> -> -> -> ->.
  destruct (array_step of_locator (Stats.locator_counts s) (stamped m) (read_u16 (m +! 1)) 65536
    (acc_locators _ _ Hs) locator_index (acc_locator _ _ Hs)) as [Hl Ht]; [done|].
  destruct Hs as [_ _ _ _ _ _ _ _ _ _ Hr Hf Hla Hp Hh]. rewrite timestamps_snoc.
  revert Hl Ht. unfold account_time, stamped. destruct (11 <=? alen m); intros Hl Ht; cbn.
  2: { rewrite app_nil_r. by split_and!. }
  rewrite regressions_snoc, last_snoc. cbn [default].
  pose proof (regressions_range (timestamps records)). pose proof (timestamps_length records).
  pose proof (proj1 records_bound).
  set (ts := timestamps records) in *. set (t := read_u48 (m +! 5)).
  assert (bool_decide (ts ++ [t] = []) = false) as -> by (apply bool_decide_eq_false; by destruct ts).
  clearbody ts. destruct ts as [|x ts'].
  - rewrite bool_decide_true in Hh by done. rewrite Hh. cbn. cbn in Hr. by split_and!.
  - rewrite bool_decide_false in Hh by done. rewrite Hh. cbn [negb andb].
    destruct (last (x :: ts')) as [p|] eqn:Ep; [|by apply last_None in Ep].
    cbn in Hp, Hf. subst p. cbn [app head].
    set (n := regressions (x :: ts')) in *. clearbody n.
    assert (incr n = n + 1) as Hi by (unfold incr; rewrite wrap_small; lia).
    destruct (t <? Stats.previous_timestamp s); cbn; rewrite ?Hr, ?Hi; split_and!; done || lia.
Qed.

End one_record.

Lemma announced_snoc l records m :
  announced l (records ++ [m]) = if announces l m then trimmed_symbol (m +! 11) else announced l records.
Proof. unfold announced. by rewrite foldl_app. Qed.

Lemma account_symbol_ok records m s1 :
  record_ok m -> alen (Stats.symbols s1) = 65536 ->
  (forall l, 0 <= l < 65536 -> (Stats.symbols s1).[l] = announced l records) ->
  let s' := account_symbol s1 m (alen m) in
  alen (Stats.symbols s') = 65536 /\
  forall l, 0 <= l < 65536 -> (Stats.symbols s').[l] = announced l (records ++ [m]).
Proof.
  intros Hm Hl Ha. unfold account_symbol. pose proof (locator_index m) as Hi.
  setoid_rewrite announced_snoc. unfold announces. destruct (_ && _); cbn [andb].
  - cbn. rewrite alen_aset. split; [done|]. intros l Hl'. rewrite aget_aset by lia.
    destruct (Z.eqb_spec (read_u16 (m +! 1)) l) as [->|].
    + by rewrite decide_True.
    + rewrite decide_False by done. by apply Ha.
  - by split.
Qed.

(** What the three stages leave alone. *)
Lemma account_type_frame s m size :
  let s' := account_type s m size in
  Stats.locator_counts s' = Stats.locator_counts s /\ Stats.have_timestamp s' = Stats.have_timestamp s /\
  Stats.timestamp_regressions s' = Stats.timestamp_regressions s /\
  Stats.first_timestamp s' = Stats.first_timestamp s /\ Stats.last_timestamp s' = Stats.last_timestamp s /\
  Stats.previous_timestamp s' = Stats.previous_timestamp s /\ Stats.symbols s' = Stats.symbols s.
Proof. unfold account_type. by destruct (_ =? 0); [|destruct (negb _)]. Qed.

Lemma account_time_frame s m size :
  let s' := account_time s m size in
  Stats.messages s' = Stats.messages s /\ Stats.type_counts s' = Stats.type_counts s /\
  Stats.payload_bytes s' = Stats.payload_bytes s /\ Stats.unknown_types s' = Stats.unknown_types s /\
  Stats.size_mismatches s' = Stats.size_mismatches s /\ Stats.symbols s' = Stats.symbols s.
Proof. unfold account_time. destruct (11 <=? size); [|done]. by repeat case_match. Qed.

Lemma account_message_ok records m s lifecycle :
  accounts records s -> record_ok m -> framed (records ++ [m]) < 2 ^ 64 ->
  accounts (records ++ [m]) (account_message m (alen m) s lifecycle).1.
Proof.
  intros Hs Hm Hlen. cbn [account_message fst].
  destruct (account_type_ok records m s Hs Hm Hlen) as (T1 & T2 & T3 & T4 & T5 & T6).
  destruct (account_type_frame s m (alen m)) as (E1 & E2 & E3 & E4 & E5 & E6 & E7).
  set (s1 := account_type s m (alen m)) in *. clearbody s1.
  destruct (account_time_ok records m s Hs Hm Hlen s1 E1 E2 E3 E4 E5 E6) as (L1 & L2 & L3 & L4 & L5 & L6 & L7).
  destruct (account_time_frame s1 m (alen m)) as (F1 & F2 & F3 & F4 & F5 & F6).
  set (s2 := account_time s1 m (alen m)) in *. clearbody s2.
  destruct (account_symbol_ok records m s2 Hm) as [S1 S2].
  { rewrite F6, E7. apply Hs. }
  { rewrite F6, E7. apply Hs. }
  revert S1 S2. unfold account_symbol. destruct (_ && _); cbn; intros S1 S2; constructor; cbn; try congruence;
    try done; intros i Hi; rewrite ?F2; auto.
Qed.

(** ** A file *)

Lemma framed_app records records' : framed (records ++ records') = framed records + framed records'.
Proof. unfold framed. induction records as [|m records IH]; cbn [app foldr]; [lia|]. rewrite IH. lia. Qed.

Lemma framed_nonneg records : 0 <= framed records.
Proof. unfold framed, alen. induction records as [|m records IH]; cbn [foldr]; lia. Qed.

Lemma zero_accounts : accounts [] Stats.zero.
Proof.
  constructor; unfold Stats.zero; cbn -[Z.to_nat replicate aget alen]; rewrite ?alen_replicate, ?Z2Nat.id by done;
    try reflexivity; intros i Hi; apply aget_replicate; rewrite Z2Nat.id by done; lia.
Qed.

(** The tracker's run over the records. *)
Definition tracked (records : list (list Z)) (l : OrderLifecycle.t) : OrderLifecycle.t :=
  foldl (fun l m => OrderLifecycle.on_message l m (alen m)) l records.

Lemma account_all_ok before records s lifecycle :
  accounts before s -> Forall record_ok records -> framed (before ++ records) < 2 ^ 64 ->
  accounts (before ++ records) (account_all (map sized records) s lifecycle).1 /\
  (account_all (map sized records) s lifecycle).2 = tracked records <$> lifecycle.
Proof.
  intros Hs Hok. revert before s lifecycle Hs.
  induction Hok as [|m records Hm _ IH]; intros before s lifecycle Hs Hlen.
  { cbn. rewrite app_nil_r. split; [done|]. by destruct lifecycle. }
  cbn [map account_all sized]. change (sized m) with (m, alen m). cbv beta iota.
  replace (before ++ m :: records) with ((before ++ [m]) ++ records) in * by (by rewrite <- app_assoc).
  pose proof (framed_nonneg records). rewrite framed_app in Hlen.
  pose proof (account_message_ok before m s lifecycle Hs Hm ltac:(lia)) as H1.
  destruct (account_message m (alen m) s lifecycle) as [s1 l1] eqn:E. cbn [fst] in H1.
  injection E as _ <-. destruct (IH (before ++ [m]) s1 ((fun l => OrderLifecycle.on_message l m (alen m)) <$> lifecycle) H1)
    as [H2 H3]; [by rewrite framed_app|].
  split; [done|]. rewrite H3. by destruct lifecycle.
Qed.

Lemma account_message_within m size s lifecycle :
  1 <= size -> account_message (take (Z.to_nat size) m) size s lifecycle = account_message m size s lifecycle.
Proof.
  intros Hs. unfold account_message, account_symbol, account_time, account_type.
  rewrite !byte_at_take by lia. f_equal.
  - destruct (Z.leb_spec 11 size).
    + rewrite !read_u16_take, !read_u48_take by lia. destruct (Z.eqb_spec size 39); [|by rewrite andb_false_r].
      unfold trim_symbol. fold (trimmed_symbol (take (Z.to_nat size) m +! 11)). fold (trimmed_symbol (m +! 11)).
      by rewrite trimmed_within by lia.
    + destruct (Z.eqb_spec size 39); [lia|]. by rewrite andb_false_r.
  - destruct lifecycle; [|done]. cbn. by rewrite tracker_within by lia.
Qed.

Lemma account_all_within calls s lifecycle :
  Forall (fun d => 1 <= d.2) calls ->
  account_all (map shown calls) s lifecycle = account_all calls s lifecycle.
Proof.
  intros Hc. revert s lifecycle. induction Hc as [|[m size] calls Hs _ IH]; intros s lifecycle; [done|].
  cbn [map account_all]. change (shown (m, size)) with (take (Z.to_nat size) m, size). cbv beta iota.
  rewrite account_message_within by done. destruct (account_message m size s lifecycle). apply IH.
Qed.

(** The run over the calls of a scan. *)
Lemma account_scan calls records lifecycle :
  map shown calls = map sized records -> Forall record_ok records -> framed records < 2 ^ 64 ->
  accounts records (account_all calls Stats.zero lifecycle).1 /\
  (account_all calls Stats.zero lifecycle).2 = tracked records <$> lifecycle.
Proof.
  intros E Hok Hlen. rewrite <- account_all_within by (by eapply shown_sizes). rewrite E.
  by apply (account_all_ok []); [apply zero_accounts|..].
Qed.

(** ** The busiest symbols *)

(** The locates with a symbol and a message. *)
Definition is_active (records : list (list Z)) (l : Z) : Prop :=
  0 <= l < 65536 /\ announced l records <> [] /\ tally (of_locator l) records <> 0.

Definition entry (records : list (list Z)) (l : Z) : list Z * Z * Z :=
  (announced l records, l, tally (of_locator l) records).

(** [top] lists ten active locates, or all there are, busiest first, and none
    left out is busier than one listed. *)
Definition lists_busiest (records : list (list Z)) (top : list (list Z * Z * Z)) : Prop :=
  exists locators, top = map (entry records) locators /\ NoDup locators /\
    Forall (is_active records) locators /\
    StronglySorted busier (map (fun l => (tally (of_locator l) records, l)) locators) /\
    (length locators <= 10)%nat /\
    forall l, is_active records l -> l ∈ locators \/
      (length locators = 10%nat /\
       Forall (fun k => busier (tally (of_locator k) records, k) (tally (of_locator l) records, l)) locators).

#[local] Instance busier_total : Total busier.
Proof. intros [a b] [c d]. unfold busier. cbn. lia. Qed.
#[local] Instance busier_transitive : Transitive busier.
Proof. intros [a b] [c d] [e f]. unfold busier. cbn. lia. Qed.

Lemma active_spec records s :
  accounts records s ->
  exists locators, active s = map (fun l => (tally (of_locator l) records, l)) locators /\
    NoDup locators /\ forall l, l ∈ locators <-> is_active records l.
Proof.
  intros Hs. exists (filter (is_active records) (seqZ 0 65536)).
  split_and!.
  - unfold active. rewrite (acc_symbols _ _ Hs).
    assert (forall l, l ∈ seqZ 0 65536 -> 0 <= l < 65536) as Hin by (intros l Hl; apply elem_of_seqZ in Hl; lia).
    induction (seqZ 0 65536) as [|l ls IH]; [done|]. rewrite filter_cons.
    cbn [omap list_omap]. pose proof (Hin l ltac:(by left)) as Hl.
    rewrite (acc_symbol _ _ Hs l Hl), (acc_locator _ _ Hs l Hl), IH by (intros; apply Hin; by right).
    destruct (bool_decide_reflect (announced l records = [])), (Z.eqb_spec (tally (of_locator l) records) 0);
      cbn [negb andb]; case_decide as Ha; unfold is_active in Ha; done || (exfalso; tauto).
  - apply NoDup_filter, NoDup_seqZ.
  - intros l. rewrite list_elem_of_filter, elem_of_seqZ. unfold is_active. intuition lia.
Qed.

Lemma top_symbols_ok records s : accounts records s -> lists_busiest records (top_symbols s).
Proof.
  intros Hs. destruct (active_spec records s Hs) as (ls & Ha & Hnd & Hin). set (key := fun l => (tally (of_locator l) records, l)).
  unfold top_symbols. rewrite Ha, length_map.
  pose proof (merge_sort_Permutation busier (map key ls)) as Hp.
  pose proof (StronglySorted_merge_sort busier (map key ls)) as Hsorted.
  destruct (Permutation_map_inv key ls Hp) as (ls' & E & Hp'). fold key. rewrite E in *.
  set (n := Nat.min 10 (length ls)). rewrite <- (take_drop n ls') in Hsorted. rewrite map_app in Hsorted.
  apply StronglySorted_app in Hsorted as (Hcross & Htop & _).
  assert (forall l, l ∈ ls' <-> is_active records l) as Hin' by (intros l; rewrite <- Hin; by rewrite Hp').
  assert (length ls' = length ls) as Hlen by (by rewrite Hp').
  exists (take n ls'). split_and!.
  - rewrite firstn_map, map_map. apply map_ext_in. intros l Hl%list_elem_of_In.
    assert (l ∈ ls') as [Hr _]%Hin' by (rewrite <- (take_drop n ls'); apply elem_of_app; by left).
    cbn. by rewrite (acc_symbol _ _ Hs).
  - assert (NoDup ls') as Hnd' by (by rewrite <- Hp'). rewrite <- (take_drop n ls') in Hnd'.
    by apply NoDup_app in Hnd' as (? & _).
  - apply Forall_take, Forall_forall. intros l. by apply Hin'.
  - exact Htop.
  - rewrite length_take. lia.
  - intros l Hl%Hin'. rewrite <- (take_drop n ls') in Hl. apply elem_of_app in Hl as [Hl|Hl]; [by left|right].
    assert (n < length ls')%nat as Hn.
    { apply list_elem_of_lookup in Hl as [i Hl%lookup_lt_Some]. rewrite length_drop in Hl. lia. }
    split; [rewrite length_take; lia|]. apply Forall_forall. intros k Hk.
    apply (Hcross (key k) (key l)); by apply list_elem_of_fmap_2.
Qed.

(** ** The verdict *)

Lemma tally_zero p records : tally p records = 0 <-> Forall (fun m => p m = false) records.
Proof.
  unfold tally. induction records as [|m records IH]; [by split|]. cbn [foldr].
  pose proof (tally_range p records) as Hr. unfold tally in Hr. rewrite Forall_cons, <- IH.
  destruct (p m); split; intros; [lia|by destruct H|split; [done|lia]|destruct H; lia].
Qed.

(** A known type, of its size. *)
Definition well_sized (m : list Z) : bool := expected_message_size (byte_at m 0) =? alen m.

(** The tracker finds no error. *)
Definition consistent (records : list (list Z)) : bool :=
  lifecycle_valid (Some (tracked records OrderLifecycle.make)).

Lemma tallies_zero records :
  Forall record_ok records ->
  (tally unknown records =? 0) && (tally mismatched records =? 0) = forallb well_sized records.
Proof.
  intros Hok. apply eq_iff_eq_true. rewrite andb_true_iff, !Z.eqb_eq, !tally_zero, forallb_forall, !Forall_forall.
  setoid_rewrite <- list_elem_of_In. rewrite Forall_forall in Hok.
  unfold mismatched, unknown, well_sized. split.
  - intros [Hu Hm] m Hin. specialize (Hu m Hin). specialize (Hm m Hin). rewrite Hu in Hm. cbn in Hm.
    by apply negb_false_iff in Hm.
  - intros Hw. split; intros m Hin; specialize (Hw m Hin); [|by rewrite Hw, andb_false_r].
    destruct (Hok m Hin) as [? _]. lia.
Qed.

Section properties.
Context {F : Type} `{PosixFileLaws F} (fuel : nat) (f : F).
Hypothesis Hbytes : Forall is_byte (unread f).
Hypothesis Hlength : alen (unread f) < 2 ^ 64.
Hypothesis Hfuel : (enough f <= fuel)%nat.

(** What a scan that returns has delivered. *)
Lemma scanned_file :
  exists calls ending, scan_historical_file fuel (Some f) = Some (calls, ending) /\
    match ending with
    | inr e => e = read_failed \/ (unframe (unread f)).2 <> Clean
    | inl r => exists records, unframe (unread f) = (records, Clean) /\ unread f = frame records /\
        Forall record_ok records /\ map shown calls = map sized records /\
        r = FileScanResult.mk (alen records) (alen (unread f))
    end.
Proof.
  destruct (scan_ok fuel f Hbytes Hlength Hfuel) as (calls & ending & Hscan & Hs).
  exists calls, ending. split; [done|]. unfold scanned in Hs.
  destruct (unframe (unread f)) as [records e] eqn:E. destruct Hs as [[-> _]|[Hc ->]]; [by left|].
  destruct e; cbn [finish]; try (by right). apply unframe_clean in E as Hf; [|done]. destruct Hf as [Hf Hok].
  exists records. split_and!; try done. by rewrite framed_length, <- Hf.
Qed.

(** C39: the report is about the file. When the scan returns, the file is the
    framing of some records, and the counters are their statistics: how many
    there are, of each type and of each stock locate, their bytes, the unknown
    and the wrongly sized ones, the first and last timestamp and how often one is
    below the one before it, the last symbol announced for each locate; and the
    symbols listed are the ten busiest, busiest first. *)
Theorem report_describes_file lifecycle :
  exists calls ending, scan_historical_file fuel (Some f) = Some (calls, ending) /\
    forall r, ending = inl r ->
      exists records, unread f = frame records /\ Forall record_ok records /\
        FileScanResult.framed_bytes r - Stats.payload_bytes (account_all calls Stats.zero lifecycle).1 =
          2 * alen records /\
        accounts records (account_all calls Stats.zero lifecycle).1 /\
        lists_busiest records (top_symbols (account_all calls Stats.zero lifecycle).1).
Proof.
  destruct scanned_file as (calls & ending & Hscan & Hs). exists calls, ending. split; [done|].
  intros r ->. destruct Hs as (records & _ & Hf & Hok & Hc & ->). exists records.
  assert (framed records < 2 ^ 64) as Hlen by (by rewrite framed_length, <- Hf).
  destruct (account_scan calls records lifecycle Hc Hok Hlen) as [Ha _].
  split_and!; try done; [|by apply top_symbols_ok].
  rewrite (acc_payload _ _ Ha). cbn. rewrite Hf, <- framed_length, <- payload_framed. lia.
Qed.

(** C40: the exit code. Of a regular file the tool ends with 0 exactly when the
    file is well framed, every message has a known type and its size, and, if
    asked for, the tracker finds no error; with 3 when only the framing is right;
    with 1 when it is not, or a read fails. The code for a wrong byte count, 2, is
    never seen. *)
Theorem inspect_exit_code validate_lifecycle :
  exists calls ending, scan_historical_file fuel (Some f) = Some (calls, ending) /\
    inspect (Some (mkFileInfo true (alen (unread f)))) (Some f) validate_lifecycle fuel = Some
      match ending with
      | inr _ => 1
      | inl _ =>
          if forallb well_sized (unframe (unread f)).1 &&
             (negb validate_lifecycle || consistent (unframe (unread f)).1)
          then 0 else 3
      end /\
    (match ending with inr e => e <> read_failed | inl _ => True end ->
     (exists r, ending = inl r) <-> (unframe (unread f)).2 = Clean).
Proof.
  destruct scanned_file as (calls & ending & Hscan & Hs). exists calls, ending. split; [done|].
  unfold inspect. rewrite Hscan. cbn [is_regular negb mbind option_bind st_size].
  destruct ending as [r|e].
  2: { split; [done|]. intros Hne. destruct Hs as [|Hs]; [done|]. split; [by intros [? ?]|done]. }
  destruct Hs as (records & -> & Hf & Hok & Hc & ->). cbn [fst snd]. split; [|split; [done|by eexists]].
  assert (framed records < 2 ^ 64) as Hlen by (by rewrite framed_length, <- Hf).
  set (lifecycle := if validate_lifecycle then Some OrderLifecycle.make else None).
  destruct (account_scan calls records lifecycle Hc Hok Hlen) as [Ha Hl].
  destruct (account_all calls Stats.zero lifecycle) as [s l]. cbn [fst snd] in Ha, Hl. subst l.
  f_equal. unfold verdict. cbn [Stats.framed_bytes FileScanResult.framed_bytes set_field].
  rewrite <- tallies_zero by done.
  change (Stats.framed_bytes (s <| Stats.framed_bytes := alen (unread f) |>)) with (alen (unread f)).
  change (Stats.unknown_types (s <| Stats.framed_bytes := alen (unread f) |>)) with (Stats.unknown_types s).
  change (Stats.size_mismatches (s <| Stats.framed_bytes := alen (unread f) |>)) with (Stats.size_mismatches s).
  rewrite (acc_unknown _ _ Ha), (acc_mismatches _ _ Ha), wrap_small, Z.eqb_refl by (unfold alen in *; lia).
  cbn [negb]. unfold lifecycle. by destruct validate_lifecycle.
Qed.
End properties.

(** ** A file of four messages *)

(** The symbol is announced, an order enters, is executed in part and deleted. *)
Definition inspected : list (list Z) :=
  [directory_message; add_message 5; execute_message 5 9; delete_message 5].

Definition inspected_file : Script := mkScript (frame inspected) [Chunk 7; Signal; Chunk 50].

Lemma inspected_bytes : Forall is_byte (unread inspected_file).
Proof. apply bytes_ok. by vm_compute. Qed.

Lemma report_describes_file_witness :
  lists_busiest inspected [([65], 7, 4)] /\
  exists calls ending, scan_historical_file 400 (Some inspected_file) = Some (calls, ending) /\
    forall r, ending = inl r ->
      exists records, unread inspected_file = frame records /\ Forall record_ok records /\
        FileScanResult.framed_bytes r -
          Stats.payload_bytes (account_all calls Stats.zero (Some OrderLifecycle.make)).1 = 2 * alen records /\
        accounts records (account_all calls Stats.zero (Some OrderLifecycle.make)).1 /\
        lists_busiest records (top_symbols (account_all calls Stats.zero (Some OrderLifecycle.make)).1).
Proof.
  split.
  - assert (forall l, is_active inspected l -> l = 7) as Hseven.
    { intros l (_ & Ha & _). unfold announced, inspected in Ha. cbn [foldl] in Ha. unfold announces in Ha.
      destruct (Z.eqb_spec (read_u16 (directory_message +! 1)) l) as [E|]; [by rewrite <- E|].
      exfalso. apply Ha. by rewrite !andb_false_r. }
    exists [7]. split_and!; [by vm_compute|apply NoDup_singleton| | |cbn; lia|].
    + apply Forall_singleton. split_and!; by vm_compute.
    + repeat constructor.
    + intros l Hl. left. rewrite (Hseven l Hl). by left.
  - exact (report_describes_file 400 inspected_file inspected_bytes ltac:(by vm_compute)
      ltac:(apply Nat.leb_le; by vm_compute) (Some OrderLifecycle.make)).
Defined.

Lemma inspect_exit_code_witness :
  forallb well_sized (unframe (unread inspected_file)).1 && consistent (unframe (unread inspected_file)).1 = true /\
  exists calls ending, scan_historical_file 400 (Some inspected_file) = Some (calls, ending) /\
    inspect (Some (mkFileInfo true (alen (unread inspected_file)))) (Some inspected_file) true 400 = Some
      match ending with
      | inr _ => 1
      | inl _ =>
          if forallb well_sized (unframe (unread inspected_file)).1 &&
             (negb true || consistent (unframe (unread inspected_file)).1)
          then 0 else 3
      end /\
    (match ending with inr e => e <> read_failed | inl _ => True end ->
     (exists r, ending = inl r) <-> (unframe (unread inspected_file)).2 = Clean).
Proof.
  split; [by vm_compute|].
  exact (inspect_exit_code 400 inspected_file inspected_bytes ltac:(by vm_compute)
    ltac:(apply Nat.leb_le; by vm_compute) true).
Defined.

Example opening_bell : format_timestamp 34200000000001 =
  map chr ["0"; "9"; ":"; "3"; "0"; ":"; "0"; "0"; "."; "0"; "0"; "0"; "0"; "0"; "0"; "0"; "0"; "1"]%char.
Proof. by vm_compute. Qed.
