(* ===== verification/WtsReplay.v ===== *)
(** * tools/NasdaqItchWtsReplay.cpp

    The audit run of the WonderTrader adapter: one instrument of a historical
    file is converted, and a sink checks every event it is handed, counts them
    and sums them up.  The exit code compares what adapter and sink counted.

    Its theorems: the sink counts what the adapter says it published, and the exit
    code is 0 exactly when the conversion raised no error, left no order, and
    every event passed the audit. *)

From Stdlib Require Import Ascii.
From S2P Require Import Prelude Itch50 Samples HistoricalFile FileProperties Binary64 WtsTypes.
From S2P Require Import WtsAdapter Replay Within.
Import itch50.

Module AuditSink.

Record t := mk {
  order_details : Z;
  transactions : Z;
  cancel_transactions : Z;
  match_transactions : Z;
  trade_bust_transactions : Z;
  volume : Z;
  checksum : Z;
  errors : Z
}.
#[global] Instance eta_sink : Eta t := fun s =>
  mk (order_details s) (transactions s) (cancel_transactions s) (match_transactions s)
    (trade_bust_transactions s) (volume s) (checksum s) (errors s).

Definition zero : t := mk 0 0 0 0 0 0 0 0.

Definition error (s : t) : t := s <| errors ::= incr |>.

(** [std::strcmp(exchg, "PSX") != 0] *)
Definition other_exchange (exchg : list Z) : bool :=
  negb (bool_decide (PsxWtsAdapter.string_view exchg = [chr "P"; chr "S"; chr "X"])).

(** 23:59:59.999 *)
Definition last_action_time : Z := 235959999.

(** [price <= 0.0] *)
Definition not_positive (price : Double.t) : bool := Double.leb price (Double.of_Z 0).

(** The condition of [on_order_detail]. *)
Definition bad_order (order : WTSOrdDtlStruct.t) : bool :=
  other_exchange (WTSOrdDtlStruct.exchg order) || (byte_at (WTSOrdDtlStruct.code order) 0 =? 0) ||
  (WTSOrdDtlStruct.trading_date order =? 0) || (WTSOrdDtlStruct.action_date order =? 0) ||
  (last_action_time <? WTSOrdDtlStruct.action_time order) || (WTSOrdDtlStruct.index order =? 0) ||
  not_positive (WTSOrdDtlStruct.price order) || (WTSOrdDtlStruct.volume order =? 0) ||
  (negb (WTSOrdDtlStruct.side order =? BDT_Buy) && negb (WTSOrdDtlStruct.side order =? BDT_Sell)) ||
  negb (WTSOrdDtlStruct.otype order =? ODT_LimitPrice).

Definition on_order_detail (s : t) (order : WTSOrdDtlStruct.t) : t :=
  let s := s <| order_details ::= incr |> in
  let s := if bad_order order then error s else s in
  s <| checksum ::= fun c => Z.lxor c
    (u64 (WTSOrdDtlStruct.index order + WTSOrdDtlStruct.volume order + WTSOrdDtlStruct.action_time order)) |>.

(** The second condition of [on_transaction]. *)
Definition bad_transaction (transaction : WTSTransStruct.t) : bool :=
  other_exchange (WTSTransStruct.exchg transaction) || (byte_at (WTSTransStruct.code transaction) 0 =? 0) ||
  (WTSTransStruct.trading_date transaction =? 0) || (WTSTransStruct.action_date transaction =? 0) ||
  (last_action_time <? WTSTransStruct.action_time transaction) || (WTSTransStruct.index transaction =? 0) ||
  not_positive (WTSTransStruct.price transaction) || (WTSTransStruct.volume transaction =? 0).

Definition on_transaction (s : t) (transaction : WTSTransStruct.t) : t :=
  let s := s <| transactions ::= incr |> in
  let ttype := WTSTransStruct.ttype transaction in
  let s :=
    if ttype =? TT_Cancel then s <| cancel_transactions ::= incr |>
    else if ttype =? TT_Match then s <| match_transactions ::= incr |>
    else if ttype =? kWtsTradeBust then s <| trade_bust_transactions ::= incr |>
    else error s in
  let s := if bad_transaction transaction then error s else s in
  let s := s <| volume ::= fun v => u64 (v + WTSTransStruct.volume transaction) |> in
  s <| checksum ::= fun c => Z.lxor c
    (u64 (u64 (WTSTransStruct.index transaction) + WTSTransStruct.volume transaction +
      WTSTransStruct.action_time transaction)) |>.

(** A call of the adapter. *)
Definition audit (s : t) (call : WtsCall) : t :=
  match call with
  | WtsTypes.on_order_detail order => on_order_detail s order
  | WtsTypes.on_transaction transaction => on_transaction s transaction
  end.
End AuditSink.
Import (hints) AuditSink.

Module NasdaqItchWtsReplay.

Record t := mk {
  adapter : option PsxWtsAdapter.t;
  sink : AuditSink.t;
  locator : Z;
  target_messages : Z
}.
#[global] Instance eta_wts_replay : Eta t := fun s =>
  mk (adapter s) (sink s) (locator s) (target_messages s).

Section run.
Context (symbol : list Z) (trading_date : Z).

(** The stock directory message of the symbol (re)creates the adapter. *)
Definition create (s : t) (message : list Z) (size : Z) : t :=
  if (byte_at message 0 =? chr "R") && (size =? expected_message_size (chr "R")) &&
     bool_decide (trimmed_symbol (message +! 11) = symbol)
  then
    let located := read_u16 (message +! 1) in
    s <| locator := located |> <| adapter := Some (PsxWtsAdapter.make trading_date located symbol) |>
  else s.

(** The callback of the scan. *)
Definition visit (s : t) (delivered : list Z * Z) : t :=
  let '(message, size) := delivered in
  let s := create s message size in
  match adapter s with
  | Some a =>
      if (11 <=? size) && (read_u16 (message +! 1) =? locator s) then
        let s := s <| target_messages ::= incr |> in
        let '(a, calls) := PsxWtsAdapter.on_message a message size in
        s <| adapter := Some a |> <| sink ::= fun k => fold_left AuditSink.audit calls k |>
      else s
  | None => s
  end.

(** The exit code after the report. *)
Definition verdict (s : t) (a : PsxWtsAdapter.t) : Z :=
  let stats := PsxWtsAdapter.stats a in
  if (WtsAdapterStats.errors stats =? 0) && (AuditSink.errors (sink s) =? 0) &&
     (PsxWtsAdapter.active_orders a =? 0) &&
     (WtsAdapterStats.order_details stats =? AuditSink.order_details (sink s)) &&
     (WtsAdapterStats.transactions stats =? AuditSink.transactions (sink s))
  then 0 else 3.

(** The exit code; an exception makes it 1.  [None]: the fuel of the scan ran
    out. *)
Definition run {F} `{PosixFile F} (fuel : nat) (opened : option F) : option Z :=
  '(delivered, ending) ← scan_historical_file fuel opened;
  Some match ending with
  | inr _ => 1
  | inl _ =>
      let s := fold_left visit delivered (mk None AuditSink.zero 0 0) in
      match adapter s with
      | None => 1
      | Some a => verdict s a
      end
  end.

End run.

(** [main] after the count of its arguments: [date_value] is what [strtoull]
    made of the last one. *)
Definition main {F} `{PosixFile F} (symbol : list Z) (date_value : Z) (fuel : nat) (opened : option F) :
    option Z :=
  if (date_value =? 0) || (u32_max <? date_value) then Some 64 else run symbol date_value fuel opened.
End NasdaqItchWtsReplay.

(** * Properties *)

Import itch50 NasdaqItchWtsReplay.
Import (hints) WtsAdapterStats AuditSink.

(** ** What an adapter publishes *)

Definition is_order (call : WtsCall) : bool :=
  match call with on_order_detail _ => true | on_transaction _ => false end.
Definition orders_in (calls : list WtsCall) : nat := length (List.filter is_order calls).
Definition transactions_in (calls : list WtsCall) : nat := length (List.filter (fun c => negb (is_order c)) calls).

(** [n] increments. *)
Definition counted (n : nat) (x : Z) : Z := Nat.iter n incr x.
#[local] Arguments orders_in : simpl never.
#[local] Arguments transactions_in : simpl never.
#[local] Arguments counted : simpl never.

Lemma counted_add n k x : counted (n + k) x = counted n (counted k x).
Proof. unfold counted. by rewrite Nat.iter_add. Qed.

Lemma counted_zero n : Z.of_nat n < 2 ^ 64 -> counted n 0 = Z.of_nat n.
Proof.
  induction n as [|n IH]; intros Hn; [done|]. cbn [counted Nat.iter]. fold (counted n 0).
  change (incr (counted n 0) = Z.of_nat (S n)). rewrite IH by lia. unfold incr. rewrite wrap_small by lia. lia.
Qed.

Section adapter.
Import PsxWtsAdapter.

(** The counters of the calls made go up by their number; at most two are made. *)
Definition published (a : PsxWtsAdapter.t) (r : PsxWtsAdapter.t * list WtsCall) : Prop :=
  WtsAdapterStats.order_details (stats_ r.1) = counted (orders_in r.2) (WtsAdapterStats.order_details (stats_ a)) /\
  WtsAdapterStats.transactions (stats_ r.1) = counted (transactions_in r.2) (WtsAdapterStats.transactions (stats_ a)) /\
  (length r.2 <= 2)%nat.

Lemma take_shares_stats a id o q : stats_ (take_shares a id o q) = stats_ a.
Proof. unfold take_shares. by case_match. Qed.

Lemma published_stats a a' a1 calls : stats_ a' = stats_ a1 -> published a (a1, calls) -> published a (a', calls).
Proof. unfold published. cbn [fst snd]. by intros ->. Qed.

Lemma published_counts a a' a1 calls :
  WtsAdapterStats.order_details (stats_ a') = WtsAdapterStats.order_details (stats_ a1) ->
  WtsAdapterStats.transactions (stats_ a') = WtsAdapterStats.transactions (stats_ a1) ->
  published a (a1, calls) -> published a (a', calls).
Proof. unfold published. cbn [fst snd]. by intros -> ->. Qed.

Lemma transaction_published a m i ty s p v id : published a (emit_transaction a m i ty s p v id).
Proof. unfold emit_transaction. repeat case_match; split_and!; try done; cbn; lia. Qed.

Lemma order_published a m id o : published a (emit_order a m id o).
Proof. unfold emit_order. split_and!; try done; cbn; lia. Qed.

Lemma quiet_published a a' : 
  WtsAdapterStats.order_details (stats_ a') = WtsAdapterStats.order_details (stats_ a) ->
  WtsAdapterStats.transactions (stats_ a') = WtsAdapterStats.transactions (stats_ a) -> published a (a', []).
Proof. intros. split_and!; [done..|cbn; lia]. Qed.

(** A handler that changes tables before or after. *)
Lemma published_from a a1 r :
  WtsAdapterStats.order_details (stats_ a1) = WtsAdapterStats.order_details (stats_ a) ->
  WtsAdapterStats.transactions (stats_ a1) = WtsAdapterStats.transactions (stats_ a) ->
  published a1 r -> published a r.
Proof. unfold published. intros -> ->. done. Qed.

Lemma add_published a m : published a (add a m).
Proof.
  unfold add. destruct (_ || _); [by apply quiet_published|]. destruct (emplace _ _ _) as [os []]; cbn [negb];
    [|by apply quiet_published].
  by eapply published_from; [| |apply order_published].
Qed.

(** A transaction, then a change of the tables. *)
Lemma then_published a a1 m i ty s p v id (f : t -> t) :
  stats_ a1 = stats_ a -> (forall x, stats_ (f x) = stats_ x) ->
  published a (let '(a, calls) := emit_transaction a1 m i ty s p v id in (f a, calls)).
Proof.
  intros H1 Hf. pose proof (transaction_published a1 m i ty s p v id) as Ht.
  destruct (emit_transaction a1 m i ty s p v id) as [a2 calls].
  apply (published_stats a (f a2) a2); [apply Hf|]. by eapply published_from; [..|exact Ht]; rewrite H1.
Qed.

Lemma cancel_partial_published a m : published a (cancel_partial a m).
Proof.
  unfold cancel_partial. destruct (orders_ a !! _) as [o|]; [|by apply quiet_published].
  destruct (_ || _); [by apply quiet_published|].
  apply (then_published a a _ _ _ _ _ _ _ (fun a => take_shares a _ o _)); [done|].
  intros. apply take_shares_stats.
Qed.

Lemma cancel_all_published a m : published a (cancel_all a m).
Proof.
  unfold cancel_all. destruct (orders_ a !! _) as [o|]; [|by apply quiet_published].
  by apply (then_published a a _ _ _ _ _ _ _ (fun a => a <| orders_ ::= delete _ |>)).
Qed.

Lemma execute_published a m : published a (execute a m).
Proof.
  unfold execute. destruct (orders_ a !! _) as [o|]; [|by apply quiet_published].
  destruct (_ || _); [by apply quiet_published|]. destruct (emplace _ _ _) as [ms first].
  match goal with |- context [let '(_, _) := ?r in (take_shares _ _ _ _, _)] => assert (published a r) as Hr end.
  { destruct (negb (_ || _)); [by apply quiet_published|]. destruct first; [|by apply quiet_published].
    destruct (i64_max <? _); [by apply quiet_published|]. by eapply published_from; [..|apply transaction_published]. }
  match goal with |- context [let '(_, _) := ?r in (take_shares _ _ _ _, _)] => destruct r as [a2 calls] end.
  eapply published_stats; [apply take_shares_stats|exact Hr].
Qed.

Lemma published_app a r1 a2 calls :
  published a r1 -> published r1.1 (a2, calls) -> (length r1.2 <= 1)%nat -> (length calls <= 1)%nat ->
  published a (a2, r1.2 ++ calls).
Proof.
  unfold published, orders_in, transactions_in. cbn [fst snd]. intros (A1 & A2 & _) (B1 & B2 & _) L1 L2.
  rewrite !List.filter_app, !length_app, B1, B2, A1, A2, (Nat.add_comm (length (List.filter is_order r1.2))),
    (Nat.add_comm (length (List.filter (fun c => negb (is_order c)) r1.2))), !counted_add.
  split_and!; [done..|lia].
Qed.

Lemma transaction_once a m i ty s p v id : (length (emit_transaction a m i ty s p v id).2 <= 1)%nat.
Proof. unfold emit_transaction. destruct (_ || _); cbn; lia. Qed.

Lemma replace_published a m : published a (replace a m).
Proof.
  unfold replace. destruct (orders_ a !! _) as [o|]; [|by apply quiet_published].
  destruct (_ || _); [by apply quiet_published|].
  match goal with |- context [emit_transaction ?a ?m ?i ?ty ?s ?p ?v ?id] =>
    pose proof (transaction_published a m i ty s p v id) as Ht;
    pose proof (transaction_once a m i ty s p v id) as Hone; destruct (emit_transaction a m i ty s p v id) as [a2 calls] end.
  cbn [fst snd] in Hone. destruct (emplace _ _ _) as [os []]; cbn [negb]; [|by eapply published_counts; [..|exact Ht]].
  match goal with |- context [emit_order ?a ?m ?id ?o] =>
    pose proof (order_published a m id o) as Hp; destruct (emit_order a m id o) as [a3 calls'] eqn:E end.
  injection E as <- <-. apply (published_app a (a2, calls)); [done| |done|cbn; lia].
  by eapply published_from; [..|exact Hp].
Qed.

Lemma publish_trade_published a a1 m i ty s p v id :
  stats_ a1 = stats_ a -> published a (emit_transaction a1 m i ty s p v id).
Proof. intros Hs. by eapply published_from; [..|apply transaction_published]; rewrite Hs. Qed.

Lemma non_cross_trade_published a m : published a (non_cross_trade a m).
Proof.
  unfold non_cross_trade. destruct (emplace _ _ _) as [ms []]; cbn [negb]; [|by apply quiet_published].
  destruct (i64_max <? _); [by apply quiet_published|by apply publish_trade_published].
Qed.

Lemma cross_trade_published a m : published a (cross_trade a m).
Proof.
  unfold cross_trade. destruct (_ || _); [by apply quiet_published|].
  destruct (emplace _ _ _) as [ms []]; cbn [negb]; [by apply publish_trade_published|by apply quiet_published].
Qed.

Lemma broken_trade_published a m : published a (broken_trade a m).
Proof.
  unfold broken_trade. destruct (matches_ a !! _) as [mt|]; [|by apply quiet_published].
  destruct (WtsMatch.emitted mt); [|by apply quiet_published].
  by apply (then_published a a _ _ _ _ _ _ _ (fun a => a <| matches_ ::= delete _ |>)).
Qed.

Lemma message_published a m size : published a (on_message a m size).
Proof.
  unfold on_message. destruct (_ || _); [by apply quiet_published|].
  apply (published_from _ (a <| event_sequence_ ::= incr |>)); [done..|].
  set (a1 := a <| event_sequence_ ::= incr |>). clearbody a1. clear a.
  destruct (_ || _); [by apply quiet_published|]. destruct (_ || _); [apply add_published|].
  destruct (_ || _); [apply execute_published|].
  destruct (_ =? chr "X"); [apply cancel_partial_published|].
  destruct (_ =? chr "D"); [apply cancel_all_published|].
  destruct (_ =? chr "U"); [apply replace_published|].
  destruct (_ =? chr "P"); [apply non_cross_trade_published|].
  destruct (_ =? chr "Q"); [apply cross_trade_published|].
  destruct (_ =? chr "B"); [apply broken_trade_published|by apply quiet_published].
Qed.
End adapter.

(** ** The reference run *)

(** The adapter at hand, the events published by the adapters before it, and
    its own. *)
Record Conversion := mkConversion {
  converter : option PsxWtsAdapter.t;
  earlier : list WtsCall;
  events : list WtsCall
}.

Section run.
Context (symbol : list Z) (trading_date : Z).

(** A directory message of the symbol starts anew; then the adapter, if there
    is one, takes the message. *)
Definition convert (c : Conversion) (m : list Z) : Conversion :=
  let c := if names_symbol symbol m
    then mkConversion (Some (PsxWtsAdapter.make trading_date (read_u16 (m +! 1)) symbol)) (earlier c ++ events c) []
    else c in
  match converter c with
  | Some a =>
      let '(a, calls) := PsxWtsAdapter.on_message a m (alen m) in
      mkConversion (Some a) (earlier c) (events c ++ calls)
  | None => c
  end.

Definition converted (records : list (list Z)) : Conversion := fold_left convert records (mkConversion None [] []).

(** The sink has audited all events, the adapter has counted its own. *)
Record follows (c : Conversion) (s : t) (n : nat) : Prop := {
  fol_adapter : adapter s = converter c;
  fol_locator : from_option (fun a => PsxWtsAdapter.locator_ a = locator s) True (converter c);
  fol_sink : sink s = fold_left AuditSink.audit (earlier c ++ events c) AuditSink.zero;
  fol_orders : from_option (fun a => WtsAdapterStats.order_details (PsxWtsAdapter.stats_ a) = counted (orders_in (events c)) 0)
    (events c = []) (converter c);
  fol_transactions : from_option (fun a => WtsAdapterStats.transactions (PsxWtsAdapter.stats_ a) =
    counted (transactions_in (events c)) 0) True (converter c);
  fol_events : (length (earlier c ++ events c) <= 2 * n)%nat
}.

Lemma orders_in_app l l' : orders_in (l ++ l') = (orders_in l + orders_in l')%nat.
Proof. unfold orders_in. by rewrite List.filter_app, length_app. Qed.
Lemma transactions_in_app l l' : transactions_in (l ++ l') = (transactions_in l + transactions_in l')%nat.
Proof. unfold transactions_in. by rewrite List.filter_app, length_app. Qed.

Lemma on_message_locator a m size : PsxWtsAdapter.locator_ (PsxWtsAdapter.on_message a m size).1 = PsxWtsAdapter.locator_ a.
Proof.
  unfold PsxWtsAdapter.on_message, PsxWtsAdapter.add, PsxWtsAdapter.execute, PsxWtsAdapter.cancel_partial,
    PsxWtsAdapter.cancel_all, PsxWtsAdapter.replace, PsxWtsAdapter.non_cross_trade, PsxWtsAdapter.cross_trade,
    PsxWtsAdapter.broken_trade, PsxWtsAdapter.emit_transaction, PsxWtsAdapter.take_shares.
  repeat (case_match; simplify_eq; try done).
Qed.

(** A message of another locate leaves the adapter alone. *)
Lemma on_message_other a m size :
  (11 <=? size) && (read_u16 (m +! 1) =? PsxWtsAdapter.locator_ a) = false ->
  PsxWtsAdapter.on_message a m size = (a, []).
Proof.
  intros H. unfold PsxWtsAdapter.on_message. destruct (Z.leb_spec 11 size), (Z.ltb_spec size 11); try lia; [|done].
  cbn [andb orb] in *. by rewrite H.
Qed.

Lemma visit_ok c s n m :
  record_ok m -> follows c s n -> follows (convert c m) (visit symbol trading_date s (m, alen m)) (S n).
Proof.
  intros Hm Hf. unfold convert, visit.
  set (c1 := if names_symbol symbol m then _ else c). set (s1 := create symbol trading_date s m (alen m)).
  assert (follows c1 s1 n) as [Ha Hl Hk Ho Ht He].
  { unfold c1, s1, create, names_symbol. change (expected_message_size (chr "R")) with 39.
    destruct (_ && _); [|done]. destruct Hf as [Ha Hl Hk Ho Ht He]. constructor; cbn; try done; by rewrite app_nil_r. }
  clearbody c1 s1. clear Hf c s. rewrite Ha. destruct (converter c1) as [a|] eqn:Ec; cbn in Hl, Ho, Ht.
  2: { constructor; rewrite ?Ec; try done. lia. }
  rewrite <- Hl. pose proof (message_published a m (alen m)) as (P1 & P2 & P3).
  pose proof (on_message_locator a m (alen m)) as Hloc.
  destruct ((11 <=? alen m) && (read_u16 (m +! 1) =? PsxWtsAdapter.locator_ a)) eqn:Hmine.
  - destruct (PsxWtsAdapter.on_message a m (alen m)) as [a' calls]. cbn [fst snd] in *.
    constructor; cbn; [done|by rewrite Hloc| | | |].
    + rewrite app_assoc, fold_left_app. by rewrite <- Hk.
    + rewrite orders_in_app, Nat.add_comm, counted_add, <- Ho. exact P1.
    + rewrite transactions_in_app, Nat.add_comm, counted_add, <- Ht. exact P2.
    + rewrite !length_app in *. lia.
  - rewrite on_message_other by done. rewrite app_nil_r. constructor; cbn; try done. lia.
Qed.

Lemma visits_ok records c s n :
  Forall record_ok records -> follows c s n ->
  follows (fold_left convert records c) (fold_left (visit symbol trading_date) (map sized records) s)
    (n + length records).
Proof.
  intros Hok. revert c s n. induction Hok as [|m records Hm _ IH]; intros c s n Hf; cbn [map fold_left length].
  { by rewrite Nat.add_0_r. }
  rewrite <- Nat.add_succ_comm. apply IH. by apply visit_ok.
Qed.

Lemma audit_visit_shown s d : 1 <= d.2 -> visit symbol trading_date s (shown d) = visit symbol trading_date s d.
Proof.
  destruct d as [m size]. cbn [snd]. intros Hs. unfold shown, visit. cbn [fst snd].
  assert (create symbol trading_date s (take (Z.to_nat size) m) size = create symbol trading_date s m size) as ->.
  { unfold create. change (expected_message_size (chr "R")) with 39.
    destruct (Z.eqb_spec size 39) as [->|]; [|by rewrite !andb_false_r].
    by rewrite byte_at_take, trimmed_within, read_u16_take by lia. }
  destruct (adapter (create symbol trading_date s m size)) as [a|]; [|done].
  destruct (Z.leb_spec 11 size); [|done]. cbn [andb]. rewrite read_u16_take by lia. by rewrite reference_within.
Qed.

Lemma audit_visits_shown calls s :
  Forall (fun d => 1 <= d.2) calls ->
  fold_left (visit symbol trading_date) (map shown calls) s = fold_left (visit symbol trading_date) calls s.
Proof.
  intros Hc. revert s. induction Hc as [|d calls Hd _ IH]; intros s; cbn [map fold_left]; [done|].
  rewrite audit_visit_shown by done. apply IH.
Qed.
End run.

(** ** The audit *)

(** An event the sink has nothing against. *)
Definition passes (call : WtsCall) : bool :=
  match call with
  | on_order_detail order => negb (AuditSink.bad_order order)
  | on_transaction tr =>
      negb (AuditSink.bad_transaction tr) &&
      ((WTSTransStruct.ttype tr =? TT_Cancel) || (WTSTransStruct.ttype tr =? TT_Match) ||
       (WTSTransStruct.ttype tr =? kWtsTradeBust))
  end.

(** What the sink makes of a sequence of events. *)
Lemma audit_counts calls k :
  AuditSink.order_details (fold_left AuditSink.audit calls k) = counted (orders_in calls) (AuditSink.order_details k) /\
  AuditSink.transactions (fold_left AuditSink.audit calls k) = counted (transactions_in calls) (AuditSink.transactions k).
Proof.
  revert k. induction calls as [|call calls IH]; intros k; [done|]. cbn [fold_left].
  destruct (IH (AuditSink.audit k call)) as [-> ->].
  change (call :: calls) with ([call] ++ calls). rewrite orders_in_app, transactions_in_app.
  rewrite (Nat.add_comm (orders_in [call])), (Nat.add_comm (transactions_in [call])), !counted_add.
  destruct call; cbn [AuditSink.audit].
  - unfold AuditSink.on_order_detail. by destruct (AuditSink.bad_order _).
  - unfold AuditSink.on_transaction. destruct (AuditSink.bad_transaction _); by repeat case_match.
Qed.

(** Two errors at most per event, none exactly when it passes. *)
Lemma audit_errors_step k call :
  0 <= AuditSink.errors k < 2 ^ 64 - 2 ->
  let k' := AuditSink.audit k call in
  AuditSink.errors k <= AuditSink.errors k' <= AuditSink.errors k + 2 /\
  (AuditSink.errors k' = AuditSink.errors k <-> passes call = true).
Proof.
  intros Hk. assert (forall x, AuditSink.errors k <= x <= AuditSink.errors k + 1 -> incr x = x + 1) as Hincr.
  { intros x Hx. unfold incr. rewrite wrap_small; lia. }
  destruct call; cbn [AuditSink.audit passes].
  - unfold AuditSink.on_order_detail. destruct (AuditSink.bad_order _); cbn; rewrite ?Hincr by lia;
      (split; [lia|]); split; done || lia.
  - unfold AuditSink.on_transaction.
    destruct (AuditSink.bad_transaction _), (_ =? TT_Cancel), (_ =? TT_Match), (_ =? kWtsTradeBust);
      cbn; rewrite ?Hincr by (rewrite ?Hincr; lia); (split; [lia|]); split; done || lia.
Qed.

Lemma audit_errors calls k :
  0 <= AuditSink.errors k -> AuditSink.errors k + 2 * Z.of_nat (length calls) < 2 ^ 64 - 2 ->
  let k' := fold_left AuditSink.audit calls k in
  AuditSink.errors k <= AuditSink.errors k' /\
  (AuditSink.errors k' = AuditSink.errors k <-> forallb passes calls = true).
Proof.
  revert k. induction calls as [|call calls IH]; intros k Hk Hlen; cbn zeta; cbn [fold_left forallb length] in *.
  { split; [lia|done]. }
  destruct (audit_errors_step k call ltac:(lia)) as [Hr Hp]. cbn zeta in Hr, Hp.
  destruct (IH (AuditSink.audit k call) ltac:(lia) ltac:(lia)) as [Hr' Hp']. cbn zeta in Hr', Hp'.
  rewrite andb_true_iff. split; [lia|]. rewrite <- Hp, <- Hp'. split; [|by intros [-> ->]]. intros E.
  split; lia.
Qed.

Lemma calls_counted calls : (orders_in calls + transactions_in calls = length calls)%nat.
Proof.
  unfold orders_in, transactions_in. induction calls as [|call calls IH]; cbn [List.filter length]; [done|].
  destruct (is_order call); cbn [negb length]; lia.
Qed.

Section verdict.
Context (symbol : list Z) (trading_date : Z).

Lemma verdict_ok c s n a :
  follows c s n -> converter c = Some a -> 4 * Z.of_nat n < 2 ^ 64 - 2 ->
  verdict s a = if (WtsAdapterStats.errors (PsxWtsAdapter.stats a) =? 0) && (PsxWtsAdapter.active_orders a =? 0) &&
    bool_decide (earlier c = []) && forallb passes (events c) then 0 else 3.
Proof.
  intros [Ha Hl Hk Ho Ht He] Ec Hn. rewrite Ec in Ho, Ht. cbn in Ho, Ht. unfold verdict, PsxWtsAdapter.stats.
  destruct (audit_counts (earlier c ++ events c) AuditSink.zero) as [Co Ct].
  destruct (audit_errors (earlier c ++ events c) AuditSink.zero) as [_ Hp]; [done|cbn [AuditSink.errors AuditSink.zero]; lia|].
  cbn zeta in Hp. rewrite <- Hk in Co, Ct, Hp.
  cbn [AuditSink.errors AuditSink.order_details AuditSink.transactions AuditSink.zero] in *.
  pose proof (calls_counted (earlier c)) as Hc. pose proof (calls_counted (events c)) as Hc'. rewrite length_app in He.
  rewrite Ho, Ht, Co, Ct, orders_in_app, transactions_in_app, !counted_zero by lia.
  rewrite forallb_app in Hp. set (o := orders_in (earlier c)) in *. set (tr := transactions_in (earlier c)) in *.
  assert ((Z.of_nat (orders_in (events c)) =? Z.of_nat (o + orders_in (events c))) &&
    (Z.of_nat (transactions_in (events c)) =? Z.of_nat (tr + transactions_in (events c))) =
    bool_decide (earlier c = [])) as Hsame.
  { apply eq_iff_eq_true. rewrite andb_true_iff, !Z.eqb_eq, bool_decide_eq_true.
    split; [intros []|intros E]; [destruct (earlier c); [done|cbn [length] in Hc; lia]|].
    unfold o, tr. rewrite E. change (orders_in []) with 0%nat. change (transactions_in []) with 0%nat. lia. }
  assert ((AuditSink.errors (sink s) =? 0) = forallb passes (earlier c) && forallb passes (events c)) as ->.
  { apply eq_iff_eq_true. by rewrite Z.eqb_eq. }
  rewrite <- (andb_assoc _ _ (Z.of_nat (transactions_in (events c)) =? _)), Hsame.
  destruct (bool_decide_reflect (earlier c = [])) as [->|]; [|by rewrite !andb_false_r].
  cbn [forallb]. by destruct (_ =? 0), (forallb passes (events c)), (_ =? 0).
Qed.
End verdict.

(** The exit code of the audit run. Of a file whose scan returns, the tool
    ends with 1 when no directory message names the symbol; otherwise with 0
    exactly when the adapter of the last such message counted no error and is
    left with no order, every event it published passes the audit, and none was
    published before it was created; and with 3 when not. In particular the sink
    received every event the adapter says it published. *)
Theorem audit_exit_code {F} `{PosixFileLaws F} fuel f symbol trading_date :
  Forall is_byte (unread f) -> alen (unread f) < 2 ^ 62 -> (enough f <= fuel)%nat ->
  exists calls ending, scan_historical_file fuel (Some f) = Some (calls, ending) /\
    match ending with
    | inr _ => run symbol trading_date fuel (Some f) = Some 1
    | inl _ => exists records, unread f = frame records /\ Forall record_ok records /\
        let c := converted symbol trading_date records in
        run symbol trading_date fuel (Some f) = Some
          match converter c with
          | None => 1
          | Some a =>
              if (WtsAdapterStats.errors (PsxWtsAdapter.stats a) =? 0) && (PsxWtsAdapter.active_orders a =? 0) &&
                 bool_decide (earlier c = []) && forallb passes (events c)
              then 0 else 3
          end
    end.
Proof.
  intros Hb Hlen Hfuel. destruct (scan_ok fuel f Hb ltac:(lia) Hfuel) as (calls & ending & Hscan & Hs).
  exists calls, ending. split; [done|]. unfold run. rewrite Hscan. cbn [mbind option_bind].
  destruct ending as [r|e]; [|done]. unfold scanned in Hs.
  destruct (unframe (unread f)) as [records e] eqn:E. destruct Hs as [[? _]|[Hc He]]; [done|].
  pose proof (unframe_records _ _ _ Hb E) as [Hok Hnum].
  destruct e; try done. apply unframe_clean in E as [Hf _]; [|done].
  exists records. split_and!; [done..|]. f_equal.
  rewrite <- audit_visits_shown by (by eapply shown_sizes). rewrite Hc. set (s0 := mk None AuditSink.zero 0 0).
  assert (follows (mkConversion None [] []) s0 0) as Hstart by (constructor; try done; cbn; lia).
  pose proof (visits_ok symbol trading_date records _ _ _ Hok Hstart) as Hv. fold (converted symbol trading_date records) in Hv.
  rewrite (fol_adapter _ _ _ Hv). destruct (converter (converted symbol trading_date records)) as [a|] eqn:Ec; [|done].
  eapply verdict_ok; [exact Hv|done|]. unfold alen in *. lia.
Qed.

(** The symbol is announced, an order enters, is executed in part and deleted:
    three events, all of which pass. *)
Definition audited : list (list Z) :=
  [foreign_message 3; directory_message; add_message 5; execute_message 5 9; delete_message 5].

Definition audited_file : Script := mkScript (frame audited) [Chunk 3; Signal; Chunk 90].

Lemma audit_exit_code_witness :
  (let c := converted [65] 20190530 audited in
   length (events c) = 3%nat /\ forallb passes (events c) = true /\
   from_option PsxWtsAdapter.active_orders 1 (converter c) = 0) /\
  exists calls ending, scan_historical_file 500 (Some audited_file) = Some (calls, ending) /\
    match ending with
    | inr _ => run [65] 20190530 500 (Some audited_file) = Some 1
    | inl _ => exists records, unread audited_file = frame records /\ Forall record_ok records /\
        let c := converted [65] 20190530 records in
        run [65] 20190530 500 (Some audited_file) = Some
          match converter c with
          | None => 1
          | Some a =>
              if (WtsAdapterStats.errors (PsxWtsAdapter.stats a) =? 0) && (PsxWtsAdapter.active_orders a =? 0) &&
                 bool_decide (earlier c = []) && forallb passes (events c)
              then 0 else 3
          end
    end.
Proof.
  split; [by vm_compute|].
  apply (audit_exit_code 500 audited_file [65] 20190530); [apply bytes_ok|..].
  - by vm_compute.
  - by vm_compute.
  - apply Nat.leb_le. by vm_compute.
Defined.
