(* ===== verification/BookReplay.v ===== *)
(** * tools/UftOrderBookReplay.cpp

    The replay of a whole session file through the order-book pipeline: the
    arguments are decimal numbers, every record of the file is one message of
    the session, and a strategy keeps what it last saw of the book, which has to
    be the book at the end.

    Its theorems: the numbers of the command line are read exactly; the two checks
    after the scan never fail; a replay that passes has a book that is the
    price-time replay of the file, and one that does not says why. *)

From Stdlib Require Import Ascii.
From stdpp Require Import strings.
From S2P Require Import Prelude FixedHashTable BookTypes DenseBook BookFacts DenseQueries.
From S2P Require Import DenseProperties Itch50 Samples UftTypes UftAdapter Engine Pipeline.
From S2P Require Import UftAdapterFacts PipelineFacts PipelineProperties HistoricalFile.
From S2P Require Import FileProperties Within Numerals.
Import itch50.

Module UftOrderBookReplay.

(** [None] is the thrown [invalid_argument]. *)
Definition number (text : list Z) : option Z :=
  match from_chars text with
  | Some (value, []) => if value =? 0 then None else Some value
  | _ => None
  end.

Module Strategy.
Record t := mk {
  callbacks : Z;
  bid : Z;
  ask : Z;
  bid_quantity : Z;
  ask_quantity : Z
}.
#[global] Instance eta_strategy : Eta t := fun s =>
  mk (callbacks s) (bid s) (ask s) (bid_quantity s) (ask_quantity s).

Definition initial : t := mk 0 0 0 0 0.

Definition on_book (s : t) (call : UftOrderBookPipeline.StrategyCall) : t :=
  let book := UftOrderBookPipeline.call_book call in
  let bid := DensePriceOrderBook.best_bid book in
  let ask := DensePriceOrderBook.best_ask book in
  mk (incr (callbacks s)) bid ask (DensePriceOrderBook.level_quantity book Buy bid)
    (DensePriceOrderBook.level_quantity book Sell ask).
End Strategy.
Import (hints) Strategy.

(** The exceptions that end the program with 2. *)
Inductive Failure :=
  | not_positive_decimal
  | argument_out_of_range
  | invalid_pipeline
  | start_failed
  | scan_threw (e : ScanError)
  | feed_refused (reason : option string)
  | no_delivery
  | view_mismatch.

(** What the last line prints. *)
Record Passed := mkPassed {
  messages : Z;
  book_callbacks : Z;
  active_orders : Z;
  best_bid : Z;
  best_ask : Z;
  net_printed_volume : Z
}.

Record t := mk { pipeline : UftOrderBookPipeline.t; strategy : Strategy.t }.

(** The callback of the scan. *)
Definition visit (s : t) (delivered : list Z * Z) : t + Failure :=
  let '(message, size) := delivered in
  let p := pipeline s in
  let '(p, result, calls) := UftOrderBookPipeline.ingest p (UftOrderBookPipeline.session p)
    (UftOrderBookPipeline.next_sequence p) (Some message) size in
  if bool_decide (result = Applied) then inl (mk p (fold_left Strategy.on_book calls (strategy s)))
  else inr (feed_refused (UftOrderBookPipeline.error p)).

Fixpoint visit_all (s : t) (delivered : list (list Z * Z)) : t + Failure :=
  match delivered with
  | [] => inl s
  | d :: delivered' => match visit s d with inl s => visit_all s delivered' | inr e => inr e end
  end.

(** The checks after the scan. *)
Definition check (s : t) (scanned : FileScanResult.t) : Passed + Failure :=
  let v := strategy s in
  let book := UftOrderBookPipeline.book (pipeline s) in
  if (Strategy.callbacks v =? 0) ||
     negb (Strategy.callbacks v =? UftOrderBookPipeline.strategy_callbacks (pipeline s))
  then inr no_delivery
  else if negb (Strategy.bid v =? DensePriceOrderBook.best_bid book) ||
     negb (Strategy.ask v =? DensePriceOrderBook.best_ask book) ||
     negb (Strategy.bid_quantity v =? DensePriceOrderBook.level_quantity book Buy (Strategy.bid v)) ||
     negb (Strategy.ask_quantity v =? DensePriceOrderBook.level_quantity book Sell (Strategy.ask v))
  then inr view_mismatch
  else inl (mkPassed (FileScanResult.messages scanned) (Strategy.callbacks v)
    (DensePriceOrderBook.active_orders book) (DensePriceOrderBook.best_bid book)
    (DensePriceOrderBook.best_ask book) (UftOrderBookPipeline.net_printed_volume (pipeline s))).

Section replay.
Context {F : Type} `{PosixFile F} (fuel : nat) (opened : option F).

(** From the constructor of the pipeline on; [None]: the fuel of the scan ran
    out. *)
Definition replay (locator minimum maximum tick orders matches : Z) : option (Passed + Failure) :=
  match UftOrderBookPipeline.make "FILESESSION" 1 locator orders matches minimum maximum tick with
  | None => Some (inr invalid_pipeline)
  | Some p =>
      let '(p, started) := UftOrderBookPipeline.start p (Some 0) (Some (fun _ => [])) in
      if negb started then Some (inr start_failed)
      else
        '(delivered, ending) ← scan_historical_file fuel opened;
        Some match visit_all (mk p Strategy.initial) delivered with
        | inr e => inr e
        | inl s => match ending with inr e => inr (scan_threw e) | inl scanned => check s scanned end
        end
  end.

(** [main]: [arguments] follow the path. *)
Definition main (arguments : list (list Z)) : option (Passed + Failure) :=
  match mapM number arguments with
  | Some [locator; minimum; maximum; tick; orders; matches] =>
      if (u16_max <? locator) || (i64_max <? maximum) || (i64_max <? minimum) || (i64_max <? tick)
      then Some (inr argument_out_of_range)
      else replay locator minimum maximum tick orders matches
  | _ => Some (inr not_positive_decimal)
  end.

(** The status the program ends with; [argc != 8] is 1. *)
Definition exit_code (arguments : list (list Z)) : option Z :=
  if negb (alen arguments =? 6) then Some 1
  else outcome ← main arguments; Some match outcome with inl _ => 0 | inr _ => 2 end.
End replay.
End UftOrderBookReplay.

(** * Properties *)

Import itch50 UftOrderBookReplay.
Import (hints) UftOrderBookPipeline.

(** ** What publications keep, a message keeps *)

Section preserved.
Import NasdaqItchUftAdapter.
Context {E : Type} `{MarketDataEngine E} (P : E -> Prop).
Hypothesis keep_order : forall e event, P e -> P (publish_order_detail e event).1.
Hypothesis keep_transaction : forall e event, P e -> P (publish_transaction e event).1.
Hypothesis keep_book : forall publish e event, publish_book_update = Some publish -> P e -> P (publish e event).1.

Lemma emit_book_keeps a e m act id nid mid p q s pr : P e -> P (emit_book a e m act id nid mid p q s pr).2.
Proof.
  intros He. unfold emit_book, book_publish. destruct publish_book_update as [publish|]; [|done].
  match goal with |- context [publish e ?event] => pose proof (keep_book publish e event eq_refl He) as Hk;
    destruct (publish e event) as [e' n] end. exact Hk.
Qed.

Lemma emit_order_keeps a e m id o : P e -> P (emit_order a e m id o).2.
Proof.
  intros He. unfold emit_order. match goal with |- context [publish_order_detail e ?event] =>
    pose proof (keep_order e event He) as Hk; destruct (publish_order_detail e event) as [e' n] end. exact Hk.
Qed.

Lemma emit_transaction_keeps a e m tid ty s p q id : P e -> P (emit_transaction a e m tid ty s p q id).2.
Proof.
  intros He. unfold emit_transaction. destruct (q =? 0); [done|].
  match goal with |- context [publish_transaction e ?event] =>
    pose proof (keep_transaction e event He) as Hk; destruct (publish_transaction e event) as [e' n] end. exact Hk.
Qed.

(** Runs the next publication. *)
Ltac next_emit :=
  match goal with
  | He : P ?e |- context [emit_order ?a ?e ?m ?id ?o] =>
      pose proof (emit_order_keeps a e m id o He); destruct (emit_order a e m id o)
  | He : P ?e |- context [emit_transaction ?a ?e ?m ?i ?ty ?s ?pr ?q ?id] =>
      pose proof (emit_transaction_keeps a e m i ty s pr q id He); destruct (emit_transaction a e m i ty s pr q id)
  | He : P ?e |- context [emit_book ?a ?e ?m ?act ?i ?n ?mid ?pr ?q ?s ?b] =>
      pose proof (emit_book_keeps a e m act i n mid pr q s b He); destruct (emit_book a e m act i n mid pr q s b)
  | |- context [FixedHashTable.insert ?tab ?k ?v] => destruct (FixedHashTable.insert tab k v) as [? []]
  | |- context [match FixedHashTable.find ?tab ?k with _ => _ end] => destruct (FixedHashTable.find tab k)
  | |- context [if ?b then _ else _] => destruct b
  end; cbn [fst snd] in *; try done.

Lemma on_message_keeps a message size e : P e -> P (on_message a message size e).2.
Proof.
  intros He. unfold on_message. destruct message as [m|]; [|done]. destruct (_ || _); [done|].
  set (a1 := a <| source_sequence_ ::= incr |>). clearbody a1. clear a.
  destruct (negb _); [done|]. destruct (_ || _); [unfold add; repeat next_emit|].
  destruct (_ || _); [unfold execute; repeat next_emit|].
  destruct (_ =? chr "X"); [unfold cancel_partial; repeat next_emit|].
  destruct (_ =? chr "D"); [unfold cancel_all; repeat next_emit|].
  destruct (_ =? chr "U"); [unfold replace; repeat next_emit|].
  destruct (_ =? chr "P"); [unfold non_cross_trade, publish_match; repeat next_emit|].
  destruct (_ =? chr "Q"); [unfold cross_trade, publish_match; repeat next_emit|].
  destruct (_ =? chr "B"); [unfold broken_trade; repeat next_emit|done].
Qed.
End preserved.

(** ** One message of a live pipeline *)

Section quiet.
Import UftOrderBookPipeline.
Implicit Types p q : UftOrderBookPipeline.t.

(** What a message has made of [p]: the book is marked as changed when it is, and
    a fault has a reason. *)
Record kept p q : Prop := {
  kept_callback : callback_ q = callback_ p;
  kept_callbacks : callbacks_ q = callbacks_ p;
  kept_started : started_ q = started_ p;
  kept_session : session_ q = session_ p;
  kept_state : state_ q = state_ p /\ (pending_ q = true \/ book_ q = book_ p) \/
    state_ q = Faulted /\ is_Some (error_ q)
}.

Lemma apply_action_state q e :
  state_ (apply_action q e).1 = state_ q /\ error_ (apply_action q e).1 = error_ q.
Proof. unfold apply_action, on_book, record, bust. repeat (case_match; simplify_eq; try done). Qed.

Lemma apply_kept p q e : kept p q -> kept p (apply q e).
Proof.
  intros Hk. unfold apply. destruct (is_faulted (state_ q)) eqn:Hf; [done|].
  apply bool_decide_eq_false in Hf. pose proof (apply_action_frame q e) as Hframe.
  destruct (apply_action_state q e) as [Hs He]. destruct (apply_action q e) as [q' ok]. cbn [fst] in *.
  destruct Hframe, Hk as [K1 K2 K3 K4 [[K5 K6]|[K5 _]]]; [|done].
  destruct ok; constructor; cbn; try congruence; [left; split; [congruence|by left]|].
  right. split; [done|]. by destruct (error_ q').
Qed.

Lemma message_kept p a message size :
  kept p (NasdaqItchUftAdapter.on_message a message size (p <| in_ingest_ := true |> <| pending_ := false |>)).2.
Proof.
  apply on_message_keeps; [done|done| |].
  - intros publish q e Hp Hk. unfold publish_book_update, pipeline_engine in Hp. injection Hp as <-.
    destruct (UftBookMarketDataEngine.publish_book_update _ _ _); [by apply apply_kept|done].
  - constructor; try done. left. split; [done|by right].
Qed.

(** What [ingest] of the next message leaves of a live pipeline whose strategy
    does not call back. *)
Record ingested p p' (result : BookIngestResult) (calls : list StrategyCall) : Prop := {
  ing_callback : callback_ p' = callback_ p;
  ing_started : started_ p' = started_ p;
  ing_session : session_ p' = session_ p;
  ing_calls :
    (result = Applied /\ state_ p' = Live /\ calls = [] /\ callbacks_ p' = callbacks_ p /\ book_ p' = book_ p) \/
    (result = Applied /\ state_ p' = Live /\ callbacks_ p' = incr (callbacks_ p) /\
     exists c, calls = [c] /\ call_book c = book_ p') \/
    (result <> Applied /\ is_Some (error_ p'))
}.

Lemma ingest_quiet p message size :
  state_ p = Live -> started_ p = true -> in_ingest_ p = false -> callback_ p = Some (fun _ => []) ->
  let '(p', result, calls) := ingest p (session_ p) (next_ p) (Some message) size in
  ingested p p' result calls.
Proof.
  intros Hlive Hst Hidle Hcb.
  assert (forall reason, is_Some (error_ (fault p reason))) as Hreason by (intros; cbn; by destruct (error_ p)).
  unfold ingest. rewrite Hst, Hidle, Hlive, bool_decide_true by done. cbn [negb orb is_faulted].
  change (is_faulted Live) with false. cbn [orb]. rewrite Z.ltb_irrefl.
  destruct (next_ p =? u64_max); [constructor; auto|].
  destruct (_ || _); [constructor; auto|].
  pose proof (message_kept p (adapter_ p) (Some message) size) as Hk.
  destruct (NasdaqItchUftAdapter.on_message _ _ _ _) as [a' p1]. cbn [snd] in Hk.
  destruct Hk as [K1 K2 K3 K4 K5]. set (bad := inconsistent _ _ || _). cbv zeta.
  destruct bad.
  { change (is_faulted (state_ (fault _ _))) with true. constructor; cbn; try done.
    right. right. split; [done|]. by destruct (error_ p1). }
  destruct p1 as [se nx hw cbs ad bk ms en st er cb la nv pe sd ii]. cbn in K1, K2, K3, K4, K5.
  rewrite Hlive, Hcb in *. subst cb cbs sd se. unfold set_field. cbn.
  destruct K5 as [[-> K6]|[-> K6]]; [|by constructor; cbn; auto].
  change (is_faulted Live) with false. change (bool_decide (Live = Recovering)) with false. cbn.
  change (bool_decide (Live = Live)) with true. cbn.
  destruct pe; cbn; change (is_faulted Live) with false.
  - constructor; cbn; try congruence. right. left. split_and!; [done..|]. by eexists.
  - destruct K6 as [|K6]; [done|]. constructor; cbn; try congruence. by left.
Qed.
End quiet.

(** ** The session *)

Section session.
Context (locator : Z) (b0 : UftOrderBookPipeline.Book).
Import UftOrderBookPipeline.

(** The strategy saw this book last. *)
Definition views (v : Strategy.t) (b : Book) : Prop :=
  Strategy.bid v = DensePriceOrderBook.best_bid b /\ Strategy.ask v = DensePriceOrderBook.best_ask b /\
  Strategy.bid_quantity v = DensePriceOrderBook.level_quantity b Buy (DensePriceOrderBook.best_bid b) /\
  Strategy.ask_quantity v = DensePriceOrderBook.level_quantity b Sell (DensePriceOrderBook.best_ask b).

Record replaying (s : UftOrderBookReplay.t) (taken : list (Z * list Z)) : Prop := {
  rep_reached : reached locator 1 (pipeline s) taken;
  rep_live : state_ (pipeline s) = Live;
  rep_started : started_ (pipeline s) = true;
  rep_callback : callback_ (pipeline s) = Some (fun _ => []);
  rep_count : Strategy.callbacks (strategy s) = callbacks_ (pipeline s);
  rep_bound : 0 <= callbacks_ (pipeline s) <= Z.of_nat (length taken);
  rep_view : callbacks_ (pipeline s) = 0 /\ book_ (pipeline s) = b0 \/
    0 < callbacks_ (pipeline s) /\ views (strategy s) (book_ (pipeline s))
}.

Lemma session_visit_replaying s taken m size :
  replaying s taken -> Forall is_byte m ->
  match visit s (m, size) with
  | inl s' => replaying s' (taken ++ [(next_ (pipeline s), take (Z.to_nat size) m)])
  | inr e => exists reason, e = feed_refused (Some reason)
  end.
Proof.
  intros [Hr Hlive Hst Hcb Hn Hb Hv] Hm. pose proof (reached_wf _ _ _ _ Hr) as Hwf.
  pose proof (wf_next _ _ _ Hwf) as Hnext.
  assert (call_ok (IngestCall (session_ (pipeline s)) (next_ (pipeline s)) (Some m) size)) as Hok by (split; [lia|done]).
  pose proof (call_reached locator 1 (pipeline s) taken _ Hr Hok) as Hreach.
  pose proof (ingest_spec _ _ _ _ _ _ _ Hwf Hok) as Hspec.
  pose proof (ingest_quiet (pipeline s) m size Hlive Hst (wf_idle _ _ _ Hwf) Hcb) as Hq.
  unfold pipeline_call in Hreach. unfold visit, session, next_sequence.
  destruct (ingest _ _ _ _ _) as [[p' result] calls]. destruct Hq as [Q1 Q2 Q3 Q4].
  destruct Hspec as [Href|(bytes & _ & _ & _ & Hadv)].
  - assert (result <> Applied) as Hne by apply Href.
    destruct Q4 as [[? _]|[[? _]|[_ [reason Hreason]]]]; [done..|]. rewrite bool_decide_false by done.
    exists reason. by rewrite <- Hreason.
  - assert (next_ p' = next_ (pipeline s) + 1) as Hn' by apply Hadv.
    destruct (Z.eqb_spec (next_ p') (next_ (pipeline s))); [lia|]. destruct Hreach as (Hreach & _).
    destruct Q4 as [(-> & L & -> & C & B)|[(-> & L & C & c & -> & B)|[Hne [reason Hreason]]]].
    + rewrite bool_decide_true by done.
      constructor; cbn; rewrite ?C, ?B; try congruence; rewrite ?length_app; done || lia.
    + rewrite bool_decide_true by done.
      assert (incr (callbacks_ (pipeline s)) = callbacks_ (pipeline s) + 1) as Hi.
      { pose proof (reached_next _ _ _ _ Hr). unfold incr. rewrite wrap_small; lia. }
      rewrite Hi in C.
      constructor; cbn; rewrite ?C, ?B; try congruence; [rewrite length_app; cbn; lia|].
      right. split; [lia|]. unfold views, Strategy.on_book. cbn. by rewrite B.
    + rewrite bool_decide_false by done. exists reason. by rewrite <- Hreason.
Qed.

Lemma ingest_within p session sequence m size :
  ingest p session sequence (Some (take (Z.to_nat size) m)) size = ingest p session sequence (Some m) size.
Proof.
  unfold ingest. destruct (_ || _); [done|]. destruct (_ <? _); [done|]. destruct (_ =? u64_max); [done|].
  destruct (_ <? _); [done|]. destruct (Z.ltb_spec size 11); [done|]. rewrite byte_at_take by lia.
  destruct (_ || _); [done|]. by rewrite candidate_within.
Qed.

Lemma session_visits_shown s calls : visit_all s (map shown calls) = visit_all s calls.
Proof.
  revert s. induction calls as [|[m size] calls IH]; intros s; cbn [map visit_all]; [done|].
  assert (visit s (shown (m, size)) = visit s (m, size)) as ->.
  { unfold shown, visit. cbn [fst snd]. by rewrite ingest_within. }
  destruct (visit s (m, size)); [apply IH|done].
Qed.

(** All records are taken, or the feed refuses the first that is not. *)
Lemma session_visits_replaying s taken records :
  replaying s taken -> Forall record_ok records ->
  match visit_all s (map sized records) with
  | inl s' => exists taken', replaying s' (taken ++ taken') /\ map snd taken' = records
  | inr e => exists reason, e = feed_refused (Some reason)
  end.
Proof.
  intros Hs Hok. revert s taken Hs. induction Hok as [|m records [_ Hm] _ IH]; intros s taken Hs; cbn [map visit_all].
  { exists []. by rewrite app_nil_r. }
  pose proof (session_visit_replaying s taken m (alen m) Hs Hm) as Hv. change (sized m) with (m, alen m).
  destruct (visit s (m, alen m)) as [s1|e]; [|done]. specialize (IH s1 _ Hv).
  destruct (visit_all s1 (map sized records)) as [s2|e]; [|done].
  destruct IH as (taken' & H & E). exists ((next_ (pipeline s), take (Z.to_nat (alen m)) m) :: taken').
  rewrite <- app_assoc in H. split; [exact H|]. cbn [map snd]. f_equal; [|done].
  apply take_ge. unfold alen. lia.
Qed.
End session.

(** ** The start *)

Lemma register_keeps e iid code lo hi tick :
  let e' := (UftMarketDataEngine.register_instrument 1 e iid code lo hi tick).1 in
  UftMarketDataEngine.strategies_ e' = UftMarketDataEngine.strategies_ e /\
  UftMarketDataEngine.configuration_frozen_ e' = UftMarketDataEngine.configuration_frozen_ e.
Proof. unfold UftMarketDataEngine.register_instrument. repeat (case_match; simplify_eq; try done). Qed.

Section start.
Import UftOrderBookPipeline.
Context (session : string) (first locator orders matches minimum maximum tick : Z) (p : UftOrderBookPipeline.t).
Hypothesis Hmake : make session first locator orders matches minimum maximum tick = Some p.

Lemma make_engine :
  UftMarketDataEngine.strategies_ (UftBookMarketDataEngine.base (engine_ p)) =
    UftMarketDataEngine.strategies_ (UftMarketDataEngine.make 1 1) /\
  UftMarketDataEngine.configuration_frozen_ (UftBookMarketDataEngine.base (engine_ p)) = false /\
  callbacks_ p = 0 /\ started_ p = false /\ state_ p = Live.
Proof.
  unfold make in Hmake. destruct (checked_orders orders); [|done]. cbn [mbind option_bind] in Hmake.
  destruct (NasdaqItchUftAdapter.make _ _ _ _); [|done]. cbn [mbind option_bind] in Hmake.
  destruct (levels _ _ _); [|done]. cbn [mbind option_bind] in Hmake.
  destruct (DensePriceOrderBook.make _ _ _ _); [|done]. cbn [mbind option_bind] in Hmake.
  destruct (FixedHashTable.make _); [|done]. cbn [mbind option_bind] in Hmake.
  destruct (_ || _); [done|].
  pose proof (register_keeps (UftMarketDataEngine.make 1 1) 0 (Some book_code) minimum maximum tick) as [Hs Hf].
  change (UftBookMarketDataEngine.base (UftBookMarketDataEngine.make 1 1)) with (UftMarketDataEngine.make 1 1) in Hmake.
  destruct (UftMarketDataEngine.register_instrument 1 _ 0 _ minimum maximum tick) as [base ok]. cbn [fst] in Hs, Hf.
  unfold UftBookMarketDataEngine.register_book in Hmake.
  repeat (case_match; simplify_eq; try done); cbn; by rewrite Hs, Hf.
Qed.

Lemma start_runs f :
  let r := start p (Some 0) (Some f) in
  r.2 = true /\ started_ r.1 = true /\ callback_ r.1 = Some f /\ callbacks_ r.1 = 0 /\ state_ r.1 = Live /\
  book_ r.1 = book_ p /\ adapter_ r.1 = adapter_ p.
Proof.
  destruct make_engine as (Hs & Hf & Hc & Hst & Hl). unfold start. rewrite Hst. cbn [orb].
  rewrite bool_decide_false by done. unfold UftMarketDataEngine.start.
  change (engine_ (p <| callback_ := Some f |>)) with (engine_ p).
  set (e := UftBookMarketDataEngine.base (engine_ p)) in *. clearbody e. destruct e as [slots strategies frozen running].
  cbn in Hs, Hf. subst strategies frozen. change (seqZ 0 1) with [0]. cbn. by split_and!.
Qed.
End start.

(** ** The outcome *)

(** A fresh pipeline, started, and its book. *)
Lemma started_replaying locator minimum maximum tick orders matches p :
  UftOrderBookPipeline.make "FILESESSION" 1 locator orders matches minimum maximum tick = Some p ->
  0 <= orders < 2 ^ 64 -> 0 <= matches < 2 ^ 64 -> maximum < 2 ^ 63 ->
  let r := UftOrderBookPipeline.start p (Some 0) (Some (fun _ => [])) in
  r.2 = true /\ observed (UftOrderBookPipeline.book_ p) [] /\
  replaying locator (UftOrderBookPipeline.book_ p) (UftOrderBookReplay.mk r.1 Strategy.initial) [].
Proof.
  intros Hm Ho Hmm Hmax r.
  pose proof (fresh_reached _ _ _ _ _ _ _ _ _ Hm Ho Hmm ltac:(lia) Hmax) as Hr.
  destruct (start_runs _ _ _ _ _ _ _ _ p Hm (fun _ => [])) as (H1 & H2 & H3 & H4 & H5 & H6 & _).
  destruct (make_engine _ _ _ _ _ _ _ _ p Hm) as (_ & _ & _ & _ & Hlive).
  pose proof (call_reached _ _ _ _ (StartCall (Some 0) (Some (fun _ => []))) Hr I) as (Hr' & _).
  cbn [app] in Hr'. fold r in Hr'.
  change (UftOrderBookPipeline.start p (Some 0) (Some (fun _ => []))) with r in H1, H2, H3, H4, H5, H6. clearbody r. split_and!; [done| |].
  - destruct (wf_book _ _ _ (reached_wf _ _ _ _ Hr)) as [Hf|[Hmir _]]; [congruence|]. by apply represents_observed, Hmir.
  - constructor; cbn; rewrite ?H4; done || by left.
Qed.

(** The check finds what the strategy saw in the book. *)
Lemma check_replaying locator b0 s taken scanned :
  replaying locator b0 s taken -> Z.of_nat (length taken) < 2 ^ 64 ->
  check s scanned =
    if UftOrderBookPipeline.callbacks_ (pipeline s) =? 0 then inr no_delivery
    else
      let b := UftOrderBookPipeline.book (pipeline s) in
      inl (mkPassed (FileScanResult.messages scanned) (UftOrderBookPipeline.callbacks_ (pipeline s))
        (DensePriceOrderBook.active_orders b) (DensePriceOrderBook.best_bid b) (DensePriceOrderBook.best_ask b)
        (UftOrderBookPipeline.net_printed_volume (pipeline s))).
Proof.
  intros [_ _ _ _ Hn Hb Hv] _. unfold check, UftOrderBookPipeline.strategy_callbacks, UftOrderBookPipeline.book.
  rewrite Hn, Z.eqb_refl. cbn [negb]. rewrite orb_false_r.
  destruct (Z.eqb_spec (UftOrderBookPipeline.callbacks_ (pipeline s)) 0); [done|].
  destruct Hv as [[? _]|(_ & -> & -> & -> & ->)]; [done|]. by rewrite !Z.eqb_refl.
Qed.

(** What an outcome says of the records. *)
Definition explains (locator : Z) (records : list (list Z)) (ending : Ending) (constructed : bool)
    (outcome : Passed + Failure) : Prop :=
  match outcome with
  | inl passed =>
      let m := book_after locator records in
      ending = Clean /\ messages passed = alen records /\ 0 < book_callbacks passed <= alen records /\
      active_orders passed = alen m /\ best_bid passed = default 0 (BookSpec.best_price m Buy) /\
      best_ask passed = default 0 (BookSpec.best_price m Sell) /\ 0 <= net_printed_volume passed < 2 ^ 64
  | inr invalid_pipeline => constructed = false
  | inr (feed_refused (Some _)) => records <> []
  | inr (scan_threw e) => e = read_failed \/ ending <> Clean
  | inr no_delivery => ending = Clean /\ book_after locator records = []
  | _ => False
  end.

(** C38: a replay explains itself. The tool always ends. When it passes, the file
    is well framed and the numbers of messages and of active orders and the best
    prices it prints are those of the price-time replay of the file; at least one
    callback was made and at most one for each message, and the printed volume
    has not wrapped.
    When it fails, the pipeline could not be built, the file is not well framed
    or could not be read, the feed refused a message and gives its reason, or no
    message reached the book, which is empty. The comparison of what the strategy
    saw last with the book at the end never fails, nor do the start and the
    comparison of the numbers of calls. *)
Theorem session_replay_outcome {F} `{PosixFileLaws F} fuel f locator minimum maximum tick orders matches :
  Forall is_byte (unread f) -> alen (unread f) < 2 ^ 62 -> (enough f <= fuel)%nat ->
  0 <= orders < 2 ^ 64 -> 0 <= matches < 2 ^ 64 -> maximum < 2 ^ 63 ->
  exists outcome, replay fuel (Some f) locator minimum maximum tick orders matches = Some outcome /\
    explains locator (unframe (unread f)).1 (unframe (unread f)).2
      (bool_decide (is_Some (UftOrderBookPipeline.make "FILESESSION" 1 locator orders matches minimum maximum tick)))
      outcome.
Proof.
  intros Hb Hlen Hfuel Ho Hmm Hmax. unfold replay.
  destruct (UftOrderBookPipeline.make _ _ _ _ _ _ _ _) as [p|] eqn:Em.
  2: { by eexists. }
  destruct (started_replaying _ _ _ _ _ _ p Em Ho Hmm Hmax) as (Hstart & Hb0 & Hrep).
  destruct (UftOrderBookPipeline.start _ _ _) as [p1 started]. cbn [fst snd] in *. subst started. cbn [negb].
  destruct (scan_ok fuel f Hb ltac:(lia) Hfuel) as (calls & ending & -> & Hs). cbn [mbind option_bind].
  unfold scanned in Hs. destruct (unframe (unread f)) as [records e] eqn:E. cbn [fst snd].
  pose proof (unframe_records _ _ _ Hb E) as [Hok Hnum].
  eexists. split; [reflexivity|]. rewrite <- session_visits_shown.
  destruct Hs as [[-> [k Hpre]]|[-> ->]].
  - pose proof (session_visits_replaying locator _ _ [] (take (length calls) records) Hrep ltac:(by apply Forall_take)) as Hv.
    assert (map shown calls = map sized (take (length calls) records)) as ->.
    { apply (f_equal (take (length calls))) in Hpre. rewrite firstn_map in Hpre. rewrite Hpre.
      symmetry. apply take_app_length'. by rewrite length_map. }
    destruct (visit_all _ _) eqn:Ev; [by left|]. destruct Hv as [reason ->]. cbn. intros ->. by rewrite take_nil in Ev.
  - pose proof (session_visits_replaying locator _ _ [] records Hrep Hok) as Hv.
    destruct (visit_all _ (map sized records)) as [s|e'] eqn:Ev.
    2: { destruct Hv as [reason ->]. cbn. intros ->. by cbn in Ev. }
    destruct Hv as (taken & Hs & Htaken). cbn [app] in Hs.
    destruct e; cbn [finish]; try (by right). cbn.
    assert (length taken = length records) as Hcount by (by rewrite <- Htaken, length_map).
    rewrite (check_replaying _ _ _ _ _ Hs) by (rewrite Hcount; unfold alen in *; lia).
    pose proof (reached_wf _ _ _ _ (rep_reached _ _ _ _ Hs)) as Hwf. rewrite Htaken in Hwf.
    assert (observed (UftOrderBookPipeline.book (pipeline s)) (book_after locator records)) as Hobs.
    { destruct (wf_book _ _ _ Hwf) as [Hf|[Hmir _]]; [|by apply represents_observed, Hmir].
      by rewrite (rep_live _ _ _ _ Hs) in Hf. }
    pose proof (rep_bound _ _ _ _ Hs). pose proof (volume_range _ (wf_volume _ _ _ Hwf)).
    destruct (Z.eqb_spec (UftOrderBookPipeline.callbacks_ (pipeline s)) 0) as [Hz|].
    + cbn. split; [done|]. destruct (rep_view _ _ _ _ Hs) as [[_ Hbook]|[? _]]; [|lia].
      unfold UftOrderBookPipeline.book in Hobs. rewrite Hbook in Hobs.
      pose proof (obs_active _ _ Hobs) as Ha. rewrite (obs_active _ _ Hb0) in Ha.
      destruct (book_after locator records); [done|cbn in Ha; lia].
    + cbn. split_and!; try done; try (unfold alen in *; lia).
      * exact (obs_active _ _ Hobs).
      * exact (obs_bid _ _ Hobs).
      * exact (obs_ask _ _ Hobs).
      * unfold UftOrderBookPipeline.net_printed_volume. lia.
      * unfold UftOrderBookPipeline.net_printed_volume. lia.
Qed.

(** The numbers of the command line. A text is accepted exactly when it is a
    decimal numeral, without sign or space, of a value between 1 and the
    largest 64-bit number, and is read as that value; in particular a printed
    number is read back. *)
Theorem number_reads_decimal text n :
  (number text = Some n <->
   text <> [] /\ Forall (fun c => is_digit c = true) text /\ n = numeral (rev text) /\ 1 <= n <= u64_max) /\
  (1 <= n <= u64_max -> number (to_text n) = Some n).
Proof.
  split; [split|].
  - unfold number, from_chars. destruct text as [|c text]; [done|]. destruct (is_digit c); [|done].
    destruct (scan_digits 0 (c :: text)) as [v rest] eqn:E. destruct (Z.leb_spec v u64_max); [|done].
    destruct rest; [|done]. destruct (Z.eqb_spec v 0); [done|]. intros [= <-].
    apply scan_digits_all in E as [Hd Hv]; [|done]. rewrite Z.mul_0_l, Z.add_0_l in Hv.
    split_and!; try done. enough (0 <= v) by lia. rewrite Hv. by apply numeral_nonneg, Forall_rev.
  - intros (Hne & Hd & -> & Hr). unfold number, from_chars.
    pose proof (scan_digits_ok (rev text) 0 [] ltac:(by apply Forall_rev) ltac:(done)) as Hs.
    rewrite rev_involutive, app_nil_r, Z.mul_0_l, Z.add_0_l in Hs. cbn [scan_digits] in Hs.
    destruct text as [|c text]; [done|]. pose proof Hd as [Hc _]%Forall_cons. rewrite Hc, Hs.
    destruct (Z.leb_spec (numeral (rev (c :: text))) u64_max); [|lia].
    destruct (Z.eqb_spec (numeral (rev (c :: text))) 0); [lia|done].
  - intros Hn. unfold number. rewrite from_chars_to_text by lia. by destruct (Z.eqb_spec n 0); [lia|].
Qed.

(** ** Witnesses *)

(** Two orders, one of which is executed in part, and a message of another
    instrument. *)
Definition session_file : Script :=
  mkScript (frame [add_message 5; foreign_message 3; add_message 6; execute_message 5 9]) [Chunk 40; Signal; Chunk 9].

Lemma session_replay_outcome_witness :
  length (book_after 7 (unframe (unread session_file)).1) = 2%nat /\
  exists outcome, replay 500 (Some session_file) 7 90 110 1 4 4 = Some outcome /\
    explains 7 (unframe (unread session_file)).1 (unframe (unread session_file)).2
      (bool_decide (is_Some (UftOrderBookPipeline.make "FILESESSION" 1 7 4 4 90 110 1))) outcome.
Proof.
  split; [by vm_compute|].
  apply (session_replay_outcome 500 session_file 7 90 110 1 4 4); [|by vm_compute| |lia|lia|lia].
  - apply bytes_ok. by vm_compute.
  - apply Nat.leb_le. by vm_compute.
Defined.

(** "42" *)
Lemma number_reads_decimal_witness : number [52; 50] = Some 42 /\ number (to_text 42) = Some 42.
Proof.
  destruct (number_reads_decimal [52; 50] 42) as [Hread Hwrite]. split; [|by apply Hwrite].
  apply Hread. split_and!; [done|by repeat constructor|done..].
Defined.
