(* ===== verification/FormalBench.v ===== *)
(** * integration/wondertrader/ParserITCH/ParserITCHUftFormalBench.cpp

    The formal benchmark: one instrument of a file is kept in memory and
    replayed through the WonderTrader adapter and, by way of the opaque seam,
    through the UFT adapter; before and after measuring, the program checks that
    both told their strategies the same.  The WonderTrader framework between
    parser and strategy is not part of the repository: [route] is what it does
    with an event, the calls of the strategy it makes.  Cycle counters, the
    running processor and the steady clock are readings handed in. *)

From Stdlib Require Import Ascii String.
From stdpp Require Import sorting.
From S2P Require Import Prelude Itch50 Binary64 WtsTypes WtsAdapter UftTypes UftAdapter Engine.
From S2P Require Import HistoricalFile QUftOpaque Numerals.
Import itch50.

Module ParserITCHUftFormalBench.

Definition kMaximumMessageSize : Z := 64.
Definition kMinimumThroughputSeconds : Double.t := Double.of_Z 5.

(** The exceptions of the program; each ends it with exit code 1. *)
Inductive Exception :=
  | scan_threw (e : ScanError)
  | message_exceeds_corpus_slot
  | symbol_not_found
  | invalid_integer_argument
  | invalid_path_order
  | sched_getcpu_failed
  | wondertrader_warmup_failed
  | qtrader_creation_failed
  | qtrader_warmup_failed
  | wondertrader_sustained_failed
  | qtrader_sustained_failed.

(** ** The corpus *)

Module RawMessage.
Record t := mk { size : Z; bytes : list Z }.
End RawMessage.

Module Corpus.
Record t := mk { locator : Z; messages : list RawMessage.t }.
#[global] Instance eta_corpus : Eta t := fun c => mk (locator c) (messages c).
End Corpus.
Import (hints) Corpus.

(** The loop that drops trailing spaces. *)
Fixpoint trimmed_length (bytes : list Z) (length : nat) : nat :=
  match length with
  | O => O
  | S length' => if byte_at bytes (Z.of_nat length') =? chr " " then trimmed_length bytes length' else length
  end.

Definition trimmed_symbol (bytes : list Z) : list Z := take (trimmed_length bytes 8) bytes.

(** The slot a message is copied to. *)
Definition raw_message (message : list Z) (size : Z) : RawMessage.t :=
  RawMessage.mk (wrap 8 size)
    (take (Z.to_nat size) message ++ replicate (Z.to_nat (kMaximumMessageSize - size)) 0).

(** The callback of the scan; [None] when it throws. *)
Definition keep (symbol : list Z) (corpus : Corpus.t) (delivered : list Z * Z) : option Corpus.t :=
  let '(message, size) := delivered in
  let corpus :=
    if (byte_at message 0 =? chr "R") && (size =? 39) &&
       bool_decide (trimmed_symbol (message +! 11) = symbol)
    then corpus <| Corpus.locator := read_u16 (message +! 1) |>
    else corpus in
  if negb (Corpus.locator corpus =? 0) && (11 <=? size) &&
     (read_u16 (message +! 1) =? Corpus.locator corpus)
  then
    if kMaximumMessageSize <? size then None
    else Some (corpus <| Corpus.messages ::= fun l => l ++ [raw_message message size] |>)
  else Some corpus.

Fixpoint keep_all (symbol : list Z) (corpus : Corpus.t) (delivered : list (list Z * Z)) : option Corpus.t :=
  match delivered with
  | [] => Some corpus
  | d :: delivered' => corpus ← keep symbol corpus d; keep_all symbol corpus delivered'
  end.

(** [None]: the fuel of the scan ran out. *)
Definition load_corpus {F} `{PosixFile F} (fuel : nat) (opened : option F) (symbol : list Z) :
    option (Corpus.t + Exception) :=
  '(delivered, ending) ← scan_historical_file fuel opened;
  Some match keep_all symbol (Corpus.mk 0 []) delivered, ending with
       | None, _ => inr message_exceeds_corpus_slot
       | Some _, inr e => inr (scan_threw e)
       | Some corpus, inl _ =>
           if (Corpus.locator corpus =? 0) || bool_decide (Corpus.messages corpus = [])
           then inr symbol_not_found else inl corpus
       end.

Definition action_time (timestamp_ns : Z) : Z :=
  let milliseconds := timestamp_ns / 1000000 in
  u32 (u64 (u64 (milliseconds / 3600000 * 10000000) + (milliseconds / 60000) mod 60 * 100000 +
    (milliseconds / 1000) mod 60 * 1000 + milliseconds mod 1000)).

(** ** Latency samples *)

(** The element of a sorted vector; [None] outside of it. *)
Definition percentile (sorted : list Z) (probability : Double.t) : option Z :=
  let index := Double.ceil (Double.mul probability (Double.of_Z (alen sorted))) - 1 in
  if index <? 0 then None else sorted !! Z.to_nat (Z.min index (u64 (alen sorted - 1))).

(** The cycles [summarize] picks: the percentiles .50, .99, .999 and the last. *)
Definition summarize (samples : list Z) (overhead : Z) : option (list Z) :=
  let samples := map (fun sample => if overhead <? sample then sample - overhead else 0) samples in
  let sorted := merge_sort Z.le samples in
  p50 ← percentile sorted (Double.div (Double.of_Z 50) (Double.of_Z 100));
  p99 ← percentile sorted (Double.div (Double.of_Z 99) (Double.of_Z 100));
  p999 ← percentile sorted (Double.div (Double.of_Z 999) (Double.of_Z 1000));
  back ← last sorted;
  Some [p50; p99; p999; back].

(** ** What the strategies were told *)

Module SemanticFingerprint.
Record t := mk { digest_ : Z; fields_ : Z }.
#[global] Instance eta_semantic : Eta t := fun f => mk (digest_ f) (fields_ f).

Definition make : t := mk 1469598103934665603 0.
Definition reset (f : t) : t := (f <| digest_ := 1469598103934665603 |>) <| fields_ := 0 |>.
Definition digest (f : t) : Z := digest_ f.
Definition fields (f : t) : Z := fields_ f.

Definition add (f : t) (value : Z) : t :=
  let f := f <| digest_ ::= fun d => Z.lxor d (u64 (u64 (value + 0x9e3779b97f4a7c15) + fields_ f)) |> in
  let f := f <| digest_ ::= fun d => u64 (d * 1099511628211) |> in
  let f := f <| digest_ ::= fun d => Z.lxor d (Z.shiftr d 32) |> in
  f <| fields_ ::= incr |>.

Definition side_code (side : Z) : Z := if side =? BDT_Buy then 1 else if side =? BDT_Sell then 2 else 0.
Definition uft_side_code (side : UftSide.t) : Z :=
  match side with UftSide.Buy => 1 | UftSide.Sell => 2 | UftSide.Unknown => 0 end.

(** The overloads for the WonderTrader structures. *)
Definition add_wts_order (f : t) (event : WTSOrdDtlStruct.t) : t :=
  let f := add f 1 in
  let f := add f (WTSOrdDtlStruct.index event) in
  let f := add f (u64 (Double.to_ticks (WTSOrdDtlStruct.price event))) in
  let f := add f (WTSOrdDtlStruct.volume event) in
  let f := add f (side_code (WTSOrdDtlStruct.side event)) in
  let f := add f (if WTSOrdDtlStruct.otype event =? ODT_LimitPrice then 1 else 0) in
  add f (WTSOrdDtlStruct.action_time event).

Definition add_wts_transaction (f : t) (event : WTSTransStruct.t) : t :=
  let ttype := WTSTransStruct.ttype event in
  let f := add f 2 in
  let f := add f (u64 (WTSTransStruct.index event)) in
  let f := add f (u64 (Double.to_ticks (WTSTransStruct.price event))) in
  let f := add f (WTSTransStruct.volume event) in
  let f := add f (side_code (WTSTransStruct.side event)) in
  let f := add f (if ttype =? TT_Match then 1 else if ttype =? TT_Cancel then 2
    else if ttype =? kWtsTradeBust then 3 else 0) in
  let f := add f (u64 (WTSTransStruct.askorder event)) in
  let f := add f (u64 (WTSTransStruct.bidorder event)) in
  add f (WTSTransStruct.action_time event).

(** The overloads for the UFT events. *)
Definition add_uft_order (f : t) (event : UftOrderDetail.t) : t :=
  let f := add f 1 in
  let f := add f (UftOrderDetail.order_id event) in
  let f := add f (u64 (UftOrderDetail.price_ticks event)) in
  let f := add f (UftOrderDetail.quantity event) in
  let f := add f (uft_side_code (UftOrderDetail.side event)) in
  let f := add f (match UftOrderDetail.order_type event with UftOrderType.Limit => 1 | _ => 0 end) in
  add f (action_time (UftOrderDetail.exchange_time_ns event)).

Definition add_uft_transaction (f : t) (event : UftTransaction.t) : t :=
  let f := add f 2 in
  let f := add f (UftTransaction.transaction_id event) in
  let f := add f (u64 (UftTransaction.price_ticks event)) in
  let f := add f (UftTransaction.quantity event) in
  let f := add f (uft_side_code (UftTransaction.side event)) in
  let f := add f (match UftTransaction.transaction_type event with
    | UftTransactionType.Trade => 1 | UftTransactionType.Cancel => 2
    | UftTransactionType.TradeBust => 3 | UftTransactionType.Unknown => 0 end) in
  let f := add f (UftTransaction.ask_order_id event) in
  let f := add f (UftTransaction.bid_order_id event) in
  add f (action_time (UftTransaction.exchange_time_ns event)).
End SemanticFingerprint.
Import (hints) SemanticFingerprint.

Module StrategyAudit.
Record t := mk {
  fingerprint : SemanticFingerprint.t;
  order_callbacks : Z;
  transaction_callbacks : Z;
  first_arrival_cycles : Z;
  consumed : Z;
  audit_enabled : bool;
  latency_probe_enabled : bool;
  have_arrival : bool
}.
#[global] Instance eta_audit : Eta t := fun a =>
  mk (fingerprint a) (order_callbacks a) (transaction_callbacks a) (first_arrival_cycles a) (consumed a)
    (audit_enabled a) (latency_probe_enabled a) (have_arrival a).

Definition make : t := mk SemanticFingerprint.make 0 0 0 0 true false false.

Definition reset (enable_audit enable_latency_probe : bool) (a : t) : t :=
  mk (SemanticFingerprint.reset (fingerprint a)) 0 0 0 0 enable_audit enable_latency_probe false.

Definition begin_message (a : t) : t := a <| have_arrival := false |>.

(** [cycles] is what [tsc_end] returns when it is called. *)
Definition record_arrival (cycles : Z) (a : t) : t :=
  if latency_probe_enabled a && negb (have_arrival a)
  then (a <| first_arrival_cycles := cycles |>) <| have_arrival := true |> else a.

Definition callbacks (a : t) : Z := u64 (order_callbacks a + transaction_callbacks a).
End StrategyAudit.
Import (hints) StrategyAudit.

(** What the callbacks of both strategies do with the audit: the fingerprint
    after the event, and the number [consumed] takes in. *)
Definition order_callback (cycles : Z) (a : StrategyAudit.t) (after : SemanticFingerprint.t) (index : Z) :
    StrategyAudit.t :=
  let a := StrategyAudit.record_arrival cycles a in
  let a := if StrategyAudit.audit_enabled a then a <| StrategyAudit.fingerprint := after |> else a in
  let a := a <| StrategyAudit.consumed ::= fun c =>
    Z.lxor c (u64 (index + StrategyAudit.order_callbacks a)) |> in
  a <| StrategyAudit.order_callbacks ::= incr |>.

Definition transaction_callback (cycles : Z) (a : StrategyAudit.t) (after : SemanticFingerprint.t) (index : Z) :
    StrategyAudit.t :=
  let a := StrategyAudit.record_arrival cycles a in
  let a := if StrategyAudit.audit_enabled a then a <| StrategyAudit.fingerprint := after |> else a in
  let a := a <| StrategyAudit.consumed ::= fun c =>
    Z.lxor c (u64 (index + StrategyAudit.transaction_callbacks a)) |> in
  a <| StrategyAudit.transaction_callbacks ::= incr |>.

(** [ChainStrategy::on_order_detail] and [ChainStrategy::on_transaction] *)
Definition chain_callback (cycles : Z) (a : StrategyAudit.t) (call : WtsCall) : StrategyAudit.t :=
  match call with
  | on_order_detail event =>
      order_callback cycles a (SemanticFingerprint.add_wts_order (StrategyAudit.fingerprint a) event)
        (WTSOrdDtlStruct.index event)
  | on_transaction event =>
      transaction_callback cycles a (SemanticFingerprint.add_wts_transaction (StrategyAudit.fingerprint a) event)
        (u64 (WTSTransStruct.index event))
  end.

(** [QStrategy::order] and [QStrategy::transaction] *)
Definition q_callback (cycles : Z) (a : StrategyAudit.t) (call : HostCall) : StrategyAudit.t :=
  match call with
  | OrderCallback _ event =>
      order_callback cycles a (SemanticFingerprint.add_uft_order (StrategyAudit.fingerprint a) event)
        (UftOrderDetail.order_id event)
  | TransactionCallback _ event =>
      transaction_callback cycles a (SemanticFingerprint.add_uft_transaction (StrategyAudit.fingerprint a) event)
        (UftTransaction.transaction_id event)
  end.

(** ** Statistics both sides have *)

Module CommonStats.
Record t := mk {
  order_details : Z;
  transactions : Z;
  matches : Z;
  cancels : Z;
  trade_busts : Z;
  duplicate_matches : Z;
  non_printable : Z;
  broken_without_output : Z;
  unknown_broken : Z;
  errors : Z;
  peak_active_orders : Z
}.
Definition zero : t := mk 0 0 0 0 0 0 0 0 0 0 0.

Definition common_wts (value : WtsAdapterStats.t) : t :=
  mk (WtsAdapterStats.order_details value) (WtsAdapterStats.transactions value)
    (WtsAdapterStats.matches value) (WtsAdapterStats.cancels value) (WtsAdapterStats.trade_busts value)
    (WtsAdapterStats.duplicate_matches_suppressed value) (WtsAdapterStats.non_printable_suppressed value)
    (WtsAdapterStats.broken_trades_without_output value) (WtsAdapterStats.unknown_broken_trades value)
    (WtsAdapterStats.errors value) (WtsAdapterStats.peak_active_orders value).

Definition common_q (value : QUftOpaqueStats.t) : t :=
  mk (QUftOpaqueStats.order_details value) (QUftOpaqueStats.transactions value)
    (QUftOpaqueStats.matches value) (QUftOpaqueStats.cancels value) (QUftOpaqueStats.trade_busts value)
    (QUftOpaqueStats.duplicate_matches_suppressed value) (QUftOpaqueStats.non_printable_suppressed value)
    (QUftOpaqueStats.broken_trades_without_output value) (QUftOpaqueStats.unknown_broken_trades value)
    (u64 (QUftOpaqueStats.errors value + QUftOpaqueStats.capacity_exhaustions value))
    (QUftOpaqueStats.peak_active_orders value).

Definition same (left right : t) : bool :=
  (order_details left =? order_details right) && (transactions left =? transactions right) &&
  (matches left =? matches right) && (cancels left =? cancels right) &&
  (trade_busts left =? trade_busts right) && (duplicate_matches left =? duplicate_matches right) &&
  (non_printable left =? non_printable right) &&
  (broken_without_output left =? broken_without_output right) &&
  (unknown_broken left =? unknown_broken right) && (errors left =? errors right) &&
  (peak_active_orders left =? peak_active_orders right).

(** [order_details + transactions] *)
Definition outputs (stats : t) : Z := u64 (order_details stats + transactions stats).
End CommonStats.
Import (hints) CommonStats.

(** ** The Qtrader side *)

(** A [QUftOpaque] runner with the [QStrategy] its callbacks are bound to. *)
Module QRun.
Record t := mk { runner : option QUftOpaque.t; audit : StrategyAudit.t }.
#[global] Instance eta_qrun : Eta t := fun q => mk (runner q) (audit q).
End QRun.
Import (hints) QRun.

(** [quft_message] and the callbacks it makes. *)
Definition q_message (cycles : Z) (q : QRun.t) (message : RawMessage.t) : QRun.t :=
  let '(runner, calls) := QUftOpaque.quft_message (QRun.runner q) (Some (RawMessage.bytes message))
    (RawMessage.size message) in
  QRun.mk runner (fold_left (q_callback cycles) calls (QRun.audit q)).

Module QFactory.
Record t := mk {
  locator : Z;
  instrument_id : Z;
  strategy_id : Z;
  standard_code : list Z;
  order_capacity : Z;
  match_capacity : Z;
  strategy : Z
}.

Definition create (f : t) : option QUftOpaque.t :=
  QUftOpaque.quft_create (locator f) (instrument_id f) (strategy_id f) (Some (standard_code f))
    (order_capacity f) (match_capacity f) (Some (strategy f)) true true.
End QFactory.

(** ** Timed replays *)

(** What the cycle counters return around a message: before it, at the first
    callback, after it and with the processor then. *)
Module Reading.
Record t := mk { begin_cycles : Z; arrival_cycles : Z; end_cycles : Z; end_cpu : Z }.
End Reading.

Module TimedResult.
Record t := mk {
  all_messages : list Z;
  callback_arrivals : list Z;
  stats : CommonStats.t;
  migrations : Z;
  active_orders : Z
}.
#[global] Instance eta_timed : Eta t := fun r =>
  mk (all_messages r) (callback_arrivals r) (stats r) (migrations r) (active_orders r).
Definition zero : t := mk [] [] CommonStats.zero 0 0.
End TimedResult.
Import (hints) TimedResult.

Section timed.
Context {State : Type} (process : Z -> State -> RawMessage.t -> State).
Context (callback_count : State -> Z) (begin_message : State -> State) (arrival : State -> Z).
Context (stats : State -> CommonStats.t) (active : State -> Z) (expected_cpu : Z) (clock : nat -> Reading.t).

Fixpoint replay_timed_loop (i : nat) (messages : list RawMessage.t) (state : State)
    (result : TimedResult.t) : State * TimedResult.t :=
  match messages with
  | [] => (state, result)
  | message :: messages' =>
      let before := callback_count state in
      let state := begin_message state in
      let now := clock i in
      let state := process (Reading.arrival_cycles now) state message in
      let result := result <| TimedResult.all_messages ::=
        fun l => l ++ [u64 (Reading.end_cycles now - Reading.begin_cycles now)] |> in
      let result :=
        if negb (callback_count state =? before)
        then result <| TimedResult.callback_arrivals ::=
          fun l => l ++ [u64 (arrival state - Reading.begin_cycles now)] |>
        else result in
      let result :=
        if negb (Reading.end_cpu now =? expected_cpu)
        then result <| TimedResult.migrations ::= incr |> else result in
      replay_timed_loop (S i) messages' state result
  end.

Definition replay_timed (messages : list RawMessage.t) (state : State) : State * TimedResult.t :=
  let '(state, result) := replay_timed_loop 0 messages state TimedResult.zero in
  (state, (result <| TimedResult.stats := stats state |>) <| TimedResult.active_orders := active state |>).
End timed.

(** ** Sustained replays *)

Module ThroughputResult.
Record t := mk {
  seconds : Double.t;
  passes : Z;
  inputs : Z;
  outputs : Z;
  verified_callbacks : Z
}.
#[global] Instance eta_throughput : Eta t := fun r =>
  mk (seconds r) (passes r) (inputs r) (outputs r) (verified_callbacks r).
Definition zero : t := mk (Double.of_Z 0) 0 0 0 0.

(** A verified pass. *)
Definition count (elapsed : Double.t) (messages published calls : Z) (r : t) : t :=
  let r := r <| seconds ::= fun s => Double.add s elapsed |> in
  let r := r <| passes ::= incr |> in
  let r := r <| inputs ::= fun n => u64 (n + messages) |> in
  let r := r <| outputs ::= fun n => u64 (n + published) |> in
  r <| verified_callbacks ::= fun n => u64 (n + calls) |>.
End ThroughputResult.
Import (hints) ThroughputResult.

(** How a part of the program ends; the durations of the passes may run out
    before the five seconds are over. *)
Inductive Ending (A : Type) :=
  | Done (a : A)
  | Threw (e : Exception)
  | StillRunning.
Arguments Done {A} a.
Arguments Threw {A} e.
Arguments StillRunning {A}.

Fixpoint throughput_q (messages : list RawMessage.t) (factory : QFactory.t) (expected : CommonStats.t)
    (audit : StrategyAudit.t) (result : ThroughputResult.t) (durations : list Double.t) :
    Ending (StrategyAudit.t * ThroughputResult.t) :=
  if Double.ltb (ThroughputResult.seconds result) kMinimumThroughputSeconds then
    match durations with
    | [] => StillRunning
    | elapsed :: durations' =>
        match QFactory.create factory with
        | None => Threw qtrader_creation_failed
        | Some runner =>
            let q := fold_left (q_message 0) messages
              (QRun.mk (Some runner) (StrategyAudit.reset false false audit)) in
            let raw_stats := QUftOpaque.quft_stats (QRun.runner q) in
            let stats := CommonStats.common_q raw_stats in
            let outputs := CommonStats.outputs stats in
            let audit := QRun.audit q in
            if negb (CommonStats.same stats expected) ||
               negb (QUftOpaque.quft_active_orders (QRun.runner q) =? 0) ||
               negb (QUftOpaqueStats.order_events_delivered raw_stats =? CommonStats.order_details stats) ||
               negb (QUftOpaqueStats.transaction_events_delivered raw_stats =? CommonStats.transactions stats) ||
               negb (QUftOpaqueStats.callback_deliveries raw_stats =? outputs) ||
               negb (QUftOpaqueStats.undelivered_events raw_stats =? 0) ||
               negb (StrategyAudit.order_callbacks audit =? CommonStats.order_details stats) ||
               negb (StrategyAudit.transaction_callbacks audit =? CommonStats.transactions stats) ||
               negb (StrategyAudit.callbacks audit =? outputs)
            then Threw qtrader_sustained_failed
            else throughput_q messages factory expected audit
              (ThroughputResult.count elapsed (alen messages) outputs (StrategyAudit.callbacks audit) result)
              durations'
        end
    end
  else Done (audit, result).

(** ** The WonderTrader side *)

(** What happens around the program: the processor it runs on, whether the
    framework loaded its files and started the parser, the state it then is in,
    and what the clocks return. *)
Module Environment.
Record t (W : Type) := mk {
  cpu : Z;
  base_data_loaded : bool;
  parser_initialised : bool;
  framework : W;
  wt_clock : nat -> Reading.t;
  q_clock : nat -> Reading.t;
  empty_clock : nat -> Z;
  wt_durations : list Double.t;
  q_durations : list Double.t
}.
Arguments mk {W}.
Arguments cpu {W}.
Arguments base_data_loaded {W}.
Arguments parser_initialised {W}.
Arguments framework {W}.
Arguments wt_clock {W}.
Arguments q_clock {W}.
Arguments empty_clock {W}.
Arguments wt_durations {W}.
Arguments q_durations {W}.
End Environment.

Section bench.
Context {W : Type} (route : W -> WtsCall -> W * list WtsCall).

(** A [WonderTraderChain]: the adapter, and behind its sink the framework and
    the strategy. *)
Record WonderTraderChain := mkChain {
  chain_adapter : PsxWtsAdapter.t;
  chain_framework : W;
  chain_audit : StrategyAudit.t
}.

(** [WonderTraderSink]: the memory parser emits a copy, the framework routes it. *)
Definition emit (cycles : Z) (s : W * StrategyAudit.t) (call : WtsCall) : W * StrategyAudit.t :=
  let '(w, audit) := s in
  let '(w, callbacks) := route w call in
  (w, fold_left (chain_callback cycles) callbacks audit).

Definition wt_message (cycles : Z) (chain : WonderTraderChain) (message : RawMessage.t) : WonderTraderChain :=
  let '(adapter, calls) := PsxWtsAdapter.on_message (chain_adapter chain) (RawMessage.bytes message)
    (RawMessage.size message) in
  let '(w, audit) := fold_left (emit cycles) calls (chain_framework chain, chain_audit chain) in
  mkChain adapter w audit.

(** A new chain on the framework and the strategy, reset. *)
Definition new_chain (date : Z) (corpus : Corpus.t) (symbol : list Z) (w : W) (audit : StrategyAudit.t) :
    WonderTraderChain :=
  mkChain (PsxWtsAdapter.make date (Corpus.locator corpus) symbol) w audit.

Definition wt_stats (chain : WonderTraderChain) : CommonStats.t :=
  CommonStats.common_wts (PsxWtsAdapter.stats (chain_adapter chain)).

Fixpoint throughput_wt (corpus : Corpus.t) (date : Z) (symbol : list Z) (expected : CommonStats.t) (w : W)
    (audit : StrategyAudit.t) (result : ThroughputResult.t) (durations : list Double.t) :
    Ending (W * StrategyAudit.t * ThroughputResult.t) :=
  if Double.ltb (ThroughputResult.seconds result) kMinimumThroughputSeconds then
    match durations with
    | [] => StillRunning
    | elapsed :: durations' =>
        let chain := fold_left (wt_message 0) (Corpus.messages corpus)
          (new_chain date corpus symbol w (StrategyAudit.reset false false audit)) in
        let stats := wt_stats chain in
        let outputs := CommonStats.outputs stats in
        let audit := chain_audit chain in
        if negb (CommonStats.same stats expected) ||
           negb (PsxWtsAdapter.active_orders (chain_adapter chain) =? 0) ||
           negb (StrategyAudit.order_callbacks audit =? CommonStats.order_details stats) ||
           negb (StrategyAudit.transaction_callbacks audit =? CommonStats.transactions stats) ||
           negb (StrategyAudit.callbacks audit =? outputs)
        then Threw wondertrader_sustained_failed
        else throughput_wt corpus date symbol expected (chain_framework chain) audit
          (ThroughputResult.count elapsed (alen (Corpus.messages corpus)) outputs (StrategyAudit.callbacks audit)
            result) durations'
    end
  else Done (w, audit, result).

(** ** The program *)

Definition audit_valid (expected : CommonStats.t) (q_stats : QUftOpaqueStats.t) (q_active : Z)
    (wt q : StrategyAudit.t) : bool :=
  let expected_outputs := CommonStats.outputs expected in
  (CommonStats.errors expected =? 0) && (CommonStats.unknown_broken expected =? 0) &&
  CommonStats.same (CommonStats.common_q q_stats) expected && (q_active =? 0) &&
  (StrategyAudit.order_callbacks wt =? CommonStats.order_details expected) &&
  (StrategyAudit.transaction_callbacks wt =? CommonStats.transactions expected) &&
  (StrategyAudit.order_callbacks q =? CommonStats.order_details expected) &&
  (StrategyAudit.transaction_callbacks q =? CommonStats.transactions expected) &&
  (QUftOpaqueStats.order_events_delivered q_stats =? CommonStats.order_details expected) &&
  (QUftOpaqueStats.transaction_events_delivered q_stats =? CommonStats.transactions expected) &&
  (QUftOpaqueStats.callback_deliveries q_stats =? expected_outputs) &&
  (QUftOpaqueStats.undelivered_events q_stats =? 0) &&
  (SemanticFingerprint.fields (StrategyAudit.fingerprint wt) =?
    SemanticFingerprint.fields (StrategyAudit.fingerprint q)) &&
  (SemanticFingerprint.digest (StrategyAudit.fingerprint wt) =?
    SemanticFingerprint.digest (StrategyAudit.fingerprint q)).

(** The capacities and identifiers derived from the first replay; the strategy
    is at some address. *)
Definition q_factory (corpus : Corpus.t) (standard_code : list Z) (expected : CommonStats.t) : QFactory.t :=
  let order_capacity := Z.max 1024 (u64 (CommonStats.peak_active_orders expected * 4)) in
  let match_capacity := Z.max 1024
    (u64 (u64 (CommonStats.matches expected + CommonStats.non_printable expected) * 2)) in
  let locator := Corpus.locator corpus in
  let instrument_id := 1 + locator mod (QUftOpaque.quft_instrument_capacity - 1) in
  let strategy_id := 1 + u32 (locator * 17) mod (QUftOpaque.quft_strategy_capacity - 1) in
  QFactory.mk locator instrument_id strategy_id standard_code order_capacity match_capacity 1.

(** What the untimed audit replay leaves. *)
Record Warm := mkWarm {
  warm_framework : W;
  warm_wt : StrategyAudit.t;
  warm_q : StrategyAudit.t;
  warm_expected : CommonStats.t;
  warm_factory : QFactory.t
}.

Definition warm_up (corpus : Corpus.t) (date : Z) (symbol standard_code : list Z) (w : W) : Warm + Exception :=
  let chain := fold_left (wt_message 0) (Corpus.messages corpus)
    (new_chain date corpus symbol w (StrategyAudit.reset true false StrategyAudit.make)) in
  let expected := wt_stats chain in
  if negb (CommonStats.errors expected =? 0) ||
     negb (PsxWtsAdapter.active_orders (chain_adapter chain) =? 0)
  then inr wondertrader_warmup_failed
  else
    let factory := q_factory corpus standard_code expected in
    match QFactory.create factory with
    | None => inr qtrader_creation_failed
    | Some runner =>
        let q := fold_left (q_message 0) (Corpus.messages corpus)
          (QRun.mk (Some runner) (StrategyAudit.reset true false StrategyAudit.make)) in
        if audit_valid expected (QUftOpaque.quft_stats (QRun.runner q))
             (QUftOpaque.quft_active_orders (QRun.runner q)) (chain_audit chain) (QRun.audit q)
        then inl (mkWarm (chain_framework chain) (chain_audit chain) (QRun.audit q) expected factory)
        else inr qtrader_warmup_failed
    end.

Definition time_wt (env : Environment.t W) (corpus : Corpus.t) (date : Z) (symbol : list Z) (w : W)
    (audit : StrategyAudit.t) : WonderTraderChain * TimedResult.t :=
  replay_timed wt_message (fun c => StrategyAudit.callbacks (chain_audit c))
    (fun c => mkChain (chain_adapter c) (chain_framework c) (StrategyAudit.begin_message (chain_audit c)))
    (fun c => StrategyAudit.first_arrival_cycles (chain_audit c)) wt_stats
    (fun c => PsxWtsAdapter.active_orders (chain_adapter c)) (Environment.cpu env) (Environment.wt_clock env)
    (Corpus.messages corpus) (new_chain date corpus symbol w (StrategyAudit.reset false true audit)).

(** The statistics of the runner are read after the replay. *)
Definition time_q (env : Environment.t W) (corpus : Corpus.t) (factory : QFactory.t) (audit : StrategyAudit.t) :
    QRun.t * TimedResult.t + Exception :=
  match QFactory.create factory with
  | None => inr qtrader_creation_failed
  | Some runner =>
      inl (replay_timed q_message (fun q => StrategyAudit.callbacks (QRun.audit q))
        (fun q => q <| QRun.audit ::= StrategyAudit.begin_message |>)
        (fun q => StrategyAudit.first_arrival_cycles (QRun.audit q))
        (fun q => CommonStats.common_q (QUftOpaque.quft_stats (QRun.runner q)))
        (fun q => QUftOpaque.quft_active_orders (QRun.runner q)) (Environment.cpu env)
        (Environment.q_clock env) (Corpus.messages corpus)
        (QRun.mk (Some runner) (StrategyAudit.reset false true audit)))
  end.

Definition timed_valid (expected : CommonStats.t) (wt q : StrategyAudit.t) (wt_timed q_timed : TimedResult.t)
    (q_raw : QUftOpaqueStats.t) : bool :=
  CommonStats.same (TimedResult.stats wt_timed) (TimedResult.stats q_timed) &&
  CommonStats.same (TimedResult.stats wt_timed) expected &&
  (TimedResult.active_orders wt_timed =? 0) && (TimedResult.active_orders q_timed =? 0) &&
  (TimedResult.migrations wt_timed =? 0) && (TimedResult.migrations q_timed =? 0) &&
  (StrategyAudit.order_callbacks wt =? StrategyAudit.order_callbacks q) &&
  (StrategyAudit.transaction_callbacks wt =? StrategyAudit.transaction_callbacks q) &&
  (StrategyAudit.consumed wt =? StrategyAudit.consumed q) &&
  (QUftOpaqueStats.order_events_delivered q_raw =? CommonStats.order_details expected) &&
  (QUftOpaqueStats.transaction_events_delivered q_raw =? CommonStats.transactions expected) &&
  (QUftOpaqueStats.callback_deliveries q_raw =? CommonStats.outputs expected) &&
  (QUftOpaqueStats.undelivered_events q_raw =? 0).

(** The two timed replays do not touch each other's state, so that their order
    does not matter to it. *)
Definition timed_replays (env : Environment.t W) (corpus : Corpus.t) (date : Z) (symbol : list Z) (warm : Warm) :
    (WonderTraderChain * TimedResult.t) * (QRun.t * TimedResult.t) + Exception :=
  match time_q env corpus (warm_factory warm) (warm_q warm) with
  | inr e => inr e
  | inl q => inl (time_wt env corpus date symbol (warm_framework warm) (warm_wt warm), q)
  end.

(** The four [report_latency] calls; [None] when one reads outside its samples. *)
Definition latency_report (env : Environment.t W) (corpus : Corpus.t) (wt_timed q_timed : TimedResult.t) :
    option (list (list Z)) :=
  let empty := map (Environment.empty_clock env) (seq 0 (length (Corpus.messages corpus))) in
  overhead ← percentile (merge_sort Z.le empty) (Double.div (Double.of_Z 50) (Double.of_Z 100));
  wt_all ← summarize (TimedResult.all_messages wt_timed) overhead;
  q_all ← summarize (TimedResult.all_messages q_timed) overhead;
  wt_first ← summarize (TimedResult.callback_arrivals wt_timed) overhead;
  q_first ← summarize (TimedResult.callback_arrivals q_timed) overhead;
  Some [wt_all; q_all; wt_first; q_first].

(** Both sustained replays, in the order asked for. *)
Definition sustained (env : Environment.t W) (qwt : bool) (corpus : Corpus.t) (date : Z) (symbol : list Z)
    (factory : QFactory.t) (expected : CommonStats.t) (w : W) (wt q : StrategyAudit.t) :
    Ending (ThroughputResult.t * ThroughputResult.t) :=
  let run_q := throughput_q (Corpus.messages corpus) factory expected q ThroughputResult.zero
    (Environment.q_durations env) in
  let run_wt := throughput_wt corpus date symbol expected w wt ThroughputResult.zero
    (Environment.wt_durations env) in
  if qwt then
    match run_q with
    | Done (_, q_result) =>
        match run_wt with
        | Done (_, wt_result) => Done (wt_result, q_result)
        | Threw e => Threw e
        | StillRunning => StillRunning
        end
    | Threw e => Threw e
    | StillRunning => StillRunning
    end
  else
    match run_wt with
    | Done (_, wt_result) =>
        match run_q with
        | Done (_, q_result) => Done (wt_result, q_result)
        | Threw e => Threw e
        | StillRunning => StillRunning
        end
    | Threw e => Threw e
    | StillRunning => StillRunning
    end.

(** How the program ends: with an exit code, having read outside a vector, or
    not within the fuel of the scan or the durations given. *)
Inductive Outcome :=
  | Exit (code : Z)
  | Undefined
  | Running.

(** After the warm-up. *)
Definition measure (env : Environment.t W) (qwt : bool) (corpus : Corpus.t) (date : Z) (symbol : list Z)
    (warm : Warm) : Outcome :=
  let expected := warm_expected warm in
  match timed_replays env corpus date symbol warm with
  | inr _ => Exit 1
  | inl ((chain, wt_timed), (q, q_timed)) =>
      let valid := timed_valid expected (chain_audit chain) (QRun.audit q) wt_timed q_timed
        (QUftOpaque.quft_stats (QRun.runner q)) in
      match latency_report env corpus wt_timed q_timed with
      | None => Undefined
      | Some _ =>
          match sustained env qwt corpus date symbol (warm_factory warm) expected (chain_framework chain)
            (chain_audit chain) (QRun.audit q) with
          | Threw _ => Exit 1
          | StillRunning => Running
          | Done (wt_result, q_result) =>
              let throughput_valid :=
                (ThroughputResult.verified_callbacks wt_result =? ThroughputResult.outputs wt_result) &&
                (ThroughputResult.verified_callbacks q_result =? ThroughputResult.outputs q_result) in
              Exit (if valid && throughput_valid then 0 else 6)
          end
      end
  end.

(** [None] is the thrown [invalid_argument]. *)
Definition parse_u64 (text : list Z) : option Z :=
  match strtoull text with
  | Some (value, []) => Some value
  | _ => None
  end.

Definition text (s : string) : list Z := map chr (String.list_ascii_of_string s).

(** [argv] less the name of the program; the texts end before their zero. *)
Definition main {F} `{PosixFile F} (fuel : nat) (opened : option F) (env : Environment.t W)
    (argv : list (list Z)) : Outcome :=
  match argv with
  | _ :: symbol :: date :: _ :: _ :: _ :: order =>
      if (1 <? alen order) then Exit 2
      else
        let standard_code := text "PSX." ++ symbol in
        match parse_u64 date with
        | None => Exit 1
        | Some value =>
            let trading_date := u32 value in
            let path_order := default (text "WTQ") (head order) in
            if negb (bool_decide (path_order = text "WTQ")) && negb (bool_decide (path_order = text "QWT"))
            then Exit 1
            else if Environment.cpu env <? 0 then Exit 1
            else
              match load_corpus fuel opened symbol with
              | None => Running
              | Some (inr _) => Exit 1
              | Some (inl corpus) =>
                  if negb (Environment.base_data_loaded env) then Exit 3
                  else if negb (Environment.parser_initialised env) then Exit 4
                  else
                    match warm_up corpus trading_date symbol (standard_code ++ [0]) (Environment.framework env) with
                    | inr _ => Exit 1
                    | inl warm => measure env (bool_decide (path_order = text "QWT")) corpus trading_date symbol warm
                    end
              end
        end
  | _ => Exit 2
  end.

End bench.

End ParserITCHUftFormalBench.
