(* ===== verification/FormalBenchFacts.v ===== *)
(** * The formal benchmark, message by message

    The parts of the argument that both replays tell their strategies the same:
    events that correspond leave the same trace in both audits; the reference's
    statistics bound its tables; its calls carry its date and code; the
    candidate's tables keep their limits.  And the latency report reads inside
    its samples unless there are none. *)

From Stdlib Require Import Ascii.
From stdpp Require Import sorting.
From S2P Require Import Prelude OpenAddressing FixedHashTable Itch50 Binary64 WtsTypes WtsAdapter.
From S2P Require Import UftTypes UftAdapter UftAdapterFacts Recorder Engine HistoricalFile Replay ReplayFacts.
From S2P Require Import QUftOpaque WtsReplay FormalBench.
Import itch50 ParserITCHUftFormalBench.
Import (hints) WtsAdapterStats UftAdapterStats SemanticFingerprint StrategyAudit.

(** ** Percentiles *)

(** The product of a probability and a number of samples is above zero. *)
Lemma percentile_index p q k n :
  p = SpecFloat.S754_finite false q k -> 2 ^ 52 <= Z.pos q < 2 ^ 53 -> -60 <= k <= 0 -> 0 < n < 2 ^ 32 ->
  1 <= Double.ceil (Double.mul p (Double.of_Z n)).
Proof.
  intros -> Hq Hk Hn. destruct (Double.of_Z_spec n Hn) as (m & -> & _ & Hm).
  assert (0 <= Z.log2 n < 32) by (split; [apply Z.log2_nonneg|apply Z.log2_lt_pow2; lia]).
  unfold Double.mul. cbn [SpecFloat.SFmul xorb].
  set (x := Z.pos (PosDef.Pos.mul q m)). assert (x = Z.pos q * Z.pos m) as Hx by done.
  change (Z.add k (Z.log2 n - 52)) with (k + (Z.log2 n - 52)).
  destruct (Double.binary_round_spec x (k + (Z.log2 n - 52)) SpecFloat.loc_Exact) as (M & E & -> & _);
    [rewrite Hx; nia|lia|].
  unfold Double.ceil, SpecFloat.cond_Zopp. destruct (Z.leb_spec 0 E).
  - assert (0 < 2 ^ E) by (apply Z.pow_pos_nonneg; lia). nia.
  - assert (0 < 2 ^ (- E)) by (apply Z.pow_pos_nonneg; lia).
    assert (- Z.pos M / 2 ^ (- E) < 0) by (apply Z.div_lt_upper_bound; lia). lia.
Qed.

Lemma percentile_inside sorted p q k :
  p = SpecFloat.S754_finite false q k -> 2 ^ 52 <= Z.pos q < 2 ^ 53 -> -60 <= k <= 0 ->
  sorted <> [] -> alen sorted < 2 ^ 32 -> is_Some (percentile sorted p).
Proof.
  intros Hp Hq Hk Hne Hlen.
  assert (0 < alen sorted) as Hpos by (unfold alen; destruct sorted; [done|cbn; lia]).
  pose proof (percentile_index p q k (alen sorted) Hp Hq Hk ltac:(lia)). unfold percentile.
  rewrite (proj2 (Z.ltb_ge _ _)) by lia. apply lookup_lt_is_Some_2.
  rewrite wrap_small by lia. unfold alen in *. lia.
Qed.

Lemma sorted_length (l : list Z) : length (merge_sort Z.le l) = length l.
Proof. by rewrite (Permutation_length (merge_sort_Permutation _ _)). Qed.

(** A vector that is not empty has its percentiles. *)
Lemma three_percentiles l :
  l <> [] -> alen l < 2 ^ 32 -> let sorted := merge_sort Z.le l in
  is_Some (percentile sorted (Double.div (Double.of_Z 50) (Double.of_Z 100))) /\
  is_Some (percentile sorted (Double.div (Double.of_Z 99) (Double.of_Z 100))) /\
  is_Some (percentile sorted (Double.div (Double.of_Z 999) (Double.of_Z 1000))).
Proof.
  intros Hne Hlen sorted. assert (length sorted = length l) as Hl by apply sorted_length.
  assert (sorted <> []) as Hs by (intros E; rewrite E in Hl; by destruct l).
  assert (alen sorted < 2 ^ 32) as Hsl by (unfold alen in *; by rewrite Hl).
  clearbody sorted.
  split_and!; (eapply percentile_inside; [vm_compute; reflexivity|lia|lia|exact Hs|exact Hsl]).
Qed.

Lemma summary_inside samples overhead :
  alen samples < 2 ^ 32 -> summarize samples overhead = None <-> samples = [].
Proof.
  intros Hlen. split; [|by intros ->]. intros Hs. destruct (decide (samples = [])) as [|Hne]; [done|exfalso].
  revert Hs. unfold summarize. set (l := map _ samples).
  assert (length l = length samples) as Hl by apply length_map.
  assert (l <> []) as Hl0 by (intros E; rewrite E in Hl; by destruct samples).
  destruct (three_percentiles l Hl0) as ([p50 ->] & [p99 ->] & [p999 ->]); [unfold alen in *; by rewrite Hl|].
  cbn [mbind option_bind]. destruct (last (merge_sort Z.le l)) eqn:E; [done|]. intros _.
  apply last_None, (f_equal length) in E. rewrite sorted_length in E. by destruct l.
Qed.

(** ** Two audits that heard the same *)

Record heard (a b : StrategyAudit.t) : Prop := {
  heard_fingerprint : StrategyAudit.fingerprint a = StrategyAudit.fingerprint b;
  heard_orders : StrategyAudit.order_callbacks a = StrategyAudit.order_callbacks b;
  heard_transactions : StrategyAudit.transaction_callbacks a = StrategyAudit.transaction_callbacks b;
  heard_consumed : StrategyAudit.consumed a = StrategyAudit.consumed b;
  heard_enabled : StrategyAudit.audit_enabled a = StrategyAudit.audit_enabled b
}.

Lemma heard_reset a b enable probe :
  heard (StrategyAudit.reset enable probe a) (StrategyAudit.reset enable probe b).
Proof. by constructor. Qed.

Lemma heard_begin a b : heard a b -> heard (StrategyAudit.begin_message a) (StrategyAudit.begin_message b).
Proof. intros []. by constructor. Qed.

Lemma heard_arrival c c' a b :
  heard a b -> heard (StrategyAudit.record_arrival c a) (StrategyAudit.record_arrival c' b).
Proof. intros []. unfold StrategyAudit.record_arrival. destruct (_ && _), (_ && _); by constructor. Qed.

Lemma order_callback_heard c c' a b f i :
  heard a b -> heard (order_callback c a f i) (order_callback c' b f i).
Proof.
  intros Hab%(heard_arrival c c'). unfold order_callback. revert Hab.
  generalize (StrategyAudit.record_arrival c a) as x, (StrategyAudit.record_arrival c' b) as y. intros [] [] [].
  cbn [StrategyAudit.audit_enabled StrategyAudit.fingerprint StrategyAudit.order_callbacks
    StrategyAudit.transaction_callbacks StrategyAudit.consumed] in *. subst. by case_match; constructor.
Qed.

Lemma transaction_callback_heard c c' a b f i :
  heard a b -> heard (transaction_callback c a f i) (transaction_callback c' b f i).
Proof.
  intros Hab%(heard_arrival c c'). unfold transaction_callback. revert Hab.
  generalize (StrategyAudit.record_arrival c a) as x, (StrategyAudit.record_arrival c' b) as y. intros [] [] [].
  cbn [StrategyAudit.audit_enabled StrategyAudit.fingerprint StrategyAudit.order_callbacks
    StrategyAudit.transaction_callbacks StrategyAudit.consumed] in *. subst. by case_match; constructor.
Qed.

Lemma side_codes s : SemanticFingerprint.side_code s = SemanticFingerprint.uft_side_code (uft_side s).
Proof. unfold SemanticFingerprint.side_code, uft_side. by repeat case_match. Qed.

Lemma order_words f e event :
  WTSOrdDtlStruct.otype e = ODT_LimitPrice -> Comparison.order_differs e event = false ->
  SemanticFingerprint.add_wts_order f e = SemanticFingerprint.add_uft_order f event /\
  WTSOrdDtlStruct.index e = UftOrderDetail.order_id event.
Proof.
  unfold Comparison.order_differs. rewrite !orb_false_iff, !negb_false_iff, !Z.eqb_eq, bool_decide_eq_true.
  intros Hty [[[[[Hi Hp] Hq] Hs] Hl] Ht]. split; [|done].
  unfold SemanticFingerprint.add_wts_order, SemanticFingerprint.add_uft_order.
  rewrite Hi, Hp, Hq, Hs, side_codes, Hty. change (action_time (UftOrderDetail.exchange_time_ns event)) with
    (Replay.action_time (UftOrderDetail.exchange_time_ns event)). rewrite Ht.
  destruct (UftOrderDetail.order_type event); [discriminate Hl| |discriminate Hl]. rewrite Z.eqb_refl. reflexivity.
Qed.

Lemma transaction_words f e event :
  known_type (WTSTransStruct.ttype e) -> Comparison.transaction_differs e event = false ->
  SemanticFingerprint.add_wts_transaction f e = SemanticFingerprint.add_uft_transaction f event /\
  u64 (WTSTransStruct.index e) = UftTransaction.transaction_id event.
Proof.
  unfold Comparison.transaction_differs.
  rewrite !orb_false_iff, !negb_false_iff, !Z.eqb_eq, !bool_decide_eq_true.
  intros Hty [[[[[[[Hi Hp] Hq] Hs] Hk] Ha] Hb] Ht]. split; [|done].
  unfold SemanticFingerprint.add_wts_transaction, SemanticFingerprint.add_uft_transaction.
  rewrite Hi, Hp, Hq, Hs, side_codes, Hk, Ha, Hb. change (action_time (UftTransaction.exchange_time_ns event)) with
    (Replay.action_time (UftTransaction.exchange_time_ns event)). rewrite Ht.
  destruct Hty as [->|[->| ->]]; reflexivity.
Qed.

Lemma callbacks_heard c c' a b call event host :
  heard a b -> corresponds call event -> heard (chain_callback c a call) (q_callback c' b (host_call host event)).
Proof.
  intros Hab [e x Hty Hd|e x Hty Hd]; cbn [chain_callback q_callback host_call]; rewrite (heard_fingerprint _ _ Hab).
  - destruct (order_words (StrategyAudit.fingerprint b) e x Hty Hd) as [-> ->]. by apply order_callback_heard.
  - destruct (transaction_words (StrategyAudit.fingerprint b) e x Hty Hd) as [-> ->].
    by apply transaction_callback_heard.
Qed.

Lemma all_callbacks_heard c c' a b calls events host :
  heard a b -> Forall2 corresponds calls events ->
  heard (fold_left (chain_callback c) calls a) (fold_left (q_callback c') (map (host_call host) events) b).
Proof.
  intros Hab Hf. revert a b Hab. induction Hf as [|call event calls events Hc _ IH]; intros a b Hab; [done|].
  cbn [fold_left map]. apply IH. by apply callbacks_heard.
Qed.

(** A callback counts once. *)
Lemma callback_counts c a call :
  StrategyAudit.order_callbacks (chain_callback c a call) =
    (if is_order call then incr (StrategyAudit.order_callbacks a) else StrategyAudit.order_callbacks a) /\
  StrategyAudit.transaction_callbacks (chain_callback c a call) =
    (if is_order call then StrategyAudit.transaction_callbacks a else incr (StrategyAudit.transaction_callbacks a)).
Proof.
  destruct call as [e|e]; cbn [chain_callback is_order]; [unfold order_callback|unfold transaction_callback];
    unfold StrategyAudit.record_arrival; destruct (_ && _); by case_match.
Qed.

(** What the WonderTrader strategy counts. *)
Lemma chain_counts c a calls :
  StrategyAudit.order_callbacks (fold_left (chain_callback c) calls a) =
    counted (orders_in calls) (StrategyAudit.order_callbacks a) /\
  StrategyAudit.transaction_callbacks (fold_left (chain_callback c) calls a) =
    counted (transactions_in calls) (StrategyAudit.transaction_callbacks a).
Proof.
  revert a. induction calls as [|call calls IH]; intros a; [done|]. cbn [fold_left].
  destruct (IH (chain_callback c a call)) as [-> ->], (callback_counts c a call) as [-> ->].
  unfold counted, orders_in, transactions_in.
  destruct call; cbn [List.filter is_order negb length]; rewrite Nat.iter_succ_r; done.
Qed.

(** ** The statistics of the reference bound its tables *)

Section bounds.
Import PsxWtsAdapter.

(** Every match known was counted, printable or not, or refused; [pending] of
    them still has to be.  [n] bounds the counters. *)
Record held (pending n : Z) (r : t) : Prop := {
  held_match : 0 <= WtsAdapterStats.matches (stats_ r);
  held_silent : 0 <= WtsAdapterStats.non_printable_suppressed (stats_ r);
  held_error : 0 <= WtsAdapterStats.errors (stats_ r);
  held_details : 0 <= WtsAdapterStats.order_details (stats_ r);
  held_transactions : 0 <= WtsAdapterStats.transactions (stats_ r);
  held_sum : WtsAdapterStats.matches (stats_ r) + WtsAdapterStats.non_printable_suppressed (stats_ r) +
    WtsAdapterStats.errors (stats_ r) <= n;
  held_events : WtsAdapterStats.order_details (stats_ r) + WtsAdapterStats.transactions (stats_ r) <= n;
  held_orders : Z.of_nat (size (orders_ r)) <= WtsAdapterStats.peak_active_orders (stats_ r) <= n;
  held_matches : Z.of_nat (size (matches_ r)) <= WtsAdapterStats.matches (stats_ r) +
    WtsAdapterStats.non_printable_suppressed (stats_ r) + WtsAdapterStats.errors (stats_ r) + pending
}.

(** No counter goes back. *)
Record later (r r' : t) : Prop := {
  later_match : WtsAdapterStats.matches (stats_ r) <= WtsAdapterStats.matches (stats_ r');
  later_silent : WtsAdapterStats.non_printable_suppressed (stats_ r) <=
    WtsAdapterStats.non_printable_suppressed (stats_ r');
  later_error : WtsAdapterStats.errors (stats_ r) <= WtsAdapterStats.errors (stats_ r');
  later_details : WtsAdapterStats.order_details (stats_ r) <= WtsAdapterStats.order_details (stats_ r');
  later_transactions : WtsAdapterStats.transactions (stats_ r) <= WtsAdapterStats.transactions (stats_ r');
  later_peak : WtsAdapterStats.peak_active_orders (stats_ r) <= WtsAdapterStats.peak_active_orders (stats_ r')
}.

Lemma later_refl r : later r r.
Proof. by constructor. Qed.

Lemma later_trans r1 r2 r3 : later r1 r2 -> later r2 r3 -> later r1 r3.
Proof. intros [] []. constructor; lia. Qed.

Lemma held_less pending n n' r : held pending n r -> n <= n' -> held pending n' r.
Proof. intros [] ?. constructor; lia. Qed.

Lemma incr_small x : 0 <= x < 2 ^ 64 - 1 -> incr x = x + 1.
Proof. intros. unfold incr. apply wrap_small. lia. Qed.

(** From [r] to [r'] with at most [k] more of anything counted. *)
Definition moves (k p p' : Z) (r r' : t) : Prop :=
  forall n, held p n r -> n + k < 2 ^ 64 - 1 -> held p' (n + k) r' /\ later r r'.

Lemma moves_trans k1 k2 p1 p2 p3 r1 r2 r3 :
  0 <= k1 -> 0 <= k2 -> moves k1 p1 p2 r1 r2 -> moves k2 p2 p3 r2 r3 -> moves (k1 + k2) p1 p3 r1 r3.
Proof.
  intros ? ? H1 H2 n Hn Hk. destruct (H1 n Hn ltac:(lia)) as [Hn1 Hl1].
  destruct (H2 (n + k1) Hn1 ltac:(lia)) as [Hn2 Hl2].
  split; [by rewrite Z.add_assoc|by eapply later_trans].
Qed.

Lemma moves_more k k' p p' r r' : 0 <= k <= k' -> moves k p p' r r' -> moves k' p p' r r'.
Proof.
  intros ? Hm n Hn Hk. destruct (Hm n Hn ltac:(lia)) as [Hh Hl]. split; [|done].
  eapply held_less; [done|]. lia.
Qed.

Ltac settle := split; constructor; cbn; rewrite ?incr_small by lia; lia.

(** Smaller tables, the same statistics. *)
Lemma moves_tables p r r' :
  stats_ r' = stats_ r -> (size (orders_ r') <= size (orders_ r))%nat ->
  (size (matches_ r') <= size (matches_ r))%nat -> moves 0 p p r r'.
Proof. intros Hs Ho Hm n [] ?. split; constructor; rewrite ?Hs; lia. Qed.

Lemma moves_error r p : 0 <= p <= 1 -> moves 1 p 0 r (error r).
Proof.
  intros Hp n [] ?. unfold error, count. settle.
Qed.

Lemma moves_transaction r m i ty s pr v id p :
  p = 0 \/ p = 1 /\ ty = TT_Match -> moves 1 p 0 r (emit_transaction r m i ty s pr v id).1.
Proof.
  intros Hp. unfold emit_transaction. destruct (_ || _); [apply moves_error; lia|]. cbn [fst].
  intros n [] ?. destruct (Z.eqb_spec ty TT_Cancel) as [Hc|_].
  { destruct Hp as [->|[_ Hm]]; [unfold count; settle|by subst]. }
  destruct (Z.eqb_spec ty TT_Match) as [_|Hm].
  { unfold count. destruct Hp as [->|[-> _]]; settle. }
  destruct Hp as [->|[_ ?]]; [|done]. destruct (ty =? kWtsTradeBust); unfold count; settle.
Qed.

Lemma moves_order r m id o p : moves 1 p p r (emit_order r m id o).1.
Proof. intros n [] ?. unfold emit_order, count. cbn [fst]. settle. Qed.

(** Counters the bounds do not look at. *)
Lemma moves_counter r f p :
  (forall s, WtsAdapterStats.matches (f s) = WtsAdapterStats.matches s /\
    WtsAdapterStats.non_printable_suppressed (f s) = WtsAdapterStats.non_printable_suppressed s /\
    WtsAdapterStats.errors (f s) = WtsAdapterStats.errors s /\
    WtsAdapterStats.order_details (f s) = WtsAdapterStats.order_details s /\
    WtsAdapterStats.transactions (f s) = WtsAdapterStats.transactions s /\
    WtsAdapterStats.peak_active_orders (f s) = WtsAdapterStats.peak_active_orders s) ->
  moves 0 p p r (count r f).
Proof.
  intros Hf n [] ?. destruct (Hf (stats_ r)) as (H1 & H2 & H3 & H4 & H5 & H6).
  split; constructor; unfold count; cbn; rewrite ?H1, ?H2, ?H3, ?H4, ?H5, ?H6; lia.
Qed.

Lemma moves_silent r p :
  0 <= p <= 1 ->
  moves 1 p 0 r (count r (fun s => s <| WtsAdapterStats.non_printable_suppressed ::= incr |>)).
Proof. intros Hp n [] ?. unfold count. settle. Qed.

Lemma size_delete_le {V} (m : gmap Z V) k : (size (delete k m) <= size m)%nat.
Proof. rewrite map_size_delete. destruct (m !! k); cbn; lia. Qed.

(** A match that is new is pending. *)
Lemma moves_emplace r k v m first :
  emplace (matches_ r) k v = (m, first) -> moves 0 0 (if first then 1 else 0) r (r <| matches_ := m |>).
Proof.
  unfold emplace. destruct (matches_ r !! k) eqn:E; intros [= <- <-] n [] ?; split; constructor; cbn; try lia.
  rewrite map_size_insert, E. cbn. lia.
Qed.

Lemma moves_take r id o q p : orders_ r !! id = Some o -> moves 0 p p r (take_shares r id o q).
Proof.
  intros Ho. assert (size (<[id := o <| WtsOrder.remaining := u32 (WtsOrder.remaining o - q) |>]> (orders_ r)) =
    size (orders_ r)) as Hs by (by apply map_size_insert_Some; eexists).
  apply moves_tables; unfold take_shares; destruct (_ =? 0); cbn; rewrite ?Hs; try done.
  etrans; [apply size_delete_le|]. by rewrite Hs.
Qed.
Lemma moves_none r p : moves 0 p p r r.
Proof. by apply moves_tables. Qed.

(** A step, then another one. *)
Ltac then_moves p := eapply (moves_trans _ _ _ p); [lia|lia| |].

(** Up to two more. *)
Ltac unmoved := eapply moves_more; [|first [apply moves_error; lia|apply moves_none]]; lia.

Lemma add_moves r m : moves 2 0 0 r (add r m).1.
Proof.
  unfold add. destruct (_ || _); [unmoved|]. unfold emplace.
  destruct (orders_ r !! read_u64 (m +! 11)) eqn:E; cbn [negb].
  { change (2) with (0 + 2). then_moves 0; [by apply (moves_tables 0 r (r <| orders_ := orders_ r |>))|unmoved]. }
  change 2 with (1 + 1). then_moves 0; [|apply moves_order].
  intros n [] ?. unfold count, active_orders. split; constructor; cbn; rewrite ?map_size_insert, ?E; cbn; try lia;
    rewrite wrap_small; lia.
Qed.

Lemma cancel_partial_moves r m : moves 2 0 0 r (cancel_partial r m).1.
Proof.
  unfold cancel_partial. destruct (orders_ r !! _) as [o|] eqn:E; [|unmoved]. destruct (_ || _); [unmoved|].
  match goal with |- context [emit_transaction ?a ?m ?i ?ty ?s ?p ?v ?id] =>
    pose proof (moves_transaction a m i ty s p v id 0 (or_introl eq_refl)) as Ht;
    assert (orders_ (emit_transaction a m i ty s p v id).1 = orders_ a) as Ho
      by (unfold emit_transaction; by repeat case_match);
    destruct (emit_transaction a m i ty s p v id) as [a2 calls] end.
  cbn [fst] in *. change 2 with (1 + 1). then_moves 0; [exact Ht|].
  eapply moves_more; [|apply moves_take; by rewrite Ho]. lia.
Qed.

Lemma cancel_all_moves r m : moves 2 0 0 r (cancel_all r m).1.
Proof.
  unfold cancel_all. destruct (orders_ r !! _) as [o|] eqn:E; [|unmoved].
  match goal with |- context [emit_transaction ?a ?m ?i ?ty ?s ?p ?v ?id] =>
    pose proof (moves_transaction a m i ty s p v id 0 (or_introl eq_refl)) as Ht;
    destruct (emit_transaction a m i ty s p v id) as [a2 calls] end.
  cbn [fst] in *. change 2 with (1 + 1). then_moves 0; [exact Ht|].
  eapply moves_more; [|apply moves_tables; [done| |done]; apply size_delete_le]. lia.
Qed.

Lemma replace_moves r m : moves 2 0 0 r (replace r m).1.
Proof.
  unfold replace. destruct (orders_ r !! read_u64 (m +! 11)) as [o|] eqn:E; [|unmoved].
  destruct (_ || bool_decide _) eqn:Hnew; [unmoved|].
  rewrite !orb_false_iff, bool_decide_eq_false, <- eq_None_not_Some in Hnew. destruct Hnew as [_ Hnew].
  match goal with |- context [emit_transaction ?a ?m ?i ?ty ?s ?p ?v ?id] =>
    pose proof (moves_transaction a m i ty s p v id 0 (or_introl eq_refl)) as Ht;
    assert (orders_ (emit_transaction a m i ty s p v id).1 = orders_ a) as Ho
      by (unfold emit_transaction; by repeat case_match);
    destruct (emit_transaction a m i ty s p v id) as [a2 calls] end.
  cbn [fst] in *. unfold emplace. updates. cbn [orders_].
  assert (delete (read_u64 (m +! 11)) (orders_ a2) !! read_u64 (m +! 19) = None) as Hnone.
  { rewrite Ho, lookup_delete. by case_decide. }
  rewrite Hnone. cbn [negb]. change 2 with (1 + 1). then_moves 0; [exact Ht|].
  match goal with |- context [emit_order ?a ?m ?id ?o] =>
    pose proof (moves_order a m id o 0) as Hm; destruct (emit_order a m id o) as [a3 calls'] end.
  cbn [fst] in *. change 1 with (0 + 1). then_moves 0; [|exact Hm].
  apply moves_tables; cbn; [done| |done]. rewrite map_size_insert, Hnone, map_size_delete, Ho, E.
  assert (size (orders_ r) <> 0%nat) by (intros Hz%map_size_empty_inv; by rewrite Hz in E). cbn. lia.
Qed.

Lemma execute_moves r m : moves 2 0 0 r (execute r m).1.
Proof.
  unfold execute. destruct (orders_ r !! _) as [o|] eqn:E; [|unmoved]. destruct (_ || _); [unmoved|].
  destruct (emplace (matches_ r) _ _) as [ms first] eqn:He. apply moves_emplace in He.
  match goal with |- context [let '(_, _) := ?x in (take_shares _ _ _ _, _)] =>
    assert (moves 1 (if first then 1 else 0) 0 (r <| matches_ := ms |>) x.1 /\ orders_ x.1 = orders_ r) as [Hx Ho] end.
  { destruct (negb (_ || _)); [split; [apply moves_silent; by destruct first|done]|].
    destruct first.
    - destruct (i64_max <? _); [by split; [apply moves_error|]|].
      split; [apply moves_transaction; by right|]. unfold emit_transaction. by repeat case_match.
    - split; [|done]. eapply moves_more; [|by apply moves_counter]. lia. }
  match goal with |- context [let '(_, _) := ?x in (take_shares _ _ _ _, _)] => destruct x as [a2 calls] end.
  cbn [fst] in *. change 2 with (0 + (1 + 1)). then_moves (if first then 1 else 0); [exact He|].
  then_moves 0; [exact Hx|]. eapply moves_more; [|apply moves_take; by rewrite Ho]. lia.
Qed.

(** The tail both trade messages share. *)
Lemma trade_moves r k v ms first m i s pr vo id :
  emplace (matches_ r) k v = (ms, first) ->
  moves 2 0 0 r (if negb first
    then (count (r <| matches_ := ms |>) (fun s => s <| WtsAdapterStats.duplicate_matches_suppressed ::= incr |>), [])
    else emit_transaction (r <| matches_ := ms |>) m i TT_Match s pr vo id).1.
Proof.
  intros He%moves_emplace. change 2 with (0 + 2).
  then_moves (if first then 1 else 0); [exact He|]. destruct first; cbn [negb].
  - eapply moves_more; [|apply moves_transaction; by right]. lia.
  - eapply moves_more; [|by apply moves_counter]. lia.
Qed.

Lemma non_cross_trade_moves r m : moves 2 0 0 r (non_cross_trade r m).1.
Proof.
  unfold non_cross_trade. destruct (emplace (matches_ r) _ _) as [ms first] eqn:He.
  destruct (i64_max <? read_u64 (m +! 36)); [|by eapply trade_moves].
  apply moves_emplace in He. change 2 with (0 + 2).
  then_moves (if first then 1 else 0); [exact He|]. destruct first; cbn [negb]; [unmoved|].
  eapply moves_more; [|by apply moves_counter]. lia.
Qed.

Lemma cross_trade_moves r m : moves 2 0 0 r (cross_trade r m).1.
Proof.
  unfold cross_trade. destruct (_ || _); [unmoved|].
  destruct (emplace (matches_ r) _ _) as [ms first] eqn:He. by eapply trade_moves.
Qed.

Lemma broken_trade_moves r m : moves 2 0 0 r (broken_trade r m).1.
Proof.
  unfold broken_trade. destruct (matches_ r !! _) as [mt|] eqn:E.
  2: { eapply moves_more; [|by apply moves_counter]. lia. }
  match goal with |- context [let '(_, _) := ?x in (_ <| matches_ ::= _ |>, _)] =>
    assert (moves 1 0 0 r x.1) as Hx; [|destruct x as [a2 calls]] end.
  { destruct (WtsMatch.emitted mt); [apply moves_transaction; by left|].
    eapply moves_more; [|by apply moves_counter]. lia. }
  cbn [fst] in *. change 2 with (1 + 1). then_moves 0; [exact Hx|].
  eapply moves_more; [|apply moves_tables; [done|done|]; apply size_delete_le]. lia.
Qed.

Lemma message_moves r m sz : moves 2 0 0 r (on_message r m sz).1.
Proof.
  unfold on_message. destruct (_ || _); [unmoved|].
  change 2 with (0 + 2). then_moves 0; [by apply (moves_tables 0 r (r <| event_sequence_ ::= incr |>))|].
  generalize (r <| event_sequence_ ::= incr |>) as r1. intros r1. cbn zeta.
  destruct (_ || _); [unmoved|]. destruct (_ || _); [apply add_moves|]. destruct (_ || _); [apply execute_moves|].
  destruct (_ =? chr "X"); [apply cancel_partial_moves|]. destruct (_ =? chr "D"); [apply cancel_all_moves|].
  destruct (_ =? chr "U"); [apply replace_moves|]. destruct (_ =? chr "P"); [apply non_cross_trade_moves|].
  destruct (_ =? chr "Q"); [apply cross_trade_moves|]. destruct (_ =? chr "B"); [apply broken_trade_moves|unmoved].
Qed.
End bounds.

(** The reference on its own. *)
Definition reference_step (r : PsxWtsAdapter.t) (m : RawMessage.t) : PsxWtsAdapter.t :=
  (PsxWtsAdapter.on_message r (RawMessage.bytes m) (RawMessage.size m)).1.
Definition reference_run (r : PsxWtsAdapter.t) (messages : list RawMessage.t) : PsxWtsAdapter.t :=
  fold_left reference_step messages r.

Lemma run_moves r messages n :
  held 0 n r -> n + 2 * alen messages < 2 ^ 64 - 1 ->
  held 0 (n + 2 * alen messages) (reference_run r messages) /\ later r (reference_run r messages).
Proof.
  revert r n. induction messages as [|m messages IH]; intros r n Hn Hlen; unfold alen in *; cbn [length] in *.
  { rewrite Z.add_0_r. split; [done|apply later_refl]. }
  destruct (message_moves r (RawMessage.bytes m) (RawMessage.size m) n Hn ltac:(lia)) as [Hh Hl].
  destruct (IH (reference_step r m) (n + 2) Hh ltac:(lia)) as [Hh' Hl'].
  replace (n + 2 * Z.of_nat (S (length messages))) with (n + 2 + 2 * Z.of_nat (length messages)) by lia.
  split; [done|by eapply later_trans].
Qed.

Lemma make_held date locator symbol : held 0 0 (PsxWtsAdapter.make date locator symbol).
Proof. constructor; cbn; rewrite ?map_size_empty; lia. Qed.

(** ** The calls of the reference carry its date and code *)

Definition call_day (call : WtsCall) : list Z * list Z * Z * Z :=
  match call with
  | on_order_detail e => (WTSOrdDtlStruct.exchg e, WTSOrdDtlStruct.code e, WTSOrdDtlStruct.trading_date e,
      WTSOrdDtlStruct.action_date e)
  | on_transaction e => (WTSTransStruct.exchg e, WTSTransStruct.code e, WTSTransStruct.trading_date e,
      WTSTransStruct.action_date e)
  end.

Section addressed.
Import PsxWtsAdapter.

Definition addressed (date : Z) (symbol : list Z) (call : WtsCall) : Prop :=
  call_day call = (exchange, copy_text MAX_INSTRUMENT_LENGTH (string_view (copy_text 9 symbol)), date, date).

Definition identity (date : Z) (symbol : list Z) (r : t) : Prop :=
  trading_date_ r = date /\ symbol_ r = copy_text 9 symbol.

Definition all_addressed date symbol (x : t * list WtsCall) : Prop :=
  identity date symbol x.1 /\ Forall (addressed date symbol) x.2.

Context (date : Z) (symbol : list Z) (m : list Z).

Lemma transaction_addressed i ty s p v id a :
  identity date symbol a -> all_addressed date symbol (emit_transaction a m i ty s p v id).
Proof.
  intros [<- Hs]. unfold emit_transaction. destruct (_ || _); [by split|].
  split; [by repeat case_match|]. apply Forall_singleton. unfold addressed. cbn. unfold code. by rewrite Hs.
Qed.

Lemma order_addressed id o a : identity date symbol a -> all_addressed date symbol (emit_order a m id o).
Proof.
  intros [<- Hs]. unfold emit_order. split; [done|]. apply Forall_singleton. unfold addressed. cbn.
  unfold code. by rewrite Hs.
Qed.

Lemma quiet_addressed a : identity date symbol a -> all_addressed date symbol (a, []).
Proof. intros. by split. Qed.

Lemma bind_addressed x (f : t -> t) :
  all_addressed date symbol x -> (forall a, identity date symbol a -> identity date symbol (f a)) ->
  all_addressed date symbol (let '(a, calls) := x in (f a, calls)).
Proof. destruct x as [a calls]. intros [Ha Hc] Hf. split; [by apply Hf|done]. Qed.

Lemma take_identity a id o q : identity date symbol a -> identity date symbol (take_shares a id o q).
Proof. intros Ha. unfold take_shares. by case_match. Qed.

Lemma message_addressed r sz : identity date symbol r -> all_addressed date symbol (on_message r m sz).
Proof.
  intros Hid. unfold on_message. destruct (_ || _); [by apply quiet_addressed|].
  assert (identity date symbol (r <| event_sequence_ ::= incr |>)) as Hid1 by done. revert Hid1. clear Hid.
  generalize (r <| event_sequence_ ::= incr |>) as a. intros a Ha. cbn zeta.
  case_match; [by apply quiet_addressed|]. case_match.
  { unfold add. case_match; [by apply quiet_addressed|]. destruct (emplace _ _ _) as [os []]; cbn [negb];
      [by apply order_addressed|by apply quiet_addressed]. }
  case_match.
  { unfold execute. case_match; [|by apply quiet_addressed]. case_match; [by apply quiet_addressed|].
    destruct (emplace _ _ _) as [ms first].
    apply bind_addressed; [|intros; by apply take_identity].
    case_match; [by apply quiet_addressed|]. destruct first; [|by apply quiet_addressed].
    case_match; [by apply quiet_addressed|by apply transaction_addressed]. }
  case_match.
  { unfold cancel_partial. case_match; [|by apply quiet_addressed]. case_match; [by apply quiet_addressed|].
    apply bind_addressed; [by apply transaction_addressed|intros; by apply take_identity]. }
  case_match.
  { unfold cancel_all. case_match; [|by apply quiet_addressed].
    apply (bind_addressed _ (fun a => a <| orders_ ::= delete _ |>)); [by apply transaction_addressed|done]. }
  case_match.
  { unfold replace. case_match; [|by apply quiet_addressed]. case_match; [by apply quiet_addressed|].
    match goal with |- context [emit_transaction ?a ?m ?i ?ty ?s ?p ?v ?id] =>
      pose proof (transaction_addressed i ty s p v id a Ha) as Ht; destruct (emit_transaction a m i ty s p v id) as [a2 calls] end.
    destruct Ht as [Ha2 Hc]. cbn [fst snd] in *. destruct (emplace _ _ _) as [os []]; cbn [negb]; [|by split].
    match goal with |- context [emit_order ?a ?m ?id ?o] =>
      pose proof (order_addressed id o a Ha2) as Ho; destruct (emit_order a m id o) as [a3 calls'] end.
    destruct Ho. split; [done|]. by apply Forall_app. }
  case_match.
  { unfold non_cross_trade. destruct (emplace _ _ _) as [ms []]; cbn [negb]; [|by apply quiet_addressed].
    case_match; [by apply quiet_addressed|by apply transaction_addressed]. }
  case_match.
  { unfold cross_trade. case_match; [by apply quiet_addressed|].
    destruct (emplace _ _ _) as [ms []]; cbn [negb]; [by apply transaction_addressed|by apply quiet_addressed]. }
  case_match; [|by apply quiet_addressed].
  unfold broken_trade. case_match; [|by apply quiet_addressed].
  apply (bind_addressed _ (fun a => a <| matches_ ::= delete _ |>)); [|done].
  case_match; [by apply transaction_addressed|by apply quiet_addressed].
Qed.
End addressed.

(** ** The candidate's tables keep their limits *)

Section limits.
Import NasdaqItchUftAdapter.
Context {E : Type} `{MarketDataEngine E} (orders matches : Z) (message : list Z).
Implicit Types (a : t) (e : E).

Definition limited (a : t) : Prop :=
  FixedHashTable.maximum_entries_ (orders_ a) = orders /\ FixedHashTable.maximum_entries_ (matches_ a) = matches.

Lemma insert_limit {V} `{Inhabited V} (tab : FixedHashTable.t V) k v :
  FixedHashTable.maximum_entries_ (FixedHashTable.insert tab k v).1 = FixedHashTable.maximum_entries_ tab.
Proof. unfold FixedHashTable.insert. by repeat case_match. Qed.

Lemma erase_limit {V} `{Inhabited V} (tab : FixedHashTable.t V) k :
  FixedHashTable.maximum_entries_ (FixedHashTable.erase tab k).1 = FixedHashTable.maximum_entries_ tab.
Proof. unfold FixedHashTable.erase. by case_match. Qed.

Lemma limited_tables a a' : same_tables a a' -> limited a -> limited a'.
Proof. unfold limited. intros (_ & _ & _ & -> & ->). done. Qed.

Lemma limited_order a e id o : limited a -> limited (emit_order a e message id o).1.
Proof. apply limited_tables, emit_order_tables. Qed.
Lemma limited_transaction a e n ty s p q id : limited a -> limited (emit_transaction a e message n ty s p q id).1.
Proof. apply limited_tables, emit_transaction_tables. Qed.
Lemma limited_book a e act id nid mid p q s pr :
  limited a -> limited (emit_book a e message act id nid mid p q s pr).1.
Proof. apply limited_tables, emit_book_tables. Qed.
Lemma limited_malformed a : limited a -> limited (malformed a).
Proof. apply limited_tables, malformed_tables. Qed.
Lemma limited_failure a r : limited a -> limited (count_insert_failure a r).
Proof. apply limited_tables, count_insert_failure_tables. Qed.

Lemma limited_count a f : limited a -> limited (count a f).
Proof. apply limited_tables, count_tables. Qed.

Lemma limited_bind (x : t * E) (k : t -> E -> t * E) :
  limited x.1 -> (forall a e, limited a -> limited (k a e).1) -> limited (let '(a, e) := x in k a e).1.
Proof. destruct x. intros Hx Hk. by apply Hk. Qed.

Lemma limited_erase_order a id :
  limited a -> limited (a <| orders_ ::= fun tab => (FixedHashTable.erase tab id).1 |>).
Proof. intros [Ho Hm]. split; [|done]. cbn. by rewrite erase_limit. Qed.

Lemma limited_erase_match a n :
  limited a -> limited (a <| matches_ ::= fun tab => (FixedHashTable.erase tab n).1 |>).
Proof. intros [Ho Hm]. split; [done|]. cbn. by rewrite erase_limit. Qed.

Lemma limited_take a id q : limited a -> limited (take a id q).
Proof.
  intros [Ho Hm]. unfold take. case_match; [|done].
  assert (forall o, FixedHashTable.maximum_entries_ (FixedHashTable.assign (orders_ a) id o) = orders) as Ha.
  { intros. unfold FixedHashTable.assign. by case_match. }
  case_match; split; updates; cbn; rewrite ?erase_limit; auto.
Qed.

Lemma limited_insert_order a id o tab r :
  limited a -> FixedHashTable.insert (orders_ a) id o = (tab, r) -> limited (a <| orders_ := tab |>).
Proof. intros [Ho Hm] Hi. split; [|done]. cbn. pose proof (insert_limit (orders_ a) id o) as Hl. by rewrite Hi, Ho in Hl. Qed.

Lemma limited_insert_match a n m tab r :
  limited a -> FixedHashTable.insert (matches_ a) n m = (tab, r) -> limited (a <| matches_ := tab |>).
Proof. intros [Ho Hm] Hi. split; [done|]. cbn. pose proof (insert_limit (matches_ a) n m) as Hl. by rewrite Hi, Hm in Hl. Qed.

Create HintDb limits.
#[local] Hint Resolve limited_count limited_order limited_transaction limited_book limited_malformed limited_failure
  limited_erase_order limited_erase_match limited_take : limits.

Ltac limits :=
  repeat first
    [ done
    | solve [eauto with limits]
    | apply limited_bind; [|intros]
    | progress cbn [fst]
    | match goal with
      | |- context [FixedHashTable.insert (orders_ ?a) ?id ?o] =>
          let Hi := fresh in let Hl := fresh in destruct (FixedHashTable.insert (orders_ a) id o) as [? []] eqn:Hi;
          assert (limited a) as Hl by eauto with limits;
          pose proof (limited_insert_order a id o _ _ Hl Hi); clear Hi Hl
      | |- context [FixedHashTable.insert (matches_ ?a) ?id ?o] =>
          let Hi := fresh in let Hl := fresh in destruct (FixedHashTable.insert (matches_ a) id o) as [? []] eqn:Hi;
          assert (limited a) as Hl by eauto with limits;
          pose proof (limited_insert_match a id o _ _ Hl Hi); clear Hi Hl
      end
    | case_match ].

Lemma limited_message a e size : limited a -> limited (on_message a (Some message) size e).1.
Proof.
  intros Ha. unfold on_message. case_match; [done|].
  assert (limited (a <| source_sequence_ ::= incr |>)) as Ha1 by done. revert Ha1. clear Ha.
  generalize (a <| source_sequence_ ::= incr |>) as b. intros b Hb. cbn zeta.
  case_match; [by apply limited_malformed|].
  case_match; [unfold add; limits|]. case_match; [unfold execute; limits|].
  case_match; [unfold cancel_partial; limits|]. case_match; [unfold cancel_all; limits|].
  case_match.
  { unfold replace. case_match; [|by apply limited_malformed]. case_match; [by apply limited_malformed|]. cbv zeta.
    pose proof (limited_erase_order b (read_u64 (message +! 11)) Hb) as Hc. revert Hc.
    generalize (b <| orders_ ::= fun tab => (FixedHashTable.erase tab (read_u64 (message +! 11))).1 |>) as c.
    intros c Hc. limits. }
  case_match; [unfold non_cross_trade, publish_match; limits|].
  case_match; [unfold cross_trade, publish_match; limits|]. case_match; [unfold broken_trade; limits|done].
Qed.
End limits.
