(* ===== verification/FormalBenchProperties.v ===== *)
(** * Properties of the formal benchmark

    On an instrument of regular messages that the reference takes without
    complaint the checks of the program never fail: the capacities it derives
    suffice, both strategies hear the same, and the exit code depends only on
    the processor and on how long it runs; an instrument that publishes nothing
    makes it read outside its samples. *)

From Stdlib Require Import Ascii String.
From stdpp Require Import sorting.
From S2P Require Import Prelude OpenAddressing FixedHashTable Itch50 Samples Binary64 WtsTypes WtsAdapter.
From S2P Require Import UftTypes UftAdapter UftAdapterFacts Recorder Engine HistoricalFile FileProperties.
From S2P Require Import Replay ReplayFacts ReplaySteps Within Numerals WtsReplay QUftOpaque FormalBench FormalBenchFacts.
Import itch50 ParserITCHUftFormalBench.
Import (hints) WtsAdapterStats UftAdapterStats SemanticFingerprint StrategyAudit QRun TimedResult ThroughputResult Corpus.

(** ** A message of the corpus *)

(** A slot that holds a regular message. *)
Definition kept (m : RawMessage.t) : Prop :=
  exists record, m = raw_message record (alen record) /\ alen record <= 64 /\ Forall is_byte record /\
    regular record = true.

Lemma raw_size record : alen record <= 64 -> RawMessage.size (raw_message record (alen record)) = alen record.
Proof. intros. apply wrap_small. unfold alen in *. lia. Qed.

Lemma raw_bytes record :
  take (Z.to_nat (alen record)) (RawMessage.bytes (raw_message record (alen record))) = record.
Proof.
  unfold raw_message, alen. cbn [RawMessage.bytes]. rewrite Nat2Z.id, firstn_all. apply take_app_length.
Qed.

Lemma reference_kept r record :
  alen record <= 64 -> let m := raw_message record (alen record) in
  PsxWtsAdapter.on_message r (RawMessage.bytes m) (RawMessage.size m) = PsxWtsAdapter.on_message r record (alen record).
Proof.
  intros Hlen m. unfold m. rewrite raw_size by done. rewrite <- reference_within. by rewrite raw_bytes.
Qed.

Lemma candidate_kept {E} `{MarketDataEngine E} b (e : E) record :
  alen record <= 64 -> let m := raw_message record (alen record) in
  NasdaqItchUftAdapter.on_message b (Some (RawMessage.bytes m)) (RawMessage.size m) e =
    NasdaqItchUftAdapter.on_message b (Some record) (alen record) e.
Proof.
  intros Hlen m. unfold m. rewrite raw_size by done. rewrite <- candidate_within. by rewrite raw_bytes.
Qed.

(** ** Timed replays *)

Section timed_facts.
Context {State : Type} (process : Z -> State -> RawMessage.t -> State).
Context (count : State -> Z) (begin : State -> State) (arrival : State -> Z) (cpu : Z) (clock : nat -> Reading.t).

Abbreviation loop := (replay_timed_loop process count begin arrival cpu clock).

(** Every message of [n] from the [i]-th on ended on the processor it began. *)
Definition stayed (i n : nat) : bool :=
  forallb (fun k => Reading.end_cpu (clock k) =? cpu) (seq i n).

Lemma timed_lengths i messages s r :
  length (TimedResult.all_messages (loop i messages s r).2) =
    (length (TimedResult.all_messages r) + length messages)%nat /\
  (length (TimedResult.callback_arrivals (loop i messages s r).2) <=
    length (TimedResult.callback_arrivals r) + length messages)%nat.
Proof.
  revert i s r. induction messages as [|m messages IH]; intros i s r; cbn [replay_timed_loop length]; [cbn; lia|].
  match goal with |- context [loop (S i) messages ?s' ?r'] => destruct (IH (S i) s' r') as [Ha Hc] end.
  rewrite Ha. split.
  - repeat case_match; cbn; rewrite length_app; cbn; lia.
  - etrans; [exact Hc|]. repeat case_match; cbn; rewrite ?length_app; cbn; lia.
Qed.

Lemma timed_migrations i messages s r :
  0 <= TimedResult.migrations r -> TimedResult.migrations r + alen messages < 2 ^ 64 ->
  TimedResult.migrations r <= TimedResult.migrations (loop i messages s r).2 /\
  (TimedResult.migrations (loop i messages s r).2 = TimedResult.migrations r <-> stayed i (length messages) = true).
Proof.
  revert i s r. induction messages as [|m messages IH]; intros i s r Hr Hlen; unfold alen in *;
    cbn [replay_timed_loop length] in *; [done|].
  unfold stayed. cbn [seq forallb]. fold (stayed (S i) (length messages)). rewrite andb_true_iff.
  match goal with |- context [loop (S i) messages ?s' ?r'] => set (r1 := r'); set (s1 := s') end.
  assert (TimedResult.migrations r1 =
    if Reading.end_cpu (clock i) =? cpu then TimedResult.migrations r else TimedResult.migrations r + 1) as Hm.
  { unfold r1. destruct (Reading.end_cpu (clock i) =? cpu), (negb (count _ =? _)); cbn [negb]; try done;
      cbn; by rewrite incr_small by lia. }
  destruct (IH (S i) s1 r1) as [Hle Hiff]; [rewrite Hm; case_match; lia..|]. rewrite Hm in *.
  destruct (Reading.end_cpu (clock i) =? cpu); rewrite <- Hiff; [split; [lia|tauto]|].
  split; [lia|]. split; [lia|by intros []].
Qed.
End timed_facts.

(** ** Both sides together *)

Section bench.
Context {W : Type} (route : W -> WtsCall -> W * list WtsCall) (date : Z) (symbol : list Z).

(** The framework tells the strategy of every event of the instrument, once. *)
Definition forwards : Prop := forall w call, addressed date symbol call -> (route w call).2 = [call].
Hypothesis Hroute : forwards.

Lemma emits cycles calls w a :
  Forall (addressed date symbol) calls ->
  exists w', fold_left (emit route cycles) calls (w, a) = (w', fold_left (chain_callback cycles) calls a).
Proof.
  intros Hc. revert w a. induction Hc as [|call calls Hcall _ IH]; intros w a; [by exists w|].
  cbn [fold_left emit]. pose proof (Hroute w call Hcall) as Hr. destruct (route w call) as [w1 out]. cbn in Hr. subst out.
  cbn [fold_left]. apply IH.
Qed.

Context (iid sid host order_limit match_limit : Z).
Hypothesis Hiid : 0 <= iid < QUftOpaque.kInstrumentCapacity.

(** The events the reference has published. *)
Definition events (r : PsxWtsAdapter.t) : Z :=
  WtsAdapterStats.order_details (PsxWtsAdapter.stats_ r) + WtsAdapterStats.transactions (PsxWtsAdapter.stats_ r).

(** The end of the reference fits the candidate's tables. *)
Definition fits_tables (r : PsxWtsAdapter.t) : Prop :=
  WtsAdapterStats.errors (PsxWtsAdapter.stats_ r) = 0 /\
  WtsAdapterStats.peak_active_orders (PsxWtsAdapter.stats_ r) + 1 <= order_limit /\
  WtsAdapterStats.matches (PsxWtsAdapter.stats_ r) +
    WtsAdapterStats.non_printable_suppressed (PsxWtsAdapter.stats_ r) + 1 <= match_limit.

Record paired (n : Z) (rest : list RawMessage.t) (chain : WonderTraderChain (W := W)) (q : QRun.t)
    (e : UftMarketDataEngine.t) (a : NasdaqItchUftAdapter.t) : Prop := {
  paired_runner : QRun.runner q = Some (QUftOpaque.mk e (QUftOpaque.mkBridge host iid) (Some a));
  paired_ready : ready iid sid e;
  paired_sound : sound iid a;
  paired_agrees : agrees 0 (chain_adapter chain) a;
  paired_limits : limited order_limit match_limit a;
  paired_heard : heard (chain_audit chain) (QRun.audit q);
  paired_orders : StrategyAudit.order_callbacks (chain_audit chain) =
    WtsAdapterStats.order_details (PsxWtsAdapter.stats_ (chain_adapter chain));
  paired_transactions : StrategyAudit.transaction_callbacks (chain_audit chain) =
    WtsAdapterStats.transactions (PsxWtsAdapter.stats_ (chain_adapter chain));
  paired_identity : identity date symbol (chain_adapter chain);
  paired_held : held 0 n (chain_adapter chain);
  paired_bound : n + 2 * alen rest < 2 ^ 62;
  paired_end : fits_tables (reference_run (chain_adapter chain) rest);
  paired_kept : Forall kept rest
}.

Definition together (rest : list RawMessage.t) (chain : WonderTraderChain (W := W)) (q : QRun.t) : Prop :=
  exists n e a, paired n rest chain q e a.

(** There is room for one more entry. *)
Lemma paired_room n rest chain q e a : paired n rest chain q e a -> agrees 1 (chain_adapter chain) a.
Proof.
  intros [_ _ _ Ha [Hlo Hlm] _ _ _ _ Hheld Hbound (He & Hp & Hm) _].
  destruct (run_moves _ rest n Hheld ltac:(lia)) as [_ Hl].
  destruct (agrees_active _ _ _ Ha) as [Hact _]. pose proof (agrees_matches _ _ _ Ha) as Hmatches.
  pose proof (FixedHashTable.wf_size _ (adapter_matches _ (agrees_wf _ _ _ Ha))) as Hms.
  change (FixedHashTable.view (NasdaqItchUftAdapter.matches_ a)) with (matches_view a) in Hms.
  rewrite Hmatches, map_size_fmap in Hms.
  unfold PsxWtsAdapter.active_orders, NasdaqItchUftAdapter.active_orders in Hact.
  destruct Hheld, Hl. destruct Ha. constructor; try done; unfold has_room; [rewrite Hlo|rewrite Hlm];
    unfold FixedHashTable.size in *; lia.
Qed.

Lemma message_together cycles cycles' m rest chain q :
  together (m :: rest) chain q ->
  together rest (wt_message route cycles chain m) (q_message cycles' q m) /\
  later (chain_adapter chain) (chain_adapter (wt_message route cycles chain m)).
Proof.
  intros (n & e & a & Hp). pose proof (paired_room _ _ _ _ _ _ Hp) as Hroom.
  destruct Hp as [Hrun Hready Hsound Hagrees Hlim Hheard Ho Ht Hid Hheld Hbound Hend Hkept].
  apply Forall_cons in Hkept as [(record & -> & Hlen & Hbytes & Hreg) Hkept].
  set (m := raw_message record (alen record)) in *.
  destruct (on_message_step 1 _ _ record (alen record) Hroom ltac:(lia) Hbytes Hreg)
    as (b & published & Hpub & Hb & Hev & _).
  pose proof (message_addressed date symbol (RawMessage.bytes m) _ (RawMessage.size m) Hid) as [Hid' Haddr].
  destruct (message_moves _ (RawMessage.bytes m) (RawMessage.size m) n Hheld ltac:(unfold alen in *; cbn [length] in *; lia))
    as [Hheld' Hlater].
  pose proof (message_published (chain_adapter chain) (RawMessage.bytes m) (RawMessage.size m)) as (Hpo & Hpt & _).
  change (reference_run (chain_adapter chain) (m :: rest)) with
    (reference_run (reference_step (chain_adapter chain) m) rest) in Hend. unfold reference_step in Hend.
  pose proof (reference_kept (chain_adapter chain) record Hlen) as Hk. cbn zeta in Hk. fold m in Hk.
  unfold wt_message. rewrite Hk in *.
  destruct (PsxWtsAdapter.on_message (chain_adapter chain) record (alen record)) as [r' calls]. cbn [fst snd] in *.
  destruct (emits cycles calls (chain_framework chain) (chain_audit chain) Haddr) as [w' ->].
  unfold q_message, QUftOpaque.quft_message. rewrite Hrun. cbn [QUftOpaque.adapter QUftOpaque.engine QUftOpaque.bridge].
  pose proof (message_mirrored iid sid host ltac:(lia) [] a e (mkRecorder []) (Some (RawMessage.bytes m))
    (RawMessage.size m) ltac:(lia) Hsound Hready eq_refl) as Hmir.
  pose proof (limited_message order_limit match_limit (RawMessage.bytes m) a (mkRecorder []) (RawMessage.size m) Hlim) as Hlim'.
  unfold m in Hmir, Hlim'. rewrite !candidate_kept in Hmir by done. rewrite candidate_kept in Hlim' by done.
  unfold m. rewrite candidate_kept by done.
  rewrite (Hpub []) in Hmir, Hlim'. cbn [fst] in Hlim'.
  destruct (NasdaqItchUftAdapter.on_message a (Some record) (alen record) _) as [a1 [[e1 b1] hosted]].
  destruct Hmir as (-> & Hsound' & Hready' & -> & Hhosted). cbn [app recorded] in Hhosted. subst hosted.
  split; [|exact Hlater]. exists (n + 2), e1, b.
  destruct (chain_counts cycles (chain_audit chain) calls) as [Hco Hct].
  constructor; cbn [QRun.runner QRun.audit chain_adapter chain_audit]; try done.
  - by apply all_callbacks_heard.
  - by rewrite Hco, Hpo, Ho.
  - by rewrite Hct, Hpt, Ht.
  - unfold alen in *. cbn [length] in Hbound. lia.
Qed.
Lemma messages_together cycles cycles' messages chain q :
  together messages chain q ->
  together [] (fold_left (wt_message route cycles) messages chain) (fold_left (q_message cycles') messages q).
Proof.
  revert chain q. induction messages as [|m messages IH]; intros chain q Ht; [done|]. cbn [fold_left].
  apply IH. by apply (message_together cycles cycles') in Ht as [Ht _].
Qed.

Definition begin_chain (c : WonderTraderChain (W := W)) : WonderTraderChain :=
  mkChain (chain_adapter c) (chain_framework c) (StrategyAudit.begin_message (chain_audit c)).
Definition begin_q (q : QRun.t) : QRun.t := q <| QRun.audit ::= StrategyAudit.begin_message |>.

Lemma begin_together messages chain q : together messages chain q -> together messages (begin_chain chain) (begin_q q).
Proof. intros (n & e & a & []). exists n, e, a. constructor; try done. by apply heard_begin. Qed.

(** The callbacks counted are the events published. *)
Lemma callbacks_together messages chain q :
  together messages chain q ->
  StrategyAudit.callbacks (chain_audit chain) = events (chain_adapter chain) /\
  StrategyAudit.callbacks (QRun.audit q) = events (chain_adapter chain).
Proof.
  intros (n & e & a & []). destruct paired_heard0, paired_held0. unfold StrategyAudit.callbacks, events.
  rewrite <- heard_orders, <- heard_transactions, paired_orders0, paired_transactions0.
  rewrite wrap_small; [done|]. unfold alen in *. lia.
Qed.

(** ** What the checks find after a replay *)

Lemma counts_common r a :
  agrees 0 r a -> WtsAdapterStats.errors (PsxWtsAdapter.stats_ r) = 0 -> forall e b,
  CommonStats.common_q (QUftOpaque.quft_stats (Some (QUftOpaque.mk e b (Some a)))) =
    CommonStats.common_wts (PsxWtsAdapter.stats r).
Proof.
  intros Ha He e b. pose proof (agrees_counts _ _ _ Ha) as [= H1 H2 H3 H4 H5 H6 H7 H8 H9 H10].
  pose proof (agrees_peak _ _ _ Ha) as Hp. pose proof (agrees_capacity _ _ _ Ha) as Hcap.
  unfold QUftOpaque.quft_stats, CommonStats.common_q, CommonStats.common_wts, PsxWtsAdapter.stats, NasdaqItchUftAdapter.stats.
  cbn -[wrap]. rewrite He in *. rewrite <- H1, <- H2, <- H3, <- H4, <- H5, <- H6, <- H7, <- H8, <- H9, <- H10, Hcap, <- Hp.
  done.
Qed.

Record verified (chain : WonderTraderChain (W := W)) (q : QRun.t) : Prop := {
  verified_stats : CommonStats.common_q (QUftOpaque.quft_stats (QRun.runner q)) = wt_stats chain;
  verified_active : QUftOpaque.quft_active_orders (QRun.runner q) = PsxWtsAdapter.active_orders (chain_adapter chain);
  verified_orders_delivered : QUftOpaqueStats.order_events_delivered (QUftOpaque.quft_stats (QRun.runner q)) =
    CommonStats.order_details (wt_stats chain);
  verified_transactions_delivered :
    QUftOpaqueStats.transaction_events_delivered (QUftOpaque.quft_stats (QRun.runner q)) =
    CommonStats.transactions (wt_stats chain);
  verified_deliveries : QUftOpaqueStats.callback_deliveries (QUftOpaque.quft_stats (QRun.runner q)) =
    CommonStats.outputs (wt_stats chain);
  verified_undelivered : QUftOpaqueStats.undelivered_events (QUftOpaque.quft_stats (QRun.runner q)) = 0;
  verified_wt_orders : StrategyAudit.order_callbacks (chain_audit chain) = CommonStats.order_details (wt_stats chain);
  verified_wt_transactions : StrategyAudit.transaction_callbacks (chain_audit chain) =
    CommonStats.transactions (wt_stats chain);
  verified_q_orders : StrategyAudit.order_callbacks (QRun.audit q) = CommonStats.order_details (wt_stats chain);
  verified_q_transactions : StrategyAudit.transaction_callbacks (QRun.audit q) =
    CommonStats.transactions (wt_stats chain);
  verified_heard : heard (chain_audit chain) (QRun.audit q)
}.

Lemma together_verified chain q : together [] chain q -> verified chain q.
Proof.
  intros (n & e & a & [Hrun _ [(H1 & H2 & H3 & H4) _] Hagrees _ Hheard Ho Ht _ _ _ (He & _ & _) _]).
  pose proof (counts_common _ _ Hagrees He e (QUftOpaque.mkBridge host iid)) as Hstats.
  destruct (agrees_active _ _ _ Hagrees) as [Hact _].
  pose proof (agrees_counts _ _ _ Hagrees) as [= Hod Htr _ _ _ _ _ _ _ _].
  unfold PsxWtsAdapter.stats, NasdaqItchUftAdapter.stats in *.
  constructor; rewrite ?Hrun; try done; unfold wt_stats, CommonStats.outputs, PsxWtsAdapter.stats;
    cbn [CommonStats.order_details CommonStats.transactions CommonStats.common_wts].
  - change (UftAdapterStats.order_events_delivered (NasdaqItchUftAdapter.stats_ a) =
      WtsAdapterStats.order_details (PsxWtsAdapter.stats_ (chain_adapter chain))). by rewrite H1.
  - change (UftAdapterStats.transaction_events_delivered (NasdaqItchUftAdapter.stats_ a) =
      WtsAdapterStats.transactions (PsxWtsAdapter.stats_ (chain_adapter chain))). by rewrite H2.
  - change (UftAdapterStats.callback_deliveries (NasdaqItchUftAdapter.stats_ a) =
      u64 (WtsAdapterStats.order_details (PsxWtsAdapter.stats_ (chain_adapter chain)) +
        WtsAdapterStats.transactions (PsxWtsAdapter.stats_ (chain_adapter chain)))). by rewrite H4, Hod, Htr.
  - by rewrite <- (heard_orders _ _ Hheard).
  - by rewrite <- (heard_transactions _ _ Hheard).
Qed.
(** *** Timed *)

Definition wt_loop (env_cpu : Z) (clock : nat -> Reading.t) :=
  replay_timed_loop (wt_message route) (fun c => StrategyAudit.callbacks (chain_audit c)) begin_chain
    (fun c => StrategyAudit.first_arrival_cycles (chain_audit c)) env_cpu clock.
Definition q_loop (env_cpu : Z) (clock : nat -> Reading.t) :=
  replay_timed_loop q_message (fun q => StrategyAudit.callbacks (QRun.audit q)) begin_q
    (fun q => StrategyAudit.first_arrival_cycles (QRun.audit q)) env_cpu clock.

Lemma adapter_step cycles chain m :
  chain_adapter (wt_message route cycles chain m) = reference_step (chain_adapter chain) m.
Proof.
  unfold wt_message, reference_step. destruct (PsxWtsAdapter.on_message _ _ _) as [r calls].
  by destruct (fold_left _ _ _).
Qed.

Lemma adapter_run cycles messages chain :
  chain_adapter (fold_left (wt_message route cycles) messages chain) = reference_run (chain_adapter chain) messages.
Proof.
  revert chain. induction messages as [|m messages IH]; intros chain; [done|]. cbn [fold_left]. by rewrite IH, adapter_step.
Qed.

(** An arrival is recorded exactly when something was published. *)
Lemma arrivals_step {A} (count count' before after : Z) (l : list A) (x : A) :
  count = before -> count' = after ->
  (if negb (count' =? count) then l ++ [x] else l) = [] <-> l = [] /\ after = before.
Proof.
  intros -> ->. destruct (Z.eqb_spec after before); cbn [negb]; [tauto|].
  split; [intros [_ [=]]%app_nil|by intros [_ ?]].
Qed.

Lemma timed_together cpu clock clock' i messages chain q r r' :
  together messages chain q ->
  let w := wt_loop cpu clock i messages chain r in
  let x := q_loop cpu clock' i messages q r' in
  together [] w.1 x.1 /\ chain_adapter w.1 = reference_run (chain_adapter chain) messages /\
  events (chain_adapter chain) <= events (chain_adapter w.1) /\
  (TimedResult.callback_arrivals w.2 = [] <->
    TimedResult.callback_arrivals r = [] /\ events (chain_adapter w.1) = events (chain_adapter chain)) /\
  (TimedResult.callback_arrivals x.2 = [] <->
    TimedResult.callback_arrivals r' = [] /\ events (chain_adapter w.1) = events (chain_adapter chain)).
Proof.
  revert i chain q r r'. induction messages as [|m messages IH]; intros i chain q r r' Ht; cbn zeta.
  { cbn. split_and!; [done|done|lia|tauto|tauto]. }
  unfold wt_loop, q_loop. cbn [replay_timed_loop]. fold (wt_loop cpu clock) (q_loop cpu clock').
  pose proof (begin_together _ _ _ Ht) as Hb.
  destruct (message_together (Reading.arrival_cycles (clock i)) (Reading.arrival_cycles (clock' i)) m messages _ _ Hb)
    as [Ht1 Hl].
  destruct (callbacks_together _ _ _ Ht) as [Hc0 Hq0]. destruct (callbacks_together _ _ _ Ht1) as [Hc1 Hq1].
  set (chain1 := wt_message route _ (begin_chain chain) m) in *. set (q1 := q_message _ (begin_q q) m) in *.
  match goal with |- context [wt_loop cpu clock (S i) messages chain1 ?x] => set (r1 := x) end.
  match goal with |- context [q_loop cpu clock' (S i) messages q1 ?x] => set (r1' := x) end.
  destruct (IH (S i) chain1 q1 r1 r1' Ht1) as (Hend & Had & Hle & Hw & Hx).
  assert (TimedResult.callback_arrivals r1 = [] <->
    TimedResult.callback_arrivals r = [] /\ events (chain_adapter chain1) = events (chain_adapter chain)) as Hr1.
  { rewrite <- (arrivals_step _ _ _ _ (TimedResult.callback_arrivals r) 
      (u64 (StrategyAudit.first_arrival_cycles (chain_audit chain1) - Reading.begin_cycles (clock i))) Hc0 Hc1).
    unfold r1. by repeat case_match. }
  assert (TimedResult.callback_arrivals r1' = [] <->
    TimedResult.callback_arrivals r' = [] /\ events (chain_adapter chain1) = events (chain_adapter chain)) as Hr1'.
  { rewrite <- (arrivals_step _ _ _ _ (TimedResult.callback_arrivals r')
      (u64 (StrategyAudit.first_arrival_cycles (QRun.audit q1) - Reading.begin_cycles (clock' i))) Hq0 Hq1).
    unfold r1'. by repeat case_match. }
  assert (events (chain_adapter chain) <= events (chain_adapter chain1)) as Hle1.
  { destruct Hl. unfold events in *. cbn [begin_chain chain_adapter] in *. lia. }
  split_and!; [done|rewrite Had; unfold chain1; by rewrite adapter_step|lia|rewrite Hw, Hr1|rewrite Hx, Hr1'];
    clear -Hle Hle1; (split; [intros [[? ?] ?]; split; [done|lia]|intros [? ?]; split_and!; [done|lia..]]).
Qed.
End bench.

(** Of the samples a latency report prints only those of callbacks can be
    missing. *)
Lemma latency_undefined {W} (env : Environment.t W) corpus rw rq :
  Corpus.messages corpus <> [] -> alen (Corpus.messages corpus) < 2 ^ 32 ->
  length (TimedResult.all_messages rw) = length (Corpus.messages corpus) ->
  length (TimedResult.all_messages rq) = length (Corpus.messages corpus) ->
  alen (TimedResult.callback_arrivals rw) < 2 ^ 32 -> alen (TimedResult.callback_arrivals rq) < 2 ^ 32 ->
  (TimedResult.callback_arrivals rw = [] <-> TimedResult.callback_arrivals rq = []) ->
  latency_report env corpus rw rq = None <-> TimedResult.callback_arrivals rw = [].
Proof.
  intros Hsome Hlen Hw Hq Hcw Hcq Hsame. unfold latency_report.
  set (n := length (Corpus.messages corpus)) in *. assert (n <> 0%nat) as Hn by (intros Hz%nil_length_inv; done).
  destruct (three_percentiles (map (Environment.empty_clock env) (seq 0 n))) as ([overhead ->] & _).
  { intros E%(f_equal length). by rewrite length_map, length_seq in E. }
  { unfold alen in *. by rewrite length_map, length_seq. }
  cbn [mbind option_bind].
  assert (forall l, length l = n -> summarize l overhead <> None) as Hfull.
  { intros l Hl Hs%summary_inside; [by subst l|]. unfold alen in *. by rewrite Hl. }
  destruct (summarize (TimedResult.all_messages rw) overhead) as [wa|] eqn:Ewa; [|by apply Hfull in Ewa].
  destruct (summarize (TimedResult.all_messages rq) overhead) as [qa|] eqn:Eqa; [|by apply Hfull in Eqa].
  cbn [mbind option_bind].
  pose proof (summary_inside (TimedResult.callback_arrivals rw) overhead Hcw) as Hsw.
  pose proof (summary_inside (TimedResult.callback_arrivals rq) overhead Hcq) as Hsq.
  destruct (summarize (TimedResult.callback_arrivals rw) overhead) as [wf|]; [|cbn; tauto].
  destruct (summarize (TimedResult.callback_arrivals rq) overhead) as [qf|]; [|cbn; tauto].
  cbn. split; [done|]. intros E. by apply Hsw in E.
Qed.

Lemma same_refl s : CommonStats.same s s = true.
Proof. unfold CommonStats.same. by rewrite !Z.eqb_refl. Qed.

(** The passes of these durations reach five seconds. *)
Fixpoint lasts (seconds : Double.t) (durations : list Double.t) : bool :=
  if Double.ltb seconds kMinimumThroughputSeconds then
    match durations with
    | [] => false
    | elapsed :: durations' => lasts (Double.add seconds elapsed) durations'
    end
  else true.

(** ** One instrument *)

Section instrument.
Context {W : Type} (route : W -> WtsCall -> W * list WtsCall) (date : Z) (symbol code : list Z) (corpus : Corpus.t).
Hypothesis Hroute : forwards route date symbol.
Hypothesis Hkept : Forall kept (Corpus.messages corpus).
Hypothesis Hlen : alen (Corpus.messages corpus) < 2 ^ 32.
Hypothesis Hlocator : 0 <= Corpus.locator corpus.
Hypothesis Hcode : 1 <= code_length code <= 31.

(** The reference at the end of the corpus. *)
Definition reference : PsxWtsAdapter.t :=
  reference_run (PsxWtsAdapter.make date (Corpus.locator corpus) symbol) (Corpus.messages corpus).
Definition expected : CommonStats.t := CommonStats.common_wts (PsxWtsAdapter.stats reference).

Hypothesis Herrors : WtsAdapterStats.errors (PsxWtsAdapter.stats_ reference) = 0.

Abbreviation factory := (q_factory corpus code expected).
Abbreviation both := (together (W := W) date symbol (QFactory.instrument_id factory) (QFactory.strategy_id factory) 1
  (QFactory.order_capacity factory) (QFactory.match_capacity factory)).
Abbreviation replay_wt := (fold_left (wt_message route 0) (Corpus.messages corpus)).
Abbreviation replay_q := (fold_left (q_message 0) (Corpus.messages corpus)).

Lemma reference_held : held 0 (2 * alen (Corpus.messages corpus)) reference.
Proof.
  destruct (run_moves _ (Corpus.messages corpus) 0 (make_held date (Corpus.locator corpus) symbol)) as [H _]; [lia|done].
Qed.

(** The capacities derived suffice. *)
Lemma capacities_suffice :
  1 <= QFactory.order_capacity factory <= 2 ^ 62 /\ 1 <= QFactory.match_capacity factory <= 2 ^ 62 /\
  fits_tables (QFactory.order_capacity factory) (QFactory.match_capacity factory) reference.
Proof.
  destruct reference_held. unfold fits_tables, q_factory. cbn [QFactory.order_capacity QFactory.match_capacity].
  unfold expected. cbn [CommonStats.peak_active_orders CommonStats.matches CommonStats.non_printable CommonStats.common_wts].
  unfold PsxWtsAdapter.stats. assert (0 <= Z.of_nat (size (PsxWtsAdapter.orders_ reference))) by lia.
  rewrite (wrap_small _ (_ + _)) by lia. rewrite !wrap_small by lia. lia.
Qed.

Lemma identifiers_valid :
  0 <= QFactory.instrument_id factory < QUftOpaque.kInstrumentCapacity /\
  0 <= QFactory.strategy_id factory < QUftOpaque.kStrategyCapacity.
Proof.
  unfold q_factory. cbn [QFactory.instrument_id QFactory.strategy_id].
  unfold QUftOpaque.quft_instrument_capacity, QUftOpaque.quft_strategy_capacity, QUftOpaque.kInstrumentCapacity,
    QUftOpaque.kStrategyCapacity.
  pose proof (Z.mod_pos_bound (Corpus.locator corpus) 16383 ltac:(lia)).
  pose proof (Z.mod_pos_bound (u32 (Corpus.locator corpus * 17)) 4095 ltac:(lia)).
  change (16384 - 1) with 16383. change (4096 - 1) with 4095. lia.
Qed.

(** A runner can be created, and starts in step with a new chain. *)
Lemma fresh_together :
  exists runner, QFactory.create factory = Some runner /\
    forall w x y enable probe,
      both (Corpus.messages corpus) (new_chain date corpus symbol w (StrategyAudit.reset enable probe x))
        (QRun.mk (Some runner) (StrategyAudit.reset enable probe y)).
Proof.
  destruct identifiers_valid as [Hi Hs]. destruct capacities_suffice as (Ho & Hm & Hfits).
  destruct (create_accepted (QFactory.locator factory) (QFactory.instrument_id factory) (QFactory.strategy_id factory)
    (QFactory.order_capacity factory) (QFactory.match_capacity factory) 1 code ltac:(lia) ltac:(lia) ltac:(lia)
    ltac:(lia) Hcode) as (e & Hready & Hcreate).
  destruct (make_agrees symbol date (QFactory.instrument_id factory) (QFactory.locator factory)
    (QFactory.order_capacity factory) (QFactory.match_capacity factory) 0 Ho Hm ltac:(lia) ltac:(lia))
    as (a & Ha & Hagrees & Hsound & Hlo & Hlm).
  eexists. split.
  { unfold QFactory.create. cbn [QFactory.strategy QFactory.standard_code q_factory].
    change (QFactory.standard_code factory) with code. rewrite Hcreate, Ha. cbn [mbind option_bind]. reflexivity. }
  intros w x y enable probe. exists 0, e, a. constructor; first [done|apply make_held|lia].
Qed.

(** The untimed replays. *)
Lemma plain_replay runner w x y enable probe :
  QFactory.create factory = Some runner ->
  let chain := replay_wt (new_chain date corpus symbol w (StrategyAudit.reset enable probe x)) in
  let q := replay_q (QRun.mk (Some runner) (StrategyAudit.reset enable probe y)) in
  verified chain q /\ both [] chain q /\ chain_adapter chain = reference.
Proof.
  intros Hc. destruct fresh_together as (runner' & Hc' & Hfresh). rewrite Hc in Hc'. injection Hc' as <-.
  destruct identifiers_valid as [Hi _].
  pose proof (messages_together route date symbol Hroute _ _ _ _ _ Hi 0 0 _ _ _ (Hfresh w x y enable probe)) as Ht.
  split_and!; [by eapply together_verified|exact Ht|by rewrite adapter_run].
Qed.

Hypothesis Hactive : PsxWtsAdapter.active_orders reference = 0.
Context (w0 : W).

(** One pass of either sustained replay changes nothing it checks. *)
Lemma count_passes elapsed messages n r :
  ThroughputResult.verified_callbacks r = ThroughputResult.outputs r ->
  let r' := ThroughputResult.count elapsed messages n n r in
  ThroughputResult.verified_callbacks r' = ThroughputResult.outputs r' /\
  ThroughputResult.seconds r' = Double.add (ThroughputResult.seconds r) elapsed.
Proof. intros Hr. cbn. by rewrite Hr. Qed.

Lemma throughput_q_ends audit result durations :
  ThroughputResult.verified_callbacks result = ThroughputResult.outputs result ->
  match throughput_q (Corpus.messages corpus) factory expected audit result durations with
  | Done (_, r) => lasts (ThroughputResult.seconds result) durations = true /\
      ThroughputResult.verified_callbacks r = ThroughputResult.outputs r
  | Threw _ => False
  | StillRunning => lasts (ThroughputResult.seconds result) durations = false
  end.
Proof.
  revert audit result. induction durations as [|elapsed durations IH]; intros audit result Hr;
    cbn [throughput_q lasts]; (destruct (Double.ltb _ _); [|done]); [done|].
  destruct fresh_together as (runner & Hc & _). rewrite Hc. cbv zeta.
  destruct (plain_replay runner w0 audit audit false false Hc) as (Hv & _ & Had).
  set (chain := replay_wt _) in *. set (q := replay_q _) in *. clearbody chain q. destruct Hv.
  assert (wt_stats chain = expected) as He by (unfold wt_stats, expected; by rewrite Had).
  rewrite verified_stats0, He, same_refl, verified_active0, Had, Hactive, verified_orders_delivered0,
    verified_transactions_delivered0, verified_deliveries0, verified_undelivered0, verified_q_orders0,
    verified_q_transactions0, He, !Z.eqb_refl. cbn [negb orb].
  assert (StrategyAudit.callbacks (QRun.audit q) = CommonStats.outputs expected) as Hcb.
  { unfold StrategyAudit.callbacks, CommonStats.outputs. by rewrite verified_q_orders0, verified_q_transactions0, He. }
  rewrite Hcb, Z.eqb_refl. cbn [negb orb].
  destruct (count_passes elapsed (alen (Corpus.messages corpus)) (CommonStats.outputs expected) result Hr) as [Hr' Hs].
  rewrite <- Hs. by apply IH.
Qed.

Lemma throughput_wt_ends w audit result durations :
  ThroughputResult.verified_callbacks result = ThroughputResult.outputs result ->
  match throughput_wt route corpus date symbol expected w audit result durations with
  | Done (_, _, r) => lasts (ThroughputResult.seconds result) durations = true /\
      ThroughputResult.verified_callbacks r = ThroughputResult.outputs r
  | Threw _ => False
  | StillRunning => lasts (ThroughputResult.seconds result) durations = false
  end.
Proof.
  revert w audit result. induction durations as [|elapsed durations IH]; intros w audit result Hr;
    cbn [throughput_wt lasts]; (destruct (Double.ltb _ _); [|done]); [done|]. cbv zeta.
  destruct fresh_together as (runner & Hc & _).
  destruct (plain_replay runner w audit audit false false Hc) as (Hv & _ & Had).
  set (chain := replay_wt _) in *. set (q := replay_q _) in *. clearbody chain q. destruct Hv.
  assert (wt_stats chain = expected) as He by (unfold wt_stats, expected; by rewrite Had).
  assert (StrategyAudit.callbacks (chain_audit chain) = CommonStats.outputs expected) as Hcb.
  { unfold StrategyAudit.callbacks, CommonStats.outputs. by rewrite verified_wt_orders0, verified_wt_transactions0, He. }
  rewrite Hcb, verified_wt_orders0, verified_wt_transactions0, He, same_refl, Had, Hactive, !Z.eqb_refl.
  cbn [negb orb].
  destruct (count_passes elapsed (alen (Corpus.messages corpus)) (CommonStats.outputs expected) result Hr) as [Hr' Hs].
  rewrite <- Hs. by apply IH.
Qed.

(** ** The program after the corpus is loaded *)

Hypothesis Hunknown : WtsAdapterStats.unknown_broken_trades (PsxWtsAdapter.stats_ reference) = 0.

Lemma warm_up_passes w :
  exists w' wt q, warm_up route corpus date symbol code w = inl (mkWarm w' wt q expected factory) /\ heard wt q.
Proof.
  destruct fresh_together as (runner & Hc & _). unfold warm_up.
  destruct (plain_replay runner w StrategyAudit.make StrategyAudit.make true false Hc) as (Hv & _ & Had).
  set (chain := replay_wt _) in *. set (q := replay_q _) in *.
  assert (wt_stats chain = expected) as He by (unfold wt_stats, expected; by rewrite Had).
  cbv zeta. rewrite He, Had, Hactive, Hc. change (CommonStats.errors expected) with
    (WtsAdapterStats.errors (PsxWtsAdapter.stats_ reference)). rewrite Herrors. cbn [Z.eqb negb orb].
  fold q. clearbody chain q. destruct Hv. destruct verified_heard0.
  assert (audit_valid expected (QUftOpaque.quft_stats (QRun.runner q)) (QUftOpaque.quft_active_orders (QRun.runner q))
    (chain_audit chain) (QRun.audit q) = true) as ->.
  { unfold audit_valid.
    rewrite verified_stats0, He, same_refl, verified_active0, Had, Hactive, verified_orders_delivered0,
      verified_transactions_delivered0, verified_deliveries0, verified_undelivered0, verified_wt_orders0,
      verified_wt_transactions0, verified_q_orders0, verified_q_transactions0, He, heard_fingerprint, !Z.eqb_refl.
    change (CommonStats.errors expected) with (WtsAdapterStats.errors (PsxWtsAdapter.stats_ reference)).
    change (CommonStats.unknown_broken expected) with
      (WtsAdapterStats.unknown_broken_trades (PsxWtsAdapter.stats_ reference)). by rewrite Herrors, Hunknown. }
  by eexists _, _, _.
Qed.

Hypothesis Hsome : Corpus.messages corpus <> [].

Abbreviation stayed_on env clock :=
  (stayed (Environment.cpu env) clock 0 (length (Corpus.messages corpus))).

(** What both timed replays report. *)
Lemma timed_outcome (env : Environment.t W) runner w wt q :
  QFactory.create factory = Some runner ->
  let '(chain, wt_timed) := time_wt route env corpus date symbol w wt in
  exists q' q_timed, time_q env corpus factory q = inl (q', q_timed) /\
    timed_valid expected (chain_audit chain) (QRun.audit q') wt_timed q_timed
      (QUftOpaque.quft_stats (QRun.runner q')) =
      stayed_on env (Environment.wt_clock env) && stayed_on env (Environment.q_clock env) /\
    (latency_report env corpus wt_timed q_timed = None <-> events reference = 0).
Proof.
  intros Hc. destruct fresh_together as (runner' & Hc' & Hfresh). rewrite Hc in Hc'. injection Hc' as <-.
  destruct identifiers_valid as [Hi _]. specialize (Hfresh w wt q false true).
  unfold time_wt, time_q, replay_timed. rewrite Hc.
  pose proof (timed_together route date symbol Hroute _ _ _ _ _ Hi (Environment.cpu env) (Environment.wt_clock env)
    (Environment.q_clock env) 0 _ _ _ TimedResult.zero TimedResult.zero Hfresh) as (Ht & Had & _ & Hw & Hx).
  destruct (timed_lengths (wt_message route) (fun c => StrategyAudit.callbacks (chain_audit c)) begin_chain
    (fun c => StrategyAudit.first_arrival_cycles (chain_audit c)) (Environment.cpu env) (Environment.wt_clock env) 0
    (Corpus.messages corpus) (new_chain date corpus symbol w (StrategyAudit.reset false true wt)) TimedResult.zero)
    as [Hwa Hwc].
  destruct (timed_lengths q_message (fun q => StrategyAudit.callbacks (QRun.audit q)) begin_q
    (fun q => StrategyAudit.first_arrival_cycles (QRun.audit q)) (Environment.cpu env) (Environment.q_clock env) 0
    (Corpus.messages corpus) (QRun.mk (Some runner) (StrategyAudit.reset false true q)) TimedResult.zero) as [Hqa Hqc].
  destruct (timed_migrations (wt_message route) (fun c => StrategyAudit.callbacks (chain_audit c)) begin_chain
    (fun c => StrategyAudit.first_arrival_cycles (chain_audit c)) (Environment.cpu env) (Environment.wt_clock env) 0
    (Corpus.messages corpus) (new_chain date corpus symbol w (StrategyAudit.reset false true wt)) TimedResult.zero)
    as [_ Hwm]; [done|cbn; lia|].
  destruct (timed_migrations q_message (fun q => StrategyAudit.callbacks (QRun.audit q)) begin_q
    (fun q => StrategyAudit.first_arrival_cycles (QRun.audit q)) (Environment.cpu env) (Environment.q_clock env) 0
    (Corpus.messages corpus) (QRun.mk (Some runner) (StrategyAudit.reset false true q)) TimedResult.zero)
    as [_ Hqm]; [done|cbn; lia|].
  change (replay_timed_loop (wt_message route) _ _ _ (Environment.cpu env) (Environment.wt_clock env)) with
    (wt_loop route (Environment.cpu env) (Environment.wt_clock env)) in *.
  change (replay_timed_loop q_message _ _ _ (Environment.cpu env) (Environment.q_clock env)) with
    (q_loop (Environment.cpu env) (Environment.q_clock env)) in *.
  destruct (wt_loop _ _ _ _ _ _ _) as [chain rw]. destruct (q_loop _ _ _ _ _ _) as [q' rq].
  cbn [fst snd TimedResult.zero TimedResult.callback_arrivals TimedResult.all_messages TimedResult.migrations length] in *.
  change (reference_run _ _) with reference in Had. rewrite Had in Hw, Hx.
  eexists q', _. split; [reflexivity|].
  pose proof (together_verified _ _ _ _ _ _ _ _ _ Ht) as Hv.
  assert (wt_stats chain = expected) as He by (unfold wt_stats, expected; by rewrite Had). split.
  - destruct Hv, verified_heard0. unfold timed_valid.
    cbn [TimedResult.stats TimedResult.active_orders TimedResult.migrations set_field].
    rewrite verified_stats0, He, same_refl, verified_active0, Had, Hactive, verified_orders_delivered0,
      verified_transactions_delivered0, verified_deliveries0, verified_undelivered0, heard_orders, heard_transactions,
      heard_consumed, He, !Z.eqb_refl. cbn [andb].
    rewrite !andb_true_r. f_equal; apply eq_iff_eq_true; rewrite Z.eqb_eq; [apply Hwm|apply Hqm].
  - rewrite latency_undefined; cbn [TimedResult.all_messages TimedResult.callback_arrivals set_field].
    + rewrite Hw. cbn. tauto.
    + done.
    + done.
    + lia.
    + lia.
    + unfold alen in *. lia.
    + unfold alen in *. lia.
    + rewrite Hw, Hx. tauto.
Qed.

(** How the measuring part ends. *)
Lemma measure_outcome (env : Environment.t W) qwt w wt q :
  measure route env qwt corpus date symbol (mkWarm w wt q expected factory) =
    if events reference =? 0 then Undefined
    else if lasts (Double.of_Z 0) (Environment.wt_durations env) && lasts (Double.of_Z 0) (Environment.q_durations env)
    then Exit (if stayed_on env (Environment.wt_clock env) && stayed_on env (Environment.q_clock env) then 0 else 6)
    else Running.
Proof.
  destruct fresh_together as (runner & Hc & _). unfold measure, timed_replays.
  cbn [warm_expected warm_factory warm_q warm_framework warm_wt].
  pose proof (timed_outcome env runner w wt q Hc) as Ht.
  destruct (time_wt route env corpus date symbol w wt) as [chain rw]. destruct Ht as (q' & rq & -> & -> & Hlat).
  destruct (latency_report env corpus rw rq) as [report|] eqn:E.
  2: { by rewrite (proj1 Hlat eq_refl). }
  destruct (Z.eqb_spec (events reference) 0) as [Hz|_]; [by apply Hlat in Hz|].
  pose proof (throughput_q_ends (QRun.audit q') ThroughputResult.zero (Environment.q_durations env) eq_refl) as Hq.
  pose proof (throughput_wt_ends (chain_framework chain) (chain_audit chain) ThroughputResult.zero
    (Environment.wt_durations env) eq_refl) as Hw.
  unfold sustained. cbn [ThroughputResult.seconds ThroughputResult.zero] in *. cbv zeta.
  destruct (throughput_q _ _ _ _ _ _) as [[aq rq']| |], (throughput_wt _ _ _ _ _ _ _ _ _) as [[[w' aw] rw']| |];
    try done.
  - destruct Hq as [-> Hq], Hw as [-> Hw]. destruct qwt; cbn [andb]; by rewrite Hq, Hw, !Z.eqb_refl, andb_true_r.
  - destruct Hq as [-> Hq]. rewrite Hw. by destruct qwt.
  - destruct Hw as [-> Hw]. rewrite Hq. by destruct qwt.
  - rewrite Hq, Hw. by destruct qwt.
Qed.
End instrument.

(** A reference that complains ends the program at the warm-up. *)
Lemma warm_up_fails {W} (route : W -> WtsCall -> W * list WtsCall) date symbol code corpus w :
  forwards route date symbol -> Forall kept (Corpus.messages corpus) -> alen (Corpus.messages corpus) < 2 ^ 32 ->
  1 <= code_length code <= 31 ->
  let last := reference date symbol corpus in
  (WtsAdapterStats.errors (PsxWtsAdapter.stats_ last) =? 0) && (PsxWtsAdapter.active_orders last =? 0) &&
    (WtsAdapterStats.unknown_broken_trades (PsxWtsAdapter.stats_ last) =? 0) = false ->
  exists e, warm_up route corpus date symbol code w = inr e.
Proof.
  intros Hroute Hkept Hlen Hcode last Hbad. unfold warm_up. cbv zeta.
  set (chain := fold_left (wt_message route 0) _ _).
  assert (chain_adapter chain = last) as Had by (unfold chain; by rewrite adapter_run).
  assert (wt_stats chain = expected date symbol corpus) as He by (unfold wt_stats, expected; by rewrite Had).
  rewrite He, Had. change (CommonStats.errors _) with (WtsAdapterStats.errors (PsxWtsAdapter.stats_ last)).
  destruct (Z.eqb_spec (WtsAdapterStats.errors (PsxWtsAdapter.stats_ last)) 0) as [Herr|_]; [|by eexists].
  destruct (PsxWtsAdapter.active_orders last =? 0); [|by eexists]. cbn [negb orb andb] in *.
  destruct (QFactory.create _) as [runner|]; [|by eexists].
  unfold audit_valid. change (CommonStats.unknown_broken _) with
    (WtsAdapterStats.unknown_broken_trades (PsxWtsAdapter.stats_ last)).
  rewrite Hbad, andb_false_r. by eexists.
Qed.

(** ** The corpus *)

Lemma keep_shown symbol c d : keep symbol c (shown d) = keep symbol c d.
Proof.
  destruct d as [m size]. unfold shown, keep. cbn [fst snd].
  assert (raw_message (take (Z.to_nat size) m) size = raw_message m size) as ->
    by (unfold raw_message; by rewrite take_take, Nat.min_id).
  assert ((if (byte_at (take (Z.to_nat size) m) 0 =? chr "R") && (size =? 39) &&
      bool_decide (trimmed_symbol (take (Z.to_nat size) m +! 11) = symbol)
    then c <| Corpus.locator := read_u16 (take (Z.to_nat size) m +! 1) |> else c) =
    (if (byte_at m 0 =? chr "R") && (size =? 39) && bool_decide (trimmed_symbol (m +! 11) = symbol)
    then c <| Corpus.locator := read_u16 (m +! 1) |> else c)) as ->.
  { destruct (Z.eqb_spec size 39) as [->|]; [|by rewrite !andb_false_r].
    change (@trimmed_symbol) with (@Replay.trimmed_symbol).
    by rewrite byte_at_take, trimmed_within, read_u16_take by lia. }
  destruct (Z.leb_spec 11 size); [|by rewrite !andb_false_r]. by rewrite read_u16_take by lia.
Qed.

Lemma keep_all_shown symbol c calls : keep_all symbol c (map shown calls) = keep_all symbol c calls.
Proof.
  revert c. induction calls as [|d calls IH]; intros c; cbn [map keep_all]; [done|].
  rewrite keep_shown. destruct (keep symbol c d); [apply IH|done].
Qed.

(** What the corpus of regular records holds. *)
Lemma keep_all_kept symbol records c c' :
  Forall (fun m => record_ok m /\ regular m = true) records ->
  keep_all symbol c (map sized records) = Some c' -> Forall kept (Corpus.messages c) -> 0 <= Corpus.locator c ->
  Forall kept (Corpus.messages c') /\ 0 <= Corpus.locator c' /\
  alen (Corpus.messages c') <= alen (Corpus.messages c) + alen records /\
  (Corpus.locator c' <> 0 -> Corpus.locator c <> 0 \/ alen symbol <= 8).
Proof.
  intros Hr. revert c. induction Hr as [|m records [[Hsz Hb] Hreg] Hr IH]; intros c Hk Hc Hl; cbn [map keep_all] in Hk.
  { injection Hk as <-. unfold alen. cbn [length]. split_and!; [done|done|lia|by left]. }
  destruct (keep symbol c (sized m)) as [c1|] eqn:E; [|done]. cbn [mbind option_bind] in Hk.
  assert (Forall kept (Corpus.messages c1) /\ 0 <= Corpus.locator c1 /\
    alen (Corpus.messages c1) <= alen (Corpus.messages c) + 1 /\
    (Corpus.locator c1 <> 0 -> Corpus.locator c <> 0 \/ alen symbol <= 8)) as (H1 & H2 & H3 & H4).
  { revert E. unfold keep, sized.
    cbv zeta. set (c0 := if _ && bool_decide _ then _ else c).
    assert (Corpus.messages c0 = Corpus.messages c /\ 0 <= Corpus.locator c0 /\
      (Corpus.locator c0 <> 0 -> Corpus.locator c <> 0 \/ alen symbol <= 8)) as (Hm & Hloc & Hsym).
    { unfold c0. destruct (_ && bool_decide _) eqn:Eb; [|by split_and!; [| |left]].
      split_and!; [done|cbn; apply read_u16_range; by apply advance_bytes|]. intros _. right.
      apply andb_true_iff in Eb as [_ <-%bool_decide_eq_true]. unfold trimmed_symbol, alen. rewrite length_take.
      pose proof (trim_loop_le 8 (m +! 11)). change trimmed_length with trim_loop. lia. }
    clearbody c0. destruct (_ && _).
    - destruct (Z.ltb_spec kMaximumMessageSize (alen m)) as [|Hle]; [done|]. intros [= <-]. cbn. rewrite Hm.
      split_and!; [|done| |done].
      + apply Forall_app. split; [done|]. apply Forall_singleton. by exists m.
      + unfold alen. rewrite length_app. cbn. lia.
    - intros [= <-]. rewrite Hm. split_and!; [done|done|lia|done]. }
  destruct (IH c1 Hk H1 H2) as (I1 & I2 & I3 & I4). split_and!; [done|done| |].
  - unfold alen in *. cbn [length]. lia.
  - intros Hne. destruct (I4 Hne) as [?|?]; [by apply H4|by right].
Qed.

(** ** The code of the instrument *)

Lemma code_length_bounds f code k j :
  0 <= k <= j -> code !! Z.to_nat j = Some 0 -> k <= UftMarketDataEngine.code_length_loop f code k <= j.
Proof.
  revert k. induction f as [|f IH]; intros k Hk Hj; cbn [UftMarketDataEngine.code_length_loop]; [lia|].
  destruct (_ && negb _) eqn:E; [|lia]. destruct (decide (k = j)) as [->|].
  { rewrite Hj in E. cbn in E. by rewrite andb_false_r in E. }
  specialize (IH (k + 1) ltac:(lia) Hj). lia.
Qed.

Lemma standard_code_length symbol :
  alen symbol <= 8 -> 1 <= code_length ((text "PSX." ++ symbol) ++ [0]) <= 31.
Proof.
  intros Hs. change (code_length ?c) with (UftMarketDataEngine.code_length_loop 33 c 0).
  change (UftMarketDataEngine.code_length_loop 33 ((text "PSX." ++ symbol) ++ [0]) 0) with
    (UftMarketDataEngine.code_length_loop 32 ((text "PSX." ++ symbol) ++ [0]) 1).
  assert (0 <= alen symbol) by (unfold alen; lia).
  pose proof (code_length_bounds 32 ((text "PSX." ++ symbol) ++ [0]) 1 (4 + alen symbol) ltac:(lia)) as Hb.
  destruct Hb; [|lia].
  replace (Z.to_nat (4 + alen symbol)) with (length (text "PSX." ++ symbol)).
  2: { rewrite length_app. unfold alen. change (length (text "PSX.")) with 4%nat. lia. }
  by rewrite list_lookup_middle.
Qed.

(** ** The whole program *)

(** The orders of the two paths that can be asked for. *)
Definition path_orders : list (list (list Z)) := [[]; [text "WTQ"]; [text "QWT"]].

(** How a run ends, by what the reference adapter is left with. *)
Definition exit_of {W} (env : Environment.t W) (messages : nat) (last : PsxWtsAdapter.t) : Outcome :=
  let counts := PsxWtsAdapter.stats_ last in
  if (WtsAdapterStats.errors counts =? 0) && (PsxWtsAdapter.active_orders last =? 0) &&
     (WtsAdapterStats.unknown_broken_trades counts =? 0)
  then
    if events last =? 0 then Undefined
    else if lasts (Double.of_Z 0) (Environment.wt_durations env) &&
            lasts (Double.of_Z 0) (Environment.q_durations env)
    then Exit (if stayed (Environment.cpu env) (Environment.wt_clock env) 0 messages &&
                  stayed (Environment.cpu env) (Environment.q_clock env) 0 messages then 0 else 6)
    else Running
  else Exit 1.

Lemma loaded_run {W} (route : W -> WtsCall -> W * list WtsCall) (env : Environment.t W) qwt value symbol corpus :
  forwards route (u32 value) symbol -> Forall kept (Corpus.messages corpus) ->
  alen (Corpus.messages corpus) < 2 ^ 32 -> 0 <= Corpus.locator corpus -> Corpus.messages corpus <> [] ->
  alen symbol <= 8 ->
  match warm_up route corpus (u32 value) symbol ((text "PSX." ++ symbol) ++ [0]) (Environment.framework env) with
  | inr _ => Exit 1
  | inl warm => measure route env qwt corpus (u32 value) symbol warm
  end = exit_of env (length (Corpus.messages corpus)) (reference (u32 value) symbol corpus).
Proof.
  intros Hroute Hkept Hlen Hloc Hsome Hsym. pose proof (standard_code_length symbol Hsym) as Hcode.
  unfold exit_of. cbv zeta. set (last := reference _ _ _).
  destruct (_ && _ && _) eqn:Eok.
  - apply andb_true_iff in Eok as [[He Ha]%andb_true_iff Hu]. apply Z.eqb_eq in He, Ha, Hu.
    destruct (warm_up_passes route _ _ _ _ Hroute Hkept Hlen Hcode He Ha Hu (Environment.framework env))
      as (w & wt & q & -> & _).
    by apply measure_outcome.
  - by destruct (warm_up_fails route _ _ _ _ (Environment.framework env) Hroute Hkept Hlen Hcode Eok) as [e ->].
Qed.

(** C7: On a file of regular records that holds the symbol's directory record
    and at least one message of its locator the checks of the benchmark never
    fail, given a framework that hands the strategy what the parser emits: the
    run either stops at a read error, or its outcome is a function of the
    reference adapter and of the environment alone. The warm-up rejects exactly
    the instruments on which the reference counts an error or an unknown broken
    trade or leaves an order active; the capacities and identifiers derived from
    it always let the runner be created and take every message; both strategies
    hear the same, in the warm-up, in the timed and in the sustained replays;
    the exit code is 6 only when the processor changed. An instrument that
    publishes nothing makes [summarize] read outside its samples. *)
Theorem formal_bench_outcome {F} `{PosixFileLaws F} {W} (route : W -> WtsCall -> W * list WtsCall)
    (env : Environment.t W) fuel f name symbol date_text value samples code cpu order records corpus :
  unread f = frame records -> Forall record_ok records -> alen (unread f) < 2 ^ 64 -> (enough f <= fuel)%nat ->
  Forall (fun m => regular m = true) records -> alen records < 2 ^ 32 ->
  keep_all symbol (Corpus.mk 0 []) (map sized records) = Some corpus ->
  Corpus.locator corpus <> 0 -> Corpus.messages corpus <> [] ->
  parse_u64 date_text = Some value -> order ∈ path_orders -> 0 <= Environment.cpu env ->
  Environment.base_data_loaded env = true -> Environment.parser_initialised env = true ->
  forwards route (u32 value) symbol ->
  exists calls ending, scan_historical_file fuel (Some f) = Some (calls, ending) /\
    let run := main route fuel (Some f) env ([name; symbol; date_text; samples; code; cpu] ++ order) in
    (ending = inr read_failed /\ run = Exit 1) \/
    run = exit_of env (length (Corpus.messages corpus)) (reference (u32 value) symbol corpus).
Proof.
  intros Hu Hrec Hlen Hfuel Hreg Hcount Hkeep Hloc Hsome Hdate Horder Hcpu Hbase Hparser Hroute.
  assert (Forall is_byte (unread f)) as Hb by (rewrite Hu; by apply frame_bytes).
  destruct (scan_ok fuel f Hb Hlen Hfuel) as (calls & ending & Hscan & Hs).
  exists calls, ending. split; [done|]. unfold scanned in Hs. rewrite Hu, unframe_frame in Hs by done.
  cbv zeta. assert (main route fuel (Some f) env ([name; symbol; date_text; samples; code; cpu] ++ order) =
    match keep_all symbol (Corpus.mk 0 []) calls, ending with
    | None, _ => Exit 1
    | Some _, inr e => Exit 1
    | Some corpus, inl _ =>
        if (Corpus.locator corpus =? 0) || bool_decide (Corpus.messages corpus = []) then Exit 1
        else match warm_up route corpus (u32 value) symbol ((text "PSX." ++ symbol) ++ [0]) (Environment.framework env) with
          | inr _ => Exit 1
          | inl warm => measure route env (bool_decide (default (text "WTQ") (head order) = text "QWT")) corpus
              (u32 value) symbol warm
          end
    end) as ->.
  { unfold main. cbn [app]. rewrite Hdate. unfold load_corpus. rewrite Hscan. cbn [mbind option_bind].
    rewrite Hbase, Hparser. destruct (Z.ltb_spec (Environment.cpu env) 0); [lia|].
    assert ((1 <? alen order) = false /\ negb (bool_decide (default (text "WTQ") (head order) = text "WTQ")) &&
      negb (bool_decide (default (text "WTQ") (head order) = text "QWT")) = false) as [-> ->].
    { unfold path_orders in Horder. rewrite !elem_of_cons, elem_of_nil in Horder.
      destruct Horder as [->|[->|[->|[]]]]; by vm_compute. }
    cbn [negb]. destruct (keep_all _ _ calls) as [c|]; [|done]. destruct ending as [n|e]; [|done].
    by destruct (_ || _). }
  destruct Hs as [[-> _]|[Hcalls ->]].
  - left. split; [done|]. by destruct (keep_all _ _ calls).
  - right. rewrite <- keep_all_shown, Hcalls, Hkeep.
    destruct (Z.eqb_spec (Corpus.locator corpus) 0); [done|]. rewrite bool_decide_false by done. cbn [orb].
    destruct (keep_all_kept symbol records _ corpus (proj2 (Forall_and _ _) (conj Hrec Hreg)) Hkeep) as (Hk & Hl & Hn & Hsym);
      [by apply Forall_nil|done|].
    apply loaded_run; try done.
    + change (alen (Corpus.messages (Corpus.mk 0 []))) with 0 in Hn. lia.
    + by destruct (Hsym Hloc).
Qed.

(** An instrument whose orders are all gone at the end, on a framework that
    only passes on, with six passes of a second. *)
Definition benched : list (list Z) := [
  foreign_message 9; directory_message; add_message 1; execute_message 1 5; add_message 2; cancel_message 2;
  replace_message 2 4; delete_message 4; cancel_message 1; delete_message 1].

Definition benched_file : Script := mkScript (frame benched) [Chunk 5; Signal; Chunk 40].

Definition benched_symbol : list Z := text "A".

Definition benched_corpus : Corpus.t :=
  default (Corpus.mk 0 []) (keep_all benched_symbol (Corpus.mk 0 []) (map sized benched)).

Definition pass_on (w : unit) (call : WtsCall) : unit * list WtsCall := (w, [call]).

Definition quiet : Environment.t unit :=
  let clock i := Reading.mk (Z.of_nat i) (Z.of_nat i + 2) (Z.of_nat i + 5) 3 in
  Environment.mk 3 true true tt clock clock (fun _ => 1) (replicate 6 (Double.of_Z 1)) (replicate 6 (Double.of_Z 1)).

Lemma benched_ok : Forall record_ok benched.
Proof.
  unfold benched. repeat (apply Forall_cons_2; [split; [by vm_compute|by apply bytes_ok]|]).
  apply Forall_nil_2.
Qed.

Lemma formal_bench_outcome_witness :
  exists calls ending, scan_historical_file 800 (Some benched_file) = Some (calls, ending) /\
    let run := main pass_on 800 (Some benched_file) quiet
      ([text "file"; benched_symbol; text "20190530"; text "all"; text "each"; text "3"] ++ [text "QWT"]) in
    (ending = inr read_failed /\ run = Exit 1) \/
    run = exit_of quiet (length (Corpus.messages benched_corpus)) (reference (u32 20190530) benched_symbol benched_corpus).
Proof.
  apply (formal_bench_outcome pass_on quiet 800 benched_file (text "file") benched_symbol (text "20190530") 20190530
    (text "all") (text "each") (text "3") [text "QWT"] benched benched_corpus);
    [reflexivity|exact benched_ok|by vm_compute|apply Nat.leb_le; by vm_compute| |by vm_compute|by vm_compute
    |by vm_compute|by vm_compute|by vm_compute| |by vm_compute|reflexivity|reflexivity|].
  - unfold benched. repeat (apply Forall_cons_2; [by vm_compute|]). apply Forall_nil_2.
  - unfold path_orders. rewrite !elem_of_cons. by right; right; left.
  - by intros w call _.
Defined.

(** The run of this instrument succeeds. *)
Lemma benched_exit :
  exit_of quiet (length (Corpus.messages benched_corpus))
    (reference (u32 20190530) benched_symbol benched_corpus) = Exit 0.
Proof. vm_compute. reflexivity. Qed.
