(* ===== verification/Smoke.v ===== *)
(** * integration/wondertrader/ParserITCH/ParserITCHSmoke.cpp and ParserITCHUftSmoke.cpp

    Two programs that drive the parser plugin and count what comes out of it.
    The first holds the plugin itself: its main thread is the host of [Parser],
    and takes turns with the plugin's worker.  In the second the WonderTrader
    framework, which is not part of the repository, stands between plugin and
    strategy: the callbacks it makes are handed in.  [dlopen], [dlsym] and the
    loading of files have given answers; a polling loop is the list of its polls.

    Their theorems: the first returns 0 exactly when a poll saw the plugin
    finished, the replay of the whole file completed, and orders and trades came
    out, none without a number or a volume; the other tests it makes cannot fail.
    The second returns 0 exactly when the callbacks are of the instrument and as
    many as were expected. *)

From Stdlib Require Import Ascii String.
From S2P Require Import Prelude Itch50 Samples HistoricalFile WtsTypes WtsAdapter Parser Numerals.
From S2P Require Import WtsReplay FormalBenchFacts.
Import itch50.

Module ParserITCHSmoke.
Import ParserITCH.

(** ** The listener *)

Module SmokeSpi.
Record t := mk {
  orders : Z;
  transactions : Z;
  errors : Z;
  connects : Z;
  logins : Z;
  closes : Z
}.
#[global] Instance eta_smoke_spi : Eta t := fun s =>
  mk (orders s) (transactions s) (errors s) (connects s) (logins s) (closes s).
Definition zero : t := mk 0 0 0 0 0 0.
End SmokeSpi.
Import (hints) SmokeSpi.

(** [++] on a [uint32_t] *)
Definition incr32 (x : Z) : Z := u32 (x + 1).

(** The condition of both handlers of market data. *)
Definition incomplete (exchg code : list Z) (trading_date index volume : Z) : bool :=
  negb (bool_decide (PsxWtsAdapter.string_view exchg = [chr "P"; chr "S"; chr "X"])) ||
  (byte_at code 0 =? 0) || (trading_date =? 0) || (index =? 0) || (volume =? 0).

Definition error (s : SmokeSpi.t) : SmokeSpi.t := s <| SmokeSpi.errors ::= incr |>.

Definition on_order (s : SmokeSpi.t) (value : WTSOrdDtlStruct.t) : SmokeSpi.t :=
  let s := s <| SmokeSpi.orders ::= incr |> in
  if incomplete (WTSOrdDtlStruct.exchg value) (WTSOrdDtlStruct.code value) (WTSOrdDtlStruct.trading_date value)
    (WTSOrdDtlStruct.index value) (WTSOrdDtlStruct.volume value)
  then error s else s.

Definition on_trade (s : SmokeSpi.t) (value : WTSTransStruct.t) : SmokeSpi.t :=
  let s := s <| SmokeSpi.transactions ::= incr |> in
  if incomplete (WTSTransStruct.exchg value) (WTSTransStruct.code value) (WTSTransStruct.trading_date value)
    (WTSTransStruct.index value) (WTSTransStruct.volume value)
  then error s else s.

Definition on_log (s : SmokeSpi.t) (level : WTSLogLevel) : SmokeSpi.t :=
  match level with LL_ERROR => error s | LL_DEBUG | LL_INFO => s end.

Definition on_event (s : SmokeSpi.t) (event : WTSParserEvent) (code : Z) : SmokeSpi.t :=
  let s :=
    match event with
    | WPE_Connect => s <| SmokeSpi.connects ::= incr32 |>
    | WPE_Login => s <| SmokeSpi.logins ::= incr32 |>
    | WPE_Close => s <| SmokeSpi.closes ::= incr32 |>
    | WPE_Logout => s
    end in
  if negb (code =? 0) then error s else s.

Definition handle (s : SmokeSpi.t) (call : SpiCall) : SmokeSpi.t :=
  match call with
  | handleOrderDetail value => on_order s value
  | handleTransaction value => on_trade s value
  | handleParserLog level _ => on_log s level
  | handleEvent event code => on_event s event code
  end.

(** ** The program *)

(** [dlopen] found the plugin, [dlsym] both of its functions. *)
Record Plugin := mkPlugin { opened : bool; entry_points : bool }.

(** Before a poll: the steps the worker took, by what its loads returned, and
    what the poll's own load returns. *)
Record Turn := mkTurn { worker_loads : list nat; position : nat }.

Section program.
Context (scan : list Z -> list (list Z * Z) * result FileScanResult.t).

Definition work (p : t) (loads : list nat) : option (t * list (Z * SpiCall)) := run scan p (map WorkerStep loads).

(** [parser->isConnected()], after the worker's steps. *)
Definition poll (p : t) (turn : Turn) : option (t * bool * list (Z * SpiCall)) :=
  '(p, out) ← work p (worker_loads turn);
  '(p, connected) ← is_connected p (position turn);
  Some (p, connected, out).

(** The loop that waits, with [sleeps] more sleeps; what is left of the turns. *)
Fixpoint wait (sleeps : nat) (p : t) (turns : list Turn) {struct turns} : option (t * list (Z * SpiCall) * list Turn) :=
  match turns with
  | [] => None
  | turn :: turns =>
      '(p, connected, out) ← poll p turn;
      if connected : bool then
        match sleeps with
        | O => Some (p, out, turns)
        | S sleeps => '(p, later, rest) ← wait sleeps p turns; Some (p, out ++ later, rest)
        end
      else Some (p, out, turns)
  end.

(** [parser->release()] while the worker takes the steps of [loads], then the
    destructor. *)
Definition remove (p : t) (loads : list nat) : option (t * list (Z * SpiCall)) :=
  match worker_ p with
  | Some _ => run scan p ([Disconnect] ++ map WorkerStep loads ++ [Join; Disconnect])
  | None => run scan p [Disconnect; Disconnect]
  end.

(** [registerSpi] and [init]. *)
Definition set_up (config : Config) : t * bool * list (Z * SpiCall) :=
  init (registerSpi make (Some 0)) (Some config).

(** What the calls on the listener leave it with. *)
Definition listen (calls : list (Z * SpiCall)) : SmokeSpi.t := fold_left handle (map snd calls) SmokeSpi.zero.

(** [wait < 30000] *)
Definition kPolls : nat := Z.to_nat 30000.

(** From [registerSpi] to the end of the plugin: whether it finished, and the
    listener.  [None]: the turns or the worker's steps are not those of a run,
    or too few. *)
Definition observe (config : Config) (turns : list Turn) (loads : list nat) : option (bool * SmokeSpi.t) :=
  let '(p, initialized, out) := set_up config in
  if negb initialized then
    '(_, gone) ← remove p loads;
    Some (false, listen (out ++ gone))
  else
    p ← connect p 0;
    '(p, waited, rest) ← wait kPolls p turns;
    turn ← head rest;
    '(p, connected, more) ← poll p turn;
    '(_, gone) ← remove p loads;
    Some (negb connected, listen (out ++ waited ++ more ++ gone)).

Definition verdict (finished : bool) (spi : SmokeSpi.t) : Z :=
  if finished && negb (SmokeSpi.orders spi =? 0) && negb (SmokeSpi.transactions spi =? 0) &&
     (SmokeSpi.connects spi =? 1) && (SmokeSpi.logins spi =? 1) && (SmokeSpi.closes spi =? 1) &&
     (SmokeSpi.errors spi =? 0)
  then 0 else 3.

(** [std::strtoul(text, nullptr, 10)] *)
Definition strtoul (text : list Z) : Z := from_option fst 0 (strtoull text).

(** What is appended to the configuration. *)
Definition config_of (path symbol date : list Z) : Config := mkConfig path symbol (u32 (strtoul date)) 1000000.

(** [argv] less the name of the program. *)
Definition main (plugin : Plugin) (turns : list Turn) (loads : list nat) (argv : list (list Z)) : option Z :=
  match argv with
  | [_; path; symbol; date] =>
      if negb (opened plugin) || negb (entry_points plugin) then Some 1
      else
        '(finished, spi) ← observe (config_of path symbol date) turns loads;
        Some (verdict finished spi)
  | _ => Some 64
  end.
End program.
End ParserITCHSmoke.

Module ParserITCHUftSmoke.

(** ** The strategy *)

Module CountingStrategy.
Record t := mk {
  _code : list Z;
  _expected_orders : Z;
  _expected_transactions : Z;
  _orders : Z;
  _transactions : Z;
  _wrong_code : Z;
  _complete : bool
}.
#[global] Instance eta_counting : Eta t := fun s =>
  mk (_code s) (_expected_orders s) (_expected_transactions s) (_orders s) (_transactions s) (_wrong_code s)
    (_complete s).

Definition make (code : list Z) (expected_orders expected_transactions : Z) : t :=
  mk code expected_orders expected_transactions 0 0 0 false.

Definition check_complete (s : t) : t :=
  if (_orders s =? _expected_orders s) && (_transactions s =? _expected_transactions s)
  then s <| _complete := true |> else s.

Definition check_code (s : t) (code : list Z) : t :=
  if negb (bool_decide (_code s = code)) then s <| _wrong_code ::= incr |> else s.

Definition on_order_detail (s : t) (code : list Z) : t :=
  check_complete ((check_code s code) <| _orders ::= incr |>).

Definition on_transaction (s : t) (code : list Z) : t :=
  check_complete ((check_code s code) <| _transactions ::= incr |>).
End CountingStrategy.
Import (hints) CountingStrategy.

(** A callback of the framework; the data are not looked at. *)
Inductive Callback :=
  | order_detail (code : list Z)
  | transaction (code : list Z).

Definition callback (s : CountingStrategy.t) (c : Callback) : CountingStrategy.t :=
  match c with
  | order_detail code => CountingStrategy.on_order_detail s code
  | transaction code => CountingStrategy.on_transaction s code
  end.

(** ** The program *)

(** Before a test of the waiting loop: the callbacks made, whether the load of
    [_complete] may still miss the store, and whether the deadline is over. *)
Record Poll := mkPoll { callbacks : list Callback; stale : bool; expired : bool }.

Fixpoint wait (s : CountingStrategy.t) (polls : list Poll) : option CountingStrategy.t :=
  match polls with
  | [] => None
  | poll :: polls =>
      let s := fold_left callback (callbacks poll) s in
      if CountingStrategy._complete s && negb (stale poll) then Some s
      else if expired poll then Some s
      else wait s polls
  end.

(** The framework: whether it loaded the base data and started the parser, the
    polls, and the callbacks from the last poll until the parser is released. *)
Record Framework := mkFramework {
  base_data_loaded : bool;
  parser_started : bool;
  polls : list Poll;
  last_callbacks : list Callback
}.

(** [None] is the thrown [invalid_argument]. *)
Definition parse_u64 (text : list Z) : option Z :=
  match strtoull text with
  | Some (value, []) => Some value
  | _ => None
  end.

Definition verdict (s : CountingStrategy.t) (expected_orders expected_transactions : Z) : Z :=
  if negb (CountingStrategy._complete s) || negb (CountingStrategy._wrong_code s =? 0) ||
     negb (CountingStrategy._orders s =? expected_orders) ||
     negb (CountingStrategy._transactions s =? expected_transactions)
  then 5 else 0.

(** "PSX." and the symbol. *)
Definition std_code (symbol : list Z) : list Z := [chr "P"; chr "S"; chr "X"; chr "."] ++ symbol.

Definition main (f : Framework) (argv : list (list Z)) : option Z :=
  match argv with
  | [_; symbol; date; _; _; _; orders; transactions] =>
      match parse_u64 date, parse_u64 orders, parse_u64 transactions with
      | Some _, Some expected_orders, Some expected_transactions =>
          if negb (base_data_loaded f) then Some 3
          else if negb (parser_started f) then Some 4
          else
            s ← wait (CountingStrategy.make (std_code symbol) expected_orders expected_transactions) (polls f);
            let s := fold_left callback (last_callbacks f) s in
            Some (verdict s expected_orders expected_transactions)
      | _, _, _ => Some 6
      end
  | _ => Some 2
  end.
End ParserITCHUftSmoke.

(** * Properties *)

(** ** The plugin's worker while the program waits *)

Module ParserSmokeFacts.
Import ParserITCH ParserITCHSmoke.
Import (hints) SmokeSpi.

Section waiting.
Context (scan : list Z -> list (list Z * Z) * result FileScanResult.t) (c : Config).

Record waiting (p : t) (current : list (Z * SpiCall)) : Prop := {
  wt_ok : parser_ok scan c 0 False p [] current;
  wt_worker : exists w, worker_ p = Some w /\
    connected_ p = [false; true] ++ (if active w then [] else [false]);
  wt_seen : (1 <= seen_connected p)%nat;
  wt_host : host p = HostOutside
}.

Lemma waiting_starts : waiting (start_worker (configured c 0)) [].
Proof.
  constructor; [|by eexists|done|done].
  apply (start_worker_ok scan c 0 False (configured c 0) [] []); [done..|by right|done].
Qed.

Lemma worker_waits p current position p' out :
  waiting p current -> worker_step scan p position = Some (p', out) -> waiting p' (current ++ out).
Proof.
  intros [Hok (w & Hw & Hc) Hs Hh] Hstep. pose proof (worker_step_ok _ _ _ _ _ _ _ _ _ _ Hok Hstep) as Hok'.
  unfold worker_step in Hstep. rewrite Hw in Hstep. cbn [mbind option_bind] in Hstep.
  assert (active w = match at_ w with WorkerDone => false | _ => true end) as Ha by done.
  destruct (at_ w) as [|r rest ending|o| |] eqn:E; [| | | |done]; rewrite Ha in Hc.
  - destruct (scan _) as [calls ending]. injection Hstep as <- <-. by constructor; [|eexists| |].
  - unfold scan_step in Hstep. destruct rest as [|call rest].
    { injection Hstep as <- <-. by constructor; [|eexists| |]. }
    destruct (load _ _ _) as [b|]; [|done]. cbn [mbind option_bind] in Hstep. destruct b.
    { injection Hstep as <- <-. by constructor; [|eexists| |]. }
    destruct (replay_message _ _ _ _) as [r' out']. injection Hstep as <- <-. by constructor; [|eexists| |].
  - injection Hstep as <- <-. by constructor; [|eexists| |].
  - injection Hstep as <- <-. constructor; [done| |done|done]. eexists. split; [done|]. cbn. by rewrite Hc.
Qed.

Lemma work_waits loads p current p' out :
  waiting p current -> work scan p loads = Some (p', out) -> waiting p' (current ++ out).
Proof.
  revert p current out. unfold work. induction loads as [|l loads IH]; intros p current out Hp; cbn [map run].
  { intros [= <- <-]. by rewrite app_nil_r. }
  destruct (step scan p (WorkerStep l)) as [[p1 now]|] eqn:Es; [|done]. cbn [mbind option_bind].
  destruct (run scan p1 _) as [[p2 later]|] eqn:Er; [|done]. intros [= <- <-]. rewrite app_assoc.
  eapply IH; [|done]. by eapply worker_waits.
Qed.

(** A poll that sees the plugin no longer connected: the worker is done. *)
Lemma poll_waits p current turn p' connected out :
  waiting p current -> poll scan p turn = Some (p', connected, out) ->
  waiting p' (current ++ out) /\
  (connected = false -> exists w, worker_ p' = Some w /\ at_ w = WorkerDone).
Proof.
  intros Hp. unfold poll. destruct (work scan p _) as [[p1 out1]|] eqn:Ew; [|done].
  pose proof (work_waits _ _ _ _ _ Hp Ew) as [Hok (w & Hw & Hc) Hs Hh].
  cbn [mbind option_bind]. unfold is_connected. destruct (load _ _ _) as [b|] eqn:El; [|done].
  cbn [mbind option_bind]. intros [= <- <- <-]. apply flag_loaded in El as [Hpos El]. split.
  - constructor; [|by exists w|cbn; lia|done]. destruct Hok. constructor; try done. cbn. by eapply lookup_lt_Some.
  - intros ->. exists w. split; [done|]. rewrite Hc in El. unfold active in *. destruct (at_ w); [exfalso..|reflexivity];
      (destruct (position turn) as [|[|k]]; [lia|discriminate El|by destruct k]).
Qed.

Lemma wait_waits sleeps turns p current p' out rest :
  waiting p current -> wait scan sleeps p turns = Some (p', out, rest) -> waiting p' (current ++ out).
Proof.
  revert sleeps p current out. induction turns as [|turn turns IH]; intros sleeps p current out Hp; cbn [wait]; [done|].
  destruct (poll scan p turn) as [[[p1 connected] out1]|] eqn:Ep; [|done]. cbn [mbind option_bind].
  destruct (poll_waits _ _ _ _ _ _ Hp Ep) as [Hp1 _].
  destruct connected; [destruct sleeps as [|sleeps]|]; [by intros [= <- <- <-]| |by intros [= <- <- <-]].
  destruct (wait scan sleeps p1 turns) as [[[p2 later] r2]|] eqn:Ew; [|done]. cbn [mbind option_bind].
  intros [= <- <- <-]. rewrite app_assoc. by eapply IH.
Qed.

(** A plugin that is done makes no more calls. *)
Lemma removed_quietly p loads p' out w :
  host p = HostOutside -> worker_ p = Some w -> at_ w = WorkerDone -> remove scan p loads = Some (p', out) -> out = [].
Proof.
  intros Hh Hw Hd. unfold remove. rewrite Hw. destruct p as [c0 s0 st co w0 su sc h0]. cbn in Hh, Hw. subst.
  destruct w as [at_w seen]. cbn in Hd. subst at_w.
  destruct loads as [|load loads]; cbn; [by intros [= <- <-]|done].
Qed.
End waiting.

(** ** What a replay says *)

(** A debug log, or an event of the instrument on its day. *)
Definition said (c : Config) (x : Z * SpiCall) : Prop :=
  (exists message, x = (0, handleParserLog LL_DEBUG message)) \/
  (exists call, x = (0, on_call call) /\ addressed (date c) (symbol c) call).

Definition event_of (x : Z * SpiCall) : option WtsCall :=
  match x.2 with
  | handleOrderDetail value => Some (on_order_detail value)
  | handleTransaction value => Some (on_transaction value)
  | handleEvent _ _ | handleParserLog _ _ => None
  end.

(** The events among the calls. *)
Definition events_of (calls : list (Z * SpiCall)) : list WtsCall := omap event_of calls.

Lemma events_of_app l l' : events_of (l ++ l') = events_of l ++ events_of l'.
Proof. apply omap_app. Qed.

Lemma events_of_calls calls : events_of (map (pair 0) (map on_call calls)) = calls.
Proof. induction calls as [|[] calls IH]; [done|..]; cbn; by f_equal. Qed.

Definition of_instrument (c : Config) (r : Replaying) : Prop :=
  output r = Some 0 /\ from_option (identity (date c) (symbol c)) True (adapter r).

Lemma message_said c r d :
  of_instrument c r ->
  let '(r', out) := replay_message c (Some 0) r d in
  of_instrument c r' /\ Forall (said c) out /\ (length (events_of out) <= 2)%nat.
Proof.
  intros [Ho Hi]. destruct d as [m size]. unfold replay_message.
  set (r1 := if _ && bool_decide _ then _ else r).
  assert (of_instrument c r1) as [Ho1 Hi1] by (unfold r1; destruct (_ && bool_decide _); by split).
  clearbody r1. destruct (adapter r1) as [a|] eqn:Ea; [|split_and!; [by split; [|rewrite Ea]|done|cbn; lia]].
  destruct (_ && _); [|split_and!; [by split; [|rewrite Ea]|done|cbn; lia]]. cbn in Hi1.
  pose proof (message_addressed (date c) (symbol c) m a size Hi1) as [Hid Hc].
  pose proof (message_published a m size) as (_ & _ & Hlen).
  destruct (PsxWtsAdapter.on_message a m size) as [a' calls]. cbn [fst snd] in *.
  set (r2 := r1 <| adapter := Some a' |> <| target_messages ::= incr |>).
  assert (output r2 = Some 0) as Ho2 by exact Ho1. rewrite Ho2. cbn [on]. split_and!.
  - by split.
  - apply Forall_app. split.
    + apply Forall_map, Forall_map. eapply Forall_impl; [exact Hc|]. intros call Hcall. right. by exists call.
    + destruct (_ =? 0); [|done]. apply Forall_singleton. left. by eexists.
  - rewrite events_of_app, events_of_calls, length_app. by destruct (_ =? 0); cbn; lia.
Qed.

Lemma replay_said c calls r :
  of_instrument c r ->
  let '(_, out) := replay_all c (Some 0) r calls in
  Forall (said c) out /\ (length (events_of out) <= 2 * length calls)%nat.
Proof.
  revert r. induction calls as [|d calls IH]; intros r Hr; cbn [replay_all]; [split; [done|cbn; lia]|].
  pose proof (message_said c r d Hr) as Hm. destruct (replay_message c (Some 0) r d) as [r' out].
  destruct Hm as (Hr' & Hout & Hl). specialize (IH r' Hr'). destruct (replay_all c (Some 0) r' calls) as [r2 out2].
  destruct IH as [Hout2 Hl2]. rewrite events_of_app, length_app. cbn [length]. split; [by apply Forall_app|lia].
Qed.

(** ** What the listener makes of it *)

(** An event with a number and a volume. *)
Definition numbered (call : WtsCall) : bool :=
  match call with
  | on_order_detail value => negb (WTSOrdDtlStruct.index value =? 0) && negb (WTSOrdDtlStruct.volume value =? 0)
  | on_transaction value => negb (WTSTransStruct.index value =? 0) && negb (WTSTransStruct.volume value =? 0)
  end.

Definition flaws (calls : list WtsCall) : nat := length (List.filter (fun call => negb (numbered call)) calls).

(** A configuration the plugin accepts, with texts without a zero byte. *)
Definition configurable (c : Config) : Prop :=
  symbol c <> [] /\ date c <> 0 /\ Forall (fun b => b <> 0) (symbol c).

Lemma string_view_nonzero s : Forall (fun b => b <> 0) s -> PsxWtsAdapter.string_view s = s.
Proof.
  induction 1 as [|b s Hb _ IH]; cbn; [done|]. destruct (Z.eqb_spec b 0); [done|]. by rewrite IH.
Qed.

Lemma string_view_app s k :
  Forall (fun b => b <> 0) s -> PsxWtsAdapter.string_view (s ++ replicate k 0) = s.
Proof.
  induction 1 as [|b s Hb _ IH]; cbn; [by destruct k|]. destruct (Z.eqb_spec b 0); [done|]. by rewrite IH.
Qed.

(** The first byte of the code is that of the symbol. *)
Lemma code_begins s :
  s <> [] -> Forall (fun b => b <> 0) s ->
  byte_at (PsxWtsAdapter.copy_text MAX_INSTRUMENT_LENGTH (PsxWtsAdapter.string_view (PsxWtsAdapter.copy_text 9 s))) 0 <> 0.
Proof.
  intros Hne Hs. destruct s as [|b s]; [done|]. inversion Hs as [|b' s' Hb Hs']; subst.
  unfold PsxWtsAdapter.copy_text at 2. rewrite string_view_app by (by apply Forall_take).
  set (n := Z.to_nat _). assert (exists n', n = S n') as [n' ->].
  { unfold n, alen. cbn [length]. exists (Z.to_nat (Z.min (Z.of_nat (S (length s))) (9 - 1) - 1)). lia. }
  cbn [take]. unfold PsxWtsAdapter.copy_text, byte_at, MAX_INSTRUMENT_LENGTH.
  set (k := Z.to_nat (Z.min _ _)). assert (exists k', k = S k') as [k' ->].
  { unfold k, alen. cbn [length]. exists (Z.to_nat (Z.min (Z.of_nat (S (length (take n' s)))) (32 - 1) - 1)). lia. }
  done.
Qed.

(** Of an event of the instrument only number and volume can be missing. *)
Lemma incomplete_event c call :
  configurable c -> addressed (date c) (symbol c) call ->
  (match call with
   | on_order_detail v => incomplete (WTSOrdDtlStruct.exchg v) (WTSOrdDtlStruct.code v)
       (WTSOrdDtlStruct.trading_date v) (WTSOrdDtlStruct.index v) (WTSOrdDtlStruct.volume v)
   | on_transaction v => incomplete (WTSTransStruct.exchg v) (WTSTransStruct.code v)
       (WTSTransStruct.trading_date v) (WTSTransStruct.index v) (WTSTransStruct.volume v)
   end) = negb (numbered call).
Proof.
  intros (Hs & Hd & Hz) Ha. unfold addressed in Ha. pose proof (code_begins (symbol c) Hs Hz) as Hcode.
  assert (bool_decide (PsxWtsAdapter.string_view PsxWtsAdapter.exchange = [chr "P"; chr "S"; chr "X"]) = true) as Hx
    by (by vm_compute).
  destruct call as [v|v]; cbn [call_day numbered] in *; injection Ha as He Hc Ht Hact; unfold incomplete;
    rewrite He, Hc, Ht, Hx, (proj2 (Z.eqb_neq _ _) Hcode), (proj2 (Z.eqb_neq _ _) Hd); cbn [negb orb];
    by rewrite negb_andb, !negb_involutive.
Qed.

(** The counters after the calls of a replay. *)
Lemma replay_heard c out s :
  configurable c -> Forall (said c) out ->
  fold_left handle (map snd out) s =
    SmokeSpi.mk (counted (orders_in (events_of out)) (SmokeSpi.orders s))
      (counted (transactions_in (events_of out)) (SmokeSpi.transactions s))
      (counted (flaws (events_of out)) (SmokeSpi.errors s)) (SmokeSpi.connects s) (SmokeSpi.logins s)
      (SmokeSpi.closes s).
Proof.
  intros Hc Hout. revert s. induction Hout as [|x out Hx _ IH]; intros s; [by destruct s|].
  cbn [map fold_left]. rewrite IH. destruct Hx as [[message ->]|(call & -> & Ha)]; [done|].
  pose proof (incomplete_event c call Hc Ha) as Hi.
  change (events_of ((0, on_call call) :: out)) with (events_of ([(0, on_call call)] ++ out)).
  rewrite events_of_app. change (events_of [(0, on_call call)]) with (events_of (map (pair 0) (map on_call [call]))).
  rewrite events_of_calls. unfold orders_in, transactions_in, flaws, counted. cbn [app List.filter].
  destruct call as [v|v]; cbn [on_call snd handle is_order negb length]; [unfold on_order|unfold on_trade];
    rewrite Hi; destruct (numbered _); cbn [negb length]; rewrite ?Nat.iter_succ_r; done.
Qed.

(** ** The exit code *)

Section exit_code.
Context (scan : list Z -> list (list Z * Z) * result FileScanResult.t) (c : Config).

(** The replay of the whole file completes, and orders and trades come out of
    it, all with numbers and volumes. *)
Definition passes_smoke : bool :=
  let '(r, out) := replay_all c (Some 0) (fresh 0) (scan (path c)).1 in
  let events := events_of out in
  match outcome r (scan (path c)).2 with Completed _ => true | Stopped | Threw _ => false end &&
  existsb is_order events && existsb (fun call => negb (is_order call)) events && forallb numbered events.

Lemma length_filter_zero {A} (f : A -> bool) l :
  (Z.of_nat (length (List.filter f l)) =? 0) = negb (existsb f l).
Proof. induction l as [|x l IH]; cbn; [done|]. by destruct (f x). Qed.

Lemma flaws_none events : (Z.of_nat (flaws events) =? 0) = forallb numbered events.
Proof.
  unfold flaws. rewrite length_filter_zero. induction events as [|e events IH]; cbn; [done|].
  by destruct (numbered e).
Qed.

Lemma filter_length_le {A} (f : A -> bool) l : (length (List.filter f l) <= length l)%nat.
Proof. induction l as [|x l IH]; cbn; [done|]. destruct (f x); cbn; lia. Qed.

(** What the listener was left with after a whole session. *)
Lemma session_verdict current :
  configurable c -> 2 * alen (scan (path c)).1 < 2 ^ 62 -> session scan c 0 False current ->
  verdict true (listen current) = if passes_smoke then 0 else 3.
Proof.
  intros Hc Hlen (done & r & o & body & (out & Hr & ->) & (_ & Hend) & ->).
  destruct Hend as [[_ []]|[-> ->]]. unfold passes_smoke. rewrite Hr.
  pose proof (replay_said c (scan (path c)).1 (fresh 0) ltac:(done)) as Hs. rewrite Hr in Hs. destruct Hs as [Hs Hl].
  unfold listen. rewrite !map_app, !fold_left_app, (replay_heard c out) by done.
  set (events := events_of out) in *. unfold alen in Hlen.
  pose proof (filter_length_le is_order events). pose proof (filter_length_le (fun e => negb (is_order e)) events).
  pose proof (filter_length_le (fun e => negb (numbered e)) events).
  change (fold_left handle (map snd (map (pair 0) opening)) SmokeSpi.zero) with (SmokeSpi.mk 0 0 0 1 1 0).
  cbn [SmokeSpi.orders SmokeSpi.transactions SmokeSpi.errors SmokeSpi.connects SmokeSpi.logins SmokeSpi.closes].
  rewrite !counted_zero by (unfold orders_in, transactions_in, flaws; lia).
  set (s := SmokeSpi.mk _ _ _ _ _ _).
  assert (forall e, fold_left handle (map snd (map (pair 0) (last_calls (Threw e)))) s =
    SmokeSpi.mk (SmokeSpi.orders s) (SmokeSpi.transactions s) (SmokeSpi.errors s + 2) 1 1 1) as Hthrew.
  { intros e. transitivity (SmokeSpi.mk (SmokeSpi.orders s) (SmokeSpi.transactions s) (incr (incr (SmokeSpi.errors s)))
      1 1 1); [reflexivity|].
    f_equal. unfold incr, s. cbn [SmokeSpi.errors]. 
    rewrite (wrap_small 64 (Z.of_nat (flaws events) + 1)), wrap_small by (unfold flaws; lia). lia. }
  assert (forall m, verdict true (fold_left handle (map snd (map (pair 0) (last_calls (Completed m)))) s) =
    if existsb is_order events && existsb (fun call => negb (is_order call)) events && forallb numbered events
    then 0 else 3) as Hdone.
  { intros m. cbn. unfold verdict, s. cbn. unfold orders_in, transactions_in.
    rewrite !length_filter_zero, flaws_none, !negb_involutive.
    by destruct (existsb is_order events), (existsb _ events), (forallb numbered events). }
  destruct (outcome r (scan (path c)).2) as [m| |e] eqn:Eo; cbn [andb].
  - apply Hdone.
  - unfold outcome in Eo. destruct (scan (path c)).2; [|done]. by destruct (finish r).
  - rewrite Hthrew. unfold verdict. cbn. unfold flaws.
    destruct (Z.eqb_spec (Z.of_nat (length (List.filter (fun e => negb (numbered e)) events)) + 2) 0); [lia|].
    by rewrite !andb_false_r.
Qed.

(** ** A run that finishes *)

Hypothesis Hc : configurable c.
Hypothesis Hpath : path c <> [].

Lemma set_up_ready : gpsize c = 1000000 -> set_up c = (configured c 0, true, []).
Proof.
  intros Hg. destruct Hc as (Hs & Hd & _). unfold set_up, init. rewrite Hg. cbn [Z.eqb].
  rewrite (bool_decide_false _ Hpath), (bool_decide_false _ Hs). destruct (Z.eqb_spec (date c) 0); [done|]. done.
Qed.

(** The worker goes through its scan while the flag stays down. *)
Lemma scans_through calls p r ending seen current :
  waiting scan c p current -> worker_ p = Some (mkWorker (WorkerScans r calls ending) seen) ->
  stopped_ p = [true; false] -> (seen <= 1)%nat ->
  exists p' out r' seen', work scan p (replicate (length calls) 1%nat) = Some (p', out) /\
    worker_ p' = Some (mkWorker (WorkerScans r' [] ending) seen').
Proof.
  revert p r seen current. unfold work. induction calls as [|call calls IH]; intros p r seen current Hp Hw Hst Hs.
  { by exists p, [], r, seen. }
  cbn [length replicate map run]. cbn [step]. unfold worker_step. rewrite Hw. cbn [mbind option_bind at_].
  unfold scan_step. rewrite Hst. unfold load. cbn [seen_stopped].
  destruct (Nat.ltb_spec 1 seen); [lia|]. cbn [lookup list_lookup mbind option_bind].
  destruct (replay_message (config_ p) (sink_ p) r call) as [r1 out1] eqn:Em. cbn [mbind option_bind].
  set (p1 := p <| worker_ := Some _ |>).
  assert (worker_step scan p 1 = Some (p1, out1)) as Hstep.
  { unfold worker_step. rewrite Hw. cbn [mbind option_bind at_]. unfold scan_step. rewrite Hst. unfold load.
    cbn [seen_stopped]. destruct (Nat.ltb_spec 1 seen); [lia|]. cbn [lookup list_lookup mbind option_bind].
    by rewrite Em. }
  destruct (IH p1 r1 1%nat (current ++ out1)) as (p' & out & r' & seen' & Hrun & Hw'); [|done..|].
  { by eapply worker_waits. }
  exists p', (out1 ++ out), r', seen'. split; [|done]. destruct (host p1) eqn:Hh; by rewrite Hrun.
Qed.

(** The steps of the worker from its start to its end. *)
Definition whole_work : list nat := 0%nat :: replicate (length (scan (path c)).1) 1%nat ++ [1; 0; 0]%nat.

Lemma work_app p loads loads' :
  work scan p (loads ++ loads') =
    '(p, out) ← work scan p loads; '(p, out') ← work scan p loads'; Some (p, out ++ out').
Proof.
  revert p. unfold work. induction loads as [|l loads IH]; intros p; cbn [app map run].
  { cbn [mbind option_bind]. by destruct (run scan p _) as [[p' out']|]. }
  destruct (step scan p (WorkerStep l)) as [[p1 now]|]; [|done]. cbn [mbind option_bind]. rewrite IH.
  destruct (run scan p1 _) as [[p2 out]|]; [|done]. cbn [mbind option_bind].
  destruct (run scan p2 _) as [[p3 out']|]; [|done]. cbn [mbind option_bind]. by rewrite app_assoc.
Qed.

Lemma whole_work_ends :
  exists p' out w, work scan (start_worker (configured c 0)) whole_work = Some (p', out) /\
    worker_ p' = Some w /\ at_ w = WorkerDone.
Proof.
  unfold whole_work. change (0%nat :: ?l) with ([0%nat] ++ l). rewrite !work_app.
  set (p0 := start_worker (configured c 0)).
  destruct (scan (path c)) as [calls ending] eqn:Es. cbn [fst].
  assert (exists p1 out r seen, work scan p0 [0%nat] = Some (p1, out) /\
    worker_ p1 = Some (mkWorker (WorkerScans r calls ending) seen) /\ stopped_ p1 = [true; false] /\ (seen <= 1)%nat)
    as (p1 & out1 & r & seen & Hw1 & Hs1 & Hst & Hle).
  { unfold work. cbn. rewrite Es. eexists _, _, _, _. split_and!; [reflexivity..|]. cbn; lia. }
  pose proof (work_waits scan c _ _ _ _ _ (waiting_starts scan c) Hw1) as Hp1.
  destruct (scans_through calls p1 r ending seen _ Hp1 Hs1 Hst Hle) as (p2 & out2 & r' & seen' & Hw2 & Hs2).
  rewrite Hw1. cbn [mbind option_bind]. rewrite work_app, Hw2. cbn [mbind option_bind].
  destruct p2 as [c0 s0 st co w0 su sc h0]. cbn in Hs2. subst w0.
  eexists _, _, _. split; [reflexivity|]. by split.
Qed.

(** Polls that see it: one after the worker's end, one more for the result. *)
Definition patient_turns : list Turn := [mkTurn whole_work 2; mkTurn [] 2].

Lemma patient_observe :
  gpsize c = 1000000 -> exists spi, observe scan c patient_turns [] = Some (true, spi).
Proof.
  intros Hg. unfold observe. rewrite set_up_ready by done. cbn [negb].
  change (connect (configured c 0) 0) with (Some (start_worker (configured c 0))). cbn [mbind option_bind].
  destruct whole_work_ends as (p & out & w & Hw & Hpw & Hd).
  pose proof (work_waits scan c _ _ _ _ _ (waiting_starts scan c) Hw) as [Hok (w' & Hw' & Hcon) Hs Hh].
  rewrite Hpw in Hw'. injection Hw' as <-. unfold active in Hcon. rewrite Hd in Hcon.
  pose proof (pk_seen _ _ _ _ _ _ _ Hok) as Hseen. rewrite Hcon in Hseen. cbn in Hseen.
  destruct p as [c0 s0 st co w0 su sc h0]. cbn in Hpw, Hcon, Hh, Hseen, Hs. subst.
  destruct w as [at_w seen]. cbn in Hd. subst at_w.
  unfold patient_turns. cbn [wait]. unfold poll. cbn [worker_loads position]. rewrite Hw. cbn [mbind option_bind].
  unfold is_connected, load. cbn [seen_connected connected_ position].
  destruct (Nat.ltb_spec 2 sc); [lia|]. cbn [lookup list_lookup mbind option_bind head].
  eexists. reflexivity.
Qed.

(** A run that was observed. *)
Lemma observed turns loads finished spi :
  gpsize c = 1000000 -> 2 * alen (scan (path c)).1 < 2 ^ 62 -> observe scan c turns loads = Some (finished, spi) ->
  verdict finished spi = if finished && passes_smoke then 0 else 3.
Proof.
  intros Hg Hlen. unfold observe. rewrite set_up_ready by done. cbn [negb].
  change (connect (configured c 0) 0) with (Some (start_worker (configured c 0))). cbn [mbind option_bind].
  destruct (wait scan kPolls _ turns) as [[[p1 waited] rest]|] eqn:Ew; [|done]. cbn [mbind option_bind].
  destruct (head rest) as [turn|]; [|done]. cbn [mbind option_bind].
  destruct (poll scan p1 turn) as [[[p2 connected] more]|] eqn:Ep; [|done]. cbn [mbind option_bind].
  destruct (remove scan p2 loads) as [[p3 gone]|] eqn:Er; [|done]. cbn [mbind option_bind]. intros [= <- <-].
  destruct connected; cbn [negb andb]; [done|].
  pose proof (wait_waits scan c _ _ _ _ _ _ _ (waiting_starts scan c) Ew) as Hp1.
  destruct (poll_waits scan c _ _ _ _ _ _ Hp1 Ep) as [Hp2 Hdone]. destruct (Hdone eq_refl) as (w & Hw & Hd).
  rewrite (removed_quietly scan _ _ _ _ _ (wt_host _ _ _ _ Hp2) Hw Hd Er), app_nil_r.
  apply session_verdict; [done|done|]. exact (done_session scan c 0 False _ [] _ _ (wt_ok _ _ _ _ Hp2) Hw Hd).
Qed.
End exit_code.
End ParserSmokeFacts.

Section parser_smoke.
Import ParserITCH ParserITCHSmoke ParserSmokeFacts.

(** The settings [init] insists on. *)
Definition accepted (c : Config) : bool :=
  negb (bool_decide (path c = []) || bool_decide (symbol c = []) || (date c =? 0)).

Lemma accepted_settings c :
  Forall (fun b => b <> 0) (symbol c) -> accepted c = true -> configurable c /\ path c <> [].
Proof.
  intros Hz Ha. unfold accepted in Ha. apply negb_true_iff, orb_false_iff in Ha as [[Hp Hs]%orb_false_iff Hd].
  by apply bool_decide_eq_false in Hp, Hs; apply Z.eqb_neq in Hd.
Qed.

Lemma refused_observe scan c turns loads :
  gpsize c = 1000000 -> accepted c = false -> exists spi, observe scan c turns loads = Some (false, spi).
Proof.
  intros Hg Ha. unfold observe, set_up, init. rewrite Hg. cbn [Z.eqb].
  unfold accepted in Ha. apply negb_false_iff in Ha. rewrite Ha. cbn [negb]. eexists. reflexivity.
Qed.

(** C37: the plugin smoke test. Whatever turns its main thread takes with the
    plugin's worker, the program ends with 0 exactly when its last poll saw the
    plugin no longer connected, the settings are complete, the replay of the
    whole file completed, and orders and trades came out of it, every one with a
    number and a volume; otherwise with 3. The tests of exchange, code and date,
    and the counts of connects, logins and closes, never fail on their own. And
    there are turns with which it ends so. *)
Theorem parser_smoke_exit_code scan name path symbol date_text :
  Forall (fun b => b <> 0) symbol -> 2 * alen (scan path).1 < 2 ^ 62 ->
  let c := config_of path symbol date_text in
  let ok := accepted c && passes_smoke scan c in
  let run turns loads := main scan (mkPlugin true true) turns loads [name; path; symbol; date_text] in
  (forall turns loads finished spi, observe scan c turns loads = Some (finished, spi) ->
    run turns loads = Some (if finished && ok then 0 else 3)) /\
  exists turns loads, run turns loads = Some (if ok then 0 else 3).
Proof.
  intros Hz Hlen c ok run.
  assert (forall turns loads finished spi, observe scan c turns loads = Some (finished, spi) ->
    run turns loads = Some (if finished && ok then 0 else 3)) as Hobs.
  { intros turns loads finished spi Ho. unfold run, main. cbn [opened entry_points negb orb]. fold c. rewrite Ho.
    cbn [mbind option_bind]. f_equal. unfold ok. destruct (accepted c) eqn:Ha.
    - destruct (accepted_settings c Hz Ha) as [Hc Hp]. by apply (observed scan c Hc Hp turns loads).
    - destruct (refused_observe scan c turns loads eq_refl Ha) as [spi' Hr]. rewrite Hr in Ho. by injection Ho as <- <-. }
  split; [exact Hobs|]. destruct (accepted c) eqn:Ha.
  - destruct (accepted_settings c Hz Ha) as [Hc Hp]. destruct (patient_observe scan c Hc Hp eq_refl) as [spi Ho].
    eexists _, _. by rewrite (Hobs _ _ _ _ Ho).
  - destruct (refused_observe scan c [] [] eq_refl Ha) as [spi Ho]. exists [], [].
    by rewrite (Hobs _ _ _ _ Ho).
Qed.

(** An instrument with an order that is executed and cancelled. *)
Definition smoke_scan (p : list Z) : list (list Z * Z) * result FileScanResult.t :=
  (map (fun m => (m, alen m)) [directory_message; add_message 5; execute_message 5 9; cancel_message 5; cancel_message 5],
   inl (FileScanResult.mk 5 171)).

Lemma parser_smoke_exit_code_witness :
  passes_smoke smoke_scan (config_of [102] [65] (map chr (String.list_ascii_of_string "20190530"))) = true /\
  let c := config_of [102] [65] (map chr (String.list_ascii_of_string "20190530")) in
  let ok := accepted c && passes_smoke smoke_scan c in
  let run turns loads := main smoke_scan (mkPlugin true true) turns loads
    [[112]; [102]; [65]; map chr (String.list_ascii_of_string "20190530")] in
  (forall turns loads finished spi, observe smoke_scan c turns loads = Some (finished, spi) ->
    run turns loads = Some (if finished && ok then 0 else 3)) /\
  exists turns loads, run turns loads = Some (if ok then 0 else 3).
Proof.
  split; [by vm_compute|].
  apply (parser_smoke_exit_code smoke_scan [112] [102] [65]); [by repeat constructor|by vm_compute].
Defined.
End parser_smoke.

(** ** The smoke test of the framework *)

Section uft_smoke.
Import ParserITCHUftSmoke.
Import (hints) CountingStrategy.

Definition is_detail (c : Callback) : bool := match c with order_detail _ => true | transaction _ => false end.
Definition code_of (c : Callback) : list Z := match c with order_detail code | transaction code => code end.

(** The callbacks are as many as expected, at least one, and of the code. *)
Definition as_expected (code : list Z) (expected_orders expected_transactions : Z) (calls : list Callback) : bool :=
  negb (bool_decide (calls = [])) &&
  forallb (fun c => bool_decide (code = code_of c)) calls &&
  (Z.of_nat (length (List.filter is_detail calls)) =? expected_orders) &&
  (Z.of_nat (length (List.filter (fun c => negb (is_detail c)) calls)) =? expected_transactions).

Lemma check_complete_rest s :
  CountingStrategy.check_complete s = s \/ CountingStrategy.check_complete s = s <| CountingStrategy._complete := true |>.
Proof. unfold CountingStrategy.check_complete. destruct (_ && _); [by right|by left]. Qed.

#[local] Arguments counted : simpl never.

Lemma counted_S n x : counted (S n) x = counted n (incr x).
Proof. apply Nat.iter_succ_r. Qed.

(** What the counters are after some callbacks. *)
Lemma counts_after calls s :
  let s' := fold_left callback calls s in
  CountingStrategy._code s' = CountingStrategy._code s /\
  CountingStrategy._expected_orders s' = CountingStrategy._expected_orders s /\
  CountingStrategy._expected_transactions s' = CountingStrategy._expected_transactions s /\
  CountingStrategy._orders s' = counted (length (List.filter is_detail calls)) (CountingStrategy._orders s) /\
  CountingStrategy._transactions s' =
    counted (length (List.filter (fun c => negb (is_detail c)) calls)) (CountingStrategy._transactions s) /\
  CountingStrategy._wrong_code s' =
    counted (length (List.filter (fun c => negb (bool_decide (CountingStrategy._code s = code_of c))) calls))
      (CountingStrategy._wrong_code s).
Proof.
  revert s. induction calls as [|c calls IH]; intros s; [done|]. cbn zeta. cbn [fold_left].
  destruct (IH (callback s c)) as (-> & -> & -> & -> & -> & ->). clear IH.
  cbn [List.filter].
  destruct c as [code|code]; cbn [callback is_detail code_of negb];
    [unfold CountingStrategy.on_order_detail|unfold CountingStrategy.on_transaction];
    unfold CountingStrategy.check_code; destruct (bool_decide _) eqn:Eb; cbn [negb];
    match goal with |- context [CountingStrategy.check_complete ?x] =>
      destruct (check_complete_rest x) as [-> | ->] end;
    cbn; rewrite ?Eb; cbn [negb length]; rewrite ?counted_S; done.
Qed.

(** The test after a callback finds what was counted. *)
Lemma complete_after calls s :
  calls <> [] -> let s' := fold_left callback calls s in
  CountingStrategy._orders s' = CountingStrategy._expected_orders s' ->
  CountingStrategy._transactions s' = CountingStrategy._expected_transactions s' ->
  CountingStrategy._complete s' = true.
Proof.
  intros Hne. destruct calls as [|c calls _] using rev_ind; [done|]. cbn zeta. rewrite fold_left_app. cbn [fold_left].
  generalize (fold_left callback calls s) as s1. intros s1.
  assert (exists x, callback s1 c = CountingStrategy.check_complete x) as [x ->].
  { destruct c; by eexists. }
  unfold CountingStrategy.check_complete. destruct (_ && _) eqn:E; [done|]. intros Ho Ht.
  by rewrite Ho, Ht, !Z.eqb_refl in E.
Qed.

Lemma verdict_after code eo et calls :
  alen calls < 2 ^ 64 ->
  verdict (fold_left callback calls (CountingStrategy.make code eo et)) eo et =
    if as_expected code eo et calls then 0 else 5.
Proof.
  intros Hlen. pose proof (counts_after calls (CountingStrategy.make code eo et)) as (Hc & Heo & Het & Ho & Ht & Hw).
  pose proof (complete_after calls (CountingStrategy.make code eo et)) as Hcomp. cbn zeta in Hcomp.
  set (s := fold_left _ _ _) in *. cbn in Hc, Heo, Het, Ho, Ht, Hw.
  unfold alen in Hlen. pose proof (ParserSmokeFacts.filter_length_le is_detail calls).
  pose proof (ParserSmokeFacts.filter_length_le (fun c => negb (is_detail c)) calls).
  pose proof (ParserSmokeFacts.filter_length_le (fun c => negb (bool_decide (code = code_of c))) calls).
  rewrite counted_zero in Ho, Ht, Hw by lia.
  unfold verdict, as_expected. rewrite Ho, Ht, Hw, ParserSmokeFacts.length_filter_zero.
  rewrite Heo, Het, Ho, Ht in Hcomp.
  assert (existsb (fun c => negb (bool_decide (code = code_of c))) calls =
    negb (forallb (fun c => bool_decide (code = code_of c)) calls)) as ->.
  { clear. induction calls as [|c calls IH]; [done|]. cbn. rewrite IH. by destruct (bool_decide _). }
  destruct (bool_decide_reflect (calls = [])) as [E|E].
  { clear Hcomp. unfold s. rewrite E. cbn. done. }
  specialize (Hcomp E).
  destruct (Z.eqb_spec (Z.of_nat (length (List.filter is_detail calls))) eo) as [Eo|],
    (Z.eqb_spec (Z.of_nat (length (List.filter (fun c => negb (is_detail c)) calls))) et) as [Et|];
    cbn [negb andb]; rewrite ?orb_true_r, ?andb_false_r; try done.
  rewrite (Hcomp Eo Et). by destruct (forallb _ calls).
Qed.

(** The waiting loop hears the callbacks of the polls it makes. *)
Lemma wait_hears polls s s' :
  wait s polls = Some s' -> exists n, s' = fold_left callback (concat (map callbacks (take n polls))) s.
Proof.
  revert s. induction polls as [|poll polls IH]; intros s; cbn [wait]; [done|].
  assert (fold_left callback (concat (map callbacks (take 1 (poll :: polls)))) s =
    fold_left callback (callbacks poll) s) as H1 by (cbn; by rewrite app_nil_r).
  destruct (_ && _); [intros [= <-]; by exists 1%nat|]. destruct (expired poll); [intros [= <-]; by exists 1%nat|].
  intros (n & ->)%IH. exists (S n). cbn. by rewrite fold_left_app.
Qed.

Lemma wait_ends polls s : Exists (fun poll => expired poll = true) polls -> is_Some (wait s polls).
Proof.
  intros He. revert s. induction He as [poll polls E|poll polls _ IH]; intros s; cbn [wait].
  - rewrite E. by destruct (_ && _).
  - destruct (_ && _); [done|]. by destruct (expired poll).
Qed.

(** The smoke test of the framework: once the deadline is over it ends, with 0
    exactly when the callbacks made until the parser was released are as many as
    expected, and of the code asked for. *)
Theorem uft_smoke_exit_code f name symbol date_text sessions commodities contracts orders_text transactions_text
    date orders transactions :
  parse_u64 date_text = Some date -> parse_u64 orders_text = Some orders ->
  parse_u64 transactions_text = Some transactions -> base_data_loaded f = true -> parser_started f = true ->
  Exists (fun poll => expired poll = true) (polls f) ->
  alen (concat (map callbacks (polls f)) ++ last_callbacks f) < 2 ^ 64 ->
  exists n, let heard := concat (map callbacks (take n (polls f))) ++ last_callbacks f in
    main f [name; symbol; date_text; sessions; commodities; contracts; orders_text; transactions_text] =
      Some (if as_expected (std_code symbol) orders transactions heard then 0 else 5).
Proof.
  intros Hd Ho Ht Hb Hp Hex Hlen. unfold main. rewrite Hd, Ho, Ht, Hb, Hp. cbn [negb].
  destruct (wait_ends (polls f) (CountingStrategy.make (std_code symbol) orders transactions) Hex) as [s Hw].
  rewrite Hw. destruct (wait_hears _ _ _ Hw) as [n ->]. exists n. cbn [mbind option_bind].
  rewrite <- fold_left_app, verdict_after; [done|]. revert Hlen. unfold alen. rewrite !length_app.
  rewrite <- (take_drop n (polls f)) at 1. rewrite map_app, concat_app, length_app. lia.
Qed.
End uft_smoke.
