(* ===== verification/Benches.v ===== *)
(** * Programs that measure

    integration/wondertrader/ParserITCH/ParserITCHUftBench.cpp pushes one order
    and one trade into the WonderTrader framework again and again, with and
    without its adapter; bench/UdpLoopbackBench.cpp sends datagrams to itself and
    receives them one by one and in batches; of src/Level2Pipeline.cpp, whose
    threads are in [Level2], here is where its events come from and what [main]
    does around them.  Framework, sockets and files are not part of the
    repository: [route] is what the framework does with a push, [UdpSockets] what
    the kernel does with a call, [opened] what opening a path gives.  Cycle
    counters are readings handed in.

    Their theorems: a framework that calls back once per push is counted exactly;
    over a network that loses nothing the loopback ends, and its checks never
    fail; the pipeline returns 1 exactly when there is nothing to replay; none
    reads outside its samples. *)

From Stdlib Require Import Ascii String.
From stdpp Require Import sorting.
From S2P Require Import Prelude Itch50 BookTypes Binary64 WtsTypes Numerals Level2 Level2Facts Level2Threads.
From S2P Require Import Level2Properties PriceTimeBook PriceTimeFacts PriceTimeMatch PriceTimeExchange.
From S2P Require Import FormalBench FormalBenchFacts.
Import itch50.

(** [std::strtoul(text, nullptr, 10)], cut to 32 bits. *)
Definition strtoul32 (text : list Z) : Z := u32 (from_option fst 0 (strtoull text)).

(** A cycle counter before and after. *)
Record Cycles := mkCycles { begin_cycles : Z; end_cycles : Z }.

Definition elapsed (c : Cycles) : Z := u64 (end_cycles c - begin_cycles c).

(** [percentile]; [None] outside of the vector. *)
Definition percentile (sorted : list Z) (p : Double.t) : option Z :=
  ParserITCHUftFormalBench.percentile sorted p.

(** The percentiles [report] prints: .50, .99 and .999. *)
Definition report (samples : list Z) (overhead : Z) : option (list Z) :=
  let samples := map (fun sample => if overhead <? sample then sample - overhead else 0) samples in
  let sorted := merge_sort Z.le samples in
  p50 ← percentile sorted (Double.div (Double.of_Z 50) (Double.of_Z 100));
  p99 ← percentile sorted (Double.div (Double.of_Z 99) (Double.of_Z 100));
  p999 ← percentile sorted (Double.div (Double.of_Z 999) (Double.of_Z 1000));
  Some [p50; p99; p999].

(** The median of readings with nothing in between. *)
Definition measurement_overhead (count : nat) (clock : nat -> Cycles) : option Z :=
  percentile (merge_sort Z.le (map (fun i => elapsed (clock i)) (seq 0 count)))
    (Double.div (Double.of_Z 50) (Double.of_Z 100)).

Module ParserITCHUftBench.

Module BenchStrategy.
Record t := mk { order_callbacks : Z; transaction_callbacks : Z }.
#[global] Instance eta_bench_strategy : Eta t := fun s => mk (order_callbacks s) (transaction_callbacks s).
Definition zero : t := mk 0 0.
Definition on_order_detail (s : t) : t := s <| order_callbacks ::= incr |>.
Definition on_transaction (s : t) : t := s <| transaction_callbacks ::= incr |>.
End BenchStrategy.
Import (hints) BenchStrategy.

(** What is measured: a push to the engine, or through the adapter; each sets
    the code of its event anew before. *)
Inductive Push := engine_order | adapter_order | engine_transaction | adapter_transaction.

(** The callbacks of the strategy. *)
Inductive Callback := order_detail | transaction.

Definition callback (s : BenchStrategy.t) (c : Callback) : BenchStrategy.t :=
  match c with
  | order_detail => BenchStrategy.on_order_detail s
  | transaction => BenchStrategy.on_transaction s
  end.

Inductive Outcome :=
  | Exit (code : Z)
  | Reported (strategy : BenchStrategy.t) (percentiles : list (list Z))
  | Undefined.

Section bench.
Context {W : Type} (route : W -> Push -> W * list Callback).

Definition invoke (push : Push) (s : W * BenchStrategy.t) : W * BenchStrategy.t :=
  let '(w, strategy) := s in
  let '(w, callbacks) := route w push in
  (w, fold_left callback callbacks strategy).

(** The loop that takes samples. *)
Fixpoint sample_loop (push : Push) (clock : nat -> Cycles) (i count : nat) (s : W * BenchStrategy.t) :
    (W * BenchStrategy.t) * list Z :=
  match count with
  | O => (s, [])
  | S count =>
      let s := invoke push s in
      let '(s, samples) := sample_loop push clock (S i) count s in
      (s, elapsed (clock i) :: samples)
  end.

Definition measure (warmup count : nat) (push : Push) (clock : nat -> Cycles) (s : W * BenchStrategy.t) :
    (W * BenchStrategy.t) * list Z :=
  sample_loop push clock 0 count (Nat.iter warmup (invoke push) s).

(** After the arguments: [clock] are the readings of each measurement. *)
Definition run (samples warmup : nat) (empty : nat -> Cycles) (clock : Push -> nat -> Cycles) (w : W) : Outcome :=
  match measurement_overhead samples empty with
  | None => Undefined
  | Some overhead =>
      let '(s, engine_order_samples) := measure warmup samples engine_order (clock engine_order) (w, BenchStrategy.zero) in
      let '(s, adapter_order_samples) := measure warmup samples adapter_order (clock adapter_order) s in
      let '(s, engine_transaction_samples) := measure warmup samples engine_transaction (clock engine_transaction) s in
      let '(s, adapter_transaction_samples) := measure warmup samples adapter_transaction (clock adapter_transaction) s in
      match
        a ← report engine_order_samples overhead;
        b ← report adapter_order_samples overhead;
        c ← report engine_transaction_samples overhead;
        d ← report adapter_transaction_samples overhead;
        Some [a; b; c; d]
      with
      | None => Undefined
      | Some percentiles => Reported s.2 percentiles
      end
  end.

(** [argv] less the name of the program; whether the framework loaded its files
    and took the parser. *)
Definition main (base_data_loaded parser_initialised : bool) (empty : nat -> Cycles) (clock : Push -> nat -> Cycles)
    (w : W) (argv : list (list Z)) : Outcome :=
  match argv with
  | _ :: _ :: _ :: options =>
      if 2 <? alen options then Exit 2
      else
        let samples := from_option strtoul32 1000000 (options !! 0%nat) in
        let warmup := from_option strtoul32 100000 (options !! 1%nat) in
        if samples =? 0 then Exit 2
        else if negb base_data_loaded then Exit 3
        else if negb parser_initialised then Exit 4
        else run (Z.to_nat samples) (Z.to_nat warmup) empty clock w
  | _ => Exit 2
  end.
End bench.
End ParserITCHUftBench.

Module UdpLoopbackBench.

Module Payload.
Record t := mk { sequence : Z; bytes : list Z }.
#[global] Instance eta_payload : Eta t := fun p => mk (sequence p) (bytes p).
Definition zero : t := mk 0 (replicate 56 0).
End Payload.
Import (hints) Payload.

(** [sizeof(Payload)] *)
Definition payload_size : Z := 64.

(** Blocking sockets: what [send] returns; what [recv] returns and leaves in the
    buffer; what [recvmmsg] returns, with the length and the contents of every
    message.  [None]: the call never returns. *)
Class UdpSockets (S : Type) := {
  send : S -> Payload.t -> option (S * Z);
  recv : S -> Payload.t -> option (S * Z * Payload.t);
  recvmmsg : S -> list Payload.t -> option (S * Z * list (Z * Payload.t))
}.

(** How a part of the program ends. *)
Inductive Ending (A : Type) :=
  | Done (a : A)
  | Threw
  | Blocked.
Arguments Done {A} a.
Arguments Threw {A}.
Arguments Blocked {A}.

Definition bind {A B} (m : Ending A) (f : A -> Ending B) : Ending B :=
  match m with Done a => f a | Threw => Threw | Blocked => Blocked end.

Section bench.
Context {S : Type} `{UdpSockets S}.

Definition send_exact (s : S) (payload : Payload.t) : Ending S :=
  match send s payload with
  | None => Blocked
  | Some (s, sent) => if negb (sent =? payload_size) then Threw else Done s
  end.

Definition receive_exact (s : S) (payload : Payload.t) : Ending (S * Payload.t) :=
  match recv s payload with
  | None => Blocked
  | Some (s, received, payload) => if negb (received =? payload_size) then Threw else Done (s, payload)
  end.

(** One datagram there and back. *)
Definition exchange (sequence : Z) (s : S) (outgoing incoming : Payload.t) : Ending (S * Payload.t * Payload.t) :=
  let outgoing := outgoing <| Payload.sequence := sequence |> in
  bind (send_exact s outgoing) (fun s =>
  bind (receive_exact s incoming) (fun '(s, incoming) =>
  if negb (Payload.sequence incoming =? Payload.sequence outgoing) then Threw else Done (s, outgoing, incoming))).

(** Both loops of single datagrams: [first] is the sequence number of the first. *)
Fixpoint single_loop (first : Z) (index : Z) (count : nat) (s : S) (outgoing incoming : Payload.t) :
    Ending (S * Payload.t * Payload.t) :=
  match count with
  | O => Done (s, outgoing, incoming)
  | Datatypes.S count =>
      bind (exchange (u64 (first + index)) s outgoing incoming) (fun '(s, outgoing, incoming) =>
      single_loop first (index + 1) count s outgoing incoming)
  end.

Definition batch_size : nat := 32.

(** The loop that sends a batch. *)
Fixpoint send_batch (batch : list Payload.t) (next_sequence : Z) (s : S) : Ending (S * list Payload.t * Z) :=
  match batch with
  | [] => Done (s, [], next_sequence)
  | outgoing :: batch =>
      let outgoing := outgoing <| Payload.sequence := next_sequence |> in
      bind (send_exact s outgoing) (fun s =>
      bind (send_batch batch (u64 (next_sequence + 1)) s) (fun '(s, batch, next_sequence) =>
      Done (s, outgoing :: batch, next_sequence)))
  end.

(** The check of a received batch. *)
Definition batch_matches (outgoing : list Payload.t) (received : list (Z * Payload.t)) : bool :=
  forallb (fun '(out, (length, incoming)) =>
    (length =? payload_size) && (Payload.sequence incoming =? Payload.sequence out)) (combine outgoing received).

Fixpoint batch_loop (count : nat) (s : S) (outgoing incoming : list Payload.t) (next_sequence : Z) : Ending S :=
  match count with
  | O => Done s
  | Datatypes.S count =>
      bind (send_batch outgoing next_sequence s) (fun '(s, outgoing, next_sequence) =>
      match recvmmsg s incoming with
      | None => Blocked
      | Some (s, received, messages) =>
          if negb (received =? Z.of_nat batch_size) then Threw
          else if negb (batch_matches outgoing messages) then Threw
          else batch_loop count s outgoing (map snd messages) next_sequence
      end)
  end.

Inductive Outcome := Exit (code : Z) | Waiting | Undefined.

(** After the sockets are set up. *)
Definition run (samples warmup : Z) (s : S) : Ending S :=
  bind (single_loop 0 0 (Z.to_nat warmup) s Payload.zero Payload.zero) (fun '(s, outgoing, incoming) =>
  bind (single_loop warmup 0 (Z.to_nat samples) s outgoing incoming) (fun '(s, _, _) =>
  batch_loop (Z.to_nat samples) s (replicate batch_size Payload.zero) (replicate batch_size Payload.zero)
    (u64 (warmup + samples)))).

(** [argv] less the name of the program; [sockets]: what setting them up gave.
    [single], [batched] and [empty] are the readings of the measurements. *)
Definition main (sockets : option S) (single batched empty : nat -> Cycles) (argv : list (list Z)) : Outcome :=
  let samples := from_option strtoul32 100000 (argv !! 0%nat) in
  let warmup := from_option strtoul32 10000 (argv !! 1%nat) in
  if samples =? 0 then Exit 2
  else
    match sockets with
    | None => Exit 1
    | Some s =>
        match run samples warmup s with
        | Threw => Exit 1
        | Blocked => Waiting
        | Done _ =>
            let readings clock := map (fun i => elapsed (clock i)) (seq 0 (Z.to_nat samples)) in
            match
              overhead ← measurement_overhead (Z.to_nat 100000) empty;
              a ← report (readings single) overhead;
              b ← report (readings batched) overhead;
              Some [a; b]
            with
            | None => Undefined
            | Some _ => Exit 0
            end
        end
    end.
End bench.
End UdpLoopbackBench.

(** The rest of src/Level2Pipeline.cpp: where the events come from, and what
    [main] does around the three threads. *)
Module Level2Program.
Import Level2Pipeline.

(** A file that could be opened, and whether reading it went well. *)
Record Input := mkInput { contents : list Z; read_completes : bool }.

(** How the program ends: with an exit code, aborted while the book is made, or
    having read outside its samples. *)
Inductive Outcome := Exit (code : Z) | Aborted | Undefined.

Section program.
Context {B : Type} `{OrderBook B} `{DataItem} (item_bytes : Z).
(** [sizeof(WTSOrdDtlStruct)], and the structure some bytes hold. *)
Context (order_bytes : nat) (decode : list Z -> WTSOrdDtlStruct.t).

Fixpoint decode_all (count : nat) (bytes : list Z) : list WTSOrdDtlStruct.t :=
  match count with
  | O => []
  | S count => decode (take order_bytes bytes) :: decode_all count (drop order_bytes bytes)
  end.

(** [load_events]; [opened] is what opening a path gives. *)
Definition load_events (opened : list Z -> option Input) (path : option (list Z)) (generated_count : nat) :
    list WTSOrdDtlStruct.t :=
  match path with
  | None => generated_events generated_count
  | Some path =>
      match opened path with
      | None => []
      | Some input =>
          let size := alen (contents input) in
          if (size <=? 0) || negb (size mod Z.of_nat order_bytes =? 0) then []
          else if negb (read_completes input) then []
          else decode_all (Z.to_nat (size / Z.of_nat order_bytes)) (contents input)
      end
  end.

(** [argv[1][0]] of an empty text is its zero. *)
Definition input_path (argv : list (list Z)) : option (list Z) :=
  path ← argv !! 0%nat;
  if byte_at path 0 =? chr "-" then None else Some path.

Definition generated_count (argv : list (list Z)) : Z :=
  match argv !! 1%nat with
  | Some text => from_option fst 0 (strtoull text)
  | None => 200000
  end.

Definition is_paced (argv : list (list Z)) : bool :=
  match argv !! 2%nat with
  | Some text => bool_decide (text = map chr (String.list_ascii_of_string "paced"))
  | None => false
  end.

(** [report]: the percentiles and the last of a stage; [None] outside of them. *)
Definition stage_report (field : StageSample.t -> Z) (samples : list StageSample.t) : option (list Z) :=
  let values := merge_sort Z.le (map field samples) in
  p50 ← percentile values (Double.div (Double.of_Z 50) (Double.of_Z 100));
  p99 ← percentile values (Double.div (Double.of_Z 99) (Double.of_Z 100));
  p999 ← percentile values (Double.div (Double.of_Z 999) (Double.of_Z 1000));
  back ← last values;
  Some [p50; p99; p999; back].

Definition reports (samples : list StageSample.t) : option (list (list Z)) :=
  a ← stage_report StageSample.shm samples;
  b ← stage_report StageSample.spsc samples;
  c ← stage_report StageSample.book_strategy samples;
  d ← stage_report StageSample.end_to_end samples;
  Some [a; b; c; d].

(** Both joins return. *)
Definition joined (p : t (B := B)) : bool :=
  match publisher p, reader p, consumer p with
  | PublisherDone, ReaderDone, ConsumerDone => true
  | _, _, _ => false
  end.

(** [argv] less the name of the program; [book] makes the book of a source.
    [None]: the schedule is not one of a run, or does not end it. *)
Definition main (opened : list Z -> option Input) (book : list WTSOrdDtlStruct.t -> option B) (argv : list (list Z))
    (epoch : Z) (schedule : list Step) : option Outcome :=
  let path := input_path argv in
  let source := load_events opened path (Z.to_nat (generated_count argv)) in
  if bool_decide (source = []) then Some (Exit 1)
  else
    match book source with
    | None => Some Aborted
    | Some empty =>
        p ← Level2Pipeline.run item_bytes source (is_paced argv) (make item_bytes source epoch empty) schedule;
        if joined p then
          Some match reports (samples p) with
               | None => Undefined
               | Some _ => Exit (exit_code source (bool_decide (path = None)) p)
               end
        else None
    end.
End program.
End Level2Program.

(** * Properties *)

(** ** Reports *)

Lemma report_inside samples overhead :
  samples <> [] -> alen samples < 2 ^ 32 -> is_Some (report samples overhead).
Proof.
  intros Hne Hlen. unfold report, percentile. set (l := map _ samples).
  assert (length l = length samples) as Hl by apply length_map.
  destruct (three_percentiles l) as ([p50 ->] & [p99 ->] & [p999 ->]).
  - intros E. rewrite E in Hl. by destruct samples.
  - unfold alen in *. by rewrite Hl.
  - eexists. reflexivity.
Qed.

Lemma overhead_inside count clock :
  (0 < count)%nat -> Z.of_nat count < 2 ^ 32 -> is_Some (measurement_overhead count clock).
Proof.
  intros Hpos Hlen. unfold measurement_overhead, percentile.
  set (l := map _ _). assert (length l = count) as Hl by (unfold l; by rewrite length_map, length_seq).
  clearbody l. apply three_percentiles.
  - intros ->. cbn in Hl. lia.
  - unfold alen. by rewrite Hl.
Qed.

Lemma strtoul32_range text : 0 <= strtoul32 text < 2 ^ 32.
Proof. unfold strtoul32. apply Z.mod_pos_bound. lia. Qed.

(** ** Callbacks of the framework *)

Section uft_bench.
Import ParserITCHUftBench.
Import (hints) BenchStrategy.
Context {W : Type} (route : W -> Push -> W * list Callback).

Definition kind (push : Push) : Callback :=
  match push with
  | engine_order | adapter_order => order_detail
  | engine_transaction | adapter_transaction => transaction
  end.

(** Every push becomes one callback. *)
Definition delivers : Prop := forall w push, (route w push).2 = [kind push].
Hypothesis Hroute : delivers.

Lemma invoked push s : (invoke route push s).2 = callback s.2 (kind push).
Proof.
  destruct s as [w strategy]. unfold invoke. pose proof (Hroute w push) as Hr. destruct (route w push) as [w' calls].
  cbn in *. by rewrite Hr.
Qed.

Lemma sampled push clock i count s :
  let '(s', samples) := sample_loop route push clock i count s in
  s'.2 = Nat.iter count (fun x => callback x (kind push)) s.2 /\ length samples = count.
Proof.
  revert i s. induction count as [|count IH]; intros i s; [done|]. cbn [sample_loop].
  specialize (IH (S i) (invoke route push s)). destruct (sample_loop _ _ _ _ _ _) as [s' samples].
  destruct IH as [-> Hl]. split; [by rewrite invoked, Nat.iter_succ_r|by cbn; f_equal].
Qed.

Lemma measured warmup count push clock s :
  let '(s', samples) := measure route warmup count push clock s in
  s'.2 = Nat.iter (warmup + count) (fun x => callback x (kind push)) s.2 /\ length samples = count.
Proof.
  unfold measure. pose proof (sampled push clock 0 count (Nat.iter warmup (invoke route push) s)) as Hs.
  destruct (sample_loop _ _ _ _ _ _) as [s' samples]. destruct Hs as [-> Hl]. split; [|done].
  rewrite Nat.add_comm, Nat.iter_add. f_equal. clear Hl. induction warmup as [|n IH]; [done|].
  change (Nat.iter (S n) ?f ?x) with (f (Nat.iter n f x)). cbn beta. by rewrite invoked, IH.
Qed.

(** So many callbacks of a kind. *)
Lemma called_back n push a b :
  0 <= a -> 0 <= b -> a + Z.of_nat n < 2 ^ 64 -> b + Z.of_nat n < 2 ^ 64 ->
  Nat.iter n (fun x => callback x (kind push)) (BenchStrategy.mk a b) =
    match kind push with
    | order_detail => BenchStrategy.mk (a + Z.of_nat n) b
    | transaction => BenchStrategy.mk a (b + Z.of_nat n)
    end.
Proof.
  intros Ha Hb. induction n as [|n IH]; intros Hn Hn'.
  { destruct (kind push); cbn; by rewrite Z.add_0_r. }
  change (Nat.iter (S n) ?f ?x) with (f (Nat.iter n f x)). cbn beta. rewrite IH by lia.
  assert (incr (a + Z.of_nat n) = a + Z.of_nat (S n)) as Ia by (unfold incr; rewrite wrap_small; lia).
  assert (incr (b + Z.of_nat n) = b + Z.of_nat (S n)) as Ib by (unfold incr; rewrite wrap_small; lia).
  rewrite <- Ia, <- Ib. by destruct (kind push).
Qed.

(** The framework benchmark: a framework that calls the strategy back once per
    push is counted exactly, twice the warm-up and the samples of each kind, and
    every percentile printed is one of the samples taken. *)
Theorem uft_bench_outcome empty clock w sessions commodities contracts options :
  let samples := from_option strtoul32 1000000 (options !! 0%nat) in
  let warmup := from_option strtoul32 100000 (options !! 1%nat) in
  alen options <= 2 -> samples <> 0 ->
  exists percentiles,
    main route true true empty clock w ([sessions; commodities; contracts] ++ options) =
      Reported (BenchStrategy.mk (2 * (warmup + samples)) (2 * (warmup + samples))) percentiles /\
    length percentiles = 4%nat.
Proof.
  intros samples warmup Hopt Hne. cbn [app]. unfold main. fold samples warmup.
  rewrite (proj2 (Z.ltb_ge _ _)) by lia. rewrite (proj2 (Z.eqb_neq _ _) Hne). cbn [negb].
  assert (0 <= samples < 2 ^ 32) as Hs.
  { unfold samples. destruct (options !! 0%nat); cbn; [apply strtoul32_range|lia]. }
  assert (0 <= warmup < 2 ^ 32) as Hw.
  { unfold warmup. destruct (options !! 1%nat); cbn; [apply strtoul32_range|lia]. }
  unfold run. set (n := Z.to_nat samples). set (m := Z.to_nat warmup).
  assert (0 < n)%nat as Hn by lia.
  destruct (overhead_inside n empty Hn ltac:(lia)) as [overhead ->].
  pose proof (measured m n engine_order (clock engine_order) (w, BenchStrategy.zero)) as H1.
  destruct (measure _ _ _ _ _ _) as [s1 l1]. destruct H1 as [E1 L1].
  pose proof (measured m n adapter_order (clock adapter_order) s1) as H2.
  destruct (measure _ _ _ _ _ _) as [s2 l2]. destruct H2 as [E2 L2].
  pose proof (measured m n engine_transaction (clock engine_transaction) s2) as H3.
  destruct (measure _ _ _ _ _ _) as [s3 l3]. destruct H3 as [E3 L3].
  pose proof (measured m n adapter_transaction (clock adapter_transaction) s3) as H4.
  destruct (measure _ _ _ _ _ _) as [s4 l4]. destruct H4 as [E4 L4].
  assert (forall l, length l = n -> is_Some (report l overhead)) as Hrep.
  { intros l Hl. apply report_inside; [intros ->; cbn in Hl; lia|unfold alen; lia]. }
  destruct (Hrep l1 L1) as [r1 ->], (Hrep l2 L2) as [r2 ->], (Hrep l3 L3) as [r3 ->], (Hrep l4 L4) as [r4 ->].
  cbn [mbind option_bind]. exists [r1; r2; r3; r4]. split; [|done]. f_equal.
  change (snd (w, BenchStrategy.zero)) with (BenchStrategy.mk 0 0) in E1.
  rewrite (called_back (m + n) engine_order) in E1 by lia. cbn [kind] in E1. rewrite E1 in E2.
  rewrite (called_back (m + n) adapter_order) in E2 by lia. cbn [kind] in E2. rewrite E2 in E3.
  rewrite (called_back (m + n) engine_transaction) in E3 by lia. cbn [kind] in E3. rewrite E3 in E4.
  rewrite (called_back (m + n) adapter_transaction) in E4 by lia. cbn [kind] in E4. rewrite E4.
  f_equal; lia.
Qed.
End uft_bench.

(** ** Sockets that lose nothing *)

Import UdpLoopbackBench.
Import (hints) Payload.

(** The datagrams that wait to be received come out in the order they went in,
    and [room] of them fit. *)
Class LosslessSockets (S : Type) `{UdpSockets S} := {
  waiting : S -> list Payload.t;
  room : nat;
  send_lossless s p : (length (waiting s) < room)%nat ->
    exists s', send s p = Some (s', payload_size) /\ waiting s' = waiting s ++ [p];
  recv_next s p rest buffer : waiting s = p :: rest ->
    exists s', recv s buffer = Some (s', payload_size, p) /\ waiting s' = rest;
  recvmmsg_next s now rest buffers : waiting s = now ++ rest -> length now = length buffers ->
    exists s', recvmmsg s buffers = Some (s', Z.of_nat (length now), map (pair payload_size) now) /\ waiting s' = rest
}.

Section udp_bench.
Context {S : Type} `{LosslessSockets S}.

Lemma send_exact_ok s p : (length (waiting s) < room)%nat ->
  exists s', send_exact s p = Done s' /\ waiting s' = waiting s ++ [p].
Proof.
  intros Hr. destruct (send_lossless s p Hr) as (s' & Hsend & Hw). exists s'. split; [|done].
  unfold send_exact. by rewrite Hsend.
Qed.

Lemma exchange_ok n s out inc : waiting s = [] -> (0 < room)%nat ->
  exists s' out' inc', exchange n s out inc = Done (s', out', inc') /\ waiting s' = [].
Proof.
  intros Hw Hr. unfold exchange. set (p := out <| Payload.sequence := n |>).
  destruct (send_exact_ok s p) as (s1 & -> & Hw1); [by rewrite Hw|]. cbn [bind].
  rewrite Hw in Hw1. destruct (recv_next s1 p [] inc Hw1) as (s2 & Hrecv & Hw2).
  unfold receive_exact. rewrite Hrecv, Z.eqb_refl. cbn [negb bind]. rewrite Z.eqb_refl. cbn [negb].
  by exists s2, p, p.
Qed.

Lemma single_ok count first index s out inc : waiting s = [] -> (0 < room)%nat ->
  exists s' out' inc', single_loop first index count s out inc = Done (s', out', inc') /\ waiting s' = [].
Proof.
  intros Hw Hr. revert index s out inc Hw. induction count as [|count IH]; intros index s out inc Hw; cbn [single_loop].
  { by exists s, out, inc. }
  destruct (exchange_ok (u64 (first + index)) s out inc Hw Hr) as (s1 & out1 & inc1 & -> & Hw1). by apply IH.
Qed.

Lemma send_batch_ok batch n s : (length (waiting s) + length batch <= room)%nat ->
  exists s' batch' n', send_batch batch n s = Done (s', batch', n') /\ waiting s' = waiting s ++ batch' /\
    length batch' = length batch.
Proof.
  revert n s. induction batch as [|out batch IH]; intros n s Hr; cbn [send_batch].
  { exists s, [], n. by rewrite app_nil_r. }
  cbn [length] in Hr. set (p := out <| Payload.sequence := n |>).
  destruct (send_exact_ok s p) as (s1 & -> & Hw1); [lia|]. cbn [bind].
  destruct (IH (u64 (n + 1)) s1) as (s2 & batch' & n' & -> & Hw2 & Hl).
  { rewrite Hw1, length_app. cbn. lia. }
  exists s2, (p :: batch'), n'. split; [done|]. rewrite Hw2, Hw1, <- app_assoc. split; [done|by cbn; f_equal].
Qed.

Lemma batch_matches_same batch : batch_matches batch (map (pair payload_size) batch) = true.
Proof.
  induction batch as [|p batch IH]; [done|]. unfold batch_matches in *. cbn [map combine forallb].
  by rewrite IH, !Z.eqb_refl.
Qed.

Lemma batch_ok count s outgoing incoming n :
  waiting s = [] -> length outgoing = batch_size -> length incoming = batch_size -> (batch_size <= room)%nat ->
  exists s', batch_loop count s outgoing incoming n = Done s' /\ waiting s' = [].
Proof.
  intros Hw Ho Hi Hr. revert s outgoing incoming n Hw Ho Hi.
  induction count as [|count IH]; intros s outgoing incoming n Hw Ho Hi; cbn [batch_loop]; [by exists s|].
  destruct (send_batch_ok outgoing n s) as (s1 & batch & n' & -> & Hw1 & Hl); [rewrite Hw, Ho; cbn [length]; lia|].
  cbn [bind]. rewrite Hw in Hw1. cbn [app] in Hw1.
  destruct (recvmmsg_next s1 batch [] incoming) as (s2 & -> & Hw2); [by rewrite app_nil_r|congruence|].
  rewrite Hl, Ho, Z.eqb_refl, batch_matches_same. cbn [negb]. apply IH; [done|congruence|].
  by rewrite !length_map, Hl, Ho.
Qed.

(** The loopback benchmark: over sockets that lose nothing and hold a batch, the
    program ends with 0, whatever the numbers of samples and of warm-up rounds:
    no call blocks, every sequence number received is the one just sent, no batch
    is short, and no percentile is read outside its samples. *)
Theorem udp_bench_outcome s single batched empty argv :
  waiting s = [] -> (batch_size <= room)%nat -> from_option strtoul32 100000 (argv !! 0%nat) <> 0 ->
  main (Some s) single batched empty argv = Exit 0.
Proof.
  intros Hw Hr Hne. unfold main. set (samples := from_option strtoul32 100000 _) in *.
  set (warmup := from_option strtoul32 10000 _). rewrite (proj2 (Z.eqb_neq _ _) Hne).
  assert (0 <= samples < 2 ^ 32) as Hs.
  { unfold samples. destruct (argv !! 0%nat); cbn; [apply strtoul32_range|lia]. }
  assert (0 < room)%nat as Hpos by (unfold batch_size in Hr; lia).
  clearbody samples warmup. unfold run.
  destruct (single_ok (Z.to_nat warmup) 0 0 s Payload.zero Payload.zero Hw Hpos) as (s1 & out1 & inc1 & -> & Hw1).
  cbn [bind].
  destruct (single_ok (Z.to_nat samples) warmup 0 s1 out1 inc1 Hw1 Hpos) as (s2 & out2 & inc2 & -> & Hw2).
  cbn [bind].
  destruct (batch_ok (Z.to_nat samples) s2 (replicate batch_size Payload.zero) (replicate batch_size Payload.zero)
    (u64 (warmup + samples)) Hw2 (length_replicate _ _) (length_replicate _ _) Hr) as (s3 & -> & _).
  destruct (overhead_inside (Z.to_nat 100000) empty ltac:(lia) ltac:(lia)) as [overhead ->]. cbn [mbind option_bind].
  assert (forall clock, is_Some (report (map (fun i => elapsed (clock i)) (seq 0 (Z.to_nat samples))) overhead)) as Hrep.
  { intros clock. apply report_inside.
    - intros E%(f_equal length). rewrite length_map, length_seq in E. cbn in E. lia.
    - unfold alen. rewrite length_map, length_seq. lia. }
  destruct (Hrep single) as [a ->]. cbn [mbind option_bind]. by destruct (Hrep batched) as [b ->].
Qed.
End udp_bench.

(** A socket pair that is a queue, with room for a batch. *)
#[export] Instance queue_sockets : UdpSockets (list Payload.t) := {
  send q p := if (length q <? batch_size)%nat then Some (q ++ [p], payload_size) else Some (q, -1);
  recv q buffer := match q with [] => None | p :: rest => Some (rest, payload_size, p) end;
  recvmmsg q buffers :=
    if (length q <? length buffers)%nat then None
    else Some (drop (length buffers) q, Z.of_nat (length buffers),
      map (pair payload_size) (take (length buffers) q))
}.

#[export, program] Instance queue_lossless : LosslessSockets (list Payload.t) := {
  waiting q := q;
  room := batch_size
}.
Next Obligation.
  intros q p Hq. exists (q ++ [p]). cbn [send queue_sockets]. by rewrite (proj2 (Nat.ltb_lt _ _) Hq).
Qed.
Next Obligation. intros q p rest buffer ->. by exists rest. Qed.
Next Obligation.
  intros q now rest buffers -> Hl. exists rest. cbn [recvmmsg queue_sockets]. rewrite length_app, <- Hl.
  rewrite (proj2 (Nat.ltb_ge _ _)) by lia. by rewrite take_app_length, drop_app_length.
Qed.

Lemma queue_bench_ends single batched empty :
  main (Some ([] : list Payload.t)) single batched empty [] = Exit 0.
Proof. apply (udp_bench_outcome ([] : list Payload.t)); [reflexivity|exact (le_n _)|discriminate]. Qed.

(** ** The whole Level-2 program *)

Section level2_program.
Import Level2Pipeline Level2Program.
Context {B : Type} `{OrderBook B} `{DataItem} (item_bytes : Z) (order_bytes : nat) (decode : list Z -> WTSOrdDtlStruct.t).

Lemma joined_finished (p : t (B := B)) : joined p = true <-> finished p.
Proof.
  unfold joined, finished. destruct (publisher p), (reader p), (consumer p); split; try done; by intros (? & ? & ?).
Qed.

Lemma reports_inside samples : samples <> [] -> alen samples < 2 ^ 32 -> is_Some (reports samples).
Proof.
  intros Hne Hlen. assert (forall field, is_Some (stage_report field samples)) as Hst.
  { intros field. unfold stage_report, percentile. set (l := map field samples).
    assert (length l = length samples) as Hl by apply length_map.
    assert (l <> []) as Hl0 by (intros E; rewrite E in Hl; by destruct samples).
    destruct (three_percentiles l Hl0) as ([p50 ->] & [p99 ->] & [p999 ->]); [unfold alen in *; by rewrite Hl|].
    cbn [mbind option_bind]. destruct (last (merge_sort Z.le l)) as [back|] eqn:E; [eexists; reflexivity|].
    apply last_None in E. apply (f_equal length) in E. rewrite sorted_length in E. by destruct l. }
  unfold reports. destruct (Hst StageSample.shm) as [a ->], (Hst StageSample.spsc) as [b ->],
    (Hst StageSample.book_strategy) as [c ->], (Hst StageSample.end_to_end) as [d ->]. eexists. reflexivity.
Qed.

(** A finished run has taken one sample per event. *)
Lemma finished_samples source paced epoch empty schedule (p : t (B := B)) :
  items_ok item_bytes source -> Level2Pipeline.size source < 2 ^ 63 ->
  Level2Pipeline.run item_bytes source paced (make item_bytes source epoch empty) schedule = Some p -> finished p ->
  alen (samples p) = alen source.
Proof.
  intros Hitems Hsize Hr (_ & _ & Hc).
  destruct (l2_run_ok item_bytes source paced Hitems Hsize empty _ [] [] _ _ (inv_make item_bytes source epoch empty) Hr)
    as (pushed & popped & Hi).
  destruct (i_consumer _ _ _ _ _ _ Hi) as (_ & _ & Hl & _ & Hco). rewrite Hc in Hco. destruct Hco as [_ Hrec].
  by rewrite Hl, Hrec.
Qed.

(** The program over a book that keeps its promises: it returns 1 exactly when
    there is nothing to replay; a run that ends prints percentiles of what it
    measured, and returns what the three threads found, 0 or 2. *)
Theorem level2_program_outcome opened book argv epoch schedule outcome :
  let source := load_events order_bytes decode opened (input_path argv) (Z.to_nat (generated_count argv)) in
  items_ok item_bytes source -> alen source < 2 ^ 32 ->
  Level2Program.main item_bytes order_bytes decode opened book argv epoch schedule = Some outcome ->
  (source = [] /\ outcome = Level2Program.Exit 1) \/
  (source <> [] /\ book source = None /\ outcome = Aborted) \/
  exists empty p, source <> [] /\ book source = Some empty /\
    Level2Pipeline.run item_bytes source (is_paced argv) (make item_bytes source epoch empty) schedule = Some p /\
    finished p /\ outcome = Level2Program.Exit (exit_code source (bool_decide (input_path argv = None)) p).
Proof.
  intros source Hitems Hlen. unfold Level2Program.main. fold source.
  destruct (bool_decide_reflect (source = [])) as [|Hne]; [intros [= <-]; by left|].
  destruct (book source) as [empty|] eqn:Eb; [|intros [= <-]; right; by left].
  destruct (Level2Pipeline.run _ _ _ _ _) as [p|] eqn:Er; [|done]. cbn [mbind option_bind].
  destruct (joined p) eqn:Ej; [|done]. apply joined_finished in Ej.
  assert (Level2Pipeline.size source < 2 ^ 63) as Hsize by (change (alen source < 2 ^ 63); lia).
  pose proof (finished_samples _ _ _ _ _ _ Hitems Hsize Er Ej) as Hs.
  destruct (reports_inside (samples p)) as [r ->].
  - intros E. rewrite E in Hs. unfold alen in Hs. cbn in Hs. by destruct source.
  - by rewrite Hs.
  - intros [= <-]. right; right. by exists empty, p.
Qed.
End level2_program.
